(* ===== verification/_CoqProject ===== *)
-Q . S2P
Prelude.v
GoStrings.v
Types.v
Json.v
JsonText.v
JobMeta.v
JobMetaCodec.v
Hydra.v
Spec.v
Db.v
Tx.v
Queries.v
JobChain.v
Lifecycle.v
LogChunk.v
LogStreamer.v
LogIngest.v
Tokens.v
Store.v
Plan.v
Config.v
Auth.v
ClaimSpec.v
Recovery.v
Projects.v
Handlers.v
Submit.v
Completion.v
Chains.v
Claim.v
Frame.v
Invariant.v
ClaimSafety.v
CancelSafety.v
LaunchSafety.v
ProjectSafety.v
SubmitExact.v
ProjectExact.v
RestartSafety.v
AuthSafety.v
WaveStatus.v
RecoverySafety.v
CompletionSafety.v
CompletionOutcome.v
CompletionService.v
ClaimService.v
HandlerSafety.v
Machine.v
Sample.v
CompletionProps.v
MachineProps.v
ClaimProps.v
StoreProps.v
DataProps.v
SpecProps.v
ProjectProps.v
AuthProps.v
Ring.v
Stream.v
Sse.v
SseClient.v
NodeReport.v
GateImage.v
GatePlan.v
GateRun.v
GateSafety.v
NodeClaim.v
NodeManifest.v
Compose.v
SpecCompiler.v
NodeSlots.v
StreamSafety.v
StreamCalls.v
StreamClient.v
StreamProps.v
ClientProps.v
LogProps.v
NodeProps.v
GateProps.v
CompilerProps.v
