(* ===== verification/Prelude.v ===== *)
(** * Ploy: a verification development of the control plane

    Ploy runs code migrations over many repositories. A server keeps waves of runs
    in PostgreSQL; a run executes, per attempt, a chain of jobs (a build gate, one
    job per step of the spec, a build gate) on nodes that ask the server for work,
    report the end of each job, and follow it up through event streams. This library
    models that server, the contracts it shares with its nodes, the store below it and
    the decisions of a node, and proves what makes them correct.

    ** The program and the files that model it

    - Go's strings, JSON and the domain types: [GoStrings] ([strings], [path]),
      [Json] ([encoding/json] on the payloads the server decodes), [JsonText] (JSON
      as text: quoting, parsing, UTF-8), [Types]
      ([internal/domain/types], [internal/migs/api]).
    - The contracts between server and node ([internal/workflow/contracts]):
      [JobMeta] and [JobMetaCodec] (job metadata and its encoding), [Hydra] (file
      entries of a spec), [Spec] (specs: types, decoding, validation).
    - The store ([internal/store]): [Db] (tables as finite maps of rows, with the
      constraints of [schema.sql]), [Tx] (sessions, transactions and failing
      statements), [Queries] (one function per SQL statement), [Store] (the
      operations of [PgStore], one Rocq program per method).
    - The rules of runs: [JobChain] ([internal/workflow/jobchain]), [Lifecycle]
      ([internal/workflow/lifecycle]), [Plan] ([migs_ticket.go]), [Recovery]
      ([internal/server/recovery]).
    - The server ([internal/server]): [Tokens] (ephemeral tokens; their hashes in [Recovery]),
      [Config] (runtime configuration), [Auth] (roles, routes, bearer tokens and the
      enrollment of nodes), [Projects] (migs, their specs and their
      repositories), [Submit] (launches and submissions), [Handlers] (cancel and
      restart), [Completion] and [CompletionService] (end of a job), [Claim], [ClaimSpec] and
      [ClaimService] (what a node gets when it asks for work).
    - Event streams ([internal/stream]): [Ring] (bounded history), [Stream] (streams,
      subscribers and their channels), [Sse] (the frames on the wire and the cursor a
      client sends), [SseClient] (the reconnecting client of [internal/cli/stream] with
      the back-off of [internal/workflow/backoff]), [StreamClient] (the two ends
      together).

    - Job logs: [LogChunk] (framed records, [internal/logchunk]), [LogStreamer] (the
      node's streamer, [internal/nodeagent/logstreamer.go]), [LogIngest] (the request,
      the endpoint that stores a chunk, and the log read back).
    - The node ([internal/nodeagent]): [NodeReport] (what is reported of an execution,
      and how: [job_reporting.go], [http.go], [crash_reconcile_terminal.go]), [NodeClaim]
      (a claim turned into a request, the chaining of stack gates, the step of a job, the
      containers found after a crash: [claimer_loop.go], [manifest.go],
      [crash_reconcile.go]), [NodeManifest] (images, environments and gates of a job:
      [manifest.go], [stack_runtime_env.go]), [NodeSlots] (its goroutines over slots, the
      table of jobs and the maintenance lock: [controller.go], [execution.go],
      [job_runtime_cleanup.go]).
    - Build gates ([internal/workflow/step]): [GateImage] (templates, the catalog and the
      choice of an image rule), [GatePlan] (the stack policy and the plan), [GateRun] (the
      run, its metadata, its verdict and its report), with [GateSafety].
    - The spec compiler ([internal/speccompiler]): [Compose] (paths, includes and merge keys:
      [includes.go], [repository_source.go]), [SpecCompiler] (references between steps, the
      environment, overrides, the build of a spec: [compiler.go], [refs.go], [overrides.go]).

    A Go method is a definition of the same name. State is passed explicitly: a
    database program is a state transformer over a session ([Tx.M]); an in-memory
    component is a record and functions on it; channels of a stream live on a heap
    because subscribers keep them after the stream has dropped them. Errors are
    values, HTTP answers are status codes with the state they leave.

    ** What fails, and when

    Every statement of the store may fail at any point: a session carries a list of
    faults that decides, statement by statement, which ones do. Inside a transaction
    a failure aborts it, outside it leaves what was committed. The theorems about
    invariants and about rejected requests quantify over all fault lists. Requests
    that overlap are interleavings of steps: rows locked by other sessions for
    claims ([env_locked]), the two writes of a configuration request
    ([Config.env_step]), the critical sections of a stream ([Stream.tstep]), and the
    steps of the goroutines of a node ([NodeSlots.happens]). Between node and server a
    request may not arrive, or its answer may be lost ([NodeReport.Delivery]).

    ** What the theorems show

    - [Machine] and [ProjectProps]: the state machine whose steps are the server's
      operations, with any statements failing, only reaches sound databases: the
      runs are well formed ([Invariant]) and the projects consistent
      ([ProjectSafety]). A launch creates exactly the selected runs ([LaunchSafety],
      [SubmitExact]); a refused one leaves nothing; archiving succeeds exactly
      without running runs ([ProjectExact]); an import is a fold over its records
      ([ProjectExact]).
    - [MachineProps]: a running run has exactly one queued or running job; a
      repository has one active run at most; an attempt stays on one node; a recovery
      cycle ends the attempts of silent nodes; a wave finishes exactly when its runs have.
    - [CompletionProps]: a completion advances the chain, or settles the run; only
      the owner can complete a job; a rejected or failed completion changes nothing;
      a valid report is accepted.
    - [ClaimProps] and [SpecProps]: which job a claim picks; that concurrent claims
      differ; that a claim can be undone; what the node receives; that a job whose
      payload cannot be built goes back to the queue; that file entries stay below
      their roots; how the server's configuration is merged into a spec, and when
      the configuration in memory is the persisted one.
    - [StoreProps]: restarts, resumed runs, cancellation; store operations happen
      entirely or not at all.
    - [DataProps]: chain order, planning, metadata, the token registry against its
      specification, enrollment, and termination of the cancellation walk.
    - [StreamProps]: the ring is a bounded queue; the invariant of streams under
      every interleaving; in-order delivery without gaps to each subscriber.
    - [ClientProps]: the frames carry the events unchanged; a client that reconnects
      after any number of cut connections has received the log in order, without gaps
      or repetitions; it gives up after the allowed number of attempts.
    - [AuthProps] (with [AuthSafety]): a request is served exactly when its caller is
      known and its role may use the route; tokens work until they expire or are
      revoked, and never after; a bootstrap token buys one certificate.
    - [LogProps]: whatever pieces output comes in, whenever chunks go out and in
      whatever order they arrive, the log read back has the lines that were written;
      chunks stay within the limits of both ends.
    - [NodeProps]: a report counts once, whatever is lost on the way, and gets through when
      one attempt does; a job has one execution, with its directories, while no run is
      stopped; executions and clean-up exclude each other; a node never holds more slots
      than it has; the step a job was planned for is the one that is executed; chained
      stack gates agree.
    - [GateProps]: the image of a gate is that of the most specific rule; a gate is planned
      exactly when the policy settles a stack ([GateSafety.settled]); the report of any gate
      is one the server accepts as well formed; the environment of a job.
    - [CompilerProps]: includes and references end and leave none behind; what a merge key
      does to each key; local paths keep their files and stay in the repository; a named
      spec sees allowed variables only, gate images apart; values of the caller for a step.

    Where the code does not do what it means to, a theorem states what it does:
    [second_enrollment_fails], [recovery_fault_strands_run],
    [restart_refused_drops_token], [publish_cancel_race_panics],
    [unbuildable_job_requeued], [config_race_diverges], [archived_mig_runs_again],
    [import_error_spins], [worker_token_irrevocable],
    [resumed_logs_refused], [long_line_hides_chunk], [partial_line_shows_error],
    [recovered_success_refused], [requested_job_cancelled], [stop_allows_second_execution],
    [contradictory_spec_never_starts], [toolless_stack_gate_fails],
    [unreportable_gate_failure], [unlisted_variable_leaks], [crossed_references_refused].

    [Preserving] ([Machine]) is the interface between operations and the machine: an
    operation promises to keep the database well formed under any faults, and the
    files named [*Safety] discharge it.

    ** Bounds and fuel

    Fuel appears where Go loops over data without a structural bound, and is always
    computed from the data: [JobChain.walkChain] takes the number of items (each
    round visits a new one), [Claim.walk_back] the number of jobs, the
    cancellation walk [S (size byID)] ([cancel_walk_terminates]), and
    [GoStrings.trim_rounds] the length of the string; the page scan
    [Projects.scanRunPages] takes one round per run and one more
    ([scan_pages_total]); the parser of [JsonText] takes the length of the text.
    A chain of includes is bounded by the targets of all files ([Compose.all_targets],
    [composition_ends]) and a chain of references by those of all specs
    ([SpecCompiler.all_refs], [references_end]). Only the import loop, which depends on a reader, takes its
    fuel from outside; [import_refines_map] says how much is enough. Counters that Go keeps in 32
    bits wrap ([Lifecycle], the offset of the page scan); the statements about them
    assume fewer than 2^31 runs (2^31 - 200 for the scan). Timestamps are integers of microseconds.

    ** Parameters

    Code outside the repository is a parameter with the behaviour it documents:
    identifier generation, SHA-256, URL parsing and Unicode case folding
    ([Recovery]), [fmt]'s rendering of numbers ([GoFmt]), float rendering
    ([GoFloat]), the order in which Go iterates over a map ([MapOrder]), the JSON
    schema and KSUID libraries ([SpecLib]), [url.Parse] ([UrlLib]), the CSV reader
    of an import, the remote that resolves a ref to a commit, the catalog of
    named specs ([Submit]), the reader of event streams ([SseLib]), the intervals of
    the back-off library ([BackoffLib]), the JWT library ([JwtLib], with its documented
    laws [JwtLaws] and an instance in [Sample]), [compress/gzip] ([GzipLib] with
    [GzipLaws]), calendar dates and certificate
    requests ([Auth]), the environment of a node and the catalog file as the YAML library
    reads it ([GateHost]), what stack detection finds in a checkout ([GatePlan.Workspace]),
    what a container does ([GateRun.Container]), YAML as trees and the decoding of a composed
    one ([Compose.ynode], [YamlLib]), the files of a repository ([Compose.Source]), and the
    compilation of file records ([SpecCompiler.BuildSelected]).

    ** Not modelled

    The containers, mounts, checkouts and other files of a node and its heartbeats, stack
    detection, the CLI and the terminal UI, the file records of specs, object storage, TLS
    and pattern matching of routes, metrics, and the deployment helpers: they are input and
    output around the logic above. The remote cancellation watch of a node and the
    maintenance of its images are left out of [NodeSlots]. Queries that only list rows for
    display are left out of [Queries]; logging is left out everywhere. *)

From stdpp Require Import base gmap sets list sorting strings.
From Stdlib Require Import ZArith Lia.

(** Automation shared by the components. *)
Create HintDb ploy.

(** Case analysis on every [match]/[if] of the goal or of a hypothesis, keeping
    the equations, and closing contradictory branches. *)
Ltac split_match :=
  match goal with
  | |- context [match ?x with _ => _ end] => destruct x eqn:?
  | H : context [match ?x with _ => _ end] |- _ => destruct x eqn:?
  end.

Ltac go_cases := repeat (split_match; simplify_eq/=; try done).

(** Destructs conjunctions and existentials of the context. *)
Ltac unpack :=
  repeat match goal with
  | H : _ ∧ _ |- _ => destruct H
  | H : ∃ _, _ |- _ => destruct H
  end.

(** ** Lists *)

Lemma filter_all {A} (P : A → Prop) `{∀ x, Decision (P x)} l : Forall P l → filter P l = l.
Proof. induction 1; [done|]. by rewrite filter_cons_True by done; f_equal. Qed.

Lemma filter_none {A} (P : A → Prop) `{∀ x, Decision (P x)} l : Forall (λ x, ¬ P x) l → filter P l = [].
Proof. induction 1; [done|]. by rewrite filter_cons_False. Qed.

(** ** Machine integers *)

(** The 64-bit signed integer an arithmetic operation leaves. *)
Definition wrap64 (z : Z) : Z := ((z + 2 ^ 63) mod 2 ^ 64 - 2 ^ 63)%Z.

Lemma wrap64_in z : (- 2 ^ 63 ≤ z < 2 ^ 63)%Z → wrap64 z = z.
Proof. intros Hz. unfold wrap64. rewrite Z.mod_small by lia. lia. Qed.
