(* ===== verification/GoStrings.v ===== *)
(** * The parts of Go's [strings] package the control plane uses

    Go strings are byte strings; here they are [string], one [ascii] per byte.
    [trim_space] strips every encoding of a Unicode space from both ends, as
    [strings.TrimSpace] does. [to_lower] is [strings.ToLower] as far as ASCII text
    can tell: it maps the ASCII letters and the two other runes whose lower case is
    an ASCII letter, and leaves the remaining bytes from 0x80 alone; its callers
    only compare the result with ASCII text. [fold_key] is the folding
    [encoding/json] applies to struct keys, likewise. *)

From S2P Require Import Prelude.
From stdpp Require Import base sets list strings.
From Stdlib Require Import Ascii ZArith Lia.

Abbreviation bytes := (list ascii).
Abbreviation to_bytes := String.list_ascii_of_string.
Abbreviation of_bytes := String.string_of_list_ascii.

Section Trim.

(** UTF-8 encodings of the runes [unicode.IsSpace] accepts. *)
Definition b (n : nat) : ascii := ascii_of_nat n.

Definition space_runes : list bytes :=
  [[b 9]; [b 10]; [b 11]; [b 12]; [b 13]; [b 32];
   [b 194; b 133]; [b 194; b 160]; [b 225; b 154; b 128];
   [b 226; b 128; b 168]; [b 226; b 128; b 169]; [b 226; b 128; b 175];
   [b 226; b 129; b 159]; [b 227; b 128; b 128]]
  ++ ((fun k => [b 226; b 128; b (128 + k)]) <$> seq 0 11).

Fixpoint strip (p l : bytes) : option bytes :=
  match p, l with
  | [], _ => Some l
  | x :: p', y :: l' => if decide (x = y) then strip p' l' else None
  | _ :: _, [] => None
  end.

Fixpoint strip_any (ps : list bytes) (l : bytes) : option bytes :=
  match ps with
  | [] => None
  | p :: ps' => match strip p l with Some l' => Some l' | None => strip_any ps' l end
  end.

(** Strips as long as a pattern matches; every pattern used is non-empty, so
    [length l] rounds are enough ([trim_done]). *)
Fixpoint trim_rounds (n : nat) (ps : list bytes) (l : bytes) : bytes :=
  match n with
  | O => l
  | S n' => match strip_any ps l with Some l' => trim_rounds n' ps l' | None => l end
  end.

Definition trim_left (l : bytes) : bytes := trim_rounds (length l) space_runes l.
Definition trim_right (l : bytes) : bytes :=
  reverse (trim_rounds (length l) (reverse <$> space_runes) (reverse l)).

(** [strings.TrimSpace] *)
Definition trim_space (s : string) : string := of_bytes (trim_right (trim_left (to_bytes s))).

End Trim.

(** [strings.ToLower]; U+0130 and U+212A become [i] and [k]. *)
Definition lower_ascii (c : ascii) : ascii :=
  let n := nat_of_ascii c in
  if (65 <=? n) && (n <=? 90) then ascii_of_nat (n + 32) else c.

Fixpoint find_rune (table : list (bytes * ascii)) (l : bytes) : option (ascii * bytes) :=
  match table with
  | [] => None
  | (p, a) :: table' =>
      match strip p l with Some rest => Some (a, rest) | None => find_rune table' l end
  end.

Fixpoint lower_rounds (n : nat) (table : list (bytes * ascii)) (l : bytes) : bytes :=
  match n, l with
  | S n', c :: l' =>
      match find_rune table l with
      | Some (a, rest) => a :: lower_rounds n' table rest
      | None => lower_ascii c :: lower_rounds n' table l'
      end
  | _, _ => []
  end.

Definition lower_with (table : list (bytes * ascii)) (s : string) : string :=
  of_bytes (lower_rounds (length (to_bytes s)) table (to_bytes s)).

Definition to_lower : string → string :=
  lower_with [([b 196; b 176], "i"%char); ([b 226; b 132; b 170], "k"%char)].

(** U+017F and U+212A fold to [s] and [k]. *)
Definition fold_key : string → string :=
  lower_with [([b 197; b 191], "s"%char); ([b 226; b 132; b 170], "k"%char)].

(** [utf8.ValidString]: no stray, overlong or surrogate encodings. *)
Definition byte_in (lo hi : nat) (c : ascii) : bool :=
  (lo <=? nat_of_ascii c) && (nat_of_ascii c <=? hi).

Fixpoint utf8_rounds (n : nat) (l : bytes) : bool :=
  match n, l with
  | _, [] => true
  | O, _ :: _ => false
  | S n', c :: l' =>
      if byte_in 0 127 c then utf8_rounds n' l'
      else match l' with
           | c1 :: l1 =>
               if byte_in 194 223 c then byte_in 128 191 c1 && utf8_rounds n' l1
               else match l1 with
                    | c2 :: l2 =>
                        if byte_in 224 239 c then
                          byte_in (if byte_in 224 224 c then 160 else 128) (if byte_in 237 237 c then 159 else 191) c1
                          && byte_in 128 191 c2 && utf8_rounds n' l2
                        else match l2 with
                             | c3 :: l3 =>
                                 byte_in 240 244 c
                                 && byte_in (if byte_in 240 240 c then 144 else 128) (if byte_in 244 244 c then 143 else 191) c1
                                 && byte_in 128 191 c2 && byte_in 128 191 c3 && utf8_rounds n' l3
                             | [] => false
                             end
                    | [] => false
                    end
           | [] => false
           end
  end.

Definition utf8_valid (s : string) : bool := utf8_rounds (length (to_bytes s)) (to_bytes s).

(** [strings.HasPrefix], [strings.TrimPrefix], [strings.TrimSuffix] *)
Definition has_prefix (s p : string) : bool :=
  match strip (to_bytes p) (to_bytes s) with Some _ => true | None => false end.

Definition trim_prefix (s p : string) : string :=
  match strip (to_bytes p) (to_bytes s) with Some r => of_bytes r | None => s end.

Definition trim_suffix (s p : string) : string :=
  match strip (reverse (to_bytes p)) (reverse (to_bytes s)) with
  | Some r => of_bytes (reverse r)
  | None => s
  end.

Definition has_suffix (s p : string) : bool :=
  match strip (reverse (to_bytes p)) (reverse (to_bytes s)) with Some _ => true | None => false end.

(** [strings.Split] and [strings.Join] on a separator of one byte, [strings.Index]
    of a byte as the text before and after its first occurrence. *)
Fixpoint split_bytes (c : ascii) (l : bytes) : list bytes :=
  match l with
  | [] => [[]]
  | x :: l' =>
      if decide (x = c) then [] :: split_bytes c l'
      else match split_bytes c l' with w :: ws => (x :: w) :: ws | [] => [[x]] end
  end.

Fixpoint join_bytes (c : ascii) (ws : list bytes) : bytes :=
  match ws with
  | [] => []
  | [w] => w
  | w :: ws' => w ++ c :: join_bytes c ws'
  end.

Fixpoint cut_bytes (c : ascii) (l : bytes) : option (bytes * bytes) :=
  match l with
  | [] => None
  | x :: l' => if decide (x = c) then Some ([], l') else (λ p, (x :: p.1, p.2)) <$> cut_bytes c l'
  end.

Definition split (s : string) (c : ascii) : list string := of_bytes <$> split_bytes c (to_bytes s).
Definition join (ws : list string) (c : ascii) : string := of_bytes (join_bytes c (to_bytes <$> ws)).
Definition cut (s : string) (c : ascii) : option (string * string) :=
  (λ p, (of_bytes p.1, of_bytes p.2)) <$> cut_bytes c (to_bytes s).

(** [path.Clean]: the components of the path, without empty and [.] ones, a [..]
    removing the component before it (and itself where the path is rooted and
    nothing is left). The components are kept last first. *)
Definition clean_step (rooted : bool) (st : list bytes) (w : bytes) : list bytes :=
  if decide (w = [] ∨ w = to_bytes ".") then st
  else if decide (w = to_bytes "..") then
    match st with
    | p :: st' => if decide (p = to_bytes "..") then w :: st else st'
    | [] => if rooted then [] else [w]
    end
  else w :: st.

Definition slash : ascii := "/"%char.

Definition clean_bytes (l : bytes) : bytes :=
  let rooted := bool_decide (head l = Some slash) in
  let body := join_bytes slash (reverse (foldl (clean_step rooted) [] (split_bytes slash l))) in
  if rooted then slash :: body else if decide (body = []) then to_bytes "." else body.

Definition path_clean (s : string) : string := of_bytes (clean_bytes (to_bytes s)).

(** [s[:8]] for the short SHA columns: SQL's [SUBSTRING(s, 1, 8)]. *)
Definition take8 (s : string) : string := of_bytes (take 8 (to_bytes s)).

(** Go's string [<], bytewise. *)
Definition str_ltb (s1 s2 : string) : bool := bool_decide (String.le s1 s2 ∧ s1 ≠ s2).

(** ** Facts *)

Lemma strip_spec p l l' : strip p l = Some l' ↔ l = p ++ l'.
Proof.
  revert l; induction p as [|x p IH]; intros [|y l]; simpl; try (split; congruence).
  case_decide as Hd; [subst; rewrite IH|]; split; congruence.
Qed.

Lemma strip_any_spec ps l l' :
  strip_any ps l = Some l' → ∃ p, p ∈ ps ∧ l = p ++ l'.
Proof.
  induction ps as [|p ps IH]; simpl; [done|].
  destruct (strip p l) eqn:E; intros; simplify_eq.
  - apply strip_spec in E. set_solver.
  - destruct IH as (q & ? & ?); [done|]. set_solver.
Qed.

Lemma strip_any_None ps l : strip_any ps l = None ↔ ∀ p l', p ∈ ps → l ≠ p ++ l'.
Proof.
  induction ps as [|p ps IH]; simpl; [set_solver|].
  destruct (strip p l) eqn:E.
  - apply strip_spec in E. split; [done|]. set_solver.
  - rewrite IH. split; [|set_solver].
    intros H q l' [->|Hq]%elem_of_cons; [|by auto].
    intros Hl. apply strip_spec in Hl. congruence.
Qed.

Section Rounds.
Context (ps : list bytes) (Hne : [] ∉ ps).

Lemma trim_done n l : length l ≤ n → strip_any ps (trim_rounds n ps l) = None.
Proof.
  revert l; induction n as [|n IH]; intros l Hl; simpl.
  - destruct l; [|simpl in Hl; lia]. apply strip_any_None. intros p l' Hp Hnil.
    symmetry in Hnil. apply app_eq_nil in Hnil as [-> _]. done.
  - destruct (strip_any ps l) as [l'|] eqn:E; [|done].
    apply strip_any_spec in E as (p & Hp & ->). apply IH.
    destruct p; [done|]. rewrite length_app in Hl. simpl in Hl. lia.
Qed.

Lemma trim_fix n l : strip_any ps l = None → trim_rounds n ps l = l.
Proof. destruct n; simpl; [done|]. by intros ->. Qed.

Lemma trim_suffix_of n l : ∃ p, l = p ++ trim_rounds n ps l.
Proof using Type.
  revert l; induction n as [|n IH]; intros l; simpl; [by exists []|].
  destruct (strip_any ps l) as [l'|] eqn:E; [|by exists []].
  apply strip_any_spec in E as (p & Hp & ->).
  destruct (IH l') as [q Hq]. exists (p ++ q). by rewrite <-app_assoc, <-Hq.
Qed.

(** What goes is a row of patterns. *)
Lemma trim_prefix_of n l : ∃ qs, Forall (.∈ ps) qs ∧ l = concat qs ++ trim_rounds n ps l.
Proof using Type.
  revert l; induction n as [|n IH]; intros l; simpl; [by exists []|].
  destruct (strip_any ps l) as [l'|] eqn:E; [|by exists []].
  apply strip_any_spec in E as (p & Hp & ->). destruct (IH l') as (qs & Hqs & Hq).
  exists (p :: qs). split; [by constructor|]. simpl. by rewrite <-app_assoc, <-Hq.
Qed.

(** Bytes of no pattern stay. *)
Lemma trim_keeps n l x : Forall (λ p, x ∉ p) ps → x ∈ l → x ∈ trim_rounds n ps l.
Proof using Type.
  intros Hx. revert l. induction n as [|n IH]; intros l Hl; simpl; [done|].
  destruct (strip_any ps l) as [l'|] eqn:E; [|done]. apply strip_any_spec in E as (p & Hp & ->). apply IH.
  apply elem_of_app in Hl as [Hl|Hl]; [|done]. rewrite Forall_forall in Hx. by destruct (Hx p Hp).
Qed.

End Rounds.

Lemma space_runes_ne : [] ∉ space_runes.
Proof. apply (bool_decide_unpack _). vm_compute. exact I. Qed.

Lemma space_runes_rev_ne : [] ∉ reverse <$> space_runes.
Proof. apply (bool_decide_unpack _). vm_compute. exact I. Qed.

(** Text with a byte of no space is not blank. *)
Lemma trim_space_not_blank s x :
  x ∈ to_bytes s → forallb (λ p, bool_decide (x ∉ p)) space_runes = true → trim_space s ≠ "".
Proof.
  intros Hin Hb E. unfold trim_space in E. apply (f_equal to_bytes) in E.
  rewrite String.list_ascii_of_string_of_list_ascii in E. simpl in E.
  assert (Hp : Forall (λ p, x ∉ p) space_runes).
  { apply Forall_forall. intros p Hp. rewrite forallb_forall in Hb.
    by apply (bool_decide_eq_true_1 _), Hb, list_elem_of_In. }
  assert (Hl : x ∈ trim_right (trim_left (to_bytes s))); [|rewrite E in Hl; by apply elem_of_nil in Hl].
  apply elem_of_reverse, trim_keeps; [|by apply elem_of_reverse, trim_keeps].
  apply Forall_fmap, Forall_forall. intros p Hin'. rewrite Forall_forall in Hp. simpl. rewrite elem_of_reverse. by apply Hp.
Qed.

(** Blank text is a row of spaces. *)
Lemma trim_space_blank s : trim_space s = "" → ∃ qs, Forall (.∈ space_runes) qs ∧ to_bytes s = concat qs.
Proof.
  intros E. unfold trim_space in E. apply (f_equal to_bytes) in E.
  rewrite String.list_ascii_of_string_of_list_ascii in E. simpl in E. unfold trim_left in E.
  destruct (trim_prefix_of space_runes (length (to_bytes s)) (to_bytes s)) as (qs & Hqs & Hs).
  set (l := trim_rounds (length (to_bytes s)) space_runes (to_bytes s)) in *. unfold trim_right in E.
  apply (f_equal reverse) in E. rewrite reverse_involutive in E.
  destruct (trim_prefix_of (reverse <$> space_runes) (length l) (reverse l)) as (rs & Hrs & Hl).
  rewrite E, app_nil_r in Hl. apply (f_equal reverse) in Hl. rewrite reverse_involutive in Hl.
  assert (Hr : ∃ qs', Forall (.∈ space_runes) qs' ∧ reverse (concat rs) = concat qs').
  { clear -Hrs. induction Hrs as [|r rs (p & -> & Hp)%list_elem_of_fmap _ (qs & Hqs & IH)]; [by exists []|].
    exists (qs ++ [p]). split; [apply Forall_app; by split; [|constructor]|].
    cbn [concat]. rewrite reverse_app, reverse_involutive, IH, concat_app. cbn [concat]. by rewrite app_nil_r. }
  destruct Hr as (qs' & Hqs' & Hr). exists (qs ++ qs'). split; [by apply Forall_app|]. by rewrite Hs, Hl, Hr, concat_app.
Qed.

(** [TrimSpace] is idempotent. *)
Lemma trim_space_idem s : trim_space (trim_space s) = trim_space s.
Proof.
  unfold trim_space. rewrite String.list_ascii_of_string_of_list_ascii.
  set (l := trim_left (to_bytes s)). f_equal.
  assert (Hl : strip_any space_runes l = None)
    by (apply trim_done; [apply space_runes_ne | done]).
  assert (Hr : strip_any (reverse <$> space_runes) (reverse (trim_right l)) = None).
  { unfold trim_right. rewrite reverse_involutive.
    apply trim_done; [apply space_runes_rev_ne | by rewrite length_reverse]. }
  assert (Hlr : strip_any space_runes (trim_right l) = None).
  { apply strip_any_None. intros p l' Hp Heq.
    destruct (trim_suffix_of (reverse <$> space_runes) (length l) (reverse l)) as [q Hq].
    apply (f_equal reverse) in Hq. rewrite reverse_involutive, reverse_app in Hq.
    fold (trim_right l) in Hq.
    rewrite Heq, <-app_assoc in Hq.
    by eapply (proj1 (strip_any_None _ _) Hl). }
  unfold trim_left at 1. rewrite trim_fix by done.
  unfold trim_right at 1. rewrite trim_fix by done. apply reverse_involutive.
Qed.

Lemma has_prefix_spec s p : has_prefix s p = true ↔ ∃ r, to_bytes s = to_bytes p ++ r.
Proof.
  unfold has_prefix. destruct (strip _ _) eqn:E.
  - apply strip_spec in E. naive_solver.
  - split; [done|]. intros [r Hr]. apply strip_spec in Hr. congruence.
Qed.

Lemma str_ltb_trans s1 s2 s3 :
  str_ltb s1 s2 = true → str_ltb s2 s3 = true → str_ltb s1 s3 = true.
Proof.
  unfold str_ltb. rewrite !bool_decide_eq_true. intros [? ?] [? ?]. split.
  - by etrans.
  - intros ->. apply H0. by apply (anti_symm String.le).
Qed.

Lemma str_ltb_irrefl s : str_ltb s s = false.
Proof. unfold str_ltb. apply bool_decide_eq_false. naive_solver. Qed.

Lemma str_ltb_total s1 s2 : s1 ≠ s2 → str_ltb s1 s2 = false → str_ltb s2 s1 = true.
Proof.
  unfold str_ltb. rewrite bool_decide_eq_true, bool_decide_eq_false. intros Hne Hn.
  destruct (total String.le s1 s2); naive_solver.
Qed.

(** ** Splitting and joining *)

Lemma to_of l : to_bytes (of_bytes l) = l.
Proof. apply String.list_ascii_of_string_of_list_ascii. Qed.

Lemma of_to s : of_bytes (to_bytes s) = s.
Proof. apply String.string_of_list_ascii_of_string. Qed.

Lemma of_bytes_inj l1 l2 : of_bytes l1 = of_bytes l2 → l1 = l2.
Proof. intros E. by rewrite <-(to_of l1), E, to_of. Qed.

Lemma to_bytes_app s1 s2 : to_bytes (s1 +:+ s2) = to_bytes s1 ++ to_bytes s2.
Proof. induction s1; simpl; [done|]. by f_equal. Qed.

Lemma split_bytes_ne c l : split_bytes c l ≠ [].
Proof. destruct l; simpl; [done|]. case_decide; [done|]. by destruct (split_bytes c l). Qed.

Lemma split_bytes_free c l : Forall (λ w, c ∉ w) (split_bytes c l).
Proof.
  induction l as [|x l IH]; simpl; [repeat constructor; apply not_elem_of_nil|].
  case_decide as Hx; [constructor; [apply not_elem_of_nil|done]|].
  destruct (split_bytes c l); [repeat constructor; set_solver|].
  apply Forall_cons in IH as [Hw IH]. constructor; [set_solver|done].
Qed.

Lemma join_split c l : join_bytes c (split_bytes c l) = l.
Proof.
  induction l as [|x l IH]; simpl; [done|]. pose proof (split_bytes_ne c l).
  case_decide as Hx; destruct (split_bytes c l) as [|w ws]; try done.
  - simpl in *. by rewrite IH, Hx.
  - destruct ws; simpl in *; by rewrite <-IH.
Qed.

Lemma split_free c w : c ∉ w → split_bytes c w = [w].
Proof.
  induction w as [|x w IH]; simpl; [done|]. rewrite not_elem_of_cons. intros [? ?].
  rewrite decide_False by congruence. by rewrite IH.
Qed.

Lemma split_app c w l : c ∉ w → split_bytes c (w ++ c :: l) = w :: split_bytes c l.
Proof.
  induction w as [|x w IH]; simpl; [by rewrite decide_True|].
  rewrite not_elem_of_cons. intros [? ?]. rewrite decide_False by congruence. by rewrite IH.
Qed.

Lemma split_join c ws : ws ≠ [] → Forall (λ w, c ∉ w) ws → split_bytes c (join_bytes c ws) = ws.
Proof.
  intros Hne Hf. induction Hf as [|w ws Hw Hf IH]; [done|].
  destruct ws as [|w' ws]; [by apply split_free|].
  change (join_bytes c (w :: w' :: ws)) with (w ++ c :: join_bytes c (w' :: ws)).
  by rewrite split_app, IH.
Qed.

Lemma cut_app c w l : c ∉ w → cut_bytes c (w ++ c :: l) = Some (w, l).
Proof.
  induction w as [|x w IH]; simpl; [by rewrite decide_True|].
  rewrite not_elem_of_cons. intros [? ?]. rewrite decide_False by congruence. by rewrite IH.
Qed.

Lemma cut_Some c l w r : cut_bytes c l = Some (w, r) ↔ l = w ++ c :: r ∧ c ∉ w.
Proof.
  split; [|intros [-> ?]; by apply cut_app].
  revert w. induction l as [|x l IH]; intros w; simpl; [done|].
  case_decide as Hx; [intros [= <- <-]; subst; split; [done|apply not_elem_of_nil]|].
  intros ([w' r'] & Hw & [= -> ->])%fmap_Some. simpl in *. destruct (IH _ Hw) as [-> ?].
  split; [done|]. by apply not_elem_of_cons.
Qed.

Lemma cut_None c l : cut_bytes c l = None ↔ c ∉ l.
Proof.
  induction l as [|x l IH]; simpl; [split; [intros _; apply not_elem_of_nil|done]|].
  rewrite not_elem_of_cons. case_decide as Hx; [split; [done|naive_solver]|].
  rewrite fmap_None, IH. split; [|naive_solver]. intros ?; split; congruence.
Qed.

(** ** Clean paths *)

(** A component [path.Clean] keeps as it is. *)
Definition plain (w : bytes) : Prop := w ≠ [] ∧ w ≠ to_bytes "." ∧ w ≠ to_bytes "..".

#[export] Instance plain_dec w : Decision (plain w).
Proof. unfold plain. apply _. Defined.

Lemma clean_fold rooted st ws :
  to_bytes ".." ∉ ws → foldl (clean_step rooted) st ws = reverse (filter plain ws) ++ st.
Proof.
  revert st. induction ws as [|w ws IH]; intros st Hd; [done|].
  apply not_elem_of_cons in Hd as [Hw Hd]. cbn [foldl]. rewrite IH by done. unfold clean_step.
  case_decide as Hs.
  - rewrite filter_cons_False; [done|]. unfold plain. naive_solver.
  - rewrite decide_False by congruence. rewrite filter_cons_True.
    + by rewrite reverse_cons, <-app_assoc.
    + unfold plain. split_and!; naive_solver.
Qed.

(** The cleaned form of a path without [..] components. *)
Lemma clean_no_dotdot l :
  to_bytes ".." ∉ split_bytes slash l →
  clean_bytes l =
    let body := join_bytes slash (filter plain (split_bytes slash l)) in
    if decide (head l = Some slash) then slash :: body
    else if decide (body = []) then to_bytes "." else body.
Proof.
  intros Hd. unfold clean_bytes. rewrite clean_fold by done.
  rewrite app_nil_r, reverse_involutive. simpl.
  destruct (decide (head l = Some slash)); [by rewrite bool_decide_eq_true_2|].
  by rewrite bool_decide_eq_false_2.
Qed.
