(* ===== verification/Types.v ===== *)
(** * Domain types ([internal/domain/types], [internal/migs/api])

    Status enumerations with their wire and database encodings, job types,
    string identifiers and commit SHAs. A Go string newtype with a [Validate]
    method is an [Inductive] here, together with the partial map from strings
    that [Validate] accepts. *)

From S2P Require Import Prelude GoStrings.
From stdpp Require Import base sets list strings countable finite.
From Stdlib Require Import Ascii ZArith Lia.

(** ** Enumerations stored as strings *)

(** What the components rely on of a string enumeration: a finite list of
    members and an injective encoding. *)
Class WireEnum (A : Type) `{EqDecision A} := {
  wire : A → string;
  members : list A;
  members_all : ∀ a, a ∈ members;
  wire_inj :: Inj (=) (=) wire
}.

(** A value delivered by the database driver. *)
Inductive SqlValue :=
| SqlBytes (s : string)
| SqlText (s : string)
| SqlOther.

Section WireEnum.
Context `{WireEnum A}.

(** [Validate] succeeds exactly on the wire form of a member; on success the
    value the string denotes is returned. *)
Definition validate (s : string) : option A :=
  snd <$> list_find (λ a, wire a = s) members.

(** [scanDatabaseStatus]: only byte slices and strings are accepted, then the
    value must validate. *)
Definition scanDatabaseStatus (src : SqlValue) : option A :=
  match src with
  | SqlBytes s | SqlText s => validate s
  | SqlOther => None
  end.

(** [databaseStatusValue] *)
Definition databaseStatusValue (a : A) : SqlValue := SqlText (wire a).

Lemma validate_wire (a : A) : validate (wire a) = Some a.
Proof.
  unfold validate. destruct (list_find (λ x : A, wire x = wire a) members) as [[i x]|] eqn:E; simpl.
  - apply list_find_Some in E as (_ & E & _). by apply wire_inj in E as ->.
  - eapply list_find_None, Forall_forall in E; [|apply (members_all a)]. done.
Qed.

Lemma validate_Some s (a : A) : validate s = Some a ↔ s = wire a.
Proof.
  split; [|intros ->; apply validate_wire].
  unfold validate. intros ([i x] & Hf & Hx)%fmap_Some. simpl in Hx. subst.
  by apply list_find_Some in Hf as (_ & E & _).
Qed.

End WireEnum.

Inductive JobStatus :=
| JobStatusCreated | JobStatusQueued | JobStatusRunning | JobStatusSuccess
| JobStatusFail | JobStatusError | JobStatusCancelled.

Inductive RunStatus :=
| RunStatusQueued | RunStatusRunning | RunStatusCancelled | RunStatusFail
| RunStatusSuccess.

Inductive WaveStatus := WaveStatusStarted | WaveStatusCancelled | WaveStatusFinished.

Inductive JobType := JobTypePreGate | JobTypeMig | JobTypePostGate.

#[export] Instance JobStatus_eq_dec : EqDecision JobStatus.
Proof. solve_decision. Defined.
#[export] Instance RunStatus_eq_dec : EqDecision RunStatus.
Proof. solve_decision. Defined.
#[export] Instance WaveStatus_eq_dec : EqDecision WaveStatus.
Proof. solve_decision. Defined.
#[export] Instance JobType_eq_dec : EqDecision JobType.
Proof. solve_decision. Defined.

Definition JobStatus_String (s : JobStatus) : string :=
  match s with
  | JobStatusCreated => "Created" | JobStatusQueued => "Queued"
  | JobStatusRunning => "Running" | JobStatusSuccess => "Success"
  | JobStatusFail => "Fail" | JobStatusError => "Error"
  | JobStatusCancelled => "Cancelled"
  end.

Definition RunStatus_String (s : RunStatus) : string :=
  match s with
  | RunStatusQueued => "Queued" | RunStatusRunning => "Running"
  | RunStatusCancelled => "Cancelled" | RunStatusFail => "Fail"
  | RunStatusSuccess => "Success"
  end.

Definition WaveStatus_String (s : WaveStatus) : string :=
  match s with
  | WaveStatusStarted => "Started" | WaveStatusCancelled => "Cancelled"
  | WaveStatusFinished => "Finished"
  end.

Definition JobType_String (t : JobType) : string :=
  match t with
  | JobTypePreGate => "pre_gate" | JobTypeMig => "mig" | JobTypePostGate => "post_gate"
  end.

Ltac solve_enum :=
  match goal with
  | |- ∀ _, _ => intros []; set_solver
  | |- Inj _ _ _ => intros [] [] ?; (reflexivity || discriminate)
  end.

#[export, program] Instance JobStatus_wire : WireEnum JobStatus := {
  wire := JobStatus_String;
  members := [JobStatusCreated; JobStatusQueued; JobStatusRunning; JobStatusSuccess;
              JobStatusFail; JobStatusError; JobStatusCancelled] }.
Solve Obligations with solve_enum.

#[export, program] Instance RunStatus_wire : WireEnum RunStatus := {
  wire := RunStatus_String;
  members := [RunStatusQueued; RunStatusRunning; RunStatusCancelled; RunStatusFail;
              RunStatusSuccess] }.
Solve Obligations with solve_enum.

#[export, program] Instance WaveStatus_wire : WireEnum WaveStatus := {
  wire := WaveStatus_String;
  members := [WaveStatusStarted; WaveStatusCancelled; WaveStatusFinished] }.
Solve Obligations with solve_enum.

#[export, program] Instance JobType_wire : WireEnum JobType := {
  wire := JobType_String;
  members := [JobTypePreGate; JobTypeMig; JobTypePostGate] }.
Solve Obligations with solve_enum.

(** [ParseJobStatus]: surrounding whitespace is ignored. *)
Definition ParseJobStatus (raw : string) : option JobStatus := validate (trim_space raw).

(** [JobType.Validate] trims before comparing. *)
Definition JobType_Validate (raw : string) : option JobType := validate (trim_space raw).

(** ** Statuses of the public API ([internal/migs/api]) *)

Inductive StageState :=
| StageStatePending | StageStateRunning | StageStateSucceeded | StageStateFailed
| StageStateCancelled.

Inductive RunState :=
| RunStatePending | RunStateRunning | RunStateSucceeded | RunStateFailed
| RunStateCancelled.

Definition StageStatusFromDomain (s : JobStatus) : StageState :=
  match s with
  | JobStatusCreated | JobStatusQueued => StageStatePending
  | JobStatusRunning => StageStateRunning
  | JobStatusSuccess => StageStateSucceeded
  | JobStatusFail | JobStatusError => StageStateFailed
  | JobStatusCancelled => StageStateCancelled
  end.

Definition RunStatusFromDomain (s : RunStatus) : RunState :=
  match s with
  | RunStatusQueued => RunStatePending
  | RunStatusRunning => RunStateRunning
  | RunStatusSuccess => RunStateSucceeded
  | RunStatusFail => RunStateFailed
  | RunStatusCancelled => RunStateCancelled
  end.

(** ** String identifiers *)

Abbreviation JobID := string (only parsing).
Abbreviation RunID := string (only parsing).
Abbreviation WaveID := string (only parsing).
Abbreviation NodeID := string (only parsing).
Abbreviation RepoID := string (only parsing).
Abbreviation MigID := string (only parsing).
Abbreviation SpecID := string (only parsing).

Definition IsEmpty (s : string) : bool := bool_decide (trim_space s = "").

(** [StringID.IsZero] *)
Definition IsZero (v : string) : bool := IsEmpty v.

Inductive IdError := ErrEmpty | ErrInvalidID.

Definition nanoid_alphabet : string :=
  "0123456789ABCDEFGHIJKLMNOPQRSTUVWXYZabcdefghijklmnopqrstuvwxyz_-".

Definition in_alphabet (c : ascii) : bool := bool_decide (c ∈ to_bytes nanoid_alphabet).

Definition validateNanoID (len : nat) (s : string) : bool :=
  (String.length s =? len) && forallb in_alphabet (to_bytes s).

Definition validateURLSafeID (maxLength : nat) (s : string) : bool :=
  (String.length s <=? maxLength) && forallb in_alphabet (to_bytes s).

Section StringID.
(** The tag type's [ValidateID]; KSUID tags delegate to the ksuid package. *)
Context (ValidateID : string → bool).

Definition marshalIDTextValidated (v : string) : IdError + string :=
  let s := trim_space v in
  if IsEmpty s then inl ErrEmpty
  else if ValidateID s then inr s else inl ErrInvalidID.

Definition unmarshalIDTextValidated (b : string) : IdError + string :=
  let s := trim_space b in
  if IsEmpty s then inl ErrEmpty
  else if ValidateID s then inr s else inl ErrInvalidID.

(** Decoding an encoded identifier gives its trimmed form, and encoding a
    decoded one gives the same text back. *)
Lemma id_roundtrip v s :
  marshalIDTextValidated v = inr s →
  unmarshalIDTextValidated s = inr s ∧ marshalIDTextValidated s = inr s ∧ s = trim_space v.
Proof.
  unfold marshalIDTextValidated, unmarshalIDTextValidated.
  destruct (IsEmpty (trim_space v)) eqn:E1; [done|].
  destruct (ValidateID (trim_space v)) eqn:E2; [|done].
  intros [= <-]. rewrite trim_space_idem, E1, E2. done.
Qed.

End StringID.

(** ** Commit SHAs *)

Definition is_hex_lower (c : ascii) : bool :=
  let n := nat_of_ascii c in
  ((48 <=? n) && (n <=? 57)) || ((97 <=? n) && (n <=? 102)).

Definition NormalizeFullCommitSHA (raw : string) : option string :=
  let normalized := to_lower (trim_space raw) in
  if (String.length normalized =? 40) && forallb is_hex_lower (to_bytes normalized)
  then Some normalized else None.

Definition IsCanonicalFullCommitSHA (raw : string) : bool :=
  match NormalizeFullCommitSHA raw with
  | Some n => bool_decide (n = raw)
  | None => false
  end.

(** [normalizeRepoSHA] of the completion handlers *)
Definition normalizeRepoSHA (sha : string) : string :=
  default "" (NormalizeFullCommitSHA sha).

(** [isNonChangingJob] and [IsGateJobType] *)
Definition isNonChangingJob (t : JobType) : bool :=
  match t with JobTypePreGate | JobTypePostGate => true | JobTypeMig => false end.

Definition IsGateJobType (t : JobType) : bool :=
  bool_decide (t = JobTypePreGate ∨ t = JobTypePostGate).

(** ** Facts about SHAs *)

Lemma lower_ascii_hex c : is_hex_lower c = true → lower_ascii c = c.
Proof. destruct c as [[] [] [] [] [] [] [] []]; vm_compute; intros; (done || discriminate). Qed.

Lemma length_to_bytes s : length (to_bytes s) = String.length s.
Proof. induction s; simpl; auto. Qed.

Lemma to_lower_hex s : forallb is_hex_lower (to_bytes s) = true → to_lower s = s.
Proof.
  intros H. unfold to_lower, lower_with. rewrite <-(String.string_of_list_ascii_of_string s) at 3.
  f_equal. induction (to_bytes s) as [|c l IH]; [done|].
  cbn [forallb length lower_rounds] in *. apply andb_true_iff in H as [Hc Hl].
  assert (Hf : find_rune [([b 196; b 176], "i"%char); ([b 226; b 132; b 170], "k"%char)] (c :: l) = None)
    by (destruct c as [[] [] [] [] [] [] [] []]; vm_compute in Hc; discriminate Hc || reflexivity).
  rewrite Hf. f_equal; [by apply lower_ascii_hex | auto].
Qed.

(** No whitespace rune starts or ends with a hexadecimal digit, so trimming a
    string of such digits does nothing. *)
Lemma strip_any_hex ps l :
  Forall (λ p, ∃ c p', p = c :: p' ∧ is_hex_lower c = false) ps →
  forallb is_hex_lower l = true → strip_any ps l = None.
Proof.
  intros Hps Hl. apply strip_any_None. intros p l' Hp ->.
  rewrite Forall_forall in Hps. destruct (Hps p Hp) as (c & p' & -> & Hc).
  simpl in Hl. by rewrite Hc in Hl.
Qed.

Lemma space_runes_hex :
  Forall (λ p, ∃ c p', p = c :: p' ∧ is_hex_lower c = false) space_runes ∧
  Forall (λ p, ∃ c p', p = c :: p' ∧ is_hex_lower c = false) (reverse <$> space_runes).
Proof.
  split; unfold space_runes; simpl; repeat constructor;
    eexists _, _; (split; [reflexivity|vm_compute; reflexivity]).
Qed.

Lemma trim_space_hex s : forallb is_hex_lower (to_bytes s) = true → trim_space s = s.
Proof.
  intros H. unfold trim_space. destruct space_runes_hex as [H1 H2].
  unfold trim_left. rewrite trim_fix by (by apply strip_any_hex).
  unfold trim_right. rewrite trim_fix.
  - by rewrite reverse_involutive, String.string_of_list_ascii_of_string.
  - apply strip_any_hex; [done|]. apply Is_true_true, forallb_True, Forall_reverse, forallb_True.
    by rewrite H.
Qed.

Lemma canonical_sha_spec raw :
  IsCanonicalFullCommitSHA raw = true ↔
  String.length raw = 40 ∧ forallb is_hex_lower (to_bytes raw) = true.
Proof.
  unfold IsCanonicalFullCommitSHA, NormalizeFullCommitSHA.
  split.
  - destruct (_ && _) eqn:E; [|done]. rewrite bool_decide_eq_true. intros Heq.
    rewrite Heq in E. apply andb_true_iff in E as [?%Nat.eqb_eq ?]. done.
  - intros [Hl Hh]. rewrite trim_space_hex, to_lower_hex by done.
    rewrite Hl, Hh. simpl. by apply bool_decide_eq_true.
Qed.

Lemma normalize_sha_canonical raw n :
  NormalizeFullCommitSHA raw = Some n → IsCanonicalFullCommitSHA n = true.
Proof.
  unfold NormalizeFullCommitSHA. destruct (_ && _) eqn:E; [|done]. intros [= <-].
  apply canonical_sha_spec. by apply andb_true_iff in E as [?%Nat.eqb_eq ?].
Qed.

Lemma canonical_normalize raw :
  IsCanonicalFullCommitSHA raw = true → normalizeRepoSHA raw = raw.
Proof.
  unfold IsCanonicalFullCommitSHA, normalizeRepoSHA.
  destruct (NormalizeFullCommitSHA raw); [|done]. by rewrite bool_decide_eq_true.
Qed.

Lemma canonical_nonempty raw : IsCanonicalFullCommitSHA raw = true → raw ≠ "".
Proof. intros [H _]%canonical_sha_spec ->. done. Qed.

Lemma normalizeRepoSHA_cases raw :
  normalizeRepoSHA raw = "" ∨ IsCanonicalFullCommitSHA (normalizeRepoSHA raw) = true.
Proof.
  unfold normalizeRepoSHA. destruct (NormalizeFullCommitSHA raw) eqn:E; simpl; [|auto].
  right. by eapply normalize_sha_canonical.
Qed.
