(* ===== verification/Json.v ===== *)
(** * JSON payloads

    The control plane keeps [stats] and [meta] columns as [jsonb] and decodes a
    few fields of them with [encoding/json]. A value is a [json] tree; a byte
    payload that crosses an API is a [raw]: empty, not valid JSON, or the value
    it denotes. [decode_int] is what [json.Unmarshal] does to a [*int] field of a
    struct: keys match without regard to case, a later key overrides an
    earlier one, [null] clears the field, and a value of another type is an
    error that leaves the field as it was. *)

From S2P Require Import Prelude GoStrings.
From stdpp Require Import base list sorting strings.
From Stdlib Require Import ZArith Lia.

Inductive json :=
| JNull
| JBool (v : bool)
| JInt (z : Z)             (* an integer literal *)
| JNumber (lit : string)   (* any other number literal *)
| JStr (s : string)
| JArr (l : list json)
| JObj (fields : list (string * json)).

(** A byte slice as [json.Valid] sees it. *)
Inductive raw := RawEmpty | RawInvalid | RawJson (j : json).

Definition jempty : json := JObj [].

(** [len(raw) > 0 && !json.Valid(raw)] is the failing case of [validateJSONB]. *)
Definition validateJSONB (r : raw) : bool :=
  match r with RawInvalid => false | RawEmpty | RawJson _ => true end.

(** Bounds of Go's [int64] (and of [int], 64 bits wide). *)
Definition min_int64 : Z := - 2 ^ 63.
Definition max_int64 : Z := 2 ^ 63 - 1.
Definition in_int64 (z : Z) : bool := bool_decide (min_int64 ≤ z ≤ max_int64)%Z.
Definition min_int32 : Z := - 2 ^ 31.
Definition max_int32 : Z := 2 ^ 31 - 1.
Definition in_int32 (z : Z) : bool := bool_decide (min_int32 ≤ z ≤ max_int32)%Z.

(** The value of an integer pointer field after decoding, and whether some
    value had the wrong type. *)
Fixpoint decode_int_fields (name : string) (fs : list (string * json))
    (cur : option Z) (bad : bool) : option Z * bool :=
  match fs with
  | [] => (cur, bad)
  | (k, v) :: fs' =>
      if bool_decide (fold_key k = name) then
        match v with
        | JNull => decode_int_fields name fs' None bad
        | JInt z => if in_int64 z then decode_int_fields name fs' (Some z) bad
                    else decode_int_fields name fs' cur true
        | _ => decode_int_fields name fs' cur true
        end
      else decode_int_fields name fs' cur bad
  end.

(** [json.Unmarshal] of a struct whose only relevant field is [name]. *)
Definition decode_int (name : string) (j : json) : option Z * bool :=
  match j with
  | JObj fs => decode_int_fields name fs None false
  | JNull => (None, false)
  | _ => (None, true)
  end.

(** [nextIDFromMeta]: the [next_id] field, when decoding gave no error. *)
Definition nextIDFromMeta (meta : json) : option Z :=
  match decode_int "next_id" meta with
  | (v, false) => v
  | (_, true) => None
  end.

(** [RunStats.ResumeCount]: decoding errors are ignored, a missing field is 0. *)
Definition ResumeCount (stats : json) : Z :=
  default 0%Z (fst (decode_int "resume_count" stats)).

(** ** PostgreSQL [jsonb] *)

Fixpoint obj_get (k : string) (fs : list (string * json)) : option json :=
  match fs with
  | [] => None
  | (k', v) :: fs' => if decide (k = k') then Some v else obj_get k fs'
  end.

Fixpoint obj_set (k : string) (v : json) (fs : list (string * json)) : list (string * json) :=
  match fs with
  | [] => [(k, v)]
  | (k', v') :: fs' => if decide (k = k') then (k, v) :: fs' else (k', v') :: obj_set k v fs'
  end.

(** A document as a [jsonb] column keeps it: of a repeated key the last value, keys
    by length and then bytewise. *)
Definition jsonb_key_le (x y : string * json) : Prop :=
  String.length x.1 < String.length y.1 ∨ (String.length x.1 = String.length y.1 ∧ String.le x.1 y.1).

#[export] Instance jsonb_key_le_dec : RelDecision jsonb_key_le.
Proof. intros x y. unfold jsonb_key_le. apply _. Defined.

Fixpoint jsonb_of (j : json) : json :=
  match j with
  | JObj fs =>
      let members := (fix go (l : list (string * json)) : list (string * json) :=
        match l with [] => [] | (k, v) :: l' => (k, jsonb_of v) :: go l' end) fs in
      JObj (merge_sort jsonb_key_le (foldl (λ acc kv, obj_set kv.1 kv.2 acc) [] members))
  | JArr l => JArr ((fix go (l : list json) : list json :=
      match l with [] => [] | v :: l' => jsonb_of v :: go l' end) l)
  | _ => j
  end.

(** [a || b] on two objects: keys of [b] win. On other operands the operator
    concatenates arrays; the server only applies it to objects. *)
Definition jsonb_concat (a b : json) : json :=
  match a, b with
  | JObj fa, JObj fb => JObj (foldl (λ acc kv, obj_set kv.1 kv.2 acc) fa fb)
  | JObj fa, JArr lb => JArr (JObj fa :: lb)
  | JArr la, JArr lb => JArr (la ++ lb)
  | JArr la, _ => JArr (la ++ [b])
  | _, JArr lb => JArr (a :: lb)
  | _, _ => JArr [a; b]
  end.

(** ** Values of type [any] *)

(** A number literal decoded into [any], a [float64], and printed again; [None]
    when it is out of range. *)
Definition is_number (j : json) : bool := match j with JInt _ | JNumber _ => true | _ => false end.

Class GoFloat := {
  float_json : json → option json;
  float_number j j' : is_number j = true → float_json j = Some j' → is_number j' = true
}.

(** Integers up to 2^53 are exact, which covers what specs contain. *)
#[export, refine] Instance small_ints : GoFloat := {
  float_json := λ j, match j with
                     | JInt z => if decide (Z.abs z ≤ 2 ^ 53)%Z then Some j else None
                     | _ => Some j
                     end
}.
Proof. intros [] j' Hj; try done; repeat case_decide; naive_solver. Defined.

Section Any.
Context `{GoFloat}.

(** [json.Unmarshal] into [any]: the last of several equal keys stays. *)
Fixpoint any_of (j : json) : option json :=
  match j with
  | JNull | JBool _ | JStr _ => Some j
  | JInt _ | JNumber _ => float_json j
  | JArr l =>
      JArr <$> (fix go (l : list json) : option (list json) :=
        match l with
        | [] => Some []
        | x :: l' => x' ← any_of x; l'' ← go l'; Some (x' :: l'')
        end) l
  | JObj fs =>
      JObj <$> (fix go (fs : list (string * json)) (acc : list (string * json)) :
          option (list (string * json)) :=
        match fs with
        | [] => Some acc
        | (k, x) :: fs' => x' ← any_of x; go fs' (obj_set k x' acc)
        end) fs []
  end.

Fixpoint any_fields (fs acc : list (string * json)) : option (list (string * json)) :=
  match fs with
  | [] => Some acc
  | (k, x) :: fs' => x' ← any_of x; any_fields fs' (obj_set k x' acc)
  end.

End Any.

(** ** Statistics of a run *)

(** [COALESCE((stats->>'resume_count')::int, 0)]; [None] when the cast fails. *)
Definition sql_resume_count (stats : json) : option Z :=
  match stats with
  | JObj fs => match obj_get "resume_count" fs with
               | None | Some JNull => Some 0%Z
               | Some (JInt z) => if in_int32 z then Some z else None
               | Some _ => None
               end
  | _ => Some 0%Z
  end.

(** The object [resumeFailedJobs] writes into [runs.stats]; [now] is the text
    form of the statement's [now()]. *)
Definition resume_stats (count : Z) (now : string) : json :=
  JObj [("resume_count", JInt count); ("last_resumed_at", JStr now)].

(** ** Facts *)

Lemma obj_get_set k v k' fs :
  obj_get k (obj_set k' v fs) = if decide (k = k') then Some v else obj_get k fs.
Proof.
  induction fs as [|[k0 v0] fs IH]; simpl; [by repeat case_decide|].
  repeat (case_decide; simpl; simplify_eq); auto; by destruct (decide (k = k0)).
Qed.

(** No key of [fs] matches [name] under case folding. *)
Definition no_fold_key (name : string) (fs : list (string * json)) : Prop :=
  Forall (λ kv, fold_key kv.1 ≠ name) fs.

(** Exactly the key [name] itself may match [name] under case folding. *)
Definition canonical_key (name : string) (fs : list (string * json)) : Prop :=
  Forall (λ kv, fold_key kv.1 = name → kv.1 = name) fs.

Lemma decode_skip name fs cur bad :
  no_fold_key name fs → decode_int_fields name fs cur bad = (cur, bad).
Proof.
  induction 1 as [|[k v] fs Hk _ IH]; simpl in *; [done|].
  rewrite bool_decide_eq_false_2 by done. done.
Qed.

Lemma obj_set_split k v fs :
  (∃ pre old post, fs = pre ++ (k, old) :: post ∧ Forall (λ kv, kv.1 ≠ k) pre ∧
     obj_set k v fs = pre ++ (k, v) :: post) ∨
  (Forall (λ kv, kv.1 ≠ k) fs ∧ obj_set k v fs = fs ++ [(k, v)]).
Proof.
  induction fs as [|[k0 v0] fs IH]; simpl; [right; done|].
  case_decide as Hd.
  - subst. left. exists [], v0, fs. done.
  - destruct IH as [(pre & old & post & -> & Hpre & ->)|[Hall ->]].
    + left. exists ((k0, v0) :: pre), old, post. split_and!; [done| |done].
      constructor; [by simpl; congruence|done].
    + right. split; [|done]. constructor; [by simpl; congruence|done].
Qed.

Lemma canonical_set name k v fs :
  canonical_key name fs → (fold_key k = name → k = name) → canonical_key name (obj_set k v fs).
Proof.
  intros Hc Hk. destruct (obj_set_split k v fs) as [(pre & old & post & -> & _ & ->)|[_ ->]].
  - unfold canonical_key in *. rewrite Forall_app, Forall_cons in Hc |- *. naive_solver.
  - apply Forall_app. split; [done|]. by repeat constructor.
Qed.

(** Keys of a [jsonb] object are distinct. *)
Definition unique_keys (fs : list (string * json)) : Prop := NoDup (fs.*1).

Lemma unique_set k v fs : unique_keys fs → unique_keys (obj_set k v fs).
Proof.
  unfold unique_keys. intros Hu.
  destruct (obj_set_split k v fs) as [(pre & old & post & -> & _ & ->)|[Hall ->]].
  - by rewrite !fmap_app in *.
  - rewrite fmap_app, NoDup_app. split_and!; [done| |apply NoDup_singleton].
    intros x (kv & -> & Hin)%list_elem_of_fmap. rewrite Forall_forall in Hall.
    intros ?%list_elem_of_singleton. by apply (Hall kv).
Qed.

(** Decoding the canonical key reads the value stored under it. *)
Lemma decode_canonical name fs :
  fold_key name = name → canonical_key name fs → unique_keys fs →
  ∀ z, in_int64 z = true → obj_get name fs = Some (JInt z) →
  decode_int_fields name fs None false = (Some z, false).
Proof.
  intros Hlow Hc Hu z Hz Hg.
  cut (∀ cur, decode_int_fields name fs cur false = (Some z, false)); [auto|].
  induction fs as [|[k v] fs IH]; intros cur; simpl in *; [done|].
  unfold unique_keys in Hu. simpl in Hu. apply NoDup_cons in Hu as [Hk Hu].
  apply Forall_cons in Hc as [Hkn Hc]. simpl in Hkn.
  case_decide as Hd.
  - simplify_eq. rewrite bool_decide_eq_true_2 by done. rewrite Hz.
    apply decode_skip. apply Forall_forall. intros kv Hin Heq.
    eapply Forall_forall in Hc; [|exact Hin].
    apply Hk. apply list_elem_of_fmap. exists kv. by rewrite (Hc Heq).
  - rewrite bool_decide_eq_false_2 by naive_solver. by apply IH.
Qed.

Section Concat.
Context (name : string) (Hname : fold_key name = name).

Lemma concat_canonical fa fb :
  canonical_key name fa → unique_keys fa → canonical_key name fb →
  let r := foldl (λ acc kv, obj_set kv.1 kv.2 acc) fa fb in
  canonical_key name r ∧ unique_keys r.
Proof using Type.
  revert fa; induction fb as [|[k v] fb IH]; intros fa Hc Hu Hb; simpl; [done|].
  apply Forall_cons in Hb as [Hk Hb]. apply IH; [|by apply unique_set|done].
  by apply canonical_set.
Qed.

End Concat.

(** After a resume, the run's resume count is the one the statement wrote,
    whatever the previous stats and the caller's stats held. *)
Lemma resume_count_written fs gs count now :
  canonical_key "resume_count" fs → unique_keys fs → canonical_key "resume_count" gs →
  in_int64 count = true →
  ResumeCount (jsonb_concat (jsonb_concat (JObj fs) (JObj gs)) (resume_stats count now)) = count.
Proof.
  intros Hf Hu Hg Hz.
  destruct (concat_canonical "resume_count" fs gs Hf Hu Hg) as [Hc1 Hu1].
  set (mid := foldl _ _ _) in *. unfold ResumeCount, resume_stats. simpl.
  fold mid. erewrite decode_canonical; [done|done| | |exact Hz|].
  - apply canonical_set; [|done]. by apply canonical_set.
  - by repeat apply unique_set.
  - rewrite !obj_get_set. done.
Qed.
