(* ===== verification/JsonText.v ===== *)
(** * JSON as text

    What [encoding/json] writes for a string and how it reads a value, byte by byte.
    A string that is not valid UTF-8 is written with U+FFFD for each bad byte, so
    reading it back gives [sanitize] of it ([unquote_quote]). *)

From stdpp Require Import base list strings pretty.
From S2P Require Import Prelude GoStrings Json.
From Stdlib Require Import ZArith Lia Ascii.
Local Open Scope list_scope.

(** ** UTF-8 *)

Definition ascii_lt (n : nat) (c : ascii) : bool := nat_of_ascii c <? n.

Definition rune2 (c c1 : ascii) : bool := byte_in 194 223 c && byte_in 128 191 c1.
Definition rune3 (c c1 c2 : ascii) : bool :=
  byte_in 224 239 c
  && byte_in (if byte_in 224 224 c then 160 else 128) (if byte_in 237 237 c then 159 else 191) c1
  && byte_in 128 191 c2.
Definition rune4 (c c1 c2 c3 : ascii) : bool :=
  byte_in 240 244 c
  && byte_in (if byte_in 240 240 c then 144 else 128) (if byte_in 244 244 c then 143 else 191) c1
  && byte_in 128 191 c2 && byte_in 128 191 c3.

(** The runes of a byte string as a range loop visits them: an encoding, or a single
    byte that starts none. *)
Fixpoint runes (l : bytes) : list (bool * bytes) :=
  match l with
  | [] => []
  | c :: l1 =>
      if ascii_lt 128 c then (true, [c]) :: runes l1
      else match l1 with
           | [] => [(false, [c])]
           | c1 :: l2 =>
               if rune2 c c1 then (true, [c; c1]) :: runes l2
               else match l2 with
                    | [] => (false, [c]) :: runes l1
                    | c2 :: l3 =>
                        if rune3 c c1 c2 then (true, [c; c1; c2]) :: runes l3
                        else match l3 with
                             | [] => (false, [c]) :: runes l1
                             | c3 :: l4 =>
                                 if rune4 c c1 c2 c3 then (true, [c; c1; c2; c3]) :: runes l4
                                 else (false, [c]) :: runes l1
                             end
                    end
           end
  end.

(** U+FFFD *)
Definition RuneError : bytes := [b 239; b 191; b 189].

Definition clean_rune (r : bool * bytes) : bytes := if r.1 then r.2 else RuneError.
Definition sanitize (l : bytes) : bytes := concat (clean_rune <$> runes l).

(** [utf8.EncodeRune] *)
Definition bz (z : Z) : ascii := ascii_of_nat (Z.to_nat z).
Definition EncodeRune (r : Z) : bytes :=
  if (r <? 128)%Z then [bz r]
  else if (r <? 2048)%Z then [bz (192 + r / 64); bz (128 + r mod 64)]
  else if (r <? 65536)%Z then [bz (224 + r / 4096); bz (128 + r / 64 mod 64); bz (128 + r mod 64)]
  else [bz (240 + r / 262144); bz (128 + r / 4096 mod 64); bz (128 + r / 64 mod 64); bz (128 + r mod 64)].

(** ** Strings *)

Definition dquote : ascii := b 34.
Definition backslash : ascii := b 92.

Definition hex_digit (n : Z) : ascii := bz (if (n <? 10)%Z then 48 + n else 87 + n).

Definition escape_u (n : Z) : bytes :=
  backslash :: "u"%char :: (hex_digit <$> [n / 4096; n / 256 mod 16; n / 16 mod 16; n mod 16]%Z).

(** A byte below 0x80 as [json.Marshal] writes it, with HTML characters escaped. *)
Definition escape (c : ascii) : bytes :=
  let n := nat_of_ascii c in
  if (n =? 34) || (n =? 92) then [backslash; c]
  else if n =? 8 then [backslash; "b"%char]
  else if n =? 12 then [backslash; "f"%char]
  else if n =? 10 then [backslash; "n"%char]
  else if n =? 13 then [backslash; "r"%char]
  else if n =? 9 then [backslash; "t"%char]
  else if (n <? 32) || (n =? 60) || (n =? 62) || (n =? 38) then escape_u (Z.of_nat n)
  else [c].

Definition quote_rune (r : bool * bytes) : bytes :=
  match r with
  | (false, _) => escape_u 65533
  | (true, [c]) => escape c
  | (true, r') =>
      if decide (r' = [b 226; b 128; b 168]) then escape_u 8232
      else if decide (r' = [b 226; b 128; b 169]) then escape_u 8233
      else r'
  end.

Definition quote (l : bytes) : bytes := concat (quote_rune <$> runes l).

Definition hex_value (c : ascii) : option Z :=
  let n := nat_of_ascii c in
  if byte_in 48 57 c then Some (Z.of_nat (n - 48))
  else if byte_in 97 102 c then Some (Z.of_nat (n - 87))
  else if byte_in 65 70 c then Some (Z.of_nat (n - 55))
  else None.

Definition hex4 (c1 c2 c3 c4 : ascii) : option Z :=
  d1 ← hex_value c1; d2 ← hex_value c2; d3 ← hex_value c3; d4 ← hex_value c4;
  Some (d1 * 4096 + d2 * 256 + d3 * 16 + d4)%Z.

Definition unescape (c : ascii) : option ascii :=
  if decide (c ∈ [dquote; backslash; "/"%char]) then Some c
  else if decide (c = "b"%char) then Some (b 8)
  else if decide (c = "f"%char) then Some (b 12)
  else if decide (c = "n"%char) then Some (b 10)
  else if decide (c = "r"%char) then Some (b 13)
  else if decide (c = "t"%char) then Some (b 9)
  else None.

Definition surrogate (r : Z) : bool := (55296 <=? r)%Z && (r <? 57344)%Z.

(** [utf16.DecodeRune] of a pair, when it is one. *)
Definition surrogate_pair (r1 r2 : Z) : option Z :=
  if (r1 <? 56320)%Z && (56320 <=? r2)%Z && (r2 <? 57344)%Z
  then Some ((r1 - 55296) * 1024 + (r2 - 56320) + 65536)%Z else None.

Definition prepend (p : bytes) (r : option (bytes * bytes)) : option (bytes * bytes) :=
  (λ q, (p ++ q.1, q.2)) <$> r.

(** The string whose opening quote has been read, and what follows its closing one. *)
Fixpoint unquote (l : bytes) : option (bytes * bytes) :=
  match l with
  | [] => None
  | c :: l1 =>
      if decide (c = dquote) then Some ([], l1)
      else if decide (c = backslash) then
        match l1 with
        | [] => None
        | e :: l2 =>
            if decide (e = "u"%char) then
              match l2 with
              | h1 :: h2 :: h3 :: h4 :: l6 =>
                  match hex4 h1 h2 h3 h4 with
                  | None => None
                  | Some r =>
                      if surrogate r then
                        match l6 with
                        | k1 :: k2 :: g1 :: g2 :: g3 :: g4 :: l12 =>
                            if decide (k1 = backslash ∧ k2 = "u"%char) then
                              match hex4 g1 g2 g3 g4 ≫= surrogate_pair r with
                              | Some r' => prepend (EncodeRune r') (unquote l12)
                              | None => prepend RuneError (unquote l6)
                              end
                            else prepend RuneError (unquote l6)
                        | _ => prepend RuneError (unquote l6)
                        end
                      else prepend (EncodeRune r) (unquote l6)
                  end
              | _ => None
              end
            else match unescape e with Some x => prepend [x] (unquote l2) | None => None end
        end
      else if ascii_lt 32 c then None
      else if ascii_lt 128 c then prepend [c] (unquote l1)
      else match l1 with
           | [] => None
           | c1 :: l2 =>
               if rune2 c c1 then prepend [c; c1] (unquote l2)
               else match l2 with
                    | [] => prepend RuneError (unquote l1)
                    | c2 :: l3 =>
                        if rune3 c c1 c2 then prepend [c; c1; c2] (unquote l3)
                        else match l3 with
                             | [] => prepend RuneError (unquote l1)
                             | c3 :: l4 =>
                                 if rune4 c c1 c2 c3 then prepend [c; c1; c2; c3] (unquote l4)
                                 else prepend RuneError (unquote l1)
                             end
                    end
           end
  end.

(** ** Values *)

Definition is_ws (c : ascii) : bool :=
  let n := nat_of_ascii c in (n =? 32) || (n =? 9) || (n =? 10) || (n =? 13).

Fixpoint skip_ws (l : bytes) : bytes :=
  match l with c :: l' => if is_ws c then skip_ws l' else l | [] => [] end.

Definition is_digit (c : ascii) : bool := byte_in 48 57 c.

Fixpoint span_digits (l : bytes) : bytes * bytes :=
  match l with
  | c :: l' => if is_digit c then let p := span_digits l' in (c :: p.1, p.2) else ([], l)
  | [] => ([], [])
  end.

Definition digits_value (l : bytes) : Z :=
  foldl (λ acc c, acc * 10 + Z.of_nat (nat_of_ascii c - 48))%Z 0%Z l.

(** The integer part of a number without its sign: [0], or digits without a leading
    zero. *)
Definition int_part (l : bytes) : option (bytes * bytes) :=
  match l with
  | c :: l' =>
      if decide (c = "0"%char) then Some ([c], l')
      else if is_digit c then Some (span_digits l) else None
  | [] => None
  end.

(** A fraction or an exponent: absent, or with at least one digit. *)
Definition tail_digits (p : bytes) (l : bytes) : option (bytes * bytes) :=
  match span_digits l with ([], _) => None | (ds, r) => Some (p ++ ds, r) end.

Definition frac_part (l : bytes) : option (bytes * bytes) :=
  match l with
  | c :: l' => if decide (c = "."%char) then tail_digits [c] l' else Some ([], l)
  | [] => Some ([], [])
  end.

Definition exp_part (l : bytes) : option (bytes * bytes) :=
  match l with
  | c :: l' =>
      if decide (c = "e"%char ∨ c = "E"%char) then
        match l' with
        | s :: l'' => if decide (s = "+"%char ∨ s = "-"%char) then tail_digits [c; s] l'' else tail_digits [c] l'
        | [] => None
        end
      else Some ([], l)
  | [] => Some ([], [])
  end.

Definition number (l : bytes) : option (json * bytes) :=
  let '(neg, l0) := match l with
                    | c :: l' => if decide (c = "-"%char) then (true, l') else (false, l)
                    | [] => (false, [])
                    end in
  i ← int_part l0; f ← frac_part i.2; e ← exp_part f.2;
  Some (match f.1, e.1 with
        | [], [] => JInt (if neg then - digits_value i.1 else digits_value i.1)%Z
        | _, _ => JNumber (of_bytes ((if neg then ["-"%char] else []) ++ i.1 ++ f.1 ++ e.1))
        end, e.2).

(** [fuel] rounds; each consumes a byte, so one more than there are bytes is enough.
    Go refuses values nested deeper than 10000, [depth] counts the levels left. *)
Fixpoint value (fuel : nat) (depth : N) (l : bytes) : option (json * bytes) :=
  match fuel with
  | O => None
  | S fuel' =>
      let l := skip_ws l in
      match l with
      | [] => None
      | c :: l' =>
          if decide (c = dquote) then (λ p, (JStr (of_bytes p.1), p.2)) <$> unquote l'
          else if decide (c = "{"%char) then
            if (depth =? 0)%N then None
            else match skip_ws l' with
                 | d :: l'' => if decide (d = "}"%char) then Some (JObj [], l'')
                               else (λ p, (JObj p.1, p.2)) <$> members fuel' (N.pred depth) (d :: l'')
                 | [] => None
                 end
          else if decide (c = "["%char) then
            if (depth =? 0)%N then None
            else match skip_ws l' with
                 | d :: l'' => if decide (d = "]"%char) then Some (JArr [], l'')
                               else (λ p, (JArr p.1, p.2)) <$> elements fuel' (N.pred depth) (d :: l'')
                 | [] => None
                 end
          else match strip (to_bytes "true") l, strip (to_bytes "false") l, strip (to_bytes "null") l with
               | Some r, _, _ => Some (JBool true, r)
               | _, Some r, _ => Some (JBool false, r)
               | _, _, Some r => Some (JNull, r)
               | _, _, _ => number l
               end
      end
  end
with members (fuel : nat) (depth : N) (l : bytes) : option (list (string * json) * bytes) :=
  match fuel with
  | O => None
  | S fuel' =>
      match skip_ws l with
      | q :: l1 =>
          if decide (q = dquote) then
            k ← unquote l1;
            match skip_ws k.2 with
            | c :: l2 =>
                if decide (c = ":"%char) then
                  v ← value fuel' depth l2;
                  match skip_ws v.2 with
                  | d :: l3 =>
                      if decide (d = "}"%char) then Some ([(of_bytes k.1, v.1)], l3)
                      else if decide (d = ","%char)
                      then (λ p, ((of_bytes k.1, v.1) :: p.1, p.2)) <$> members fuel' depth l3
                      else None
                  | [] => None
                  end
                else None
            | [] => None
            end
          else None
      | [] => None
      end
  end
with elements (fuel : nat) (depth : N) (l : bytes) : option (list json * bytes) :=
  match fuel with
  | O => None
  | S fuel' =>
      v ← value fuel' depth l;
      match skip_ws v.2 with
      | d :: l1 =>
          if decide (d = "]"%char) then Some ([v.1], l1)
          else if decide (d = ","%char) then (λ p, (v.1 :: p.1, p.2)) <$> elements fuel' depth l1
          else None
      | [] => None
      end
  end.

(** A text that is one value. *)
Definition parse (l : bytes) : option json :=
  match value (S (length l)) 10000 l with
  | Some (j, rest) => match skip_ws rest with [] => Some j | _ :: _ => None end
  | None => None
  end.

(** ** Writing *)

Definition quoted (s : string) : bytes := dquote :: quote (to_bytes s) ++ [dquote].

(** [json.Marshal] of a value, without spaces. *)
Fixpoint render (j : json) : bytes :=
  match j with
  | JNull => to_bytes "null"
  | JBool v => to_bytes (if v then "true" else "false")
  | JInt z => to_bytes (pretty z)
  | JNumber lit => to_bytes lit
  | JStr s => quoted s
  | JArr l =>
      "["%char :: join_bytes ","%char ((fix go (l : list json) : list bytes :=
        match l with [] => [] | v :: l' => render v :: go l' end) l) ++ ["]"%char]
  | JObj fs =>
      "{"%char :: join_bytes ","%char ((fix go (l : list (string * json)) : list bytes :=
        match l with [] => [] | (k, v) :: l' => (quoted k ++ ":"%char :: render v) :: go l' end) fs) ++ ["}"%char]
  end.

(** Text in which an apostrophe stands for a quote. *)
Definition requote (s : string) : bytes := (λ c, if decide (c = "'"%char) then dquote else c) <$> to_bytes s.

Example parse_sample :
  parse (requote " {'a': [1, -20, 3.50e+1, true, null], 'b\u0041\n': {}} ")
  = Some (JObj [("a", JArr [JInt 1; JInt (-20); JNumber "3.50e+1"; JBool true; JNull]);
                (of_bytes (to_bytes "bA" ++ [b 10]), JObj [])]).
Proof. vm_compute. reflexivity. Qed.

Example render_parse :
  let j := JObj [("a", JArr [JInt 1; JInt (-20); JNumber "3.50e+1"; JBool true; JNull]); ("b<", JStr "c")] in
  parse (render j) = Some j.
Proof. vm_compute. reflexivity. Qed.

(** ** Reading back what was written *)

Lemma prepend_prepend p q r : prepend p (prepend q r) = prepend (p ++ q) r.
Proof. destruct r as [[x y]|]; [|done]. unfold prepend. simpl. by rewrite app_assoc. Qed.

(** A property of all bytes, by evaluation. *)
Lemma all_bytes (P : ascii → Prop) `{!∀ c, Decision (P c)} :
  forallb (λ n, bool_decide (P (ascii_of_nat n))) (seq 0 256) = true → ∀ c, P c.
Proof.
  intros Hall c. rewrite forallb_forall in Hall.
  specialize (Hall (nat_of_ascii c)). rewrite ascii_nat_embedding in Hall.
  apply bool_decide_eq_true in Hall; [done|]. apply in_seq. pose proof (nat_ascii_bounded c). lia.
Qed.

Lemma unquote_escape c rest :
  ascii_lt 128 c = true → unquote (escape c ++ rest) = prepend [c] (unquote rest).
Proof. destruct c as [[] [] [] [] [] [] [] []]; intros H; first [discriminate H|reflexivity]. Qed.

Lemma high_byte c : ascii_lt 128 c = false →
  c ≠ dquote ∧ c ≠ backslash ∧ ascii_lt 32 c = false ∧ c ≠ b 10.
Proof. destruct c as [[] [] [] [] [] [] [] []]; intros H; first [discriminate H|done]. Qed.

(** Past the tests for ASCII, the decoder looks for an encoding of two to four bytes. *)
Lemma unquote_high c l1 : ascii_lt 128 c = false →
  unquote (c :: l1) =
  match l1 with
  | [] => None
  | c1 :: l2 =>
      if rune2 c c1 then prepend [c; c1] (unquote l2)
      else match l2 with
           | [] => prepend RuneError (unquote l1)
           | c2 :: l3 =>
               if rune3 c c1 c2 then prepend [c; c1; c2] (unquote l3)
               else match l3 with
                    | [] => prepend RuneError (unquote l1)
                    | c3 :: l4 =>
                        if rune4 c c1 c2 c3 then prepend [c; c1; c2; c3] (unquote l4)
                        else prepend RuneError (unquote l1)
                    end
           end
  end.
Proof.
  intros Hc. destruct (high_byte c Hc) as (H1 & H2 & H3 & _). cbn [unquote].
  rewrite !decide_False by done. by rewrite H3, Hc.
Qed.

Lemma byte_in_spec lo hi c : byte_in lo hi c = true ↔ lo ≤ nat_of_ascii c ≤ hi.
Proof. unfold byte_in. rewrite andb_true_iff, Nat.leb_le, Nat.leb_le. done. Qed.

Lemma ascii_lt_false n c : ascii_lt n c = false ↔ n ≤ nat_of_ascii c.
Proof. unfold ascii_lt. by rewrite Nat.ltb_ge. Qed.

(** A rune as [runes] yields it. *)
Inductive rune_ok : bytes → Prop :=
| rune_ok1 c : ascii_lt 128 c = true → rune_ok [c]
| rune_ok2 c c1 : rune2 c c1 = true → rune_ok [c; c1]
| rune_ok3 c c1 c2 : rune2 c c1 = false → rune3 c c1 c2 = true → rune_ok [c; c1; c2]
| rune_ok4 c c1 c2 c3 : rune2 c c1 = false → rune3 c c1 c2 = false → rune4 c c1 c2 c3 = true →
    rune_ok [c; c1; c2; c3].

Lemma runes_ok l : Forall (λ r, r.1 = true → rune_ok r.2) (runes l).
Proof.
  induction l as [l IH] using (induction_ltof1 _ length). destruct l as [|c l1]; [constructor|]. cbn [runes].
  assert (IH' : ∀ l', length l' < S (length l1) → Forall (λ r, r.1 = true → rune_ok r.2) (runes l')) by (intros; by apply IH).
  repeat first
    [ case_match
    | apply Forall_cons; split; [try done; intros _; by constructor|]
    | apply IH'; simpl; lia
    | constructor ].
Qed.

Lemma rune_high r : rune_ok r → length r ≠ 1 → Forall (λ c, ascii_lt 128 c = false) r.
Proof.
  intros Hr Hl. destruct Hr as [c Hc|c c1 H|c c1 c2 _ H|c c1 c2 c3 _ _ H]; simpl in Hl; [done|..];
    unfold rune2, rune3, rune4 in H; rewrite !andb_true_iff, !byte_in_spec in H;
    rewrite !Forall_cons, !ascii_lt_false, Forall_nil; repeat case_match; lia.
Qed.

Lemma unquote_raw r rest : rune_ok r → length r ≠ 1 → unquote (r ++ rest) = prepend r (unquote rest).
Proof.
  intros Hr Hl. pose proof (rune_high r Hr Hl) as Hh.
  destruct Hr as [c Hc|c c1 H|c c1 c2 H2 H|c c1 c2 c3 H2 H3 H]; [done|..];
    apply Forall_cons in Hh as [Hc _]; cbn [app]; rewrite (unquote_high _ _ Hc).
  - by rewrite H.
  - by rewrite H2, H.
  - by rewrite H2, H3, H.
Qed.

Lemma unquote_rune r rest : (r.1 = true → rune_ok r.2) →
  unquote (quote_rune r ++ rest) = prepend (clean_rune r) (unquote rest).
Proof.
  destruct r as [[] r]; cbn [fst snd]; [|done]. intros Hr. specialize (Hr eq_refl).
  unfold clean_rune. cbn [fst snd].
  destruct r as [|c [|c1 r]]; [by inversion Hr|by inversion Hr as [? Hc| | |]; apply unquote_escape|].
  cbn [quote_rune]. repeat case_decide; [by simplify_eq/=..|]. by apply unquote_raw.
Qed.

(** Decoding an encoded string gives it back, cleaned of bytes that are not UTF-8. *)
Lemma unquote_quote l rest : unquote (quote l ++ dquote :: rest) = Some (sanitize l, rest).
Proof.
  unfold quote, sanitize. induction (runes_ok l) as [|r rs Hr _ IH]; [done|].
  cbn [fmap list_fmap concat]. rewrite <-app_assoc, unquote_rune by done. rewrite IH. done.
Qed.


Lemma byte_in_low c : byte_in 0 127 c = ascii_lt 128 c.
Proof. unfold byte_in, ascii_lt. destruct (Nat.ltb_spec (nat_of_ascii c) 128), (Nat.leb_spec (nat_of_ascii c) 127); simpl; lia. Qed.

Lemma sanitize_valid l : utf8_valid (of_bytes l) = true → sanitize l = l.
Proof.
  unfold utf8_valid. rewrite to_of. generalize (length l). intros n. revert l.
  induction n as [|n IH]; intros [|c l1] H; [done..|].
  assert (IH' : ∀ r l', rune_ok r → utf8_rounds n l' = true → concat (clean_rune <$> ((true, r) :: runes l')) = r ++ l').
  { intros r l' _ Hl'. by rewrite <-(IH l' Hl') at 2. }
  unfold sanitize. cbn [utf8_rounds] in H. cbn [runes]. rewrite byte_in_low in H.
  destruct (ascii_lt 128 c) eqn:E1; [by apply (IH' [c]); [constructor|]|].
  destruct l1 as [|c1 l2]; [done|]. destruct (byte_in 194 223 c) eqn:E2.
  { apply andb_prop in H as [H1 H2]. assert (Hr : rune2 c c1 = true) by (unfold rune2; by rewrite E2).
    rewrite Hr. by apply (IH' [c; c1]); [constructor|]. }
  assert (Hr2 : rune2 c c1 = false) by (unfold rune2; by rewrite E2). rewrite Hr2.
  destruct l2 as [|c2 l3]; [done|]. destruct (byte_in 224 239 c) eqn:E3.
  { rewrite !andb_true_iff in H. destruct H as [[H1 H2] H3].
    assert (Hr : rune3 c c1 c2 = true) by (unfold rune3; by rewrite E3, H1, H2).
    rewrite Hr. by apply (IH' [c; c1; c2]); [constructor|]. }
  assert (Hr3 : rune3 c c1 c2 = false) by (unfold rune3; by rewrite E3). rewrite Hr3.
  destruct l3 as [|c3 l4]; [done|]. rewrite !andb_true_iff in H. destruct H as [[[[H1 H2] H3] H4] H5].
  assert (Hr : rune4 c c1 c2 c3 = true) by (unfold rune4; by rewrite H1, H2, H3, H4).
  rewrite Hr. by apply (IH' [c; c1; c2; c3]); [constructor|].
Qed.

(** What is written has no line break and no control character: a text of one value
    per line can be split into lines again. *)
Lemma quote_no_control l : Forall (λ c, ascii_lt 32 c = false) (quote l).
Proof.
  unfold quote. induction (runes_ok l) as [|r rs Hr _ IH]; [constructor|].
  cbn [fmap list_fmap concat]. apply Forall_app. split; [clear IH|done].
  destruct r as [[] r]; cbn [fst snd] in Hr; [specialize (Hr eq_refl)|by repeat constructor].
  destruct r as [|c [|c1 r]].
  - by inversion Hr.
  - cbn [quote_rune]. clear Hr. destruct c as [[] [] [] [] [] [] [] []]; by repeat constructor.
  - cbn [quote_rune]. repeat case_decide; [by repeat constructor..|].
    pose proof (rune_high _ Hr ltac:(simpl; lia)) as Hh. eapply Forall_impl; [exact Hh|].
    intros x Hx. by apply high_byte.
Qed.

(** *** Sizes *)

(** Text that is written as it is. *)
Lemma quote_plain l : Forall (λ c, ascii_lt 128 c = true ∧ escape c = [c]) l → quote l = l.
Proof.
  unfold quote. induction 1 as [|c l [Hc He] _ IH]; [done|]. cbn [runes]. rewrite Hc. cbn [fmap list_fmap concat quote_rune].
  by rewrite He, IH.
Qed.

Lemma quote_length l : length (quote l) ≤ 6 * length l.
Proof.
  unfold quote. induction l as [l IH] using (induction_ltof1 _ length). destruct l as [|c l1]; [done|].
  assert (Hstep : ∀ r l', length l' < S (length l1) → length (c :: l1) = length r.2 + length l' →
    length (quote_rune r) ≤ 6 * length r.2 →
    length (concat (quote_rune <$> (r :: runes l'))) ≤ 6 * length (c :: l1)).
  { intros r l' Hl Hlen Hq. cbn [fmap list_fmap concat]. rewrite length_app, Hlen.
    specialize (IH l' ltac:(unfold ltof; simpl; lia)). lia. }
  assert (He : length (escape c) ≤ 6).
  { destruct c as [[] [] [] [] [] [] [] []]; apply Nat.leb_le; vm_compute; reflexivity. }
  cbn [runes].
  repeat first
    [ case_match; subst
    | apply Hstep; [simpl; lia|simpl; lia|cbn [quote_rune snd length]; repeat case_decide; first [exact He|cbn; lia]]
    | cbn; lia ].
Qed.

Lemma append_snoc l c s : of_bytes (l ++ [c]) +:+ s = of_bytes l +:+ String c s.
Proof. induction l as [|x l IH]; [done|]. change (String x (of_bytes (l ++ [c]) +:+ s) = String x (of_bytes l +:+ String c s)). by rewrite IH. Qed.

(** The digits of a number: none but digits and a sign, and not more than its size asks for. *)
Lemma digits_go x : ∀ s, ∃ ds, pretty_N_go x s = of_bytes ds +:+ s ∧ Forall (λ c, is_digit c = true) ds ∧
  ∀ k, (x < 10 ^ N.of_nat k)%N → length ds ≤ k.
Proof.
  induction (N.lt_wf_0 x) as [x _ IH]. intros s. destruct (decide (x = 0)%N) as [->|Hx].
  { exists []. split; [done|]. split; [constructor|]. intros k _. simpl. lia. }
  rewrite pretty_N_go_step by lia. destruct (IH (x `div` 10)%N) with (s := String (pretty_N_char (x `mod` 10)) s)
    as (ds & E & Hd & Hk); [apply N.div_lt; lia|].
  exists (ds ++ [pretty_N_char (x `mod` 10)]). split; [|split].
  - rewrite E. symmetry. apply append_snoc.
  - apply Forall_app. split; [done|]. apply Forall_singleton. unfold pretty_N_char. by repeat case_match.
  - intros k Hlt. rewrite length_app. destruct k as [|k]; [simpl in Hlt; lia|].
    rewrite Nat2N.inj_succ, N.pow_succ_r' in Hlt. simpl.
    specialize (Hk k ltac:(apply N.Div0.div_lt_upper_bound; lia)). lia.
Qed.

Lemma digits_N n k : (n < 10 ^ N.of_nat k)%N → (0 < k)%nat →
  Forall (λ c, is_digit c = true) (to_bytes (pretty n)) ∧ length (to_bytes (pretty n)) ≤ k.
Proof.
  intros Hn Hk. unfold pretty, pretty_N. case_decide; [split; [by repeat constructor|simpl; lia]|].
  destruct (digits_go n "") as (ds & -> & Hd & Hl). rewrite to_bytes_app, to_of, app_nil_r. split; [done|by apply Hl].
Qed.

Definition digit_or_sign (c : ascii) : bool := is_digit c || bool_decide (c = "-"%char).

Lemma digits_Z z k : (Z.abs z < 10 ^ Z.of_nat k)%Z → (0 < k)%nat →
  Forall (λ c, digit_or_sign c = true) (to_bytes (pretty z)) ∧ length (to_bytes (pretty z)) ≤ S k.
Proof.
  intros Hz Hk.
  assert (Hp : ∀ p, (Z.pos p < 10 ^ Z.of_nat k)%Z →
    Forall (λ c, digit_or_sign c = true) (to_bytes (pretty p)) ∧ length (to_bytes (pretty p)) ≤ k).
  { intros p Hp. destruct (digits_N (N.pos p) k) as [Hd Hl]; [|done|].
    - apply N2Z.inj_lt. rewrite N2Z.inj_pow, nat_N_Z. exact Hp.
    - split; [|exact Hl]. eapply Forall_impl; [exact Hd|]. intros c Hc. unfold digit_or_sign. by rewrite Hc. }
  destruct z as [|p|p]; unfold pretty, pretty_Z.
  - split; [by repeat constructor|simpl; lia].
  - destruct (Hp p Hz) as [H1 H2]. split; [done|lia].
  - destruct (Hp p Hz) as [H1 H2]. rewrite to_bytes_app. split; [|simpl; lia].
    apply Forall_app. split; [by repeat constructor|done].
Qed.

(** ** Cleaning

    What a reader finds in the text of a value: every string without bytes that are
    not UTF-8. *)

Definition clean (s : string) : string := of_bytes (sanitize (to_bytes s)).

Fixpoint json_clean (j : json) : json :=
  match j with
  | JStr s => JStr (clean s)
  | JArr l => JArr ((fix go (l : list json) : list json :=
      match l with [] => [] | v :: l' => json_clean v :: go l' end) l)
  | JObj fs => JObj ((fix go (l : list (string * json)) : list (string * json) :=
      match l with [] => [] | (k, v) :: l' => (clean k, json_clean v) :: go l' end) fs)
  | _ => j
  end.

Lemma runes_whole l : concat (snd <$> runes l) = l.
Proof.
  induction l as [l IH] using (induction_ltof1 _ length). destruct l as [|c l1]; [done|]. cbn [runes].
  assert (IH' : ∀ l', length l' < S (length l1) → concat (snd <$> runes l') = l') by (intros; by apply IH).
  repeat first [ case_match; subst | cbn [fmap list_fmap concat snd app]; rewrite IH' by (simpl; lia); done | done ].
Qed.

Lemma rune_first r l : rune_ok r → runes (r ++ l) = (true, r) :: runes l.
Proof.
  assert (Hhigh : ∀ lo hi c, 128 ≤ lo → byte_in lo hi c = true → ascii_lt 128 c = false).
  { intros lo hi c Hlo Hc. apply ascii_lt_false. apply byte_in_spec in Hc. lia. }
  destruct 1 as [c H1|c c1 H2|c c1 c2 H2 H3|c c1 c2 c3 H2 H3 H4]; cbn [app runes].
  - by rewrite H1.
  - assert (E : ascii_lt 128 c = false) by (unfold rune2 in H2; apply andb_prop in H2 as [Hc _]; apply (Hhigh 194 223); [lia|done]).
    by rewrite E, H2.
  - assert (E : ascii_lt 128 c = false).
    { unfold rune3 in H3. rewrite !andb_true_iff in H3. destruct H3 as [[Hc _] _]. apply (Hhigh 224 239); [lia|done]. }
    by rewrite E, H2, H3.
  - assert (E : ascii_lt 128 c = false).
    { unfold rune4 in H4. rewrite !andb_true_iff in H4. destruct H4 as [[[Hc _] _] _]. apply (Hhigh 240 244); [lia|done]. }
    by rewrite E, H2, H3, H4.
Qed.

Lemma rune_error_ok : rune_ok RuneError.
Proof. by apply rune_ok3. Qed.

(** A cleaned text has as many runes. *)
Lemma runes_sanitize l : runes (sanitize l) = (λ r, (true, clean_rune r)) <$> runes l.
Proof.
  unfold sanitize. induction (runes_ok l) as [|[ok r] rs Hr _ IH]; [done|]. cbn [fmap list_fmap concat].
  rewrite rune_first, IH; [done|]. unfold clean_rune. cbn [fst snd] in *. destruct ok; [by apply Hr|apply rune_error_ok].
Qed.

Lemma clean_idem s : clean (clean s) = clean s.
Proof.
  unfold clean. rewrite to_of. f_equal. unfold sanitize at 1. rewrite runes_sanitize, <-list_fmap_compose. done.
Qed.

(** Text in which no U+FFFD was put is unchanged. *)
Lemma sanitize_kept l : b 239 ∉ sanitize l → sanitize l = l.
Proof.
  intros Hno. rewrite <-(runes_whole l) at 2. unfold sanitize in *. induction (runes l) as [|[ok r] rs IH]; [done|].
  cbn [fmap list_fmap concat] in *. apply not_elem_of_app in Hno as [Hr Hno]. rewrite IH by done.
  destruct ok; [done|]. destruct Hr. left.
Qed.

Lemma sanitize_elem l c : c ∈ sanitize l → c ∈ l ∨ c ∈ RuneError.
Proof.
  rewrite <-(runes_whole l) at 2. unfold sanitize. induction (runes l) as [|[ok r] rs IH]; [by intros ?%elem_of_nil|].
  cbn [fmap list_fmap concat]. rewrite !elem_of_app. intros [Hc|Hc]; [|by destruct (IH Hc); auto].
  destruct ok; [by left; left|by right].
Qed.

Lemma clean_kept s : b 239 ∉ to_bytes (clean s) → clean s = s.
Proof. unfold clean. rewrite to_of. intros H. by rewrite sanitize_kept, of_to. Qed.

Lemma clean_valid s : utf8_valid s = true → clean s = s.
Proof. intros H. unfold clean. rewrite sanitize_valid by (by rewrite of_to). apply of_to. Qed.

Lemma clean_empty s : clean s = "" ↔ s = "".
Proof.
  split; [|by intros ->]. intros E. rewrite <-E. symmetry. apply clean_kept. rewrite E. apply not_elem_of_nil.
Qed.

Lemma space_rune_ok : Forall rune_ok space_runes.
Proof.
  assert (H : ∀ r, match r with
    | [c] => ascii_lt 128 c | [c; c1] => rune2 c c1 | [c; c1; c2] => negb (rune2 c c1) && rune3 c c1 c2 | _ => false
    end = true → rune_ok r).
  { intros [|c [|c1 [|c2 [|]]]]; try done; [by constructor..|]. intros [Hr H3]%andb_prop.
    apply negb_true_iff in Hr. by constructor. }
  apply Forall_forall. intros r Hr. apply H. clear H. revert r Hr. apply Forall_forall. vm_compute. by repeat constructor.
Qed.

Lemma clean_blank s : trim_space (clean s) = "" ↔ trim_space s = "".
Proof.
  split; intros E.
  - rewrite <-E. f_equal. symmetry. apply clean_kept. intros Hin.
    by eapply trim_space_not_blank; [exact Hin|vm_compute; reflexivity|].
  - assert (Hs : clean s = s); [|by rewrite Hs]. destruct (trim_space_blank s E) as (qs & Hqs & Hs).
    unfold clean. rewrite <-(of_to s) at 2. f_equal. rewrite Hs. clear -Hqs. unfold sanitize.
    induction Hqs as [|q qs Hq _ IH]; [done|]. cbn [concat]. rewrite rune_first; [|pose proof space_rune_ok as Hok; rewrite Forall_forall in Hok; by apply Hok].
    cbn [fmap list_fmap concat]. by rewrite IH.
Qed.

(** A byte below 0x80 is a rune of its own. *)
Lemma runes_bad l : Forall (λ r, r.1 = false → Forall (λ c, ascii_lt 128 c = false) r.2) (runes l).
Proof.
  induction l as [l IH] using (induction_ltof1 _ length). destruct l as [|c l1]; [constructor|]. cbn [runes].
  assert (IH' : ∀ l', length l' < S (length l1) → Forall (λ r, r.1 = false → Forall (λ c, ascii_lt 128 c = false) r.2) (runes l'))
    by (intros; by apply IH).
  repeat first
    [ case_match
    | apply Forall_cons; split; [try done; intros _; by repeat constructor|]
    | apply IH'; simpl; lia
    | constructor ].
Qed.

Lemma sanitize_low l c : ascii_lt 128 c = true → c ∈ l → c ∈ sanitize l.
Proof.
  intros Hc. rewrite <-(runes_whole l) at 1. unfold sanitize. induction (runes_bad l) as [|[ok r] rs Hr _ IH]; [done|].
  cbn [fmap list_fmap concat]. rewrite !elem_of_app. intros [Hin|Hin]; [left|by right; apply IH]. destruct ok; [done|].
  specialize (Hr eq_refl). rewrite Forall_forall in Hr. specialize (Hr c Hin). simpl in Hr. congruence.
Qed.

(** Only an ASCII text is cleaned to that text. *)
Lemma clean_is s t : b 239 ∉ to_bytes t → clean s = t → s = t.
Proof. intros Ht E. rewrite <-E. symmetry. apply clean_kept. by rewrite E. Qed.

Lemma json_clean_arr l : json_clean (JArr l) = JArr (json_clean <$> l).
Proof. done. Qed.

Lemma json_clean_obj fs : json_clean (JObj fs) = JObj (prod_map clean json_clean <$> fs).
Proof. cbn [json_clean]. f_equal. induction fs as [|[k v] fs IH]; [done|]. by rewrite fmap_cons, <-IH. Qed.
