(* ===== verification/JobMeta.v ===== *)
(** * Structured job metadata ([internal/workflow/contracts/job_meta.go],
      [build_gate_metadata.go], [stack_gate_spec.go], [value_parse.go])

    The typed view of [jobs.meta]. A decoder says what [json.Unmarshal] does to a
    Go value of type [A]: [None] is an error, on which every caller here drops the
    value. Struct keys match without regard to case ([fold_key]), an unknown key is
    skipped, a repeated key decodes into the value built so far, and [null]
    leaves a value alone or clears a pointer, slice or map. *)

From S2P Require Import Prelude GoStrings Types Json JsonText.
From stdpp Require Import base list sorting strings pretty.
From Stdlib Require Import ZArith Lia Ascii.


(** ** Formatting that is left abstract: the verbs [%q] of a string and [%g] of a
    number literal, and what becomes of a number literal that is read as a
    [float64]. *)
Class GoFmt := { fmt_q : string → string; fmt_g : json → string; fmt_float : GoFloat }.

(** Quotes without escapes, and literals as written: what the verbs give for
    printable text and short decimals. *)
#[export] Instance plain_fmt : GoFmt := {
  fmt_q := λ s, String (ascii_of_nat 34) (s +:+ String (ascii_of_nat 34) "");
  fmt_g := λ j, match j with JNumber lit => lit | _ => "" end;
  fmt_float := small_ints
}.

(** ** Decoders *)

Definition Decoder (A : Type) : Type := json → A → option A.

Section Decoders.
Context {A B : Type}.

Definition dec_field (get : A → B) (set : B → A → A) (d : Decoder B) : Decoder A := λ j a,
  (λ v, set v a) <$> d j (get a).

(** A pointer: [null] clears it, another value decodes into a fresh target when
    it is nil. *)
Definition dec_ptr (zero : A) (d : Decoder A) : Decoder (option A) := λ j o,
  match j with
  | JNull => Some None
  | _ => Some <$> d j (default zero o)
  end.

(** A slice: element [i] decodes into the element already there, if any. *)
Fixpoint dec_elems (zero : A) (d : Decoder A) (l : list json) (old : list A) : option (list A) :=
  match l with
  | [] => Some []
  | j :: l' =>
      x ← d j (default zero (head old));
      xs ← dec_elems zero d l' (tail old);
      Some (x :: xs)
  end.

Definition dec_slice (zero : A) (d : Decoder A) : Decoder (list A) := λ j old,
  match j with
  | JNull => Some []
  | JArr l => dec_elems zero d l old
  | _ => None
  end.

Fixpoint find_field (fields : list (string * Decoder A)) (k : string) : option (Decoder A) :=
  match fields with
  | [] => None
  | (name, d) :: fs => if decide (fold_key k = name) then Some d else find_field fs k
  end.

Definition dec_struct (fields : list (string * Decoder A)) : Decoder A := λ j a,
  match j with
  | JNull => Some a
  | JObj kvs =>
      foldl (λ (acc : option A) (kv : string * json),
        x ← acc;
        match find_field fields kv.1 with
        | None => Some x
        | Some d => d kv.2 x
        end) (Some a) kvs
  | _ => None
  end.

End Decoders.

Definition dec_string : Decoder string := λ j s,
  match j with JNull => Some s | JStr v => Some v | _ => None end.

Definition dec_bool : Decoder bool := λ j v,
  match j with JNull => Some v | JBool b => Some b | _ => None end.

(** [int] and [int64] *)
Definition dec_int : Decoder Z := λ j v,
  match j with
  | JNull => Some v
  | JInt z => if in_int64 z then Some z else None
  | _ => None
  end.

(** [map[string]interface{}]: any object, its numbers read as [float64]; keys add to
    those present, the last of several equal ones stays. *)
Definition dec_any_map `{GoFmt} : Decoder (list (string * json)) := λ j m,
  match j with
  | JNull => Some []
  | JObj kvs => @any_fields fmt_float kvs m
  | _ => None
  end.

(** [map[string]string] *)
Definition dec_string_map : Decoder (list (string * string)) := λ j m,
  match j with
  | JNull => Some []
  | JObj kvs =>
      foldl (λ acc kv, m ← acc; s ← dec_string kv.2 ""; Some (m ++ [(kv.1, s)])) (Some m) kvs
  | _ => None
  end.

(** A type with an [UnmarshalJSON] of its own, such as the SHA-256 digest, also
    sees [null]: it reads as the empty string, which is rejected. *)
Definition is_sha256_digest (s : string) : bool :=
  has_prefix s "sha256:" &&
  let hex := drop 7 (to_bytes s) in
  bool_decide (length hex = 64) && forallb is_hex_lower hex.

Definition dec_digest : Decoder string := λ j _,
  match j with
  | JStr v => let s := trim_space v in if is_sha256_digest s then Some s else None
  | _ => None
  end.

(** ** Types *)

Record StackExpectation := mkStackExpectation {
  se_Language : string; se_Tool : string; se_Release : string
}.

Record BuildGateStaticCheckFailure := mkStaticCheckFailure {
  scf_RuleID : string; scf_File : string; scf_Line : Z; scf_Column : Z;
  scf_Severity : string; scf_Message : string
}.

Record BuildGateStaticCheckReport := mkStaticCheckReport {
  scr_Language : string; scr_Tool : string; scr_Passed : bool;
  scr_Failures : list BuildGateStaticCheckFailure
}.

Record BuildGateLogFinding := mkLogFinding {
  lf_Code : string; lf_Severity : string; lf_Message : string; lf_Evidence : string
}.

Record StackGateResult := mkStackGateResult {
  sg_Enabled : bool; sg_Expected : option StackExpectation; sg_Detected : option StackExpectation;
  sg_RuntimeImage : string; sg_Result : string; sg_Reason : string
}.

Record BuildGateStageMetadata := mkBuildGateStageMetadata {
  bg_LogDigest : string; bg_StaticChecks : list BuildGateStaticCheckReport;
  bg_ExecutedCommand : string; bg_Detected : option StackExpectation;
  bg_LogFindings : list BuildGateLogFinding; bg_StackGate : option StackGateResult;
  bg_BugSummary : string
}.

Record BuildMeta := mkBuildMeta {
  bm_Tool : string; bm_Command : string; bm_StatusDetails : string;
  bm_Metrics : list (string * json)
}.

Record JobMeta := mkJobMeta {
  jmt_Kind : string; jmt_GateMetadata : option BuildGateStageMetadata;
  jmt_Build : option BuildMeta; jmt_MigStepName : string; jmt_MigStepIndex : option Z;
  jmt_GateCycleName : string
}.

Definition JobKindMig : string := "mig".
Definition JobKindGate : string := "gate".
Definition JobKindBuild : string := "build".

Definition JobKind_Valid (k : string) : bool :=
  bool_decide (k = JobKindMig) || bool_decide (k = JobKindGate) || bool_decide (k = JobKindBuild).

(** ** Validation: [true] is a nil error *)

Definition blank (s : string) : bool := bool_decide (trim_space s = "").

Definition BuildGateStaticCheckFailure_Validate (f : BuildGateStaticCheckFailure) : bool :=
  negb (blank (scf_Message f)) && negb (blank (scf_Severity f))
  && bool_decide (0 ≤ scf_Line f)%Z && bool_decide (0 ≤ scf_Column f)%Z.

Definition BuildGateStaticCheckReport_Validate (r : BuildGateStaticCheckReport) : bool :=
  negb (blank (scr_Tool r)) && forallb BuildGateStaticCheckFailure_Validate (scr_Failures r).

Definition BuildGateLogFinding_Validate (f : BuildGateLogFinding) : bool :=
  negb (blank (lf_Message f)) && negb (blank (lf_Severity f)).

Definition StackGateResult_Validate (r : StackGateResult) : bool :=
  negb (sg_Enabled r) || bool_decide (sg_Result r ∈ ["pass"; "mismatch"; "unknown"]).

Definition contains_any (s : string) (codes : list nat) : bool :=
  existsb (λ c, bool_decide (nat_of_ascii c ∈ codes)) (to_bytes s).

(** [utf8.RuneCountInString] *)
Definition rune_count (s : string) : nat := length (runes (to_bytes s)).

Definition BuildGateStageMetadata_Validate (m : BuildGateStageMetadata) : bool :=
  match bg_Detected m with
  | None => true
  | Some d => negb (blank (se_Language d)) && negb (blank (se_Tool d))
  end
  && forallb BuildGateStaticCheckReport_Validate (bg_StaticChecks m)
  && forallb BuildGateLogFinding_Validate (bg_LogFindings m)
  && match bg_StackGate m with None => true | Some sg => StackGateResult_Validate sg end
  && (bool_decide (bg_BugSummary m = "")
      || (negb (contains_any (bg_BugSummary m) [10; 13])
          && bool_decide (rune_count (bg_BugSummary m) ≤ 200))).

Definition JobMeta_Validate (m : JobMeta) : bool :=
  JobKind_Valid (jmt_Kind m)
  && match jmt_GateMetadata m with
     | None => true
     | Some g => bool_decide (jmt_Kind m = JobKindGate) && BuildGateStageMetadata_Validate g
     end
  && match jmt_Build m with None => true | Some _ => bool_decide (jmt_Kind m = JobKindBuild) end
  && match jmt_MigStepIndex m with
     | None => true
     | Some i => bool_decide (jmt_Kind m = JobKindMig) && bool_decide (0 ≤ i)%Z
     end
  && (bool_decide (jmt_GateCycleName m = "")
      || ((bool_decide (jmt_Kind m = JobKindMig) || bool_decide (jmt_Kind m = JobKindGate))
          && negb (contains_any (jmt_GateCycleName m) [10; 13; 9])
          && bool_decide (trim_space (jmt_GateCycleName m) = jmt_GateCycleName m))).

(** ** Decoding *)

Section Decode.
Context `{GoFmt}.

(** Integers a [float64] represents exactly print as integers. *)
Definition ParseReleaseValue (j : json) : option string :=
  match j with
  | JStr s => Some (trim_space s)
  | JInt z => if decide (Z.abs z ≤ 2 ^ 53)%Z then Some (pretty z) else Some (fmt_g j)
  | JNumber _ => Some (fmt_g j)
  | _ => None
  end.

Definition unmarshalReleaseJSON (j : json) : option string :=
  match j with JNull => Some "" | _ => ParseReleaseValue j end.

(** The auxiliary struct keeps the last [release] raw; it is converted once the
    rest decoded. *)
Definition dec_StackExpectation : Decoder StackExpectation := λ j e,
  p ← dec_struct [
    ("release", λ v (p : option json * StackExpectation), Some (Some v, p.2));
    ("language", λ v p, (λ s, (p.1, mkStackExpectation s (se_Tool p.2) (se_Release p.2))) <$> dec_string v (se_Language p.2));
    ("tool", λ v p, (λ s, (p.1, mkStackExpectation (se_Language p.2) s (se_Release p.2))) <$> dec_string v (se_Tool p.2))
  ] j (None, e);
  match p.1 with
  | None => Some p.2
  | Some raw => (λ r, mkStackExpectation (se_Language p.2) (se_Tool p.2) r) <$> unmarshalReleaseJSON raw
  end.

Definition zero_se := mkStackExpectation "" "" "".

Definition dec_StaticCheckFailure : Decoder BuildGateStaticCheckFailure := dec_struct [
  ("rule_id", dec_field scf_RuleID (λ v a, mkStaticCheckFailure v (scf_File a) (scf_Line a) (scf_Column a) (scf_Severity a) (scf_Message a)) dec_string);
  ("file", dec_field scf_File (λ v a, mkStaticCheckFailure (scf_RuleID a) v (scf_Line a) (scf_Column a) (scf_Severity a) (scf_Message a)) dec_string);
  ("line", dec_field scf_Line (λ v a, mkStaticCheckFailure (scf_RuleID a) (scf_File a) v (scf_Column a) (scf_Severity a) (scf_Message a)) dec_int);
  ("column", dec_field scf_Column (λ v a, mkStaticCheckFailure (scf_RuleID a) (scf_File a) (scf_Line a) v (scf_Severity a) (scf_Message a)) dec_int);
  ("severity", dec_field scf_Severity (λ v a, mkStaticCheckFailure (scf_RuleID a) (scf_File a) (scf_Line a) (scf_Column a) v (scf_Message a)) dec_string);
  ("message", dec_field scf_Message (λ v a, mkStaticCheckFailure (scf_RuleID a) (scf_File a) (scf_Line a) (scf_Column a) (scf_Severity a) v) dec_string)
].

Definition dec_StaticCheckReport : Decoder BuildGateStaticCheckReport := dec_struct [
  ("language", dec_field scr_Language (λ v a, mkStaticCheckReport v (scr_Tool a) (scr_Passed a) (scr_Failures a)) dec_string);
  ("tool", dec_field scr_Tool (λ v a, mkStaticCheckReport (scr_Language a) v (scr_Passed a) (scr_Failures a)) dec_string);
  ("passed", dec_field scr_Passed (λ v a, mkStaticCheckReport (scr_Language a) (scr_Tool a) v (scr_Failures a)) dec_bool);
  ("failures", dec_field scr_Failures (λ v a, mkStaticCheckReport (scr_Language a) (scr_Tool a) (scr_Passed a) v)
     (dec_slice (mkStaticCheckFailure "" "" 0 0 "" "") dec_StaticCheckFailure))
].

Definition dec_LogFinding : Decoder BuildGateLogFinding := dec_struct [
  ("code", dec_field lf_Code (λ v a, mkLogFinding v (lf_Severity a) (lf_Message a) (lf_Evidence a)) dec_string);
  ("severity", dec_field lf_Severity (λ v a, mkLogFinding (lf_Code a) v (lf_Message a) (lf_Evidence a)) dec_string);
  ("message", dec_field lf_Message (λ v a, mkLogFinding (lf_Code a) (lf_Severity a) v (lf_Evidence a)) dec_string);
  ("evidence", dec_field lf_Evidence (λ v a, mkLogFinding (lf_Code a) (lf_Severity a) (lf_Message a) v) dec_string)
].

Definition dec_StackGateResult : Decoder StackGateResult := dec_struct [
  ("enabled", dec_field sg_Enabled (λ v a, mkStackGateResult v (sg_Expected a) (sg_Detected a) (sg_RuntimeImage a) (sg_Result a) (sg_Reason a)) dec_bool);
  ("expected", dec_field sg_Expected (λ v a, mkStackGateResult (sg_Enabled a) v (sg_Detected a) (sg_RuntimeImage a) (sg_Result a) (sg_Reason a)) (dec_ptr zero_se dec_StackExpectation));
  ("detected", dec_field sg_Detected (λ v a, mkStackGateResult (sg_Enabled a) (sg_Expected a) v (sg_RuntimeImage a) (sg_Result a) (sg_Reason a)) (dec_ptr zero_se dec_StackExpectation));
  ("runtime_image", dec_field sg_RuntimeImage (λ v a, mkStackGateResult (sg_Enabled a) (sg_Expected a) (sg_Detected a) v (sg_Result a) (sg_Reason a)) dec_string);
  ("result", dec_field sg_Result (λ v a, mkStackGateResult (sg_Enabled a) (sg_Expected a) (sg_Detected a) (sg_RuntimeImage a) v (sg_Reason a)) dec_string);
  ("reason", dec_field sg_Reason (λ v a, mkStackGateResult (sg_Enabled a) (sg_Expected a) (sg_Detected a) (sg_RuntimeImage a) (sg_Result a) v) dec_string)
].

Definition dec_BuildGateStageMetadata : Decoder BuildGateStageMetadata := dec_struct [
  ("log_digest", dec_field bg_LogDigest (λ v a, mkBuildGateStageMetadata v (bg_StaticChecks a) (bg_ExecutedCommand a) (bg_Detected a) (bg_LogFindings a) (bg_StackGate a) (bg_BugSummary a)) dec_digest);
  ("static_checks", dec_field bg_StaticChecks (λ v a, mkBuildGateStageMetadata (bg_LogDigest a) v (bg_ExecutedCommand a) (bg_Detected a) (bg_LogFindings a) (bg_StackGate a) (bg_BugSummary a)) (dec_slice (mkStaticCheckReport "" "" false []) dec_StaticCheckReport));
  ("executed_command", dec_field bg_ExecutedCommand (λ v a, mkBuildGateStageMetadata (bg_LogDigest a) (bg_StaticChecks a) v (bg_Detected a) (bg_LogFindings a) (bg_StackGate a) (bg_BugSummary a)) dec_string);
  ("detected_stack", dec_field bg_Detected (λ v a, mkBuildGateStageMetadata (bg_LogDigest a) (bg_StaticChecks a) (bg_ExecutedCommand a) v (bg_LogFindings a) (bg_StackGate a) (bg_BugSummary a)) (dec_ptr zero_se dec_StackExpectation));
  ("log_findings", dec_field bg_LogFindings (λ v a, mkBuildGateStageMetadata (bg_LogDigest a) (bg_StaticChecks a) (bg_ExecutedCommand a) (bg_Detected a) v (bg_StackGate a) (bg_BugSummary a)) (dec_slice (mkLogFinding "" "" "" "") dec_LogFinding));
  ("stack_gate", dec_field bg_StackGate (λ v a, mkBuildGateStageMetadata (bg_LogDigest a) (bg_StaticChecks a) (bg_ExecutedCommand a) (bg_Detected a) (bg_LogFindings a) v (bg_BugSummary a)) (dec_ptr (mkStackGateResult false None None "" "" "") dec_StackGateResult));
  ("bug_summary", dec_field bg_BugSummary (λ v a, mkBuildGateStageMetadata (bg_LogDigest a) (bg_StaticChecks a) (bg_ExecutedCommand a) (bg_Detected a) (bg_LogFindings a) (bg_StackGate a) v) dec_string)
].

Definition dec_BuildMeta : Decoder BuildMeta := dec_struct [
  ("tool", dec_field bm_Tool (λ v a, mkBuildMeta v (bm_Command a) (bm_StatusDetails a) (bm_Metrics a)) dec_string);
  ("command", dec_field bm_Command (λ v a, mkBuildMeta (bm_Tool a) v (bm_StatusDetails a) (bm_Metrics a)) dec_string);
  ("status_details", dec_field bm_StatusDetails (λ v a, mkBuildMeta (bm_Tool a) (bm_Command a) v (bm_Metrics a)) dec_string);
  ("metrics", dec_field bm_Metrics (λ v a, mkBuildMeta (bm_Tool a) (bm_Command a) (bm_StatusDetails a) v) dec_any_map)
].

Definition zero_bg := mkBuildGateStageMetadata "" [] "" None [] None "".

Definition dec_JobMeta : Decoder JobMeta := dec_struct [
  ("kind", dec_field jmt_Kind (λ v a, mkJobMeta v (jmt_GateMetadata a) (jmt_Build a) (jmt_MigStepName a) (jmt_MigStepIndex a) (jmt_GateCycleName a)) dec_string);
  ("gate", dec_field jmt_GateMetadata (λ v a, mkJobMeta (jmt_Kind a) v (jmt_Build a) (jmt_MigStepName a) (jmt_MigStepIndex a) (jmt_GateCycleName a)) (dec_ptr zero_bg dec_BuildGateStageMetadata));
  ("build", dec_field jmt_Build (λ v a, mkJobMeta (jmt_Kind a) (jmt_GateMetadata a) v (jmt_MigStepName a) (jmt_MigStepIndex a) (jmt_GateCycleName a)) (dec_ptr (mkBuildMeta "" "" "" []) dec_BuildMeta));
  ("mig_step_name", dec_field jmt_MigStepName (λ v a, mkJobMeta (jmt_Kind a) (jmt_GateMetadata a) (jmt_Build a) v (jmt_MigStepIndex a) (jmt_GateCycleName a)) dec_string);
  ("mig_step_index", dec_field jmt_MigStepIndex (λ v a, mkJobMeta (jmt_Kind a) (jmt_GateMetadata a) (jmt_Build a) (jmt_MigStepName a) v (jmt_GateCycleName a)) (dec_ptr 0%Z dec_int));
  ("gate_cycle_name", dec_field jmt_GateCycleName (λ v a, mkJobMeta (jmt_Kind a) (jmt_GateMetadata a) (jmt_Build a) (jmt_MigStepName a) (jmt_MigStepIndex a) v) dec_string)
].

Definition UnmarshalJobMeta (j : json) : option JobMeta :=
  m ← dec_JobMeta j (mkJobMeta "" None None "" None "");
  if bool_decide (jmt_Kind m = "") then None
  else if JobMeta_Validate m then Some m else None.

End Decode.

(** ** Encoding: [omitempty] drops zero fields

    The structs give the document as it is before it is written; what a reader finds
    in the text is its [json_clean]. A map is written in the order of its keys. *)

Definition omit (zero : bool) (k : string) (v : json) : list (string * json) :=
  if zero then [] else [(k, v)].

Definition opt_str (k s : string) : list (string * json) := omit (bool_decide (s = "")) k (JStr s).
Definition opt_int (k : string) (z : Z) : list (string * json) := omit (bool_decide (z = 0%Z)) k (JInt z).
Definition opt_ptr {A} (enc : A → json) (k : string) (o : option A) : list (string * json) :=
  match o with None => [] | Some a => [(k, enc a)] end.
Definition opt_arr {A} (enc : A → json) (k : string) (l : list A) : list (string * json) :=
  match l with [] => [] | _ => [(k, JArr (enc <$> l))] end.

Definition enc_StackExpectation (e : StackExpectation) : json :=
  JObj (opt_str "language" (se_Language e) ++ opt_str "tool" (se_Tool e)
        ++ opt_str "release" (se_Release e)).

Definition enc_StaticCheckFailure (f : BuildGateStaticCheckFailure) : json :=
  JObj (opt_str "rule_id" (scf_RuleID f) ++ opt_str "file" (scf_File f)
        ++ opt_int "line" (scf_Line f) ++ opt_int "column" (scf_Column f)
        ++ [("severity", JStr (scf_Severity f)); ("message", JStr (scf_Message f))]).

Definition enc_StaticCheckReport (r : BuildGateStaticCheckReport) : json :=
  JObj (opt_str "language" (scr_Language r)
        ++ [("tool", JStr (scr_Tool r)); ("passed", JBool (scr_Passed r))]
        ++ opt_arr enc_StaticCheckFailure "failures" (scr_Failures r)).

Definition enc_LogFinding (f : BuildGateLogFinding) : json :=
  JObj (opt_str "code" (lf_Code f)
        ++ [("severity", JStr (lf_Severity f)); ("message", JStr (lf_Message f))]
        ++ opt_str "evidence" (lf_Evidence f)).

Definition enc_StackGateResult (r : StackGateResult) : json :=
  JObj ([("enabled", JBool (sg_Enabled r))]
        ++ opt_ptr enc_StackExpectation "expected" (sg_Expected r)
        ++ opt_ptr enc_StackExpectation "detected" (sg_Detected r)
        ++ opt_str "runtime_image" (sg_RuntimeImage r)
        ++ opt_str "result" (sg_Result r) ++ opt_str "reason" (sg_Reason r)).

(** [Sha256Digest.MarshalText] *)
Definition enc_digest (s : string) : option json :=
  let s := trim_space s in if is_sha256_digest s then Some (JStr s) else None.

Definition enc_BuildGateStageMetadata (m : BuildGateStageMetadata) : option json :=
  digest ← (if decide (bg_LogDigest m = "") then Some []
            else d ← enc_digest (bg_LogDigest m); Some [("log_digest", d)]);
  Some (JObj (digest
        ++ opt_arr enc_StaticCheckReport "static_checks" (bg_StaticChecks m)
        ++ opt_str "executed_command" (bg_ExecutedCommand m)
        ++ opt_ptr enc_StackExpectation "detected_stack" (bg_Detected m)
        ++ opt_arr enc_LogFinding "log_findings" (bg_LogFindings m)
        ++ opt_ptr enc_StackGateResult "stack_gate" (bg_StackGate m)
        ++ opt_str "bug_summary" (bg_BugSummary m))).

Definition by_key (m : list (string * json)) : list (string * json) :=
  merge_sort (λ a b, String.le a.1 b.1) m.

Definition enc_BuildMeta (m : BuildMeta) : json :=
  JObj (opt_str "tool" (bm_Tool m) ++ opt_str "command" (bm_Command m)
        ++ opt_str "status_details" (bm_StatusDetails m)
        ++ omit (bool_decide (bm_Metrics m = [])) "metrics" (JObj (by_key (bm_Metrics m)))).

Definition enc_JobMeta (m : JobMeta) : option json :=
  gate ← match jmt_GateMetadata m with
         | None => Some []
         | Some g => d ← enc_BuildGateStageMetadata g; Some [("gate", d)]
         end;
  Some (JObj ([("kind", JStr (jmt_Kind m))] ++ gate
    ++ opt_ptr enc_BuildMeta "build" (jmt_Build m)
    ++ opt_str "mig_step_name" (jmt_MigStepName m)
    ++ opt_ptr JInt "mig_step_index" (jmt_MigStepIndex m)
    ++ opt_str "gate_cycle_name" (jmt_GateCycleName m))).

(** The document in the bytes that are returned. Values that JSON cannot express, such
    as infinite metrics, do not come out of a decoder and are not in the model. *)
Definition MarshalJobMeta (m : JobMeta) : option json :=
  if JobMeta_Validate m then json_clean <$> enc_JobMeta m else None.

Definition NewMigJobMeta : JobMeta := mkJobMeta JobKindMig None None "" None "".
Definition NewMigJobMetaWithStepName (stepName : string) : JobMeta :=
  mkJobMeta JobKindMig None None stepName None "".
Definition NewGateJobMeta (gate : option BuildGateStageMetadata) : JobMeta :=
  mkJobMeta JobKindGate gate None "" None "".
Definition NewBuildJobMeta (build : option BuildMeta) : JobMeta :=
  mkJobMeta JobKindBuild None build "" None "".

(** ** Facts *)

Lemma UnmarshalJobMeta_valid `{GoFmt} j m :
  UnmarshalJobMeta j = Some m → JobMeta_Validate m = true.
Proof.
  unfold UnmarshalJobMeta. destruct (dec_JobMeta _ _) as [m'|]; [simpl|done].
  repeat case_match; naive_solver.
Qed.

