(* ===== verification/JobMetaCodec.v ===== *)
(** * Job metadata survives its encoding

    Every struct of [jobs.meta] is decoded back from what [json.Marshal] writes
    for it, up to what the two sides do to strings: bytes that are not UTF-8 become
    U+FFFD, and digests and releases lose surrounding blanks. Neither the order in
    which a [jsonb] column keeps the keys matters ([stable]). *)

From S2P Require Import Prelude GoStrings Types Json JsonText JobMeta.
From stdpp Require Import base list sorting strings pretty.
From Stdlib Require Import ZArith Lia Ascii.

(** ** Decoding an object in parts *)

Section Parts.
Context {A : Type} (fields : list (string * Decoder A)).

Lemma dec_obj_nil x : dec_struct fields (JObj []) x = Some x.
Proof. done. Qed.

Lemma dec_obj_app a b x :
  dec_struct fields (JObj (a ++ b)) x = (y ← dec_struct fields (JObj a) x; dec_struct fields (JObj b) y).
Proof.
  simpl. rewrite foldl_app. generalize (foldl (λ (acc : option A) (kv : string * json),
    y ← acc; match find_field fields kv.1 with None => Some y | Some d => d kv.2 y end) (Some x) a).
  intros [y|]; simpl; [done|]. induction b as [|kv b IH]; [done|exact IH].
Qed.

(** One key, and a key that is left out for a zero value. *)
Lemma dec_obj_one k d v x : find_field fields k = Some d → dec_struct fields (JObj [(k, v)]) x = d v x.
Proof. intros Hd. simpl. by rewrite Hd. Qed.

Lemma dec_obj_cons k d v a x : find_field fields k = Some d →
  dec_struct fields (JObj ((k, v) :: a)) x = (y ← d v x; dec_struct fields (JObj a) y).
Proof. intros Hd. rewrite (dec_obj_app [(k, v)] a). by rewrite (dec_obj_one k d). Qed.

Lemma dec_cons_str k get set s a x : find_field fields k = Some (dec_field get set dec_string) →
  dec_struct fields (JObj ((k, JStr s) :: a)) x = dec_struct fields (JObj a) (set s x).
Proof. intros Hd. by rewrite (dec_obj_cons _ _ _ _ _ Hd). Qed.

Lemma dec_cons_bool k get set v a x : find_field fields k = Some (dec_field get set dec_bool) →
  dec_struct fields (JObj ((k, JBool v) :: a)) x = dec_struct fields (JObj a) (set v x).
Proof. intros Hd. by rewrite (dec_obj_cons _ _ _ _ _ Hd). Qed.

Lemma dec_omit zero k d v x y : find_field fields k = Some d →
  (zero = true → y = x) → (zero = false → d v x = Some y) →
  dec_struct fields (JObj (omit zero k v)) x = Some y.
Proof.
  intros Hd Hz Hn. destruct zero; simpl; [by rewrite Hz|]. rewrite Hd. by apply Hn.
Qed.

Lemma dec_opt_str k get set s x : find_field fields k = Some (dec_field get set dec_string) →
  set "" x = x → dec_struct fields (JObj (opt_str k s)) x = Some (set s x).
Proof.
  intros Hd Hz. eapply dec_omit; [done| |done]. rewrite bool_decide_eq_true. by intros ->.
Qed.

Lemma dec_opt_int k get set z x : find_field fields k = Some (dec_field get set dec_int) →
  set 0%Z x = x → in_int64 z = true → dec_struct fields (JObj (opt_int k z)) x = Some (set z x).
Proof.
  intros Hd Hz Hr. eapply dec_omit; [done| |].
  - rewrite bool_decide_eq_true. by intros ->.
  - intros _. unfold dec_field. simpl. by rewrite Hr.
Qed.

Lemma dec_ptr_some {B} (zero : B) dec j : j ≠ JNull → dec_ptr zero dec j None = Some <$> dec j zero.
Proof. by destruct j. Qed.

Lemma dec_opt_ptr {B} k get set (zero : B) dec enc (norm : B → B) o x :
  find_field fields k = Some (dec_field get set (dec_ptr zero dec)) →
  get x = None → set None x = x → (∀ b, enc b ≠ JNull) →
  (∀ b, o = Some b → dec (enc b) zero = Some (norm b)) →
  dec_struct fields (JObj (opt_ptr enc k o)) x = Some (set (norm <$> o) x).
Proof.
  intros Hd Hg Hz Hn Hb. destruct o as [b|]; simpl; [|by rewrite Hz].
  rewrite Hd. unfold dec_field, dec_ptr. rewrite Hg. simpl. specialize (Hb b eq_refl).
  specialize (Hn b). by destruct (enc b); rewrite ?Hb.
Qed.

Lemma dec_opt_arr {B} k get set (zero : B) dec enc (norm : B → B) l x :
  find_field fields k = Some (dec_field get set (dec_slice zero dec)) →
  get x = [] → set [] x = x → (∀ b, b ∈ l → dec (enc b) zero = Some (norm b)) →
  dec_struct fields (JObj (opt_arr enc k l)) x = Some (set (norm <$> l) x).
Proof.
  intros Hd Hg Hz Hb. unfold opt_arr.
  assert (He : dec_elems zero dec (enc <$> l) [] = Some (norm <$> l)).
  { clear Hd Hg Hz. induction l as [|b l IH]; [done|]. rewrite !fmap_cons. cbn [dec_elems head tail].
    simpl default. rewrite (Hb b) by left. simpl. rewrite IH; [done|]. intros b' Hb'. apply Hb. by right. }
  destruct l as [|b l]; [simpl; by rewrite Hz|]. rewrite (dec_obj_one _ _ _ _ Hd).
  unfold dec_field, dec_slice. by rewrite Hg, He.
Qed.

End Parts.

Local Arguments dec_struct : simpl never.
Local Arguments opt_str : simpl never.
Local Arguments opt_int : simpl never.

(** Decode the next part of an object. *)
Ltac part L :=
  rewrite ?dec_obj_app; erewrite L;
    [simpl | reflexivity | try reflexivity .. ].

(** ** Normal forms *)

Definition norm_se (e : StackExpectation) : StackExpectation :=
  mkStackExpectation (se_Language e) (se_Tool e) (trim_space (se_Release e)).

Definition norm_sg (r : StackGateResult) : StackGateResult :=
  mkStackGateResult (sg_Enabled r) (norm_se <$> sg_Expected r) (norm_se <$> sg_Detected r)
    (sg_RuntimeImage r) (sg_Result r) (sg_Reason r).

Definition norm_bg (m : BuildGateStageMetadata) : BuildGateStageMetadata :=
  mkBuildGateStageMetadata (trim_space (bg_LogDigest m)) (bg_StaticChecks m)
    (bg_ExecutedCommand m) (norm_se <$> bg_Detected m) (bg_LogFindings m)
    (norm_sg <$> bg_StackGate m) (bg_BugSummary m).

Definition norm_meta (m : JobMeta) : JobMeta :=
  mkJobMeta (jmt_Kind m) (norm_bg <$> jmt_GateMetadata m) (jmt_Build m)
    (jmt_MigStepName m) (jmt_MigStepIndex m) (jmt_GateCycleName m).

(** The numbers of a static check fit [int]; so does a step index. *)
Definition failure_ints (f : BuildGateStaticCheckFailure) : bool :=
  in_int64 (scf_Line f) && in_int64 (scf_Column f).

Definition meta_ints (m : JobMeta) : bool :=
  match jmt_MigStepIndex m with None => true | Some i => in_int64 i end
  && match jmt_GateMetadata m with
     | None => true
     | Some g => forallb (λ r, forallb failure_ints (scr_Failures r)) (bg_StaticChecks g)
     end.

(** Metadata without build metrics, which no code of the repository writes. *)
Definition no_metrics (m : JobMeta) : Prop := ∀ b, jmt_Build m = Some b → bm_Metrics b = [].

(** Normalising keeps metadata valid. *)
Lemma norm_sg_valid r : StackGateResult_Validate (norm_sg r) = StackGateResult_Validate r.
Proof. done. Qed.

Lemma norm_bg_valid g : BuildGateStageMetadata_Validate (norm_bg g) = BuildGateStageMetadata_Validate g.
Proof. unfold BuildGateStageMetadata_Validate; simpl. by destruct (bg_Detected g), (bg_StackGate g). Qed.

Lemma norm_valid m : JobMeta_Validate (norm_meta m) = JobMeta_Validate m.
Proof.
  destruct m as [k [g|] [b|] n i c]; unfold JobMeta_Validate; cbn [norm_meta jmt_GateMetadata jmt_Build
    jmt_Kind jmt_MigStepIndex jmt_GateCycleName fmap option_fmap option_map];
    rewrite ?norm_bg_valid; done.
Qed.

(** ** Round trips, struct by struct *)

Section RoundTrip.
Context `{GoFmt}.

Lemma trim_space_empty : trim_space "" = "".
Proof. done. Qed.

Lemma se_roundtrip e : dec_StackExpectation (enc_StackExpectation e) zero_se = Some (norm_se e).
Proof.
  destruct e as [l t r]. unfold dec_StackExpectation, enc_StackExpectation, norm_se, opt_str, omit; simpl.
  case_bool_decide; case_bool_decide; case_bool_decide; subst; done.
Qed.

Lemma failure_roundtrip f : failure_ints f = true →
  dec_StaticCheckFailure (enc_StaticCheckFailure f) (mkStaticCheckFailure "" "" 0 0 "" "") = Some f.
Proof.
  unfold failure_ints. rewrite andb_true_iff. intros [Hl Hc].
  unfold dec_StaticCheckFailure, enc_StaticCheckFailure.
  part @dec_opt_str. part @dec_opt_str. part @dec_opt_int. 2: exact Hl. part @dec_opt_int. 2: exact Hc.
  by destruct f.
Qed.

Lemma report_roundtrip r : forallb failure_ints (scr_Failures r) = true →
  dec_StaticCheckReport (enc_StaticCheckReport r) (mkStaticCheckReport "" "" false []) = Some r.
Proof.
  rewrite forallb_forall. intros Hf. unfold dec_StaticCheckReport, enc_StaticCheckReport.
  part @dec_opt_str. part @dec_cons_str. part @dec_cons_bool.
  erewrite (dec_opt_arr _ _ _ _ _ _ _ id); [|reflexivity|done|done|].
  - rewrite list_fmap_id. by destruct r.
  - intros f Hin%list_elem_of_In. by apply failure_roundtrip, Hf.
Qed.

Lemma finding_roundtrip f : dec_LogFinding (enc_LogFinding f) (mkLogFinding "" "" "" "") = Some f.
Proof.
  unfold dec_LogFinding, enc_LogFinding. part @dec_opt_str. part @dec_cons_str. part @dec_cons_str.
  part @dec_opt_str. by destruct f.
Qed.

Lemma sg_roundtrip r :
  dec_StackGateResult (enc_StackGateResult r) (mkStackGateResult false None None "" "" "") = Some (norm_sg r).
Proof.
  unfold dec_StackGateResult, enc_StackGateResult.
  part @dec_cons_bool. rewrite dec_obj_app.
  erewrite (dec_opt_ptr _ _ _ _ _ _ _ norm_se); [|reflexivity|done|done|done|by intros; apply se_roundtrip].
  simpl. rewrite dec_obj_app.
  erewrite (dec_opt_ptr _ _ _ _ _ _ _ norm_se); [|reflexivity|done|done|done|by intros; apply se_roundtrip].
  simpl. part @dec_opt_str. part @dec_opt_str. by part @dec_opt_str.
Qed.

Lemma enc_se_object e : enc_StackExpectation e ≠ JNull.
Proof. done. Qed.

Lemma bg_roundtrip m j :
  forallb (λ r, forallb failure_ints (scr_Failures r)) (bg_StaticChecks m) = true →
  enc_BuildGateStageMetadata m = Some j → dec_BuildGateStageMetadata j zero_bg = Some (norm_bg m).
Proof.
  rewrite forallb_forall. intros Hf. unfold enc_BuildGateStageMetadata.
  destruct (if decide _ then _ else _) as [digest|] eqn:Ed; [|done]. intros [= <-].
  assert (Hd : dec_BuildGateStageMetadata (JObj digest) zero_bg
    = Some (mkBuildGateStageMetadata (trim_space (bg_LogDigest m)) [] "" None [] None "")).
  { destruct (decide (bg_LogDigest m = "")) as [E|_]; [injection Ed as <-; by rewrite E|].
    unfold enc_digest in Ed. destruct (is_sha256_digest _) eqn:Es; [|done]. injection Ed as <-.
    unfold dec_BuildGateStageMetadata. erewrite dec_obj_one; [|reflexivity].
    unfold dec_field, dec_digest. by rewrite trim_space_idem, Es. }
  unfold dec_BuildGateStageMetadata in *. rewrite dec_obj_app, Hd. simpl. rewrite dec_obj_app.
  erewrite (dec_opt_arr _ _ _ _ _ _ _ id); [|reflexivity|done|done|];
    [|intros r Hin%list_elem_of_In; by apply report_roundtrip, Hf].
  simpl. part @dec_opt_str. rewrite ?dec_obj_app.
  erewrite (dec_opt_ptr _ _ _ _ _ _ _ norm_se); [|reflexivity|done|done|done|by intros; apply se_roundtrip].
  simpl. rewrite ?dec_obj_app. erewrite (dec_opt_arr _ _ _ _ _ _ _ id); [|reflexivity|done|done|by intros; apply finding_roundtrip].
  simpl. rewrite ?dec_obj_app. erewrite (dec_opt_ptr _ _ _ _ _ _ _ norm_sg); [|reflexivity|done|done|done|by intros; apply sg_roundtrip].
  simpl. part @dec_opt_str. unfold norm_bg. by rewrite !list_fmap_id.
Qed.

Lemma build_roundtrip b : bm_Metrics b = [] → dec_BuildMeta (enc_BuildMeta b) (mkBuildMeta "" "" "" []) = Some b.
Proof.
  intros Hm. unfold dec_BuildMeta, enc_BuildMeta. rewrite Hm.
  part @dec_opt_str. part @dec_opt_str. part @dec_opt_str. destruct b. simpl in Hm. by subst.
Qed.

(** What is decoded from the document of valid metadata is its normal form. *)
Lemma enc_roundtrip m j :
  meta_ints m = true → no_metrics m → JobMeta_Validate m = true → enc_JobMeta m = Some j →
  UnmarshalJobMeta j = Some (norm_meta m).
Proof.
  unfold meta_ints. rewrite andb_true_iff. intros [Hi Hg] Hb Hv. unfold enc_JobMeta.
  match goal with |- (?G ≫= _ = _) → _ => destruct G as [gate|] eqn:Eg; [|done] end.
  intros [= <-]. unfold UnmarshalJobMeta, dec_JobMeta.
  part @dec_cons_str. rewrite ?dec_obj_app.
  match goal with |- context [dec_struct ?F (JObj gate) ?x] => assert (HG : dec_struct F (JObj gate) x =
    Some (mkJobMeta (jmt_Kind m) (norm_bg <$> jmt_GateMetadata m) None "" None "")) end.
  { destruct (jmt_GateMetadata m) as [g|] eqn:Em; [|injection Eg as <-; done].
    destruct (enc_BuildGateStageMetadata g) as [d|] eqn:Ee; [|done]. injection Eg as <-.
    erewrite dec_obj_one; [|reflexivity]. unfold dec_field. cbn [jmt_GateMetadata].
    rewrite dec_ptr_some, (bg_roundtrip g d Hg Ee); [done|]. intros ->.
    unfold enc_BuildGateStageMetadata in Ee. by destruct (if decide _ then _ else _). }
  rewrite HG. simpl. rewrite ?dec_obj_app.
  erewrite (dec_opt_ptr _ _ _ _ _ _ _ id); [|reflexivity|done|done|done|by intros b Eb; apply build_roundtrip, Hb].
  simpl. part @dec_opt_str. rewrite ?dec_obj_app.
  erewrite (dec_opt_ptr _ _ _ _ _ _ _ id); [|reflexivity|done|done|done|];
    [|intros i Ei; rewrite Ei in Hi; simpl; by rewrite Hi].
  simpl. part @dec_opt_str. rewrite !option_fmap_id.
  assert (Hk : jmt_Kind m ≠ "").
  { intros E. unfold JobMeta_Validate in Hv. by rewrite E in Hv. }
  rewrite bool_decide_eq_false_2 by done. fold (norm_meta m).
  change (mkJobMeta _ _ _ _ _ _) with (norm_meta m). by rewrite norm_valid, Hv.
Qed.

End RoundTrip.

(** ** Cleaned metadata

    Cleaning the document of a struct is the document of the struct with its strings
    cleaned. *)

Definition clean_se (e : StackExpectation) : StackExpectation :=
  mkStackExpectation (clean (se_Language e)) (clean (se_Tool e)) (clean (se_Release e)).

Definition clean_failure (f : BuildGateStaticCheckFailure) : BuildGateStaticCheckFailure :=
  mkStaticCheckFailure (clean (scf_RuleID f)) (clean (scf_File f)) (scf_Line f) (scf_Column f)
    (clean (scf_Severity f)) (clean (scf_Message f)).

Definition clean_report (r : BuildGateStaticCheckReport) : BuildGateStaticCheckReport :=
  mkStaticCheckReport (clean (scr_Language r)) (clean (scr_Tool r)) (scr_Passed r) (clean_failure <$> scr_Failures r).

Definition clean_finding (f : BuildGateLogFinding) : BuildGateLogFinding :=
  mkLogFinding (clean (lf_Code f)) (clean (lf_Severity f)) (clean (lf_Message f)) (clean (lf_Evidence f)).

Definition clean_sg (r : StackGateResult) : StackGateResult :=
  mkStackGateResult (sg_Enabled r) (clean_se <$> sg_Expected r) (clean_se <$> sg_Detected r)
    (clean (sg_RuntimeImage r)) (clean (sg_Result r)) (clean (sg_Reason r)).

(** A digest that is written is ASCII text. *)
Definition clean_bg (m : BuildGateStageMetadata) : BuildGateStageMetadata :=
  mkBuildGateStageMetadata (bg_LogDigest m) (clean_report <$> bg_StaticChecks m) (clean (bg_ExecutedCommand m))
    (clean_se <$> bg_Detected m) (clean_finding <$> bg_LogFindings m) (clean_sg <$> bg_StackGate m)
    (clean (bg_BugSummary m)).

Definition clean_build (b : BuildMeta) : BuildMeta :=
  mkBuildMeta (clean (bm_Tool b)) (clean (bm_Command b)) (clean (bm_StatusDetails b)) (bm_Metrics b).

Definition clean_meta (m : JobMeta) : JobMeta :=
  mkJobMeta (jmt_Kind m) (clean_bg <$> jmt_GateMetadata m) (clean_build <$> jmt_Build m)
    (clean (jmt_MigStepName m)) (jmt_MigStepIndex m) (clean (jmt_GateCycleName m)).

Abbreviation clean_fields := (fmap (prod_map clean json_clean)).

Lemma clean_opt_str k s : clean k = k → clean_fields (opt_str k s) = opt_str k (clean s).
Proof.
  intros Hk. unfold opt_str. rewrite (bool_decide_ext (clean s = "") (s = "")) by apply clean_empty.
  destruct (bool_decide (s = "")); [done|]. unfold omit. simpl. by rewrite Hk.
Qed.

Lemma clean_opt_int k z : clean k = k → clean_fields (opt_int k z) = opt_int k z.
Proof. intros Hk. unfold opt_int, omit. destruct (bool_decide _); [done|]. simpl. by rewrite Hk. Qed.

Lemma clean_opt_ptr {A} (enc : A → json) (f : A → A) k o :
  clean k = k → (∀ a, o = Some a → json_clean (enc a) = enc (f a)) → clean_fields (opt_ptr enc k o) = opt_ptr enc k (f <$> o).
Proof. intros Hk He. destruct o as [a|]; [|done]. simpl. by rewrite Hk, He. Qed.

Lemma clean_opt_arr {A} (enc : A → json) (f : A → A) k l :
  clean k = k → (∀ a, json_clean (enc a) = enc (f a)) → clean_fields (opt_arr enc k l) = opt_arr enc k (f <$> l).
Proof.
  intros Hk He. destruct l as [|a l]; [done|]. rewrite fmap_cons. unfold opt_arr.
  change (clean_fields [(k, JArr (enc <$> a :: l))]) with [(clean k, json_clean (JArr (enc <$> a :: l)))].
  rewrite Hk, json_clean_arr, <-list_fmap_compose, <-fmap_cons, <-list_fmap_compose.
  do 3 f_equal. apply list_fmap_ext. intros i x _. apply He.
Qed.

(** Clean the fields of an object part by part. *)
Ltac clean_parts :=
  rewrite json_clean_obj, ?fmap_app;
  rewrite ?clean_opt_str, ?clean_opt_int by (vm_compute; reflexivity).

Lemma clean_enc_se e : json_clean (enc_StackExpectation e) = enc_StackExpectation (clean_se e).
Proof. unfold enc_StackExpectation. by clean_parts. Qed.

Lemma clean_enc_failure f : json_clean (enc_StaticCheckFailure f) = enc_StaticCheckFailure (clean_failure f).
Proof. unfold enc_StaticCheckFailure. by clean_parts. Qed.

Lemma clean_enc_report r : json_clean (enc_StaticCheckReport r) = enc_StaticCheckReport (clean_report r).
Proof.
  unfold enc_StaticCheckReport. clean_parts.
  by rewrite (clean_opt_arr _ clean_failure) by (done || apply clean_enc_failure).
Qed.

Lemma clean_enc_finding f : json_clean (enc_LogFinding f) = enc_LogFinding (clean_finding f).
Proof. unfold enc_LogFinding. by clean_parts. Qed.

Lemma clean_enc_sg r : json_clean (enc_StackGateResult r) = enc_StackGateResult (clean_sg r).
Proof.
  unfold enc_StackGateResult. clean_parts.
  by rewrite !(clean_opt_ptr _ clean_se) by (done || (intros; apply clean_enc_se)).
Qed.

(** ASCII text is clean. *)
Lemma sanitize_ascii l : Forall (λ c, ascii_lt 128 c = true) l → sanitize l = l.
Proof.
  unfold sanitize. induction 1 as [|c l Hc _ IH]; [done|]. cbn [runes]. rewrite Hc. cbn [fmap list_fmap concat]. by rewrite IH.
Qed.

Lemma clean_digest s : is_sha256_digest s = true → clean s = s.
Proof.
  unfold is_sha256_digest. intros [Hp Hx]%andb_prop. apply andb_prop in Hx as [_ Hx].
  apply has_prefix_spec in Hp as [r Hr]. rewrite Hr in Hx. unfold clean. rewrite sanitize_ascii; [apply of_to|].
  rewrite Hr. change (drop 7 (to_bytes "sha256:" ++ r)) with r in Hx. apply Forall_app. split; [by repeat constructor|].
  apply Forall_forall. intros c Hc. rewrite forallb_forall in Hx. specialize (Hx c (proj1 (list_elem_of_In _ _) Hc)).
  clear -Hx. by destruct c as [[] [] [] [] [] [] [] []].
Qed.

Lemma clean_enc_bg m j :
  enc_BuildGateStageMetadata m = Some j → enc_BuildGateStageMetadata (clean_bg m) = Some (json_clean j).
Proof.
  unfold enc_BuildGateStageMetadata. cbn [clean_bg bg_LogDigest].
  destruct (if decide _ then _ else _) as [digest|] eqn:Ed; [|done]. cbn [mbind option_bind]. intros [= <-]. f_equal.
  assert (Hd : clean_fields digest = digest).
  { destruct (decide _); [by injection Ed as <-|]. unfold enc_digest in Ed.
    destruct (is_sha256_digest _) eqn:Es; [|done]. injection Ed as <-. simpl. by rewrite (clean_digest _ Es). }
  clean_parts. rewrite Hd.
  rewrite (clean_opt_arr _ clean_report) by (done || apply clean_enc_report).
  rewrite (clean_opt_arr _ clean_finding) by (done || apply clean_enc_finding).
  rewrite (clean_opt_ptr _ clean_se) by (done || (intros; apply clean_enc_se)).
  by rewrite (clean_opt_ptr _ clean_sg) by (done || (intros; apply clean_enc_sg)).
Qed.

Lemma clean_enc_build b : bm_Metrics b = [] → json_clean (enc_BuildMeta b) = enc_BuildMeta (clean_build b).
Proof. intros Hm. unfold enc_BuildMeta. cbn [clean_build bm_Metrics]. rewrite Hm. by clean_parts. Qed.

Lemma clean_kind k : JobKind_Valid k = true → clean k = k.
Proof.
  unfold JobKind_Valid. rewrite !orb_true_iff, !bool_decide_eq_true. intros [[->| ->]| ->]; vm_compute; reflexivity.
Qed.

Lemma clean_enc_meta m j :
  no_metrics m → JobKind_Valid (jmt_Kind m) = true → enc_JobMeta m = Some j →
  enc_JobMeta (clean_meta m) = Some (json_clean j).
Proof.
  intros Hb Hk%clean_kind. unfold enc_JobMeta. cbn [clean_meta jmt_GateMetadata].
  match goal with |- (?G ≫= _ = _) → _ => destruct G as [gate|] eqn:Eg; [|done] end.
  assert (Hg : match clean_bg <$> jmt_GateMetadata m with
      | None => Some [] | Some g => d ← enc_BuildGateStageMetadata g; Some [("gate", d)] end = Some (clean_fields gate)).
  { destruct (jmt_GateMetadata m) as [g|]; [|by injection Eg as <-]. cbn [fmap option_fmap option_map].
    destruct (enc_BuildGateStageMetadata g) as [d|] eqn:Ed; [|done]. injection Eg as <-.
    by rewrite (clean_enc_bg g d Ed). }
  rewrite Hg. cbn [mbind option_bind]. intros [= <-]. f_equal. rewrite json_clean_obj, fmap_cons, !fmap_app.
  change (prod_map clean json_clean ("kind", JStr (jmt_Kind m))) with ("kind", JStr (clean (jmt_Kind m))). rewrite Hk.
  rewrite !clean_opt_str by (vm_compute; reflexivity).
  rewrite (clean_opt_ptr _ clean_build) by (done || (intros b Eb; by apply clean_enc_build, Hb)).
  by rewrite (clean_opt_ptr JInt id), option_fmap_id by done.
Qed.

(** *** Cleaning changes nothing about validity *)

Lemma clean_blank_eq s : blank (clean s) = blank s.
Proof. apply bool_decide_ext, clean_blank. Qed.

Lemma clean_contains s codes : Forall (λ n, n < 128) codes → contains_any (clean s) codes = contains_any s codes.
Proof.
  intros Hlow. apply eq_true_iff_eq. unfold contains_any, clean. rewrite to_of, !existsb_exists. split; intros (c & Hc & Hin).
  - exists c. split; [|done]. apply list_elem_of_In. apply list_elem_of_In, sanitize_elem in Hc as [Hc|Hc]; [done|].
    apply bool_decide_eq_true in Hin. rewrite Forall_forall in Hlow. specialize (Hlow _ Hin).
    unfold RuneError in Hc. rewrite !elem_of_cons, elem_of_nil in Hc. destruct Hc as [->|[->|[->|[]]]]; vm_compute in Hlow; lia.
  - exists c. split; [|done]. apply list_elem_of_In, sanitize_low; [|by apply list_elem_of_In].
    apply bool_decide_eq_true in Hin. rewrite Forall_forall in Hlow. apply Nat.ltb_lt. by apply Hlow.
Qed.

Lemma clean_runes s : rune_count (clean s) = rune_count s.
Proof. unfold rune_count, clean. by rewrite to_of, runes_sanitize, length_fmap. Qed.

Lemma clean_is_text s t : b 239 ∉ to_bytes t → clean t = t → clean s = t ↔ s = t.
Proof. intros Ht Hc. split; [by apply clean_is|by intros ->]. Qed.

Lemma forallb_clean {A} (P : A → bool) (f : A → A) l : (∀ x, P (f x) = P x) → forallb P (f <$> l) = forallb P l.
Proof. intros Hf. induction l as [|x l IH]; [done|]. cbn [fmap list_fmap forallb]. by rewrite Hf, IH. Qed.

Lemma clean_failure_valid f : BuildGateStaticCheckFailure_Validate (clean_failure f) = BuildGateStaticCheckFailure_Validate f.
Proof. unfold BuildGateStaticCheckFailure_Validate. simpl. by rewrite !clean_blank_eq. Qed.

Lemma clean_report_valid r : BuildGateStaticCheckReport_Validate (clean_report r) = BuildGateStaticCheckReport_Validate r.
Proof.
  unfold BuildGateStaticCheckReport_Validate. simpl. by rewrite clean_blank_eq, forallb_clean by apply clean_failure_valid.
Qed.

Lemma clean_finding_valid f : BuildGateLogFinding_Validate (clean_finding f) = BuildGateLogFinding_Validate f.
Proof. unfold BuildGateLogFinding_Validate. simpl. by rewrite !clean_blank_eq. Qed.

Lemma clean_sg_valid r : StackGateResult_Validate (clean_sg r) = StackGateResult_Validate r.
Proof.
  unfold StackGateResult_Validate. simpl. f_equal. apply bool_decide_ext. rewrite !elem_of_cons, !elem_of_nil.
  assert (Ht : ∀ t, bool_decide (b 239 ∉ to_bytes t) && bool_decide (clean t = t) = true → clean (sg_Result r) = t ↔ sg_Result r = t).
  { intros t [H1 H2]%andb_prop. apply clean_is_text; by eapply bool_decide_eq_true_1. }
  by rewrite (Ht "pass"), (Ht "mismatch"), (Ht "unknown") by (vm_compute; reflexivity).
Qed.

Lemma clean_bg_valid g : BuildGateStageMetadata_Validate (clean_bg g) = BuildGateStageMetadata_Validate g.
Proof.
  unfold BuildGateStageMetadata_Validate. cbn [clean_bg bg_Detected bg_StaticChecks bg_LogFindings bg_StackGate bg_BugSummary].
  rewrite !forallb_clean by (apply clean_report_valid || apply clean_finding_valid).
  rewrite clean_contains, clean_runes, (bool_decide_ext (clean (bg_BugSummary g) = "") (bg_BugSummary g = ""))
    by (apply clean_empty || (repeat constructor; lia)).
  destruct (bg_Detected g), (bg_StackGate g); cbn [fmap option_fmap option_map clean_se se_Language se_Tool];
    by rewrite ?clean_blank_eq, ?clean_sg_valid.
Qed.

Lemma clean_meta_valid m :
  utf8_valid (jmt_GateCycleName m) = true → JobMeta_Validate m = true → JobMeta_Validate (clean_meta m) = true.
Proof.
  intros Hu%clean_valid. unfold JobMeta_Validate.
  cbn [clean_meta jmt_Kind jmt_GateMetadata jmt_Build jmt_MigStepIndex jmt_GateCycleName]. rewrite Hu.
  rewrite !andb_true_iff. intros [[[[H1 H2] H3] H4] H5]. split_and!; [done| | |done|done].
  - destruct (jmt_GateMetadata m); [|done]. simpl. by rewrite clean_bg_valid.
  - by destruct (jmt_Build m).
Qed.

(** ** The order of the keys

    A [jsonb] column keeps the last value of a key, and its keys in an order of its
    own. A decoder is [stable] on a document when that changes nothing. *)

Definition stable {A} (d : Decoder A) (j : json) : Prop := ∀ a, d (jsonb_of j) a = d j a.

Definition commute {A} (d1 d2 : Decoder A) : Prop := ∀ v1 v2 a, (d1 v1 a ≫= d2 v2) = (d2 v2 a ≫= d1 v1).

(** The decoders of different fields do not interfere. *)
Definition independent {A} (fields : list (string * Decoder A)) : Prop :=
  ForallOrdPairs (λ p q, commute p.2 q.2) fields.

Section Fields.
Context {A : Type}.

Lemma commute_field {B C} (get1 : A → B) set1 d1 (get2 : A → C) set2 d2 :
  (∀ v a, get2 (set1 v a) = get2 a) → (∀ v a, get1 (set2 v a) = get1 a) →
  (∀ v w a, set2 w (set1 v a) = set1 v (set2 w a)) →
  commute (dec_field get1 set1 d1) (dec_field get2 set2 d2).
Proof.
  intros H1 H2 H3 v1 v2 a. unfold dec_field.
  destruct (d1 v1 (get1 a)) as [x|] eqn:E1, (d2 v2 (get2 a)) as [y|] eqn:E2; simpl;
    rewrite ?H1, ?H2, ?E1, ?E2; simpl; [by rewrite H3|done..].
Qed.

Lemma commute_sym (d1 d2 : Decoder A) : commute d1 d2 → commute d2 d1.
Proof. intros H v1 v2 a. by rewrite H. Qed.

Lemma find_field_in fields k (d : Decoder A) : find_field fields k = Some d → (fold_key k, d) ∈ fields.
Proof.
  induction fields as [|[name d'] fields IH]; cbn [find_field]; [done|]. destruct (decide (fold_key k = name)) as [->|].
  - intros [= ->]. left.
  - intros Hd. right. by apply IH.
Qed.

Lemma find_commute fields k1 k2 (d1 d2 : Decoder A) :
  independent fields → fold_key k1 ≠ fold_key k2 →
  find_field fields k1 = Some d1 → find_field fields k2 = Some d2 → commute d1 d2.
Proof.
  intros Hi Hk. induction Hi as [|[name d] fields Hd _ IH]; cbn [find_field]; [done|]. rewrite Forall_forall in Hd.
  destruct (decide (fold_key k1 = name)) as [E1|], (decide (fold_key k2 = name)) as [E2|]; [congruence|..|done].
  - intros [= ->] H2%find_field_in. apply (Hd _ H2).
  - intros H1%find_field_in [= ->]. apply commute_sym, (Hd _ H1).
Qed.

(** What one key does. *)
Definition key_step (fields : list (string * Decoder A)) (kv : string * json) (x : A) : option A :=
  match find_field fields kv.1 with None => Some x | Some d => d kv.2 x end.

Lemma dec_key_step (fields : list (string * Decoder A)) kv fs x :
  dec_struct fields (JObj (kv :: fs)) x = (y ← key_step fields kv x; dec_struct fields (JObj fs) y).
Proof. apply (dec_obj_app fields [kv] fs). Qed.

Lemma dec_struct_perm (fields : list (string * Decoder A)) fs fs' x :
  independent fields → fs ≡ₚ fs' → NoDup (fold_key <$> fs.*1) →
  dec_struct fields (JObj fs) x = dec_struct fields (JObj fs') x.
Proof.
  intros Hi Hp. revert x. induction Hp as [|kv fs fs' Hp IH|[k1 v1] [k2 v2] fs|fs1 fs2 fs3 Hp1 IH1 _ IH2]; intros x Hnd.
  - done.
  - rewrite !dec_key_step. simpl in Hnd. apply NoDup_cons in Hnd as [_ Hnd].
    destruct (key_step fields kv x); [by apply IH|done].
  - rewrite !dec_key_step. simpl in Hnd. apply NoDup_cons in Hnd as [Hne _].
    assert (Hk : fold_key k1 ≠ fold_key k2) by (intros E; apply Hne; rewrite E; left).
    assert (Hc : (key_step fields (k1, v1) x ≫= key_step fields (k2, v2)) = (key_step fields (k2, v2) x ≫= key_step fields (k1, v1))).
    { unfold key_step. cbn [fst snd]. destruct (find_field fields k1) as [d1|] eqn:E1, (find_field fields k2) as [d2|] eqn:E2.
      - by eapply find_commute.
      - simpl. by destruct (d1 v1 x).
      - simpl. by destruct (d2 v2 x).
      - done. }
    transitivity ((key_step fields (k2, v2) x ≫= key_step fields (k1, v1)) ≫= dec_struct fields (JObj fs)); [|rewrite <-Hc].
    + destruct (key_step fields (k2, v2) x); [|done]. cbn [mbind option_bind]. apply dec_key_step.
    + destruct (key_step fields (k1, v1) x); [|done]. cbn [mbind option_bind]. symmetry. apply dec_key_step.
  - rewrite IH1 by done. apply IH2. by rewrite <-Hp1.
Qed.

Lemma obj_set_new k (v : json) fs : k ∉ fs.*1 → obj_set k v fs = fs ++ [(k, v)].
Proof.
  induction fs as [|[k' v'] fs IH]; [done|]. cbn [obj_set fmap list_fmap fst]. intros [Hk Hn]%not_elem_of_cons.
  rewrite decide_False by done. by rewrite IH.
Qed.

Lemma obj_sets_new fs acc : NoDup ((acc ++ fs).*1) → foldl (λ acc kv, obj_set kv.1 kv.2 acc) acc fs = acc ++ fs.
Proof.
  revert acc. induction fs as [|[k v] fs IH]; intros acc Hnd; [by rewrite app_nil_r|]. cbn [foldl fst snd].
  rewrite obj_set_new.
  - rewrite IH; by rewrite <-app_assoc.
  - rewrite fmap_app in Hnd. apply NoDup_app in Hnd as (_ & Hd & _). intros Hk. apply (Hd _ Hk). left.
Qed.

Lemma jsonb_obj fs : NoDup fs.*1 → ∃ fs', jsonb_of (JObj fs) = JObj fs' ∧ fs' ≡ₚ prod_map id jsonb_of <$> fs.
Proof.
  intros Hnd. cbn [jsonb_of]. eexists. split; [reflexivity|].
  assert (E : (fix go (l : list (string * json)) : list (string * json) :=
    match l with [] => [] | (k, v) :: l' => (k, jsonb_of v) :: go l' end) fs = prod_map id jsonb_of <$> fs).
  { clear Hnd. induction fs as [|[k v] fs IH]; [done|]. by rewrite fmap_cons, <-IH. }
  rewrite E, obj_sets_new; [apply merge_sort_Permutation|]. cbn [app].
  replace ((prod_map id jsonb_of <$> fs).*1) with fs.*1; [done|].
  rewrite <-list_fmap_compose. apply list_fmap_ext. by intros i [k v] _.
Qed.

Lemma stable_struct (fields : list (string * Decoder A)) fs :
  independent fields → NoDup (fold_key <$> fs.*1) →
  Forall (λ kv, ∀ d, find_field fields kv.1 = Some d → stable d kv.2) fs → stable (dec_struct fields) (JObj fs).
Proof.
  intros Hi Hnd Hst x. destruct (jsonb_obj fs) as (fs' & -> & Hp); [by eapply NoDup_fmap_1|].
  assert (Hkeys : (prod_map id jsonb_of <$> fs).*1 = fs.*1).
  { rewrite <-list_fmap_compose. apply list_fmap_ext. by intros i [k v] _. }
  rewrite (dec_struct_perm fields fs' _ x Hi Hp) by (by rewrite Hp, Hkeys). clear Hp Hkeys Hnd.
  revert x. induction Hst as [|[k v] fs Hkv _ IH]; intros x; [done|]. rewrite fmap_cons, !dec_key_step.
  assert (E : key_step fields (prod_map id jsonb_of (k, v)) x = key_step fields (k, v) x).
  { change (prod_map id jsonb_of (k, v)) with (k, jsonb_of v). unfold key_step. cbn [fst snd].
    destruct (find_field fields k) as [d|] eqn:Ed; [|done]. by apply Hkv. }
  rewrite E. destruct (key_step fields (k, v) x); [apply IH|done].
Qed.

Lemma stable_field {B} (get : A → B) set d j : stable d j → stable (dec_field get set d) j.
Proof. intros H a. unfold dec_field. by rewrite H. Qed.

Lemma jsonb_null j : jsonb_of j = JNull ↔ j = JNull.
Proof. by destruct j. Qed.

Lemma stable_ptr (zero : A) d j : stable d j → stable (dec_ptr zero d) j.
Proof.
  intros H o. unfold dec_ptr. specialize (H (default zero o)). pose proof (jsonb_null j) as Hn.
  by destruct (jsonb_of j) eqn:E, j; try done; rewrite H.
Qed.

Lemma stable_slice (zero : A) d l : Forall (stable d) l → stable (dec_slice zero d) (JArr l).
Proof.
  intros H old. cbn [jsonb_of dec_slice]. revert old. induction H as [|j l Hj _ IH]; intros old; [done|].
  cbn [dec_elems]. rewrite Hj. destruct (d j _); [|done]. cbn [mbind option_bind]. by rewrite IH.
Qed.

End Fields.

Lemma stable_scalar {A} (d : Decoder A) j : jsonb_of j = j → stable d j.
Proof. intros E a. by rewrite E. Qed.

(** Keys of an object that are written in this order, some left out. *)
Lemma omit_keys zero k v : (omit zero k v).*1 `sublist_of` [k].
Proof. destruct zero; simpl; [apply sublist_nil_l|done]. Qed.

Lemma ptr_keys {A} (enc : A → json) k o : (opt_ptr enc k o).*1 `sublist_of` [k].
Proof. destruct o; simpl; [done|apply sublist_nil_l]. Qed.

Lemma arr_keys {A} (enc : A → json) k l : (opt_arr enc k l).*1 `sublist_of` [k].
Proof. destruct l; simpl; [apply sublist_nil_l|done]. Qed.

Lemma keys_distinct (fs : list (string * json)) keys :
  fs.*1 `sublist_of` keys → bool_decide (NoDup (fold_key <$> keys)) = true → NoDup (fold_key <$> fs.*1).
Proof. intros Hs Hn%bool_decide_eq_true. eapply sublist_NoDup; [exact Hn|]. by apply fmap_sublist. Qed.

Lemma omit_stable {A} (fields : list (string * Decoder A)) zero k v d :
  find_field fields k = Some d → stable d v →
  Forall (λ kv, ∀ d, find_field fields kv.1 = Some d → stable d kv.2) (omit zero k v).
Proof. intros Hd Hv. destruct zero; [constructor|]. apply Forall_singleton. simpl. rewrite Hd. by intros d' [= <-]. Qed.

Lemma ptr_stable {A B} (fields : list (string * Decoder A)) (enc : B → json) k o d :
  find_field fields k = Some d → (∀ b, o = Some b → stable d (enc b)) →
  Forall (λ kv, ∀ d, find_field fields kv.1 = Some d → stable d kv.2) (opt_ptr enc k o).
Proof.
  intros Hd Hv. destruct o as [b|]; [|constructor]. apply Forall_singleton. simpl. rewrite Hd. intros d' [= <-]. by apply Hv.
Qed.

Lemma arr_stable {A B C} (fields : list (string * Decoder A)) (enc : B → json) k l get set (zero : C) d :
  find_field fields k = Some (dec_field get set (dec_slice zero d)) → (∀ b, stable d (enc b)) →
  Forall (λ kv, ∀ d, find_field fields kv.1 = Some d → stable d kv.2) (opt_arr enc k l).
Proof.
  intros Hd Hv. destruct l as [|b l]; [constructor|]. apply Forall_singleton. cbn [fst snd]. rewrite Hd. intros d' [= <-].
  apply stable_field, stable_slice, Forall_fmap, Forall_forall. intros x _. apply Hv.
Qed.

(** The three sides of [stable_struct]. *)
Ltac fields_independent := repeat (apply FOP_cons; [repeat constructor; by apply commute_field|]); apply FOP_nil.

Ltac keys_fixed :=
  eapply keys_distinct;
    [ rewrite ?fmap_app;
      repeat first [ apply omit_keys | apply ptr_keys | apply arr_keys | eapply sublist_app | reflexivity ]
    | vm_compute; reflexivity ].

Ltac values_stable :=
  repeat first
    [ apply Forall_app; split
    | eapply omit_stable; [reflexivity|by apply stable_scalar]
    | apply Forall_cons; split; [intros d [= <-]; by apply stable_scalar|]
    | apply Forall_nil_2 ].

Lemma stable_enc_se `{GoFmt} e : stable dec_StackExpectation (enc_StackExpectation e).
Proof.
  intros a. unfold dec_StackExpectation, enc_StackExpectation.
  match goal with |- (dec_struct ?F ?j ?x ≫= _) = _ => assert (Hs : stable (dec_struct F) (JObj
    (opt_str "language" (se_Language e) ++ opt_str "tool" (se_Tool e) ++ opt_str "release" (se_Release e)))) end.
  { apply stable_struct; [|keys_fixed|values_stable].
    repeat (apply FOP_cons; [repeat constructor; intros v1 v2 [r p]; simpl|]); [..|apply FOP_nil].
    all: repeat (match goal with |- context [dec_string ?v ?s] => destruct (dec_string v s) eqn:? end; simpl); congruence. }
  by rewrite Hs.
Qed.

Lemma stable_enc_failure f : stable dec_StaticCheckFailure (enc_StaticCheckFailure f).
Proof. apply stable_struct; [fields_independent|keys_fixed|values_stable]. Qed.

Lemma stable_enc_report r : stable dec_StaticCheckReport (enc_StaticCheckReport r).
Proof.
  apply stable_struct; [fields_independent|keys_fixed|values_stable].
  eapply arr_stable; [reflexivity|apply stable_enc_failure].
Qed.

Lemma stable_enc_finding f : stable dec_LogFinding (enc_LogFinding f).
Proof. apply stable_struct; [fields_independent|keys_fixed|values_stable]. Qed.

Lemma stable_enc_sg `{GoFmt} r : stable dec_StackGateResult (enc_StackGateResult r).
Proof.
  apply stable_struct; [fields_independent|keys_fixed|values_stable];
    (eapply ptr_stable; [reflexivity|]; intros; apply stable_field, stable_ptr, stable_enc_se).
Qed.

Lemma stable_enc_bg `{GoFmt} m j : enc_BuildGateStageMetadata m = Some j → stable dec_BuildGateStageMetadata j.
Proof.
  unfold enc_BuildGateStageMetadata. destruct (if decide _ then _ else _) as [digest|] eqn:Ed; [|done]. intros [= <-].
  assert (Hd : digest = [] ∨ ∃ s, digest = [("log_digest", JStr s)]).
  { destruct (decide _); [injection Ed as <-; by left|]. unfold enc_digest in Ed.
    destruct (is_sha256_digest _); [|done]. injection Ed as <-. right. by eexists. }
  apply stable_struct; [fields_independent| |].
  - eapply keys_distinct with (keys := ["log_digest"] ++ ["static_checks"] ++ ["executed_command"] ++ ["detected_stack"] ++
      ["log_findings"] ++ ["stack_gate"] ++ ["bug_summary"]); [|vm_compute; reflexivity].
    rewrite !fmap_app. apply sublist_app; [destruct Hd as [->|[s ->]]; [apply sublist_nil_l|done]|].
    repeat first [ apply omit_keys | apply ptr_keys | apply arr_keys | apply sublist_app ].
  - apply Forall_app. split; [destruct Hd as [->|[s ->]]; [constructor|]|].
    + apply Forall_singleton. intros d [= <-]. by apply stable_scalar.
    + values_stable.
      * eapply arr_stable; [reflexivity|apply stable_enc_report].
      * eapply ptr_stable; [reflexivity|]. intros. apply stable_field, stable_ptr, stable_enc_se.
      * eapply arr_stable; [reflexivity|apply stable_enc_finding].
      * eapply ptr_stable; [reflexivity|]. intros. apply stable_field, stable_ptr, stable_enc_sg.
Qed.

Lemma stable_enc_build `{GoFmt} b : bm_Metrics b = [] → stable dec_BuildMeta (enc_BuildMeta b).
Proof.
  intros Hm. unfold enc_BuildMeta. rewrite Hm. apply stable_struct; [fields_independent|keys_fixed|values_stable].
Qed.

Lemma stable_enc_meta `{GoFmt} m j : no_metrics m → enc_JobMeta m = Some j → stable dec_JobMeta j.
Proof.
  intros Hb. unfold enc_JobMeta. match goal with |- (?G ≫= _ = _) → _ => destruct G as [gate|] eqn:Eg; [|done] end. intros [= <-].
  assert (Hg : gate = [] ∨ ∃ d, gate = [("gate", d)] ∧ stable dec_BuildGateStageMetadata d).
  { destruct (jmt_GateMetadata m) as [g|]; [|injection Eg as <-; by left]. destruct (enc_BuildGateStageMetadata g) as [d|] eqn:Ed; [|done].
    injection Eg as <-. right. exists d. split; [done|by eapply stable_enc_bg]. }
  apply stable_struct; [fields_independent| |].
  - eapply keys_distinct with (keys := ["kind"] ++ ["gate"] ++ ["build"] ++ ["mig_step_name"] ++
      ["mig_step_index"] ++ ["gate_cycle_name"]); [|vm_compute; reflexivity].
    rewrite fmap_cons, !fmap_app. apply sublist_skip. apply sublist_app; [destruct Hg as [->|(d & -> & _)]; [apply sublist_nil_l|done]|].
    repeat first [ apply omit_keys | apply ptr_keys | apply arr_keys | apply sublist_app ].
  - apply Forall_cons. split; [intros d [= <-]; by apply stable_scalar|].
    apply Forall_app. split; [destruct Hg as [->|(d & -> & Hd)]; [constructor|]|].
    + apply Forall_singleton. intros d' [= <-]. by apply stable_field, stable_ptr.
    + values_stable.
      * eapply ptr_stable; [reflexivity|]. intros b Eb. apply stable_field, stable_ptr, stable_enc_build. by apply Hb.
      * eapply ptr_stable; [reflexivity|]. intros. by apply stable_scalar.
Qed.

(** ** Through the column *)

Lemma clean_checks_ints g :
  forallb (λ r, forallb failure_ints (scr_Failures r)) (bg_StaticChecks (clean_bg g))
  = forallb (λ r, forallb failure_ints (scr_Failures r)) (bg_StaticChecks g).
Proof. apply forallb_clean. intros r. by apply forallb_clean. Qed.

Lemma clean_ints m : meta_ints (clean_meta m) = meta_ints m.
Proof.
  unfold meta_ints. cbn [clean_meta jmt_MigStepIndex jmt_GateMetadata]. destruct (jmt_GateMetadata m) as [g|]; [|done].
  f_equal. apply clean_checks_ints.
Qed.

(** What is decoded from the bytes written for metadata, and from the column that has
    stored them. *)
Lemma JobMeta_roundtrip `{GoFmt} m j :
  meta_ints m = true → no_metrics m → utf8_valid (jmt_GateCycleName m) = true → MarshalJobMeta m = Some j →
  UnmarshalJobMeta j = Some (norm_meta (clean_meta m)) ∧ UnmarshalJobMeta (jsonb_of j) = Some (norm_meta (clean_meta m)).
Proof.
  intros Hi Hb Hu. unfold MarshalJobMeta. destruct (JobMeta_Validate m) eqn:Hv; [|done].
  destruct (enc_JobMeta m) as [j0|] eqn:Ej; [|done]. intros [= <-].
  assert (Hk : JobKind_Valid (jmt_Kind m) = true).
  { unfold JobMeta_Validate in Hv. rewrite !andb_true_iff in Hv. by destruct Hv as [[[[? _] _] _] _]. }
  pose proof (clean_enc_meta m j0 Hb Hk Ej) as Ec.
  assert (Hb' : no_metrics (clean_meta m)).
  { intros b (b0 & Eb & ->)%fmap_Some. by apply (Hb b0). }
  assert (E : UnmarshalJobMeta (json_clean j0) = Some (norm_meta (clean_meta m))).
  { apply enc_roundtrip; [by rewrite clean_ints|done|by apply clean_meta_valid|done]. }
  split; [done|]. rewrite <-E. unfold UnmarshalJobMeta. by rewrite (stable_enc_meta _ _ Hb' Ec).
Qed.
