(* ===== verification/Hydra.v ===== *)
(** * Stored file entries of a spec ([internal/workflow/contracts/hydra.go])

    A step lists files as [shortHash:dst] entries, one list per kind. An entry is
    parsed into a content hash and a cleaned destination; the destination of an
    accepted entry stays below the root of its kind ([parsed_below_root]), which
    is what the node relies on when it mounts the files. Errors are modelled by
    their cause; their text only repeats the entry. *)

From stdpp Require Import base gmap sets list strings.
From S2P Require Import Prelude GoStrings Types.
From Stdlib Require Import Ascii ZArith Lia.

Inductive HydraFileKind := HydraFileIn | HydraFileOut | HydraFileHome | HydraFileTmp.

#[export] Instance HydraFileKind_eq_dec : EqDecision HydraFileKind.
Proof. solve_decision. Defined.

Definition HydraFileKinds : list HydraFileKind :=
  [HydraFileIn; HydraFileOut; HydraFileHome; HydraFileTmp].

Definition HydraFileKind_String (k : HydraFileKind) : string :=
  match k with
  | HydraFileIn => "in" | HydraFileOut => "out" | HydraFileHome => "home" | HydraFileTmp => "tmp"
  end.

Inductive HydraError :=
| HydraFormat                         (* no colon *)
| HydraShortHash (hash : string)
| HydraDestinationRequired
| HydraTraversal (dst : string)
| HydraOutsideRoot (root : string)
| HydraHomeAbsolute
| HydraDuplicate (index : nat) (dst : string)
| HydraAt (index : nat) (e : HydraError).

(** [^[0-9a-f]{7,64}$] *)
Definition IsHydraShortHash (value : string) : bool :=
  let l := to_bytes value in
  (7 <=? length l) && (length l <=? 64) && forallb is_hex_lower l.

Definition ValidateHydraPathSafety (p : string) : bool :=
  bool_decide (".." ∉ split p slash).

Record ParsedStoredEntry := mkParsedStoredEntry {
  pse_Hash : string; pse_Dst : string; pse_ReadOnly : bool
}.

Definition colon : ascii := ":"%char.

Definition splitHashDst (s : string) : HydraError + string * string :=
  match cut s colon with
  | None => inl HydraFormat
  | Some (hash, dst) =>
      if negb (IsHydraShortHash hash) then inl (HydraShortHash hash)
      else if decide (trim_space dst = "") then inl HydraDestinationRequired
      else inr (hash, dst)
  end.

Definition root_of (k : HydraFileKind) : string := "/" +:+ HydraFileKind_String k +:+ "/".

Definition check_root (k : HydraFileKind) (dst : string) : option HydraError :=
  match k with
  | HydraFileIn | HydraFileOut | HydraFileTmp =>
      if has_prefix dst (root_of k) then None else Some (HydraOutsideRoot (root_of k))
  | HydraFileHome =>
      if decide (dst = "" ∨ dst = ".") then Some HydraDestinationRequired
      else if has_prefix dst "/" then Some HydraHomeAbsolute
      else None
  end.

Definition read_only_suffix (k : HydraFileKind) (s : string) : bool :=
  bool_decide (k = HydraFileHome) && has_suffix s ":ro".

Definition ParseStoredEntry (k : HydraFileKind) (s : string) : HydraError + ParsedStoredEntry :=
  let ro := read_only_suffix k s in
  let body := if ro then trim_suffix s ":ro" else s in
  match splitHashDst body with
  | inl e => inl e
  | inr (hash, dst) =>
      if negb (ValidateHydraPathSafety dst) then inl (HydraTraversal dst)
      else match check_root k (path_clean dst) with
           | Some e => inl e
           | None => inr (mkParsedStoredEntry hash (path_clean dst)
                            (ro || bool_decide (k = HydraFileIn)))
           end
  end.

Fixpoint validate_entries (k : HydraFileKind) (i : nat) (seen : gset string) (entries : list string) :
    option HydraError :=
  match entries with
  | [] => None
  | e :: entries' =>
      match ParseStoredEntry k e with
      | inl err => Some (HydraAt i err)
      | inr parsed =>
          if decide (pse_Dst parsed ∈ seen) then Some (HydraDuplicate i (pse_Dst parsed))
          else validate_entries k (S i) ({[pse_Dst parsed]} ∪ seen) entries'
      end
  end.

Definition ValidateHydraEntries (k : HydraFileKind) (entries : list string) : option HydraError :=
  validate_entries k 0 ∅ entries.

(** The four lists of a container spec, in the order of [HydraFileKinds]. *)
Definition validateHydraFields (entries : HydraFileKind → list string) :
    option (HydraFileKind * HydraError) :=
  let check k rest :=
    match ValidateHydraEntries k (entries k) with Some e => Some (k, e) | None => rest end in
  foldr check None HydraFileKinds.

(** ** Destinations of accepted entries *)

(** A destination below the root of its kind: plain components, no traversal. *)
Definition below_root (k : HydraFileKind) (dst : string) : Prop :=
  ∃ ws : list bytes, ws ≠ [] ∧ Forall (λ w, plain w ∧ slash ∉ w) ws ∧
    to_bytes dst = (match k with HydraFileHome => [] | _ => to_bytes (root_of k) end)
                   ++ join_bytes slash ws.

Lemma filter_plain_split l :
  Forall (λ w, plain w ∧ slash ∉ w) (filter plain (split_bytes slash l)).
Proof.
  apply Forall_forall. intros w [Hp Hw]%list_elem_of_filter. split; [done|].
  by eapply Forall_forall in Hw; [|apply split_bytes_free].
Qed.

Lemma safety_split dst :
  ValidateHydraPathSafety dst = true → to_bytes ".." ∉ split_bytes slash (to_bytes dst).
Proof.
  unfold ValidateHydraPathSafety, split. rewrite bool_decide_eq_true. intros Hn Hin.
  apply Hn. apply (list_elem_of_fmap_2 of_bytes) in Hin. exact Hin.
Qed.

Lemma prefix_of_rooted s p : has_prefix s p = true → head (to_bytes p) = Some slash →
  head (to_bytes s) = Some slash.
Proof. intros [r ->]%has_prefix_spec Hh. destruct (to_bytes p); [done|]. by simpl in *. Qed.

Lemma join_cons c w ws : ws ≠ [] → join_bytes c (w :: ws) = w ++ c :: join_bytes c ws.
Proof. by destruct ws. Qed.

Lemma join_singleton_inv c (w : bytes) ws r :
  c ∉ w → Forall (λ w, c ∉ w) ws → ws ≠ [] →
  join_bytes c ws = w ++ c :: r → ∃ ws', ws = w :: ws' ∧ ws' ≠ [] ∧ r = join_bytes c ws'.
Proof.
  intros Hw Hf Hne E. apply (f_equal (split_bytes c)) in E.
  rewrite split_join, split_app in E by done. exists (split_bytes c r).
  split_and!; [done|apply split_bytes_ne|by rewrite join_split].
Qed.

(** The cleaned form of a destination that passed the traversal check. *)
Definition kept (dst : string) : list bytes := filter plain (split_bytes slash (to_bytes dst)).

Lemma kept_free dst : Forall (λ w, slash ∉ w) (kept dst).
Proof. eapply Forall_impl; [apply filter_plain_split|]. by intros ? [? ?]. Qed.

Lemma clean_rooted dst :
  ValidateHydraPathSafety dst = true → head (to_bytes dst) = Some slash →
  to_bytes (path_clean dst) = slash :: join_bytes slash (kept dst).
Proof.
  intros Hs%safety_split Hh. unfold path_clean. rewrite to_of, clean_no_dotdot by done.
  simpl. by rewrite decide_True.
Qed.

Lemma clean_relative dst :
  ValidateHydraPathSafety dst = true → head (to_bytes dst) ≠ Some slash →
  to_bytes (path_clean dst) =
    if decide (kept dst = []) then to_bytes "." else join_bytes slash (kept dst).
Proof.
  intros Hs%safety_split Hh. unfold path_clean. rewrite to_of, clean_no_dotdot by done.
  simpl. rewrite decide_False by done. fold (kept dst).
  destruct (decide (kept dst = [])) as [-> |Hk]; [done|]. rewrite decide_False; [done|].
  pose proof (filter_plain_split (to_bytes dst)) as Hf. fold (kept dst) in Hf.
  destruct Hf as [|w ws [[? _] _] Hf]; [done|]. destruct w; [done|]. by destruct ws.
Qed.

Lemma relative_head dst :
  ValidateHydraPathSafety dst = true → head (to_bytes dst) ≠ Some slash →
  head (to_bytes (path_clean dst)) ≠ Some slash.
Proof.
  intros Hs Hh. rewrite clean_relative by done. case_decide as Hk; [done|].
  pose proof (filter_plain_split (to_bytes dst)) as Hf. fold (kept dst) in Hf.
  destruct Hf as [|w ws [[Hw _] Hfree] Hf]; [done|]. destruct w as [|x w]; [done|].
  intros Hx. assert (x = slash) as -> by (by destruct ws; simpl in Hx; congruence).
  by apply not_elem_of_cons in Hfree as [? _].
Qed.

(** The destination of a parsed entry lies below the root of its kind. *)
Lemma parsed_below_root k s p : ParseStoredEntry k s = inr p → below_root k (pse_Dst p).
Proof.
  unfold ParseStoredEntry. destruct (splitHashDst _) as [e|[hash dst]]; [done|].
  destruct (ValidateHydraPathSafety dst) eqn:Hs; [simpl|done].
  destruct (check_root _ _) eqn:Hc; [done|]. intros [= <-]. simpl.
  pose proof (filter_plain_split (to_bytes dst)) as Hf. fold (kept dst) in Hf.
  destruct (decide (head (to_bytes dst) = Some slash)) as [Hh|Hh].
  - pose proof (clean_rooted dst Hs Hh) as E.
    destruct (decide (k = HydraFileHome)) as [-> |Hk].
    { unfold check_root in Hc. case_decide; [done|]. destruct (has_prefix _ "/") eqn:Hp; [done|].
      exfalso. apply not_true_iff_false in Hp. apply Hp, has_prefix_spec. rewrite E. by eexists. }
    assert (has_prefix (path_clean dst) (root_of k) = true) as [r Hr]%has_prefix_spec.
    { unfold check_root in Hc. destruct k; try done; by destruct (has_prefix _ _). }
    rewrite E in Hr.
    destruct (join_singleton_inv slash (to_bytes (HydraFileKind_String k)) (kept dst) r)
      as (ws & Ek & Hne & ->); [by destruct k; apply (bool_decide_unpack _)|apply kept_free| | |].
    { intros E0. rewrite E0 in Hr. by destruct k. }
    { injection Hr as ->. by destruct k. }
    rewrite Ek in Hf. exists ws. split_and!; [done|by inversion Hf|]. rewrite E, Hr. by destruct k.
  - pose proof (relative_head dst Hs Hh) as Hrel. pose proof (clean_relative dst Hs Hh) as E.
    destruct (decide (k = HydraFileHome)) as [-> |Hk].
    + destruct (decide (kept dst = [])) as [Hk|Hk]; [|by exists (kept dst); split_and!].
      unfold check_root in Hc. case_decide as Hd; [done|].
      exfalso. apply Hd. right. by rewrite <-(of_to (path_clean dst)), E.
    + exfalso. apply Hrel. unfold check_root in Hc.
      destruct k; try done; (destruct (has_prefix _ _) eqn:Hp; [|done]);
        by eapply prefix_of_rooted.
Qed.

(** ** Canonical entries *)

(** The components of a destination below the root of [k], as [Split] gives them. *)
Definition components (k : HydraFileKind) (ws : list bytes) : list bytes :=
  match k with HydraFileHome => ws | _ => [] :: to_bytes (HydraFileKind_String k) :: ws end.

Lemma below_components k dst : below_root k dst → ∃ ws, ws ≠ [] ∧
  Forall (λ w, plain w ∧ slash ∉ w) ws ∧ split_bytes slash (to_bytes dst) = components k ws.
Proof.
  intros (ws & Hne & Hf & E). exists ws. split_and!; [done..|].
  assert (Hfree : Forall (λ w, slash ∉ w) ws) by (eapply Forall_impl; [exact Hf|naive_solver]).
  assert (to_bytes dst = join_bytes slash (components k ws)) as ->.
  { rewrite E. unfold components. destruct k; simpl; rewrite ?join_cons by done; by destruct ws. }
  apply split_join; [by destruct k|].
  destruct k; simpl; repeat (constructor; [by apply (bool_decide_unpack _)|]); done.
Qed.

Lemma join_plain_head ws : Forall (λ w, plain w ∧ slash ∉ w) ws →
  head (join_bytes slash ws) ≠ Some slash.
Proof.
  intros Hf. destruct Hf as [|w ws [[Hw _] Hs] Hf]; [done|]. destruct w as [|x w]; [done|].
  apply not_elem_of_cons in Hs as [Hx _]. destruct ws; simpl; congruence.
Qed.

Lemma join_plain_ne ws : ws ≠ [] → Forall (λ w, plain w ∧ slash ∉ w) ws → join_bytes slash ws ≠ [].
Proof. intros Hne Hf. destruct Hf as [|w ws [[Hw _] _] _]; [done|]. by destruct w, ws. Qed.

(** A destination below its root is already clean. *)
Lemma below_clean k dst : below_root k dst →
  ValidateHydraPathSafety dst = true ∧ path_clean dst = dst.
Proof.
  intros Hb. destruct (below_components k dst Hb) as (ws & Hne & Hf & Es).
  pose proof (join_split slash (to_bytes dst)) as Ej. rewrite Es in Ej.
  assert (Hs : to_bytes ".." ∉ split_bytes slash (to_bytes dst)).
  { assert (to_bytes ".." ∉ ws).
    { intros Hin. by eapply Forall_forall in Hf as [(_ & _ & ?) _]; [|exact Hin]. }
    rewrite Es. destruct k; simpl; rewrite ?not_elem_of_cons; by repeat split. }
  assert (Hkeep : filter plain ws = ws)
    by (apply filter_all; eapply Forall_impl; [exact Hf|by intros ? [? ?]]).
  split.
  - unfold ValidateHydraPathSafety, split. apply bool_decide_eq_true.
    intros (l & El & Hl)%list_elem_of_fmap. apply Hs. by rewrite El, to_of.
  - rewrite <-(of_to dst) at 2. unfold path_clean. f_equal. rewrite clean_no_dotdot by done.
    cbv zeta. rewrite Es, <-Ej. destruct (decide (k = HydraFileHome)) as [-> |Hk].
    + simpl. rewrite decide_False by (by apply join_plain_head).
      by rewrite Hkeep, decide_False by (by apply join_plain_ne).
    + rewrite decide_True by (by destruct k, ws).
      destruct k; try done; unfold components;
        rewrite filter_cons_False by (intros (? & _); done);
        rewrite filter_cons_True by (by apply (bool_decide_unpack _)); by rewrite Hkeep.
Qed.

Lemma below_accepted k dst : below_root k dst → dst ≠ "." → check_root k dst = None.
Proof.
  intros (ws & Hne & Hf & E) Hd. unfold check_root. destruct (decide (k = HydraFileHome)) as [-> |Hk].
  - rewrite decide_False.
    + destruct (has_prefix dst "/") eqn:Hp; [|done].
      exfalso. apply (join_plain_head ws Hf). rewrite app_nil_l in E. rewrite <-E.
      by eapply prefix_of_rooted.
    + intros [-> |?]; [|done]. simpl in E. by eapply join_plain_ne.
  - assert (has_prefix dst (root_of k) = true) as Hp by (apply has_prefix_spec; destruct k; try done; eauto).
    by destruct k; rewrite ?Hp.
Qed.

Lemma below_not_dot k dst : below_root k dst → dst ≠ ".".
Proof.
  intros Hb ->. destruct (below_components k "." Hb) as (ws & Hne & Hf & Es).
  destruct k; simpl in Es; try done. rewrite <-Es in Hf. by inversion Hf as [|? ? [(_ & ? & _) _]].
Qed.

(** Round trip: an entry written from a hash and a destination below the root of
    its kind parses back to them. *)
Definition print_entry (p : ParsedStoredEntry) : string := pse_Hash p +:+ ":" +:+ pse_Dst p.

Lemma hash_no_colon h : IsHydraShortHash h = true → colon ∉ to_bytes h.
Proof.
  unfold IsHydraShortHash. rewrite !andb_true_iff. intros [_ Hf] Hin.
  rewrite forallb_forall in Hf. specialize (Hf colon). apply list_elem_of_In in Hin.
  by apply Hf in Hin.
Qed.

Lemma parse_print k hash dst :
  IsHydraShortHash hash = true → below_root k dst → trim_space dst ≠ "" →
  read_only_suffix k (print_entry (mkParsedStoredEntry hash dst false)) = false →
  ParseStoredEntry k (print_entry (mkParsedStoredEntry hash dst false)) =
    inr (mkParsedStoredEntry hash dst (bool_decide (k = HydraFileIn))).
Proof.
  intros Hh Hb Ht Hro. unfold ParseStoredEntry. rewrite Hro. unfold splitHashDst, cut, print_entry.
  cbn [pse_Hash pse_Dst]. rewrite !to_bytes_app. simpl.
  rewrite cut_app by (by apply hash_no_colon). simpl. rewrite !of_to, Hh. simpl.
  rewrite decide_False by done. destruct (below_clean k dst Hb) as [-> ->]. simpl.
  by rewrite below_accepted by (by eauto using below_not_dot).
Qed.

(** ** Lists of entries *)

Lemma validate_entries_None k i seen entries :
  validate_entries k i seen entries = None ↔
  ∃ ps, Forall2 (λ e p, ParseStoredEntry k e = inr p) entries ps ∧
    NoDup (pse_Dst <$> ps) ∧ Forall (λ p, pse_Dst p ∉ seen) ps.
Proof.
  revert i seen. induction entries as [|e entries IH]; intros i seen; simpl.
  { split; [|done]. intros _. exists []. split_and!; [constructor|apply NoDup_nil_2|done]. }
  destruct (ParseStoredEntry k e) as [err|p] eqn:E.
  { split; [done|]. intros (ps & Hf & _). inversion Hf; congruence. }
  case_decide as Hs.
  { split; [done|]. intros (ps & Hf & _ & Hn). inversion Hf as [|? q ? ? Hq]; simplify_eq.
    rewrite E in Hq. simplify_eq. by inversion Hn. }
  rewrite IH. split.
  - intros (ps & Hf & Hnd & Hn). exists (p :: ps). split_and!; [by constructor| |].
    + simpl. constructor; [|done]. intros (q & Eq & Hq)%list_elem_of_fmap.
      eapply Forall_forall in Hn; [|exact Hq]. apply Hn. rewrite <-Eq. set_solver.
    + constructor; [done|]. eapply Forall_impl; [exact Hn|]. set_solver.
  - intros (ps & Hf & Hnd & Hn). inversion Hf as [|? q ? qs Hq Hqs]; simplify_eq.
    rewrite E in Hq. injection Hq as <-. exists qs. simpl in Hnd.
    apply NoDup_cons in Hnd as [Hp Hnd]. apply Forall_cons in Hn as [_ Hn].
    split_and!; [done..|]. apply Forall_forall. intros q Hq.
    rewrite not_elem_of_union, not_elem_of_singleton. split; [|by eapply Forall_forall in Hn].
    intros Eq. apply Hp. rewrite <-Eq. by apply list_elem_of_fmap_2.
Qed.

(** A list is accepted exactly when every entry parses and no two entries share a
    destination. *)
Lemma ValidateHydraEntries_ok k entries :
  ValidateHydraEntries k entries = None ↔
  ∃ ps, Forall2 (λ e p, ParseStoredEntry k e = inr p) entries ps ∧ NoDup (pse_Dst <$> ps).
Proof.
  unfold ValidateHydraEntries. rewrite validate_entries_None. split.
  - intros (ps & ? & ? & _). eauto.
  - intros (ps & ? & ?). exists ps. split_and!; [done..|].
    apply Forall_forall. intros. set_solver.
Qed.
