(* ===== verification/Spec.v ===== *)
(** * Migration specs ([internal/workflow/contracts/migs_spec.go],
      [migs_spec_parse.go], [command_spec.go], [mod_image.go],
      [stack_gate_spec.go], [build_gate_config.go], [build_gate_image_rule.go])

    The typed form of a spec, what [json.Unmarshal] makes of a document, and the
    validation both the server and the node run before they use one. The JSON
    schema check that comes first is done by a library on an embedded schema
    file: it is the parameter [schema_valid]. Identifiers of jobs are KSUIDs,
    checked by the ksuid package: [ksuid_valid]. Errors are modelled by their
    cause and place. *)

From stdpp Require Import base gmap sets list strings.
From S2P Require Import Prelude GoStrings Types Json JobMeta Hydra.
From Stdlib Require Import ZArith Lia.

Class SpecLib := { schema_valid : json → bool; ksuid_valid : string → bool }.

(** ** Types *)

Record CommandSpec := mkCommandSpec { cs_Shell : string; cs_Exec : list string }.

Record JobImage := mkJobImage { ji_Universal : string; ji_ByStack : gmap string string }.

Record StackGatePhaseSpec := mkStackGatePhaseSpec {
  sgp_Enabled : bool; sgp_Expect : option StackExpectation
}.

Record StackGateSpec := mkStackGateSpec {
  sgs_Inbound : option StackGatePhaseSpec; sgs_Outbound : option StackGatePhaseSpec
}.

Record MigStep := mkMigStep {
  step_Name : string; step_Image : JobImage; step_Command : CommandSpec;
  step_Envs : gmap string string; step_MountDockerSocket : bool;
  step_Files : HydraFileKind → list string;   (* In, Out, Home, Tmp *)
  step_Stack : option StackGateSpec
}.

Record BuildGateImageRule := mkBuildGateImageRule { igr_Stack : StackExpectation; igr_Image : string }.

Record BuildGateStackConfig := mkBuildGateStackConfig {
  bsc_Mode : string; bsc_Language : string; bsc_Tool : string; bsc_Release : string
}.

Record BuildGatePhaseConfig := mkBuildGatePhaseConfig { bpc_Stack : option BuildGateStackConfig }.

Record BuildGateConfig := mkBuildGateConfig {
  bgc_Disabled : bool; bgc_Pre : option BuildGatePhaseConfig;
  bgc_Post : option BuildGatePhaseConfig; bgc_Images : list BuildGateImageRule
}.

Record MigSpec := mkMigSpec {
  spec_JobID : string; spec_APIVersion : string; spec_Name : string; spec_Description : string;
  spec_Steps : list MigStep; spec_Envs : gmap string string;
  spec_BuildGate : option BuildGateConfig; spec_BundleMap : gmap string string
}.

(** ** Commands and images *)

Definition CommandSpec_IsEmpty (c : CommandSpec) : bool :=
  bool_decide (cs_Shell c = "") && bool_decide (cs_Exec c = []).

Definition CommandSpec_ToSlice (c : CommandSpec) : list string :=
  match cs_Exec c with
  | _ :: _ => cs_Exec c
  | [] => if decide (cs_Shell c = "") then [] else ["/bin/sh"; "-c"; cs_Shell c]
  end.

Definition CommandSpec_MarshalJSON (c : CommandSpec) : json :=
  match cs_Exec c with
  | _ :: _ => JArr (JStr <$> cs_Exec c)
  | [] => if decide (cs_Shell c = "") then JNull else JStr (cs_Shell c)
  end.

Definition CommandSpec_UnmarshalJSON (j : json) : option CommandSpec :=
  match j with
  | JNull => Some (mkCommandSpec "" [])
  | JStr s => Some (mkCommandSpec (trim_space s) [])
  | JArr _ => mkCommandSpec "" <$> dec_slice "" dec_string j []
  | _ => None
  end.

Definition JobImage_IsEmpty (m : JobImage) : bool :=
  bool_decide (ji_Universal m = "") && bool_decide (ji_ByStack m = ∅).

Definition MigStackUnknown : string := "unknown".
Definition MigStackDefault : string := "default".

(** An image that is present and not blank. *)
Definition stack_image (m : JobImage) (k : string) : option string :=
  match ji_ByStack m !! k with
  | Some img => if decide (trim_space img = "") then None else Some img
  | None => None
  end.

(** [None] stands for the two errors: no image at all, or none for the stack. *)
Definition ResolveImage (m : JobImage) (stack : string) : option string :=
  let stack := if decide (stack = "") then MigStackUnknown else stack in
  if negb (bool_decide (ji_Universal m = "")) then Some (ji_Universal m)
  else match stack_image m stack with
       | Some img => Some img
       | None => stack_image m MigStackDefault
       end.

Definition ToolToMigStack (tool : string) : string :=
  let t := to_lower (trim_space tool) in
  if decide (t = "maven") then "java-maven"
  else if decide (t = "gradle") then "java-gradle"
  else if decide (t = "java") then "java"
  else MigStackUnknown.

Definition JobImage_MarshalJSON (m : JobImage) : json :=
  if negb (bool_decide (ji_Universal m = "")) then JStr (ji_Universal m)
  else if decide (ji_ByStack m = ∅) then JNull
  else JObj (prod_map id JStr <$> map_to_list (ji_ByStack m)).

(** [map[string]string] *)
Definition dec_gmap : Decoder (gmap string string) := λ j m,
  match j with
  | JNull => Some ∅
  | JObj kvs =>
      foldl (λ acc kv, m ← acc; s ← dec_string kv.2 ""; Some (<[kv.1 := s]> m)) (Some m) kvs
  | _ => None
  end.

(** Keys and images are trimmed. Keys that differ only by surrounding spaces are
    merged in the order of Go's map iteration, here that of the finite map. *)
Definition JobImage_UnmarshalJSON (j : json) : option JobImage :=
  match j with
  | JNull => Some (mkJobImage "" ∅)
  | JStr s => Some (mkJobImage (trim_space s) ∅)
  | JObj _ =>
      m ← dec_gmap j ∅;
      Some (mkJobImage "" (list_to_map (prod_map trim_space trim_space <$> map_to_list m)))
  | _ => None
  end.

(** ** Stack gates *)

Definition StackExpectation_IsEmpty (e : StackExpectation) : bool :=
  bool_decide (se_Language e = "") && bool_decide (se_Tool e = "") && bool_decide (se_Release e = "").

Definition expect_empty (o : option StackExpectation) : bool :=
  match o with None => true | Some e => StackExpectation_IsEmpty e end.

(** [validateStackGatePhaseSpec]: an enabled phase has expectations, a disabled
    one has none. *)
Definition validateStackGatePhaseSpec (p : StackGatePhaseSpec) : bool :=
  if sgp_Enabled p then negb (expect_empty (sgp_Expect p)) else expect_empty (sgp_Expect p).

Definition validateStackGateSpec (s : StackGateSpec) : bool :=
  match sgs_Inbound s with Some p => validateStackGatePhaseSpec p | None => true end
  && match sgs_Outbound s with Some p => validateStackGatePhaseSpec p | None => true end.

Inductive StackConfigError :=
| ModeRequired | ModeUnknown | StrictRequiresField | LanguageRequired | ToolRequired | ReleaseRequired.

Definition validateBuildGateStackConfig (s : BuildGateStackConfig) : option StackConfigError :=
  let mode := trim_space (bsc_Mode s) in
  let lang := blank (bsc_Language s) in
  let tool := blank (bsc_Tool s) in
  let release := blank (bsc_Release s) in
  if decide (mode = "") then
    if lang && tool && release then None else Some ModeRequired
  else if negb (bool_decide (mode ∈ ["forced"; "strict"; "fallback"])) then Some ModeUnknown
  else if decide (mode = "strict") then
    if lang && tool && release then Some StrictRequiresField else None
  else if lang then Some LanguageRequired
  else if bool_decide (mode = "fallback") && tool then Some ToolRequired
  else if release then Some ReleaseRequired
  else None.

(** ** Image rules *)

Definition Specificity (r : BuildGateImageRule) : nat :=
  match bool_decide (se_Tool (igr_Stack r) = ""), bool_decide (se_Release (igr_Stack r) = "") with
  | false, false => 4
  | false, true => 3
  | true, false => 2
  | true, true => 1
  end.

Definition Matches (r : BuildGateImageRule) (e : StackExpectation) : bool :=
  bool_decide (se_Language (igr_Stack r) = se_Language e)
  && (bool_decide (se_Release (igr_Stack r) = "") || bool_decide (se_Release (igr_Stack r) = se_Release e))
  && (bool_decide (se_Tool (igr_Stack r) = "") || bool_decide (se_Tool (igr_Stack r) = se_Tool e)).

Definition SelectorKey (r : BuildGateImageRule) : string :=
  let star s := if decide (s = "") then "*" else s in
  se_Language (igr_Stack r) +:+ ":" +:+ star (se_Release (igr_Stack r))
    +:+ ":" +:+ star (se_Tool (igr_Stack r)).

Inductive ImageRuleError :=
| RuleLanguageRequired (i : nat) | RuleImageRequired (i : nat) | RuleDuplicate (i : nat) (key : string).

Fixpoint validate_rules (i : nat) (seen : gset string) (rules : list BuildGateImageRule) :
    option ImageRuleError :=
  match rules with
  | [] => None
  | r :: rules' =>
      if blank (se_Language (igr_Stack r)) then Some (RuleLanguageRequired i)
      else if blank (igr_Image r) then Some (RuleImageRequired i)
      else if decide (SelectorKey r ∈ seen) then Some (RuleDuplicate i (SelectorKey r))
      else validate_rules (S i) ({[SelectorKey r]} ∪ seen) rules'
  end.

Definition BuildGateImageMapping_Validate (rules : list BuildGateImageRule) : option ImageRuleError :=
  validate_rules 0 ∅ rules.

(** ** Validation of a spec *)

Inductive SpecError :=
| SpecEmpty | SpecInvalidJSON | SpecSchema | SpecDecode
| SpecStepsRequired
| SpecImageRequired (step : nat)
| SpecStackGate (step : nat)
| SpecFiles (step : nat) (k : HydraFileKind) (e : HydraError)
| SpecImages (e : ImageRuleError)
| SpecPhase (pre : bool) (e : StackConfigError).

Definition validate_step (i : nat) (s : MigStep) : option SpecError :=
  if JobImage_IsEmpty (step_Image s) then Some (SpecImageRequired i)
  else if match step_Stack s with Some g => negb (validateStackGateSpec g) | None => false end
  then Some (SpecStackGate i)
  else match validateHydraFields (step_Files s) with
       | Some (k, e) => Some (SpecFiles i k e)
       | None => None
       end.

Fixpoint validate_steps (i : nat) (steps : list MigStep) : option SpecError :=
  match steps with
  | [] => None
  | s :: steps' => match validate_step i s with Some e => Some e | None => validate_steps (S i) steps' end
  end.

Definition validate_phase (pre : bool) (p : option BuildGatePhaseConfig) : option SpecError :=
  match p with
  | Some (mkBuildGatePhaseConfig (Some s)) => SpecPhase pre <$> validateBuildGateStackConfig s
  | _ => None
  end.

Definition validate_gate (g : BuildGateConfig) : option SpecError :=
  match BuildGateImageMapping_Validate (bgc_Images g) with
  | Some e => Some (SpecImages e)
  | None =>
      match validate_phase true (bgc_Pre g) with
      | Some e => Some e
      | None => validate_phase false (bgc_Post g)
      end
  end.

Definition MigSpec_Validate (s : MigSpec) : option SpecError :=
  match spec_Steps s with
  | [] => Some SpecStepsRequired
  | _ =>
      match validate_steps 0 (spec_Steps s) with
      | Some e => Some e
      | None => match spec_BuildGate s with Some g => validate_gate g | None => None end
      end
  end.

(** ** Decoding *)

Section Decode.
Context `{GoFmt} `{SpecLib}.

Definition dec_strings : Decoder (list string) := dec_slice "" dec_string.

Definition dec_StackGatePhaseSpec : Decoder StackGatePhaseSpec := dec_struct [
  ("enabled", dec_field sgp_Enabled (λ v a, mkStackGatePhaseSpec v (sgp_Expect a)) dec_bool);
  ("expect", dec_field sgp_Expect (λ v a, mkStackGatePhaseSpec (sgp_Enabled a) v)
               (dec_ptr zero_se dec_StackExpectation))
].

Definition zero_sgp := mkStackGatePhaseSpec false None.

Definition dec_StackGateSpec : Decoder StackGateSpec := dec_struct [
  ("inbound", dec_field sgs_Inbound (λ v a, mkStackGateSpec v (sgs_Outbound a))
                (dec_ptr zero_sgp dec_StackGatePhaseSpec));
  ("outbound", dec_field sgs_Outbound (λ v a, mkStackGateSpec (sgs_Inbound a) v)
                 (dec_ptr zero_sgp dec_StackGatePhaseSpec))
].

Definition set_files (k : HydraFileKind) (v : list string) (s : MigStep) : MigStep :=
  mkMigStep (step_Name s) (step_Image s) (step_Command s) (step_Envs s) (step_MountDockerSocket s)
    (λ k', if decide (k' = k) then v else step_Files s k') (step_Stack s).

Definition dec_files (k : HydraFileKind) : Decoder MigStep :=
  dec_field (λ s, step_Files s k) (set_files k) dec_strings.

Definition dec_MigStep : Decoder MigStep := dec_struct [
  ("name", dec_field step_Name (λ v s, mkMigStep v (step_Image s) (step_Command s) (step_Envs s) (step_MountDockerSocket s) (step_Files s) (step_Stack s)) dec_string);
  ("image", dec_field step_Image (λ v s, mkMigStep (step_Name s) v (step_Command s) (step_Envs s) (step_MountDockerSocket s) (step_Files s) (step_Stack s)) (λ j _, JobImage_UnmarshalJSON j));
  ("command", dec_field step_Command (λ v s, mkMigStep (step_Name s) (step_Image s) v (step_Envs s) (step_MountDockerSocket s) (step_Files s) (step_Stack s)) (λ j _, CommandSpec_UnmarshalJSON j));
  ("envs", dec_field step_Envs (λ v s, mkMigStep (step_Name s) (step_Image s) (step_Command s) v (step_MountDockerSocket s) (step_Files s) (step_Stack s)) dec_gmap);
  ("options", dec_field step_MountDockerSocket (λ v s, mkMigStep (step_Name s) (step_Image s) (step_Command s) (step_Envs s) v (step_Files s) (step_Stack s))
                (dec_struct [("mount_docker_socket", dec_bool)]));
  ("in", dec_files HydraFileIn);
  ("out", dec_files HydraFileOut);
  ("home", dec_files HydraFileHome);
  ("tmp", dec_files HydraFileTmp);
  ("stack", dec_field step_Stack (λ v s, mkMigStep (step_Name s) (step_Image s) (step_Command s) (step_Envs s) (step_MountDockerSocket s) (step_Files s) v)
              (dec_ptr (mkStackGateSpec None None) dec_StackGateSpec))
].

Definition zero_step : MigStep :=
  mkMigStep "" (mkJobImage "" ∅) (mkCommandSpec "" []) ∅ false (λ _, []) None.

Definition dec_ImageRule : Decoder BuildGateImageRule := dec_struct [
  ("stack", dec_field igr_Stack (λ v a, mkBuildGateImageRule v (igr_Image a)) dec_StackExpectation);
  ("image", dec_field igr_Image (λ v a, mkBuildGateImageRule (igr_Stack a) v) dec_string)
].

Definition dec_StackConfig : Decoder BuildGateStackConfig := λ j c,
  p ← dec_struct [
    ("release", λ v (p : option json * BuildGateStackConfig), Some (Some v, p.2));
    ("mode", λ v p, (λ s, (p.1, mkBuildGateStackConfig s (bsc_Language p.2) (bsc_Tool p.2) (bsc_Release p.2))) <$> dec_string v (bsc_Mode p.2));
    ("language", λ v p, (λ s, (p.1, mkBuildGateStackConfig (bsc_Mode p.2) s (bsc_Tool p.2) (bsc_Release p.2))) <$> dec_string v (bsc_Language p.2));
    ("tool", λ v p, (λ s, (p.1, mkBuildGateStackConfig (bsc_Mode p.2) (bsc_Language p.2) s (bsc_Release p.2))) <$> dec_string v (bsc_Tool p.2))
  ] j (None, c);
  match p.1 with
  | None => Some p.2
  | Some raw =>
      (λ r, mkBuildGateStackConfig (bsc_Mode p.2) (bsc_Language p.2) (bsc_Tool p.2) r)
        <$> unmarshalReleaseJSON raw
  end.

Definition dec_PhaseConfig : Decoder BuildGatePhaseConfig := dec_struct [
  ("stack", dec_field bpc_Stack (λ v _, mkBuildGatePhaseConfig v)
              (dec_ptr (mkBuildGateStackConfig "" "" "" "") dec_StackConfig))
].

Definition dec_BuildGateConfig : Decoder BuildGateConfig := dec_struct [
  ("disabled", dec_field bgc_Disabled (λ v a, mkBuildGateConfig v (bgc_Pre a) (bgc_Post a) (bgc_Images a)) dec_bool);
  ("pre", dec_field bgc_Pre (λ v a, mkBuildGateConfig (bgc_Disabled a) v (bgc_Post a) (bgc_Images a)) (dec_ptr (mkBuildGatePhaseConfig None) dec_PhaseConfig));
  ("post", dec_field bgc_Post (λ v a, mkBuildGateConfig (bgc_Disabled a) (bgc_Pre a) v (bgc_Images a)) (dec_ptr (mkBuildGatePhaseConfig None) dec_PhaseConfig));
  ("images", dec_field bgc_Images (λ v a, mkBuildGateConfig (bgc_Disabled a) (bgc_Pre a) (bgc_Post a) v)
               (dec_slice (mkBuildGateImageRule zero_se "") dec_ImageRule))
].

(** [JobID.UnmarshalJSON]: a [null] reads as the empty text, which is refused. *)
Definition dec_JobID : Decoder string := λ j _,
  match j with
  | JStr v => match unmarshalIDTextValidated ksuid_valid v with inr s => Some s | inl _ => None end
  | _ => None
  end.

Definition dec_MigSpec : Decoder MigSpec := dec_struct [
  ("job_id", dec_field spec_JobID (λ v a, mkMigSpec v (spec_APIVersion a) (spec_Name a) (spec_Description a) (spec_Steps a) (spec_Envs a) (spec_BuildGate a) (spec_BundleMap a)) dec_JobID);
  ("apiversion", dec_field spec_APIVersion (λ v a, mkMigSpec (spec_JobID a) v (spec_Name a) (spec_Description a) (spec_Steps a) (spec_Envs a) (spec_BuildGate a) (spec_BundleMap a)) dec_string);
  ("name", dec_field spec_Name (λ v a, mkMigSpec (spec_JobID a) (spec_APIVersion a) v (spec_Description a) (spec_Steps a) (spec_Envs a) (spec_BuildGate a) (spec_BundleMap a)) dec_string);
  ("description", dec_field spec_Description (λ v a, mkMigSpec (spec_JobID a) (spec_APIVersion a) (spec_Name a) v (spec_Steps a) (spec_Envs a) (spec_BuildGate a) (spec_BundleMap a)) dec_string);
  ("steps", dec_field spec_Steps (λ v a, mkMigSpec (spec_JobID a) (spec_APIVersion a) (spec_Name a) (spec_Description a) v (spec_Envs a) (spec_BuildGate a) (spec_BundleMap a)) (dec_slice zero_step dec_MigStep));
  ("envs", dec_field spec_Envs (λ v a, mkMigSpec (spec_JobID a) (spec_APIVersion a) (spec_Name a) (spec_Description a) (spec_Steps a) v (spec_BuildGate a) (spec_BundleMap a)) dec_gmap);
  ("build_gate", dec_field spec_BuildGate (λ v a, mkMigSpec (spec_JobID a) (spec_APIVersion a) (spec_Name a) (spec_Description a) (spec_Steps a) (spec_Envs a) v (spec_BundleMap a))
                   (dec_ptr (mkBuildGateConfig false None None []) dec_BuildGateConfig));
  ("bundle_map", dec_field spec_BundleMap (λ v a, mkMigSpec (spec_JobID a) (spec_APIVersion a) (spec_Name a) (spec_Description a) (spec_Steps a) (spec_Envs a) (spec_BuildGate a) v) dec_gmap)
].

Definition zero_spec : MigSpec := mkMigSpec "" "" "" "" [] ∅ None ∅.

(** [ValidateMigSpecJSON] is [schema_valid]; then decoding, then [Validate]. *)
Definition ParseMigSpecJSON (data : raw) : SpecError + MigSpec :=
  match data with
  | RawEmpty => inl SpecEmpty
  | RawInvalid => inl SpecInvalidJSON
  | RawJson j =>
      if negb (schema_valid j) then inl SpecSchema
      else match dec_MigSpec j zero_spec with
           | None => inl SpecDecode
           | Some spec => match MigSpec_Validate spec with Some e => inl e | None => inr spec end
           end
  end.

End Decode.

(** ** What an accepted spec guarantees *)

Lemma validate_rules_None i seen rules :
  validate_rules i seen rules = None ↔
  Forall (λ r, blank (se_Language (igr_Stack r)) = false ∧ blank (igr_Image r) = false ∧
               SelectorKey r ∉ seen) rules ∧ NoDup (SelectorKey <$> rules).
Proof.
  revert i seen. induction rules as [|r rules IH]; intros i seen; simpl.
  { split; [|done]. intros _. split; [done|apply NoDup_nil_2]. }
  rewrite Forall_cons, NoDup_cons.
  destruct (blank (se_Language _)); [naive_solver|]. destruct (blank (igr_Image _)); [naive_solver|].
  case_decide as Hs; [naive_solver|]. rewrite IH. split.
  - intros [Hf Hn]. split_and!; [done|done|done| | |done].
    + eapply Forall_impl; [exact Hf|]. simpl. set_solver.
    + intros (q & Eq & Hq)%list_elem_of_fmap. eapply Forall_forall in Hf; [|exact Hq].
      rewrite <-Eq in Hf. set_solver.
  - intros [[_ Hf] [Hr Hn]]. split; [|done]. apply Forall_forall. intros q Hq.
    pose proof (proj1 (Forall_forall _ _) Hf q Hq) as (? & ? & ?). split_and!; [done..|].
    rewrite not_elem_of_union, not_elem_of_singleton. split; [|done].
    intros Eq. apply Hr. rewrite <-Eq. by apply list_elem_of_fmap_2.
Qed.

Definition step_ok (s : MigStep) : Prop :=
  JobImage_IsEmpty (step_Image s) = false ∧
  (∀ g, step_Stack s = Some g → validateStackGateSpec g = true) ∧
  ∀ k, ValidateHydraEntries k (step_Files s k) = None.

Lemma validateHydraFields_None f :
  validateHydraFields f = None ↔ ∀ k, ValidateHydraEntries k (f k) = None.
Proof.
  unfold validateHydraFields. simpl. split; [|intros Hk; by rewrite !Hk].
  intros Hv k. destruct (ValidateHydraEntries HydraFileIn _) eqn:?; [done|].
  destruct (ValidateHydraEntries HydraFileOut _) eqn:?; [done|].
  destruct (ValidateHydraEntries HydraFileHome _) eqn:?; [done|].
  destruct (ValidateHydraEntries HydraFileTmp _) eqn:?; [done|]. by destruct k.
Qed.

Lemma validate_step_None i s : validate_step i s = None ↔ step_ok s.
Proof.
  unfold validate_step, step_ok. rewrite <-validateHydraFields_None.
  destruct (JobImage_IsEmpty _); [naive_solver|].
  destruct (step_Stack s) as [g|].
  - destruct (validateStackGateSpec g) eqn:E; simpl.
    2: { split; [done|]. intros (_ & Hg & _). specialize (Hg g eq_refl). congruence. }
    destruct (validateHydraFields _) as [[? ?]|]; naive_solver.
  - destruct (validateHydraFields _) as [[? ?]|]; naive_solver.
Qed.

Lemma validate_steps_None i steps : validate_steps i steps = None ↔ Forall step_ok steps.
Proof.
  revert i. induction steps as [|s steps IH]; intros i; simpl; [done|].
  rewrite Forall_cons, <-(validate_step_None i), <-(IH (S i)).
  destruct (validate_step i s); naive_solver.
Qed.

(** The specs that pass: at least one step, every step with an image, coherent
    stack gates and file lists, image rules with distinct selectors. *)
Definition spec_ok (s : MigSpec) : Prop :=
  spec_Steps s ≠ [] ∧ Forall step_ok (spec_Steps s) ∧
  ∀ g, spec_BuildGate s = Some g →
    Forall (λ r, blank (se_Language (igr_Stack r)) = false ∧ blank (igr_Image r) = false) (bgc_Images g) ∧
    NoDup (SelectorKey <$> bgc_Images g) ∧
    validate_phase true (bgc_Pre g) = None ∧ validate_phase false (bgc_Post g) = None.

Lemma validate_gate_None g : validate_gate g = None ↔
  (Forall (λ r, blank (se_Language (igr_Stack r)) = false ∧ blank (igr_Image r) = false) (bgc_Images g) ∧
   NoDup (SelectorKey <$> bgc_Images g)) ∧
  validate_phase true (bgc_Pre g) = None ∧ validate_phase false (bgc_Post g) = None.
Proof.
  unfold validate_gate, BuildGateImageMapping_Validate.
  pose proof (validate_rules_None 0 ∅ (bgc_Images g)) as Hv.
  assert (Forall (λ r, blank (se_Language (igr_Stack r)) = false ∧ blank (igr_Image r) = false ∧
               SelectorKey r ∉ (∅ : gset string)) (bgc_Images g) ↔
    Forall (λ r, blank (se_Language (igr_Stack r)) = false ∧ blank (igr_Image r) = false) (bgc_Images g))
    as Hi.
  { split; intros Hf; (eapply Forall_impl; [exact Hf|]); simpl; intros r;
      pose proof (not_elem_of_empty (C := gset string) (SelectorKey r)); naive_solver. }
  rewrite Hi in Hv. destruct (validate_rules _ _ _); [naive_solver|].
  destruct (validate_phase true _); naive_solver.
Qed.

Lemma MigSpec_Validate_None s : MigSpec_Validate s = None ↔ spec_ok s.
Proof.
  unfold MigSpec_Validate, spec_ok. destruct (spec_Steps s) as [|st steps] eqn:E; [naive_solver|].
  rewrite <-(validate_steps_None 0). destruct (validate_steps 0 _); [naive_solver|].
  destruct (spec_BuildGate s) as [g|]; [rewrite validate_gate_None; naive_solver|naive_solver].
Qed.

Lemma parsed_ok `{GoFmt} `{SpecLib} data spec : ParseMigSpecJSON data = inr spec → spec_ok spec.
Proof.
  unfold ParseMigSpecJSON. destruct data; [done..|]. destruct (schema_valid j); [simpl|done].
  destruct (dec_MigSpec _ _); [|done]. destruct (MigSpec_Validate m) eqn:E; [done|].
  intros [= <-]. by apply MigSpec_Validate_None.
Qed.
