(* ===== verification/Db.v ===== *)
(** * The database: tables and rows ([internal/store/models.go], [schema.sql])

    Every table the control plane's run lifecycle touches is a finite map from
    primary keys to rows (or a list, where rows have no key the code uses).
    Timestamps are microseconds; a nullable column is an [option]. *)

From S2P Require Import Prelude GoStrings Types Json.
From stdpp Require Import base gmap sets list sorting strings.
From Stdlib Require Import ZArith Lia.

Record Job := mkJob {
  job_ID : string;
  job_RunID : string;
  job_RepoID : string;
  job_RepoBaseRef : string;
  job_Attempt : Z;
  job_Status : JobStatus;
  job_JobType : JobType;
  job_JobImage : string;
  job_NextID : option string;
  job_Name : string;
  job_NodeID : option string;
  job_ExitCode : option Z;
  job_StartedAt : option Z;
  job_FinishedAt : option Z;
  job_DurationMs : Z;
  job_RepoShaIn : string;
  job_RepoShaOut : string;
  job_RepoShaIn8 : string;
  job_RepoShaOut8 : string;
  job_Meta : json
}.

Record Run := mkRun {
  run_ID : string;
  run_WaveID : string;
  run_MigID : string;
  run_SpecID : string;
  run_RepoID : string;
  run_RepoBaseRef : string;
  run_SourceCommitSha : string;
  run_RepoSha0 : string;
  run_CreatedBy : option string;
  run_Status : RunStatus;
  run_Attempt : Z;
  run_LastError : option string;
  run_CreatedAt : Z;
  run_StartedAt : option Z;
  run_FinishedAt : option Z;
  run_Stats : json
}.

Record Wave := mkWave {
  wave_ID : string;
  wave_MigID : string;
  wave_SpecID : string;
  wave_CreatedBy : option string;
  wave_Status : WaveStatus;
  wave_CreatedAt : Z;
  wave_StartedAt : option Z;
  wave_FinishedAt : option Z;
  wave_Stats : json
}.

Record Node := mkNode {
  node_ID : string;
  node_Name : string;
  node_IpAddress : string;
  node_Version : option string;
  node_Concurrency : Z;
  node_CpuTotalMillis : Z;
  node_CpuFreeMillis : Z;
  node_MemTotalBytes : Z;
  node_MemFreeBytes : Z;
  node_DiskTotalBytes : Z;
  node_DiskFreeBytes : Z;
  node_Drained : bool;
  node_DrainRevision : Z;
  node_CertSerial : option string;
  node_CertFingerprint : option string;
  node_CertNotBefore : option Z;
  node_CertNotAfter : option Z;
  node_LastHeartbeat : option Z;
  node_CreatedAt : Z
}.

Record BootstrapToken := mkBootstrapToken {
  bt_TokenHash : string;
  bt_TokenID : string;
  bt_NodeID : option string;
  bt_IssuedAt : Z;
  bt_ExpiresAt : option Z;
  bt_UsedAt : option Z;
  bt_CertIssuedAt : option Z;
  bt_RevokedAt : option Z;
  bt_IssuedBy : option string
}.

Record ApiToken := mkApiToken {
  at_TokenHash : string;
  at_TokenID : string;
  at_Role : string;
  at_Username : option string;
  at_Description : option string;
  at_IssuedAt : Z;
  at_ExpiresAt : option Z;
  at_LastUsedAt : option Z;
  at_RevokedAt : option Z;
  at_CreatedBy : option string;
  at_CreatedAt : Z
}.

Record Repo := mkRepo { repo_ID : string; repo_Url : string; repo_CreatedAt : Z }.

Record SpecRow := mkSpecRow {
  sp_ID : string;
  sp_Name : string;
  sp_Description : string;
  sp_Source : json;
  sp_Sha : string;
  sp_SourceCommittedAt : option Z;
  sp_Spec : json;
  sp_CreatedBy : option string;
  sp_CreatedAt : Z
}.

Record Mig := mkMig {
  mig_ID : string;
  mig_Name : string;
  mig_SpecID : option string;
  mig_CreatedBy : option string;
  mig_CreatedAt : Z;
  mig_ArchivedAt : option Z
}.

Record MigRepo := mkMigRepo {
  mr_ID : string;
  mr_MigID : string;
  mr_RepoID : string;
  mr_BaseRef : string;
  mr_CreatedAt : Z
}.

Record Log := mkLog {
  log_ID : Z; log_RunID : string; log_JobID : option string; log_ChunkNo : Z; log_DataSize : Z; log_CreatedAt : Z
}.

Record Sbom := mkSbom { sbom_JobID : string; sbom_RepoID : string; sbom_Lib : string; sbom_Ver : string }.

Record JobMetric := mkJobMetric {
  jm_NodeID : string;
  jm_JobID : string;
  jm_CpuConsumedNs : Z;
  jm_DiskConsumedBytes : Z;
  jm_MemConsumedBytes : Z
}.

Record DB := mkDB {
  db_nodes : gmap string Node;
  db_repos : gmap string Repo;
  db_specs : gmap string SpecRow;
  db_migs : gmap string Mig;
  db_mig_repos : gmap string MigRepo;
  db_waves : gmap string Wave;
  db_runs : gmap string Run;
  db_jobs : gmap string Job;
  db_logs : list Log;
  db_sboms : list Sbom;
  db_job_metrics : gmap string JobMetric;
  db_bootstrap_tokens : gmap string BootstrapToken;
  db_api_tokens : gmap string ApiToken
}.

(** ** Column updates *)

Definition set_job_Status (v : JobStatus) (r : Job) : Job :=
  {| job_ID := job_ID r; job_RunID := job_RunID r; job_RepoID := job_RepoID r;
     job_RepoBaseRef := job_RepoBaseRef r; job_Attempt := job_Attempt r; job_Status := v;
     job_JobType := job_JobType r; job_JobImage := job_JobImage r; job_NextID := job_NextID
     r; job_Name := job_Name r; job_NodeID := job_NodeID r; job_ExitCode := job_ExitCode r;
     job_StartedAt := job_StartedAt r; job_FinishedAt := job_FinishedAt r; job_DurationMs :=
     job_DurationMs r; job_RepoShaIn := job_RepoShaIn r; job_RepoShaOut := job_RepoShaOut r;
     job_RepoShaIn8 := job_RepoShaIn8 r; job_RepoShaOut8 := job_RepoShaOut8 r; job_Meta :=
     job_Meta r |}.

Definition set_job_JobImage (v : string) (r : Job) : Job :=
  {| job_ID := job_ID r; job_RunID := job_RunID r; job_RepoID := job_RepoID r;
     job_RepoBaseRef := job_RepoBaseRef r; job_Attempt := job_Attempt r; job_Status :=
     job_Status r; job_JobType := job_JobType r; job_JobImage := v; job_NextID := job_NextID
     r; job_Name := job_Name r; job_NodeID := job_NodeID r; job_ExitCode := job_ExitCode r;
     job_StartedAt := job_StartedAt r; job_FinishedAt := job_FinishedAt r; job_DurationMs :=
     job_DurationMs r; job_RepoShaIn := job_RepoShaIn r; job_RepoShaOut := job_RepoShaOut r;
     job_RepoShaIn8 := job_RepoShaIn8 r; job_RepoShaOut8 := job_RepoShaOut8 r; job_Meta :=
     job_Meta r |}.

Definition set_job_NodeID (v : option string) (r : Job) : Job :=
  {| job_ID := job_ID r; job_RunID := job_RunID r; job_RepoID := job_RepoID r;
     job_RepoBaseRef := job_RepoBaseRef r; job_Attempt := job_Attempt r; job_Status :=
     job_Status r; job_JobType := job_JobType r; job_JobImage := job_JobImage r; job_NextID
     := job_NextID r; job_Name := job_Name r; job_NodeID := v; job_ExitCode := job_ExitCode
     r; job_StartedAt := job_StartedAt r; job_FinishedAt := job_FinishedAt r; job_DurationMs
     := job_DurationMs r; job_RepoShaIn := job_RepoShaIn r; job_RepoShaOut := job_RepoShaOut
     r; job_RepoShaIn8 := job_RepoShaIn8 r; job_RepoShaOut8 := job_RepoShaOut8 r; job_Meta
     := job_Meta r |}.

Definition set_job_ExitCode (v : option Z) (r : Job) : Job :=
  {| job_ID := job_ID r; job_RunID := job_RunID r; job_RepoID := job_RepoID r;
     job_RepoBaseRef := job_RepoBaseRef r; job_Attempt := job_Attempt r; job_Status :=
     job_Status r; job_JobType := job_JobType r; job_JobImage := job_JobImage r; job_NextID
     := job_NextID r; job_Name := job_Name r; job_NodeID := job_NodeID r; job_ExitCode := v;
     job_StartedAt := job_StartedAt r; job_FinishedAt := job_FinishedAt r; job_DurationMs :=
     job_DurationMs r; job_RepoShaIn := job_RepoShaIn r; job_RepoShaOut := job_RepoShaOut r;
     job_RepoShaIn8 := job_RepoShaIn8 r; job_RepoShaOut8 := job_RepoShaOut8 r; job_Meta :=
     job_Meta r |}.

Definition set_job_StartedAt (v : option Z) (r : Job) : Job :=
  {| job_ID := job_ID r; job_RunID := job_RunID r; job_RepoID := job_RepoID r;
     job_RepoBaseRef := job_RepoBaseRef r; job_Attempt := job_Attempt r; job_Status :=
     job_Status r; job_JobType := job_JobType r; job_JobImage := job_JobImage r; job_NextID
     := job_NextID r; job_Name := job_Name r; job_NodeID := job_NodeID r; job_ExitCode :=
     job_ExitCode r; job_StartedAt := v; job_FinishedAt := job_FinishedAt r; job_DurationMs
     := job_DurationMs r; job_RepoShaIn := job_RepoShaIn r; job_RepoShaOut := job_RepoShaOut
     r; job_RepoShaIn8 := job_RepoShaIn8 r; job_RepoShaOut8 := job_RepoShaOut8 r; job_Meta
     := job_Meta r |}.

Definition set_job_FinishedAt (v : option Z) (r : Job) : Job :=
  {| job_ID := job_ID r; job_RunID := job_RunID r; job_RepoID := job_RepoID r;
     job_RepoBaseRef := job_RepoBaseRef r; job_Attempt := job_Attempt r; job_Status :=
     job_Status r; job_JobType := job_JobType r; job_JobImage := job_JobImage r; job_NextID
     := job_NextID r; job_Name := job_Name r; job_NodeID := job_NodeID r; job_ExitCode :=
     job_ExitCode r; job_StartedAt := job_StartedAt r; job_FinishedAt := v; job_DurationMs
     := job_DurationMs r; job_RepoShaIn := job_RepoShaIn r; job_RepoShaOut := job_RepoShaOut
     r; job_RepoShaIn8 := job_RepoShaIn8 r; job_RepoShaOut8 := job_RepoShaOut8 r; job_Meta
     := job_Meta r |}.

Definition set_job_DurationMs (v : Z) (r : Job) : Job :=
  {| job_ID := job_ID r; job_RunID := job_RunID r; job_RepoID := job_RepoID r;
     job_RepoBaseRef := job_RepoBaseRef r; job_Attempt := job_Attempt r; job_Status :=
     job_Status r; job_JobType := job_JobType r; job_JobImage := job_JobImage r; job_NextID
     := job_NextID r; job_Name := job_Name r; job_NodeID := job_NodeID r; job_ExitCode :=
     job_ExitCode r; job_StartedAt := job_StartedAt r; job_FinishedAt := job_FinishedAt r;
     job_DurationMs := v; job_RepoShaIn := job_RepoShaIn r; job_RepoShaOut := job_RepoShaOut
     r; job_RepoShaIn8 := job_RepoShaIn8 r; job_RepoShaOut8 := job_RepoShaOut8 r; job_Meta
     := job_Meta r |}.

Definition set_job_RepoShaIn (v : string) (r : Job) : Job :=
  {| job_ID := job_ID r; job_RunID := job_RunID r; job_RepoID := job_RepoID r;
     job_RepoBaseRef := job_RepoBaseRef r; job_Attempt := job_Attempt r; job_Status :=
     job_Status r; job_JobType := job_JobType r; job_JobImage := job_JobImage r; job_NextID
     := job_NextID r; job_Name := job_Name r; job_NodeID := job_NodeID r; job_ExitCode :=
     job_ExitCode r; job_StartedAt := job_StartedAt r; job_FinishedAt := job_FinishedAt r;
     job_DurationMs := job_DurationMs r; job_RepoShaIn := v; job_RepoShaOut :=
     job_RepoShaOut r; job_RepoShaIn8 := job_RepoShaIn8 r; job_RepoShaOut8 :=
     job_RepoShaOut8 r; job_Meta := job_Meta r |}.

Definition set_job_RepoShaOut (v : string) (r : Job) : Job :=
  {| job_ID := job_ID r; job_RunID := job_RunID r; job_RepoID := job_RepoID r;
     job_RepoBaseRef := job_RepoBaseRef r; job_Attempt := job_Attempt r; job_Status :=
     job_Status r; job_JobType := job_JobType r; job_JobImage := job_JobImage r; job_NextID
     := job_NextID r; job_Name := job_Name r; job_NodeID := job_NodeID r; job_ExitCode :=
     job_ExitCode r; job_StartedAt := job_StartedAt r; job_FinishedAt := job_FinishedAt r;
     job_DurationMs := job_DurationMs r; job_RepoShaIn := job_RepoShaIn r; job_RepoShaOut :=
     v; job_RepoShaIn8 := job_RepoShaIn8 r; job_RepoShaOut8 := job_RepoShaOut8 r; job_Meta
     := job_Meta r |}.

Definition set_job_RepoShaIn8 (v : string) (r : Job) : Job :=
  {| job_ID := job_ID r; job_RunID := job_RunID r; job_RepoID := job_RepoID r;
     job_RepoBaseRef := job_RepoBaseRef r; job_Attempt := job_Attempt r; job_Status :=
     job_Status r; job_JobType := job_JobType r; job_JobImage := job_JobImage r; job_NextID
     := job_NextID r; job_Name := job_Name r; job_NodeID := job_NodeID r; job_ExitCode :=
     job_ExitCode r; job_StartedAt := job_StartedAt r; job_FinishedAt := job_FinishedAt r;
     job_DurationMs := job_DurationMs r; job_RepoShaIn := job_RepoShaIn r; job_RepoShaOut :=
     job_RepoShaOut r; job_RepoShaIn8 := v; job_RepoShaOut8 := job_RepoShaOut8 r; job_Meta
     := job_Meta r |}.

Definition set_job_RepoShaOut8 (v : string) (r : Job) : Job :=
  {| job_ID := job_ID r; job_RunID := job_RunID r; job_RepoID := job_RepoID r;
     job_RepoBaseRef := job_RepoBaseRef r; job_Attempt := job_Attempt r; job_Status :=
     job_Status r; job_JobType := job_JobType r; job_JobImage := job_JobImage r; job_NextID
     := job_NextID r; job_Name := job_Name r; job_NodeID := job_NodeID r; job_ExitCode :=
     job_ExitCode r; job_StartedAt := job_StartedAt r; job_FinishedAt := job_FinishedAt r;
     job_DurationMs := job_DurationMs r; job_RepoShaIn := job_RepoShaIn r; job_RepoShaOut :=
     job_RepoShaOut r; job_RepoShaIn8 := job_RepoShaIn8 r; job_RepoShaOut8 := v; job_Meta :=
     job_Meta r |}.

Definition set_job_Meta (v : json) (r : Job) : Job :=
  {| job_ID := job_ID r; job_RunID := job_RunID r; job_RepoID := job_RepoID r;
     job_RepoBaseRef := job_RepoBaseRef r; job_Attempt := job_Attempt r; job_Status :=
     job_Status r; job_JobType := job_JobType r; job_JobImage := job_JobImage r; job_NextID
     := job_NextID r; job_Name := job_Name r; job_NodeID := job_NodeID r; job_ExitCode :=
     job_ExitCode r; job_StartedAt := job_StartedAt r; job_FinishedAt := job_FinishedAt r;
     job_DurationMs := job_DurationMs r; job_RepoShaIn := job_RepoShaIn r; job_RepoShaOut :=
     job_RepoShaOut r; job_RepoShaIn8 := job_RepoShaIn8 r; job_RepoShaOut8 :=
     job_RepoShaOut8 r; job_Meta := v |}.

Definition set_run_Status (v : RunStatus) (r : Run) : Run :=
  {| run_ID := run_ID r; run_WaveID := run_WaveID r; run_MigID := run_MigID r; run_SpecID :=
     run_SpecID r; run_RepoID := run_RepoID r; run_RepoBaseRef := run_RepoBaseRef r;
     run_SourceCommitSha := run_SourceCommitSha r; run_RepoSha0 := run_RepoSha0 r;
     run_CreatedBy := run_CreatedBy r; run_Status := v; run_Attempt := run_Attempt r;
     run_LastError := run_LastError r; run_CreatedAt := run_CreatedAt r; run_StartedAt :=
     run_StartedAt r; run_FinishedAt := run_FinishedAt r; run_Stats := run_Stats r |}.

Definition set_run_Attempt (v : Z) (r : Run) : Run :=
  {| run_ID := run_ID r; run_WaveID := run_WaveID r; run_MigID := run_MigID r; run_SpecID :=
     run_SpecID r; run_RepoID := run_RepoID r; run_RepoBaseRef := run_RepoBaseRef r;
     run_SourceCommitSha := run_SourceCommitSha r; run_RepoSha0 := run_RepoSha0 r;
     run_CreatedBy := run_CreatedBy r; run_Status := run_Status r; run_Attempt := v;
     run_LastError := run_LastError r; run_CreatedAt := run_CreatedAt r; run_StartedAt :=
     run_StartedAt r; run_FinishedAt := run_FinishedAt r; run_Stats := run_Stats r |}.

Definition set_run_LastError (v : option string) (r : Run) : Run :=
  {| run_ID := run_ID r; run_WaveID := run_WaveID r; run_MigID := run_MigID r; run_SpecID :=
     run_SpecID r; run_RepoID := run_RepoID r; run_RepoBaseRef := run_RepoBaseRef r;
     run_SourceCommitSha := run_SourceCommitSha r; run_RepoSha0 := run_RepoSha0 r;
     run_CreatedBy := run_CreatedBy r; run_Status := run_Status r; run_Attempt :=
     run_Attempt r; run_LastError := v; run_CreatedAt := run_CreatedAt r; run_StartedAt :=
     run_StartedAt r; run_FinishedAt := run_FinishedAt r; run_Stats := run_Stats r |}.

Definition set_run_StartedAt (v : option Z) (r : Run) : Run :=
  {| run_ID := run_ID r; run_WaveID := run_WaveID r; run_MigID := run_MigID r; run_SpecID :=
     run_SpecID r; run_RepoID := run_RepoID r; run_RepoBaseRef := run_RepoBaseRef r;
     run_SourceCommitSha := run_SourceCommitSha r; run_RepoSha0 := run_RepoSha0 r;
     run_CreatedBy := run_CreatedBy r; run_Status := run_Status r; run_Attempt :=
     run_Attempt r; run_LastError := run_LastError r; run_CreatedAt := run_CreatedAt r;
     run_StartedAt := v; run_FinishedAt := run_FinishedAt r; run_Stats := run_Stats r |}.

Definition set_run_FinishedAt (v : option Z) (r : Run) : Run :=
  {| run_ID := run_ID r; run_WaveID := run_WaveID r; run_MigID := run_MigID r; run_SpecID :=
     run_SpecID r; run_RepoID := run_RepoID r; run_RepoBaseRef := run_RepoBaseRef r;
     run_SourceCommitSha := run_SourceCommitSha r; run_RepoSha0 := run_RepoSha0 r;
     run_CreatedBy := run_CreatedBy r; run_Status := run_Status r; run_Attempt :=
     run_Attempt r; run_LastError := run_LastError r; run_CreatedAt := run_CreatedAt r;
     run_StartedAt := run_StartedAt r; run_FinishedAt := v; run_Stats := run_Stats r |}.

Definition set_run_Stats (v : json) (r : Run) : Run :=
  {| run_ID := run_ID r; run_WaveID := run_WaveID r; run_MigID := run_MigID r; run_SpecID :=
     run_SpecID r; run_RepoID := run_RepoID r; run_RepoBaseRef := run_RepoBaseRef r;
     run_SourceCommitSha := run_SourceCommitSha r; run_RepoSha0 := run_RepoSha0 r;
     run_CreatedBy := run_CreatedBy r; run_Status := run_Status r; run_Attempt :=
     run_Attempt r; run_LastError := run_LastError r; run_CreatedAt := run_CreatedAt r;
     run_StartedAt := run_StartedAt r; run_FinishedAt := run_FinishedAt r; run_Stats := v |}.

Definition set_wave_Status (v : WaveStatus) (r : Wave) : Wave :=
  {| wave_ID := wave_ID r; wave_MigID := wave_MigID r; wave_SpecID := wave_SpecID r;
     wave_CreatedBy := wave_CreatedBy r; wave_Status := v; wave_CreatedAt := wave_CreatedAt
     r; wave_StartedAt := wave_StartedAt r; wave_FinishedAt := wave_FinishedAt r; wave_Stats
     := wave_Stats r |}.

Definition set_wave_FinishedAt (v : option Z) (r : Wave) : Wave :=
  {| wave_ID := wave_ID r; wave_MigID := wave_MigID r; wave_SpecID := wave_SpecID r;
     wave_CreatedBy := wave_CreatedBy r; wave_Status := wave_Status r; wave_CreatedAt :=
     wave_CreatedAt r; wave_StartedAt := wave_StartedAt r; wave_FinishedAt := v; wave_Stats
     := wave_Stats r |}.

Definition set_wave_Stats (v : json) (r : Wave) : Wave :=
  {| wave_ID := wave_ID r; wave_MigID := wave_MigID r; wave_SpecID := wave_SpecID r;
     wave_CreatedBy := wave_CreatedBy r; wave_Status := wave_Status r; wave_CreatedAt :=
     wave_CreatedAt r; wave_StartedAt := wave_StartedAt r; wave_FinishedAt :=
     wave_FinishedAt r; wave_Stats := v |}.

Definition set_node_Drained (v : bool) (r : Node) : Node :=
  {| node_ID := node_ID r; node_Name := node_Name r; node_IpAddress := node_IpAddress r;
     node_Version := node_Version r; node_Concurrency := node_Concurrency r;
     node_CpuTotalMillis := node_CpuTotalMillis r; node_CpuFreeMillis := node_CpuFreeMillis
     r; node_MemTotalBytes := node_MemTotalBytes r; node_MemFreeBytes := node_MemFreeBytes
     r; node_DiskTotalBytes := node_DiskTotalBytes r; node_DiskFreeBytes :=
     node_DiskFreeBytes r; node_Drained := v; node_DrainRevision := node_DrainRevision r;
     node_CertSerial := node_CertSerial r; node_CertFingerprint := node_CertFingerprint r;
     node_CertNotBefore := node_CertNotBefore r; node_CertNotAfter := node_CertNotAfter r;
     node_LastHeartbeat := node_LastHeartbeat r; node_CreatedAt := node_CreatedAt r |}.

Definition set_node_DrainRevision (v : Z) (r : Node) : Node :=
  {| node_ID := node_ID r; node_Name := node_Name r; node_IpAddress := node_IpAddress r;
     node_Version := node_Version r; node_Concurrency := node_Concurrency r;
     node_CpuTotalMillis := node_CpuTotalMillis r; node_CpuFreeMillis := node_CpuFreeMillis
     r; node_MemTotalBytes := node_MemTotalBytes r; node_MemFreeBytes := node_MemFreeBytes
     r; node_DiskTotalBytes := node_DiskTotalBytes r; node_DiskFreeBytes :=
     node_DiskFreeBytes r; node_Drained := node_Drained r; node_DrainRevision := v;
     node_CertSerial := node_CertSerial r; node_CertFingerprint := node_CertFingerprint r;
     node_CertNotBefore := node_CertNotBefore r; node_CertNotAfter := node_CertNotAfter r;
     node_LastHeartbeat := node_LastHeartbeat r; node_CreatedAt := node_CreatedAt r |}.

Definition set_node_CertSerial (v : option string) (r : Node) : Node :=
  {| node_ID := node_ID r; node_Name := node_Name r; node_IpAddress := node_IpAddress r;
     node_Version := node_Version r; node_Concurrency := node_Concurrency r;
     node_CpuTotalMillis := node_CpuTotalMillis r; node_CpuFreeMillis := node_CpuFreeMillis
     r; node_MemTotalBytes := node_MemTotalBytes r; node_MemFreeBytes := node_MemFreeBytes
     r; node_DiskTotalBytes := node_DiskTotalBytes r; node_DiskFreeBytes :=
     node_DiskFreeBytes r; node_Drained := node_Drained r; node_DrainRevision :=
     node_DrainRevision r; node_CertSerial := v; node_CertFingerprint :=
     node_CertFingerprint r; node_CertNotBefore := node_CertNotBefore r; node_CertNotAfter
     := node_CertNotAfter r; node_LastHeartbeat := node_LastHeartbeat r; node_CreatedAt :=
     node_CreatedAt r |}.

Definition set_node_CertFingerprint (v : option string) (r : Node) : Node :=
  {| node_ID := node_ID r; node_Name := node_Name r; node_IpAddress := node_IpAddress r;
     node_Version := node_Version r; node_Concurrency := node_Concurrency r;
     node_CpuTotalMillis := node_CpuTotalMillis r; node_CpuFreeMillis := node_CpuFreeMillis
     r; node_MemTotalBytes := node_MemTotalBytes r; node_MemFreeBytes := node_MemFreeBytes
     r; node_DiskTotalBytes := node_DiskTotalBytes r; node_DiskFreeBytes :=
     node_DiskFreeBytes r; node_Drained := node_Drained r; node_DrainRevision :=
     node_DrainRevision r; node_CertSerial := node_CertSerial r; node_CertFingerprint := v;
     node_CertNotBefore := node_CertNotBefore r; node_CertNotAfter := node_CertNotAfter r;
     node_LastHeartbeat := node_LastHeartbeat r; node_CreatedAt := node_CreatedAt r |}.

Definition set_node_CertNotBefore (v : option Z) (r : Node) : Node :=
  {| node_ID := node_ID r; node_Name := node_Name r; node_IpAddress := node_IpAddress r;
     node_Version := node_Version r; node_Concurrency := node_Concurrency r;
     node_CpuTotalMillis := node_CpuTotalMillis r; node_CpuFreeMillis := node_CpuFreeMillis
     r; node_MemTotalBytes := node_MemTotalBytes r; node_MemFreeBytes := node_MemFreeBytes
     r; node_DiskTotalBytes := node_DiskTotalBytes r; node_DiskFreeBytes :=
     node_DiskFreeBytes r; node_Drained := node_Drained r; node_DrainRevision :=
     node_DrainRevision r; node_CertSerial := node_CertSerial r; node_CertFingerprint :=
     node_CertFingerprint r; node_CertNotBefore := v; node_CertNotAfter := node_CertNotAfter
     r; node_LastHeartbeat := node_LastHeartbeat r; node_CreatedAt := node_CreatedAt r |}.

Definition set_node_CertNotAfter (v : option Z) (r : Node) : Node :=
  {| node_ID := node_ID r; node_Name := node_Name r; node_IpAddress := node_IpAddress r;
     node_Version := node_Version r; node_Concurrency := node_Concurrency r;
     node_CpuTotalMillis := node_CpuTotalMillis r; node_CpuFreeMillis := node_CpuFreeMillis
     r; node_MemTotalBytes := node_MemTotalBytes r; node_MemFreeBytes := node_MemFreeBytes
     r; node_DiskTotalBytes := node_DiskTotalBytes r; node_DiskFreeBytes :=
     node_DiskFreeBytes r; node_Drained := node_Drained r; node_DrainRevision :=
     node_DrainRevision r; node_CertSerial := node_CertSerial r; node_CertFingerprint :=
     node_CertFingerprint r; node_CertNotBefore := node_CertNotBefore r; node_CertNotAfter
     := v; node_LastHeartbeat := node_LastHeartbeat r; node_CreatedAt := node_CreatedAt r |}.

Definition set_bt_UsedAt (v : option Z) (r : BootstrapToken) : BootstrapToken :=
  {| bt_TokenHash := bt_TokenHash r; bt_TokenID := bt_TokenID r; bt_NodeID := bt_NodeID r;
     bt_IssuedAt := bt_IssuedAt r; bt_ExpiresAt := bt_ExpiresAt r; bt_UsedAt := v;
     bt_CertIssuedAt := bt_CertIssuedAt r; bt_RevokedAt := bt_RevokedAt r; bt_IssuedBy :=
     bt_IssuedBy r |}.

Definition set_bt_CertIssuedAt (v : option Z) (r : BootstrapToken) : BootstrapToken :=
  {| bt_TokenHash := bt_TokenHash r; bt_TokenID := bt_TokenID r; bt_NodeID := bt_NodeID r;
     bt_IssuedAt := bt_IssuedAt r; bt_ExpiresAt := bt_ExpiresAt r; bt_UsedAt := bt_UsedAt r;
     bt_CertIssuedAt := v; bt_RevokedAt := bt_RevokedAt r; bt_IssuedBy := bt_IssuedBy r |}.

Definition set_at_LastUsedAt (v : option Z) (r : ApiToken) : ApiToken :=
  {| at_TokenHash := at_TokenHash r; at_TokenID := at_TokenID r; at_Role := at_Role r;
     at_Username := at_Username r; at_Description := at_Description r; at_IssuedAt :=
     at_IssuedAt r; at_ExpiresAt := at_ExpiresAt r; at_LastUsedAt := v; at_RevokedAt :=
     at_RevokedAt r; at_CreatedBy := at_CreatedBy r; at_CreatedAt := at_CreatedAt r |}.

Definition set_at_RevokedAt (v : option Z) (r : ApiToken) : ApiToken :=
  {| at_TokenHash := at_TokenHash r; at_TokenID := at_TokenID r; at_Role := at_Role r;
     at_Username := at_Username r; at_Description := at_Description r; at_IssuedAt :=
     at_IssuedAt r; at_ExpiresAt := at_ExpiresAt r; at_LastUsedAt := at_LastUsedAt r;
     at_RevokedAt := v; at_CreatedBy := at_CreatedBy r; at_CreatedAt := at_CreatedAt r |}.

Definition set_db_nodes (v : gmap string Node) (r : DB) : DB :=
  {| db_nodes := v; db_repos := db_repos r; db_specs := db_specs r; db_migs := db_migs r;
     db_mig_repos := db_mig_repos r; db_waves := db_waves r; db_runs := db_runs r; db_jobs
     := db_jobs r; db_logs := db_logs r; db_sboms := db_sboms r; db_job_metrics :=
     db_job_metrics r; db_bootstrap_tokens := db_bootstrap_tokens r;
     db_api_tokens := db_api_tokens r |}.

Definition set_db_waves (v : gmap string Wave) (r : DB) : DB :=
  {| db_nodes := db_nodes r; db_repos := db_repos r; db_specs := db_specs r; db_migs :=
     db_migs r; db_mig_repos := db_mig_repos r; db_waves := v; db_runs := db_runs r; db_jobs
     := db_jobs r; db_logs := db_logs r; db_sboms := db_sboms r; db_job_metrics :=
     db_job_metrics r; db_bootstrap_tokens := db_bootstrap_tokens r;
     db_api_tokens := db_api_tokens r |}.

Definition set_db_runs (v : gmap string Run) (r : DB) : DB :=
  {| db_nodes := db_nodes r; db_repos := db_repos r; db_specs := db_specs r; db_migs :=
     db_migs r; db_mig_repos := db_mig_repos r; db_waves := db_waves r; db_runs := v;
     db_jobs := db_jobs r; db_logs := db_logs r; db_sboms := db_sboms r; db_job_metrics :=
     db_job_metrics r; db_bootstrap_tokens := db_bootstrap_tokens r;
     db_api_tokens := db_api_tokens r |}.

Definition set_db_jobs (v : gmap string Job) (r : DB) : DB :=
  {| db_nodes := db_nodes r; db_repos := db_repos r; db_specs := db_specs r; db_migs :=
     db_migs r; db_mig_repos := db_mig_repos r; db_waves := db_waves r; db_runs := db_runs
     r; db_jobs := v; db_logs := db_logs r; db_sboms := db_sboms r; db_job_metrics :=
     db_job_metrics r; db_bootstrap_tokens := db_bootstrap_tokens r;
     db_api_tokens := db_api_tokens r |}.

Definition set_db_logs (v : list Log) (r : DB) : DB :=
  {| db_nodes := db_nodes r; db_repos := db_repos r; db_specs := db_specs r; db_migs :=
     db_migs r; db_mig_repos := db_mig_repos r; db_waves := db_waves r; db_runs := db_runs
     r; db_jobs := db_jobs r; db_logs := v; db_sboms := db_sboms r; db_job_metrics :=
     db_job_metrics r; db_bootstrap_tokens := db_bootstrap_tokens r;
     db_api_tokens := db_api_tokens r |}.

Definition set_db_sboms (v : list Sbom) (r : DB) : DB :=
  {| db_nodes := db_nodes r; db_repos := db_repos r; db_specs := db_specs r; db_migs :=
     db_migs r; db_mig_repos := db_mig_repos r; db_waves := db_waves r; db_runs := db_runs
     r; db_jobs := db_jobs r; db_logs := db_logs r; db_sboms := v; db_job_metrics :=
     db_job_metrics r; db_bootstrap_tokens := db_bootstrap_tokens r;
     db_api_tokens := db_api_tokens r |}.

Definition set_db_job_metrics (v : gmap string JobMetric) (r : DB) : DB :=
  {| db_nodes := db_nodes r; db_repos := db_repos r; db_specs := db_specs r; db_migs :=
     db_migs r; db_mig_repos := db_mig_repos r; db_waves := db_waves r; db_runs := db_runs
     r; db_jobs := db_jobs r; db_logs := db_logs r; db_sboms := db_sboms r; db_job_metrics
     := v; db_bootstrap_tokens := db_bootstrap_tokens r;
     db_api_tokens := db_api_tokens r |}.

Definition set_db_bootstrap_tokens (v : gmap string BootstrapToken) (r : DB) : DB :=
  {| db_nodes := db_nodes r; db_repos := db_repos r; db_specs := db_specs r; db_migs :=
     db_migs r; db_mig_repos := db_mig_repos r; db_waves := db_waves r; db_runs := db_runs
     r; db_jobs := db_jobs r; db_logs := db_logs r; db_sboms := db_sboms r; db_job_metrics
     := db_job_metrics r; db_bootstrap_tokens := v;
     db_api_tokens := db_api_tokens r |}.

Definition set_db_api_tokens (v : gmap string ApiToken) (r : DB) : DB :=
  {| db_nodes := db_nodes r; db_repos := db_repos r; db_specs := db_specs r; db_migs :=
     db_migs r; db_mig_repos := db_mig_repos r; db_waves := db_waves r; db_runs := db_runs
     r; db_jobs := db_jobs r; db_logs := db_logs r; db_sboms := db_sboms r; db_job_metrics
     := db_job_metrics r; db_bootstrap_tokens := db_bootstrap_tokens r; db_api_tokens := v |}.

Definition set_db_repos (v : gmap string Repo) (r : DB) : DB :=
  {| db_nodes := db_nodes r; db_repos := v; db_specs := db_specs r; db_migs := db_migs
     r; db_mig_repos := db_mig_repos r; db_waves := db_waves r; db_runs := db_runs r;
     db_jobs := db_jobs r; db_logs := db_logs r; db_sboms := db_sboms r; db_job_metrics
     := db_job_metrics r; db_bootstrap_tokens := db_bootstrap_tokens r;
     db_api_tokens := db_api_tokens r |}.

Definition set_db_specs (v : gmap string SpecRow) (r : DB) : DB :=
  {| db_nodes := db_nodes r; db_repos := db_repos r; db_specs := v; db_migs := db_migs
     r; db_mig_repos := db_mig_repos r; db_waves := db_waves r; db_runs := db_runs r;
     db_jobs := db_jobs r; db_logs := db_logs r; db_sboms := db_sboms r; db_job_metrics
     := db_job_metrics r; db_bootstrap_tokens := db_bootstrap_tokens r;
     db_api_tokens := db_api_tokens r |}.

Definition set_db_migs (v : gmap string Mig) (r : DB) : DB :=
  {| db_nodes := db_nodes r; db_repos := db_repos r; db_specs := db_specs r; db_migs :=
     v; db_mig_repos := db_mig_repos r; db_waves := db_waves r; db_runs := db_runs r;
     db_jobs := db_jobs r; db_logs := db_logs r; db_sboms := db_sboms r; db_job_metrics
     := db_job_metrics r; db_bootstrap_tokens := db_bootstrap_tokens r;
     db_api_tokens := db_api_tokens r |}.

Definition set_db_mig_repos (v : gmap string MigRepo) (r : DB) : DB :=
  {| db_nodes := db_nodes r; db_repos := db_repos r; db_specs := db_specs r; db_migs :=
     db_migs r; db_mig_repos := v; db_waves := db_waves r; db_runs := db_runs r; db_jobs
     := db_jobs r; db_logs := db_logs r; db_sboms := db_sboms r; db_job_metrics :=
     db_job_metrics r; db_bootstrap_tokens := db_bootstrap_tokens r;
     db_api_tokens := db_api_tokens r |}.

(** ** Collation

    [ORDER BY] on a text column uses the database's collation, which this
    repository does not fix: any total order on strings. *)
Class Collation := {
  coll_le : relation string;
  coll_le_dec :: RelDecision coll_le;
  coll_le_po :: PartialOrder coll_le;
  coll_le_total :: Total coll_le
}.

(** The ["C"] collation, bytewise. *)
#[export] Instance C_collation : Collation := { coll_le := String.le }.

(** Status classes of the SQL texts. *)
Definition active_job (s : JobStatus) : bool :=
  match s with
  | JobStatusCreated | JobStatusQueued | JobStatusRunning => true
  | _ => false
  end.

Definition active_run (s : RunStatus) : bool :=
  match s with RunStatusQueued | RunStatusRunning => true | _ => false end.

(** [runs_mig_repo_membership_fkey] and the unique key of [mig_repos]. *)
Definition member (db : DB) (migID repoID : string) : bool :=
  existsb (λ m, bool_decide (mr_MigID m = migID ∧ mr_RepoID m = repoID)) (map_to_list (db_mig_repos db)).*2.

Definition terminal_job (s : JobStatus) : bool := negb (active_job s).
