(* ===== verification/Tx.v ===== *)
(** * Statements, transactions and errors

    A program of the store is a state transformer over a session [Tx]. A
    statement may fail for a reason of its own (a violated constraint) or because
    the session's fault list says so (a lost connection, a timeout, a
    serialization failure). Inside a transaction a failed statement aborts it:
    every later statement fails and the commit rolls back, which is what
    PostgreSQL does and what the handlers that log an error and go on rely on.
    Outside one each statement commits by itself. *)

From S2P Require Import Prelude GoStrings Types Json Db.
From stdpp Require Import base gmap sets list strings.
From Stdlib Require Import ZArith Lia.

(** ** Errors *)

Inductive Err :=
| ErrNoRows
| ErrServer (msg : string)
| ErrConstraint (name : string)
| ErrTxAborted
| ErrTxCommitRollback
| ErrEmptyNodeID
| ErrInvalidJSON
| ErrRunResumeInvalid
| ErrJobExecutionStale
| ErrRunRestartActive
| ErrRunRestartWaveCancelled
| ErrBootstrapTokenInvalid
| ErrBootstrapNodeExists
| ErrActiveRepoRun (repoID repoURL runID : string)
| ErrCompletion (status : Z) (msg : string) (cause : option Err)
| ErrMsg (msg : string)
| ErrWrap (msg : string) (e : Err).

(** Equality of the sentinel errors [errors.Is] is asked about. *)
Definition err_same (e target : Err) : bool :=
  match e, target with
  | ErrNoRows, ErrNoRows | ErrTxAborted, ErrTxAborted
  | ErrTxCommitRollback, ErrTxCommitRollback | ErrEmptyNodeID, ErrEmptyNodeID
  | ErrInvalidJSON, ErrInvalidJSON | ErrRunResumeInvalid, ErrRunResumeInvalid
  | ErrJobExecutionStale, ErrJobExecutionStale | ErrRunRestartActive, ErrRunRestartActive
  | ErrRunRestartWaveCancelled, ErrRunRestartWaveCancelled
  | ErrBootstrapTokenInvalid, ErrBootstrapTokenInvalid
  | ErrBootstrapNodeExists, ErrBootstrapNodeExists => true
  | _, _ => false
  end.

(** [errors.Is]: along the chain of wrapped errors. *)
Fixpoint errors_Is (e target : Err) : bool :=
  err_same e target ||
  match e with
  | ErrWrap _ e' => errors_Is e' target
  | ErrCompletion _ _ (Some e') => errors_Is e' target
  | _ => false
  end.

(** ** Sessions *)

Record Env := mkEnv {
  env_now : Z;              (* now() of the transaction *)
  env_now_text : string;    (* its text form *)
  env_clock : Z;            (* time.Now() of the server process *)
  env_locked : gset string  (* job rows locked by concurrent transactions *)
}.

(** Calls of the server's log stream hub. *)
Inductive HubCall :=
| HubResumeJob (jobID : string) (count : Z)
| HubJobRetention (jobID : string)          (* the hint that logs are retained *)
| HubJobDone (jobID status : string)        (* the status that closes the job's stream *)
| HubResumeRun (runID : string) (attempt count : Z)
| HubRun (runID : string) (state : option RunState) (repository : string)
| HubRunDone (runID : string).

Record Tx := mkTx {
  tx_env : Env;
  tx_db : DB;
  tx_in : bool;                  (* inside BEGIN .. COMMIT *)
  tx_aborted : bool;
  tx_faults : list (option Err); (* what happens to the next statements *)
  tx_hub : list HubCall          (* the calls of the hub so far *)
}.

Definition M (A : Type) : Type := Tx → (Err + A) * Tx.

Definition fail_stmt (e : Err) (t : Tx) : Tx :=
  mkTx (tx_env t) (tx_db t) (tx_in t) (tx_in t || tx_aborted t) (tail (tx_faults t)) (tx_hub t).

Definition done_stmt (db : DB) (t : Tx) : Tx :=
  mkTx (tx_env t) db (tx_in t) (tx_aborted t) (tail (tx_faults t)) (tx_hub t).

(** One SQL statement. *)
Definition stmt {A} (f : Env → DB → Err + A * DB) : M A := λ t,
  if tx_aborted t then (inl ErrTxAborted, t)
  else match head (tx_faults t) with
       | Some (Some e) => (inl e, fail_stmt e t)
       | _ => match f (tx_env t) (tx_db t) with
              | inl e => (inl e, fail_stmt e t)
              | inr (a, db) => (inr a, done_stmt db t)
              end
       end.

#[export] Instance M_ret : MRet M := λ A a t, (inr a, t).
#[export] Instance M_bind : MBind M := λ A B k m t,
  match m t with
  | (inl e, t') => (inl e, t')
  | (inr a, t') => k a t'
  end.

Definition throw {A} (e : Err) : M A := λ t, (inl e, t).

(** The result of a call with its error, as Go's [x, err := f()]. *)
Definition attempt {A} (m : M A) : M (Err + A) := λ t,
  let '(r, t') := m t in (inr r, t').

(** [fmt.Errorf("msg: %w", err)] *)
Definition wrap {A} (msg : string) (m : M A) : M A := λ t,
  match m t with
  | (inl e, t') => (inl (ErrWrap msg e), t')
  | r => r
  end.

Definition of_option {A} (e : Err) (o : option A) : M A :=
  match o with Some a => mret a | None => throw e end.

(** A [:one] query: no row is [pgx.ErrNoRows], which does not abort. *)
Definition query_one {A} (f : Env → DB → Err + option A * DB) : M A :=
  r ← stmt f; of_option ErrNoRows r.

(** A read-only query. *)
Definition query {A} (f : DB → A) : M A := stmt (λ _ db, inr (f db, db)).

(** An [:exec] statement that violates no constraint. *)
Definition exec (f : Env → DB → DB) : M unit := stmt (λ env db, inr (tt, f env db)).

Definition ask {A} (f : Env → A) : M A := λ t, (inr (f (tx_env t)), t).

(** A call of the hub: not a statement, and no rollback takes it back. *)
Definition emit (c : HubCall) : M unit := λ t,
  (inr tt, mkTx (tx_env t) (tx_db t) (tx_in t) (tx_aborted t) (tx_faults t) (tx_hub t ++ [c])).

Definition when (c : bool) (m : M unit) : M unit := if c then m else mret tt.

Fixpoint for_each {A} (l : list A) (f : A → M unit) : M unit :=
  match l with
  | [] => mret tt
  | x :: l' => f x ≫= λ _, for_each l' f
  end.

Fixpoint map_each {A B} (l : list A) (f : A → M B) : M (list B) :=
  match l with
  | [] => mret []
  | x :: l' => f x ≫= λ y, map_each l' f ≫= λ ys, mret (y :: ys)
  end.

(** [BEGIN]; the body; [COMMIT] when it returned no error, else [ROLLBACK]. The
    commit of an aborted transaction rolls back and reports it. Calls of the hub stay
    made either way. *)
Definition transaction {A} (m : M A) : M A := λ t,
  match head (tx_faults t) with
  | Some (Some e) => (inl e, mkTx (tx_env t) (tx_db t) (tx_in t) (tx_aborted t) (tail (tx_faults t)) (tx_hub t))
  | _ =>
      let '(r, t') := m (mkTx (tx_env t) (tx_db t) true false (tail (tx_faults t)) (tx_hub t)) in
      let back fs := mkTx (tx_env t) (tx_db t) (tx_in t) (tx_aborted t) fs (tx_hub t') in
      match r with
      | inl e => (inl e, back (tx_faults t'))
      | inr a =>
          if tx_aborted t' then (inl ErrTxCommitRollback, back (tail (tx_faults t')))
          else match head (tx_faults t') with
               | Some (Some e) => (inl e, back (tail (tx_faults t')))
               | _ => (inr a, mkTx (tx_env t) (tx_db t') (tx_in t) (tx_aborted t) (tail (tx_faults t')) (tx_hub t'))
               end
      end
  end.

(** A session outside any transaction. *)
Definition session (env : Env) (db : DB) (faults : list (option Err)) : Tx :=
  mkTx env db false false faults [].

(** The outcome of a top-level operation. *)
Definition run_op {A} (m : M A) (env : Env) (db : DB) (faults : list (option Err)) :
    (Err + A) * DB :=
  let '(r, t) := m (session env db faults) in (r, tx_db t).

(** The calls of the hub a top-level operation makes. *)
Definition hub_calls {A} (m : M A) (env : Env) (db : DB) (faults : list (option Err)) : list HubCall :=
  tx_hub (m (session env db faults)).2.

Lemma bind_run {A B} (m : M A) (k : A → M B) t a t' : m t = (inr a, t') → (m ≫= k) t = k a t'.
Proof. intros E. unfold mbind, M_bind. by rewrite E. Qed.

(** ** A program logic

    [triple inside env P m Q E]: in a session of environment [env], started where
    [P] holds of the database, [m] ends in an aborted transaction, or returns a
    value with [Q], or an error with [E]. An aborted transaction stays aborted.
    [inside] says whether the session is in a transaction; there, a statement that
    fails aborts, so its failure needs no [E]. *)
Definition triple {A} (inside : bool) (env : Env) (P : DB → Prop) (m : M A)
    (Q : A → DB → Prop) (E : Err → DB → Prop) : Prop :=
  ∀ t r t', m t = (r, t') → tx_in t = inside → tx_env t = env →
    (inside = false → tx_aborted t = false) →
    tx_in t' = inside ∧ tx_env t' = env ∧ (inside = false → tx_aborted t' = false) ∧
    (tx_aborted t = true → tx_aborted t' = true) ∧
    (tx_aborted t = false → P (tx_db t) →
       tx_aborted t' = true ∨
       match r with inr a => Q a (tx_db t') | inl e => E e (tx_db t') end).

Section Rules.
Context (inside : bool) (env : Env).

Lemma triple_ret {A} (a : A) (P : DB → Prop) (Q : A → DB → Prop) E :
  (∀ db, P db → Q a db) → triple inside env P (mret a) Q E.
Proof. intros H t r t' [= <- <-] Hin Henv Hab. split_and!; auto. Qed.

Lemma triple_throw {A} e (P : DB → Prop) (Q : A → DB → Prop) E :
  (∀ db, P db → E e db) → triple inside env P (throw e) Q E.
Proof. intros H t r t' [= <- <-] Hin Henv Hab. split_and!; auto. Qed.

Lemma triple_ask {A} (f : Env → A) (P : DB → Prop) (Q : A → DB → Prop) E :
  (∀ db, P db → Q (f env) db) → triple inside env P (ask f) Q E.
Proof. intros H t r t' [= <- <-] Hin Henv Hab. subst. split_and!; auto. Qed.

Lemma triple_emit c (P : DB → Prop) E : triple inside env P (emit c) (λ _, P) E.
Proof. intros t r t' [= <- <-] Hin Henv Hab. simpl. split_and!; auto. Qed.

Lemma triple_bind {A B} (m : M A) (k : A → M B) P Q R E :
  triple inside env P m Q E → (∀ a, triple inside env (Q a) (k a) R E) →
  triple inside env P (m ≫= k) R E.
Proof.
  intros Hm Hk t r t' Hrun Hin Henv Hab. unfold mbind, M_bind in Hrun.
  destruct (m t) as [[e|a] t1] eqn:E1.
  - injection Hrun as <- <-. by apply (Hm _ _ _ E1 Hin Henv Hab).
  - destruct (Hm _ _ _ E1 Hin Henv Hab) as (Hin1 & Henv1 & Hab1 & Hmon1 & Hpost1).
    destruct (Hk a _ _ _ Hrun Hin1 Henv1 Hab1) as (Hin2 & Henv2 & Hab2 & Hmon2 & Hpost2).
    split_and!; auto. intros Hf HP. destruct (Hpost1 Hf HP) as [Ht|HQ]; [auto|].
    destruct (tx_aborted t1) eqn:E2; auto.
Qed.

Lemma triple_conseq {A} (m : M A) (P P' : DB → Prop) (Q Q' : A → DB → Prop) (E E' : Err → DB → Prop) :
  triple inside env P m Q E → (∀ db, P' db → P db) → (∀ a db, Q a db → Q' a db) →
  (∀ e db, E e db → E' e db) → triple inside env P' m Q' E'.
Proof.
  intros Hm HP HQ HE t r t' Hrun Hin Henv Hab.
  destruct (Hm _ _ _ Hrun Hin Henv Hab) as (? & ? & ? & ? & Hpost). split_and!; auto.
  intros Hf HP'. destruct (Hpost Hf (HP _ HP')); [auto|]. right. destruct r; auto.
Qed.

(** Programs never change the session's environment or leave its transaction,
    which is all a triple says when its precondition is impossible. *)
Definition behaved {A} (m : M A) : Prop :=
  triple inside env (λ _, False) m (λ _ _, False) (λ _ _, False).

(** A precondition is a fact about one database. *)
Lemma triple_pre {A} (m : M A) (P : DB → Prop) Q E :
  behaved m → (∀ db0, P db0 → triple inside env (λ db, db = db0) m Q E) →
  triple inside env P m Q E.
Proof.
  intros H0 H t r t' Hrun Hin Henv Hab.
  destruct (H0 _ _ _ Hrun Hin Henv Hab) as (? & ? & ? & ? & _). split_and!; auto.
  intros Hf HP. by apply (H _ HP _ _ _ Hrun Hin Henv Hab).
Qed.

(** A conjunct of the precondition that does not mention the database. *)
Lemma triple_pure {A} (m : M A) (φ : Prop) (P : DB → Prop) Q E :
  behaved m → (φ → triple inside env P m Q E) → triple inside env (λ db, φ ∧ P db) m Q E.
Proof.
  intros H0 H t r t' Hrun Hin Henv Hab.
  destruct (H0 _ _ _ Hrun Hin Henv Hab) as (? & ? & ? & ? & _). split_and!; auto.
  intros Hf [Hφ HP]. by apply (H Hφ _ _ _ Hrun Hin Henv Hab).
Qed.

Lemma triple_conj {A} (m : M A) (P P' : DB → Prop) (Q Q' : A → DB → Prop) (E E' : Err → DB → Prop) :
  triple inside env P m Q E → triple inside env P' m Q' E' →
  triple inside env (λ db, P db ∧ P' db) m (λ a db, Q a db ∧ Q' a db) (λ e db, E e db ∧ E' e db).
Proof.
  intros H1 H2 t r t' Hrun Hin Henv Hab.
  destruct (H1 _ _ _ Hrun Hin Henv Hab) as (? & ? & ? & ? & HQ1).
  destruct (H2 _ _ _ Hrun Hin Henv Hab) as (_ & _ & _ & _ & HQ2). split_and!; auto.
  intros Hf [HP HP']. destruct (HQ1 Hf HP) as [|R1]; [by left|]. destruct (HQ2 Hf HP') as [|R2]; [by left|].
  right. by destruct r.
Qed.

Lemma triple_behaved {A} (m : M A) P Q E : triple inside env P m Q E → behaved m.
Proof.
  intros Hm t r t' Hrun Hin Henv Hab.
  destruct (Hm _ _ _ Hrun Hin Henv Hab) as (? & ? & ? & ? & _). by split_and!.
Qed.

Lemma triple_true {A} (m : M A) P :
  behaved m → triple inside env P m (λ _ _, True) (λ _ _, True).
Proof.
  intros Hm t r t' Hrun Hin Henv Hab.
  destruct (Hm _ _ _ Hrun Hin Henv Hab) as (? & ? & ? & ? & _). split_and!; auto. intros _ _. right. by destruct r.
Qed.

Lemma triple_absurd {A} (m : M A) Q E : behaved m → triple inside env (λ _, False) m Q E.
Proof. intros Hm. by eapply triple_conseq; [exact Hm|..]. Qed.

Lemma triple_wrap {A} msg (m : M A) P Q (E : Err → DB → Prop) :
  triple inside env P m Q (λ e, E (ErrWrap msg e)) → triple inside env P (wrap msg m) Q E.
Proof.
  intros Hm t r t' Hrun Hin Henv Hab. unfold wrap in Hrun.
  destruct (m t) as [[e|a] t1] eqn:E1; injection Hrun as <- <-;
    destruct (Hm _ _ _ E1 Hin Henv Hab) as (? & ? & ? & ? & Hpost); split_and!; auto.
Qed.

Lemma triple_attempt {A} (m : M A) P (Q : A → DB → Prop) (E E' : Err → DB → Prop) :
  triple inside env P m Q E →
  triple inside env P (attempt m)
    (λ r db, match r with inr a => Q a db | inl e => E e db end) E'.
Proof.
  intros Hm t r t' Hrun Hin Henv Hab. unfold attempt in Hrun.
  destruct (m t) as [r1 t1] eqn:E1; injection Hrun as <- <-. by apply (Hm _ _ _ E1 Hin Henv Hab).
Qed.

(** Invariants of calls whose errors are kept, and of reads. *)
Lemma triple_attempt_inv {A} (m : M A) (I : DB → Prop) E :
  triple inside env I m (λ _, I) (λ _, I) → triple inside env I (attempt m) (λ _, I) E.
Proof.
  intros Hm. eapply triple_conseq; [apply (triple_attempt m I (λ _, I) (λ _, I) E Hm)|done| |done].
  by intros [?|?] db.
Qed.

Lemma triple_of_option {A} e (o : option A) (P : DB → Prop) (Q : A → DB → Prop) (E : Err → DB → Prop) :
  (∀ a db, o = Some a → P db → Q a db) → (∀ db, o = None → P db → E e db) →
  triple inside env P (of_option e o) Q E.
Proof.
  intros HS HN. destruct o; [apply triple_ret | apply triple_throw]; auto.
Qed.

Lemma triple_for_each {A} (l : list A) (f : A → M unit) (I : DB → Prop) E :
  (∀ x, x ∈ l → triple inside env I (f x) (λ _, I) E) →
  triple inside env I (for_each l f) (λ _, I) E.
Proof.
  induction l as [|x l IH]; intros Hf; simpl; [by apply triple_ret|].
  eapply triple_bind with (Q := λ _, I); [apply Hf; left|].
  intros ?. apply IH. intros y Hy. apply Hf. by right.
Qed.

Lemma triple_when c (m : M unit) (P Q : DB → Prop) E :
  (c = true → triple inside env P m (λ _, Q) E) → (c = false → ∀ db, P db → Q db) →
  triple inside env P (when c m) (λ _, Q) E.
Proof using Type. intros H1 H2. destruct c; simpl; [auto|]. apply triple_ret; auto. Qed.

Lemma fail_stmt_spec e t : tx_in t = inside → 
  tx_in (fail_stmt e t) = inside ∧ tx_db (fail_stmt e t) = tx_db t ∧
  tx_env (fail_stmt e t) = tx_env t ∧
  tx_aborted (fail_stmt e t) = inside || tx_aborted t.
Proof. intros H. unfold fail_stmt; simpl. by rewrite H. Qed.

(** A statement: outside a transaction its failure leaves the database alone. *)
Lemma triple_stmt {A} (f : Env → DB → Err + A * DB) (P : DB → Prop) (Q : A → DB → Prop) (E : Err → DB → Prop) :
  (∀ db a db', P db → f env db = inr (a, db') → Q a db') →
  (inside = false → ∀ e db, P db → E e db) →
  triple inside env P (stmt f) Q E.
Proof.
  intros HQ HE t r t' Hrun Hin Henv Hab. unfold stmt in Hrun.
  destruct (tx_aborted t) eqn:Ea.
  { injection Hrun as <- <-. split_and!; auto; rewrite Ea; auto. }
  assert (∀ e, tx_in (fail_stmt e t) = inside ∧ tx_env (fail_stmt e t) = env ∧
    (inside = false → tx_aborted (fail_stmt e t) = false) ∧
    (P (tx_db t) → tx_aborted (fail_stmt e t) = true ∨ E e (tx_db (fail_stmt e t)))) as Hfail.
  { intros e. destruct (fail_stmt_spec e t Hin) as (H1 & H2 & H3 & H4). rewrite H1, H2, H3, H4, Ea.
    destruct inside; split_and!; auto. }
  rewrite Henv in Hrun.
  destruct (head (tx_faults t)) as [[e|]|]; [|destruct (f _ _) as [e|[a db]] eqn:Ef..];
    injection Hrun as <- <-; try (destruct (Hfail e) as (? & ? & ? & ?); split_and!; auto; done);
    simpl; split_and!; auto; rewrite ?Ea; try done; intros _ HP; right; eauto.
Qed.

Lemma triple_query {A} (f : DB → A) (P : DB → Prop) (Q : A → DB → Prop) (E : Err → DB → Prop) :
  (∀ db, P db → Q (f db) db) → (inside = false → ∀ e db, P db → E e db) →
  triple inside env P (query f) Q E.
Proof. intros HQ HE. apply triple_stmt; [|done]. intros db a db' HP [= <- <-]. auto. Qed.

Lemma triple_exec (f : Env → DB → DB) (P : DB → Prop) (Q : DB → Prop) (E : Err → DB → Prop) :
  (∀ db, P db → Q (f env db)) → (inside = false → ∀ e db, P db → E e db) →
  triple inside env P (exec f) (λ _, Q) E.
Proof. intros HQ HE. apply triple_stmt; [|done]. intros db a db' HP [= <- <-]. auto. Qed.

Lemma triple_query_one {A} (f : Env → DB → Err + option A * DB) (P : DB → Prop) (Q : A → DB → Prop) (E : Err → DB → Prop) :
  (∀ db a db', P db → f env db = inr (Some a, db') → Q a db') →
  (∀ db db', P db → f env db = inr (None, db') → E ErrNoRows db') →
  (inside = false → ∀ e db, P db → E e db) →
  triple inside env P (query_one f) Q E.
Proof.
  intros HS HN HE. unfold query_one.
  eapply triple_bind with (Q := λ o db, match o with Some a => Q a db | None => E ErrNoRows db end).
  - apply triple_stmt; [|done]. intros db [a|] db' HP Hf; eauto.
  - intros o. apply triple_of_option; intros; by simplify_eq.
Qed.

Lemma triple_get {A} (f : DB → option A) (I : DB → Prop) :
  triple inside env I (query_one (λ _ db, inr (f db, db))) (λ _, I) (λ _, I).
Proof.
  apply triple_query_one; [by intros db a db' HI [= _ <-]|by intros db db' HI [= _ <-]|auto].
Qed.

(** A read, with what it found. *)
Lemma triple_fetch {A} (f : DB → option A) (I : DB → Prop) :
  triple inside env I (query_one (λ _ db, inr (f db, db))) (λ a db, I db ∧ f db = Some a) (λ _, I).
Proof.
  apply triple_query_one; [by intros db a db' HI [= <- <-]|by intros db db' HI [= _ <-]|auto].
Qed.

End Rules.

(** Programs built from the operations of this file are well behaved. *)
Section Behaved.
Context (inside : bool) (env : Env).

Lemma behaved_ret {A} (a : A) : behaved inside env (mret a).
Proof. by apply triple_ret. Qed.
Lemma behaved_throw {A} e : behaved inside env (throw (A := A) e).
Proof. by apply triple_throw. Qed.
Lemma behaved_ask {A} (f : Env → A) : behaved inside env (ask f).
Proof. by apply triple_ask. Qed.
Lemma behaved_emit c : behaved inside env (emit c).
Proof. apply triple_emit. Qed.
Lemma behaved_stmt {A} (f : Env → DB → Err + A * DB) : behaved inside env (stmt f).
Proof. by apply triple_stmt. Qed.
Lemma behaved_bind {A B} (m : M A) (k : A → M B) :
  behaved inside env m → (∀ a, behaved inside env (k a)) → behaved inside env (m ≫= k).
Proof. intros Hm Hk. eapply triple_bind; [exact Hm|exact Hk]. Qed.
Lemma behaved_wrap {A} msg (m : M A) : behaved inside env m → behaved inside env (wrap msg m).
Proof. intros Hm. by apply triple_wrap. Qed.
Lemma behaved_attempt {A} (m : M A) : behaved inside env m → behaved inside env (attempt m).
Proof.
  intros Hm. eapply triple_conseq; [apply (triple_attempt _ _ _ _ _ _ (λ _ _, False) Hm)|done| |done]. by intros [e|a] db.
Qed.
Lemma behaved_of_option {A} e (o : option A) : behaved inside env (of_option e o).
Proof. destruct o; [apply behaved_ret|apply behaved_throw]. Qed.
Lemma behaved_when c m : behaved inside env m → behaved inside env (when c m).
Proof. intros Hm. destruct c; [done|apply behaved_ret]. Qed.
Lemma behaved_for_each {A} (l : list A) f :
  (∀ x, behaved inside env (f x)) → behaved inside env (for_each l f).
Proof.
  intros Hf. induction l; simpl; [apply behaved_ret|]. apply behaved_bind; auto.
Qed.

End Behaved.

Create HintDb behaved.

Ltac behave :=
  repeat lazymatch goal with
  | |- behaved _ _ (mret _) => apply behaved_ret
  | |- behaved _ _ (throw _) => apply behaved_throw
  | |- behaved _ _ (ask _) => apply behaved_ask
  | |- behaved _ _ (emit _) => apply behaved_emit
  | |- behaved _ _ (stmt _) => apply behaved_stmt
  | |- behaved _ _ (query _) => apply behaved_stmt
  | |- behaved _ _ (exec _) => apply behaved_stmt
  | |- behaved _ _ (query_one _) => unfold query_one
  | |- behaved _ _ (of_option _ _) => apply behaved_of_option
  | |- behaved _ _ (wrap _ _) => apply behaved_wrap
  | |- behaved _ _ (attempt _) => apply behaved_attempt
  | |- behaved _ _ (when _ _) => apply behaved_when
  | |- behaved _ _ (for_each _ _) => apply behaved_for_each; intros ?
  | |- behaved _ _ (mbind _ _) => apply behaved_bind; [|intros ?]
  | |- behaved _ _ (match _ with _ => _ end) => case_match
  | |- behaved _ _ _ => solve [auto with behaved]
  end.

(** The common case: whatever error is raised inside a transaction, the caller
    rolls back. *)
Notation any_error := (λ (_ : Err) (_ : DB), True).

(** A transaction either leaves the database as it was, or reaches a state its
    body's postcondition describes; whatever statements fail. *)
Lemma transaction_spec {A} (m : M A) (P : DB → Prop) (Q : A → DB → Prop) env db faults r db' :
  triple true env P m Q any_error → P db →
  run_op (transaction m) env db faults = (r, db') →
  match r with
  | inr a => Q a db'
  | inl _ => db' = db
  end.
Proof.
  intros Hm HP. unfold run_op, transaction, session; simpl.
  destruct (head faults) as [[e|]|]; [by intros; simplify_eq/=|..];
    (destruct (m _) as [r1 t1] eqn:E1;
     destruct (Hm _ _ _ E1 eq_refl eq_refl) as (_ & _ & _ & _ & Hpost); [done|];
     destruct (Hpost eq_refl HP) as [Ha|HQ];
     [rewrite ?Ha; destruct r1; intros; simplify_eq/=; done|];
     destruct r1 as [e1|a]; [by intros; simplify_eq/=|];
     destruct (tx_aborted t1); [by intros; simplify_eq/=|];
     destruct (head (tx_faults t1)) as [[e|]|]; intros; simplify_eq/=; done).
Qed.

(** A transaction as a step of a program that runs outside of one. *)
Lemma triple_transaction {A} (m : M A) env (P : DB → Prop) (Q : A → DB → Prop) (E : Err → DB → Prop) :
  triple true env P m Q any_error → (∀ e db, P db → E e db) →
  triple false env P (transaction m) Q E.
Proof.
  intros Hm HE t r t' Hrun Hin Henv Hab. unfold transaction in Hrun.
  specialize (Hab eq_refl). rewrite Hin, Hab, Henv in Hrun.
  destruct (head (tx_faults t)) as [[e|]|];
    [injection Hrun as <- <-; simpl; split_and!; auto; congruence|..];
    (destruct (m _) as [r1 t1] eqn:E1;
     destruct (Hm _ _ _ E1 eq_refl eq_refl) as (_ & _ & _ & _ & Hpost); [done|];
     destruct r1 as [e1|a];
     [injection Hrun as <- <-; simpl; split_and!; auto; congruence|];
     destruct (tx_aborted t1) eqn:Et1;
     [injection Hrun as <- <-; simpl; split_and!; auto; congruence|];
     destruct (head (tx_faults t1)) as [[e|]|]; injection Hrun as <- <-; simpl; split_and!; auto;
     try congruence; intros _ HP; right; destruct (Hpost eq_refl HP); done).
Qed.

Lemma behaved_transaction {A} (m : M A) env :
  behaved true env m → behaved false env (transaction m).
Proof. intros Hm. apply triple_transaction; [|done]. by eapply triple_conseq; [exact Hm|..]. Qed.

(** ** Progress

    Without faults: [total env P m Q] says that [m], started where [P] holds,
    returns a value with [Q]. *)
Definition total {A} (env : Env) (P : DB → Prop) (m : M A) (Q : A → DB → Prop) : Prop :=
  ∀ db ins hub, P db → ∃ a db' hub',
    m (mkTx env db ins false [] hub) = (inr a, mkTx env db' ins false [] hub') ∧ Q a db'.

Section Total.
Context (env : Env).

Lemma total_ret {A} (a : A) (P : DB → Prop) (Q : A → DB → Prop) :
  (∀ db, P db → Q a db) → total env P (mret a) Q.
Proof. intros H db ins hub HP. exists a, db, hub. auto. Qed.

Lemma total_bind {A B} (m : M A) (k : A → M B) P Q R :
  total env P m Q → (∀ a, total env (Q a) (k a) R) → total env P (m ≫= k) R.
Proof.
  intros Hm Hk db ins hub HP. destruct (Hm db ins hub HP) as (a & db1 & hub1 & E1 & HQ).
  destruct (Hk a db1 ins hub1 HQ) as (b & db2 & hub2 & E2 & HR). exists b, db2, hub2. split; [|done].
  unfold mbind, M_bind. by rewrite E1.
Qed.

Lemma total_conseq {A} (m : M A) (P P' : DB → Prop) (Q Q' : A → DB → Prop) :
  total env P m Q → (∀ db, P' db → P db) → (∀ a db, Q a db → Q' a db) → total env P' m Q'.
Proof.
  intros Hm HP HQ db ins hub HP'. destruct (Hm db ins hub (HP _ HP')) as (a & db' & hub' & E & ?). eauto 6.
Qed.

Lemma total_pure {A} (m : M A) (φ : Prop) (P : DB → Prop) Q :
  (φ → total env P m Q) → total env (λ db, φ ∧ P db) m Q.
Proof. intros Hm db ins hub [Hφ HP]. by apply (Hm Hφ). Qed.

Lemma total_exists {A B} (m : M A) (P : B → DB → Prop) Q :
  (∀ x, total env (P x) m Q) → total env (λ db, ∃ x, P x db) m Q.
Proof. intros Hm db ins hub [x HP]. by apply (Hm x). Qed.

Lemma total_at {A} (m : M A) (P : DB → Prop) Q :
  (∀ db, P db → total env (λ d, d = db) m Q) → total env P m Q.
Proof. intros Hm db ins hub HP. by apply (Hm db HP). Qed.

Lemma total_stmt {A} (f : Env → DB → Err + A * DB) (P : DB → Prop) (Q : A → DB → Prop) :
  (∀ db, P db → ∃ a db', f env db = inr (a, db') ∧ Q a db') → total env P (stmt f) Q.
Proof.
  intros H db ins hub HP. destruct (H db HP) as (a & db' & E & HQ). exists a, db', hub. split; [|done].
  unfold stmt. simpl. by rewrite E.
Qed.

Lemma total_query {A} (f : DB → A) (P : DB → Prop) (Q : A → DB → Prop) :
  (∀ db, P db → Q (f db) db) → total env P (query f) Q.
Proof. intros H. apply total_stmt. eauto. Qed.

Lemma total_exec (f : Env → DB → DB) (P Q : DB → Prop) :
  (∀ db, P db → Q (f env db)) → total env P (exec f) (λ _, Q).
Proof. intros H. apply total_stmt. eauto. Qed.

Lemma total_query_one {A} (f : Env → DB → Err + option A * DB) (P : DB → Prop) (Q : A → DB → Prop) :
  (∀ db, P db → ∃ a db', f env db = inr (Some a, db') ∧ Q a db') → total env P (query_one f) Q.
Proof.
  intros H. unfold query_one. eapply total_bind.
  - apply (total_stmt _ P (λ o db, ∃ a, o = Some a ∧ Q a db)). intros db HP.
    destruct (H db HP) as (a & db' & E & HQ). eauto 6.
  - intros o db ins hub (a & -> & HQ). exists a, db, hub. auto.
Qed.

Lemma total_ask {A} (f : Env → A) (P : DB → Prop) (Q : A → DB → Prop) :
  (∀ db, P db → Q (f env) db) → total env P (ask f) Q.
Proof. intros H db ins hub HP. exists (f env), db, hub. auto. Qed.

Lemma total_emit c (P : DB → Prop) : total env P (emit c) (λ _, P).
Proof. intros db ins hub HP. by eexists _, _, _. Qed.

Lemma total_wrap {A} msg (m : M A) P Q : total env P m Q → total env P (wrap msg m) Q.
Proof.
  intros Hm db ins hub HP. destruct (Hm db ins hub HP) as (a & db' & hub' & E & HQ). exists a, db', hub'.
  unfold wrap. by rewrite E.
Qed.

Lemma total_attempt {A} (m : M A) P (Q : A → DB → Prop) :
  total env P m Q → total env P (attempt m) (λ r db, ∃ a, r = inr a ∧ Q a db).
Proof.
  intros Hm db ins hub HP. destruct (Hm db ins hub HP) as (a & db' & hub' & E & HQ). exists (inr a), db', hub'.
  unfold attempt. rewrite E. eauto.
Qed.

(** Calls whose result is known. *)
Lemma total_attempt_eq {A} (m : M A) P (x : A) (Q : DB → Prop) :
  total env P m (λ y db, y = x ∧ Q db) → total env P (attempt m) (λ r db, r = inr x ∧ Q db).
Proof.
  intros Hm. eapply total_conseq; [apply total_attempt, Hm|done|]. by intros r db (? & -> & -> & ?).
Qed.

Lemma total_get {A} (f : DB → option A) db x :
  f db = Some x →
  total env (λ d, d = db) (query_one (λ _ d, inr (f d, d))) (λ y d, y = x ∧ d = db).
Proof. intros Hx. apply total_query_one. intros d ->. rewrite Hx. eauto. Qed.

Lemma total_then {A B} (m : M A) (k : A → M B) P (x : A) (Q : DB → Prop) R :
  total env P m (λ y db, y = x ∧ Q db) → total env Q (k x) R → total env P (m ≫= k) R.
Proof. intros Hm Hk. eapply total_bind; [exact Hm|]. intros y. apply total_pure. by intros ->. Qed.

Lemma total_when c (m : M unit) (P Q : DB → Prop) :
  (c = true → total env P m (λ _, Q)) → (c = false → ∀ db, P db → Q db) →
  total env P (when c m) (λ _, Q).
Proof. intros H1 H2. destruct c; simpl; [auto|]. apply total_ret; auto. Qed.

Lemma total_transaction_body {A} (m : M A) (P : DB → Prop) (Q : A → DB → Prop) :
  (∀ db hub, P db → ∃ a db' hub',
     m (mkTx env db true false [] hub) = (inr a, mkTx env db' true false [] hub') ∧ Q a db') →
  total env P (transaction m) Q.
Proof.
  intros Hm db ins hub HP. destruct (Hm db hub HP) as (a & db' & hub' & E & HQ). exists a, db', hub'.
  unfold transaction. simpl. rewrite E. simpl. auto.
Qed.

Lemma total_transaction {A} (m : M A) (P : DB → Prop) (Q : A → DB → Prop) :
  total env P m Q → total env P (transaction m) Q.
Proof. intros Hm. apply total_transaction_body. intros db hub HP. by apply (Hm db true hub HP). Qed.

(** A body that returns, with what is known of its results. *)
Lemma total_transaction_triple {A} (m : M A) (P : DB → Prop) (Q : A → DB → Prop) E :
  total env P m (λ _ _, True) → triple true env P m Q E → total env P (transaction m) Q.
Proof.
  intros Ht Hm. apply total_transaction_body. intros db hub HP.
  destruct (Ht db true hub HP) as (a & db' & hub' & E1 & _). exists a, db', hub'. split; [done|].
  destruct (Hm _ _ _ E1 eq_refl eq_refl) as (_ & _ & _ & _ & Hpost); [done|].
  by destruct (Hpost eq_refl HP).
Qed.

End Total.

Lemma total_run_op {A} env (m : M A) (P : DB → Prop) (Q : A → DB → Prop) db :
  total env P m Q → P db → ∃ a db', run_op m env db [] = (inr a, db') ∧ Q a db'.
Proof.
  intros Hm HP. destruct (Hm db false [] HP) as (a & db' & hub' & E & HQ). exists a, db'.
  unfold run_op, session. by rewrite E.
Qed.

(** What a session outside a transaction ends in. *)
Lemma triple_run_op {A} env (P : DB → Prop) (m : M A) (Q : A → DB → Prop) (E : Err → DB → Prop) db faults r db' :
  triple false env P m Q E → P db → run_op m env db faults = (r, db') →
  match r with inr a => Q a db' | inl e => E e db' end.
Proof.
  intros Hm HP. unfold run_op. destruct (m _) as [r1 t1] eqn:E1. intros [= <- <-].
  destruct (Hm _ _ _ E1 eq_refl eq_refl) as (_ & _ & Ha & _ & Hpost); [done|].
  destruct (Hpost eq_refl HP) as [Hab|HQ]; [|done]. by rewrite Ha in Hab.
Qed.

(** *** Statements that violate no constraint

    [calm env m]: without faults, [m] aborts no transaction, whatever it returns;
    [sure env m]: it returns a value. *)
Definition calm {A} (env : Env) (m : M A) : Prop :=
  ∀ db ins hub, ∃ r db' hub',
    m (mkTx env db ins false [] hub) = (r, mkTx env db' ins false [] hub').

Notation sure env m := (total env (λ _, True) m (λ _ _, True)).

Section Calm.
Context (env : Env).

Lemma calm_ret {A} (a : A) : calm env (mret a).
Proof. intros db ins hub. by eexists _, _, _. Qed.
Lemma calm_throw {A} e : calm env (throw (A := A) e).
Proof. intros db ins hub. by eexists _, _, _. Qed.
Lemma calm_ask {A} (f : Env → A) : calm env (ask f).
Proof. intros db ins hub. by eexists _, _, _. Qed.
Lemma calm_emit c : calm env (emit c).
Proof. intros db ins hub. by eexists _, _, _. Qed.
Lemma calm_stmt {A} (f : Env → DB → Err + A * DB) :
  (∀ db, ∃ r, f env db = inr r) → calm env (stmt f).
Proof.
  intros Hf db ins hub. destruct (Hf db) as [[a db'] Hr]. unfold stmt. simpl. rewrite Hr. by eexists _, _, _.
Qed.
Lemma calm_bind {A B} (m : M A) (k : A → M B) : calm env m → (∀ a, calm env (k a)) → calm env (m ≫= k).
Proof.
  intros Hm Hk db ins hub. unfold mbind, M_bind. destruct (Hm db ins hub) as ([e|a] & db1 & hub1 & ->); [by eexists _, _, _|].
  apply Hk.
Qed.
Lemma calm_wrap {A} msg (m : M A) : calm env m → calm env (wrap msg m).
Proof. intros Hm db ins hub. unfold wrap. destruct (Hm db ins hub) as ([e|a] & db1 & hub1 & ->); by eexists _, _, _. Qed.
Lemma calm_of_option {A} e (o : option A) : calm env (of_option e o).
Proof. destruct o; [apply calm_ret|apply calm_throw]. Qed.
Lemma calm_query_one {A} (f : Env → DB → Err + option A * DB) :
  (∀ db, ∃ r, f env db = inr r) → calm env (query_one f).
Proof. intros Hf. apply calm_bind; [by apply calm_stmt|]. intros a. apply calm_of_option. Qed.
Lemma calm_when c m : calm env m → calm env (when c m).
Proof. intros Hm. destruct c; [done|apply calm_ret]. Qed.

(** A logged error leaves a value. *)
Lemma calm_attempt {A} (m : M A) : calm env m → sure env (attempt m).
Proof.
  intros Hm db ins hub _. unfold attempt. destruct (Hm db ins hub) as (r & db1 & hub1 & ->). by eexists _, _, _.
Qed.
Lemma total_attempt_calm {A} (m : M A) (P : DB → Prop) (Q : A → DB → Prop) (E : Err → DB → Prop) :
  calm env m → (∀ inside, triple inside env P m Q E) →
  total env P (attempt m) (λ r db, match r with inr a => Q a db | inl e => E e db end).
Proof.
  intros Hc Hm db ins hub HP. unfold attempt. destruct (Hc db ins hub) as (r & db1 & hub1 & E1). rewrite E1.
  exists r, db1, hub1. split; [done|]. destruct (Hm ins _ _ _ E1 eq_refl eq_refl) as (_ & _ & _ & _ & Hpost); [done|].
  by destruct (Hpost eq_refl HP).
Qed.
Lemma sure_calm {A} (m : M A) : sure env m → calm env m.
Proof. intros Hm db ins hub. destruct (Hm db ins hub I) as (a & db' & hub' & -> & _). by eexists _, _, _. Qed.

End Calm.

(** Goals of the form [calm]. *)
Ltac keep_calm :=
  repeat lazymatch goal with
  | |- calm _ (mret _) => apply calm_ret
  | |- calm _ (throw _) => apply calm_throw
  | |- calm _ (ask _) => apply calm_ask
  | |- calm _ (emit _) => apply calm_emit
  | |- calm _ (query _) => apply calm_stmt; intros ?; by eexists
  | |- calm _ (exec _) => apply calm_stmt; intros ?; by eexists
  | |- calm _ (wrap _ _) => apply calm_wrap
  | |- calm _ (attempt _) => apply sure_calm, calm_attempt
  | |- calm _ (when _ _) => apply calm_when
  | |- calm _ (mbind _ _) => apply calm_bind; [|intros ?]
  | |- calm _ (match _ with _ => _ end) => case_match
  end.
