(* ===== verification/Queries.v ===== *)
(** * The SQL queries ([internal/store/*.sql.go])

    Each query of the run lifecycle as a function on the database. A query that
    writes is a function [Env → DB → ...] because [now()] and the rows locked by
    other sessions ([SKIP LOCKED]) come from the session. *)

From S2P Require Import Prelude GoStrings Types Json Db Tx.
From stdpp Require Import base gmap sets list sorting strings.
From Stdlib Require Import ZArith Lia.

(** ** SQL functions *)

(** [(EXTRACT(EPOCH FROM d) * 1000)::BIGINT] of an interval of [us]
    microseconds: numeric to bigint rounds half away from zero. *)
Definition epoch_ms (us : Z) : Z :=
  if decide (0 ≤ us)%Z then ((us + 500) / 1000)%Z else (- ((- us + 500) / 1000))%Z.

Definition coalesce {A} (o : option A) (d : A) : A := default d o.

(** [CASE WHEN s = '' THEN '' ELSE SUBSTRING(s, 1, 8) END] *)
Definition sha8 (s : string) : string := if decide (s = "") then "" else take8 s.

(** Lexicographic orders for [ORDER BY]. *)
Definition lex {A} (lt le : relation A) : relation A := λ x y, lt x y ∨ (¬ lt y x ∧ le x y).

#[export] Instance lex_dec {A} (lt le : relation A) `{!RelDecision lt, !RelDecision le} :
  RelDecision (lex lt le).
Proof. intros x y. unfold lex. apply _. Defined.

Section Queries.
Context `{Collation}.

Definition text_lt (s1 s2 : string) : Prop := coll_le s1 s2 ∧ s1 ≠ s2.

#[export] Instance text_lt_dec : RelDecision text_lt.
Proof. intros x y. unfold text_lt. apply _. Defined.

Definition by_id : relation Job := λ x y, coll_le (job_ID x) (job_ID y).
Definition by_attempt_id : relation Job :=
  lex (λ x y, job_Attempt x < job_Attempt y)%Z by_id.
Definition by_run_attempt_id : relation Job :=
  lex (λ x y, text_lt (job_RunID x) (job_RunID y)) by_attempt_id.
Definition by_created_id : relation Run :=
  lex (λ x y, run_CreatedAt x < run_CreatedAt y)%Z (λ x y, coll_le (run_ID x) (run_ID y)).

#[export] Instance by_id_dec : RelDecision by_id.
Proof. intros x y. unfold by_id. apply _. Defined.
#[export] Instance by_attempt_id_dec : RelDecision by_attempt_id.
Proof. unfold by_attempt_id. apply lex_dec; [intros x y|]; apply _. Defined.
#[export] Instance by_run_attempt_id_dec : RelDecision by_run_attempt_id.
Proof. unfold by_run_attempt_id. apply lex_dec; [intros x y|]; apply _. Defined.
#[export] Instance by_created_id_dec : RelDecision by_created_id.
Proof. unfold by_created_id. apply lex_dec; intros x y; apply _. Defined.

(** [SELECT * FROM t WHERE p ORDER BY r] *)
Definition rows {A} (m : gmap string A) : list A := (map_to_list m).*2.
Definition select {A} (p : A → bool) (r : relation A) `{!RelDecision r}
    (m : gmap string A) : list A :=
  merge_sort r (filter (λ x, p x = true) (rows m)).

(** [UPDATE t SET .. WHERE p] *)
Definition update {A} (p : A → bool) (f : A → A) (m : gmap string A) : gmap string A :=
  (λ x, if p x then f x else x) <$> m.

Definition affected {A} (p : A → bool) (m : gmap string A) : Z :=
  Z.of_nat (length (filter (λ x, p x = true) (rows m))).

(** ** jobs.sql *)

(** The [SET] clause shared by the two bulk cancellations. *)
Definition cancel_row (now : Z) (j : Job) : Job :=
  let fin := coalesce (job_FinishedAt j) now in
  set_job_Status JobStatusCancelled
    (set_job_FinishedAt (Some fin)
      (set_job_DurationMs
        (match job_StartedAt j with
         | None => 0
         | Some st => epoch_ms (Z.max (fin - st) 0)
         end)%Z j)).

Definition active_of_run (runID : string) (j : Job) : bool :=
  bool_decide (job_RunID j = runID) && active_job (job_Status j).

Definition active_of_attempt (runID : string) (attempt : Z) (j : Job) : bool :=
  bool_decide (job_RunID j = runID) && bool_decide (job_Attempt j = attempt)
  && active_job (job_Status j).

Definition CancelActiveJobsByRun (runID : string) : M Z :=
  stmt (λ env db,
    inr (affected (active_of_run runID) (db_jobs db),
         set_db_jobs (update (active_of_run runID) (cancel_row (env_now env)) (db_jobs db)) db)).

Definition CancelActiveJobsByRunAttempt (runID : string) (attempt : Z) : M Z :=
  stmt (λ env db,
    inr (affected (active_of_attempt runID attempt) (db_jobs db),
         set_db_jobs (update (active_of_attempt runID attempt) (cancel_row (env_now env))
                        (db_jobs db)) db)).

(** [EXISTS (SELECT 1 FROM jobs owner ..)] of [ClaimJob]: another node holds a
    job of the same run attempt. *)
Definition owned_elsewhere (db : DB) (nodeID : string) (j : Job) : bool :=
  existsb (λ o, bool_decide (job_RunID o = job_RunID j) &&
                bool_decide (job_Attempt o = job_Attempt j) &&
                match job_NodeID o with
                | None => false
                | Some n => negb (bool_decide (n = nodeID))
                end) (rows (db_jobs db)).

Definition claim_eligible (db : DB) (n : Node) (j : Job) : bool :=
  negb (node_Drained n)
  && negb (bool_decide (node_ID n = ""))
  && bool_decide (job_Status j = JobStatusQueued)
  && match job_NodeID j with None => true | Some o => bool_decide (o = node_ID n) end
  && match db_runs db !! job_RunID j with
     | None => false
     | Some r =>
         bool_decide (run_Status r = RunStatusRunning)
         && match db_waves db !! run_WaveID r with
            | None => false
            | Some w => bool_decide (wave_Status w = WaveStatusStarted)
            end
     end
  && negb (owned_elsewhere db (node_ID n) j).

Definition claim_row (nodeID : string) (now : Z) (j : Job) : Job :=
  set_job_Status JobStatusRunning
    (set_job_NodeID (Some nodeID) (set_job_StartedAt (Some now) j)).

(** The claimable jobs of a node in claim order, rows locked by other sessions
    skipped. *)
Definition claim_candidates (locked : gset string) (db : DB) (n : Node) : list Job :=
  filter (λ j, job_ID j ∉ locked)
    (select (claim_eligible db n) by_run_attempt_id (db_jobs db)).

Definition ClaimJob_query (nodeID : string) : M Job :=
  query_one (λ env db,
    match db_nodes db !! nodeID with
    | None => inr (None, db)
    | Some n =>
        match claim_candidates (env_locked env) db n with
        | [] => inr (None, db)
        | j :: _ =>
            let j' := claim_row (node_ID n) (env_now env) j in
            inr (Some j', set_db_jobs (<[job_ID j := j']> (db_jobs db)) db)
        end
    end).

Record CreateJobParams := mkCreateJobParams {
  cj_ID : string; cj_RunID : string; cj_RepoID : string; cj_RepoBaseRef : string;
  cj_Attempt : Z; cj_Status : JobStatus; cj_JobType : JobType; cj_JobImage : string;
  cj_NextID : option string; cj_Name : string; cj_Meta : raw; cj_RepoShaIn : string
}.

Definition new_job (a : CreateJobParams) (meta : json) : Job := {|
  job_ID := cj_ID a; job_RunID := cj_RunID a; job_RepoID := cj_RepoID a;
  job_RepoBaseRef := cj_RepoBaseRef a; job_Attempt := cj_Attempt a;
  job_Status := cj_Status a; job_JobType := cj_JobType a; job_JobImage := cj_JobImage a;
  job_NextID := cj_NextID a; job_Name := cj_Name a; job_NodeID := None;
  job_ExitCode := None; job_StartedAt := None; job_FinishedAt := None; job_DurationMs := 0;
  job_RepoShaIn := cj_RepoShaIn a; job_RepoShaOut := "";
  job_RepoShaIn8 := sha8 (cj_RepoShaIn a); job_RepoShaOut8 := ""; job_Meta := meta |}.

(** The insert fails on a taken id, a missing referenced row, a NULL or
    malformed [meta]. *)
Definition CreateJob_query (a : CreateJobParams) : M Job :=
  stmt (λ env db,
    match cj_Meta a with
    | RawInvalid => inl (ErrConstraint "invalid input syntax for type json")
    | RawEmpty => inl (ErrConstraint "jobs.meta not null")
    | RawJson meta =>
        if decide (is_Some (db_jobs db !! cj_ID a)) then inl (ErrConstraint "jobs_pkey")
        else if decide (db_runs db !! cj_RunID a = None) then inl (ErrConstraint "jobs_run_id_fkey")
        else if decide (db_repos db !! cj_RepoID a = None) then inl (ErrConstraint "jobs_repo_id_fkey")
        else match cj_NextID a with
             | Some n => if decide (db_jobs db !! n = None)
                         then inl (ErrConstraint "jobs_next_id_fkey")
                         else inr (new_job a meta, set_db_jobs (<[cj_ID a := new_job a meta]> (db_jobs db)) db)
             | None => inr (new_job a meta, set_db_jobs (<[cj_ID a := new_job a meta]> (db_jobs db)) db)
             end
    end).

Definition GetJob (id : string) : M Job :=
  query_one (λ _ db, inr (db_jobs db !! id, db)).

Definition ListJobsByRun (runID : string) : M (list Job) :=
  query (λ db, select (λ j, bool_decide (job_RunID j = runID)) by_attempt_id (db_jobs db)).

Definition of_attempt (runID : string) (attempt : Z) (j : Job) : bool :=
  bool_decide (job_RunID j = runID) && bool_decide (job_Attempt j = attempt).

Definition attempt_jobs (db : DB) (runID : string) (attempt : Z) : list Job :=
  select (of_attempt runID attempt) by_id (db_jobs db).

Definition ListJobsByRunAttempt (runID : string) (attempt : Z) : M (list Job) :=
  query (λ db, attempt_jobs db runID attempt).

(** A running job whose node is missing, or has not been heard of since
    [cutoff]. *)
Definition stale_running (db : DB) (cutoff : Z) (j : Job) : bool :=
  bool_decide (job_Status j = JobStatusRunning) &&
  match job_NodeID j with
  | None => true
  | Some n => match db_nodes db !! n with
              | None => true
              | Some nd => match node_LastHeartbeat nd with
                           | None => true
                           | Some hb => bool_decide (hb < cutoff)%Z
                           end
              end
  end.

Record StaleRow := mkStaleRow { st_RunID : string; st_Attempt : Z; st_RunningJobs : Z }.

(** [GROUP BY run_id, attempt ORDER BY run_id, attempt]: one row per maximal
    block of equal keys of the sorted rows. *)
Fixpoint group_stale (l : list Job) : list StaleRow :=
  match l with
  | [] => []
  | j :: l' =>
      match group_stale l' with
      | g :: gs => if bool_decide (st_RunID g = job_RunID j) && bool_decide (st_Attempt g = job_Attempt j)
                   then mkStaleRow (st_RunID g) (st_Attempt g) (st_RunningJobs g + 1) :: gs
                   else mkStaleRow (job_RunID j) (job_Attempt j) 1 :: g :: gs
      | [] => [mkStaleRow (job_RunID j) (job_Attempt j) 1]
      end
  end.

Definition stale_rows (db : DB) (cutoff : Z) : list StaleRow :=
  group_stale (select (stale_running db cutoff) by_run_attempt_id (db_jobs db)).

Definition ListStaleRunningJobs (cutoff : Z) : M (list StaleRow) :=
  query (λ db, stale_rows db cutoff).

(** [COUNT(DISTINCT jobs.node_id)] over the inner join with [nodes]. *)
Definition stale_node_count (db : DB) (cutoff : Z) : Z :=
  Z.of_nat (size (list_to_set (C := gset string)
    (omap (λ j, match job_NodeID j with
                | Some n => match db_nodes db !! n with
                            | Some _ => if stale_running db cutoff j then Some n else None
                            | None => None
                            end
                | None => None
                end) (rows (db_jobs db))))).

Definition CountStaleNodesWithRunningJobs (cutoff : Z) : M Z :=
  query (λ db, stale_node_count db cutoff).

(** The predecessor test of [PromoteJobByIDIfUnblocked]. *)
Definition blocked (db : DB) (id : string) : bool :=
  existsb (λ p, bool_decide (job_NextID p = Some id) &&
                negb (bool_decide (job_Status p = JobStatusSuccess))) (rows (db_jobs db)).

Definition PromoteJobByIDIfUnblocked (id : string) : M Job :=
  query_one (λ env db,
    match db_jobs db !! id with
    | Some j =>
        if decide (job_Status j = JobStatusCreated ∧ blocked db id = false ∧ id ∉ env_locked env)
        then let j' := set_job_Status JobStatusQueued j in
             inr (Some j', set_db_jobs (<[id := j']> (db_jobs db)) db)
        else inr (None, db)
    | None => inr (None, db)
    end).

(** A resumed run keeps its node when a claim is reverted. *)
Definition unclaim_row (keep : bool) (j : Job) : Job :=
  set_job_Status JobStatusQueued
    (set_job_NodeID (if keep then job_NodeID j else None) (set_job_StartedAt None j)).

Definition UnclaimJob_query (id nodeID : string) : M unit :=
  stmt (λ env db,
    match db_nodes db !! nodeID, db_jobs db !! id with
    | Some _, Some j =>
        if decide (nodeID ≠ "" ∧ job_NodeID j = Some nodeID ∧ job_Status j = JobStatusRunning) then
          let resumed : option bool :=
            match db_runs db !! job_RunID j with
            | None => Some false
            | Some r => (λ c, bool_decide (0 < c)%Z) <$> sql_resume_count (run_Stats r)
            end in
          match resumed with
          | None => inl (ErrConstraint "invalid input syntax for type integer")
          | Some keep =>
              inr (tt, set_db_jobs (<[id := unclaim_row keep j]> (db_jobs db)) db)
          end
        else inr (tt, db)
    | _, _ => inr (tt, db)
    end).

Definition complete_row (status : JobStatus) (exit : option Z) (shaOut : string) (now : Z)
    (meta : option json) (j : Job) : Job :=
  let out := if decide (shaOut = "") then job_RepoShaOut j else shaOut in
  let out8 := if decide (shaOut = "") then job_RepoShaOut8 j else take8 shaOut in
  set_job_Meta (coalesce meta (job_Meta j))
    (set_job_Status status (set_job_ExitCode exit
      (set_job_RepoShaOut out (set_job_RepoShaOut8 out8
        (set_job_FinishedAt (Some now)
          (set_job_DurationMs
            (match job_StartedAt j with None => 0 | Some st => epoch_ms (now - st) end)%Z j)))))).

(** The second [UPDATE]: hand the output SHA to the successor. *)
Definition feed_row (shaOut : string) (n : Job) : Job :=
  if decide (shaOut = "") then n
  else set_job_RepoShaIn shaOut (set_job_RepoShaIn8 (take8 shaOut) n).

(** [UpdateJobCompletion] and, with [meta], [UpdateJobCompletionWithMeta]. The
    row check on [duration_ms] rejects a completion dated before the start. *)
Definition complete_stmt (id : string) (status : JobStatus) (exit : option Z)
    (shaOut : string) (meta : option json) : Env → DB → Err + unit * DB := λ env db,
  match db_jobs db !! id with
  | None => inr (tt, db)
  | Some j =>
      let j' := complete_row status exit shaOut (env_now env) meta j in
      if decide (job_DurationMs j' < 0)%Z then inl (ErrConstraint "jobs_duration_ms_check")
      else
        let jobs1 := <[id := j']> (db_jobs db) in
        let jobs2 :=
          match job_NextID j with
          | Some n => if decide (n = id) then jobs1 else alter (feed_row (job_RepoShaOut j')) n jobs1
          | None => jobs1
          end in
        inr (tt, set_db_jobs jobs2 db)
  end.

Definition UpdateJobCompletion (id : string) (status : JobStatus) (exit : option Z)
    (shaOut : string) : M unit := stmt (complete_stmt id status exit shaOut None).

Definition UpdateJobCompletionWithMeta_query (id : string) (status : JobStatus)
    (exit : option Z) (shaOut : string) (meta : json) : M unit :=
  stmt (complete_stmt id status exit shaOut (Some meta)).

Definition status_row (status : JobStatus) (startedAt finishedAt : option Z) (durationMs : Z)
    (now : Z) (j : Job) : Job :=
  set_job_Status status
    (set_job_StartedAt
      (if decide (status = JobStatusRunning)
       then match job_StartedAt j with None => Some now | Some st => Some st end
       else startedAt)
      (set_job_FinishedAt finishedAt (set_job_DurationMs durationMs j))).

Definition UpdateJobStatus (id : string) (status : JobStatus) (startedAt finishedAt : option Z)
    (durationMs : Z) : M unit :=
  stmt (λ env db,
    match db_jobs db !! id with
    | None => inr (tt, db)
    | Some j =>
        if decide (durationMs < 0)%Z then inl (ErrConstraint "jobs_duration_ms_check")
        else inr (tt, set_db_jobs
               (<[id := status_row status startedAt finishedAt durationMs (env_now env) j]>
                  (db_jobs db)) db)
    end).

Definition UpdateJobImageName (id image : string) : M unit :=
  exec (λ _ db, set_db_jobs (alter (set_job_JobImage image) id (db_jobs db)) db).

(** ** runs.sql *)

Definition active_of_wave (waveID : string) (r : Run) : bool :=
  bool_decide (run_WaveID r = waveID) && active_run (run_Status r).

Definition cancel_run_row (now : Z) (r : Run) : Run :=
  set_run_Status RunStatusCancelled
    (set_run_FinishedAt (Some (coalesce (run_FinishedAt r) now)) r).

Definition CancelActiveRunsByWave (waveID : string) : M Z :=
  stmt (λ env db,
    inr (affected (active_of_wave waveID) (db_runs db),
         set_db_runs (update (active_of_wave waveID) (cancel_run_row (env_now env)) (db_runs db)) db)).

Record CountRow := mkCountRow { cr_Status : RunStatus; cr_Count : Z }.

Definition count_of (db : DB) (waveID : string) (s : RunStatus) : Z :=
  affected (λ r, bool_decide (run_WaveID r = waveID) && bool_decide (run_Status r = s)) (db_runs db).

(** [GROUP BY status]: one row per status that occurs. *)
Definition count_rows (db : DB) (waveID : string) : list CountRow :=
  omap (λ s, let c := count_of db waveID s in
             if bool_decide (0 < c)%Z then Some (mkCountRow s c) else None) members.

Definition CountRunsByWaveStatus (waveID : string) : M (list CountRow) :=
  query (λ db, count_rows db waveID).

Definition GetRun (id : string) : M Run := query_one (λ _ db, inr (db_runs db !! id, db)).

(** The row lock has no effect on a serial execution. *)
Definition GetRunForUpdate (id : string) : M Run := GetRun id.

Definition HasRunningJobForRunNode (runID nodeID : string) : M bool :=
  query (λ db, existsb (λ j, bool_decide (job_RunID j = runID) &&
                             bool_decide (job_NodeID j = Some nodeID) &&
                             bool_decide (job_Status j = JobStatusRunning)) (rows (db_jobs db))).

Definition wave_runs (db : DB) (waveID : string) : list Run :=
  select (λ r, bool_decide (run_WaveID r = waveID)) by_created_id (db_runs db).

Definition ListRunsByWave (waveID : string) : M (list Run) :=
  query (λ db, wave_runs db waveID).

Definition UpdateRunError (id : string) (lastError : option string) : M unit :=
  exec (λ _ db, set_db_runs (alter (set_run_LastError lastError) id (db_runs db)) db).

Definition run_status_row (status : RunStatus) (now : Z) (r : Run) : Run :=
  set_run_Status status
    (set_run_StartedAt
      (if decide (status = RunStatusRunning ∧ run_StartedAt r = None) then Some now
       else run_StartedAt r)
      (set_run_FinishedAt
        (match status with
         | RunStatusSuccess | RunStatusFail | RunStatusCancelled =>
             Some (coalesce (run_FinishedAt r) now)
         | _ => run_FinishedAt r
         end) r)).

Definition UpdateRunStatus (id : string) (status : RunStatus) : M unit :=
  exec (λ env db,
    set_db_runs (alter (run_status_row status (env_now env)) id (db_runs db)) db).

(** ** waves.sql *)

Record CreateWaveParams := mkCreateWaveParams {
  cw_ID : string; cw_MigID : string; cw_SpecID : string; cw_CreatedBy : option string
}.

Definition new_wave (a : CreateWaveParams) (now : Z) : Wave := {|
  wave_ID := cw_ID a; wave_MigID := cw_MigID a; wave_SpecID := cw_SpecID a;
  wave_CreatedBy := cw_CreatedBy a; wave_Status := WaveStatusStarted;
  wave_CreatedAt := now; wave_StartedAt := Some now; wave_FinishedAt := None;
  wave_Stats := jempty |}.

Definition CreateWave (a : CreateWaveParams) : M Wave :=
  stmt (λ env db,
    if decide (is_Some (db_waves db !! cw_ID a)) then inl (ErrConstraint "waves_pkey")
    else if decide (db_migs db !! cw_MigID a = None) then inl (ErrConstraint "waves_mig_id_fkey")
    else if decide (db_specs db !! cw_SpecID a = None) then inl (ErrConstraint "waves_spec_id_fkey")
    else let w := new_wave a (env_now env) in
         inr (w, set_db_waves (<[cw_ID a := w]> (db_waves db)) db)).

Definition GetWave (id : string) : M Wave := query_one (λ _ db, inr (db_waves db !! id, db)).

Definition wave_status_row (status : WaveStatus) (now : Z) (w : Wave) : Wave :=
  set_wave_Status status
    (set_wave_FinishedAt
      (match status with
       | WaveStatusCancelled | WaveStatusFinished => Some (coalesce (wave_FinishedAt w) now)
       | WaveStatusStarted => None
       end) w).

Definition UpdateWaveStatus (id : string) (status : WaveStatus) : M unit :=
  exec (λ env db,
    set_db_waves (alter (wave_status_row status (env_now env)) id (db_waves db)) db).

(** ** nodes.sql, job_metrics.sql, repos.sql, specs.sql *)

Record CreateNodeParams := mkCreateNodeParams {
  cn_ID : string; cn_Name : string; cn_IpAddress : string; cn_Version : option string;
  cn_Concurrency : Z
}.

Definition new_node (a : CreateNodeParams) (now : Z) : Node := {|
  node_ID := cn_ID a; node_Name := cn_Name a; node_IpAddress := cn_IpAddress a;
  node_Version := cn_Version a; node_Concurrency := cn_Concurrency a;
  node_CpuTotalMillis := 0; node_CpuFreeMillis := 0; node_MemTotalBytes := 0;
  node_MemFreeBytes := 0; node_DiskTotalBytes := 0; node_DiskFreeBytes := 0;
  node_Drained := false; node_DrainRevision := 0; node_CertSerial := None;
  node_CertFingerprint := None; node_CertNotBefore := None; node_CertNotAfter := None;
  node_LastHeartbeat := None; node_CreatedAt := now |}.

(** Unique constraints of [nodes]: the key, [UNIQUE (name)], [UNIQUE (ip_address)]. *)
Definition CreateNode (a : CreateNodeParams) : M Node :=
  stmt (λ env db,
    if decide (is_Some (db_nodes db !! cn_ID a)) then inl (ErrConstraint "nodes_pkey")
    else if existsb (λ n, bool_decide (node_Name n = cn_Name a)) (rows (db_nodes db))
    then inl (ErrConstraint "nodes_name_key")
    else if existsb (λ n, bool_decide (node_IpAddress n = cn_IpAddress a)) (rows (db_nodes db))
    then inl (ErrConstraint "nodes_ip_address_key")
    else if decide (cn_Concurrency a < 1)%Z then inl (ErrConstraint "nodes_concurrency_check")
    else let n := new_node a (env_now env) in
         inr (n, set_db_nodes (<[cn_ID a := n]> (db_nodes db)) db)).

Definition GetNode (id : string) : M Node := query_one (λ _ db, inr (db_nodes db !! id, db)).

Definition UpdateNodeCertMetadata (id serial fingerprint : string) (notBefore notAfter : Z) : M unit :=
  exec (λ _ db, set_db_nodes (alter (λ n,
    set_node_CertSerial (Some serial) (set_node_CertFingerprint (Some fingerprint)
      (set_node_CertNotBefore (Some notBefore) (set_node_CertNotAfter (Some notAfter) n))))
    id (db_nodes db)) db).

(** The drain flag with its optimistic revision check. *)
Definition UpdateNodeDrained (drained : bool) (id : string) (expected : option Z) : M Node :=
  query_one (λ _ db,
    match db_nodes db !! id with
    | Some n =>
        if match expected with
           | None => true
           | Some rev => bool_decide (node_DrainRevision n = rev ∧ node_Drained n ≠ drained)
           end
        then if decide (max_int64 < node_DrainRevision n + 1)%Z
             then inl (ErrConstraint "bigint out of range")
             else let n' := set_node_Drained drained
                              (set_node_DrainRevision (node_DrainRevision n + 1)%Z n) in
                  inr (Some n', set_db_nodes (<[id := n']> (db_nodes db)) db)
        else inr (None, db)
    | None => inr (None, db)
    end).

Definition UpsertJobMetric (m : JobMetric) : M unit :=
  stmt (λ _ db,
    if decide (jm_CpuConsumedNs m < 0 ∨ jm_DiskConsumedBytes m < 0 ∨ jm_MemConsumedBytes m < 0)%Z
    then inl (ErrConstraint "job_metrics_check")
    else if decide (db_nodes db !! jm_NodeID m = None) then inl (ErrConstraint "job_metrics_node_id_fkey")
    else if decide (db_jobs db !! jm_JobID m = None) then inl (ErrConstraint "job_metrics_job_id_fkey")
    else inr (tt, set_db_job_metrics (<[jm_JobID m := m]> (db_job_metrics db)) db)).

Definition GetRepo (id : string) : M Repo := query_one (λ _ db, inr (db_repos db !! id, db)).

Definition GetSpec (id : string) : M SpecRow := query_one (λ _ db, inr (db_specs db !! id, db)).

Definition DeleteSBOMRowsByJob (jobID : string) : M unit :=
  exec (λ _ db, set_db_sboms (filter (λ s, sbom_JobID s ≠ jobID) (db_sboms db)) db).

Definition delete_logs (jobID : string) : M unit :=
  exec (λ _ db, set_db_logs (filter (λ l, log_JobID l ≠ Some jobID) (db_logs db)) db).

Definition delete_metrics (jobID : string) : M unit :=
  exec (λ _ db, set_db_job_metrics (delete jobID (db_job_metrics db)) db).

(** Every query is a statement, or one followed by a test for a row. *)
Lemma query_one_behaved {A} inside env (f : Env → DB → Err + option A * DB) :
  behaved inside env (query_one f).
Proof. unfold query_one. behave. Qed.

End Queries.

Ltac query_behaved := first [apply behaved_stmt | apply query_one_behaved].
#[export] Hint Extern 5 (behaved _ _ _) => query_behaved : behaved.
