(* ===== verification/JobChain.v ===== *)
(** * Reconstruction of a job chain ([internal/workflow/jobchain/order.go])

    [Order] turns an unordered set of jobs with successor pointers into the
    order the pointers describe. The loop of [walkChain] is a fixpoint on a fuel
    of [length items], which is enough: every round visits an identifier that was
    not visited before ([walk_fuel]). *)

From S2P Require Import Prelude GoStrings Types.
From stdpp Require Import base gmap sets list sorting strings.
From Stdlib Require Import Lia.

Section Order.
Context {T : Type} (idOf : T → string) (nextOf : T → option string).

Definition itemByID (items : list T) : gmap string T :=
  foldl (λ m x, <[idOf x := x]> m) ∅ items.

(** The successor the second loop records: a non-blank pointer to a present
    item. *)
Definition known_next (m : gmap string T) (x : T) : option string :=
  match nextOf x with
  | None => None
  | Some n => if IsZero n then None
              else match m !! n with None => None | Some _ => Some n end
  end.

Definition predecessors (m : gmap string T) (items : list T) : gmap string nat :=
  foldl (λ p x, match known_next m x with
                | None => p
                | Some n => <[n := S (default 0 (p !! n))]> p
                end)
    (foldl (λ p x, <[idOf x := 0]> p) ∅ items) items.

Definition nextByID (m : gmap string T) (items : list T) : gmap string string :=
  foldl (λ p x, match known_next m x with
                | None => p
                | Some n => <[idOf x := n]> p
                end) ∅ items.

Definition sortJobIDs (ids : list string) : list string := merge_sort String.le ids.

Definition heads (items : list T) : list string :=
  let m := itemByID items in
  sortJobIDs (filter (λ i, default 0 (predecessors m items !! i) = 0) (idOf <$> items)).

(** [walkChain]: the set of visited ids and the output grow together. *)
Fixpoint walkChain (m : gmap string T) (nx : gmap string string) (fuel : nat)
    (current : string) (st : gset string * list T) : gset string * list T :=
  match fuel with
  | O => st
  | S fuel' =>
      let '(visited, out) := st in
      if decide (current ∈ visited) then st
      else match m !! current with
           | None => st
           | Some item =>
               let st' := ({[current]} ∪ visited, out ++ [item]) in
               match nx !! current with
               | None => st'
               | Some n => walkChain m nx fuel' n st'
               end
           end
  end.

Definition walk_all (m : gmap string T) (nx : gmap string string) (fuel : nat)
    (starts : list string) (st : gset string * list T) : gset string * list T :=
  foldl (λ st s, walkChain m nx fuel s st) st starts.

Definition Order (items : list T) : list T :=
  match items with
  | [] | [_] => items
  | _ =>
      let m := itemByID items in
      let nx := nextByID m items in
      let fuel := length items in
      let '(visited, out) := walk_all m nx fuel (heads items) (∅, []) in
      if decide (length out = length items) then out
      else
        let remaining := sortJobIDs (filter (λ i, i ∉ visited) (idOf <$> items)) in
        snd (walk_all m nx fuel remaining (visited, out))
  end.

(** ** The maps built by the loops *)

Lemma itemByID_spec items :
  NoDup (idOf <$> items) →
  (∀ i x, itemByID items !! i = Some x ↔ x ∈ items ∧ idOf x = i).
Proof.
  intros Hnd. unfold itemByID.
  cut (∀ m : gmap string T, NoDup (idOf <$> items) →
    (∀ i x, foldl (λ (m : gmap string T) x, <[idOf x := x]> m) m items !! i = Some x ↔
       (x ∈ items ∧ idOf x = i) ∨ (m !! i = Some x ∧ i ∉ idOf <$> items))).
  { intros Hg i x. rewrite Hg by done. rewrite lookup_empty. naive_solver. }
  clear Hnd. induction items as [|y items IH]; intros m Hnd i x; simpl; [set_solver|].
  apply NoDup_cons in Hnd as [Hy Hnd]. rewrite IH by done.
  destruct (decide (i = idOf y)) as [->|Hne].
  - rewrite lookup_insert_eq. split.
    + intros [[Hx Hi]|[[= ->] Hn]]; left; set_solver.
    + intros [[[->|Hx]%elem_of_cons Hi]|[Hm Hn]]; [by right|by left|set_solver].
  - rewrite lookup_insert_ne by done. set_solver.
Qed.

Lemma itemByID_dom items i : is_Some (itemByID items !! i) ↔ i ∈ idOf <$> items.
Proof.
  unfold itemByID.
  cut (∀ m : gmap string T, is_Some (foldl (λ (m : gmap string T) x, <[idOf x := x]> m) m items !! i) ↔
            i ∈ idOf <$> items ∨ is_Some (m !! i)).
  { intros ->. rewrite lookup_empty. split; [|auto]. intros [?|[? ?]]; done. }
  induction items as [|y items IH]; intros m; simpl.
  { rewrite elem_of_nil. tauto. }
  rewrite IH, lookup_insert_is_Some, elem_of_cons.
  destruct (decide (i = idOf y)); naive_solver.
Qed.

Lemma known_next_Some m x n :
  known_next m x = Some n ↔ nextOf x = Some n ∧ IsZero n = false ∧ is_Some (m !! n).
Proof.
  unfold known_next. split.
  - destruct (nextOf x) as [n'|]; [|done]. destruct (IsZero n') eqn:E; [done|].
    destruct (m !! n') eqn:Em; [|done]. intros [= <-]. eauto.
  - intros (-> & -> & [y ->]). done.
Qed.

Section Maps.
Context (m : gmap string T).

Lemma nextByID_spec items x :
  NoDup (idOf <$> items) → x ∈ items → nextByID m items !! idOf x = known_next m x.
Proof.
  unfold nextByID.
  cut (∀ (p : gmap string string) l, NoDup (idOf <$> l) →
    ∀ i, foldl (λ (p : gmap string string) x, match known_next m x with None => p | Some n => <[idOf x := n]> p end) p l !! i
         = match list_find (λ x, idOf x = i) l with
           | Some (_, x) => match known_next m x with Some n => Some n | None => p !! i end
           | None => p !! i
           end).
  { intros Hg Hnd Hx. rewrite Hg by done.
    destruct (list_find (λ y, idOf y = idOf x) items) as [[k y]|] eqn:E.
    - apply list_find_Some in E as (Hk & Hid & _).
      replace y with x; [destruct (known_next m x); done|].
      apply list_elem_of_lookup in Hx as [k' Hk'].
      assert (k' = k) as ->; [|congruence].
      eapply NoDup_lookup; [exact Hnd|by rewrite list_lookup_fmap, Hk'|].
      rewrite list_lookup_fmap, Hk. simpl. by rewrite Hid.
    - eapply list_find_None, Forall_forall in E; [|exact Hx]. done. }
  intros p l; revert p; induction l as [|y l IH]; intros p Hnd i; simpl; [done|].
  apply NoDup_cons in Hnd as [Hy Hnd]. rewrite IH by done.
  destruct (decide (idOf y = i)) as [<-|Hne]; simpl.
  - destruct (list_find (λ x, idOf x = idOf y) l) as [[k z]|] eqn:E.
    { apply list_find_Some in E as (Hk & Hid & _). destruct Hy.
      rewrite <-Hid. apply list_elem_of_fmap. exists z. split; [done|].
      by eapply list_elem_of_lookup_2. }
    destruct (known_next m y); [by rewrite lookup_insert_eq|done].
  - destruct (list_find (λ x, idOf x = i) l) as [[k z]|] eqn:E; simpl;
      destruct (known_next m y); rewrite ?lookup_insert_ne by done; done.
Qed.

(** An id that no item points to has no predecessor, and conversely. *)
Lemma predecessors_zero items i :
  default 0 (predecessors m items !! i) = 0 ↔ ∀ x, x ∈ items → known_next m x ≠ Some i.
Proof.
  unfold predecessors.
  set (p0 := foldl (λ (p : gmap string nat) x, <[idOf x := 0]> p) ∅ items).
  assert (H0 : default 0 (p0 !! i) = 0).
  { unfold p0. cut (∀ (q : gmap string nat) l, default 0 (q !! i) = 0 →
      default 0 (foldl (λ (p : gmap string nat) x, <[idOf x := 0]> p) q l !! i) = 0); [auto|].
    intros q l; revert q; induction l as [|y l IH]; intros q Hq; simpl; [done|].
    apply IH. rewrite lookup_insert. by case_decide. }
  clearbody p0. revert p0 H0. induction items as [|y l IH]; intros p H0; simpl; [set_solver|].
  set (p1 := match known_next m y with None => p | Some n => _ end).
  destruct (decide (known_next m y = Some i)) as [E|E].
  - split; [|set_solver]. intros Hz. exfalso.
    assert (Hp1 : default 0 (p1 !! i) > 0)
      by (unfold p1; rewrite E, lookup_insert_eq; simpl; lia).
    clearbody p1. clear IH E. revert p1 Hp1 Hz.
    induction l as [|z l IH]; intros p1 Hp1 Hz; simpl in *; [lia|].
    eapply IH; [|exact Hz]. destruct (known_next m z); [|done].
    rewrite lookup_insert. case_decide; simpl; [lia|done].
  - rewrite IH; [set_solver|]. unfold p1. destruct (known_next m y); [|done].
    rewrite lookup_insert_ne; [done|congruence].
Qed.

End Maps.

(** ** Walking *)

Section Walk.
Context (m : gmap string T) (nx : gmap string string).
Context (Hm : ∀ i x, m !! i = Some x → idOf x = i).

(** What the walks maintain: the output lists the visited items once each. *)
Definition walk_inv (st : gset string * list T) : Prop :=
  NoDup (idOf <$> st.2) ∧ (∀ i, i ∈ st.1 ↔ i ∈ idOf <$> st.2) ∧
  Forall (λ x, m !! idOf x = Some x) st.2.

Lemma walk_inv_step current visited out item :
  walk_inv (visited, out) → current ∉ visited → m !! current = Some item →
  walk_inv ({[current]} ∪ visited, out ++ [item]).
Proof.
  intros (Hnd & Hv & Hf) Hc Hi. pose proof (Hm _ _ Hi) as Hid. unfold walk_inv in *; simpl in *.
  rewrite fmap_app, NoDup_app. simpl. split_and!.
  - done.
  - intros x Hx ->%list_elem_of_singleton. apply Hv in Hx. congruence.
  - apply NoDup_singleton.
  - intros i. rewrite elem_of_union, elem_of_singleton, elem_of_app, list_elem_of_singleton, Hv.
    rewrite Hid. tauto.
  - apply Forall_app. split; [done|]. repeat constructor. by rewrite Hid.
Qed.

Lemma walk_keeps fuel current st :
  walk_inv st →
  walk_inv (walkChain m nx fuel current st) ∧
  st.1 ⊆ (walkChain m nx fuel current st).1 ∧
  (0 < fuel → is_Some (m !! current) → current ∈ (walkChain m nx fuel current st).1).
Proof.
  revert current st; induction fuel as [|fuel IH]; intros current [visited out] Hinv; simpl.
  { split_and!; [done|done|lia]. }
  destruct (decide (current ∈ visited)) as [Hc|Hc]; [by split_and!|].
  destruct (m !! current) as [item|] eqn:Hi; [|split_and!; [done|done|by intros _ [? ?]]].
  pose proof (walk_inv_step _ _ _ _ Hinv Hc Hi) as Hinv'.
  destruct (nx !! current) as [n|]; [|simpl; split_and!; [done|set_solver|set_solver]].
  destruct (IH n _ Hinv') as (H1 & H2 & _). simpl in H2. split_and!; [done|set_solver|set_solver].
Qed.

(** More fuel than unvisited items changes nothing. *)
Lemma walk_fuel fuel k current visited out :
  walk_inv (visited, out) → size (dom m ∖ visited) ≤ fuel →
  walkChain m nx (fuel + k) current (visited, out) = walkChain m nx fuel current (visited, out).
Proof.
  revert current visited out; induction fuel as [|fuel IH]; intros current visited out Hinv Hs.
  - simpl. destruct k as [|k]; [done|]. simpl.
    destruct (decide (current ∈ visited)) as [|Hc]; [done|].
    destruct (m !! current) as [item|] eqn:Hi; [|done]. exfalso.
    assert (current ∈ dom m ∖ visited).
    { apply elem_of_difference. split; [by apply elem_of_dom_2 in Hi|done]. }
    assert (size (dom m ∖ visited) ≠ 0); [|lia].
    apply size_non_empty_iff. set_solver.
  - simpl. destruct (decide (current ∈ visited)) as [|Hc]; [done|].
    destruct (m !! current) as [item|] eqn:Hi; [|done].
    destruct (nx !! current) as [n|]; [|done].
    apply IH; [by apply walk_inv_step|].
    assert (current ∈ dom m ∖ visited).
    { apply elem_of_difference. split; [by apply elem_of_dom_2 in Hi|done]. }
    assert (size (dom m ∖ ({[current]} ∪ visited)) < size (dom m ∖ visited)); [|lia].
    apply subset_size. set_solver.
Qed.

Lemma walk_all_keeps fuel starts st :
  walk_inv st → 0 < fuel → Forall (λ s, is_Some (m !! s)) starts →
  walk_inv (walk_all m nx fuel starts st) ∧
  st.1 ⊆ (walk_all m nx fuel starts st).1 ∧
  (∀ s, s ∈ starts → s ∈ (walk_all m nx fuel starts st).1).
Proof.
  intros Hinv Hf Hs. revert st Hinv; induction Hs as [|s starts Hs1 Hs IH]; intros st Hinv; simpl.
  { split_and!; [done|done|set_solver]. }
  destruct (walk_keeps fuel s st Hinv) as (H1 & H2 & H3).
  destruct (IH _ H1) as (H4 & H5 & H6). split_and!; [done|set_solver|set_solver].
Qed.

End Walk.

(** ** Correctness *)

Lemma sortJobIDs_perm ids : sortJobIDs ids ≡ₚ ids.
Proof. apply merge_sort_Permutation. Qed.

Lemma walked_perm items out visited :
  NoDup (idOf <$> items) → walk_inv (itemByID items) (visited, out) →
  (∀ i, i ∈ idOf <$> items → i ∈ visited) ∨ length out = length items → out ≡ₚ items.
Proof.
  intros Hnd (Hn & Hv & Hf) Hall. simpl in *.
  assert (Hsub : ∀ x, x ∈ out → x ∈ items).
  { intros x Hx. rewrite Forall_forall in Hf. specialize (Hf _ Hx).
    by apply itemByID_spec in Hf as [? _]. }
  apply NoDup_fmap_1 in Hn as Hno. apply NoDup_fmap_1 in Hnd as Hni.
  destruct Hall as [Hall|Hlen].
  - apply NoDup_Permutation; [done|done|]. intros x. split; [auto|]. intros Hx.
    assert (Hi : idOf x ∈ idOf <$> out).
    { apply Hv, Hall, list_elem_of_fmap. eauto. }
    apply list_elem_of_fmap in Hi as (y & Hy & Hyo).
    rewrite Forall_forall in Hf. specialize (Hf _ Hyo). rewrite <-Hy in Hf.
    apply itemByID_spec in Hf as [Hyi _]; [|done].
    assert (itemByID items !! idOf x = Some x) by (by apply itemByID_spec).
    assert (itemByID items !! idOf x = Some y) by (apply itemByID_spec; [done|eauto]).
    by simplify_eq.
  - assert (Hs : out ⊆+ items) by (apply NoDup_submseteq; auto).
    apply submseteq_length_Permutation in Hs; [done|lia].
Qed.

(** The result holds every job exactly once, in whatever shape the pointers
    are. *)
Lemma Order_perm items : NoDup (idOf <$> items) → Order items ≡ₚ items.
Proof.
  intros Hnd. unfold Order. destruct items as [|x [|y items]]; [done|done|].
  set (l := x :: y :: items) in *.
  assert (Hm : ∀ i z, itemByID l !! i = Some z → idOf z = i)
    by (intros i z Hz; by apply itemByID_spec in Hz as [_ ?]).
  assert (Hs : ∀ (P : string → Prop) `{!∀ i, Decision (P i)},
    Forall (λ s, is_Some (itemByID l !! s)) (sortJobIDs (filter P (idOf <$> l)))).
  { intros P ?. apply Forall_forall. intros s Hs. rewrite sortJobIDs_perm in Hs.
    apply list_elem_of_filter in Hs as [_ Hs]. by apply itemByID_dom. }
  assert (Hi0 : walk_inv (itemByID l) (∅, []))
    by (split_and!; simpl; [apply NoDup_nil_2|set_solver|done]).
  destruct (walk_all_keeps (itemByID l) (nextByID (itemByID l) l) Hm (length l) (heads l) (∅, []))
    as (Hi1 & _ & _); [done|simpl; lia|apply Hs|].
  destruct (walk_all (itemByID l) _ _ (heads l) (∅, [])) as [visited out].
  case_decide as Hlen; [by eapply walked_perm; eauto|].
  destruct (walk_all_keeps (itemByID l) (nextByID (itemByID l) l) Hm (length l)
    (sortJobIDs (filter (λ i, i ∉ visited) (idOf <$> l))) (visited, out))
    as (Hi2 & Hv2 & Hs2); [done|simpl; lia|apply Hs|].
  destruct (walk_all _ _ _ (sortJobIDs _) _) as [visited' out'] eqn:E2. simpl.
  eapply walked_perm; [done|exact Hi2|]. left. intros i Hi.
  destruct (decide (i ∈ visited)) as [Hv|Hv]; [by apply Hv2|].
  apply Hs2. rewrite sortJobIDs_perm. apply list_elem_of_filter. done.
Qed.

(** A list whose elements point to their successor and whose last points
    nowhere. *)
Definition linked (c : list T) : Prop :=
  ∀ k x, c !! k = Some x → nextOf x = idOf <$> (c !! S k).

Section Chain.
Context (items c : list T).
Context (Hperm : items ≡ₚ c) (Hlinked : linked c).
Context (Hnd : NoDup (idOf <$> c)) (Hnz : Forall (λ x, IsZero (idOf x) = false) c).

Lemma chain_items_nodup : NoDup (idOf <$> items).
Proof using Hperm Hnd. by rewrite Hperm. Qed.

Lemma chain_known k x :
  c !! k = Some x → known_next (itemByID items) x = idOf <$> (c !! S k).
Proof using Type*.
  intros Hx. destruct (c !! S k) as [y|] eqn:Hy; simpl.
  - apply known_next_Some. rewrite (Hlinked _ _ Hx), Hy. split_and!; [done| |].
    + rewrite Forall_forall in Hnz. apply Hnz. by eapply list_elem_of_lookup_2.
    + apply itemByID_dom. rewrite Hperm. apply list_elem_of_fmap. exists y.
      split; [done|]. by eapply list_elem_of_lookup_2.
  - unfold known_next. by rewrite (Hlinked _ _ Hx), Hy.
Qed.

Lemma chain_heads x c' : c = x :: c' → heads items = [idOf x].
Proof using Type*.
  intros Hc. unfold heads.
  set (P := λ i, default 0 (predecessors (itemByID items) items !! i) = 0).
  assert (Hf : filter P (idOf <$> items) ≡ₚ [idOf x]).
  { apply NoDup_Permutation.
    - apply NoDup_filter, chain_items_nodup.
    - apply NoDup_singleton.
    - intros i. rewrite list_elem_of_filter, list_elem_of_singleton. unfold P.
      rewrite predecessors_zero. split.
      + intros [Hz Hi]. rewrite Hperm in Hi. apply list_elem_of_fmap in Hi as (y & -> & Hy).
        apply list_elem_of_lookup in Hy as [[|k] Hk]; [by rewrite Hc in Hk; simplify_eq/=|].
        destruct (lookup_lt_is_Some_2 c k) as [z Hz']; [apply lookup_lt_Some in Hk; lia|].
        destruct (Hz z); [rewrite Hperm; by eapply list_elem_of_lookup_2|].
        by rewrite (chain_known _ _ Hz'), Hk.
      + intros ->. split; [|rewrite Hperm, Hc; left].
        intros z Hz. rewrite Hperm in Hz. apply list_elem_of_lookup in Hz as [k Hk].
        rewrite (chain_known _ _ Hk). destruct (c !! S k) as [y|] eqn:Hy; [|done].
        simpl. intros [= Heq].
        assert (0 = S k); [|done].
        eapply NoDup_lookup; [exact Hnd| |]; rewrite list_lookup_fmap;
          [rewrite Hc; done|rewrite Hy; simpl; by rewrite Heq]. }
  rewrite <-(merge_sort_Permutation String.le) in Hf. by apply Permutation_singleton_r in Hf.
Qed.

(** Walking from position [k] of the chain appends the rest of it. *)
Lemma chain_walk fuel k pre post :
  c = pre ++ post → length pre = k → length post ≤ fuel →
  ∀ x post', post = x :: post' →
  walkChain (itemByID items) (nextByID (itemByID items) items) fuel (idOf x)
    (list_to_set (idOf <$> pre), pre) = (list_to_set (idOf <$> c), c).
Proof using Type*.
  revert k pre post; induction fuel as [|fuel IH]; intros k pre post Hc Hk Hl x post' Hp;
    [subst; simpl in Hl; lia|].
  subst post. simpl.
  assert (Hx : c !! length pre = Some x) by (rewrite Hc, list_lookup_middle; done).
  assert (Hnx : idOf x ∉ (list_to_set (idOf <$> pre) : gset string)).
  { rewrite elem_of_list_to_set. intros Hin. rewrite Hc, fmap_app, NoDup_app in Hnd.
    destruct Hnd as (_ & Hd & _). apply (Hd _ Hin). left. }
  rewrite decide_False by done.
  assert (Hit : itemByID items !! idOf x = Some x).
  { apply itemByID_spec; [apply chain_items_nodup|]. rewrite Hperm. split; [|done].
    by eapply list_elem_of_lookup_2. }
  rewrite Hit, nextByID_spec, (chain_known _ _ Hx);
    [|apply chain_items_nodup|rewrite Hperm; by eapply list_elem_of_lookup_2].
  assert (Hset : {[idOf x]} ∪ list_to_set (idOf <$> pre) =
                 (list_to_set (idOf <$> (pre ++ [x])) : gset string)).
  { rewrite fmap_app, list_to_set_app_L. simpl. set_solver. }
  destruct post' as [|y post'].
  - rewrite (proj2 (lookup_ge_None _ _)); [simpl; by rewrite Hset, Hc|].
    rewrite Hc, length_app. simpl. lia.
  - assert (Hy : c !! S (length pre) = Some y).
    { rewrite Hc, lookup_app_r by lia. by replace (S (length pre) - length pre) with 1 by lia. }
    rewrite Hy, Hset. simpl.
    apply (IH (S k) (pre ++ [x]) (y :: post')) with (post' := post');
      [by rewrite <-app_assoc|rewrite length_app; simpl; lia|simpl in *; lia|done].
Qed.

(** A well-formed chain is reconstructed whatever the order of the rows. *)
Lemma Order_chain : Order items = c.
Proof using Type*.
  assert (c = [] ∨ ∃ x c', c = x :: c') as [Hc|(x & c' & Hc)] by (destruct c; eauto).
  { rewrite Hc in Hperm |- *. apply Permutation_nil_r in Hperm. by rewrite Hperm. }
  assert (items = [] ∨ (∃ y, items = [y]) ∨ ∃ y z l, items = y :: z :: l) as [Hi|[[y Hi]|(y & z & l & Hi)]]
    by (destruct items as [|y [|z l]]; eauto 6).
  - rewrite Hi in Hperm |- *. by apply Permutation_nil_l in Hperm.
  - rewrite Hi in Hperm |- *. by apply Permutation_singleton_l in Hperm.
  - unfold Order. rewrite Hi. cbv beta iota. rewrite <-Hi.
    rewrite (chain_heads _ _ Hc). simpl.
    pose proof (chain_walk (length items) 0 [] c eq_refl eq_refl) as Hw. simpl in Hw.
    rewrite Hw with (x := x) (post' := c'); [|by rewrite Hperm|done].
    by rewrite decide_True by (by rewrite Hperm).
Qed.

End Chain.
End Order.
