(* ===== verification/Lifecycle.v ===== *)
(** * Pure lifecycle decisions ([internal/workflow/lifecycle],
      [internal/server/recovery/reconcile_repo_attempt.go],
      [internal/server/handlers/run_counts.go])

    The functions that classify errors and exit codes, choose the chain action
    after a completion, and derive run and wave statuses. Counters are Go
    [int32]: additions wrap. *)

From S2P Require Import Prelude GoStrings Types Json Db Tx Queries.
From stdpp Require Import base gmap sets list sorting strings.
From Stdlib Require Import ZArith Lia.

(** ** Status of a finished execution *)

(** Go errors as [errors.Is] distinguishes them here. *)
Inductive GoErr := CtxCanceled | CtxDeadlineExceeded | OtherError | WrappedError (e : GoErr).

Fixpoint is_ctx_error (e : GoErr) : bool :=
  match e with
  | CtxCanceled | CtxDeadlineExceeded => true
  | OtherError => false
  | WrappedError e' => is_ctx_error e'
  end.

Definition JobStatusFromRunError (e : GoErr) : JobStatus :=
  if is_ctx_error e then JobStatusCancelled else JobStatusError.

Definition JobStatusFromExitCode (exitCode : Z) : JobStatus :=
  if decide (exitCode = 0)%Z then JobStatusSuccess
  else if decide (exitCode = 1)%Z then JobStatusFail
  else JobStatusError.

(** ** Chain action after a completion *)

Inductive CompletionChainAction :=
| CompletionChainNoAction | CompletionChainCancelRemainder | CompletionChainAdvanceNext.

Definition EvaluateCompletionDecision (s : JobStatus) (hasNext : bool) : CompletionChainAction :=
  match s with
  | JobStatusSuccess => if hasNext then CompletionChainAdvanceNext else CompletionChainNoAction
  | JobStatusFail | JobStatusError | JobStatusCancelled => CompletionChainCancelRemainder
  | _ => CompletionChainNoAction
  end.

(** ** Terminal statuses *)

Definition IsTerminalRunStatus (s : RunStatus) : bool :=
  match s with RunStatusSuccess | RunStatusFail | RunStatusCancelled => true | _ => false end.

Definition IsTerminalWaveStatus (s : WaveStatus) : bool :=
  match s with WaveStatusFinished | WaveStatusCancelled => true | WaveStatusStarted => false end.

(** ** Wave status from run counts *)

Definition wrap32 (z : Z) : Z := ((z + 2 ^ 31) mod 2 ^ 32 - 2 ^ 31)%Z.

Inductive DerivedStatus :=
| DerivedStatusPending | DerivedStatusRunning | DerivedStatusCompleted
| DerivedStatusFailed | DerivedStatusCancelled.

Record RunCounts := mkRunCounts {
  rc_Total : Z; rc_Queued : Z; rc_Running : Z; rc_Success : Z; rc_Fail : Z; rc_Cancelled : Z
}.

Definition DeriveWaveStatus (c : RunCounts) : DerivedStatus :=
  if decide (rc_Total c = 0)%Z then DerivedStatusPending
  else if decide (0 < rc_Cancelled c)%Z then DerivedStatusCancelled
  else if decide (0 < rc_Running c)%Z then DerivedStatusRunning
  else if decide (0 < rc_Fail c)%Z then DerivedStatusFailed
  else if decide (wrap32 (wrap32 (rc_Success c + rc_Fail c) + rc_Cancelled c) = rc_Total c)%Z
  then DerivedStatusCompleted
  else DerivedStatusPending.

Definition add_count (c : RunCounts) (r : CountRow) : RunCounts :=
  let c := mkRunCounts (wrap32 (rc_Total c + cr_Count r)) (rc_Queued c) (rc_Running c)
             (rc_Success c) (rc_Fail c) (rc_Cancelled c) in
  match cr_Status r with
  | RunStatusQueued => mkRunCounts (rc_Total c) (cr_Count r) (rc_Running c) (rc_Success c) (rc_Fail c) (rc_Cancelled c)
  | RunStatusRunning => mkRunCounts (rc_Total c) (rc_Queued c) (cr_Count r) (rc_Success c) (rc_Fail c) (rc_Cancelled c)
  | RunStatusSuccess => mkRunCounts (rc_Total c) (rc_Queued c) (rc_Running c) (cr_Count r) (rc_Fail c) (rc_Cancelled c)
  | RunStatusFail => mkRunCounts (rc_Total c) (rc_Queued c) (rc_Running c) (rc_Success c) (cr_Count r) (rc_Cancelled c)
  | RunStatusCancelled => mkRunCounts (rc_Total c) (rc_Queued c) (rc_Running c) (rc_Success c) (rc_Fail c) (cr_Count r)
  end.

Definition runCountsFromStatusRows (rs : list CountRow) : RunCounts * DerivedStatus :=
  let c := foldl add_count (mkRunCounts 0 0 0 0 0 0) rs in (c, DeriveWaveStatus c).

Record RunCompletionEval := mkRunCompletionEval {
  rce_ShouldFinish : bool; rce_RunState : option RunState
}.

(** The loop state of [EvaluateWaveCompletionFromRunCounts]. *)
Record WaveTally := mkWaveTally {
  wt_total : Z; wt_terminal : Z; wt_anyFail : bool; wt_anyCancelled : bool
}.

Definition tally_row (t : WaveTally) (r : CountRow) : WaveTally :=
  mkWaveTally
    (wrap32 (wt_total t + cr_Count r))
    (if IsTerminalRunStatus (cr_Status r) then wrap32 (wt_terminal t + cr_Count r) else wt_terminal t)
    (wt_anyFail t || (bool_decide (cr_Status r = RunStatusFail) && bool_decide (0 < cr_Count r)%Z))
    (wt_anyCancelled t || (bool_decide (cr_Status r = RunStatusCancelled) && bool_decide (0 < cr_Count r)%Z)).

Definition EvaluateWaveCompletionFromRunCounts (counts : list CountRow) : RunCompletionEval :=
  let t := foldl tally_row (mkWaveTally 0 0 false false) counts in
  if decide (wt_total t = 0 ∨ wt_terminal t < wt_total t)%Z
  then mkRunCompletionEval false None
  else mkRunCompletionEval true
    (Some (if wt_anyFail t then RunStateFailed
           else if wt_anyCancelled t then RunStateCancelled else RunStateSucceeded)).

(** ** Run status from the jobs of an attempt *)

Record RunAttemptReconcileEval := mkRunAttemptReconcileEval {
  rare_ShouldUpdate : bool;
  rare_Status : option RunStatus;
  rare_LastJob : option Job
}.

Record AttemptScan := mkAttemptScan {
  as_byNextIDMeta : option (Job * Z);
  as_bestTail : option Job;
  as_bestFallback : option Job
}.

(** [best == nil || job.ID > best.ID] *)
Definition later_id (best : option Job) (j : Job) : option Job :=
  match best with
  | None => Some j
  | Some b => if str_ltb (job_ID b) (job_ID j) then Some j else Some b
  end.

Definition scan_job (s : AttemptScan) (j : Job) : AttemptScan :=
  mkAttemptScan
    (match nextIDFromMeta (job_Meta j) with
     | None => as_byNextIDMeta s
     | Some n =>
         match as_byNextIDMeta s with
         | None => Some (j, n)
         | Some (b, mx) =>
             if decide (mx < n ∨ (n = mx ∧ str_ltb (job_ID b) (job_ID j) = true))%Z
             then Some (j, n) else Some (b, mx)
         end
     end)
    (match job_NextID j with
     | None => later_id (as_bestTail s) j
     | Some n => if IsZero n then later_id (as_bestTail s) j else as_bestTail s
     end)
    (later_id (as_bestFallback s) j).

(** The loop returns early at the first job that is not terminal. *)
Fixpoint scan_jobs (jobs : list Job) (s : AttemptScan) : option AttemptScan :=
  match jobs with
  | [] => Some s
  | j :: js => if terminal_job (job_Status j) then scan_jobs js (scan_job s j) else None
  end.

Definition run_status_of_job (s : JobStatus) : option RunStatus :=
  match s with
  | JobStatusSuccess => Some RunStatusSuccess
  | JobStatusFail | JobStatusError => Some RunStatusFail
  | JobStatusCancelled => Some RunStatusCancelled
  | _ => None
  end.

Definition last_job (s : AttemptScan) : option Job :=
  match as_byNextIDMeta s with
  | Some (j, _) => Some j
  | None => match as_bestTail s with Some j => Some j | None => as_bestFallback s end
  end.

(** [inl] is the "unexpected last job status" error. *)
Definition EvaluateRunAttemptTerminalStatus (jobs : list Job) :
    Err + RunAttemptReconcileEval :=
  match scan_jobs jobs (mkAttemptScan None None None) with
  | None => inr (mkRunAttemptReconcileEval false None None)
  | Some s =>
      match last_job s with
      | None => inr (mkRunAttemptReconcileEval false None None)
      | Some j =>
          match run_status_of_job (job_Status j) with
          | None => inl (ErrMsg "unexpected last job status")
          | Some rs => inr (mkRunAttemptReconcileEval true (Some rs) (Some j))
          end
      end
  end.

(** ** Facts *)

Lemma wrap32_id z : (- 2 ^ 31 ≤ z < 2 ^ 31)%Z → wrap32 z = z.
Proof. intros Hz. unfold wrap32. rewrite Z.mod_small; lia. Qed.

Lemma terminal_run_of_job s : terminal_job s = true ↔ is_Some (run_status_of_job s).
Proof. destruct s; simpl; split; intros; eauto; try done; by destruct H. Qed.

Lemma IsTerminalRunStatus_active s : IsTerminalRunStatus s = negb (active_run s).
Proof. by destruct s. Qed.

Section Scan.

Lemma scan_jobs_Some jobs s s' :
  scan_jobs jobs s = Some s' ↔
  Forall (λ j, terminal_job (job_Status j) = true) jobs ∧ s' = foldl scan_job s jobs.
Proof.
  revert s; induction jobs as [|j js IH]; intros s; simpl; [naive_solver|].
  rewrite Forall_cons. destruct (terminal_job (job_Status j)); [rewrite IH|]; naive_solver.
Qed.

Lemma later_id_Some b j : is_Some (later_id b j).
Proof. unfold later_id. repeat case_match; eauto. Qed.

Lemma later_id_in b j x : later_id b j = Some x → b = Some x ∨ x = j.
Proof. unfold later_id. repeat case_match; naive_solver. Qed.

(** Every job the scan keeps is one of the jobs scanned. *)
Lemma scan_in jobs s (P : Job → Prop) :
  Forall P jobs →
  (∀ j n, as_byNextIDMeta s = Some (j, n) → P j) →
  (∀ j, as_bestTail s = Some j → P j) → (∀ j, as_bestFallback s = Some j → P j) →
  ∀ j, last_job (foldl scan_job s jobs) = Some j → P j.
Proof.
  intros HP. revert s. induction HP as [|x jobs Hx HP IH]; intros s H1 H2 H3; simpl.
  { intros j. unfold last_job. repeat case_match; naive_solver. }
  apply IH; simpl.
  - intros j n. repeat case_match; naive_solver.
  - intros j. repeat case_match; auto; intros Hl; apply later_id_in in Hl as [?|Hl]; subst; auto.
  - intros j Hl. apply later_id_in in Hl as [?|Hl]; subst; auto.
Qed.

Lemma scan_fallback jobs s :
  is_Some (as_bestFallback s) ∨ jobs ≠ [] → is_Some (as_bestFallback (foldl scan_job s jobs)).
Proof.
  revert s; induction jobs as [|j js IH]; intros s Hs; simpl; [naive_solver|].
  apply IH. left. apply later_id_Some.
Qed.

Lemma last_job_Some s : is_Some (as_bestFallback s) → is_Some (last_job s).
Proof. unfold last_job. intros [x Hx]. repeat case_match; simplify_eq; eauto. Qed.

End Scan.

(** The evaluation decides exactly when the attempt has a job and all its jobs
    are terminal, and then never errs. *)
Lemma evaluate_attempt_spec jobs :
  ∃ ev, EvaluateRunAttemptTerminalStatus jobs = inr ev ∧
    (rare_ShouldUpdate ev = true ↔
       jobs ≠ [] ∧ Forall (λ j, terminal_job (job_Status j) = true) jobs) ∧
    (rare_ShouldUpdate ev = true → ∃ j rs, j ∈ jobs ∧
       rare_LastJob ev = Some j ∧ rare_Status ev = Some rs ∧
       run_status_of_job (job_Status j) = Some rs).
Proof.
  unfold EvaluateRunAttemptTerminalStatus.
  set (s0 := mkAttemptScan None None None).
  destruct (scan_jobs jobs s0) as [s|] eqn:E.
  - apply scan_jobs_Some in E as [Hall ->].
    destruct (last_job (foldl scan_job s0 jobs)) as [j|] eqn:El.
    + assert (Hj : j ∈ jobs ∧ terminal_job (job_Status j) = true).
      { eapply (scan_in jobs s0 (λ j, j ∈ jobs ∧ terminal_job (job_Status j) = true));
          try done.
        apply Forall_forall. intros x Hx. split; [done|]. by eapply Forall_forall in Hall. }
      destruct Hj as [Hj Ht]. apply terminal_run_of_job in Ht as Hrs. destruct Hrs as [rs Hrs].
      rewrite Hrs. eexists. split; [done|]. simpl. split; [|naive_solver].
      split; [|done]. intros _. split; [|done]. intros ->. by apply elem_of_nil in Hj.
    + eexists. split; [done|]. simpl. split; [|done]. split; [done|]. intros [Hne _].
      destruct (last_job_Some (foldl scan_job s0 jobs)) as [y Hy]; [|congruence].
      apply scan_fallback. by right.
  - eexists. split; [done|]. simpl. split; [|done]. split; [done|]. intros [_ Hall].
    assert (scan_jobs jobs s0 = Some (foldl scan_job s0 jobs)) by (by apply scan_jobs_Some).
    congruence.
Qed.
