(* ===== verification/LogChunk.v ===== *)
(** * Framed log records ([internal/logchunk/codec.go])

    A log chunk is a gzip stream of lines; each line is the JSON form of one record,
    a line of output with the stream it was written to. *)

From stdpp Require Import base list strings.
From S2P Require Import Prelude GoStrings Types Json JsonText JobMeta.
From Stdlib Require Import ZArith Lia Ascii.
Local Open Scope list_scope.

(** ** Compression *)

(** A [gzip.Writer] by what was done to it. *)
Inductive GzOp := GzWrite (p : bytes) | GzFlush.

Definition gz_text (ops : list GzOp) : bytes :=
  concat ((λ o, match o with GzWrite p => p | GzFlush => [] end) <$> ops).

(** [compress/gzip]: the bytes a writer has passed on, all its bytes once it is
    closed, and the reader. *)
Class GzipLib := {
  gz_bytes : list GzOp → bytes;
  gz_close : list GzOp → bytes;
  gunzip : bytes → option bytes
}.

(** Nothing is passed on before the first call, and the header with it; a closed
    stream reads back as what was written. *)
Class GzipLaws `{GzipLib} : Prop := {
  gz_fresh : gz_bytes [] = [];
  gz_started : ∀ ops, ops ≠ [] → gz_bytes ops ≠ [];
  gz_closed_ne : ∀ ops, gz_close ops ≠ [];
  gz_reads : ∀ ops, gunzip (gz_close ops) = Some (gz_text ops)
}.

(** ** Records *)

Definition StreamStdout : string := "stdout".
Definition StreamStderr : string := "stderr".

(** A log record; the line is kept as bytes. *)
Record LogLine := mkLogLine { ll_Stream : string; ll_Line : bytes }.

Definition normalizeStream (stream : string) : string :=
  if decide (to_lower (trim_space stream) = StreamStderr) then StreamStderr else StreamStdout.

Definition newline_byte : ascii := b 10.

Definition frame_text (stream : string) (line : bytes) : bytes :=
  requote "{'stream':'" ++ quote (to_bytes stream) ++ requote "','line':'" ++ quote line ++ requote "'}".

(** The bytes written for one record. *)
Definition EncodeRecordLine (stream : string) (line : bytes) : bytes :=
  frame_text (normalizeStream stream) line ++ [newline_byte].

(** ** Reading *)

(** [strings.TrimRight] with one character. *)
Fixpoint drop_head (c : ascii) (l : bytes) : bytes :=
  match l with x :: l' => if decide (x = c) then drop_head c l' else l | [] => [] end.
Definition trim_right_byte (c : ascii) (l : bytes) : bytes := reverse (drop_head c (reverse l)).

Definition cr : ascii := b 13.
Definition maxFrameLineBytes : N := 262144.

(** The tokens of a [bufio.Scanner] over lines: a line that fills the buffer before
    its end is seen stops the scan with an error. *)
Definition drop_cr (l : bytes) : bytes :=
  match reverse l with x :: l' => if decide (x = cr) then reverse l' else l | [] => [] end.

Fixpoint scan_tokens (ls : list bytes) : option (list bytes) :=
  match ls with
  | [] => Some []
  | [[]] => Some []
  | l :: ls' => if (N.of_nat (length l) <? maxFrameLineBytes)%N then cons (drop_cr l) <$> scan_tokens ls' else None
  end.

Definition scan_lines (data : bytes) : option (list bytes) := scan_tokens (split_bytes newline_byte data).

Definition dec_record : Decoder LogLine := dec_struct [
  ("stream", dec_field ll_Stream (λ v r, mkLogLine v (ll_Line r)) dec_string);
  ("line", λ j r, (λ s, mkLogLine (ll_Stream r) (to_bytes s)) <$> dec_string j (of_bytes (ll_Line r)))
].

(** The records of the scanned lines. *)
Fixpoint decode_frames (ls : list bytes) : option (list LogLine) :=
  match ls with
  | [] => Some []
  | l :: ls' =>
      let raw := to_bytes (trim_space (of_bytes l)) in
      match raw with
      | [] => decode_frames ls'
      | _ =>
          j ← parse raw;
          rec ← dec_record j (mkLogLine "" []);
          rest ← decode_frames ls';
          let line := trim_right_byte cr (ll_Line rec) in
          Some (match line with [] => rest | _ => mkLogLine (normalizeStream (ll_Stream rec)) line :: rest end)
      end
  end.

Definition DecodeGzip `{GzipLib} (data : bytes) : option (list LogLine) :=
  text ← gunzip data;
  ls ← scan_lines text;
  records ← decode_frames ls;
  match records with [] => None | _ => Some records end.

(** ** A written record reads back *)

Lemma normalizeStream_cases s : normalizeStream s = StreamStdout ∨ normalizeStream s = StreamStderr.
Proof. unfold normalizeStream. case_decide; auto. Qed.

Lemma normalizeStream_idem s : normalizeStream (normalizeStream s) = normalizeStream s.
Proof. destruct (normalizeStream_cases s) as [-> | ->]; reflexivity. Qed.

Lemma quote_stream s : quote (to_bytes (normalizeStream s)) = to_bytes (normalizeStream s).
Proof. destruct (normalizeStream_cases s) as [-> | ->]; reflexivity. Qed.

Lemma value_str fuel depth l rest :
  value (S fuel) depth (dquote :: quote l ++ dquote :: rest) = Some (JStr (of_bytes (sanitize l)), rest).
Proof.
  transitivity ((λ p, (JStr (of_bytes p.1), p.2)) <$> unquote (quote l ++ dquote :: rest)); [reflexivity|].
  by rewrite unquote_quote.
Qed.

(** A member of an object, once its key has been read. *)
Definition after_key (fuel : nat) (depth : N) (k : bytes) (l : bytes) : option (list (string * json) * bytes) :=
  v ← value fuel depth l;
  match skip_ws v.2 with
  | d :: l3 =>
      if decide (d = "}"%char) then Some ([(of_bytes k, v.1)], l3)
      else if decide (d = ","%char) then (λ p, ((of_bytes k, v.1) :: p.1, p.2)) <$> members fuel depth l3
      else None
  | [] => None
  end.

Lemma members_key fuel depth k l :
  members (S fuel) depth (dquote :: quote k ++ dquote :: ":"%char :: l) = after_key fuel depth (sanitize k) l.
Proof.
  transitivity (k ← unquote (quote k ++ dquote :: ":"%char :: l);
    match skip_ws k.2 with
    | c :: l2 => if decide (c = ":"%char) then after_key fuel depth k.1 l2 else None
    | [] => None
    end); [reflexivity|]. rewrite unquote_quote. reflexivity.
Qed.

(** The last member of an object, whose value is a string. *)
Lemma members_last fuel depth k l rest :
  members (S (S fuel)) depth (dquote :: quote k ++ dquote :: ":"%char :: dquote :: quote l ++ dquote :: "}"%char :: rest)
  = Some ([(of_bytes (sanitize k), JStr (of_bytes (sanitize l)))], rest).
Proof. rewrite members_key. unfold after_key. rewrite value_str. reflexivity. Qed.

(** A member before another one. *)
Lemma members_more fuel depth k l rest :
  members (S (S fuel)) depth (dquote :: quote k ++ dquote :: ":"%char :: dquote :: quote l ++ dquote :: ","%char :: rest)
  = (λ p, ((of_bytes (sanitize k), JStr (of_bytes (sanitize l))) :: p.1, p.2)) <$> members (S fuel) depth rest.
Proof. rewrite members_key. unfold after_key. rewrite value_str. reflexivity. Qed.

Lemma object_open fuel l :
  value (S fuel) 10000 ("{"%char :: dquote :: l) = (λ p, (JObj p.1, p.2)) <$> members fuel 9999 (dquote :: l).
Proof. reflexivity. Qed.

Lemma frame_shape stream line :
  frame_text stream line = "{"%char :: dquote :: quote (to_bytes "stream") ++ dquote :: ":"%char :: dquote
    :: quote (to_bytes stream) ++ dquote :: ","%char :: dquote :: quote (to_bytes "line") ++ dquote :: ":"%char
    :: dquote :: quote line ++ dquote :: "}"%char :: [].
Proof. reflexivity. Qed.

Lemma parse_frame stream line :
  parse (frame_text stream line)
  = Some (JObj [("stream", JStr (of_bytes (sanitize (to_bytes stream)))); ("line", JStr (of_bytes (sanitize line)))]).
Proof.
  unfold parse. assert (Hf : ∃ n, length (frame_text stream line) = S (S (S (S n)))) by (eexists; reflexivity).
  destruct Hf as [n ->]. rewrite frame_shape.
  rewrite object_open, members_more, members_last. reflexivity.
Qed.

Lemma sanitize_stream s : sanitize (to_bytes (normalizeStream s)) = to_bytes (normalizeStream s).
Proof. destruct (normalizeStream_cases s) as [-> | ->]; reflexivity. Qed.

Lemma decode_frame stream line :
  (j ← parse (frame_text (normalizeStream stream) line); dec_record j (mkLogLine "" []))
  = Some (mkLogLine (normalizeStream stream) (sanitize line)).
Proof.
  rewrite parse_frame, sanitize_stream, of_to.
  transitivity (Some (mkLogLine (normalizeStream stream) (to_bytes (of_bytes (sanitize line))))); [reflexivity|by rewrite to_of].
Qed.

(** *** Chunks of frames *)

Definition encode_all (rs : list LogLine) : bytes := concat ((λ r, EncodeRecordLine (ll_Stream r) (ll_Line r)) <$> rs).

(** A record as it is read back. *)
Definition cleaned (r : LogLine) : LogLine := mkLogLine (normalizeStream (ll_Stream r)) (sanitize (ll_Line r)).

(** A frame that fits the reader's buffer. *)
Definition fits (r : LogLine) : Prop :=
  (N.of_nat (length (frame_text (normalizeStream (ll_Stream r)) (ll_Line r))) < maxFrameLineBytes)%N.

(** A line as the node sends it. *)
Definition whole (r : LogLine) : Prop := ll_Line r ≠ [] ∧ last (ll_Line r) ≠ Some cr.

Lemma frame_one_line stream line : newline_byte ∉ frame_text (normalizeStream stream) line.
Proof.
  assert (Hc : Forall (λ c, ascii_lt 32 c = false) (frame_text (normalizeStream stream) line)).
  { unfold frame_text. rewrite !Forall_app. split; [|split; [apply quote_no_control|split; [|split; [apply quote_no_control|]]]];
      (apply (bool_decide_eq_true_1 _); vm_compute; reflexivity). }
  intros Hin. rewrite Forall_forall in Hc. by specialize (Hc _ Hin).
Qed.

Lemma split_frames rs : split_bytes newline_byte (encode_all rs)
  = ((λ r, frame_text (normalizeStream (ll_Stream r)) (ll_Line r)) <$> rs) ++ [[]].
Proof.
  induction rs as [|r rs IH]; [done|]. unfold encode_all in *. cbn [fmap list_fmap concat]. unfold EncodeRecordLine at 1.
  rewrite <-app_assoc. cbn [app]. rewrite split_app by apply frame_one_line. by rewrite IH.
Qed.

Lemma frame_tight stream line : ∃ m, frame_text stream line = "{"%char :: m ++ ["}"%char].
Proof.
  exists (dquote :: quote (to_bytes "stream") ++ dquote :: ":"%char :: dquote :: quote (to_bytes stream) ++ dquote
    :: ","%char :: dquote :: quote (to_bytes "line") ++ dquote :: ":"%char :: dquote :: quote line ++ [dquote]).
  rewrite frame_shape. repeat (rewrite <-app_assoc || rewrite <-app_comm_cons). reflexivity.
Qed.

Lemma trim_frame stream line :
  to_bytes (trim_space (of_bytes (frame_text stream line))) = frame_text stream line.
Proof.
  destruct (frame_tight stream line) as [m ->]. unfold trim_space. rewrite !to_of.
  unfold trim_left. rewrite trim_fix by reflexivity. unfold trim_right. rewrite trim_fix; [by rewrite reverse_involutive|].
  rewrite reverse_cons, reverse_app. reflexivity.
Qed.

Lemma drop_cr_frame stream line : drop_cr (frame_text stream line) = frame_text stream line.
Proof.
  destruct (frame_tight stream line) as [m ->]. unfold drop_cr. rewrite reverse_cons, reverse_app. reflexivity.
Qed.

Lemma scan_frames rs : Forall fits rs →
  scan_tokens (((λ r, frame_text (normalizeStream (ll_Stream r)) (ll_Line r)) <$> rs) ++ [[]])
  = Some ((λ r, frame_text (normalizeStream (ll_Stream r)) (ll_Line r)) <$> rs).
Proof.
  induction 1 as [|r rs Hr _ IH]; [done|]. cbn [fmap list_fmap app scan_tokens].
  destruct (frame_text _ _) as [|c f] eqn:E; [by destruct (frame_tight (normalizeStream (ll_Stream r)) (ll_Line r)) as [? ?]; simplify_eq|].
  unfold fits in Hr. rewrite E in Hr. apply N.ltb_lt in Hr. rewrite Hr, IH. simpl. by rewrite <-E, drop_cr_frame.
Qed.

(** Cleaning keeps the last byte, or puts the end of U+FFFD there. *)
Lemma sanitize_last l : l ≠ [] → last (sanitize l) = last l ∨ last (sanitize l) = Some (b 189).
Proof.
  unfold sanitize. induction l as [l IH] using (induction_ltof1 _ length). intros Hl.
  destruct l as [|c l1]; [done|]. cbn [runes].
  assert (Hstep : ∀ r l', rune_ok r ∨ r = [c] → length l' < S (length l1) → c :: l1 = r ++ l' →
    ∀ ok, (ok = true → rune_ok r) → (ok = false → r = [c]) →
    last (concat (clean_rune <$> ((ok, r) :: runes l'))) = last (c :: l1) ∨
    last (concat (clean_rune <$> ((ok, r) :: runes l'))) = Some (b 189)).
  { intros r l' Hr Hlen -> ok Hok Hbad. cbn [fmap list_fmap concat]. destruct l' as [|d l'].
    - cbn [runes fmap list_fmap concat]. rewrite !app_nil_r. destruct ok; [by left|by right].
    - destruct (IH (d :: l') ltac:(unfold ltof; simpl in *; lia) ltac:(done)) as [E|E].
      + left. rewrite !last_app, E. destruct (last (d :: l')) eqn:El; [done|]. by apply last_None in El.
      + right. rewrite last_app, E. done. }
  repeat first
    [ case_match; subst
    | apply Hstep; [by left; constructor|simpl; lia|done|by intros _; constructor|done]
    | apply Hstep; [by right|simpl; lia|done|done|done]
    | by right ].
Qed.

Lemma trim_right_whole c l : last l ≠ Some c → trim_right_byte c l = l.
Proof.
  intros Hl. unfold trim_right_byte. destruct (reverse l) as [|x r] eqn:E.
  - apply (f_equal reverse) in E. rewrite reverse_involutive in E. by subst.
  - assert (Hx : last l = Some x) by (rewrite <-(reverse_involutive l), E, reverse_cons; apply last_snoc).
    simpl. rewrite decide_False by congruence. by rewrite <-E, reverse_involutive.
Qed.

Lemma sanitize_ne l : l ≠ [] → sanitize l ≠ [].
Proof.
  intros Hl E. destruct (sanitize_last l Hl) as [H|H]; rewrite E in H; [|done]. by symmetry in H; apply last_None in H.
Qed.

Lemma decode_whole rs : Forall whole rs →
  decode_frames ((λ r, frame_text (normalizeStream (ll_Stream r)) (ll_Line r)) <$> rs) = Some (cleaned <$> rs).
Proof.
  induction 1 as [|r rs [Hne Hcr] _ IH]; [done|]. cbn [fmap list_fmap decode_frames]. rewrite trim_frame.
  pose proof (decode_frame (ll_Stream r) (ll_Line r)) as Hd.
  destruct (frame_text _ _) as [|c f] eqn:E; [by destruct (frame_tight (normalizeStream (ll_Stream r)) (ll_Line r)) as [? ?]; simplify_eq|].
  destruct (parse (c :: f)) as [j|]; [|done]. cbn [mbind option_bind] in *. rewrite Hd. cbn [mbind option_bind].
  rewrite IH. cbn [mbind option_bind ll_Line ll_Stream]. rewrite normalizeStream_idem, trim_right_whole.
  - destruct (sanitize (ll_Line r)) eqn:Es; [by destruct (sanitize_ne _ Hne)|]. unfold cleaned. by rewrite Es.
  - destruct (sanitize_last _ Hne) as [-> | ->]; done.
Qed.

(** A chunk of records that fit is read back as those records; one that holds none is
    an error. *)
Lemma decode_chunk `{GzipLib} `{!GzipLaws} ops rs :
  gz_text ops = encode_all rs → Forall whole rs → Forall fits rs →
  DecodeGzip (gz_close ops) = match rs with [] => None | _ => Some (cleaned <$> rs) end.
Proof.
  intros Ht Hw Hf. unfold DecodeGzip. rewrite gz_reads, Ht. cbn [mbind option_bind].
  unfold scan_lines. rewrite split_frames, scan_frames by done. cbn [mbind option_bind].
  rewrite decode_whole by done. cbn [mbind option_bind]. by destruct rs.
Qed.
