(* ===== verification/LogStreamer.v ===== *)
(** * The log streamer of a node ([internal/nodeagent/logstreamer.go])

    Output of a job arrives in arbitrary pieces on two streams. The streamer cuts it
    into lines, frames them, compresses them, and sends numbered chunks: when enough has
    been gathered, every two seconds, and at the end.

    All calls hold the streamer's mutex except while a chunk is on its way: [ls_step] is
    one critical section, and the chunk it gives is sent after it. A chunk may so be
    overtaken by later ones; its number says where it belongs. The writers stop before
    [Close], and the periodic flush before the last one; nothing after it is modelled.
    No hook is ever set on a streamer. *)

From stdpp Require Import base list strings.
From S2P Require Import Prelude GoStrings Types Json JsonText JobMeta Lifecycle LogChunk.
From Stdlib Require Import ZArith Lia Ascii.
Local Open Scope list_scope.

Definition MaxUploadSize : N := 10485760.
Definition SoftUploadSize : N := MaxUploadSize - 64.

Record LogStreamer := mkLogStreamer {
  ls_resumeCount : Z;
  ls_runID : string;
  ls_jobID : string;
  ls_chunkNo : Z;
  ls_gz : list GzOp;          (* the compressor, whose output is the buffer *)
  ls_closed : bool;
  ls_pendingOut : bytes;
  ls_pendingErr : bytes
}.

Definition NewLogStreamer (runID jobID : string) (resumeCount : Z) : LogStreamer :=
  mkLogStreamer resumeCount runID jobID 0 [] false [] [].

Definition set_gz (gz : list GzOp) (ls : LogStreamer) : LogStreamer :=
  mkLogStreamer (ls_resumeCount ls) (ls_runID ls) (ls_jobID ls) (ls_chunkNo ls) gz (ls_closed ls)
    (ls_pendingOut ls) (ls_pendingErr ls).

Definition set_pending (out err : bytes) (ls : LogStreamer) : LogStreamer :=
  mkLogStreamer (ls_resumeCount ls) (ls_runID ls) (ls_jobID ls) (ls_chunkNo ls) (ls_gz ls) (ls_closed ls) out err.

Record Chunk := mkChunk { ck_No : Z; ck_Data : bytes }.

(** What a critical section leaves to do: nothing, a chunk to send, or an error because
    a chunk was too large and has been dropped. *)
Inductive Outcome := Quiet | Sent (c : Chunk) | Dropped (size : N).

(** ** Lines *)

(** The lines of a text that are complete, and what follows the last line break. *)
Fixpoint complete_lines (text : bytes) : list bytes * bytes :=
  match text with
  | [] => ([], [])
  | c :: t =>
      let '(ls, rest) := complete_lines t in
      if decide (c = newline_byte) then ([] :: ls, rest)
      else match ls with
           | l :: ls' => ((c :: l) :: ls', rest)
           | [] => ([], c :: rest)
           end
  end.

(** The records of complete lines: carriage returns at the end go, empty lines too. *)
Definition line_records (stream : string) (ls : list bytes) : list LogLine :=
  mkLogLine stream <$> filter (λ l, l ≠ []) (trim_right_byte cr <$> ls).

Definition write_record (r : LogLine) : list GzOp :=
  [GzWrite (frame_text (normalizeStream (ll_Stream r)) (ll_Line r)); GzWrite [newline_byte]].

Definition write_records (rs : list LogLine) : list GzOp := rs ≫= write_record.

Definition is_stderr (stream : string) : bool := bool_decide (to_lower (trim_space stream) = StreamStderr).

Definition appendProcessedLocked (stream : string) (processed : bytes) (ls : LogStreamer) : LogStreamer :=
  let carry := if is_stderr stream then ls_pendingErr ls else ls_pendingOut ls in
  let stream' := if is_stderr stream then stream else StreamStdout in
  let '(lines, rest) := complete_lines (carry ++ processed) in
  let ls' := set_gz (ls_gz ls ++ write_records (line_records stream' lines)) ls in
  if is_stderr stream then set_pending (ls_pendingOut ls) rest ls' else set_pending rest (ls_pendingErr ls) ls'.

(** What is left of a stream at the end: a last line without a line break. *)
Definition pending_records (stream : string) (pending : bytes) : list LogLine :=
  if decide (trim_space (of_bytes pending) = "") then [] else [mkLogLine stream (trim_right_byte cr pending)].

Definition flushPendingLocked (ls : LogStreamer) : LogStreamer :=
  set_pending [] [] (set_gz (ls_gz ls ++ write_records
    (pending_records StreamStdout (ls_pendingOut ls) ++ pending_records StreamStderr (ls_pendingErr ls))) ls).

(** ** Flushing *)

Section Streamer.
Context `{GzipLib}.

Definition buffer_len (ls : LogStreamer) : N := N.of_nat (length (gz_bytes (ls_gz ls))).

Definition flushLocked (ls : LogStreamer) : LogStreamer * Outcome :=
  if (buffer_len ls =? 0)%N then (ls, Quiet)
  else
    let compressed := gz_close (ls_gz ls) in
    if (MaxUploadSize <? N.of_nat (length compressed))%N
    then (set_gz [] ls, Dropped (N.of_nat (length compressed)))
    else
      (mkLogStreamer (ls_resumeCount ls) (ls_runID ls) (ls_jobID ls) (wrap32 (ls_chunkNo ls + 1)) [] (ls_closed ls)
         (ls_pendingOut ls) (ls_pendingErr ls),
       if ls_closed ls then Quiet else Sent (mkChunk (ls_chunkNo ls) compressed)).

Definition writeStream (stream : string) (p : bytes) (ls : LogStreamer) : LogStreamer * Outcome :=
  let ls1 := appendProcessedLocked stream p ls in
  let ls2 := set_gz (ls_gz ls1 ++ [GzFlush]) ls1 in
  if (SoftUploadSize <=? buffer_len ls2)%N then flushLocked ls2 else (ls2, Quiet).

Definition periodicFlush (ls : LogStreamer) : LogStreamer * Outcome :=
  if (0 <? buffer_len ls)%N then flushLocked ls else (ls, Quiet).

Definition Close (ls : LogStreamer) : LogStreamer * Outcome :=
  let ls1 := flushPendingLocked ls in
  let '(ls2, out) := if (0 <? buffer_len ls1)%N then flushLocked ls1 else (ls1, Quiet) in
  (mkLogStreamer (ls_resumeCount ls2) (ls_runID ls2) (ls_jobID ls2) (ls_chunkNo ls2) (ls_gz ls2) true
     (ls_pendingOut ls2) (ls_pendingErr ls2), out).

(** ** Runs of a streamer *)

Inductive LsOp := LsWrite (stream : string) (p : bytes) | LsTick.

Definition ls_step (ls : LogStreamer) (o : LsOp) : LogStreamer * Outcome :=
  match o with
  | LsWrite stream p => writeStream stream p ls
  | LsTick => periodicFlush ls
  end.

Fixpoint ls_run (ls : LogStreamer) (ops : list LsOp) : LogStreamer * list Outcome :=
  match ops with
  | [] => (ls, [])
  | o :: ops' =>
      let '(ls1, out) := ls_step ls o in
      let '(ls2, outs) := ls_run ls1 ops' in
      (ls2, out :: outs)
  end.

(** Everything up to and including [Close]. *)
Definition ls_session (ls : LogStreamer) (ops : list LsOp) : list Outcome :=
  let '(ls1, outs) := ls_run ls ops in outs ++ [(Close ls1).2].

Definition sent (outs : list Outcome) : list Chunk := omap (λ o, match o with Sent c => Some c | _ => None end) outs.

End Streamer.

(** * What the log streamer sends

    The chunks of a session, read in the order of their numbers, hold exactly the lines
    that were written, whatever the pieces and the flushes ([session_records],
    [stream_lines_exact]). *)

(** ** The reference: records without chunks *)

(** The records a write completes, and the pending texts after it. *)
Definition spec_write (out err : bytes) (stream : string) (p : bytes) : list LogLine * (bytes * bytes) :=
  if is_stderr stream then
    let '(ls, rest) := complete_lines (err ++ p) in (line_records StreamStderr ls, (out, rest))
  else
    let '(ls, rest) := complete_lines (out ++ p) in (line_records StreamStdout ls, (rest, err)).

Fixpoint spec_run (out err : bytes) (ops : list LsOp) : list LogLine * (bytes * bytes) :=
  match ops with
  | [] => ([], (out, err))
  | LsTick :: ops' => spec_run out err ops'
  | LsWrite stream p :: ops' =>
      let '(rs, (out', err')) := spec_write out err stream p in
      let '(rs', pend) := spec_run out' err' ops' in (rs ++ rs', pend)
  end.

Definition spec_session (out err : bytes) (ops : list LsOp) : list LogLine :=
  let '(rs, (out', err')) := spec_run out err ops in
  rs ++ pending_records StreamStdout out' ++ pending_records StreamStderr err'.

(** ** Encoded text *)

Lemma gz_text_app o1 o2 : gz_text (o1 ++ o2) = gz_text o1 ++ gz_text o2.
Proof. unfold gz_text. by rewrite fmap_app, concat_app. Qed.

Lemma encode_all_app r1 r2 : encode_all (r1 ++ r2) = encode_all r1 ++ encode_all r2.
Proof. unfold encode_all. by rewrite fmap_app, concat_app. Qed.

Lemma gz_text_records rs : gz_text (write_records rs) = encode_all rs.
Proof.
  induction rs as [|r rs IH]; [done|]. unfold write_records in *. cbn [mbind list_bind].
  rewrite gz_text_app, IH. unfold encode_all. cbn [fmap list_fmap concat]. by f_equal.
Qed.

(** Records that differ in how their stream is spelt are written alike. *)
Lemma encode_stderr stream ls : is_stderr stream = true →
  encode_all (line_records stream ls) = encode_all (line_records StreamStderr ls).
Proof.
  intros Hs. unfold is_stderr in Hs. apply bool_decide_eq_true in Hs.
  unfold encode_all, line_records. rewrite <-!list_fmap_compose. f_equal. apply list_fmap_ext. intros _ l _. simpl.
  unfold EncodeRecordLine. f_equal. f_equal. unfold normalizeStream. by rewrite Hs, decide_True.
Qed.

(** ** One critical section *)

Section Sent.
Context `{GzipLib} `{!GzipLaws}.

(** The chunk holds the records [rs]. *)
Definition holds (c : Chunk) (rs : list LogLine) : Prop := ∃ ops, ck_Data c = gz_close ops ∧ gz_text ops = encode_all rs.

(** The open streamer has [cur] in its buffer and the pending texts. *)
Record at_work (ls : LogStreamer) (no : Z) (cur : list LogLine) (out err : bytes) : Prop := {
  aw_text : gz_text (ls_gz ls) = encode_all cur;
  aw_open : ls_closed ls = false;
  aw_no : ls_chunkNo ls = no;
  aw_out : ls_pendingOut ls = out;
  aw_err : ls_pendingErr ls = err
}.

Definition dropped (o : Outcome) : Prop := match o with Dropped _ => True | _ => False end.

(** After a section that had [all] to send: either all is still there, or it is in the
    chunk with the next number. *)
Definition advanced (ls' : LogStreamer) (o : Outcome) (no : Z) (all : list LogLine) (out err : bytes) : Prop :=
  (o = Quiet ∧ at_work ls' no all out err) ∨
  (∃ c, o = Sent c ∧ ck_No c = no ∧ holds c all ∧ at_work ls' (wrap32 (no + 1)) [] out err).

Lemma buffer_empty ls : buffer_len ls = 0%N → ls_gz ls = [].
Proof.
  unfold buffer_len. intros E. destruct (ls_gz ls) as [|o ops] eqn:Eg; [done|].
  destruct (gz_bytes (o :: ops)) eqn:Eb; [by destruct (gz_started (o :: ops))|simpl in E; lia].
Qed.

Lemma flush_advances ls no cur out err :
  at_work ls no cur out err → ¬ dropped (flushLocked ls).2 →
  advanced (flushLocked ls).1 (flushLocked ls).2 no cur out err.
Proof.
  intros [Ht Ho Hn Hp He] Hd. unfold flushLocked in *. destruct (N.eqb_spec (buffer_len ls) 0) as [E|E].
  { left. by split. }
  case_match; simpl in *; [done|]. right. rewrite Ho. eexists. split; [done|]. split; [done|].
  split; [by exists (ls_gz ls)|]. split; try done. simpl. by rewrite Hn.
Qed.

(** Appending lines, against the reference. *)
Lemma append_spec stream p ls no cur out err :
  at_work ls no cur out err →
  at_work (appendProcessedLocked stream p ls) no (cur ++ (spec_write out err stream p).1)
    (spec_write out err stream p).2.1 (spec_write out err stream p).2.2.
Proof.
  intros [Ht Ho Hn Hp He]. unfold appendProcessedLocked, spec_write. rewrite Hp, He.
  destruct (is_stderr stream) eqn:Es.
  - destruct (complete_lines (err ++ p)) as [ls' rest]. split; simpl; try done.
    rewrite gz_text_app, gz_text_records, encode_all_app, Ht. f_equal. by apply encode_stderr.
  - destruct (complete_lines (out ++ p)) as [ls' rest]. split; simpl; try done.
    by rewrite gz_text_app, gz_text_records, encode_all_app, Ht.
Qed.

Lemma flushed_at_work ls no cur out err :
  at_work ls no cur out err → at_work (set_gz (ls_gz ls ++ [GzFlush]) ls) no cur out err.
Proof. intros [Ht Ho Hn Hp He]. split; try done. simpl. rewrite gz_text_app, Ht. apply app_nil_r. Qed.

Lemma step_advances ls no cur out err o :
  at_work ls no cur out err → ¬ dropped (ls_step ls o).2 →
  advanced (ls_step ls o).1 (ls_step ls o).2 no (cur ++ (spec_run out err [o]).1)
    (spec_run out err [o]).2.1 (spec_run out err [o]).2.2.
Proof.
  intros Hw Hd. destruct o as [stream p|]; simpl in *.
  - pose proof (append_spec stream p _ _ _ _ _ Hw) as Ha.
    destruct (spec_write out err stream p) as [rs [out' err']]. simpl in *. rewrite app_nil_r.
    unfold writeStream in *. case_match.
    + by apply flush_advances; [apply flushed_at_work|].
    + left. split; [done|]. by apply flushed_at_work.
  - rewrite app_nil_r. unfold periodicFlush in *. case_match; [by apply flush_advances|by left].
Qed.

(** ** A session *)

Lemma spec_run_cons out err o ops :
  spec_run out err (o :: ops) =
  ((spec_run out err [o]).1 ++ (spec_run (spec_run out err [o]).2.1 (spec_run out err [o]).2.2 ops).1,
   (spec_run (spec_run out err [o]).2.1 (spec_run out err [o]).2.2 ops).2).
Proof.
  destruct o as [stream p|]; simpl.
  - destruct (spec_write out err stream p) as [rs [out' err']]. simpl.
    destruct (spec_run out' err' ops) as [rs' pend]. simpl. by rewrite app_nil_r.
  - by destruct (spec_run out err ops).
Qed.

(** Consecutive numbers, at the width of the counter. *)
Fixpoint numbered (no : Z) (cs : list Chunk) : Prop :=
  match cs with [] => True | c :: cs' => ck_No c = no ∧ numbered (wrap32 (no + 1)) cs' end.

Fixpoint next_no (no : Z) (cs : list Chunk) : Z :=
  match cs with [] => no | _ :: cs' => next_no (wrap32 (no + 1)) cs' end.

Lemma run_advances ops : ∀ ls no cur out err,
  at_work ls no cur out err → Forall (λ o, ¬ dropped o) (ls_run ls ops).2 →
  ∃ parts cur', Forall2 holds (sent (ls_run ls ops).2) parts ∧
    numbered no (sent (ls_run ls ops).2) ∧
    concat parts ++ cur' = cur ++ (spec_run out err ops).1 ∧
    at_work (ls_run ls ops).1 (next_no no (sent (ls_run ls ops).2)) cur' (spec_run out err ops).2.1 (spec_run out err ops).2.2.
Proof.
  induction ops as [|o ops IH]; intros ls no cur out err Hw Hd.
  { exists [], cur. simpl. rewrite app_nil_r. split; [constructor|]. done. }
  cbn [ls_run] in *. destruct (ls_step ls o) as [ls1 oc] eqn:Es.
  destruct (ls_run ls1 ops) as [ls2 outs] eqn:Er. cbn [fst snd] in Hd |- *. apply Forall_cons in Hd as [Hd1 Hd2].
  rewrite spec_run_cons. pose proof (step_advances _ _ _ _ _ o Hw) as Hs. rewrite Es in Hs. specialize (Hs Hd1). cbn [fst snd] in Hs |- *.
  destruct Hs as [[-> Hw1]|(c & -> & Hc & Hh & Hw1)];
    destruct (IH _ _ _ _ _ Hw1) as (parts & cur' & Hp & Hn & Hcat & Hw'); rewrite ?Er in *; cbn [fst snd] in *; try done.
  - exists parts, cur'. split; [done|]. split; [done|]. split; [by rewrite Hcat, app_assoc|done].
  - exists ((cur ++ (spec_run out err [o]).1) :: parts), cur'. split; [by constructor|].
    split; [by split|]. split; [|done]. cbn [concat]. by rewrite <-!app_assoc, Hcat.
Qed.

Lemma numbered_snoc cs : ∀ no c, numbered no cs → ck_No c = next_no no cs → numbered no (cs ++ [c]).
Proof using Type. induction cs as [|c' cs IH]; intros no c; simpl; [done|]. intros [Hc Hn] E. split; [done|]. by apply IH. Qed.

Lemma sent_app o1 o2 : sent (o1 ++ o2) = sent o1 ++ sent o2.
Proof using Type. apply omap_app. Qed.

Lemma close_advances ls no cur out err :
  at_work ls no cur out err → ¬ dropped (Close ls).2 →
  let all := cur ++ pending_records StreamStdout out ++ pending_records StreamStderr err in
  ((Close ls).2 = Quiet ∧ all = []) ∨ (∃ c, (Close ls).2 = Sent c ∧ ck_No c = no ∧ holds c all).
Proof.
  intros [Ht Ho Hn Hp He] Hd all. unfold Close in *.
  assert (Hw : at_work (flushPendingLocked ls) no all [] []).
  { split; try done. simpl. rewrite gz_text_app, gz_text_records, Hp, He, Ht. unfold all. by rewrite <-!encode_all_app. }
  destruct (N.ltb_spec 0 (buffer_len (flushPendingLocked ls))) as [E|E].
  - pose proof (flush_advances _ _ _ _ _ Hw) as Hf. destruct (flushLocked (flushPendingLocked ls)) as [ls2 oc] eqn:Ef.
    simpl in *. destruct (Hf Hd) as [[-> Hq]|(c & -> & Hc & Hh & _)]; [|right; by exists c].
    exfalso. unfold flushLocked in Ef. destruct (N.eqb_spec (buffer_len (flushPendingLocked ls)) 0) as [E0|_]; [lia|].
    case_match; [done|]. simpl in Ef. rewrite Ho in Ef. done.
  - left. split; [done|]. assert (Hz : buffer_len (flushPendingLocked ls) = 0%N) by lia.
    apply buffer_empty in Hz. pose proof (aw_text _ _ _ _ _ Hw) as Htext. rewrite Hz in Htext.
    destruct all as [|r rs]; [done|]. exfalso. unfold encode_all in Htext. cbn [fmap list_fmap concat] in Htext.
    symmetry in Htext. apply app_eq_nil in Htext as [Htext _]. unfold EncodeRecordLine in Htext. by apply app_eq_nil in Htext as [_ ?].
Qed.

(** The chunks of a session hold the records of the reference, in order. *)
Lemma session_parts runID jobID resume ops :
  Forall (λ o, ¬ dropped o) (ls_session (NewLogStreamer runID jobID resume) ops) →
  ∃ parts, Forall2 holds (sent (ls_session (NewLogStreamer runID jobID resume) ops)) parts ∧
    numbered 0 (sent (ls_session (NewLogStreamer runID jobID resume) ops)) ∧
    concat parts = spec_session [] [] ops.
Proof.
  unfold ls_session, spec_session. intros Hd.
  assert (Hw : at_work (NewLogStreamer runID jobID resume) 0 [] [] []) by done.
  pose proof (run_advances ops _ _ _ _ _ Hw) as Hr. destruct (ls_run _ ops) as [ls1 outs]. simpl in Hr.
  apply Forall_app in Hd as [Hd1 Hd2]. apply Forall_cons in Hd2 as [Hd2 _].
  destruct (Hr Hd1) as (parts & cur' & Hp & Hn & Hcat & Hw1).
  destruct (spec_run [] [] ops) as [rs [out' err']]. simpl in *. rewrite sent_app.
  destruct (close_advances _ _ _ _ _ Hw1 Hd2) as [[-> Hall]|(c & -> & Hc & Hh)]; simpl.
  - exists parts. rewrite app_nil_r. split; [done|]. split; [done|].
    apply app_eq_nil in Hall as [-> Hall]. rewrite Hall, !app_nil_r in *. done.
  - exists (parts ++ [cur' ++ pending_records StreamStdout out' ++ pending_records StreamStderr err']).
    split; [by apply Forall2_app; [|constructor]|]. split; [by apply numbered_snoc|].
    rewrite concat_app. simpl. rewrite app_nil_r, app_assoc, Hcat. done.
Qed.

(** What a reader gets from a chunk: its records, or nothing. *)
Definition chunk_records (c : Chunk) : list LogLine := default [] (DecodeGzip (ck_Data c)).

Lemma chunk_reads c rs : holds c rs → Forall whole rs → Forall fits rs → chunk_records c = cleaned <$> rs.
Proof.
  intros (gz & Hd & Ht) Hw Hf. unfold chunk_records. rewrite Hd, (decode_chunk gz rs) by done. by destruct rs.
Qed.

Lemma chunks_read cs parts : Forall2 holds cs parts → Forall whole (concat parts) → Forall fits (concat parts) →
  cs ≫= chunk_records = cleaned <$> concat parts.
Proof.
  induction 1 as [|c rs cs parts Hh _ IH]; [done|]. cbn [concat]. rewrite !Forall_app. intros [Hw Hw'] [Hf Hf'].
  cbn [mbind list_bind]. rewrite fmap_app, <-IH by done. f_equal. by apply chunk_reads.
Qed.

End Sent.

(** ** The lines of a stream *)

(** What was written to a stream, all together. *)
Definition written (err : bool) (ops : list LsOp) : bytes :=
  ops ≫= λ o, match o with LsWrite stream p => if Bool.eqb (is_stderr stream) err then p else [] | LsTick => [] end.

Definition stream_name (err : bool) : string := if err then StreamStderr else StreamStdout.

(** The lines of a text: without carriage returns at their ends, without empty lines,
    and without a last line that is blank and has no line break. *)
Definition text_lines (stream : string) (text : bytes) : list LogLine :=
  let '(ls, rest) := complete_lines text in line_records stream ls ++ pending_records stream rest.

Lemma complete_lines_app l1 l2 :
  complete_lines (l1 ++ l2) =
  ((complete_lines l1).1 ++ (complete_lines ((complete_lines l1).2 ++ l2)).1,
   (complete_lines ((complete_lines l1).2 ++ l2)).2).
Proof.
  induction l1 as [|c l1 IH]; [cbn; by destruct (complete_lines l2)|]. cbn [app complete_lines]. rewrite IH.
  destruct (complete_lines l1) as [ls rest]. cbn [fst snd]. case_decide; [done|].
  destruct ls as [|l ls]; cbn [app fst snd]; [|done].
  cbn [complete_lines]. destruct (complete_lines (rest ++ l2)) as [ls' rest']. cbn [fst snd].
  rewrite decide_False by done. by destruct ls'.
Qed.

Lemma text_lines_app stream l1 l2 :
  text_lines stream (l1 ++ l2) =
  line_records stream (complete_lines l1).1 ++ text_lines stream ((complete_lines l1).2 ++ l2).
Proof.
  unfold text_lines. rewrite complete_lines_app. destruct (complete_lines (_ ++ l2)) as [ls' rest'].
  unfold line_records. cbn [fst snd]. by rewrite fmap_app, filter_app, fmap_app, app_assoc.
Qed.

Definition of_stream (err : bool) (rs : list LogLine) : list LogLine :=
  filter (λ r, ll_Stream r = stream_name err) rs.

Lemma of_stream_records err err' ls :
  of_stream err (line_records (stream_name err') ls) = if Bool.eqb err' err then line_records (stream_name err') ls else [].
Proof.
  unfold of_stream, line_records. generalize (filter (λ l : bytes, l ≠ []) (trim_right_byte cr <$> ls)).
  intros ks. induction ks as [|l ks IH]; [by destruct (Bool.eqb _ _)|].
  cbn [fmap list_fmap]. rewrite filter_cons. cbn [ll_Stream]. rewrite IH. by destruct err, err'.
Qed.

Lemma of_stream_pending err err' t :
  of_stream err (pending_records (stream_name err') t) = if Bool.eqb err' err then pending_records (stream_name err') t else [].
Proof.
  unfold of_stream, pending_records. destruct err, err'; cbn [Bool.eqb]; by case_decide.
Qed.

Lemma of_stream_app err r1 r2 : of_stream err (r1 ++ r2) = of_stream err r1 ++ of_stream err r2.
Proof. apply filter_app. Qed.

Lemma written_cons err o ops : written err (o :: ops) = written err [o] ++ written err ops.
Proof. unfold written. cbn [mbind list_bind]. by rewrite app_nil_r. Qed.

(** The pending text of a stream. *)
Definition pend (err : bool) (p : bytes * bytes) : bytes := if err then p.2 else p.1.

Lemma complete_rest l : newline_byte ∉ (complete_lines l).2.
Proof.
  induction l as [|c l IH]; [apply not_elem_of_nil|]. cbn [complete_lines].
  destruct (complete_lines l) as [ls rest]. cbn [snd] in IH. case_decide; [done|].
  destruct ls; [|done]. cbn [snd]. by apply not_elem_of_cons.
Qed.

Lemma complete_free l : newline_byte ∉ l → complete_lines l = ([], l).
Proof.
  induction l as [|c l IH]; [done|]. intros [Hc Hl]%not_elem_of_cons. cbn [complete_lines]. rewrite (IH Hl).
  by rewrite decide_False.
Qed.

Lemma spec_session_cons out err o ops :
  spec_session out err (o :: ops) = (spec_run out err [o]).1 ++ spec_session (spec_run out err [o]).2.1 (spec_run out err [o]).2.2 ops.
Proof.
  unfold spec_session. rewrite spec_run_cons.
  destruct (spec_run (spec_run out err [o]).2.1 (spec_run out err [o]).2.2 ops) as [rs' [o' e']]. cbn [fst snd]. by rewrite <-app_assoc.
Qed.

(** The records of a stream are the lines of what was written to it. *)
Lemma session_stream err ops : ∀ out er, newline_byte ∉ out → newline_byte ∉ er →
  of_stream err (spec_session out er ops) = text_lines (stream_name err) (pend err (out, er) ++ written err ops).
Proof.
  induction ops as [|o ops IH]; intros out er Ho He.
  { unfold spec_session. cbn [spec_run fst snd]. rewrite app_nil_l, of_stream_app.
    rewrite (of_stream_pending err false), (of_stream_pending err true), app_nil_r. unfold text_lines.
    destruct err; cbn [Bool.eqb app pend fst snd]; rewrite complete_free by done; cbn; by rewrite ?app_nil_r. }
  rewrite spec_session_cons, of_stream_app, written_cons.
  destruct o as [stream p|]; [|cbn [spec_run fst snd]; by rewrite IH].
  cbn [spec_run]. unfold spec_write. unfold written at 1. cbn [mbind list_bind]. rewrite app_nil_r.
  destruct (is_stderr stream).
  - destruct (complete_lines (er ++ p)) as [ls rest] eqn:E. cbn [fst snd]. rewrite app_nil_r.
    pose proof (complete_rest (er ++ p)) as Hr. rewrite E in Hr. cbn [snd] in Hr. rewrite IH by done.
    rewrite (of_stream_records err true). destruct err; cbn [Bool.eqb pend fst snd app]; [|done].
    rewrite app_assoc, (text_lines_app _ (er ++ p)), E. done.
  - destruct (complete_lines (out ++ p)) as [ls rest] eqn:E. cbn [fst snd]. rewrite app_nil_r.
    pose proof (complete_rest (out ++ p)) as Hr. rewrite E in Hr. cbn [snd] in Hr. rewrite IH by done.
    rewrite (of_stream_records err false). destruct err; cbn [Bool.eqb pend fst snd app]; [done|].
    rewrite app_assoc, (text_lines_app _ (out ++ p)), E. done.
Qed.

(** *** The lines are whole *)

Lemma drop_head_head c l : head (drop_head c l) ≠ Some c.
Proof. induction l as [|x l IH]; [done|]. cbn [drop_head]. case_decide; [done|]. cbn. congruence. Qed.

Lemma last_reverse_head {A} (l : list A) : last (reverse l) = head l.
Proof. destruct l as [|x l]; [done|]. rewrite reverse_cons. apply last_snoc. Qed.

Lemma trim_right_last c l : last (trim_right_byte c l) ≠ Some c.
Proof. unfold trim_right_byte. rewrite last_reverse_head. apply drop_head_head. Qed.

Lemma line_records_whole stream ls : Forall whole (line_records stream ls).
Proof.
  unfold line_records. apply Forall_fmap, Forall_forall. intros l [Hne Hl]%list_elem_of_filter.
  apply list_elem_of_fmap in Hl as (l0 & -> & _). split; [done|]. apply trim_right_last.
Qed.

Lemma blank_crs l : drop_head cr l = [] → trim_rounds (length l) space_runes l = [].
Proof.
  induction l as [|c l IH]; [done|]. cbn [drop_head length]. case_decide as Hc; [|done]. subst c. intros E.
  cbn [trim_rounds]. change (strip_any space_runes (cr :: l)) with (Some l). by apply IH.
Qed.

Lemma drop_head_nil c l : drop_head c l = [] ↔ Forall (λ x, x = c) l.
Proof.
  induction l as [|x l IH]; [done|]. cbn [drop_head]. rewrite Forall_cons. case_decide; [by rewrite IH; naive_solver|].
  split; [done|]. by intros [? _].
Qed.

Lemma pending_whole stream t : Forall whole (pending_records stream t).
Proof.
  unfold pending_records. case_decide as Hb; [constructor|]. apply Forall_singleton. split; [|apply trim_right_last].
  cbn [ll_Line]. intros E. apply Hb. unfold trim_space. rewrite to_of. unfold trim_left.
  rewrite blank_crs; [done|]. apply drop_head_nil. unfold trim_right_byte in E. apply (f_equal reverse) in E.
  rewrite reverse_involutive in E. apply drop_head_nil in E. rewrite Forall_forall in E |- *. intros x Hx. by apply E, elem_of_reverse.
Qed.

Lemma spec_run_whole ops : ∀ out er, Forall whole (spec_run out er ops).1.
Proof.
  induction ops as [|o ops IH]; intros out er; [constructor|]. rewrite spec_run_cons. cbn [fst].
  apply Forall_app. split; [|apply IH]. destruct o as [stream p|]; [|constructor]. cbn [spec_run].
  unfold spec_write. destruct (is_stderr stream), (complete_lines _); cbn [fst]; rewrite app_nil_r; apply line_records_whole.
Qed.

Lemma session_whole ops out er : Forall whole (spec_session out er ops).
Proof.
  unfold spec_session. pose proof (spec_run_whole ops out er) as Hr. destruct (spec_run out er ops) as [rs [o e]].
  rewrite !Forall_app. split; [done|]. split; apply pending_whole.
Qed.
