(* ===== verification/LogIngest.v ===== *)
(** * Log chunks on their way to the server
      ([logstreamer.go], [internal/server/handlers/nodes_logs.go],
      [internal/server/blobpersist/service.go], [internal/store/logs.sql.go])

    A node posts a chunk as JSON; the server decodes the request strictly, enters a row
    in [logs], and puts the compressed data into object storage under a key derived from
    the row. Readers get the chunks of a run back in the order of their numbers.

    Object storage is a map; whether an upload succeeds, and the next value of the
    sequence of [logs], are arguments. *)

From stdpp Require Import base gmap sets list sorting strings pretty.
From S2P Require Import Prelude GoStrings Types Json JsonText JobMeta JobMetaCodec Spec Db Tx.
From S2P Require Import Queries Lifecycle LogChunk LogStreamer.
From Stdlib Require Import ZArith Lia Ascii.
Local Open Scope list_scope.

(** ** Bytes in JSON: standard base64 *)

Definition b64char (n : Z) : ascii :=
  bz (if n <? 26 then 65 + n else if n <? 52 then 71 + n else if n <? 62 then n - 4 else if n =? 62 then 43 else 47)%Z.

Definition b64value (c : ascii) : option Z :=
  let n := Z.of_nat (nat_of_ascii c) in
  if byte_in 65 90 c then Some (n - 65)%Z
  else if byte_in 97 122 c then Some (n - 71)%Z
  else if byte_in 48 57 c then Some (n + 4)%Z
  else if (n =? 43)%Z then Some 62%Z
  else if (n =? 47)%Z then Some 63%Z
  else None.

Definition byte_val (c : ascii) : Z := Z.of_nat (nat_of_ascii c).
Definition pad : ascii := "="%char.

Fixpoint base64 (l : bytes) : bytes :=
  match l with
  | [] => []
  | [x] => let x := byte_val x in [b64char (x / 4); b64char (x mod 4 * 16); pad; pad]
  | [x; y] =>
      let '(x, y) := (byte_val x, byte_val y) in
      [b64char (x / 4); b64char (x mod 4 * 16 + y / 16); b64char (y mod 16 * 4); pad]
  | x :: y :: z :: l' =>
      let '(x, y, z) := (byte_val x, byte_val y, byte_val z) in
      b64char (x / 4) :: b64char (x mod 4 * 16 + y / 16) :: b64char (y mod 16 * 4 + z / 64) :: b64char (z mod 64)
        :: base64 l'
  end%Z.

(** Groups of four; padding only in the last one. *)
Fixpoint b64_groups (l : bytes) : option bytes :=
  match l with
  | [] => Some []
  | c1 :: c2 :: c3 :: c4 :: l' =>
      v1 ← b64value c1; v2 ← b64value c2;
      let x := bz (v1 * 4 + v2 / 16) in
      match b64value c3 with
      | None => if decide (c3 = pad ∧ c4 = pad ∧ l' = []) then Some [x] else None
      | Some v3 =>
          let y := bz (v2 mod 16 * 16 + v3 / 4) in
          match b64value c4 with
          | None => if decide (c4 = pad ∧ l' = []) then Some [x; y] else None
          | Some v4 => rest ← b64_groups l'; Some (x :: y :: bz (v3 mod 4 * 64 + v4) :: rest)
          end
      end
  | _ => None
  end%Z.

(** The decoder skips line breaks. *)
Definition unbase64 (l : bytes) : option bytes := b64_groups (filter (λ c, c ≠ b 10 ∧ c ≠ b 13) l).

(** ** The request *)

Section Request.
Context `{SpecLib}.

(** The body of [POST /v1/nodes/{id}/logs] for a chunk; [None] when it cannot be
    marshalled. *)
Definition sendChunk_payload (ls : LogStreamer) (c : Chunk) : option json :=
  run ← (match marshalIDTextValidated ksuid_valid (ls_runID ls) with inr s => Some s | inl _ => None end);
  job ← (if IsZero (ls_jobID ls) then Some []
         else match marshalIDTextValidated ksuid_valid (ls_jobID ls) with
              | inr s => Some [("job_id", JStr s)]
              | inl _ => None
              end);
  Some (JObj ((if decide (ls_resumeCount ls = 0%Z) then [] else [("resume_count", JInt (ls_resumeCount ls))])
              ++ [("run_id", JStr run)] ++ job
              ++ [("chunk_no", JInt (ck_No c)); ("data", JStr (of_bytes (base64 (ck_Data c))))])).

Record NodeLogRequest := mkNodeLogRequest {
  nl_RunID : string; nl_JobID : option string; nl_ChunkNo : Z; nl_Data : bytes
}.

(** [DisallowUnknownFields]: every key must name a field. *)
Definition dec_strict {A} (fields : list (string * Decoder A)) : Decoder A := λ j a,
  match j with
  | JObj kvs => if forallb (λ kv, bool_decide (is_Some (find_field fields kv.1))) kvs then dec_struct fields j a else None
  | _ => dec_struct fields j a
  end.

Definition dec_int32 : Decoder Z := λ j v,
  match j with
  | JNull => Some v
  | JInt z => if in_int32 z then Some z else None
  | _ => None
  end.

Definition dec_bytes : Decoder bytes := λ j v,
  match j with JNull => Some [] | JStr s => unbase64 (to_bytes s) | _ => None end.

Definition node_log_fields : list (string * Decoder NodeLogRequest) := [
  ("run_id", dec_field nl_RunID (λ v r, mkNodeLogRequest v (nl_JobID r) (nl_ChunkNo r) (nl_Data r)) dec_JobID);
  ("job_id", dec_field nl_JobID (λ v r, mkNodeLogRequest (nl_RunID r) v (nl_ChunkNo r) (nl_Data r)) (dec_ptr "" dec_JobID));
  ("chunk_no", dec_field nl_ChunkNo (λ v r, mkNodeLogRequest (nl_RunID r) (nl_JobID r) v (nl_Data r)) dec_int32);
  ("data", dec_field nl_Data (λ v r, mkNodeLogRequest (nl_RunID r) (nl_JobID r) (nl_ChunkNo r) v) dec_bytes)
].

End Request.

(** ** Rows and objects *)

Record CreateLogParams := mkCreateLogParams {
  cl_RunID : string; cl_JobID : option string; cl_ChunkNo : Z; cl_DataSize : Z
}.

(** The generated column [object_key]. *)
Definition log_ObjectKey (l : Log) : string :=
  "logs/run/" +:+ log_RunID l +:+ "/job/" +:+ default "none" (log_JobID l) +:+ "/chunk/" +:+ pretty (log_ChunkNo l)
  +:+ "/log/" +:+ pretty (log_ID l) +:+ ".gz".

Definition CreateLog (seq : Z) (a : CreateLogParams) : M Log :=
  stmt (λ env db,
    let row := mkLog seq (cl_RunID a) (cl_JobID a) (cl_ChunkNo a) (cl_DataSize a) (env_now env) in
    if existsb (λ l, bool_decide (log_ID l = seq)) (db_logs db) then inl (ErrConstraint "logs_pkey")
    else if decide (db_runs db !! cl_RunID a = None) then inl (ErrConstraint "logs_run_id_fkey")
    else if match cl_JobID a with Some j => bool_decide (db_jobs db !! j = None) | None => false end
    then inl (ErrConstraint "logs_job_id_fkey")
    else if decide (cl_DataSize a ≤ 0)%Z then inl (ErrConstraint "logs_data_size_check")
    else if existsb (λ l, bool_decide (is_Some (cl_JobID a) ∧ log_RunID l = cl_RunID a ∧ log_JobID l = cl_JobID a
                                       ∧ log_ChunkNo l = cl_ChunkNo a)) (db_logs db)
    then inl (ErrConstraint "logs_run_job_chunk_uniq")
    else inr (row, set_db_logs (db_logs db ++ [row]) db)).

Definition DeleteLog (id : Z) : M unit :=
  exec (λ _ db, set_db_logs (filter (λ l, log_ID l ≠ id) (db_logs db)) db).

(** [ORDER BY chunk_no ASC, id ASC] *)
Definition by_chunk : relation Log := λ x y,
  (log_ChunkNo x < log_ChunkNo y ∨ (log_ChunkNo x = log_ChunkNo y ∧ log_ID x ≤ log_ID y))%Z.

#[export] Instance by_chunk_dec : RelDecision by_chunk.
Proof. intros x y. unfold by_chunk. apply _. Defined.

Definition ListLogsByRun (runID : string) : M (list Log) :=
  query (λ db, merge_sort by_chunk (filter (λ l, log_RunID l = runID) (db_logs db))).

Definition Blobs : Type := gmap string bytes.

(** [put] says whether the upload succeeds. *)
Definition persistBlob {T} (insert : M T) (objectKey : T → string) (deleteFn : T → M unit) (put : bool)
    (data : bytes) (blobs : Blobs) : M (T * Blobs) :=
  row ← wrap "blobpersist: create metadata" insert;
  if decide (objectKey row = "") then throw (ErrMsg "blobpersist: no object_key")
  else if put then mret (row, <[objectKey row := data]> blobs)
  else
    d ← attempt (deleteFn row);
    match d with
    | inl _ => throw (ErrMsg "blobpersist: upload (rollback failed)")
    | inr _ => throw (ErrMsg "blobpersist: upload")
    end.

Definition persistLog (seq : Z) (put : bool) (a : CreateLogParams) (data : bytes) (blobs : Blobs) : M (Log * Blobs) :=
  persistBlob (CreateLog seq (mkCreateLogParams (cl_RunID a) (cl_JobID a) (cl_ChunkNo a) (Z.of_nat (length data))))
    log_ObjectKey (λ row, DeleteLog (log_ID row)) put data blobs.

(** ** The endpoint *)

Definition ingestMaxBodySize : N := 16777216.
Definition ingestMaxDataSize : N := 10485760.

Definition getNodeOrFail (nodeID : string) : M (Z + Node) :=
  r ← attempt (GetNode nodeID);
  mret (match r with
        | inr n => inr n
        | inl e => inl (if errors_Is e ErrNoRows then 404%Z else 500%Z)
        end).

Section Endpoint.
Context `{SpecLib} `{GzipLib}.

(** The frames published on the stream of the job; time and node of the records are
    left out. *)
Definition publishLogToJobStream (data : bytes) : list LogLine :=
  match DecodeGzip data with
  | None => [mkLogLine StreamStderr (to_bytes "[log decode error]")]
  | Some records => records
  end.

Definition CreateAndPublishLog (log : Log) (data : bytes) : list LogLine :=
  match log_JobID log with
  | None => []
  | Some j => if IsZero j then [] else publishLogToJobStream data
  end.

(** The status, the objects, and the frames published. [bodyLen] is the size of the
    request, [nodeID] the identifier in the path. *)
Definition createNodeLogsHandler (nodeID : string) (bodyLen : N) (body : json) (seq : Z) (put : bool) (blobs : Blobs) :
    M (Z * Blobs * list LogLine) :=
  match unmarshalIDTextValidated (validateURLSafeID 64) nodeID with
  | inl _ => mret (400%Z, blobs, [])
  | inr nodeID =>
      if (ingestMaxBodySize <? bodyLen)%N then mret (413%Z, blobs, [])
      else match dec_strict node_log_fields body (mkNodeLogRequest "" None 0 []) with
           | None => mret (400%Z, blobs, [])
           | Some req =>
               if IsZero (nl_RunID req) then mret (400%Z, blobs, [])
               else if bool_decide (nl_Data req = []) then mret (400%Z, blobs, [])
               else if (ingestMaxDataSize <? N.of_nat (length (nl_Data req)))%N then mret (413%Z, blobs, [])
               else
                 n ← getNodeOrFail nodeID;
                 match n with
                 | inl code => mret (code, blobs, [])
                 | inr _ =>
                     let jobID := match nl_JobID req with Some j => if IsZero j then None else Some j | None => None end in
                     r ← attempt (persistLog seq put (mkCreateLogParams (nl_RunID req) jobID (nl_ChunkNo req) 0)
                                    (nl_Data req) blobs);
                     mret (match r with
                           | inl _ => (500%Z, blobs, [])
                           | inr (log, blobs') => (201%Z, blobs', CreateAndPublishLog log (nl_Data req))
                           end)
                 end
           end
  end.

(** ** Reading a run's logs back *)

Definition backfillOneChunk (blobs : Blobs) (l : Log) : list LogLine :=
  match blobs !! log_ObjectKey l with
  | None => []
  | Some data => default [] (DecodeGzip data)
  end.

Definition allowed (jobs : list string) (l : Log) : bool :=
  match log_JobID l with Some j => bool_decide (j ∈ jobs) | None => false end.

(** The frames of the chunks of the allowed jobs; a chunk that cannot be read is
    skipped. *)
Definition backfillRunLogs (blobs : Blobs) (runID : string) (allowedJobs : list string) : M (list LogLine) :=
  logs ← ListLogsByRun runID;
  mret (filter (λ l, allowed allowedJobs l = true) logs ≫= backfillOneChunk blobs).

End Endpoint.

(** * Log chunks arrive ([LogIngest]) *)

(** ** Base64 *)

Lemma byte_val_bound c : (0 ≤ byte_val c < 256)%Z.
Proof. unfold byte_val. pose proof (nat_ascii_bounded c). lia. Qed.

Lemma bz_byte_val c : bz (byte_val c) = c.
Proof. unfold bz, byte_val. rewrite Nat2Z.id. apply ascii_nat_embedding. Qed.

Definition b64_ok (n : Z) : bool :=
  bool_decide (b64value (b64char n) = Some n) && bool_decide (b64char n ≠ b 10 ∧ b64char n ≠ b 13 ∧ b64char n ≠ pad).

Lemma b64_all : forallb b64_ok (Z.of_nat <$> seq 0 64) = true.
Proof. vm_compute. reflexivity. Qed.

Lemma b64char_ok n : (0 ≤ n < 64)%Z →
  b64value (b64char n) = Some n ∧ b64char n ≠ b 10 ∧ b64char n ≠ b 13 ∧ b64char n ≠ pad.
Proof.
  intros Hn. pose proof b64_all as Hall. rewrite forallb_forall in Hall. specialize (Hall n).
  unfold b64_ok in Hall. rewrite andb_true_iff, !bool_decide_eq_true in Hall. apply Hall.
  apply list_elem_of_In, list_elem_of_fmap. exists (Z.to_nat n). rewrite Z2Nat.id by lia. split; [done|].
  apply list_elem_of_In, in_seq. lia.
Qed.

Lemma b64value_char n : (0 ≤ n < 64)%Z → b64value (b64char n) = Some n.
Proof. intros Hn. by apply b64char_ok. Qed.

(** Lists three by three. *)
Lemma list_ind3 {A} (P : list A → Prop) :
  P [] → (∀ x, P [x]) → (∀ x y, P [x; y]) → (∀ x y z l, P l → P (x :: y :: z :: l)) → ∀ l, P l.
Proof.
  intros H0 H1 H2 H3. fix IH 1. intros [|x [|y [|z l]]]; [done|done|done|]. apply H3, IH.
Qed.

Lemma bz_eq n c : n = byte_val c → bz n = c.
Proof. intros ->. apply bz_byte_val. Qed.

Lemma b64_groups_base64 l : b64_groups (base64 l) = Some l.
Proof.
  induction l as [|x|x y|x y z l IH] using list_ind3; [done|..]; cbn [base64 b64_groups].
  all: pose proof (byte_val_bound x); try (pose proof (byte_val_bound y)); try (pose proof (byte_val_bound z)).
  all: rewrite !b64value_char by (Z.div_mod_to_equations; lia); cbn [mbind option_bind].
  1, 2: change (b64value pad) with (@None Z); rewrite decide_True by done.
  3: rewrite IH; cbn [mbind option_bind].
  all: repeat (f_equal; try (apply bz_eq; Z.div_mod_to_equations; lia)).
Qed.

Lemma base64_chars l : Forall (λ c, c ≠ b 10 ∧ c ≠ b 13) (base64 l).
Proof.
  assert (Hc : ∀ n, (0 ≤ n < 64)%Z → b64char n ≠ b 10 ∧ b64char n ≠ b 13) by (intros n Hn; by destruct (b64char_ok n Hn) as (_ & ? & ? & _)).
  induction l as [|x|x y|x y z l IH] using list_ind3; [done|..]; cbn [base64].
  all: pose proof (byte_val_bound x); try (pose proof (byte_val_bound y)); try (pose proof (byte_val_bound z)).
  all: repeat (apply Forall_cons; split; [first [apply Hc; Z.div_mod_to_equations; lia|done]|]); done.
Qed.

Lemma unbase64_base64 l : unbase64 (base64 l) = Some l.
Proof. unfold unbase64. rewrite filter_all by apply base64_chars. apply b64_groups_base64. Qed.

Lemma base64_length l : (3 * N.of_nat (length (base64 l)) ≤ 4 * N.of_nat (length l) + 8)%N.
Proof. induction l as [|x|x y|x y z l IH] using list_ind3; cbn [base64 length] in *; lia. Qed.

(** ** The request of a chunk *)

Section Request.
Context `{SpecLib} `{GzipLib}.

(** The identifiers of a streamer, as its requests carry them. *)
Definition carried_job (ls : LogStreamer) : option string :=
  if IsZero (ls_jobID ls) then None else Some (trim_space (ls_jobID ls)).

Lemma marshal_trims v s : marshalIDTextValidated ksuid_valid v = inr s →
  s = trim_space v ∧ dec_JobID (JStr s) "" = Some s ∧ IsEmpty s = false.
Proof.
  intros E. destruct (id_roundtrip _ _ _ E) as (Hu & Hm & ->). split; [done|]. unfold dec_JobID. rewrite Hu. split; [done|].
  unfold marshalIDTextValidated in Hm. destruct (IsEmpty (trim_space (trim_space v))) eqn:E1; [done|].
  by rewrite trim_space_idem in E1.
Qed.

Lemma dec_obj_step {A} (fields : list (string * Decoder A)) k d v kvs x y :
  find_field fields k = Some d → d v x = Some y → dec_struct fields (JObj ((k, v) :: kvs)) x = dec_struct fields (JObj kvs) y.
Proof using Type. intros Hf Hd. by rewrite (dec_obj_cons fields _ _ _ _ _ Hf), Hd. Qed.

(** A request of a first execution is understood. *)
Lemma payload_decodes ls c body :
  sendChunk_payload ls c = Some body → ls_resumeCount ls = 0%Z → in_int32 (ck_No c) = true →
  dec_strict node_log_fields body (mkNodeLogRequest "" None 0 [])
  = Some (mkNodeLogRequest (trim_space (ls_runID ls)) (carried_job ls) (ck_No c) (ck_Data c)).
Proof.
  unfold sendChunk_payload, carried_job. intros Hb Hr Hn.
  destruct (marshalIDTextValidated ksuid_valid (ls_runID ls)) as [|run] eqn:Er; [done|]. cbn [mbind option_bind] in Hb.
  destruct (marshal_trims _ _ Er) as (-> & Hrun & _). rewrite Hr in Hb. rewrite decide_True in Hb by done.
  assert (Htail : ∀ r j, dec_struct node_log_fields (JObj [("chunk_no", JInt (ck_No c)); ("data", JStr (of_bytes (base64 (ck_Data c))))])
      (mkNodeLogRequest r j 0 []) = Some (mkNodeLogRequest r j (ck_No c) (ck_Data c))).
  { intros r j. erewrite dec_obj_step; [|reflexivity|unfold dec_field, dec_int32; rewrite Hn; reflexivity].
    erewrite dec_obj_step; [|reflexivity|unfold dec_field, dec_bytes; rewrite to_of, unbase64_base64; reflexivity]. reflexivity. }
  destruct (IsZero (ls_jobID ls)) eqn:Ej; cbn [mbind option_bind] in Hb.
  - injection Hb as <-. transitivity (dec_struct node_log_fields (JObj [("run_id", JStr (trim_space (ls_runID ls)));
      ("chunk_no", JInt (ck_No c)); ("data", JStr (of_bytes (base64 (ck_Data c))))]) (mkNodeLogRequest "" None 0 [])); [reflexivity|].
    erewrite dec_obj_step; [|reflexivity|unfold dec_field; cbn [nl_RunID]; rewrite Hrun; reflexivity]. apply Htail.
  - destruct (marshalIDTextValidated ksuid_valid (ls_jobID ls)) as [|job] eqn:Em; [done|]. cbn [mbind option_bind] in Hb.
    destruct (marshal_trims _ _ Em) as (-> & Hjob & _). injection Hb as <-.
    transitivity (dec_struct node_log_fields (JObj [("run_id", JStr (trim_space (ls_runID ls)));
      ("job_id", JStr (trim_space (ls_jobID ls))); ("chunk_no", JInt (ck_No c));
      ("data", JStr (of_bytes (base64 (ck_Data c))))]) (mkNodeLogRequest "" None 0 [])); [reflexivity|].
    erewrite dec_obj_step; [|reflexivity|unfold dec_field; cbn [nl_RunID]; rewrite Hrun; reflexivity].
    erewrite dec_obj_step; [|reflexivity|unfold dec_field, dec_ptr; cbn [nl_JobID default]; rewrite Hjob; reflexivity]. apply Htail.
Qed.

(** A request of a later execution is not: it has a field the endpoint does not know. *)
Lemma payload_refused ls c body :
  sendChunk_payload ls c = Some body → ls_resumeCount ls ≠ 0%Z →
  dec_strict node_log_fields body (mkNodeLogRequest "" None 0 []) = None.
Proof.
  unfold sendChunk_payload. intros Hb Hr. rewrite decide_False in Hb by done.
  destruct (marshalIDTextValidated ksuid_valid (ls_runID ls)) as [|run]; [done|]. cbn [mbind option_bind] in Hb.
  destruct (if IsZero (ls_jobID ls) then _ else _) as [job|]; [|done]. cbn [mbind option_bind] in Hb.
  injection Hb as <-. reflexivity.
Qed.

(** ** Storing a chunk *)

(** Nothing stands in the way of the row of a chunk. *)
Record welcome (db : DB) (seq : Z) (run : string) (job : option string) (no : Z) : Prop := {
  wl_seq : Forall (λ l, log_ID l ≠ seq) (db_logs db);
  wl_run : is_Some (db_runs db !! run);
  wl_job : ∀ j, job = Some j → is_Some (db_jobs db !! j);
  wl_fresh : is_Some job → Forall (λ l, ¬ (log_RunID l = run ∧ log_JobID l = job ∧ log_ChunkNo l = no)) (db_logs db)
}.

Lemma existsb_none {A} (f : A → bool) l : Forall (λ x, f x = false) l → existsb f l = false.
Proof using Type. induction 1 as [|x l Hx _ IH]; [done|]. simpl. by rewrite Hx, IH. Qed.

Lemma ingest_run nodeID bodyLen body seq blobs env db req :
  unmarshalIDTextValidated (validateURLSafeID 64) nodeID = inr nodeID → (bodyLen ≤ ingestMaxBodySize)%N →
  dec_strict node_log_fields body (mkNodeLogRequest "" None 0 []) = Some req →
  IsZero (nl_RunID req) = false → (∀ j, nl_JobID req = Some j → IsZero j = false) → nl_Data req ≠ [] →
  (N.of_nat (length (nl_Data req)) ≤ ingestMaxDataSize)%N → is_Some (db_nodes db !! nodeID) →
  welcome db seq (nl_RunID req) (nl_JobID req) (nl_ChunkNo req) →
  let row := mkLog seq (nl_RunID req) (nl_JobID req) (nl_ChunkNo req) (Z.of_nat (length (nl_Data req))) (env_now env) in
  run_op (createNodeLogsHandler nodeID bodyLen body seq true blobs) env db []
  = (inr (201%Z, <[log_ObjectKey row := nl_Data req]> blobs, CreateAndPublishLog row (nl_Data req)),
     set_db_logs (db_logs db ++ [row]) db).
Proof.
  intros Hid Hlen Hdec Hrun Hjob Hne Hsize [n Hn] [Hs Hr Hj Hf] row. unfold createNodeLogsHandler. rewrite Hid.
  replace (ingestMaxBodySize <? bodyLen)%N with false by (symmetry; apply N.ltb_ge; lia). rewrite Hdec, Hrun.
  rewrite (bool_decide_eq_false_2 (nl_Data req = [])) by done.
  replace (ingestMaxDataSize <? N.of_nat (length (nl_Data req)))%N with false by (symmetry; apply N.ltb_ge; lia).
  assert (Hins : CreateLog seq (mkCreateLogParams (nl_RunID req) (nl_JobID req) (nl_ChunkNo req) (Z.of_nat (length (nl_Data req))))
                 (session env db []) = (inr row, done_stmt (set_db_logs (db_logs db ++ [row]) db) (session env db []))).
  { unfold CreateLog, stmt. cbn [tx_aborted session tx_faults head tx_env tx_db].
    rewrite existsb_none by (eapply Forall_impl; [exact Hs|]; intros l Hl; by rewrite bool_decide_eq_false).
    cbn [cl_RunID cl_JobID cl_DataSize cl_ChunkNo].
    rewrite decide_False by (destruct Hr as [? ->]; done).
    replace (match nl_JobID req with Some j => bool_decide (db_jobs db !! j = None) | None => false end) with false.
    2: { destruct (nl_JobID req) as [j|] eqn:Ej; [|done]. destruct (Hj j eq_refl) as [? ->]. by rewrite bool_decide_eq_false_2. }
    rewrite decide_False by (destruct (nl_Data req); simpl; [done|lia]).
    rewrite existsb_none; [done|]. destruct (nl_JobID req) as [j|] eqn:Ej.
    - eapply Forall_impl; [apply Hf; by eexists|]. intros l Hl. apply bool_decide_eq_false. intros (_ & Hl'). by apply Hl.
    - apply Forall_forall. intros l _. apply bool_decide_eq_false. by intros [[? ?] _]. }
  assert (Hjid : match nl_JobID req with Some j => if IsZero j then None else Some j | None => None end = nl_JobID req).
  { destruct (nl_JobID req) as [j|] eqn:Ej; [|done]. by rewrite (Hjob j eq_refl). }
  assert (Hkey : log_ObjectKey row ≠ "") by done.
  assert (Hnode : getNodeOrFail nodeID (session env db []) = (inr (inr n), session env db [])).
  { unfold getNodeOrFail, GetNode, query_one, stmt, attempt, mbind, M_bind. cbn. by rewrite Hn. }
  unfold run_op. rewrite Hjid. unfold mbind at 1, M_bind at 1. rewrite Hnode.
  unfold persistLog, persistBlob, wrap, attempt, mbind, M_bind. cbn [cl_RunID cl_JobID cl_ChunkNo cl_DataSize].
  rewrite Hins. rewrite decide_False by done. reflexivity.
Qed.

End Request.

(** ** Keys *)

Lemma last_component (x1 x2 w1 w2 : bytes) :
  x1 ++ slash :: w1 = x2 ++ slash :: w2 → slash ∉ w1 → slash ∉ w2 → w1 = w2.
Proof.
  intros E H1 H2. apply (f_equal reverse) in E. rewrite !reverse_app, !reverse_cons, <-!app_assoc in E. cbn [app] in E.
  assert (Hc : ∀ w x, slash ∉ w → cut_bytes slash (reverse w ++ slash :: x) = Some (reverse w, x)).
  { intros w x Hw. apply cut_app. by rewrite elem_of_reverse. }
  pose proof (Hc w1 (reverse x1) H1) as E1. rewrite E, Hc in E1 by done. injection E1 as E1 _.
  apply (f_equal reverse) in E1. by rewrite !reverse_involutive in E1.
Qed.

Lemma pretty_no_slash (z : Z) : slash ∉ to_bytes (pretty z).
Proof.
  destruct (digits_Z z (S (Z.to_nat (Z.abs z)))) as [Hd _]; [|lia|].
  - assert (Hp : ∀ n : nat, (Z.of_nat n < 10 ^ Z.of_nat (S n))%Z).
    { intros n. induction n as [|n IH]; [done|]. rewrite (Nat2Z.inj_succ (S n)), Z.pow_succ_r by lia. lia. }
    specialize (Hp (Z.to_nat (Z.abs z))). rewrite Z2Nat.id in Hp by lia. exact Hp.
  - intros Hin. rewrite Forall_forall in Hd. by specialize (Hd _ Hin).
Qed.

(** Rows with different identifiers have different keys. *)
Lemma log_key_inj l1 l2 : log_ObjectKey l1 = log_ObjectKey l2 → log_ID l1 = log_ID l2.
Proof.
  unfold log_ObjectKey. intros E. apply (f_equal to_bytes) in E.
  assert (Hw : ∀ l, slash ∉ to_bytes (pretty (log_ID l) +:+ ".gz")).
  { intros l. rewrite to_bytes_app, elem_of_app. intros [Hin|Hin]; [by eapply pretty_no_slash|].
    by apply (bool_decide_eq_true_2 _) in Hin. }
  assert (Hs : ∀ l, ∃ x, to_bytes ("logs/run/" +:+ log_RunID l +:+ "/job/" +:+ default "none" (log_JobID l) +:+ "/chunk/"
      +:+ pretty (log_ChunkNo l) +:+ "/log/" +:+ pretty (log_ID l) +:+ ".gz")
    = x ++ slash :: to_bytes (pretty (log_ID l) +:+ ".gz")).
  { intros l. exists (to_bytes "logs/run/" ++ to_bytes (log_RunID l) ++ to_bytes "/job/" ++ to_bytes (default "none" (log_JobID l))
      ++ to_bytes "/chunk/" ++ to_bytes (pretty (log_ChunkNo l)) ++ to_bytes "/log").
    rewrite !to_bytes_app. rewrite <-!app_assoc. reflexivity. }
  destruct (Hs l1) as [x1 E1], (Hs l2) as [x2 E2]. rewrite E1, E2 in E.
  apply last_component in E; [|apply Hw..]. rewrite !to_bytes_app in E. apply app_inv_tail in E.
  apply (f_equal of_bytes) in E. rewrite !of_to in E. by apply (inj pretty) in E.
Qed.

(** ** Sizes *)

Lemma join_length c ws : length (join_bytes c ws) ≤ sum_list_with (λ w, S (length w)) ws.
Proof.
  induction ws as [|w ws IH]; [done|]. destruct ws as [|w' ws]; [simpl; lia|].
  change (join_bytes c (w :: w' :: ws)) with (w ++ c :: join_bytes c (w' :: ws)). rewrite length_app. cbn [length].
  cbn [sum_list_with] in *. lia.
Qed.

(** What a member takes, with its separator. *)
Definition member_size (kv : string * json) : nat := length (quoted kv.1) + 2 + length (render kv.2).

Lemma render_obj_length fs : length (render (JObj fs)) ≤ 2 + sum_list_with member_size fs.
Proof.
  cbn [render length]. rewrite length_app. cbn [length].
  set (ws := (fix go (l : list (string * json)) : list bytes := match l with [] => [] | (k, v) :: l' => _ end) fs).
  assert (Hws : sum_list_with (λ w, S (length w)) ws ≤ sum_list_with member_size fs).
  { subst ws. induction fs as [|[k v] fs IH]; [done|]. cbn [sum_list_with]. unfold member_size at 1.
    rewrite length_app. cbn [length fst snd]. lia. }
  pose proof (join_length ","%char ws). lia.
Qed.

Lemma quoted_length s : length (quoted s) ≤ 2 + 6 * length (to_bytes s).
Proof. unfold quoted. cbn [length]. rewrite length_app. cbn [length]. pose proof (quote_length (to_bytes s)). lia. Qed.

Lemma b64_plain l : Forall (λ c, ascii_lt 128 c = true ∧ escape c = [c]) (base64 l).
Proof.
  assert (Hall : forallb (λ n, ascii_lt 128 (b64char n) && bool_decide (escape (b64char n) = [b64char n])) (Z.of_nat <$> seq 0 64) = true)
    by (vm_compute; reflexivity).
  assert (Hc : ∀ n, (0 ≤ n < 64)%Z → ascii_lt 128 (b64char n) = true ∧ escape (b64char n) = [b64char n]).
  { intros n Hn. rewrite forallb_forall in Hall. specialize (Hall n). rewrite andb_true_iff, bool_decide_eq_true in Hall.
    apply Hall, list_elem_of_In, list_elem_of_fmap. exists (Z.to_nat n). rewrite Z2Nat.id by lia. split; [done|].
    apply list_elem_of_In, in_seq. lia. }
  induction l as [|x|x y|x y z l IH] using list_ind3; [done|..]; cbn [base64].
  all: pose proof (byte_val_bound x); try (pose proof (byte_val_bound y)); try (pose proof (byte_val_bound z)).
  all: repeat (apply Forall_cons; split; [first [apply Hc; Z.div_mod_to_equations; lia|done]|]); done.
Qed.

Lemma quoted_base64_length l : (3 * N.of_nat (length (quoted (of_bytes (base64 l)))) ≤ 4 * N.of_nat (length l) + 14)%N.
Proof.
  unfold quoted. rewrite to_of, quote_plain by apply b64_plain. cbn [length]. rewrite length_app. cbn [length].
  pose proof (base64_length l). lia.
Qed.

Lemma member_str k v : member_size (k, JStr v) ≤ length (quoted k) + 4 + 6 * length (to_bytes v).
Proof. unfold member_size. cbn [fst snd]. change (render (JStr v)) with (quoted v). pose proof (quoted_length v). lia. Qed.

Lemma member_int k z : in_int64 z = true → member_size (k, JInt z) ≤ length (quoted k) + 22.
Proof.
  intros Hz. apply bool_decide_eq_true in Hz. unfold member_size. cbn [fst snd]. change (render (JInt z)) with (to_bytes (pretty z)).
  destruct (digits_Z z 19) as [_ Hl]; [|lia|lia]. unfold min_int64, max_int64 in Hz.
  change (10 ^ Z.of_nat 19)%Z with 10000000000000000000%Z. lia.
Qed.

Lemma int32_int64 z : in_int32 z = true → in_int64 z = true.
Proof.
  intros Hz. apply bool_decide_eq_true in Hz. apply bool_decide_eq_true.
  unfold min_int32, max_int32, min_int64, max_int64 in *. lia.
Qed.

(** ** A session's chunks are stored and read back *)

Section Arrive.
Context `{SpecLib} `{GzipLib} `{!GzipLaws}.

(** The requests of chunks, one after the other, each with the next value of the
    sequence. *)
Fixpoint deliver (ls : LogStreamer) (nodeID : string) (env : Env) (arrivals : list (Chunk * Z)) (db : DB) (blobs : Blobs) :
    list Z * (DB * Blobs) :=
  match arrivals with
  | [] => ([], (db, blobs))
  | (c, seq) :: rest =>
      match sendChunk_payload ls c with
      | None => deliver ls nodeID env rest db blobs
      | Some body =>
          match run_op (createNodeLogsHandler nodeID (N.of_nat (length (render body))) body seq true blobs) env db [] with
          | (inr (code, blobs', _), db') =>
              let '(codes, final) := deliver ls nodeID env rest db' blobs' in (code :: codes, final)
          | (inl _, db') => let '(codes, final) := deliver ls nodeID env rest db' blobs in (500%Z :: codes, final)
          end
      end
  end.

(** A chunk that both ends accept. *)
Definition sound_chunk (c : Chunk) : Prop :=
  in_int32 (ck_No c) = true ∧ ck_Data c ≠ [] ∧ (N.of_nat (length (ck_Data c)) ≤ MaxUploadSize)%N.

(** The job of a streamer, its run and its node are known to the server. *)
Record known_job (ls : LogStreamer) (nodeID : string) (db : DB) : Prop := {
  kj_run_id : marshalIDTextValidated ksuid_valid (ls_runID ls) = inr (ls_runID ls);
  kj_job_id : marshalIDTextValidated ksuid_valid (ls_jobID ls) = inr (ls_jobID ls);
  kj_node_id : unmarshalIDTextValidated (validateURLSafeID 64) nodeID = inr nodeID;
  kj_node : is_Some (db_nodes db !! nodeID);
  kj_run : is_Some (db_runs db !! ls_runID ls);
  kj_job : is_Some (db_jobs db !! ls_jobID ls);
  kj_size : (length (to_bytes (ls_runID ls)) ≤ 64 ∧ length (to_bytes (ls_jobID ls)) ≤ 64)%nat
}.

(** The request of a chunk within the node's limit is within the server's. *)
Lemma payload_size ls c body :
  sendChunk_payload ls c = Some body → in_int64 (ls_resumeCount ls) = true → in_int32 (ck_No c) = true →
  (length (to_bytes (trim_space (ls_runID ls))) ≤ 64)%nat → (length (to_bytes (trim_space (ls_jobID ls))) ≤ 64)%nat →
  (N.of_nat (length (ck_Data c)) ≤ MaxUploadSize)%N →
  (N.of_nat (length (render body)) ≤ ingestMaxBodySize)%N.
Proof.
  unfold sendChunk_payload. intros Hb Hr Hn Hrun Hj Hd.
  destruct (marshalIDTextValidated ksuid_valid (ls_runID ls)) as [|run] eqn:Er; [done|]. cbn [mbind option_bind] in Hb.
  destruct (marshal_trims _ _ Er) as (-> & _ & _).
  assert (Hrun' := member_str "run_id" (trim_space (ls_runID ls))).
  assert (Hdata := quoted_base64_length (ck_Data c)).
  assert (Hrc : sum_list_with member_size (if decide (ls_resumeCount ls = 0%Z) then [] else [("resume_count", JInt (ls_resumeCount ls))]) ≤ 40).
  { case_decide; cbn [sum_list_with]; [lia|]. pose proof (member_int "resume_count" _ Hr).
    change (length (quoted "resume_count")) with 14 in *. lia. }
  assert (Hno := member_int "chunk_no" (ck_No c) (int32_int64 _ Hn)).
  assert (Hjs : ∃ job, sum_list_with member_size job ≤ 500 ∧
    body = JObj ((if decide (ls_resumeCount ls = 0%Z) then [] else [("resume_count", JInt (ls_resumeCount ls))])
              ++ [("run_id", JStr (trim_space (ls_runID ls)))] ++ job
              ++ [("chunk_no", JInt (ck_No c)); ("data", JStr (of_bytes (base64 (ck_Data c))))])).
  { destruct (IsZero (ls_jobID ls)); cbn [mbind option_bind] in Hb.
    - injection Hb as <-. exists []. split; [simpl; lia|done].
    - destruct (marshalIDTextValidated ksuid_valid (ls_jobID ls)) as [|job] eqn:Em; [done|]. cbn [mbind option_bind] in Hb.
      destruct (marshal_trims _ _ Em) as (-> & _ & _). injection Hb as <-. eexists [_]. split; [|done].
      cbn [sum_list_with]. pose proof (member_str "job_id" (trim_space (ls_jobID ls))).
      change (length (quoted "job_id")) with 8 in *. lia. }
  destruct Hjs as (job & Hjs & ->). match goal with |- context [render (JObj ?l)] => pose proof (render_obj_length l) as Hlen end.
  rewrite !sum_list_with_app in Hlen. cbn [sum_list_with] in Hlen.
  assert (Hmd : member_size ("data", JStr (of_bytes (base64 (ck_Data c)))) = 8 + length (quoted (of_bytes (base64 (ck_Data c)))))
    by reflexivity.
  change (length (quoted "run_id")) with 8 in *. change (length (quoted "chunk_no")) with 10 in *.
  unfold MaxUploadSize, ingestMaxBodySize in *. lia.
Qed.

Definition row_of (ls : LogStreamer) (env : Env) (a : Chunk * Z) : Log :=
  mkLog a.2 (ls_runID ls) (Some (ls_jobID ls)) (ck_No a.1) (Z.of_nat (length (ck_Data a.1))) (env_now env).

Lemma trimmed v : marshalIDTextValidated ksuid_valid v = inr v → trim_space v = v ∧ IsZero v = false.
Proof. intros E. destruct (marshal_trims _ _ E) as (Ht & _ & He). by rewrite <-Ht. Qed.

(** One chunk is stored. *)
Lemma arrive_one ls nodeID env db blobs c seq :
  known_job ls nodeID db → ls_resumeCount ls = 0%Z → sound_chunk c → welcome db seq (ls_runID ls) (Some (ls_jobID ls)) (ck_No c) →
  ∃ body frames, sendChunk_payload ls c = Some body ∧
    run_op (createNodeLogsHandler nodeID (N.of_nat (length (render body))) body seq true blobs) env db []
    = (inr (201%Z, <[log_ObjectKey (row_of ls env (c, seq)) := ck_Data c]> blobs, frames),
       set_db_logs (db_logs db ++ [row_of ls env (c, seq)]) db).
Proof.
  intros [Hr Hj Hid Hn Hrun Hjob [Hs1 Hs2]] Hf (Hno & Hne & Hsize) Hw.
  destruct (trimmed _ Hr) as [Htr Hzr], (trimmed _ Hj) as [Htj Hzj].
  destruct (sendChunk_payload ls c) as [body|] eqn:Eb.
  2: { unfold sendChunk_payload in Eb. by rewrite Hr, Hzj, Hj in Eb. }
  pose proof (payload_decodes _ _ _ Eb Hf Hno) as Hd. unfold carried_job in Hd. rewrite Htr, Htj, Hzj in Hd.
  exists body, (CreateAndPublishLog (row_of ls env (c, seq)) (ck_Data c)). split; [done|].
  apply (ingest_run nodeID _ body seq blobs env db _ Hid) with (2 := Hd); cbn [nl_RunID nl_JobID nl_Data nl_ChunkNo]; try done.
  - eapply payload_size; [done| |done|by rewrite Htr|by rewrite Htj|done]. by rewrite Hf.
  - by intros j [= <-].
Qed.

(** Chunks that arrive one after the other, in any order, are all stored. *)
Lemma deliver_all ls nodeID env arrivals : ∀ db blobs,
  known_job ls nodeID db → ls_resumeCount ls = 0%Z → Forall (λ a, sound_chunk a.1) arrivals →
  NoDup (ck_No ∘ fst <$> arrivals) → NoDup arrivals.*2 →
  Forall (λ a, welcome db a.2 (ls_runID ls) (Some (ls_jobID ls)) (ck_No a.1)) arrivals →
  ∃ blobs', deliver ls nodeID env arrivals db blobs
    = (replicate (length arrivals) 201%Z, (set_db_logs (db_logs db ++ (row_of ls env <$> arrivals)) db, blobs')) ∧
    (∀ a, a ∈ arrivals → blobs' !! log_ObjectKey (row_of ls env a) = Some (ck_Data a.1)) ∧
    (∀ k, (∀ a, a ∈ arrivals → log_ObjectKey (row_of ls env a) ≠ k) → blobs' !! k = blobs !! k).
Proof.
  induction arrivals as [|[c seq] arrivals IH]; intros db blobs Hk Hf Hs Hn Hq Hw.
  { exists blobs. cbn [deliver fmap list_fmap length replicate]. split; [by rewrite app_nil_r; destruct db|].
    split; [by intros a ?%elem_of_nil|done]. }
  apply Forall_cons in Hs as [Hs Hss], Hw as [Hw Hws]. cbn [fmap list_fmap] in Hn, Hq.
  apply NoDup_cons in Hn as [Hn Hnn], Hq as [Hq Hqq]. cbn [fst snd compose] in *.
  destruct (arrive_one ls nodeID env db blobs c seq Hk Hf Hs Hw) as (body & frames & Eb & Er).
  set (db1 := set_db_logs (db_logs db ++ [row_of ls env (c, seq)]) db).
  set (blobs1 := <[log_ObjectKey (row_of ls env (c, seq)) := ck_Data c]> blobs).
  destruct (IH db1 blobs1) as (blobs' & E & Hin & Hout); try done.
  - destruct Hk. by split.
  - rewrite Forall_forall in Hws |- *. intros a Ha. destruct (Hws a Ha) as [W1 W2 W3 W4]. split; try done.
    + apply Forall_app. split; [done|]. apply Forall_singleton. cbn. intros E. apply Hq. rewrite E. apply list_elem_of_fmap. by exists a.
    + intros Hj. apply Forall_app. split; [by apply W4|]. apply Forall_singleton. cbn. intros (_ & _ & E).
      apply Hn. rewrite E. apply list_elem_of_fmap. by exists a.
  - exists blobs'. cbn [deliver]. rewrite Eb, Er. fold db1 blobs1. rewrite E. split; [|split].
    + cbn [length replicate fmap list_fmap]. do 2 f_equal. unfold db1. cbn [db_logs set_db_logs]. by rewrite <-app_assoc.
    + intros a [->|Ha]%elem_of_cons; [|by apply Hin]. rewrite Hout; [apply lookup_insert_eq|].
      intros a Ha E'. apply log_key_inj in E'. cbn in E'. apply Hq. rewrite <-E'. apply list_elem_of_fmap. by exists a.
    + intros k Hall. rewrite Hout; [|intros a Ha; apply Hall; by right]. apply lookup_insert_ne. apply Hall. left.
Qed.

(** The chunks of a resumed job are all refused. *)
Lemma deliver_refused ls nodeID env arrivals db blobs :
  known_job ls nodeID db → ls_resumeCount ls ≠ 0%Z → in_int64 (ls_resumeCount ls) = true →
  Forall (λ a, sound_chunk a.1) arrivals →
  deliver ls nodeID env arrivals db blobs = (replicate (length arrivals) 400%Z, (db, blobs)).
Proof.
  intros [Hr Hj Hid Hn Hrun Hjob [Hs1 Hs2]] Hz Hi. destruct (trimmed _ Hr) as [Htr _], (trimmed _ Hj) as [Htj Hzj].
  induction 1 as [|[c seq] arrivals (Hno & _ & Hsize) _ IH]; [done|]. cbn [fst] in *.
  destruct (sendChunk_payload ls c) as [body|] eqn:Eb.
  2: { unfold sendChunk_payload in Eb. by rewrite Hr, Hzj, Hj in Eb. }
  assert (Hbody := payload_size _ _ _ Eb Hi Hno ltac:(by rewrite Htr) ltac:(by rewrite Htj) Hsize). apply N.ltb_ge in Hbody.
  cbn [deliver]. rewrite Eb. unfold createNodeLogsHandler. rewrite Hid, Hbody, (payload_refused _ _ _ Eb Hz). cbn. by rewrite IH.
Qed.

(** *** Reading back *)

#[local] Instance by_chunk_trans : Transitive by_chunk.
Proof using Type. intros x y z. unfold by_chunk. lia. Qed.

#[local] Instance by_chunk_total : Total by_chunk.
Proof using Type. intros x y. unfold by_chunk. lia. Qed.

Lemma StronglySorted_filter {A} (R : relation A) (P : A → Prop) `{∀ x, Decision (P x)} l :
  StronglySorted R l → StronglySorted R (filter P l).
Proof using Type.
  induction 1 as [|x l Hs IH Hx]; [constructor|]. rewrite filter_cons. case_decide; [|done].
  constructor; [done|]. rewrite Forall_forall in *. intros y Hy. apply Hx. by apply list_elem_of_filter in Hy as [_ ?].
Qed.

(** Chunks in the order of their numbers. *)
Definition ascending : list Chunk → Prop := StronglySorted (λ c c', (ck_No c < ck_No c')%Z).

Lemma rows_of_job ls env db arrivals :
  Forall (λ l, log_JobID l ≠ Some (ls_jobID ls)) (db_logs db) →
  filter (λ l, allowed [ls_jobID ls] l = true)
    (filter (λ l, log_RunID l = ls_runID ls) (db_logs db ++ (row_of ls env <$> arrivals))) = row_of ls env <$> arrivals.
Proof using Type.
  intros Hno. rewrite filter_app, filter_app.
  rewrite (filter_all _ (row_of ls env <$> arrivals)) by (apply Forall_fmap, Forall_forall; done).
  rewrite (filter_all _ (row_of ls env <$> arrivals)).
  2: { apply Forall_fmap, Forall_forall. intros a _. cbn. apply bool_decide_eq_true. by left. }
  assert (Hnil : filter (λ l, allowed [ls_jobID ls] l = true) (filter (λ l, log_RunID l = ls_runID ls) (db_logs db)) = []).
  { apply filter_none, Forall_forall. intros l [_ Hl]%list_elem_of_filter. rewrite Forall_forall in Hno. specialize (Hno l Hl).
    unfold allowed. destruct (log_JobID l) as [j|]; [|done]. intros ->%bool_decide_eq_true%list_elem_of_singleton. done. }
  by rewrite Hnil.
Qed.

Lemma ascending_inj cs c1 c2 : ascending cs → c1 ∈ cs → c2 ∈ cs → ck_No c1 = ck_No c2 → c1 = c2.
Proof using Type.
  unfold ascending. induction 1 as [|c cs _ IH Hall]; [by intros ?%elem_of_nil|]. rewrite Forall_forall in Hall.
  intros [->|Hc1]%elem_of_cons [->|Hc2]%elem_of_cons E; [done|..]; [specialize (Hall _ Hc2); lia|specialize (Hall _ Hc1); lia|by apply IH].
Qed.

(** The stored chunks of a job are listed in the order of their numbers. *)
Lemma listed_in_order ls env db arrivals cs :
  Forall (λ l, log_JobID l ≠ Some (ls_jobID ls)) (db_logs db) → arrivals.*1 ≡ₚ cs → ascending cs →
  ∃ pairs, pairs.*1 = cs ∧ pairs ≡ₚ arrivals ∧
    filter (λ l, allowed [ls_jobID ls] l = true)
      (merge_sort by_chunk (filter (λ l, log_RunID l = ls_runID ls) (db_logs db ++ (row_of ls env <$> arrivals))))
    = row_of ls env <$> pairs.
Proof using Type.
  intros Hno Hp Ha.
  destruct (Permutation_map_inv fst arrivals (symmetry Hp)) as (pairs & Ecs & Hpp).
  exists pairs. split; [by rewrite Ecs|]. split; [by symmetry|].
  assert (Hsort : StronglySorted by_chunk (row_of ls env <$> pairs)).
  { subst cs. clear -Ha. unfold ascending in Ha. induction pairs as [|a pairs IH]; [constructor|].
    cbn [map fmap list_fmap] in *. apply StronglySorted_inv in Ha as [Ha Hall]. constructor; [by apply IH|].
    apply Forall_forall. intros l (a' & -> & Hin)%list_elem_of_fmap. left.
    eapply (proj1 (Forall_forall _ _) Hall a'.1). apply list_elem_of_In, in_map, list_elem_of_In, Hin. }
  assert (Hrows : filter (λ l, allowed [ls_jobID ls] l = true)
      (merge_sort by_chunk (filter (λ l, log_RunID l = ls_runID ls) (db_logs db ++ (row_of ls env <$> arrivals))))
    ≡ₚ row_of ls env <$> pairs).
  { rewrite (merge_sort_Permutation by_chunk), rows_of_job by done. by rewrite Hpp. }
  apply (StronglySorted_unique_strong by_chunk); [|by apply StronglySorted_filter, StronglySorted_merge_sort; apply _|done|].
  - intros l1 l2 Hl1 (a2 & -> & Ha2)%list_elem_of_fmap H12 H21. rewrite Hrows in Hl1. apply list_elem_of_fmap in Hl1 as (a1 & -> & Ha1).
    assert (Hin : ∀ a, a ∈ pairs → a.1 ∈ cs) by (intros a Hin; subst cs; apply list_elem_of_In, in_map, list_elem_of_In, Hin).
    unfold by_chunk in H12, H21. cbn in H12, H21.
    assert (E1 : a1.1 = a2.1) by (apply (ascending_inj cs); auto; lia).
    unfold row_of. rewrite E1. by replace a1.2 with a2.2 by lia.
  - done.
Qed.

(** *** What a streamer sends is acceptable *)

Lemma wrap32_in z : in_int32 (wrap32 z) = true.
Proof using Type.
  apply bool_decide_eq_true. unfold wrap32, min_int32, max_int32. pose proof (Z.mod_pos_bound (z + 2 ^ 31) (2 ^ 32)). lia.
Qed.

Definition good_outcome (o : Outcome) : Prop := match o with Sent c => sound_chunk c | _ => True end.

(** The number stays at its width, and a chunk that is sent is within the limits. *)
Definition keeps_sound (f : LogStreamer → LogStreamer * Outcome) : Prop :=
  ∀ ls, in_int32 (ls_chunkNo ls) = true → in_int32 (ls_chunkNo (f ls).1) = true ∧ good_outcome (f ls).2.

Lemma flush_sound : keeps_sound flushLocked.
Proof.
  intros ls Hn. unfold flushLocked. case_match; [done|].
  destruct (MaxUploadSize <? N.of_nat (length (gz_close (ls_gz ls))))%N eqn:Hs; [done|]. split; [apply wrap32_in|].
  cbn [snd]. destruct (ls_closed ls); [done|]. split; [done|]. split; [apply gz_closed_ne|]. apply N.ltb_ge in Hs. exact Hs.
Qed.

Lemma ls_step_sound o : keeps_sound (λ ls, ls_step ls o).
Proof.
  intros ls Hn. destruct o as [stream p|]; cbn [ls_step].
  - unfold writeStream. assert (Ha : ls_chunkNo (appendProcessedLocked stream p ls) = ls_chunkNo ls).
    { unfold appendProcessedLocked. destruct (complete_lines _). by destruct (is_stderr stream). }
    case_match; [apply flush_sound|]; by rewrite ?Ha; cbn; rewrite Ha.
  - unfold periodicFlush. case_match; [by apply flush_sound|done].
Qed.

Lemma ls_run_sound ops : ∀ ls, in_int32 (ls_chunkNo ls) = true →
  in_int32 (ls_chunkNo (ls_run ls ops).1) = true ∧ Forall good_outcome (ls_run ls ops).2.
Proof.
  induction ops as [|o ops IH]; intros ls Hn; [by split|]. cbn [ls_run]. destruct (ls_step_sound o ls Hn) as [Hn1 Hg].
  destruct (ls_step ls o) as [ls1 oc]. destruct (IH ls1 Hn1) as [Hn2 Hgs]. destruct (ls_run ls1 ops) as [ls2 outs].
  split; [done|]. by constructor.
Qed.

Lemma session_sound runID jobID resume ops :
  Forall sound_chunk (sent (ls_session (NewLogStreamer runID jobID resume) ops)).
Proof.
  unfold ls_session. destruct (ls_run_sound ops (NewLogStreamer runID jobID resume) eq_refl) as [Hn Hg].
  destruct (ls_run _ ops) as [ls1 outs]. cbn [fst snd] in *.
  assert (Hc : good_outcome (Close ls1).2).
  { unfold Close. destruct (0 <? buffer_len (flushPendingLocked ls1))%N; [|done]. destruct (flush_sound (flushPendingLocked ls1) Hn) as [_ Hf].
    by destruct (flushLocked (flushPendingLocked ls1)). }
  assert (Hall : Forall good_outcome (outs ++ [(Close ls1).2])) by (apply Forall_app; split; [done|by constructor]).
  clear -Hall. induction Hall as [|o os Ho _ IH]; [constructor|]. cbn [sent omap list_omap]. destruct o; [done| |done]. by constructor.
Qed.

Lemma numbered_ascending cs : ∀ no, numbered no cs → (0 ≤ no)%Z → (no + Z.of_nat (length cs) < 2 ^ 31)%Z →
  ascending cs ∧ Forall (λ c, (no ≤ ck_No c)%Z) cs.
Proof using Type.
  induction cs as [|c cs IH]; intros no Hn Hpos Hl; [by split; constructor|]. cbn [numbered length] in *. destruct Hn as [Hc Hn].
  assert (Hw : wrap32 (no + 1) = (no + 1)%Z).
  { unfold wrap32. rewrite Z.mod_small by lia. lia. }
  rewrite Hw in Hn. destruct (IH (no + 1)%Z Hn) as [Ha Hf]; [lia|lia|]. split.
  - constructor; [done|]. eapply Forall_impl; [exact Hf|]. cbn. lia.
  - constructor; [lia|]. eapply Forall_impl; [exact Hf|]. cbn. lia.
Qed.

End Arrive.
