(* ===== verification/Tokens.v ===== *)
(** * Ephemeral GitLab tokens ([internal/server/gitlabtokens/registry.go])

    The in-memory registry that keeps a token while some run needs it. The
    methods hold the registry's mutex throughout, so each is one step. A [nil]
    registry, which every method accepts, is [None]. *)

From S2P Require Import Prelude GoStrings Types Json Db Tx Queries.
From stdpp Require Import base gmap sets list strings.
From Stdlib Require Import ZArith Lia.

Record Entry := mkEntry { en_token : string; en_runs : gset string }.

Record Registry := mkRegistry {
  rg_entries : gmap string Entry;
  rg_runHash : gmap string string
}.

Definition NewRegistry : Registry := mkRegistry ∅ ∅.

(** A missing key of a Go string map reads as the empty string. *)
Definition hash_of (r : Registry) (runID : string) : string := default "" (rg_runHash r !! runID).

Definition releaseRunLocked (runID : string) (r : Registry) : Registry :=
  let hash := hash_of r runID in
  if decide (hash = "") then r
  else
    let runHash := delete runID (rg_runHash r) in
    match rg_entries r !! hash with
    | None => mkRegistry (rg_entries r) runHash
    | Some e =>
        let runs := en_runs e ∖ {[runID]} in
        if decide (runs = ∅) then mkRegistry (delete hash (rg_entries r)) runHash
        else mkRegistry (<[hash := mkEntry (en_token e) runs]> (rg_entries r)) runHash
    end.

(** One round of the loop of [Register]. *)
Definition register_run (hash : string) (r : Registry) (runID : string) : Registry :=
  if IsZero runID then r
  else
    let old := hash_of r runID in
    let r1 := if negb (bool_decide (old = "")) && negb (bool_decide (old = hash))
              then releaseRunLocked runID r else r in
    mkRegistry
      (alter (λ e, mkEntry (en_token e) ({[runID]} ∪ en_runs e)) hash (rg_entries r1))
      (<[runID := hash]> (rg_runHash r1)).

Definition Register (hash token : string) (runIDs : list string) (r : Registry) : Registry :=
  let hash := trim_space hash in
  let token := trim_space token in
  if bool_decide (hash = "") || bool_decide (token = "") || bool_decide (runIDs = []) then r
  else
    let e := default (mkEntry "" ∅) (rg_entries r !! hash) in
    let r0 := mkRegistry (<[hash := mkEntry token (en_runs e)]> (rg_entries r)) (rg_runHash r) in
    foldl (register_run hash) r0 runIDs.

Definition Token (r : Registry) (hash : string) : option string :=
  let hash := trim_space hash in
  if decide (hash = "") then None
  else match rg_entries r !! hash with
       | None => None
       | Some e => if decide (trim_space (en_token e) = "") then None else Some (en_token e)
       end.

Definition ReleaseRuns (runIDs : list string) (r : Registry) : Registry :=
  foldl (λ r id, releaseRunLocked id r) r runIDs.

(** The methods on a possibly nil registry. *)
Definition RegisterNil (hash token : string) (runIDs : list string) (r : option Registry) : option Registry :=
  Register hash token runIDs <$> r.
Definition ReleaseRunsNil (runIDs : list string) (r : option Registry) : option Registry :=
  ReleaseRuns runIDs <$> r.

Definition ReleaseWave `{Collation} (waveID : string) (r : option Registry) : M (option Registry) :=
  match r with
  | None => mret None
  | Some reg =>
      if IsZero waveID then mret r
      else
        runs ← attempt (ListRunsByWave waveID);
        mret (match runs with
              | inl _ => r
              | inr rs => Some (ReleaseRuns (run_ID <$> rs) reg)
              end)
  end.

(** ** The registry's invariant

    [runHash] and [entries] describe the same relation, and a token is kept only
    while some run uses it. *)
Record registry_ok (r : Registry) : Prop := {
  reg_linked : ∀ id h, rg_runHash r !! id = Some h ↔
                 ∃ e, rg_entries r !! h = Some e ∧ id ∈ en_runs e;
  reg_used : ∀ h e, rg_entries r !! h = Some e → en_runs e ≠ ∅;
  reg_nonblank : ∀ h e, rg_entries r !! h = Some e →
                 h ≠ "" ∧ trim_space h = h ∧ trim_space (en_token e) = en_token e ∧ en_token e ≠ ""
}.

Lemma NewRegistry_ok : registry_ok NewRegistry.
Proof. split; simpl; intros *; rewrite ?lookup_empty; naive_solver. Qed.

Lemma hash_of_empty r id : registry_ok r → hash_of r id = "" → rg_runHash r !! id = None.
Proof.
  intros Hr. unfold hash_of. destruct (rg_runHash r !! id) as [h|] eqn:E; [|done]. simpl.
  intros ->. apply (reg_linked _ Hr) in E as (e & He & _).
  by destruct (reg_nonblank _ Hr _ _ He).
Qed.

Lemma release_runHash r id : registry_ok r →
  rg_runHash (releaseRunLocked id r) = delete id (rg_runHash r).
Proof.
  intros Hr. unfold releaseRunLocked. case_decide as Hd.
  - apply hash_of_empty in Hd; [|done]. by rewrite delete_id.
  - by repeat case_match.
Qed.

Lemma release_entries r id h : registry_ok r →
  rg_entries (releaseRunLocked id r) !! h =
    (e ← rg_entries r !! h;
     let runs := en_runs e ∖ {[id]} in
     if decide (runs = ∅) then None else Some (mkEntry (en_token e) runs)).
Proof.
  intros Hr. unfold releaseRunLocked.
  assert (Hother : ∀ h' e, rg_entries r !! h' = Some e → id ∉ en_runs e →
    (if decide (en_runs e ∖ {[id]} = ∅) then None else Some (mkEntry (en_token e) (en_runs e ∖ {[id]}))) = Some e).
  { intros h' e He Hid. replace (en_runs e ∖ {[id]}) with (en_runs e) by set_solver.
    rewrite decide_False by (by eapply reg_used). by destruct e. }
  assert (Hin : ∀ h' e, rg_entries r !! h' = Some e → id ∈ en_runs e → rg_runHash r !! id = Some h').
  { intros h' e He Hid. apply (reg_linked _ Hr). eauto. }
  case_decide as Hd; [|destruct (rg_entries r !! hash_of r id) as [e0|] eqn:E0].
  - apply hash_of_empty in Hd; [|done].
    destruct (rg_entries r !! h) as [e|] eqn:E; [|done]. simpl.
    rewrite (Hother h); [done|done|]. intros Hid. specialize (Hin _ _ E Hid). congruence.
  - destruct (decide (h = hash_of r id)) as [->|Hne].
    + rewrite E0. simpl. destruct (decide (en_runs e0 ∖ {[id]} = ∅)); simpl;
        by rewrite ?lookup_delete_eq, ?lookup_insert_eq.
    + assert (Hsame : rg_entries r !! h = (e ← rg_entries r !! h;
        if decide (en_runs e ∖ {[id]} = ∅) then None else Some (mkEntry (en_token e) (en_runs e ∖ {[id]})))).
      { destruct (rg_entries r !! h) as [e|] eqn:E; [|done]. simpl. rewrite (Hother h); [done|done|].
        intros Hid. specialize (Hin _ _ E Hid). unfold hash_of in Hne. rewrite Hin in Hne. done. }
      simpl in *. rewrite <-Hsame. case_decide; simpl;
        by rewrite ?lookup_delete_ne, ?lookup_insert_ne.
  - assert (Hnone : rg_runHash r !! id = None).
    { destruct (rg_runHash r !! id) as [h'|] eqn:E; [|done].
      apply (reg_linked _ Hr) in E as Hl. destruct Hl as (e & He & _).
      unfold hash_of in E0. rewrite E in E0. simpl in E0. congruence. }
    simpl. destruct (rg_entries r !! h) as [e|] eqn:E; [|done]. simpl.
    rewrite (Hother h); [done|done|]. intros Hid. specialize (Hin _ _ E Hid). congruence.
Qed.

Lemma release_ok r id : registry_ok r → registry_ok (releaseRunLocked id r).
Proof.
  intros Hr. split.
  - intros id' h. rewrite release_runHash, release_entries by done.
    rewrite lookup_delete_Some, (reg_linked _ Hr). split.
    + intros (Hne & e & He & Hid). rewrite He. simpl.
      rewrite decide_False by set_solver. eexists. split; [done|]. simpl. set_solver.
    + intros (e' & He & Hid). destruct (rg_entries r !! h) as [e|] eqn:E; [|done].
      simpl in He. case_decide; [done|]. injection He as <-. simpl in Hid. set_solver.
  - intros h e'. rewrite release_entries by done. destruct (rg_entries r !! h) as [e|]; [|done].
    simpl. case_decide; [done|]. by intros [= <-].
  - intros h e'. rewrite release_entries by done. destruct (rg_entries r !! h) as [e|] eqn:E; [|done].
    simpl. case_decide; [done|]. intros [= <-]. simpl. by apply (reg_nonblank _ Hr).
Qed.

#[export] Hint Resolve release_ok NewRegistry_ok : ploy.

Lemma ReleaseRuns_ok ids r : registry_ok r → registry_ok (ReleaseRuns ids r).
Proof.
  unfold ReleaseRuns. revert r; induction ids as [|i ids IH]; intros r Hr; simpl; [done|].
  apply IH. by apply release_ok.
Qed.

Lemma ReleaseRuns_runHash ids r id : registry_ok r →
  rg_runHash (ReleaseRuns ids r) !! id =
    if decide (id ∈ ids) then None else rg_runHash r !! id.
Proof.
  unfold ReleaseRuns. revert r; induction ids as [|i ids IH]; intros r Hr; simpl; [done|].
  rewrite IH, release_runHash by auto using release_ok.
  destruct (decide (id = i)) as [->|Hne].
  - rewrite lookup_delete_eq, (decide_True (P := i ∈ i :: ids)) by left. by case_decide.
  - rewrite lookup_delete_ne by done.
    destruct (decide (id ∈ ids)), (decide (id ∈ i :: ids)); set_solver.
Qed.

(** *** Registration

    While [Register] runs, the entry of [hash] may still have no run. *)
Record registering (hash : string) (r : Registry) : Prop := {
  ring_linked : ∀ id h, rg_runHash r !! id = Some h ↔
                 ∃ e, rg_entries r !! h = Some e ∧ id ∈ en_runs e;
  ring_used : ∀ h e, rg_entries r !! h = Some e → en_runs e ≠ ∅ ∨ h = hash;
  ring_nonblank : ∀ h e, rg_entries r !! h = Some e →
                 h ≠ "" ∧ trim_space h = h ∧ trim_space (en_token e) = en_token e ∧ en_token e ≠ "";
  ring_here : is_Some (rg_entries r !! hash)
}.

Lemma registering_done hash r :
  registering hash r → (∃ id, rg_runHash r !! id = Some hash) → registry_ok r.
Proof.
  intros [Hl Hu Hn Hh] [id Hid]. split; [done| |done].
  intros h e He. destruct (Hu _ _ He) as [| ->]; [done|].
  apply Hl in Hid as (e' & He' & Hin). assert (e' = e) as -> by congruence. set_solver.
Qed.

Section Registering.
Context (hash : string) (r : Registry) (id old : string).
Context (Hr : registering hash r) (Hold : rg_runHash r !! id = Some old) (Hne : old ≠ hash).

Lemma release_other_entries h :
  rg_entries (releaseRunLocked id r) !! h =
    (e ← rg_entries r !! h;
     let runs := en_runs e ∖ {[id]} in
     if decide (runs = ∅ ∧ h ≠ hash) then None else Some (mkEntry (en_token e) runs)).
Proof using Type*.
  unfold releaseRunLocked, hash_of. rewrite Hold. simpl.
  apply (ring_linked _ _ Hr) in Hold as Hl. destruct Hl as (e0 & He0 & Hin0).
  destruct (ring_nonblank _ _ Hr _ _ He0) as (Hnb & _).
  rewrite decide_False, He0 by done.
  destruct (decide (h = old)) as [->|Hh].
  - rewrite He0. simpl. destruct (decide (en_runs e0 ∖ {[id]} = ∅)) as [Hz|Hz]; simpl.
    + rewrite lookup_delete_eq, decide_True; done.
    + rewrite lookup_insert_eq, decide_False; naive_solver.
  - assert (Hsame : rg_entries r !! h = (e ← rg_entries r !! h;
        if decide (en_runs e ∖ {[id]} = ∅ ∧ h ≠ hash) then None
        else Some (mkEntry (en_token e) (en_runs e ∖ {[id]})))).
    { destruct (rg_entries r !! h) as [e|] eqn:E; [|done]. simpl.
      assert (Hni : id ∉ en_runs e).
      { intros Hi. assert (rg_runHash r !! id = Some h); [|congruence].
        apply (ring_linked _ _ Hr). eauto. }
      replace (en_runs e ∖ {[id]}) with (en_runs e) by set_solver.
      rewrite decide_False; [by destruct e|].
      intros [Hz Hd]. destruct (ring_used _ _ Hr _ _ E); naive_solver. }
    etrans; [|exact Hsame].
    destruct (decide (en_runs e0 ∖ {[id]} = ∅)); simpl;
      [apply lookup_delete_ne|apply lookup_insert_ne]; done.
Qed.

Lemma release_other_runHash :
  rg_runHash (releaseRunLocked id r) = delete id (rg_runHash r).
Proof using Type*.
  unfold releaseRunLocked, hash_of. rewrite Hold. simpl.
  apply (ring_linked _ _ Hr) in Hold as Hl. destruct Hl as (e0 & He0 & Hin0).
  destruct (ring_nonblank _ _ Hr _ _ He0) as (Hnb & _).
  rewrite decide_False by done. by repeat case_match.
Qed.

Lemma release_registering : registering hash (releaseRunLocked id r).
Proof using Type*.
  split.
  - intros id' h. rewrite release_other_runHash, release_other_entries, lookup_delete_Some,
      (ring_linked _ _ Hr). split.
    + intros (Hd & e & He & Hid). rewrite He. simpl.
      rewrite decide_False by set_solver. eexists. split; [done|]. simpl. set_solver.
    + intros (e' & He & Hid). destruct (rg_entries r !! h) as [e|] eqn:E; [|done].
      simpl in He. case_decide; [done|]. injection He as <-. simpl in Hid. set_solver.
  - intros h e'. rewrite release_other_entries. destruct (rg_entries r !! h) as [e|] eqn:E; [|done].
    simpl. case_decide as Hd; [done|]. intros [= <-]. simpl.
    destruct (decide (h = hash)); [by right|left]. naive_solver.
  - intros h e'. rewrite release_other_entries. destruct (rg_entries r !! h) as [e|] eqn:E; [|done].
    simpl. case_decide; [done|]. intros [= <-]. simpl. by apply (ring_nonblank _ _ Hr).
  - rewrite release_other_entries. destruct (ring_here _ _ Hr) as [e ->]. simpl.
    rewrite decide_False by naive_solver. eauto.
Qed.

End Registering.

(** Adding a run that has no token, or already this one. *)
Lemma add_registering hash r id :
  registering hash r → (∀ h, rg_runHash r !! id = Some h → h = hash) →
  registering hash (mkRegistry
    (alter (λ e, mkEntry (en_token e) ({[id]} ∪ en_runs e)) hash (rg_entries r))
    (<[id := hash]> (rg_runHash r))).
Proof.
  intros Hr Hid. destruct (ring_here _ _ Hr) as [e0 He0].
  assert (Hlook : ∀ h, alter (λ e, mkEntry (en_token e) ({[id]} ∪ en_runs e)) hash (rg_entries r) !! h
    = (λ e, if decide (h = hash) then mkEntry (en_token e) ({[id]} ∪ en_runs e) else e) <$> rg_entries r !! h).
  { intros h. destruct (decide (h = hash)) as [->|Hd].
    - rewrite lookup_alter_eq. by destruct (rg_entries r !! hash); simpl; rewrite ?decide_True.
    - rewrite lookup_alter_ne by done. by destruct (rg_entries r !! h); simpl; rewrite ?decide_False. }
  split; simpl.
  - intros id' h. rewrite Hlook. destruct (decide (id' = id)) as [->|Hd].
    + rewrite lookup_insert_eq. split.
      * intros [= <-]. rewrite He0. simpl. rewrite decide_True by done.
        eexists. split; [done|]. simpl. set_solver.
      * intros (e' & He & Hin). destruct (rg_entries r !! h) as [e|] eqn:E; [|done].
        simpl in He. destruct (decide (h = hash)) as [->|Hh]; [done|]. exfalso. apply Hh, Hid.
        apply (ring_linked _ _ Hr). simplify_eq. eauto.
    + rewrite lookup_insert_ne by done. rewrite (ring_linked _ _ Hr). split.
      * intros (e & He & Hin). rewrite He. simpl. eexists. split; [done|].
        case_decide; simpl; set_solver.
      * intros (e' & He & Hin). destruct (rg_entries r !! h) as [e|] eqn:E; [|done].
        exists e. split; [done|]. simpl in He. case_decide; simplify_eq/=; set_solver.
  - intros h e'. rewrite Hlook. destruct (rg_entries r !! h) as [e|] eqn:E; [|done]. simpl.
    intros [= <-]. case_decide as Hd; [by right|]. left.
    destruct (ring_used _ _ Hr _ _ E); [done|congruence].
  - intros h e'. rewrite Hlook. destruct (rg_entries r !! h) as [e|] eqn:E; [|done]. simpl.
    intros [= <-]. case_decide; simpl; by apply (ring_nonblank _ _ Hr).
  - rewrite Hlook, He0. simpl. eauto.
Qed.

Lemma register_run_registering hash r id :
  hash ≠ "" → registering hash r → registering hash (register_run hash r id).
Proof.
  intros Hh Hr. unfold register_run, hash_of. destruct (IsZero id); [done|].
  destruct (rg_runHash r !! id) as [old|] eqn:Eo; simpl.
  - assert (Hnb : old ≠ "").
    { apply (ring_linked _ _ Hr) in Eo as (e & He & _). by destruct (ring_nonblank _ _ Hr _ _ He). }
    rewrite bool_decide_eq_false_2 by done. simpl.
    destruct (decide (old = hash)) as [->|Hne].
    + rewrite bool_decide_eq_true_2 by done. apply add_registering; [done|]. intros h Hx; simpl in Hx; congruence.
    + rewrite bool_decide_eq_false_2 by done. simpl. apply add_registering.
      * by eapply release_registering.
      * intros h. rewrite (release_other_runHash hash r id old) by done. by rewrite lookup_delete_eq.
  - apply add_registering; [done|]. intros h Hx; simpl in Hx; congruence.
Qed.

Lemma register_run_hash hash r id id' :
  hash ≠ "" → registering hash r →
  rg_runHash (register_run hash r id) !! id' =
    if decide (id' = id ∧ IsZero id = false) then Some hash else rg_runHash r !! id'.
Proof.
  intros Hh Hr. unfold register_run, hash_of. destruct (IsZero id) eqn:Ez.
  { rewrite decide_False; naive_solver. }
  match goal with |- context [rg_entries ?x] => set (r1 := x) end. simpl.
  assert (Hr1 : rg_runHash r1 = rg_runHash r ∨ rg_runHash r1 = delete id (rg_runHash r)).
  { unfold r1. destruct (rg_runHash r !! id) as [old|] eqn:Eo; simpl; [|by left].
    repeat case_bool_decide; simpl; auto. right. by apply (release_other_runHash hash _ _ old). }
  destruct (decide (id' = id)) as [->|Hd].
  - by rewrite lookup_insert_eq, decide_True.
  - rewrite lookup_insert_ne, decide_False by naive_solver.
    destruct Hr1 as [-> | ->]; [done|]. by rewrite lookup_delete_ne.
Qed.

Section Register.
Context (hash token : string) (runIDs : list string) (r : Registry) (Hr : registry_ok r).
Context (Hhash : trim_space hash ≠ "") (Htoken : trim_space token ≠ "").
Context (id0 : string) (Hid0 : id0 ∈ runIDs) (Hz0 : IsZero id0 = false).

Let start := mkRegistry
  (<[trim_space hash := mkEntry (trim_space token)
       (en_runs (default (mkEntry "" ∅) (rg_entries r !! trim_space hash)))]> (rg_entries r))
  (rg_runHash r).

Lemma start_registering : registering (trim_space hash) start.
Proof using Hr Hhash Htoken.
  clear id0 Hid0 Hz0 runIDs. unfold start. split; simpl.
  - intros id h. rewrite (reg_linked _ Hr). destruct (decide (h = trim_space hash)) as [->|Hd].
    + rewrite lookup_insert_eq. destruct (rg_entries r !! trim_space hash) as [e|]; simpl; [|set_solver].
      split; [|naive_solver]. intros (e' & [= <-] & Hi). eauto.
    + by rewrite lookup_insert_ne.
  - intros h e. destruct (decide (h = trim_space hash)) as [->|Hd]; [by right|].
    rewrite lookup_insert_ne by done. left. by eapply reg_used.
  - intros h e. destruct (decide (h = trim_space hash)) as [->|Hd].
    + rewrite lookup_insert_eq. intros [= <-]. simpl. by rewrite !trim_space_idem.
    + rewrite lookup_insert_ne by done. by apply (reg_nonblank _ Hr).
  - rewrite lookup_insert_eq. eauto.
Qed.

Lemma Register_fold : Register hash token runIDs r = foldl (register_run (trim_space hash)) start runIDs.
Proof using Hhash Htoken Hid0.
  clear Hz0.
  unfold Register. rewrite !bool_decide_eq_false_2; [done|..]; [|done|done].
  intros ->. by apply elem_of_nil in Hid0.
Qed.

Lemma register_runs_spec ids st : registering (trim_space hash) st →
  registering (trim_space hash) (foldl (register_run (trim_space hash)) st ids) ∧
  ∀ id, rg_runHash (foldl (register_run (trim_space hash)) st ids) !! id =
    if decide (id ∈ ids ∧ IsZero id = false) then Some (trim_space hash) else rg_runHash st !! id.
Proof using Hhash.
  clear start Hr Htoken id0 Hid0 Hz0 runIDs. revert st; induction ids as [|i ids IH]; intros st Hst.
  { split; [done|]. intros id. rewrite decide_False by set_solver. done. }
  simpl.
  destruct (IH (register_run (trim_space hash) st i)) as [H1 H2];
    [by apply register_run_registering|].
  split; [done|]. intros id. rewrite H2, register_run_hash by done.
  destruct (decide (id ∈ ids ∧ IsZero id = false)) as [[? ?]|Hn].
  { rewrite decide_True by (split; [set_solver|done]). done. }
  destruct (decide (id = i ∧ IsZero i = false)) as [[-> ?]|Hn2].
  - rewrite decide_True by (split; [set_solver|done]). done.
  - rewrite decide_False; [done|]. intros [Hi Hz]. apply elem_of_cons in Hi. naive_solver.
Qed.

Lemma Register_ok : registry_ok (Register hash token runIDs r).
Proof using Type*.
  rewrite Register_fold. destruct (register_runs_spec runIDs start start_registering) as [H1 H2].
  eapply registering_done; [exact H1|]. exists id0. rewrite H2. by rewrite decide_True.
Qed.

Lemma Register_runHash id :
  rg_runHash (Register hash token runIDs r) !! id =
    if decide (id ∈ runIDs ∧ IsZero id = false) then Some (trim_space hash) else rg_runHash r !! id.
Proof using Type*.
  rewrite Register_fold. by destruct (register_runs_spec runIDs start start_registering) as [H1 ->].
Qed.

End Register.

(** *** Tokens

    No operation changes the token of a hash that is kept, except [Register] of
    that hash. *)
Lemma release_token r id h e' :
  rg_entries (releaseRunLocked id r) !! h = Some e' →
  ∃ e, rg_entries r !! h = Some e ∧ en_token e' = en_token e.
Proof.
  unfold releaseRunLocked. case_decide; [eauto|].
  destruct (rg_entries r !! hash_of r id) as [e0|] eqn:E0; simpl; [|eauto].
  case_decide; simpl.
  - intros [_ He]%lookup_delete_Some. eauto.
  - intros [[<- <-]|[_ He]]%lookup_insert_Some; eauto.
Qed.

Lemma register_run_token hash r id h e' :
  rg_entries (register_run hash r id) !! h = Some e' →
  ∃ e, rg_entries r !! h = Some e ∧ en_token e' = en_token e.
Proof.
  unfold register_run. destruct (IsZero id); [eauto|]. cbv zeta.
  match goal with |- context [alter _ _ (rg_entries ?x)] => set (r1 := x) end. simpl.
  assert (Hr1 : ∀ e, rg_entries r1 !! h = Some e → ∃ e0, rg_entries r !! h = Some e0 ∧ en_token e = en_token e0).
  { intros e. unfold r1. destruct (_ && _); [apply release_token|eauto]. }
  clearbody r1. destruct (decide (h = hash)) as [->|Hne].
  - rewrite lookup_alter_eq. destruct (rg_entries r1 !! hash) as [e|] eqn:E; [|done].
    intros [= <-]. exact (Hr1 e eq_refl).
  - rewrite lookup_alter_ne by done. apply Hr1.
Qed.

Lemma register_runs_token hash ids r h e' :
  rg_entries (foldl (register_run hash) r ids) !! h = Some e' →
  ∃ e, rg_entries r !! h = Some e ∧ en_token e' = en_token e.
Proof.
  revert r; induction ids as [|i ids IH]; intros r; simpl; [eauto|].
  intros (e & He & ->)%IH. by apply register_run_token in He.
Qed.

(** A token is available exactly while some run is registered under its hash. *)
Lemma Token_available r h : registry_ok r → trim_space h = h →
  is_Some (Token r h) ↔ ∃ id, rg_runHash r !! id = Some h.
Proof.
  intros Hr Hh. unfold Token. rewrite Hh. split.
  - intros [t Ht]. destruct (decide (h = "")); [done|].
    destruct (rg_entries r !! h) as [e|] eqn:E; [|done].
    destruct (set_choose_L (en_runs e)) as [id Hid]; [by eapply reg_used|].
    exists id. apply (reg_linked _ Hr). eauto.
  - intros [id Hid]. apply (reg_linked _ Hr) in Hid as (e & He & _).
    destruct (reg_nonblank _ Hr _ _ He) as (Hb & _ & Ht & Htb).
    rewrite decide_False, He, Ht, decide_False by done. by eexists.
Qed.
