(* ===== verification/Store.v ===== *)
(** * The store ([internal/store/store.go], [resume_run.go], [run_repo_guard.go])

    The transactional operations of [PgStore]. Each [s.pool.Begin .. tx.Commit]
    is a [transaction]; the statements in it are those of [Queries.v], plus the
    statements these files write inline. [gen] is the sequence of identifiers
    [types.NewJobID] returns. *)

From S2P Require Import Prelude GoStrings Types Json Db Tx Queries JobChain Lifecycle.
From stdpp Require Import base gmap sets list sorting strings.
From Stdlib Require Import ZArith Lia.

Open Scope string_scope.

(** ** Parameters *)

Record JobPlan := mkJobPlan {
  jp_Name : string; jp_JobType : JobType; jp_JobImage : string; jp_Meta : raw
}.

Record RunPlan := mkRunPlan {
  rp_ID : string; rp_RepoID : string; rp_RepoBaseRef : string; rp_SourceCommitSha : string;
  rp_RepoSha0 : string; rp_Stats : raw; rp_Jobs : list JobPlan
}.

Record RestartRunParams := mkRestartRunParams {
  rr_FromFailed : bool; rr_ExpectedResumeCount : Z; rr_RunID : string;
  rr_ExpectedAttempt : Z; rr_Stats : raw; rr_Jobs : list JobPlan
}.

Record CompleteBootstrapEnrollmentParams := mkBootstrapParams {
  be_TokenID : string; be_NodeID : string; be_CertSerial : string;
  be_CertFingerprint : string; be_CertNotBefore : Z; be_CertNotAfter : Z
}.

Section Store.
Context `{Collation}.

(** ** run_repo_guard.go *)

(** The rows locked, in key order; the lock itself has no effect on a serial
    execution. *)
Definition lockRunRepositories (repoIDs : list string) : M (list Repo) :=
  query (λ db, merge_sort (λ x y, coll_le (repo_ID x) (repo_ID y))
                 (filter (λ r, repo_ID r ∈ repoIDs) (rows (db_repos db)))).

Definition active_of_repo (repoID : string) (r : Run) : bool :=
  bool_decide (run_RepoID r = repoID) && active_run (run_Status r).

(** The oldest active run of a repository, with the repository's URL. *)
Definition active_repo_run (db : DB) (repoID : string) : option (string * string) :=
  match db_repos db !! repoID with
  | None => None
  | Some repo =>
      match select (active_of_repo repoID) by_created_id (db_runs db) with
      | [] => None
      | r :: _ => Some (run_ID r, repo_Url repo)
      end
  end.

Definition requireRepoWithoutActiveRun (repoID : string) : M unit :=
  r ← wrap "check active repository run" (query (λ db, active_repo_run db repoID));
  match r with
  | None => mret tt
  | Some (runID, url) => throw (ErrActiveRepoRun repoID url runID)
  end.

(** ** Creation *)

Definition new_run (wave : CreateWaveParams) (arg : RunPlan) (stats : json) (now : Z) : Run := {|
  run_ID := rp_ID arg; run_WaveID := cw_ID wave; run_MigID := cw_MigID wave;
  run_SpecID := cw_SpecID wave; run_RepoID := rp_RepoID arg;
  run_RepoBaseRef := rp_RepoBaseRef arg; run_SourceCommitSha := rp_SourceCommitSha arg;
  run_RepoSha0 := rp_RepoSha0 arg; run_CreatedBy := cw_CreatedBy wave;
  run_Status := RunStatusRunning; run_Attempt := 1; run_LastError := None;
  run_CreatedAt := now; run_StartedAt := Some now; run_FinishedAt := None;
  run_Stats := stats |}.

(** [COALESCE($n, '{}'::jsonb)] of a validated argument. *)
Definition stats_or_empty (r : raw) : json :=
  match r with RawJson j => j | _ => jempty end.

Definition insertRun (wave : CreateWaveParams) (arg : RunPlan) : M Run :=
  if negb (validateJSONB (rp_Stats arg)) then throw (ErrWrap "runs.stats" ErrInvalidJSON)
  else stmt (λ env db,
    if decide (is_Some (db_runs db !! rp_ID arg)) then inl (ErrConstraint "runs_pkey")
    else if decide (db_waves db !! cw_ID wave = None) then inl (ErrConstraint "runs_wave_id_fkey")
    else if decide (db_migs db !! cw_MigID wave = None) then inl (ErrConstraint "runs_mig_id_fkey")
    else if decide (db_specs db !! cw_SpecID wave = None) then inl (ErrConstraint "runs_spec_id_fkey")
    else if decide (db_repos db !! rp_RepoID arg = None) then inl (ErrConstraint "runs_repo_id_fkey")
    else if negb (member db (cw_MigID wave) (rp_RepoID arg))
    then inl (ErrConstraint "runs_mig_repo_membership_fkey")
    else let r := new_run wave arg (stats_or_empty (rp_Stats arg)) (env_now env) in
         inr (r, set_db_runs (<[rp_ID arg := r]> (db_runs db)) db)).

(** The row of position [i] of the chain: the first is queued and starts from the
    run's commit, the others wait. *)
Definition planned_job (run : Run) (i : nat) (id : string) (next : option string) (p : JobPlan) :
    CreateJobParams := {|
  cj_ID := id; cj_RunID := run_ID run; cj_RepoID := run_RepoID run;
  cj_RepoBaseRef := run_RepoBaseRef run; cj_Attempt := run_Attempt run;
  cj_Status := (if decide (i = 0) then JobStatusQueued else JobStatusCreated);
  cj_JobType := jp_JobType p; cj_JobImage := jp_JobImage p; cj_NextID := next;
  cj_Name := jp_Name p; cj_Meta := jp_Meta p;
  cj_RepoShaIn := (if decide (i = 0) then run_RepoSha0 run else "") |}.

(** Positions [i] and up, inserted tail first. *)
Fixpoint create_from (run : Run) (i : nat) (jobs : list (string * JobPlan)) : M (list Job) :=
  match jobs with
  | [] => mret []
  | (id, p) :: rest =>
      later ← create_from run (S i) rest;
      created ← wrap "create job" (CreateJob_query (planned_job run i id (fst <$> head rest) p));
      mret (created :: later)
  end.

Definition createPlannedJobs (gen : nat → string) (run : Run) (jobs : list JobPlan) : M (list Job) :=
  match jobs with
  | [] => throw (ErrMsg "jobs required")
  | _ =>
      if forallb (λ p, validateJSONB (jp_Meta p)) jobs
      then create_from run 0 (zip (gen <$> seq 0 (length jobs)) jobs)
      else throw (ErrWrap "job meta" ErrInvalidJSON)
  end.

(** [gen] after [n] calls. *)
Definition gen_from (gen : nat → string) (n : nat) : nat → string := λ k, gen (n + k).

Fixpoint create_runs (gen : nat → string) (wave : CreateWaveParams) (runs : list RunPlan) :
    M (list (Run * list Job)) :=
  match runs with
  | [] => mret []
  | plan :: rest =>
      requireRepoWithoutActiveRun (rp_RepoID plan) ;;
      run ← wrap "create wave with runs: create run" (insertRun wave plan);
      jobs ← wrap "create wave with runs: create jobs" (createPlannedJobs gen run (rp_Jobs plan));
      others ← create_runs (gen_from gen (length (rp_Jobs plan))) wave rest;
      mret ((run, jobs) :: others)
  end.

Definition CreateWaveWithRuns (gen : nat → string) (wave : CreateWaveParams) (runs : list RunPlan) :
    M (Wave * list (Run * list Job)) :=
  match runs with
  | [] => throw (ErrMsg "create wave with runs: runs required")
  | _ => transaction (
      wrap "create wave with runs: lock repositories" (lockRunRepositories (rp_RepoID <$> runs)) ;;
      w ← wrap "create wave with runs: create wave" (CreateWave wave);
      m ← create_runs gen wave runs;
      mret (w, m))
  end.

(** ** Cancellation *)

Definition CancelRun_body (runID : string) : M unit :=
  run ← wrap "cancel run: get run" (GetRun runID);
  when (negb (bool_decide (run_Status run = RunStatusSuccess)) &&
        negb (bool_decide (run_Status run = RunStatusFail)) &&
        negb (bool_decide (run_Status run = RunStatusCancelled)))
    (wrap "cancel run: update run status" (UpdateRunStatus runID RunStatusCancelled)) ;;
  wrap "cancel run: cancel active jobs" (CancelActiveJobsByRun runID) ;;
  mret tt.

Definition CancelRun (runID : string) : M unit := transaction (CancelRun_body runID).

Definition CancelWave_body (waveID : string) : M unit :=
  wave ← wrap "cancel wave: get wave" (GetWave waveID);
  when (negb (bool_decide (wave_Status wave = WaveStatusFinished)) &&
        negb (bool_decide (wave_Status wave = WaveStatusCancelled)))
    (wrap "cancel wave: update wave status" (UpdateWaveStatus waveID WaveStatusCancelled)) ;;
  wrap "cancel wave: cancel active runs" (CancelActiveRunsByWave waveID) ;;
  runs ← wrap "cancel wave: list runs" (ListRunsByWave waveID);
  for_each runs (λ run,
    wrap "cancel wave: cancel jobs" (CancelActiveJobsByRun (run_ID run)) ;; mret tt).

Definition CancelWave (waveID : string) : M unit := transaction (CancelWave_body waveID).

(** ** Restart and resume *)

Definition next_attempt_row (stats : raw) (now : Z) (r : Run) : Run :=
  set_run_Attempt (run_Attempt r + 1)%Z
    (set_run_Status RunStatusRunning
      (set_run_LastError None
        (set_run_StartedAt (Some now)
          (set_run_FinishedAt None (set_run_Stats (stats_or_empty stats) r))))).

(** [attempt + 1] of an [integer] column fails beyond its range. *)
Definition incrementRunAttempt (runID : string) (stats : raw) : M unit :=
  stmt (λ env db,
    match db_runs db !! runID with
    | None => inr (tt, db)
    | Some r =>
        if in_int32 (run_Attempt r + 1)
        then inr (tt, set_db_runs (<[runID := next_attempt_row stats (env_now env) r]> (db_runs db)) db)
        else inl (ErrConstraint "integer out of range")
    end).

(** The last loop of [failedJobSuffix]: [owner] is [""] until a job names a
    node; [failed] tells whether the failed job was met. It returns the suffix
    that starts at the failed job. *)
Fixpoint suffix_scan (chain : list Job) (owner : string) : option (list Job) :=
  match chain with
  | [] => None
  | j :: rest =>
      match (match job_NodeID j with
             | None => Some owner
             | Some n => if negb (bool_decide (owner = "")) && negb (bool_decide (owner = n))
                         then None else Some n
             end) with
      | None => None
      | Some owner' =>
          if decide (job_Status j = JobStatusSuccess) then suffix_scan rest owner'
          else if (bool_decide (job_Status j = JobStatusFail) || bool_decide (job_Status j = JobStatusError))
                  && match job_NodeID j with None => false | Some n => negb (bool_decide (n = "")) end
                  && IsCanonicalFullCommitSHA (job_RepoShaIn j)
                  && forallb (λ c, bool_decide (job_Status c = JobStatusCancelled)
                                   && bool_decide (job_StartedAt c = None)
                                   && bool_decide (job_NodeID c = None)) rest
          then Some (j :: rest)
          else None
      end
  end.

(** The second loop: each job points to the next one, the last to none. *)
Fixpoint chain_linked (chain : list Job) : bool :=
  match chain with
  | [] => true
  | [j] => bool_decide (job_NextID j = None)
  | j :: (k :: _) as rest => bool_decide (job_NextID j = Some (job_ID k)) && chain_linked rest
  end.

Definition failedJobSuffix (jobs : list Job) : option (list Job) :=
  let chain := Order job_ID job_NextID jobs in
  if decide (length chain = 0 ∨ length chain ≠ length jobs) then None
  else if chain_linked chain then suffix_scan chain "" else None.

Definition resume_row (status : JobStatus) (meta : json) (first : bool) (j : Job) : Job :=
  let sha := if first then job_RepoShaIn j else "" in
  let sha8' := if first then job_RepoShaIn8 j else "" in
  set_job_Status status (set_job_ExitCode None (set_job_StartedAt None (set_job_FinishedAt None
    (set_job_DurationMs 0 (set_job_RepoShaOut "" (set_job_RepoShaOut8 "" (set_job_Meta meta
      (set_job_RepoShaIn sha (set_job_RepoShaIn8 sha8' j))))))))).

(** The inline [UPDATE jobs] of [resumeFailedJobs]. *)
Definition reset_job (id : string) (status : JobStatus) (meta : raw) (first : bool) : M unit :=
  stmt (λ _ db,
    match db_jobs db !! id with
    | None => inr (tt, db)
    | Some j =>
        match meta with
        | RawJson m => inr (tt, set_db_jobs (<[id := resume_row status m first j]> (db_jobs db)) db)
        | RawInvalid => inl (ErrConstraint "invalid input syntax for type json")
        | RawEmpty => inl (ErrConstraint "jobs.meta not null")
        end
    end).

(** [plans[plan.Name] = plan]: the last plan of a name wins. *)
Definition plan_named (name : string) (plans : list JobPlan) : option JobPlan :=
  foldl (λ acc p, if decide (jp_Name p = name) then Some p else acc) None plans.

Fixpoint reset_jobs (plans : list JobPlan) (first : bool) (suffix : list Job) : M unit :=
  match suffix with
  | [] => mret tt
  | job :: rest =>
      match plan_named (job_Name job) plans with
      | Some plan =>
          if decide (jp_JobType plan = job_JobType job) then
            reset_job (job_ID job) (if first then JobStatusQueued else JobStatusCreated)
              (jp_Meta plan) first ;;
            delete_logs (job_ID job) ;;
            DeleteSBOMRowsByJob (job_ID job) ;;
            delete_metrics (job_ID job) ;;
            reset_jobs plans false rest
          else throw (ErrWrap "step configuration missing" ErrRunResumeInvalid)
      | None => throw (ErrWrap "step configuration missing" ErrRunResumeInvalid)
      end
  end.

Definition resume_run_row (stats : raw) (count : Z) (now_text : string) (r : Run) : Run :=
  set_run_Status RunStatusRunning (set_run_FinishedAt None (set_run_LastError None
    (set_run_Stats
      (jsonb_concat (jsonb_concat (run_Stats r) (stats_or_empty stats)) (resume_stats count now_text)) r))).

(** The inline [UPDATE runs]; [$3::int] must fit. *)
Definition mark_resumed (runID : string) (stats : raw) (count : Z) : M unit :=
  stmt (λ env db,
    if in_int32 count
    then inr (tt, set_db_runs (alter (resume_run_row stats count (env_now_text env)) runID (db_runs db)) db)
    else inl (ErrMsg "unable to encode resume_count as int4")).

Definition resumeFailedJobs (run : Run) (arg : RestartRunParams) : M unit :=
  if (negb (bool_decide (run_Status run = RunStatusFail)) &&
      negb (bool_decide (run_Status run = RunStatusCancelled)))
     || negb (bool_decide (ResumeCount (run_Stats run) = rr_ExpectedResumeCount arg))
  then throw ErrRunResumeInvalid
  else
    jobs ← ListJobsByRunAttempt (run_ID run) (run_Attempt run);
    suffix ← of_option ErrRunResumeInvalid (failedJobSuffix jobs);
    reset_jobs (rr_Jobs arg) true suffix ;;
    mark_resumed (run_ID run) (rr_Stats arg) (rr_ExpectedResumeCount arg + 1)%Z.

Definition RestartRun_body (gen : nat → string) (arg : RestartRunParams) : M Run :=
  let runID := rr_RunID arg in
  run ← wrap "restart run: get run" (GetRunForUpdate runID);
  if negb (bool_decide (run_Attempt run = rr_ExpectedAttempt arg))
     || (negb (bool_decide (run_Status run = RunStatusSuccess)) &&
         negb (bool_decide (run_Status run = RunStatusFail)) &&
         negb (bool_decide (run_Status run = RunStatusCancelled)))
  then throw ErrRunRestartActive
  else
    wave ← wrap "restart run: get wave" (GetWave (run_WaveID run));
    if bool_decide (wave_Status wave = WaveStatusCancelled) then throw ErrRunRestartWaveCancelled
    else
      wrap "restart run: lock repository" (lockRunRepositories [run_RepoID run]) ;;
      requireRepoWithoutActiveRun (run_RepoID run) ;;
      (if rr_FromFailed arg then resumeFailedJobs run arg
       else
         wrap "restart run: cancel active jobs" (CancelActiveJobsByRunAttempt runID (run_Attempt run)) ;;
         wrap "restart run: increment attempt" (incrementRunAttempt runID (rr_Stats arg))) ;;
      when (bool_decide (wave_Status wave = WaveStatusFinished))
        (wrap "restart run: revive wave" (UpdateWaveStatus (wave_ID wave) WaveStatusStarted)) ;;
      updated ← wrap "restart run: reload run" (GetRun runID);
      (if rr_FromFailed arg then mret []
       else wrap "restart run: create jobs" (createPlannedJobs gen updated (rr_Jobs arg))) ;;
      mret updated.

Definition RestartRun (gen : nat → string) (arg : RestartRunParams) : M Run :=
  if negb (validateJSONB (rr_Stats arg)) then throw (ErrWrap "restart run: runs.stats" ErrInvalidJSON)
  else transaction (RestartRun_body gen arg).

(** ** Claims and completions *)

Definition ClaimJob (nodeID : string) : M Job :=
  if IsZero nodeID then throw ErrEmptyNodeID else ClaimJob_query nodeID.

Definition UnclaimJob (id nodeID : string) : M unit :=
  if IsZero id then throw (ErrMsg "store: UnclaimJob requires non-empty job ID")
  else if IsZero nodeID then throw (ErrMsg "store: UnclaimJob requires non-empty node ID")
  else wrap "unclaim job" (UnclaimJob_query id nodeID).

Definition UpdateJobCompletionWithMeta (id : string) (status : JobStatus) (exit : option Z)
    (shaOut : string) (meta : raw) : M unit :=
  if negb (validateJSONB meta) then throw (ErrWrap "jobs.meta" ErrInvalidJSON)
  else match meta with
       | RawJson m => UpdateJobCompletionWithMeta_query id status exit shaOut m
       | _ => stmt (λ _ _, inl (ErrConstraint "jobs.meta not null"))
       end.

Definition WithJobExecution {A} (jobID : string) (resumeCount : Z) (complete : Job → M A) : M A :=
  transaction (
    job ← GetJob jobID;
    query (λ db, db_runs db !! job_RunID job) ;;
    run ← GetRun (job_RunID job);
    if negb (bool_decide (ResumeCount (run_Stats run) = resumeCount))
       || negb (bool_decide (job_Attempt job = run_Attempt run))
    then throw ErrJobExecutionStale
    else
      job' ← GetJob jobID;
      complete job').

(** ** Enrollment *)

(** The first row selected by [SELECT .. FROM bootstrap_tokens .. FOR UPDATE]. *)
Definition get_token (id : string) : M BootstrapToken :=
  query_one (λ _ db, inr (db_bootstrap_tokens db !! id, db)).

Definition isNodeIdentityUniqueViolation (e : Err) : bool :=
  match e with
  | ErrConstraint c => bool_decide (c = "nodes_pkey") || bool_decide (c = "nodes_name_key")
  | _ => false
  end.

Definition consume_token (id : string) : M unit :=
  exec (λ env db, set_db_bootstrap_tokens
    (alter (λ t, set_bt_UsedAt (Some (env_now env)) (set_bt_CertIssuedAt (Some (env_now env)) t))
       id (db_bootstrap_tokens db)) db).

Definition CompleteBootstrapEnrollment (a : CompleteBootstrapEnrollmentParams) : M unit :=
  if bool_decide (be_TokenID a = "") || IsZero (be_NodeID a) then throw ErrBootstrapTokenInvalid
  else transaction (
    r ← attempt (get_token (be_TokenID a));
    match r with
    | inl e => if errors_Is e ErrNoRows then throw ErrBootstrapTokenInvalid
               else throw (ErrWrap "complete bootstrap enrollment: lock bootstrap token" e)
    | inr tok =>
        if negb (bool_decide (bt_NodeID tok = Some (be_NodeID a)))
           || bool_decide (is_Some (bt_UsedAt tok)) || bool_decide (is_Some (bt_RevokedAt tok))
        then throw ErrBootstrapTokenInvalid
        else
          x ← attempt (GetNode (be_NodeID a));
          match x with
          | inr _ => throw ErrBootstrapNodeExists
          | inl e =>
              if negb (errors_Is e ErrNoRows)
              then throw (ErrWrap "complete bootstrap enrollment: check node" e)
              else
                c ← attempt (CreateNode (mkCreateNodeParams (be_NodeID a)
                       ("node-" +:+ be_NodeID a) "0.0.0.0" None 1));
                match c with
                | inl e => if isNodeIdentityUniqueViolation e then throw ErrBootstrapNodeExists
                           else throw (ErrWrap "complete bootstrap enrollment: create node" e)
                | inr _ =>
                    wrap "complete bootstrap enrollment: update cert metadata"
                      (UpdateNodeCertMetadata (be_NodeID a) (be_CertSerial a)
                         (be_CertFingerprint a) (be_CertNotBefore a) (be_CertNotAfter a)) ;;
                    wrap "complete bootstrap enrollment: consume bootstrap token"
                      (consume_token (be_TokenID a))
                end
          end
    end).

End Store.
