(* ===== verification/Plan.v ===== *)
(** * Planning the jobs of a run ([internal/server/handlers/migs_ticket.go])

    A parsed migration spec becomes a list of job plans: a gate before, one job per
    step, a gate after, unless the build gate is disabled. The names of the plans
    are distinct, which is what a resumed run relies on when it looks a step's
    configuration up by job name. *)

From stdpp Require Import base gmap sets list pretty strings.
From S2P Require Import Prelude GoStrings Types Json JobMeta Db Tx Queries JobChain Lifecycle.
From S2P Require Import JobMetaCodec Hydra Spec Store.
From Stdlib Require Import ZArith Lia.

Record Draft := mkDraft {
  dr_name : string; dr_jobType : JobType; dr_jobImage : string; dr_stepName : string;
  dr_stepIndex : option Z; dr_gateCycle : string
}.

Definition buildGateDisabled (spec : MigSpec) : bool :=
  match spec_BuildGate spec with Some g => bgc_Disabled g | None => false end.

Definition gate_draft (name : string) (t : JobType) : Draft := mkDraft name t "" "" None name.

Definition step_image (s : MigStep) : string :=
  if decide (ji_Universal (step_Image s) = "") then "" else trim_space (ji_Universal (step_Image s)).

Definition mig_draft (i : nat) (s : MigStep) : Draft :=
  mkDraft ("mig-" +:+ pretty i) JobTypeMig (step_image s) (step_Name s) (Some (Z.of_nat i)) "".

Definition drafts (spec : MigSpec) : list Draft :=
  (if buildGateDisabled spec then [] else [gate_draft "pre-gate" JobTypePreGate])
  ++ (if decide (1 < length (spec_Steps spec)) then imap mig_draft (spec_Steps spec)
      else match spec_Steps spec with
           | s :: _ => [mkDraft "mig-0" JobTypeMig (step_image s) (step_Name s) (Some 0%Z) ""]
           | [] => [mkDraft "mig-0" JobTypeMig "" "" (Some 0%Z) ""]
           end)
  ++ (if buildGateDisabled spec then [] else [gate_draft "post-gate" JobTypePostGate]).

Definition draft_meta (d : Draft) : JobMeta :=
  let m := if decide (dr_stepName d = "") then NewMigJobMeta
           else NewMigJobMetaWithStepName (dr_stepName d) in
  mkJobMeta (jmt_Kind m) (jmt_GateMetadata m) (jmt_Build m) (jmt_MigStepName m)
    (dr_stepIndex d) (trim_space (dr_gateCycle d)).

Definition plan_draft (d : Draft) : option JobPlan :=
  match MarshalJobMeta (draft_meta d) with
  | None => None
  | Some meta => Some (mkJobPlan (dr_name d) (dr_jobType d) (dr_jobImage d) (RawJson meta))
  end.

Definition planJobsFromSpec `{GoFmt} `{SpecLib} (spec : json) : option (list JobPlan) :=
  match ParseMigSpecJSON (RawJson spec) with
  | inl _ => None
  | inr s => mapM plan_draft (drafts s)
  end.

(** ** Facts *)

Lemma draft_meta_step d : jmt_MigStepName (draft_meta d) = dr_stepName d.
Proof. unfold draft_meta. by destruct (decide (dr_stepName d = "")). Qed.

Record draft_ok (d : Draft) : Prop := {
  do_index : ∀ i, dr_stepIndex d = Some i → (0 ≤ i)%Z;
  do_cycle : dr_gateCycle d = "" ∨ dr_gateCycle d = "pre-gate" ∨ dr_gateCycle d = "post-gate"
}.

Lemma draft_valid d : draft_ok d → JobMeta_Validate (draft_meta d) = true.
Proof.
  intros [Hi Hc]. unfold JobMeta_Validate, draft_meta.
  destruct (decide (dr_stepName d = "")); simpl.
  all: destruct (dr_stepIndex d) as [i|] eqn:E; simpl;
    [rewrite (bool_decide_eq_true_2 (0 ≤ i)%Z) by (by apply Hi)|].
  all: by destruct Hc as [-> |[-> | ->]].
Qed.

Lemma mig_drafts_ok k steps :
  Forall draft_ok (imap (λ i, mig_draft (k + i)) steps).
Proof.
  revert k. induction steps as [|s steps IH]; intros k; simpl; [done|]. constructor.
  - split; simpl; [|by left]. intros i [= <-]. lia.
  - specialize (IH (S k)). erewrite imap_ext; [exact IH|]. intros i x _. simpl. f_equal. lia.
Qed.

Lemma drafts_ok spec : Forall draft_ok (drafts spec).
Proof.
  assert (Hg : ∀ t, draft_ok (gate_draft "pre-gate" t) ∧ draft_ok (gate_draft "post-gate" t)).
  { intros t. split; split; simpl; auto; done. }
  assert (H0 : ∀ im nm, draft_ok (mkDraft "mig-0" JobTypeMig im nm (Some 0%Z) "")).
  { intros im nm. split; simpl; [|by left]. by intros i [= <-]. }
  unfold drafts. apply Forall_app. split.
  { destruct (buildGateDisabled spec); [done|]. constructor; [apply Hg|done]. }
  apply Forall_app. split.
  - destruct (decide _); [apply (mig_drafts_ok 0)|]. destruct (spec_Steps spec); by constructor.
  - destruct (buildGateDisabled spec); [done|]. constructor; [apply Hg|done].
Qed.

Lemma plan_draft_Some d : draft_ok d → ∃ meta,
  MarshalJobMeta (draft_meta d) = Some meta ∧
  plan_draft d = Some (mkJobPlan (dr_name d) (dr_jobType d) (dr_jobImage d) (RawJson meta)).
Proof.
  intros Hd. unfold plan_draft, MarshalJobMeta. rewrite (draft_valid d Hd).
  unfold draft_meta. destruct (decide (dr_stepName d = "")); simpl; eauto.
Qed.

(** Planning a parsed spec succeeds, draft by draft. *)
Lemma plan_spec `{GoFmt} `{SpecLib} j spec :
  ParseMigSpecJSON (RawJson j) = inr spec → ∃ plans, planJobsFromSpec j = Some plans ∧
    Forall2 (λ d p, plan_draft d = Some p) (drafts spec) plans.
Proof.
  intros Hp. unfold planJobsFromSpec. rewrite Hp. simpl.
  assert (Hex : ∃ plans, mapM plan_draft (drafts spec) = Some plans).
  { pose proof (drafts_ok spec) as Hok. induction Hok as [|d ds Hd _ [plans IH]]; [by exists []|].
    destruct (plan_draft_Some d Hd) as (meta & _ & E). simpl. rewrite E. simpl. rewrite IH. simpl. eauto. }
  destruct Hex as [plans Hplans]. exists plans. split; [done|]. by apply mapM_Some.
Qed.

Lemma plan_names `{GoFmt} `{SpecLib} j spec plans :
  ParseMigSpecJSON (RawJson j) = inr spec → planJobsFromSpec j = Some plans →
  jp_Name <$> plans = dr_name <$> drafts spec ∧ jp_JobType <$> plans = dr_jobType <$> drafts spec.
Proof.
  intros Hp Hpl. destruct (plan_spec _ _ Hp) as (plans' & Hpl' & Hf).
  rewrite Hpl in Hpl'. injection Hpl' as <-. clear Hp Hpl. revert Hf.
  generalize (drafts spec). intros ds Hf. induction Hf as [|d p ds ps Hd Hf IH]; [done|].
  destruct IH as [IH1 IH2]. unfold plan_draft in Hd. destruct (MarshalJobMeta _); [|done].
  injection Hd as <-. split; simpl; f_equal; [exact IH1|exact IH2].
Qed.

(** ** Names *)

Lemma mig_names_elem k steps x :
  x ∈ dr_name <$> imap (λ i, mig_draft (k + i)) steps →
  ∃ i, (k ≤ i)%nat ∧ x = "mig-" +:+ pretty i.
Proof.
  revert k. induction steps as [|s steps IH]; intros k; simpl; [by intros ?%not_elem_of_nil|].
  rewrite elem_of_cons. intros [-> |Hx]; [exists k; split; [lia|]; by rewrite Nat.add_0_r|].
  destruct (IH (S k)) as (i & Hi & ->).
  - erewrite imap_ext; [exact Hx|]. intros i y _. simpl. f_equal. lia.
  - exists i. split; [lia|done].
Qed.

Lemma mig_names_nodup k steps : NoDup (dr_name <$> imap (λ i, mig_draft (k + i)) steps).
Proof.
  revert k. induction steps as [|s steps IH]; intros k; simpl; [constructor|]. constructor.
  - intros Hin. rewrite Nat.add_0_r in Hin.
    destruct (mig_names_elem (S k) steps ("mig-" +:+ pretty k)) as (i & Hi & E).
    + erewrite imap_ext; [exact Hin|]. intros i y _. simpl. f_equal. lia.
    + apply (inj (String.append "mig-")) in E. apply (inj pretty) in E. lia.
  - specialize (IH (S k)). erewrite imap_ext; [exact IH|]. intros i x _. simpl. f_equal. lia.
Qed.

Lemma middle_names spec :
  let mid := (if decide (1 < length (spec_Steps spec)) then imap mig_draft (spec_Steps spec)
      else match spec_Steps spec with
           | s :: _ => [mkDraft "mig-0" JobTypeMig (step_image s) (step_Name s) (Some 0%Z) ""]
           | [] => [mkDraft "mig-0" JobTypeMig "" "" (Some 0%Z) ""]
           end) in
  NoDup (dr_name <$> mid) ∧ "pre-gate" ∉ dr_name <$> mid ∧ "post-gate" ∉ dr_name <$> mid ∧
  dr_jobType <$> mid = replicate (Nat.max 1 (length (spec_Steps spec))) JobTypeMig.
Proof.
  simpl. destruct (decide _) as [Hl|Hl].
  - split_and!; [apply (mig_names_nodup 0)| | |].
    + intros (i & _ & E)%(mig_names_elem 0). done.
    + intros (i & _ & E)%(mig_names_elem 0). done.
    + rewrite Nat.max_r by lia.
      assert (Hg : ∀ k, dr_jobType <$> imap (λ i, mig_draft (k + i)) (spec_Steps spec)
        = replicate (length (spec_Steps spec)) JobTypeMig); [|apply (Hg 0)].
      clear. induction (spec_Steps spec) as [|s steps IH]; intros k; simpl; [done|]. f_equal.
      rewrite <-(IH (S k)). f_equal. apply imap_ext. intros i x _. simpl. f_equal. lia.
  - destruct (spec_Steps spec) as [|s [|? ?]]; simpl in *; [| |lia].
    all: split_and!; try done; try apply NoDup_singleton;
      by rewrite list_elem_of_singleton.
Qed.

Lemma drafts_names spec : NoDup (dr_name <$> drafts spec).
Proof.
  destruct (middle_names spec) as (Hn & Hpre & Hpost & _). unfold drafts.
  destruct (buildGateDisabled spec); simpl; rewrite ?app_nil_r; [done|].
  rewrite fmap_app. simpl. constructor.
  - rewrite elem_of_app, list_elem_of_singleton. intros [?|?]; done.
  - apply NoDup_app. split_and!; [done| |apply NoDup_singleton].
    intros x Hx ->%list_elem_of_singleton. done.
Qed.

Lemma drafts_types spec :
  dr_jobType <$> drafts spec =
  ((if buildGateDisabled spec then [] else [JobTypePreGate])
   ++ replicate (Nat.max 1 (length (spec_Steps spec))) JobTypeMig
   ++ (if buildGateDisabled spec then [] else [JobTypePostGate]))%list.
Proof.
  destruct (middle_names spec) as (_ & _ & _ & Ht). unfold drafts.
  destruct (buildGateDisabled spec); simpl; rewrite ?app_nil_r, ?fmap_app; simpl; by rewrite Ht.
Qed.

(** ** Looking a plan up by name *)

Lemma plan_named_spec plans p :
  NoDup (jp_Name <$> plans) → p ∈ plans → plan_named (jp_Name p) plans = Some p.
Proof.
  unfold plan_named. generalize (None : option JobPlan) as acc.
  induction plans as [|q plans IH]; intros acc Hn Hp; [by apply not_elem_of_nil in Hp|].
  simpl in *. apply NoDup_cons in Hn as [Hq Hn]. apply elem_of_cons in Hp as [-> |Hp]; [|by apply IH].
  rewrite decide_True by done. clear IH.
  assert (Hkeep : ∀ l acc, jp_Name q ∉ jp_Name <$> l →
    foldl (λ acc p, if decide (jp_Name p = jp_Name q) then Some p else acc) acc l = acc).
  { induction l as [|x l IHl]; intros acc' Hx; [done|]. simpl in *.
    apply not_elem_of_cons in Hx as [Hne Hx]. rewrite decide_False by congruence. by apply IHl. }
  by apply Hkeep.
Qed.

Lemma mig_draft_index k steps i d : imap (λ i, mig_draft (k + i)) steps !! i = Some d →
  dr_stepIndex d = Some (Z.of_nat (k + i)) ∧ i < length steps.
Proof.
  rewrite list_lookup_imap. intros (s & Hs & ->)%fmap_Some. split; [done|]. by eapply lookup_lt_Some.
Qed.

Lemma drafts_index spec k d :
  (Z.of_nat (length (spec_Steps spec)) ≤ max_int64)%Z → drafts spec !! k = Some d →
  ∀ i, dr_stepIndex d = Some i → in_int64 i = true.
Proof.
  intros Hl Hd i Hi. apply bool_decide_eq_true. unfold min_int64, max_int64 in *.
  assert (0 ≤ i ≤ Z.of_nat (length (spec_Steps spec)))%Z; [|lia].
  apply list_elem_of_lookup_2 in Hd. unfold drafts in Hd. rewrite !elem_of_app in Hd.
  assert (Hg : ∀ g : Draft, d ∈ (if buildGateDisabled spec then [] else [g]) → d = g)
    by (intros g; destruct (buildGateDisabled spec); [by intros ?%not_elem_of_nil|by intros ?%list_elem_of_singleton]).
  destruct Hd as [Hd|[Hd|Hd]]; [by apply Hg in Hd as ->| |by apply Hg in Hd as ->]. clear Hg.
  destruct (decide _) as [H1|H1].
  - apply list_elem_of_lookup in Hd as [n Hn]. apply (mig_draft_index 0) in Hn as [Hn ?].
    rewrite Hn in Hi. injection Hi as <-. lia.
  - destruct (spec_Steps spec) as [|s l]; apply list_elem_of_singleton in Hd as ->;
      injection Hi as <-; simpl; lia.
Qed.

Lemma draft_meta_roundtrip `{GoFmt} d meta :
  draft_ok d → (∀ i, dr_stepIndex d = Some i → in_int64 i = true) →
  MarshalJobMeta (draft_meta d) = Some meta → UnmarshalJobMeta meta = Some (clean_meta (draft_meta d)).
Proof.
  intros [_ Hc] Hi Hm. apply JobMeta_roundtrip in Hm as [-> _].
  - unfold draft_meta, norm_meta. by destruct (decide (dr_stepName d = "")).
  - unfold meta_ints, draft_meta.
    destruct (decide (dr_stepName d = "")); simpl; destruct (dr_stepIndex d); simpl; rewrite ?Hi; done.
  - unfold no_metrics, draft_meta. by destruct (decide (dr_stepName d = "")).
  - unfold draft_meta. by destruct Hc as [-> |[-> | ->]].
Qed.
