(* ===== verification/Config.v ===== *)
(** * Runtime configuration ([internal/server/handlers/config_gitlab.go],
      [config_env.go], [internal/domain/types/scope.go])

    The server keeps its global environment variables in memory, one entry per key
    and target, next to the [global_env] table they are persisted in. The
    endpoints write the table first and the memory after it; nothing but the order
    of the two writes ties them together. Here the holder's operations, the
    endpoints, and the two writes of an endpoint as separate steps of interleaved
    requests. *)

From stdpp Require Import base gmap sets list sorting strings.
From S2P Require Import Prelude GoStrings Types.
From Stdlib Require Import Ascii ZArith Lia.

(** ** Targets *)

Inductive GlobalEnvTarget :=
| GlobalEnvTargetServer | GlobalEnvTargetNodes | GlobalEnvTargetGates | GlobalEnvTargetSteps.

#[export] Instance GlobalEnvTarget_eq_dec : EqDecision GlobalEnvTarget.
Proof. solve_decision. Defined.

#[export] Instance GlobalEnvTarget_countable : Countable GlobalEnvTarget.
Proof.
  refine (inj_countable'
    (λ t, match t with
          | GlobalEnvTargetServer => 0 | GlobalEnvTargetNodes => 1
          | GlobalEnvTargetGates => 2 | GlobalEnvTargetSteps => 3
          end)
    (λ n, match n with
          | 0 => GlobalEnvTargetServer | 1 => GlobalEnvTargetNodes
          | 2 => GlobalEnvTargetGates | _ => GlobalEnvTargetSteps
          end) _).
  by intros [].
Defined.

Definition GlobalEnvTarget_String (t : GlobalEnvTarget) : string :=
  match t with
  | GlobalEnvTargetServer => "server" | GlobalEnvTargetNodes => "nodes"
  | GlobalEnvTargetGates => "gates" | GlobalEnvTargetSteps => "steps"
  end.

Definition ParseGlobalEnvTarget (s : string) : option GlobalEnvTarget :=
  let n := trim_space s in
  if decide (n = "server") then Some GlobalEnvTargetServer
  else if decide (n = "nodes") then Some GlobalEnvTargetNodes
  else if decide (n = "gates") then Some GlobalEnvTargetGates
  else if decide (n = "steps") then Some GlobalEnvTargetSteps
  else None.

Definition MatchesJobType (t : GlobalEnvTarget) (j : JobType) : bool :=
  match t with
  | GlobalEnvTargetGates => bool_decide (j = JobTypePreGate) || bool_decide (j = JobTypePostGate)
  | GlobalEnvTargetSteps => bool_decide (j = JobTypeMig)
  | _ => false
  end.

(** ** The holder *)

Record GlobalEnvVar := mkGlobalEnvVar {
  gev_Value : string; gev_Target : GlobalEnvTarget; gev_Secret : bool
}.

Record HydraJobConfig := mkHydraJobConfig {
  hjc_Envs : gmap string string; hjc_In : list string; hjc_Out : list string
}.

Record ConfigInEntry := mkConfigInEntry { cie_Entry : string; cie_Dst : string; cie_Section : string }.

Record ConfigHolder := mkConfigHolder {
  ch_globalEnv : gmap string (list GlobalEnvVar);
  ch_hydra : gmap string HydraJobConfig;
  ch_configIn : gmap string (list ConfigInEntry);
  ch_bundleMap : gmap string string
}.

Definition NewConfigHolder (globalEnv : gmap string (list GlobalEnvVar)) : ConfigHolder :=
  mkConfigHolder globalEnv ∅ ∅ ∅.

Definition GetGlobalEnvEntries (h : ConfigHolder) (key : string) : list GlobalEnvVar :=
  default [] (ch_globalEnv h !! key).

(** The loops of the two setters: replace the first entry of the target, or append;
    drop the first entry of the target. *)
Fixpoint set_entry (v : GlobalEnvVar) (l : list GlobalEnvVar) : list GlobalEnvVar :=
  match l with
  | [] => [v]
  | e :: l' => if decide (gev_Target e = gev_Target v) then v :: l' else e :: set_entry v l'
  end.

Fixpoint drop_entry (t : GlobalEnvTarget) (l : list GlobalEnvVar) : option (list GlobalEnvVar) :=
  match l with
  | [] => None
  | e :: l' => if decide (gev_Target e = t) then Some l' else (cons e) <$> drop_entry t l'
  end.

Definition set_env (m : gmap string (list GlobalEnvVar)) (h : ConfigHolder) : ConfigHolder :=
  mkConfigHolder m (ch_hydra h) (ch_configIn h) (ch_bundleMap h).

Definition SetGlobalEnvVar (key : string) (v : GlobalEnvVar) (h : ConfigHolder) : ConfigHolder :=
  set_env (<[key := set_entry v (GetGlobalEnvEntries h key)]> (ch_globalEnv h)) h.

Definition DeleteGlobalEnvVar (key : string) (t : GlobalEnvTarget) (h : ConfigHolder) : ConfigHolder :=
  match drop_entry t (GetGlobalEnvEntries h key) with
  | None => h
  | Some [] => set_env (delete key (ch_globalEnv h)) h
  | Some l => set_env (<[key := l]> (ch_globalEnv h)) h
  end.

Definition setSectionSlice (m : gmap string (list ConfigInEntry)) (section : string)
    (entries : list ConfigInEntry) : gmap string (list ConfigInEntry) :=
  match entries with [] => delete section m | _ => <[section := entries]> m end.

(** [SetConfigIn] with [syncHydraInLocked] and [ensureHydraSectionLocked]. *)
Definition SetConfigIn (section : string) (entries : list ConfigInEntry) (h : ConfigHolder) :
    ConfigHolder :=
  let configIn := setSectionSlice (ch_configIn h) section entries in
  let cfg := default (mkHydraJobConfig ∅ [] []) (ch_hydra h !! section) in
  let ins := cie_Entry <$> default [] (configIn !! section) in
  mkConfigHolder (ch_globalEnv h)
    (<[section := mkHydraJobConfig (hjc_Envs cfg) ins (hjc_Out cfg)]> (ch_hydra h))
    configIn (ch_bundleMap h).

Definition AddBundleMapping (hash bundleID : string) (h : ConfigHolder) : ConfigHolder :=
  mkConfigHolder (ch_globalEnv h) (ch_hydra h) (ch_configIn h) (<[hash := bundleID]> (ch_bundleMap h)).

(** ** The endpoints

    [es_table] is the [global_env] table, keyed by key and target; [es_process] is
    the environment of the server process. A store call succeeds or not. *)

Record EnvState := mkEnvState {
  es_table : gmap (string * GlobalEnvTarget) (string * bool);
  es_holder : ConfigHolder;
  es_process : gmap string string
}.

(** [os.Setenv] refuses empty keys, keys with [=] or NUL, and values with NUL. *)
Definition os_Setenv (key value : string) (env : gmap string string) : gmap string string :=
  if bool_decide (key = "") || bool_decide ("="%char ∈ to_bytes key)
     || bool_decide (ascii_of_nat 0 ∈ to_bytes key) || bool_decide (ascii_of_nat 0 ∈ to_bytes value)
  then env else <[key := value]> env.

Record GlobalEnvPutRequest := mkGlobalEnvPutRequest {
  gep_Value : string; gep_Target : string; gep_Secret : option bool
}.

(** The write to the table, and the write to the memory that follows it. *)
Definition persist (key : string) (v : GlobalEnvVar) (s : EnvState) : EnvState :=
  mkEnvState (<[(key, gev_Target v) := (gev_Value v, gev_Secret v)]> (es_table s))
    (es_holder s) (es_process s).

Definition publish_env (key : string) (v : GlobalEnvVar) (s : EnvState) : EnvState :=
  mkEnvState (es_table s) (SetGlobalEnvVar key v (es_holder s))
    (if decide (gev_Target v = GlobalEnvTargetServer) then os_Setenv key (gev_Value v) (es_process s)
     else es_process s).

Definition unpersist (key : string) (t : GlobalEnvTarget) (s : EnvState) : EnvState :=
  mkEnvState (delete (key, t) (es_table s)) (es_holder s) (es_process s).

Definition unpublish_env (key : string) (t : GlobalEnvTarget) (s : EnvState) : EnvState :=
  mkEnvState (es_table s) (DeleteGlobalEnvVar key t (es_holder s))
    (if decide (t = GlobalEnvTargetServer) then delete key (es_process s) else es_process s).

Definition requiredPathParam (val : string) : option string :=
  if decide (trim_space val = "") then None else Some (trim_space val).

(** [body] is the decoded request, or the status the decoder answered with. *)
Definition putGlobalEnvHandler (storeOK : bool) (path : string) (body : Z + GlobalEnvPutRequest)
    (s : EnvState) : Z * EnvState :=
  match requiredPathParam path, body with
  | None, _ => (400%Z, s)
  | Some _, inl status => (status, s)
  | Some key, inr req =>
      match ParseGlobalEnvTarget (gep_Target req) with
      | None => (400%Z, s)
      | Some target =>
          let v := mkGlobalEnvVar (gep_Value req) target (default true (gep_Secret req)) in
          if storeOK then (200%Z, publish_env key v (persist key v s)) else (500%Z, s)
      end
  end.

(** The target of a request: given, or that of the only entry. *)
Inductive TargetChoice := ChooseTarget (t : GlobalEnvTarget) | ChooseNone | ChooseBad | ChooseAmbiguous.

Definition choose_target (targetStr : string) (entries : list GlobalEnvVar) : TargetChoice :=
  if decide (targetStr = "") then
    match entries with
    | [] => ChooseNone
    | [e] => ChooseTarget (gev_Target e)
    | _ => ChooseAmbiguous
    end
  else match ParseGlobalEnvTarget targetStr with Some t => ChooseTarget t | None => ChooseBad end.

Definition deleteGlobalEnvHandler (storeOK : bool) (path targetStr : string) (s : EnvState) :
    Z * EnvState :=
  match requiredPathParam path with
  | None => (400%Z, s)
  | Some key =>
      match choose_target targetStr (GetGlobalEnvEntries (es_holder s) key) with
      | ChooseBad => (400%Z, s)
      | ChooseNone => (204%Z, s)
      | ChooseAmbiguous => (409%Z, s)
      | ChooseTarget t =>
          if storeOK then (204%Z, unpublish_env key t (unpersist key t s)) else (500%Z, s)
      end
  end.

Inductive EntryError := errTargetNotFound | errAmbiguousKey | errBadTarget.

Definition resolveAmbiguousEntry (entries : list GlobalEnvVar) (targetStr : string) :
    EntryError + GlobalEnvVar :=
  if decide (targetStr = "") then
    match entries with [e] => inr e | _ => inl errAmbiguousKey end
  else match ParseGlobalEnvTarget targetStr with
       | None => inl errBadTarget
       | Some t =>
           match list_find (λ e, gev_Target e = t) entries with
           | Some (_, e) => inr e
           | None => inl errTargetNotFound
           end
       end.

Definition getGlobalEnvHandler (path targetStr : string) (s : EnvState) : Z * option GlobalEnvVar :=
  match requiredPathParam path with
  | None => (400%Z, None)
  | Some key =>
      match GetGlobalEnvEntries (es_holder s) key with
      | [] => (404%Z, None)
      | entries =>
          match resolveAmbiguousEntry entries targetStr with
          | inr v => (200%Z, Some v)
          | inl errAmbiguousKey => (409%Z, None)
          | inl errTargetNotFound => (404%Z, None)
          | inl errBadTarget => (400%Z, None)
          end
      end
  end.

(** ** The holder as a map from key and target *)

(** At most one entry per target, and no key without entries. *)
Definition holder_ok (h : ConfigHolder) : Prop :=
  ∀ k l, ch_globalEnv h !! k = Some l → l ≠ [] ∧ NoDup (gev_Target <$> l).

Definition entry_of (t : GlobalEnvTarget) (l : list GlobalEnvVar) : option GlobalEnvVar :=
  snd <$> list_find (λ e, gev_Target e = t) l.

Definition abstract (h : ConfigHolder) (k : string) (t : GlobalEnvTarget) : option GlobalEnvVar :=
  entry_of t (GetGlobalEnvEntries h k).

Lemma entry_of_cons t e l :
  entry_of t (e :: l) = if decide (gev_Target e = t) then Some e else entry_of t l.
Proof.
  unfold entry_of. simpl. case_decide; [done|].
  destruct (list_find _ l) as [[? ?]|]; done.
Qed.

Lemma entry_of_target t l e : entry_of t l = Some e → gev_Target e = t.
Proof.
  induction l as [|x l IH]; [done|]. rewrite entry_of_cons. case_decide; [naive_solver|done].
Qed.

Lemma entry_of_None t l : t ∉ gev_Target <$> l → entry_of t l = None.
Proof.
  induction l as [|x l IH]; [done|]. rewrite entry_of_cons. simpl. rewrite not_elem_of_cons.
  intros [? ?]. rewrite decide_False by congruence. by apply IH.
Qed.

Lemma set_entry_lookup v l t :
  entry_of t (set_entry v l) = if decide (gev_Target v = t) then Some v else entry_of t l.
Proof.
  induction l as [|e l IH]; cbn [set_entry]; [by rewrite entry_of_cons|].
  destruct (decide (gev_Target e = gev_Target v)) as [He|He]; rewrite !entry_of_cons.
  - rewrite He. by case_decide.
  - rewrite IH. repeat case_decide; congruence.
Qed.

Lemma set_entry_targets v l :
  gev_Target <$> set_entry v l =
    if decide (gev_Target v ∈ gev_Target <$> l) then gev_Target <$> l
    else (gev_Target <$> l) ++ [gev_Target v].
Proof.
  induction l as [|e l IH]; [done|]. cbn [set_entry].
  destruct (decide (gev_Target e = gev_Target v)) as [He|He]; rewrite !fmap_cons.
  - rewrite decide_True by (rewrite He; left). by rewrite He.
  - rewrite IH. destruct (decide (gev_Target v ∈ gev_Target <$> l)) as [Hi|Hi].
    + by rewrite decide_True by (by right).
    + rewrite decide_False by (rewrite elem_of_cons; naive_solver). done.
Qed.

Lemma set_entry_ok v l :
  NoDup (gev_Target <$> l) → set_entry v l ≠ [] ∧ NoDup (gev_Target <$> set_entry v l).
Proof.
  intros Hn. split; [destruct l; simpl; [done|by case_decide]|].
  rewrite set_entry_targets. case_decide; [done|]. apply NoDup_app.
  split_and!; [done| |apply NoDup_singleton]. by intros x Hx ->%list_elem_of_singleton.
Qed.

Lemma drop_entry_lookup t l l' t' :
  NoDup (gev_Target <$> l) → drop_entry t l = Some l' →
  NoDup (gev_Target <$> l') ∧ (∀ x, x ∈ gev_Target <$> l' → x ∈ gev_Target <$> l) ∧
  entry_of t' l' = if decide (t = t') then None else entry_of t' l.
Proof.
  revert l'. induction l as [|e l IH]; intros l' Hn; simpl in *; [done|].
  apply NoDup_cons in Hn as [He Hn]. destruct (decide (gev_Target e = t)) as [Ht|Ht].
  - intros [= <-]. subst t. split_and!; [done|by right|]. rewrite entry_of_cons.
    case_decide as Ht'; [subst t'; by apply entry_of_None|done].
  - intros (l0 & Hl0 & ->)%fmap_Some. destruct (IH _ Hn Hl0) as (Hn0 & Hs & Hl).
    simpl. split_and!.
    + constructor; [|done]. intros Hin. by apply He, Hs.
    + intros x. rewrite !elem_of_cons. naive_solver.
    + rewrite !entry_of_cons, Hl. repeat case_decide; congruence.
Qed.

Lemma drop_entry_None t l : drop_entry t l = None → entry_of t l = None.
Proof.
  induction l as [|e l IH]; simpl; [done|]. rewrite entry_of_cons. case_decide; [done|].
  intros ?%fmap_None. by apply IH.
Qed.

Lemma holder_entries_ok h k : holder_ok h → NoDup (gev_Target <$> GetGlobalEnvEntries h k).
Proof.
  intros Hok. unfold GetGlobalEnvEntries. destruct (ch_globalEnv h !! k) as [l|] eqn:E; simpl.
  - by eapply Hok. - apply NoDup_nil_2.
Qed.

(** Setting and deleting act on the abstract map as an insertion and a removal. *)
Lemma SetGlobalEnvVar_spec key v h :
  holder_ok h → holder_ok (SetGlobalEnvVar key v h) ∧
  ∀ k t, abstract (SetGlobalEnvVar key v h) k t =
    if decide (k = key ∧ t = gev_Target v) then Some v else abstract h k t.
Proof.
  intros Hok. split.
  - intros k l. simpl. destruct (decide (k = key)) as [-> |Hk].
    + rewrite lookup_insert_eq. intros [= <-]. by apply set_entry_ok, holder_entries_ok.
    + rewrite lookup_insert_ne by done. apply Hok.
  - intros k t. unfold abstract, GetGlobalEnvEntries at 1. simpl.
    destruct (decide (k = key)) as [-> |Hk].
    + rewrite lookup_insert_eq. simpl. rewrite set_entry_lookup. repeat case_decide; naive_solver.
    + rewrite lookup_insert_ne by done. rewrite decide_False by naive_solver. done.
Qed.

Lemma DeleteGlobalEnvVar_spec key t0 h :
  holder_ok h → holder_ok (DeleteGlobalEnvVar key t0 h) ∧
  ∀ k t, abstract (DeleteGlobalEnvVar key t0 h) k t =
    if decide (k = key ∧ t = t0) then None else abstract h k t.
Proof.
  intros Hok. unfold DeleteGlobalEnvVar.
  destruct (drop_entry t0 (GetGlobalEnvEntries h key)) as [l|] eqn:Hd.
  2: { split; [done|]. intros k t. case_decide as E; [|done]. destruct E as [-> ->].
       unfold abstract. by apply drop_entry_None. }
  pose proof (λ t', drop_entry_lookup t0 _ l t' (holder_entries_ok h key Hok) Hd) as Hl.
  assert (Hset : ∀ h', (ch_globalEnv h' = if decide (l = []) then delete key (ch_globalEnv h)
      else <[key := l]> (ch_globalEnv h)) → holder_ok h' ∧ ∀ k t, abstract h' k t =
      if decide (k = key ∧ t = t0) then None else abstract h k t).
  { intros h' E. split.
    - intros k l'. rewrite E. case_decide as Hnil.
      + intros [_ Hk]%lookup_delete_Some. by eapply Hok.
      + intros [[<- <-]|[_ Hk]]%lookup_insert_Some; [split; [done|apply (Hl t0)]|by eapply Hok].
    - intros k t. unfold abstract, GetGlobalEnvEntries at 1. rewrite E.
      destruct (decide (k = key)) as [-> |Hk].
      + assert ((if decide (l = []) then delete key (ch_globalEnv h)
           else <[key := l]> (ch_globalEnv h)) !! key = if decide (l = []) then None else Some l) as ->
          by (case_decide; [apply lookup_delete_eq|apply lookup_insert_eq]).
        assert (default [] (if decide (l = []) then None else Some l) = l) as ->
          by (case_decide; by subst).
        destruct (Hl t) as (_ & _ & ->). fold (abstract h key t).
        destruct (decide (t0 = t)) as [-> |Ht]; [by rewrite decide_True|].
        by rewrite decide_False by (intros [_ ?]; congruence).
      + rewrite (decide_False (P := k = key ∧ t = t0)) by (intros [? _]; congruence).
        case_decide; [rewrite lookup_delete_ne by done|rewrite lookup_insert_ne by done]; done. }
  destruct l as [|e l']; apply Hset; simpl; by rewrite ?decide_True, ?decide_False.
Qed.

(** ** Memory and table *)

Definition row_of (v : GlobalEnvVar) : string * bool := (gev_Value v, gev_Secret v).

(** The memory holds what the table holds under a key and target. *)
Definition agrees (s : EnvState) (k : string) (t : GlobalEnvTarget) : Prop :=
  es_table s !! (k, t) = row_of <$> abstract (es_holder s) k t.

Definition in_step (s : EnvState) : Prop :=
  holder_ok (es_holder s) ∧ ∀ k t, agrees s k t.

Lemma persist_agrees key v s k t :
  (k, t) ≠ (key, gev_Target v) → agrees s k t → agrees (persist key v s) k t.
Proof. intros Hne Ha. unfold agrees. simpl. by rewrite lookup_insert_ne. Qed.

Lemma unpersist_agrees key t0 s k t :
  (k, t) ≠ (key, t0) → agrees s k t → agrees (unpersist key t0 s) k t.
Proof. intros Hne Ha. unfold agrees. simpl. by rewrite lookup_delete_ne. Qed.

(** The second write of a request catches up with its first. *)
Lemma publish_agrees key v s k t :
  holder_ok (es_holder s) →
  (k, t) = (key, gev_Target v) ∧ es_table s !! (k, t) = Some (row_of v)
    ∨ (k, t) ≠ (key, gev_Target v) ∧ agrees s k t →
  agrees (publish_env key v s) k t.
Proof.
  intros Hok Hc. unfold agrees. simpl. destruct (SetGlobalEnvVar_spec key v _ Hok) as [_ ->].
  destruct Hc as [[[= -> ->] ->]|[Hne Ha]]; [by rewrite decide_True|].
  by rewrite decide_False by naive_solver.
Qed.

Lemma unpublish_agrees key t0 s k t :
  holder_ok (es_holder s) →
  (k, t) = (key, t0) ∧ es_table s !! (k, t) = None ∨ (k, t) ≠ (key, t0) ∧ agrees s k t →
  agrees (unpublish_env key t0 s) k t.
Proof.
  intros Hok Hc. unfold agrees. simpl. destruct (DeleteGlobalEnvVar_spec key t0 _ Hok) as [_ ->].
  destruct Hc as [[[= -> ->] ->]|[Hne Ha]]; [by rewrite decide_True|].
  by rewrite decide_False by naive_solver.
Qed.

(** ** Interleaved requests

    A request that passed its checks writes the table and leaves its second write
    pending; a pending write may happen at any later time. *)

Inductive PendingWrite := PendingSet (k : string) (v : GlobalEnvVar) | PendingDelete (k : string) (t : GlobalEnvTarget).

Definition place (p : PendingWrite) : string * GlobalEnvTarget :=
  match p with PendingSet k v => (k, gev_Target v) | PendingDelete k t => (k, t) end.

Definition table_write (p : PendingWrite) : EnvState → EnvState :=
  match p with PendingSet k v => persist k v | PendingDelete k t => unpersist k t end.

Definition memory_write (p : PendingWrite) : EnvState → EnvState :=
  match p with PendingSet k v => publish_env k v | PendingDelete k t => unpublish_env k t end.

Record EnvSys := mkEnvSys { sys_env : EnvState; sys_pending : list PendingWrite }.

Inductive env_step : EnvSys → EnvSys → Prop :=
| env_begin p s ps : env_step (mkEnvSys s ps) (mkEnvSys (table_write p s) (p :: ps))
| env_finish p s ps ps' :
    env_step (mkEnvSys s (ps ++ p :: ps')) (mkEnvSys (memory_write p s) (ps ++ ps')).

(** The same, when no two requests for one key and target overlap. *)
Inductive env_step_alone : EnvSys → EnvSys → Prop :=
| alone_begin p s ps :
    place p ∉ place <$> ps → env_step_alone (mkEnvSys s ps) (mkEnvSys (table_write p s) (p :: ps))
| alone_finish p s ps ps' :
    env_step_alone (mkEnvSys s (ps ++ p :: ps')) (mkEnvSys (memory_write p s) (ps ++ ps')).

(** Where nothing is pending memory and table agree; a pending write is that of
    the row in the table. *)
Definition pending_row (p : PendingWrite) : option (string * bool) :=
  match p with PendingSet _ v => Some (row_of v) | PendingDelete _ _ => None end.

Record sys_inv (y : EnvSys) : Prop := {
  si_holder : holder_ok (es_holder (sys_env y));
  si_places : NoDup (place <$> sys_pending y);
  si_pending : Forall (λ p, es_table (sys_env y) !! place p = pending_row p) (sys_pending y);
  si_agrees : ∀ k t, (k, t) ∉ place <$> sys_pending y → agrees (sys_env y) k t
}.

Lemma table_write_lookup p s q :
  es_table (table_write p s) !! q = if decide (q = place p) then pending_row p else es_table s !! q.
Proof.
  destruct p; simpl; case_decide as E; subst;
    by rewrite ?lookup_insert_eq, ?lookup_delete_eq, ?lookup_insert_ne, ?lookup_delete_ne by done.
Qed.

Lemma memory_write_table p s : es_table (memory_write p s) = es_table s.
Proof. by destruct p. Qed.

Lemma memory_write_ok p s : holder_ok (es_holder s) → holder_ok (es_holder (memory_write p s)).
Proof.
  intros Hok. destruct p; simpl; [by apply SetGlobalEnvVar_spec|by apply DeleteGlobalEnvVar_spec].
Qed.

Lemma memory_write_agrees p s k t :
  holder_ok (es_holder s) →
  (k, t) = place p ∧ es_table s !! (k, t) = pending_row p ∨ (k, t) ≠ place p ∧ agrees s k t →
  agrees (memory_write p s) k t.
Proof. intros Hok Hc. destruct p; [by apply publish_agrees|by apply unpublish_agrees]. Qed.

Lemma env_step_alone_inv y y' : sys_inv y → env_step_alone y y' → sys_inv y'.
Proof.
  intros [Hok Hnd Hrow Hag] Hst. destruct Hst as [p s ps Hnew|p s ps ps']; simpl in *.
  - split; simpl.
    + by destruct p.
    + by constructor.
    + constructor; [by rewrite table_write_lookup, decide_True|].
      apply Forall_forall. intros q Hq. rewrite table_write_lookup, decide_False.
      * by eapply Forall_forall in Hrow.
      * intros E. apply Hnew. rewrite <-E. by apply list_elem_of_fmap_2.
    + intros k t Hkt. apply not_elem_of_cons in Hkt as [Hne Hkt].
      destruct p; [by apply persist_agrees, Hag|by apply unpersist_agrees, Hag].
  - rewrite fmap_app, fmap_cons in *. apply Forall_app in Hrow as [Hr1 [Hrp Hr2]%Forall_cons].
    apply NoDup_app in Hnd as (Hn1 & Hd & [Hp Hn2]%NoDup_cons). split; simpl.
    + by apply memory_write_ok.
    + rewrite fmap_app. apply NoDup_app. split_and!; [done| |done].
      intros q Hq Hq'. eapply Hd; [exact Hq|by right].
    + rewrite memory_write_table. by apply Forall_app.
    + intros k t Hkt. rewrite fmap_app, elem_of_app in Hkt. apply memory_write_agrees; [done|].
      destruct (decide ((k, t) = place p)) as [E|E]; [left; split; [done|by rewrite E]|right].
      split; [done|]. apply Hag. rewrite elem_of_app, elem_of_cons. naive_solver.
Qed.

Lemma env_alone_in_step s0 y :
  in_step s0 → rtc env_step_alone (mkEnvSys s0 []) y → sys_pending y = [] → in_step (sys_env y).
Proof.
  intros [Hok Hag] Hr Hp.
  assert (Hinv : sys_inv (mkEnvSys s0 [])).
  { split; simpl; [done|apply NoDup_nil_2|done|by intros k t _]. }
  assert (Hy : sys_inv y).
  { clear Hp. induction Hr as [|? ? ? Hst _ IH]; [done|]. apply IH. by eapply env_step_alone_inv. }
  destruct Hy as [Hok' _ _ Hag']. split; [done|]. intros k t. apply Hag'. rewrite Hp.
  apply not_elem_of_nil.
Qed.

(** A request that is accepted makes its two writes for its key; any other changes
    neither memory nor table. *)
Definition settled (key : string) (s s' : EnvState) : Prop :=
  s' = s ∨ ∃ p, (place p).1 = trim_space key ∧ s' = memory_write p (table_write p s).

Lemma put_settled ok path body s :
  let r := putGlobalEnvHandler ok path body s in
  settled path s r.2 ∧ (r.2 = s ∨ r.1 = 200%Z ∧ ok = true).
Proof.
  unfold putGlobalEnvHandler, requiredPathParam, settled. destruct (decide (trim_space path = "")); [by eauto|].
  destruct body as [status|req]; [by eauto|]. destruct (ParseGlobalEnvTarget (gep_Target req)) as [t|]; [|by eauto].
  destruct ok; [|by eauto]. split; [right|by auto].
  by exists (PendingSet (trim_space path) (mkGlobalEnvVar (gep_Value req) t (default true (gep_Secret req)))).
Qed.

Lemma delete_settled ok path target s :
  let r := deleteGlobalEnvHandler ok path target s in
  settled path s r.2 ∧ (r.2 = s ∨ r.1 = 204%Z ∧ ok = true).
Proof.
  unfold deleteGlobalEnvHandler, requiredPathParam, settled. destruct (decide (trim_space path = "")); [by eauto|].
  destruct (choose_target target _) as [t| | |]; [|by eauto..].
  destruct ok; [|by eauto]. split; [right|by auto]. by exists (PendingDelete (trim_space path) t).
Qed.

(** A request served alone keeps memory and table in step. *)
Lemma settled_in_step key s s' : settled key s s' → in_step s → in_step s'.
Proof.
  intros [-> |(p & _ & ->)] Hin; [done|].
  apply (env_alone_in_step s (mkEnvSys (memory_write p (table_write p s)) [])); [done| |done].
  eapply rtc_l; [apply (alone_begin p), not_elem_of_nil|].
  eapply rtc_l; [apply (alone_finish p _ [] [])|apply rtc_refl].
Qed.
