(* ===== verification/Auth.v ===== *)
(** * Authentication ([internal/server/auth], [internal/server/handlers/tokens.go],
    [internal/server/handlers/bootstrap.go], [internal/store/tokens.sql.go])

    Who is calling, and which routes a caller may use. Callers present a signed
    token, in the [Authorization] header or (on some routes) in the query string, or a
    client certificate; the role of either decides. Tokens are issued and revoked by
    endpoints of their own; a node trades a one-time token for a certificate.

    The JWT library, random identifiers, SHA-256, certificate requests and the
    calendar are parameters. The update of a token's last use runs in the
    background: it is an operation of its own. *)

From stdpp Require Import base gmap sets list strings.
From S2P Require Import Prelude GoStrings Types Json JobMeta Db Tx Queries Store Config.
From Stdlib Require Import ZArith Lia Ascii.
Local Open Scope list_scope.

(** ** Roles *)

Definition RoleControlPlane : string := "control-plane".
Definition RoleWorker : string := "worker".
Definition RoleCLIAdmin : string := "cli-admin".

Definition roleIncludes : list (string * list string) := [(RoleCLIAdmin, [RoleControlPlane])].

(** The empty string for a value that names no role. *)
Definition NormalizeRole (value : string) : string :=
  let v := to_lower (trim_space value) in
  if decide (v ∈ ["beacon"; "control"; "control-plane"; "controlplane"; "client"]) then RoleControlPlane
  else if decide (v ∈ ["worker"; "node"]) then RoleWorker
  else if decide (v ∈ ["cli-admin"; "cliadmin"; "admin"]) then RoleCLIAdmin
  else "".

Definition allowlist (roles : list string) : gset string :=
  list_to_set (filter (λ r, r ≠ "") roles).

(** The allowlist with the roles that include one of its own. *)
Definition normalized (roles : list string) : gset string :=
  foldl (λ allowed '(super, included),
           if decide (Exists (λ r, r ∈ allowed) included) then {[super]} ∪ allowed else allowed)
    (allowlist roles) roleIncludes.

(** ** Tokens *)

Definition TokenTypeAPI : string := "api".
Definition TokenTypeBootstrap : string := "bootstrap".

Record TokenClaims := mkTokenClaims {
  tc_Role : string; tc_TokenType : string; tc_NodeID : string;
  tc_ExpiresAt : option Z; tc_IssuedAt : option Z; tc_ID : string
}.

(** [github.com/golang-jwt/jwt/v5]. Parsing takes the function that gives the key for
    a signing method, and the time; it yields the claims and whether they are valid. *)
Class JwtLib := {
  SigningMethod : Type;
  is_hmac : SigningMethod → bool;
  SigningMethodHS256 : SigningMethod;
  NewNumericDate : Z → Z;
  SignedString : SigningMethod → TokenClaims → string → option string;
  ParseWithClaims : string → (SigningMethod → option string) → Z → option (TokenClaims * bool)
}.

(** What the library documents: a token that was signed with the key of its method
    and has not expired is parsed back into its claims; the claims are part of the
    token and do not change with time; dates are cut to seconds. *)
Class JwtLaws `{JwtLib} : Prop := {
  hs256_hmac : is_hmac SigningMethodHS256 = true;
  date_second : ∀ t, (t - 1000000 < NewNumericDate t ≤ t)%Z;
  signs : ∀ m c key, SignedString m c key ≠ None;
  sign_parse : ∀ m c key tok keys now, SignedString m c key = Some tok → keys m = Some key →
    (∀ e, tc_ExpiresAt c = Some e → now < e)%Z → ParseWithClaims tok keys now = Some (c, true);
  parse_claims : ∀ tok keys now now' c c' v v', ParseWithClaims tok keys now = Some (c, v) →
    ParseWithClaims tok keys now' = Some (c', v') → c' = c
}.

Section Auth.
Context `{JwtLib}.

(** [id] is the result of [generateTokenID], [now] the time. *)
Definition GenerateAPIToken (secret role : string) (expiresAt : Z) (id : string) (now : Z) : option string :=
  SignedString SigningMethodHS256
    (mkTokenClaims role TokenTypeAPI "" (Some (NewNumericDate expiresAt)) (Some (NewNumericDate now)) id) secret.

Definition GenerateBootstrapToken (secret nodeID : string) (expiresAt : Z) (id : string) (now : Z) : option string :=
  if IsZero nodeID then None
  else SignedString SigningMethodHS256
    (mkTokenClaims RoleWorker TokenTypeBootstrap nodeID (Some (NewNumericDate expiresAt))
       (Some (NewNumericDate now)) id) secret.

Definition ValidateToken (token secret : string) (now : Z) : option TokenClaims :=
  match ParseWithClaims token (λ m, if is_hmac m then Some secret else None) now with
  | Some (claims, true) => Some claims
  | _ => None
  end.

(** ** Statements *)

Definition CheckAPITokenRevoked (id : string) : M Z :=
  query_one (λ _ db, inr (db_api_tokens db !! id ≫= at_RevokedAt, db)).

Definition CheckBootstrapTokenRevoked (id : string) : M Z :=
  query_one (λ _ db, inr (db_bootstrap_tokens db !! id ≫= bt_RevokedAt, db)).

Definition UpdateAPITokenLastUsed (id : string) : M unit :=
  exec (λ env db, set_db_api_tokens (alter (set_at_LastUsedAt (Some (env_now env))) id (db_api_tokens db)) db).

Definition RevokeAPIToken (id : string) : M unit :=
  exec (λ env db, set_db_api_tokens (alter (set_at_RevokedAt (Some (env_now env))) id (db_api_tokens db)) db).

Record InsertAPITokenParams := mkInsertAPITokenParams {
  ia_TokenHash : string; ia_TokenID : string; ia_Role : string; ia_Username : option string;
  ia_Description : option string; ia_IssuedAt : Z; ia_ExpiresAt : Z; ia_CreatedBy : option string
}.

Definition InsertAPIToken (a : InsertAPITokenParams) : M unit :=
  stmt (λ env db,
    if existsb (λ t, bool_decide (at_TokenHash t = ia_TokenHash a)) (rows (db_api_tokens db))
    then inl (ErrConstraint "api_tokens_token_hash_key")
    else if decide (is_Some (db_api_tokens db !! ia_TokenID a)) then inl (ErrConstraint "api_tokens_token_id_key")
    else inr (tt, set_db_api_tokens (<[ia_TokenID a :=
      mkApiToken (ia_TokenHash a) (ia_TokenID a) (ia_Role a) (ia_Username a) (ia_Description a) (ia_IssuedAt a)
        (Some (ia_ExpiresAt a)) None None (ia_CreatedBy a) (env_now env)]> (db_api_tokens db)) db)).

Definition GetBootstrapToken (id : string) : M BootstrapToken :=
  query_one (λ _ db, inr (db_bootstrap_tokens db !! id, db)).

Record InsertBootstrapTokenParams := mkInsertBootstrapTokenParams {
  ib_TokenHash : string; ib_TokenID : string; ib_NodeID : option string;
  ib_IssuedAt : Z; ib_ExpiresAt : Z; ib_IssuedBy : option string
}.

Definition InsertBootstrapToken (a : InsertBootstrapTokenParams) : M unit :=
  stmt (λ _ db,
    if existsb (λ t, bool_decide (bt_TokenHash t = ib_TokenHash a)) (rows (db_bootstrap_tokens db))
    then inl (ErrConstraint "bootstrap_tokens_token_hash_key")
    else if decide (is_Some (db_bootstrap_tokens db !! ib_TokenID a))
    then inl (ErrConstraint "bootstrap_tokens_token_id_key")
    else inr (tt, set_db_bootstrap_tokens (<[ib_TokenID a :=
      mkBootstrapToken (ib_TokenHash a) (ib_TokenID a) (ib_NodeID a) (ib_IssuedAt a) (Some (ib_ExpiresAt a))
        None None None (ib_IssuedBy a)]> (db_bootstrap_tokens db)) db)).

(** ** Callers *)

Record Authorizer := mkAuthorizer {
  az_allowInsecure : bool; az_defaultRole : string; az_tokenSecret : string;
  az_querier : bool                     (* whether a database is configured *)
}.

Record Identity := mkIdentity {
  id_Role : string; id_CommonName : string; id_Serial : string; id_TokenID : string
}.

(** The subject and the serial number of a client certificate. *)
Record Certificate := mkCertificate { ce_OU : list string; ce_CN : string; ce_Serial : string }.

Record Request := mkRequest {
  rq_Method : string;
  rq_Authorization : string;            (* the header, empty without one *)
  rq_auth_token : string;               (* the query parameter *)
  rq_queryTokenAllowed : bool;          (* set by [WithQueryTokenAllowed] *)
  rq_peer : option Certificate          (* the first certificate of the TLS connection *)
}.

(** The outcome of authentication; a caller with an API token leaves its last use to
    be recorded. A token without an expiry makes the code dereference a nil pointer. *)
Inductive AuthResult :=
| AuthOk (id : Identity) (used : option string)
| AuthErr (msg : string)
| AuthPanic.

Definition isTokenRevoked (a : Authorizer) (tokenID tokenType : string) : M bool :=
  if negb (az_querier a) then mret false
  else
    let check := if decide (tokenType = TokenTypeAPI) then Some (CheckAPITokenRevoked tokenID)
                 else if decide (tokenType = TokenTypeBootstrap) then Some (CheckBootstrapTokenRevoked tokenID)
                 else None in
    match check with
    | None => throw (ErrMsg ("unknown token type: " +:+ tokenType))
    | Some q =>
        r ← attempt q;
        match r with
        | inl e => if errors_Is e ErrNoRows then mret false else throw (ErrWrap "query token revocation" e)
        | inr _ => mret true
        end
    end.

Definition updateTokenLastUsed (a : Authorizer) (tokenID tokenType : string) : M unit :=
  if negb (az_querier a) then mret tt
  else if decide (tokenType = TokenTypeAPI)
  then _ ← attempt (UpdateAPITokenLastUsed tokenID); mret tt
  else mret tt.

Definition identityFromBearerToken (a : Authorizer) (token : string) : M AuthResult :=
  now ← ask env_clock;
  match ValidateToken token (az_tokenSecret a) now with
  | None => mret (AuthErr "invalid token")
  | Some claims =>
      match tc_ExpiresAt claims with
      | None => mret AuthPanic
      | Some expires =>
          if bool_decide (expires < now)%Z then mret (AuthErr "token expired")
          else
            r ← attempt (isTokenRevoked a (tc_ID claims) (tc_TokenType claims));
            match r with
            | inl _ => mret (AuthErr "check token revocation")
            | inr true => mret (AuthErr "token revoked")
            | inr false =>
                mret (AuthOk (mkIdentity (tc_Role claims) (tc_ID claims) "" (tc_ID claims))
                        (if decide (tc_TokenType claims = TokenTypeAPI) then Some (tc_ID claims) else None))
            end
      end
  end.

(** The text before the first [c], when there is some. *)
Definition before (c : ascii) (s : string) : option string :=
  match cut_bytes c (to_bytes s) with
  | Some (x :: l, _) => Some (of_bytes (x :: l))
  | _ => None
  end.

Fixpoint role_of_units (units : list string) : string :=
  match units with
  | [] => ""
  | ou :: rest =>
      let s := trim_prefix (trim_space ou) "Ploy" in
      let s := trim_prefix (trim_space s) "role=" in
      if decide (NormalizeRole s = "") then role_of_units rest else NormalizeRole s
  end.

Definition extractRole (cert : Certificate) : string :=
  if decide (role_of_units (ce_OU cert) = "") then
    let cn := trim_space (ce_CN cert) in
    if decide (cn = "") then ""
    else NormalizeRole (match before ":"%char cn with
                        | Some r => r
                        | None => default cn (before "-"%char cn)
                        end)
  else role_of_units (ce_OU cert).

(** The bearer token a request presents, as the code looks for it. *)
Definition presented (r : Request) : option string :=
  if has_prefix (rq_Authorization r) "Bearer " then Some (trim_prefix (rq_Authorization r) "Bearer ")
  else if bool_decide (rq_Method r = "GET") && rq_queryTokenAllowed r then
    let token := trim_space (rq_auth_token r) in if decide (token = "") then None else Some token
  else None.

Definition identityFromRequest (a : Authorizer) (r : Request) : M AuthResult :=
  match presented r with
  | Some token => identityFromBearerToken a token
  | None =>
      match rq_peer r with
      | None =>
          if az_allowInsecure a
          then mret (AuthOk (mkIdentity (if decide (az_defaultRole a = "") then RoleControlPlane else az_defaultRole a)
                               "" "" "") None)
          else mret (AuthErr "authentication required: provide Bearer token")
      | Some cert =>
          let role := extractRole cert in
          if decide (role = "") then mret (AuthErr "auth: certificate missing role claim")
          else mret (AuthOk (mkIdentity role (ce_CN cert) (ce_Serial cert) "") None)
      end
  end.

(** What the middleware does with a request: 401, 403, a panic, or the handler is
    called with the identity. *)
Inductive Access :=
| Unauthorized
| Forbidden
| Crashed
| Served (id : Identity) (used : option string).

Definition Middleware (a : Authorizer) (allowed : list string) (r : Request) : M Access :=
  x ← identityFromRequest a r;
  mret (match x with
        | AuthErr _ => Unauthorized
        | AuthPanic => Crashed
        | AuthOk id used =>
            if bool_decide (normalized allowed ≠ ∅) && negb (bool_decide (id_Role id ∈ normalized allowed))
            then Forbidden else Served id used
        end).

(** ** Token endpoints *)

(** [sha256] is the hexadecimal digest of a token, [AddDate] the calendar. *)
Context (sha256 : string → string) (AddDate : Z → Z → Z → Z → Z).

Definition stringPtrOrNil (value : string) : option string :=
  let v := trim_space value in if decide (v = "") then None else Some v.

Record CreateAPITokenRequest := mkCreateAPITokenRequest {
  ct_Role : string; ct_Username : string; ct_Description : string; ct_ExpiresInDays : Z
}.

(** The status, and the token with its identifier. *)
Definition createAPITokenHandler (secret tokenID : string) (caller : option Identity) (req : CreateAPITokenRequest) :
    M (Z * option (string * string)) :=
  let role := NormalizeRole (ct_Role req) in
  let username := trim_space (ct_Username req) in
  if decide (role = "") then mret (400%Z, None)
  else if bool_decide (role = RoleControlPlane) && bool_decide (username = "") then mret (400%Z, None)
  else
    let days := if bool_decide (ct_ExpiresInDays req ≤ 0)%Z then 365%Z else ct_ExpiresInDays req in
    now ← ask env_clock;
    let expiresAt := AddDate now 0 0 days in
    match GenerateAPIToken secret role expiresAt tokenID now with
    | None => mret (500%Z, None)
    | Some token =>
        match ValidateToken token secret now with
        | None => mret (500%Z, None)
        | Some claims =>
            r ← attempt (InsertAPIToken (mkInsertAPITokenParams (sha256 token) (tc_ID claims) role
                   (stringPtrOrNil username)
                   (if decide (ct_Description req = "") then None else Some (ct_Description req))
                   now expiresAt (id_CommonName <$> caller)));
            mret (match r with
                  | inl _ => (500%Z, None)
                  | inr _ => (200%Z, Some (token, tc_ID claims))
                  end)
        end
    end.

Definition revokeAPITokenHandler (tokenID : string) : M Z :=
  match requiredPathParam tokenID with
  | None => mret 400%Z
  | Some id => r ← attempt (RevokeAPIToken id); mret (match r with inl _ => 500%Z | inr _ => 200%Z end)
  end.

(** [now.Add(time.Duration(m) * time.Minute)]: a duration is a 64-bit number of
    nanoseconds, times here are in microseconds. *)
Definition add_minutes (now m : Z) : Z := (now + wrap64 (m * 60000000000) / 1000)%Z.

Definition createBootstrapTokenHandler (secret tokenID : string) (caller : option Identity)
    (nodeID : string) (expiresInMinutes : Z) : M (Z * option string) :=
  let minutes := if bool_decide (expiresInMinutes ≤ 0)%Z then 15%Z else expiresInMinutes in
  n ← attempt (GetNode nodeID);
  match n with
  | inr _ => mret (409%Z, None)
  | inl e =>
      if negb (errors_Is e ErrNoRows) then mret (500%Z, None)
      else
        now ← ask env_clock;
        let expiresAt := add_minutes now minutes in
        match GenerateBootstrapToken secret nodeID expiresAt tokenID now with
        | None => mret (500%Z, None)
        | Some token =>
            match ValidateToken token secret now with
            | None => mret (500%Z, None)
            | Some claims =>
                r ← attempt (InsertBootstrapToken (mkInsertBootstrapTokenParams (sha256 token) (tc_ID claims)
                       (Some nodeID) now expiresAt (id_CommonName <$> caller)));
                mret (match r with inl _ => (500%Z, None) | inr _ => (200%Z, Some token) end)
            end
        end
  end.

(** ** Enrollment *)

(** What validation of a bootstrap token can end in, besides the claims. *)
Inductive TokenCheck := CheckOk (claims : TokenClaims) | CheckRefused | CheckPanic.

Definition validateBootstrapToken (authorization secret : string) : M TokenCheck :=
  now ← ask env_clock;
  if negb (has_prefix authorization "Bearer ") then mret CheckRefused
  else
    match ValidateToken (trim_prefix authorization "Bearer ") secret now with
    | None => mret CheckRefused
    | Some claims =>
        if negb (bool_decide (tc_TokenType claims = TokenTypeBootstrap)) then mret CheckRefused
        else
          match tc_ExpiresAt claims with
          | None => mret CheckPanic
          | Some expires =>
              if bool_decide (expires < now)%Z then mret CheckRefused
              else
                t ← attempt (GetBootstrapToken (tc_ID claims));
                mret (match t with
                      | inl _ => CheckRefused
                      | inr info =>
                          if bool_decide (is_Some (bt_RevokedAt info)) then CheckRefused
                          else if bool_decide (is_Some (bt_UsedAt info)) then CheckRefused
                          else if negb (bool_decide (bt_NodeID info = Some (tc_NodeID claims))) then CheckRefused
                          else CheckOk claims
                      end)
          end
    end.

(** The name in a certificate request whose signature verifies, what signing one
    yields, and whether the cluster's CA can be loaded. *)
Record IssuedCert := mkIssuedCert {
  ic_CertPEM : string; ic_Serial : string; ic_Fingerprint : string; ic_NotBefore : Z; ic_NotAfter : Z
}.

Inductive ClusterCA := CANotConfigured | CABroken | CALoaded (certPEM : string).

Context (csr_name : string → option string) (SignNodeCSR : string → Z → option IssuedCert).

Definition parseAndVerifyCSR (csrPEM expectedCN : string) : bool :=
  if decide (trim_space csrPEM = "") then false
  else match csr_name csrPEM with
       | None => false
       | Some cn => bool_decide (trim_space cn = expectedCN)
       end.

(** [secret] is [PLOY_AUTH_SECRET]. *)
Definition issueWorkerToken (secret tokenID : string) (now : Z) : option string :=
  if decide (secret = "") then None
  else GenerateAPIToken secret RoleWorker (AddDate now 1 0 0) tokenID now.

Definition bootstrapCertificateHandler (secret authSecret workerTokenID : string) (ca : ClusterCA)
    (authorization csr : string) : M (Z * option (IssuedCert * string)) :=
  v ← validateBootstrapToken authorization secret;
  match v with
  | CheckRefused => mret (401%Z, None)
  | CheckPanic => mret (500%Z, None)
  | CheckOk claims =>
      if negb (parseAndVerifyCSR csr ("node:" +:+ tc_NodeID claims)) then mret (400%Z, None)
      else match ca with
           | CANotConfigured => mret (503%Z, None)
           | CABroken => mret (500%Z, None)
           | CALoaded _ =>
               now ← ask env_clock;
               match SignNodeCSR csr now with
               | None => mret (400%Z, None)
               | Some cert =>
                   match issueWorkerToken authSecret workerTokenID now with
                   | None => mret (500%Z, None)
                   | Some workerToken =>
                       r ← attempt (CompleteBootstrapEnrollment (mkBootstrapParams (tc_ID claims) (tc_NodeID claims)
                              (ic_Serial cert) (ic_Fingerprint cert) (ic_NotBefore cert) (ic_NotAfter cert)));
                       mret (match r with
                             | inl e =>
                                 (if errors_Is e ErrBootstrapTokenInvalid then 401%Z
                                  else if errors_Is e ErrBootstrapNodeExists then 409%Z else 500%Z, None)
                             | inr _ => (200%Z, Some (cert, workerToken))
                             end)
                   end
               end
           end
  end.

(** ** Routes *)

(** A registered route: its pattern, the roles of its middleware (none: no
    middleware), and whether a token in the query string is accepted. *)
Record Route := mkRoute { rt_Pattern : string; rt_Roles : list string; rt_QueryToken : bool }.

(** What the server does with a request for a route before its handler. *)
Inductive Admission := Open | Checked (a : Access).

Definition handle (a : Authorizer) (route : Route) (r : Request) : M Admission :=
  if decide (rt_Roles route = []) then mret Open
  else x ← Middleware a (rt_Roles route)
             (mkRequest (rq_Method r) (rq_Authorization r) (rq_auth_token r) (rt_QueryToken route) (rq_peer r));
       mret (Checked x).

Definition RegisterRoutes : list Route :=
  let route := mkRoute in
  [route "/health" [] false;
   route "GET /healthz" [] false;
   route "GET /readyz" [] false;
   route "GET /v1/config/env" [RoleCLIAdmin] false;
   route "GET /v1/config/env/{key}" [RoleCLIAdmin] false;
   route "PUT /v1/config/env/{key}" [RoleCLIAdmin] false;
   route "DELETE /v1/config/env/{key}" [RoleCLIAdmin] false;
   route "POST /v1/tokens" [RoleCLIAdmin] false;
   route "GET /v1/tokens" [RoleCLIAdmin] false;
   route "DELETE /v1/tokens/{id}" [RoleCLIAdmin] false;
   route "POST /v1/bootstrap/tokens" [RoleControlPlane; RoleCLIAdmin] false;
   route "POST /v1/pki/bootstrap" [RoleWorker] false;
   route "POST /v1/runs" [RoleControlPlane] false;
   route "POST /v1/migs" [RoleControlPlane] false;
   route "GET /v1/migs" [RoleControlPlane] false;
   route "DELETE /v1/migs/{mig_ref}" [RoleControlPlane] false;
   route "PATCH /v1/migs/{mig_ref}/archive" [RoleControlPlane] false;
   route "PATCH /v1/migs/{mig_ref}/unarchive" [RoleControlPlane] false;
   route "POST /v1/migs/{mig_ref}/specs" [RoleControlPlane] false;
   route "GET /v1/migs/{mig_ref}/specs/latest" [RoleControlPlane] true;
   route "POST /v1/migs/{mig_id}/repos" [RoleControlPlane] false;
   route "GET /v1/migs/{mig_id}/repos" [RoleControlPlane] false;
   route "DELETE /v1/migs/{mig_id}/repos/{repo_id}" [RoleControlPlane] false;
   route "POST /v1/migs/{mig_id}/repos/bulk" [RoleControlPlane] false;
   route "POST /v1/migs/{mig_id}/waves" [RoleControlPlane] false;
   route "POST /v1/migs/{mig_id}/pull" [RoleControlPlane] false;
   route "GET /v1/artifacts" [RoleControlPlane] false;
   route "GET /v1/artifacts/{id}" [RoleControlPlane; RoleWorker] false;
   route "GET /v1/runs" [RoleControlPlane] false;
   route "GET /v1/runs/{run_id}" [RoleControlPlane] false;
   route "GET /v1/runs/{run_id}/status" [RoleControlPlane] false;
   route "POST /v1/runs/{run_id}/cancel" [RoleControlPlane] false;
   route "POST /v1/runs/{run_id}/restart" [RoleControlPlane] false;
   route "POST /v1/runs/{run_id}/pull" [RoleControlPlane] false;
   route "GET /v1/runs/{run_id}/snapshot" [RoleWorker] false;
   route "GET /v1/runs/{run_id}/diffs" [RoleControlPlane; RoleWorker] true;
   route "GET /v1/runs/{run_id}/logs" [RoleControlPlane] true;
   route "GET /v1/runs/{run_id}/artifacts" [RoleControlPlane] false;
   route "GET /v1/runs/{run_id}/jobs" [RoleControlPlane] false;
   route "GET /v1/runs/{run_id}/sbom/{view}" [RoleControlPlane] false;
   route "GET /v1/waves/{wave_id}" [RoleControlPlane] false;
   route "GET /v1/waves/{wave_id}/runs" [RoleControlPlane] false;
   route "POST /v1/waves/{wave_id}/cancel" [RoleControlPlane] false;
   route "POST /v1/repos/resolve" [RoleControlPlane] false;
   route "GET /v1/repos" [RoleControlPlane] false;
   route "GET /v1/repos/{repo_id}/runs" [RoleControlPlane] false;
   route "GET /v1/nodes" [RoleControlPlane] false;
   route "POST /v1/nodes/{id}/drain" [RoleControlPlane] false;
   route "POST /v1/nodes/{id}/undrain" [RoleControlPlane] false;
   route "POST /v1/nodes/{id}/heartbeat" [RoleWorker] false;
   route "POST /v1/nodes/{id}/claim" [RoleWorker] false;
   route "POST /v1/nodes/{id}/events" [RoleWorker] false;
   route "POST /v1/nodes/{id}/logs" [RoleWorker] false;
   route "POST /v1/nodes/{id}/diagnostics" [RoleWorker; RoleControlPlane] false;
   route "GET /v1/nodes/{id}/diagnostics" [RoleControlPlane] false;
   route "POST /v1/nodes/{id}/daemon-logs" [RoleWorker; RoleControlPlane] false;
   route "GET /v1/nodes/{id}/daemon-logs" [RoleControlPlane] false;
   route "HEAD /v1/spec-bundles" [RoleControlPlane] false;
   route "POST /v1/spec-bundles" [RoleControlPlane] false;
   route "GET /v1/spec-bundles/{id}" [RoleWorker; RoleControlPlane] false;
   route "GET /v1/specs" [RoleControlPlane] false;
   route "POST /v1/runs/{run_id}/jobs/{job_id}/artifact" [RoleWorker] false;
   route "POST /v1/runs/{run_id}/jobs/{job_id}/diff" [RoleWorker] false;
   route "GET /v1/jobs/{job_id}/sbom" [RoleControlPlane] true;
   route "GET /v1/jobs/{job_id}/cves" [RoleControlPlane] true;
   route "GET /v1/jobs/{job_id}/sbom-diff" [RoleControlPlane] true;
   route "GET /v1/jobs" [RoleControlPlane] false;
   route "GET /v1/jobs/{job_id}/logs" [RoleControlPlane] true;
   route "POST /v1/jobs/{job_id}/logs" [RoleWorker] false;
   route "POST /v1/jobs/{job_id}/complete" [RoleWorker] false;
   route "GET /v1/jobs/{job_id}/status" [RoleWorker; RoleControlPlane] false;
   route "POST /v1/jobs/{job_id}/image" [RoleWorker] false;
   route "POST /v1/jobs/{job_id}/sbom" [RoleWorker] false].

End Auth.

#[export] Instance Route_eq_dec : EqDecision Route.
Proof. solve_decision. Defined.
