(* ===== verification/ClaimSpec.v ===== *)
(** * The spec of a claimed job ([internal/server/handlers/claim_spec_mutator_pipeline.go],
      [claim_spec_mutator_base.go], [claim_spec_mutator_hydra.go])

    A claim hands the node the run's spec with three things merged in: the job's
    identifier, the server's configuration for jobs of that type (environment
    variables, input and output files), and the server's bundle map. What the spec
    says itself always wins. The spec is decoded into nested maps, changed in
    place, and encoded again; a map is a field list without repeated keys. *)

From stdpp Require Import base gmap sets list sorting strings.
From S2P Require Import Prelude GoStrings Types Json Db Hydra Config.
From Stdlib Require Import ZArith Lia.

Inductive ClaimSpecError :=
| ClaimSpecParse                              (* merge job_id into spec *)
| ClaimSpecOverlay (out : bool) (e : HydraError)
| ClaimSpecCollision (dups : list (string * string))
| ClaimSpecStep (step : nat) (out : bool) (e : HydraError).

Section Decode.
Context `{GoFloat}.

Definition parseSpecObjectStrict (spec : json) : option (list (string * json)) :=
  match any_of spec with Some (JObj fs) => Some fs | _ => None end.

End Decode.

Definition applyJobIDMutator (fs : list (string * json)) (jobID : string) : list (string * json) :=
  obj_set "job_id" (JStr jobID) fs.

(** ** The overlay *)

(** The last entry of a key whose target is accepted. *)
Definition pick (p : GlobalEnvTarget → bool) (entries : list GlobalEnvVar) : option string :=
  foldl (λ acc v, if p (gev_Target v) then Some (gev_Value v) else acc) None entries.

(** The two passes over the global environment: entries for the job's type
    override those for nodes. *)
Definition global_merged (globalEnv : gmap string (list GlobalEnvVar)) (t : JobType) :
    gmap string string :=
  omap (λ entries,
    match pick (λ g, MatchesJobType g t) entries with
    | Some v => Some v
    | None => pick (λ g, bool_decide (g = GlobalEnvTargetNodes)) entries
    end) globalEnv.

Definition assembleHydraOverlay (overlays : gmap string HydraJobConfig) (section : string)
    (globalEnv : gmap string (list GlobalEnvVar)) (t : JobType) : HydraJobConfig :=
  let base := default (mkHydraJobConfig ∅ [] []) (overlays !! section) in
  mkHydraJobConfig (hjc_Envs base ∪ global_merged globalEnv t) (hjc_In base) (hjc_Out base).

(** [mergeEnvsBlock]; the code visits the keys in sorted order. *)
Definition add_missing (fs : list (string * json)) (kv : string * string) : list (string * json) :=
  match obj_get kv.1 fs with Some _ => fs | None => obj_set kv.1 (JStr kv.2) fs end.

Definition mergeEnvsBlock (block : list (string * json)) (overlay : gmap string string) :
    list (string * json) :=
  if decide (overlay = ∅) then block
  else
    let existing := match obj_get "envs" block with Some (JObj raw) => raw | _ => [] end in
    obj_set "envs" (JObj (foldl add_missing existing (map_to_list overlay))) block.

(** The two loops of [mergeRecordsByDstBlock]. *)
Fixpoint spec_records (k : HydraFileKind) (l : list json) (dsts : gset string) :
    HydraError + gset string :=
  match l with
  | [] => inr dsts
  | JStr s :: l' =>
      match ParseStoredEntry k s with
      | inl e => inl e
      | inr p => spec_records k l' ({[pse_Dst p]} ∪ dsts)
      end
  | _ :: l' => spec_records k l' dsts
  end.

Fixpoint overlay_records (k : HydraFileKind) (overlay : list string) (dsts : gset string) :
    HydraError + list json :=
  match overlay with
  | [] => inr []
  | s :: overlay' =>
      match ParseStoredEntry k s with
      | inl e => inl e
      | inr p =>
          if decide (pse_Dst p ∈ dsts) then overlay_records k overlay' dsts
          else match overlay_records k overlay' ({[pse_Dst p]} ∪ dsts) with
               | inl e => inl e
               | inr l => inr (JStr s :: l)
               end
      end
  end.

Definition block_list (k : HydraFileKind) (block : list (string * json)) : list json :=
  match obj_get (HydraFileKind_String k) block with Some (JArr l) => l | _ => [] end.

Definition mergeRecordsByDstBlock (k : HydraFileKind) (overlay : list string)
    (block : list (string * json)) : HydraError + list (string * json) :=
  if decide (overlay = []) then inr block
  else match spec_records k (block_list k block) ∅ with
       | inl e => inl e
       | inr dsts =>
           match overlay_records k overlay dsts with
           | inl e => inl e
           | inr added =>
               match block_list k block ++ added with
               | [] => inr block
               | merged => inr (obj_set (HydraFileKind_String k) (JArr merged) block)
               end
           end
       end.

Definition merge_step (i : nat) (overlay : HydraJobConfig) (step : list (string * json)) :
    ClaimSpecError + list (string * json) :=
  match mergeRecordsByDstBlock HydraFileIn (hjc_In overlay) step with
  | inl e => inl (ClaimSpecStep i false e)
  | inr step =>
      match mergeRecordsByDstBlock HydraFileOut (hjc_Out overlay) step with
      | inl e => inl (ClaimSpecStep i true e)
      | inr step => inr step
      end
  end.

Fixpoint merge_steps (i : nat) (overlay : HydraJobConfig) (steps : list json) :
    ClaimSpecError + list json :=
  match steps with
  | [] => inr []
  | s :: steps' =>
      match (match s with
             | JObj fs => match merge_step i overlay fs with inl e => inl e | inr fs => inr (JObj fs) end
             | _ => inr s
             end) with
      | inl e => inl e
      | inr s => match merge_steps (S i) overlay steps' with inl e => inl e | inr l => inr (s :: l) end
      end
  end.

Definition applyOverlayToSteps (fs : list (string * json)) (overlay : HydraJobConfig) :
    ClaimSpecError + list (string * json) :=
  match obj_get "steps" fs with
  | Some (JArr (s :: l)) =>
      match merge_steps 0 overlay (s :: l) with
      | inl e => inl e
      | inr steps => inr (obj_set "steps" (JArr steps) fs)
      end
  | _ => inr fs
  end.

Definition applyCanonicalHydraOverlay (fs : list (string * json)) (t : JobType)
    (overlay : HydraJobConfig) : ClaimSpecError + list (string * json) :=
  match t with
  | JobTypeMig => applyOverlayToSteps fs overlay
  | JobTypePreGate | JobTypePostGate => inr fs
  end.

(** Destinations that occur more than once, in order. *)
Fixpoint entry_dsts (k : HydraFileKind) (entries : list string) : HydraError + list string :=
  match entries with
  | [] => inr []
  | e :: entries' =>
      match ParseStoredEntry k e with
      | inl err => inl err
      | inr p => match entry_dsts k entries' with inl err => inl err | inr l => inr (pse_Dst p :: l) end
      end
  end.

Definition findDuplicateDsts (k : HydraFileKind) (entries : list string) : HydraError + list string :=
  match entry_dsts k entries with
  | inl e => inl e
  | inr dsts =>
      inr (merge_sort String.le
             (filter (λ d, 1 < length (filter (λ d', d' = d) dsts)) (remove_dups dsts)))
  end.

Definition validateOverlayCollisions (cfg : HydraJobConfig) : option ClaimSpecError :=
  match findDuplicateDsts HydraFileIn (hjc_In cfg) with
  | inl e => Some (ClaimSpecOverlay false e)
  | inr d1 =>
      match findDuplicateDsts HydraFileOut (hjc_Out cfg) with
      | inl e => Some (ClaimSpecOverlay true e)
      | inr d2 =>
          match (pair "in" <$> d1) ++ (pair "out" <$> d2) with
          | [] => None
          | dups => Some (ClaimSpecCollision dups)
          end
      end
  end.

(** ** The pipeline *)

Record claimSpecMutatorInput := mkClaimSpecMutatorInput {
  csi_spec : json; csi_jobID : string; csi_jobType : JobType;
  csi_globalEnv : gmap string (list GlobalEnvVar);
  csi_hydraOverlays : gmap string HydraJobConfig;
  csi_bundleMap : gmap string string
}.

Definition overlay_of (i : claimSpecMutatorInput) : HydraJobConfig :=
  assembleHydraOverlay (csi_hydraOverlays i) (JobType_String (csi_jobType i)) (csi_globalEnv i)
    (csi_jobType i).

Definition applyHydraOverlayMutator (fs : list (string * json)) (i : claimSpecMutatorInput) :
    ClaimSpecError + list (string * json) :=
  match validateOverlayCollisions (overlay_of i) with
  | Some e => inl e
  | None =>
      applyCanonicalHydraOverlay (mergeEnvsBlock fs (hjc_Envs (overlay_of i))) (csi_jobType i)
        (overlay_of i)
  end.

Definition is_string (j : json) : bool := match j with JStr _ => true | _ => false end.

Definition string_fields (fs : list (string * json)) : list (string * json) :=
  filter (λ kv, is_string kv.2 = true) fs.

Definition applyBundleMapMutator (fs : list (string * json)) (i : claimSpecMutatorInput) :
    list (string * json) :=
  if decide (csi_bundleMap i = ∅) then fs
  else
    let existing := match obj_get "bundle_map" fs with Some (JObj raw) => string_fields raw | _ => [] end in
    obj_set "bundle_map" (JObj (foldl add_missing existing (map_to_list (csi_bundleMap i)))) fs.

Definition mutateClaimSpec `{GoFloat} (i : claimSpecMutatorInput) : ClaimSpecError + json :=
  match parseSpecObjectStrict (csi_spec i) with
  | None => inl ClaimSpecParse
  | Some fs =>
      match applyHydraOverlayMutator (applyJobIDMutator fs (csi_jobID i)) i with
      | inl e => inl e
      | inr fs => inr (JObj (applyBundleMapMutator fs i))
      end
  end.

(** ** Merging maps: what is there wins *)

Lemma obj_get_set_ne k k' v fs : k ≠ k' → obj_get k (obj_set k' v fs) = obj_get k fs.
Proof. intros. rewrite obj_get_set. by rewrite decide_False. Qed.

Lemma obj_get_set_eq k v fs : obj_get k (obj_set k v fs) = Some v.
Proof. rewrite obj_get_set. by rewrite decide_True. Qed.

Lemma add_missing_get fs kv k :
  obj_get k (add_missing fs kv) =
    match obj_get k fs with Some v => Some v | None => if decide (k = kv.1) then Some (JStr kv.2) else None end.
Proof.
  unfold add_missing. destruct (obj_get kv.1 fs) eqn:E.
  - destruct (obj_get k fs) eqn:Ek; [done|]. rewrite decide_False; [done|]. congruence.
  - rewrite obj_get_set. case_decide as Hk; [subst; by rewrite E|]. by destruct (obj_get k fs).
Qed.

Lemma add_missing_fold l fs k :
  NoDup l.*1 →
  obj_get k (foldl add_missing fs l) =
    match obj_get k fs with Some v => Some v | None => JStr <$> (list_to_map l : gmap string string) !! k end.
Proof.
  revert fs. induction l as [|[k0 v0] l IH]; intros fs Hn; simpl.
  - rewrite lookup_empty. by destruct (obj_get k fs).
  - apply NoDup_cons in Hn as [Hk0 Hn]. rewrite IH by done. rewrite add_missing_get. simpl.
    destruct (obj_get k fs); [done|]. case_decide as Hk.
    + subst. by rewrite lookup_insert_eq.
    + by rewrite lookup_insert_ne by congruence.
Qed.

Lemma add_missing_map fs (m : gmap string string) k :
  obj_get k (foldl add_missing fs (map_to_list m)) =
    match obj_get k fs with Some v => Some v | None => JStr <$> m !! k end.
Proof.
  rewrite add_missing_fold by apply NoDup_fst_map_to_list. by rewrite list_to_map_to_list.
Qed.

(** The value of a key in an object field of the spec. *)
Definition field_of (name : string) (fs : list (string * json)) (k : string) : option json :=
  match obj_get name fs with Some (JObj raw) => obj_get k raw | _ => None end.

Lemma mergeEnvsBlock_envs fs overlay k :
  field_of "envs" (mergeEnvsBlock fs overlay) k =
    match field_of "envs" fs k with Some v => Some v | None => JStr <$> overlay !! k end.
Proof.
  unfold mergeEnvsBlock. case_decide as Ho.
  - subst. rewrite lookup_empty. by destruct (field_of _ _ _).
  - unfold field_of. rewrite obj_get_set_eq, add_missing_map.
    destruct (obj_get "envs" fs) as [[]|]; done.
Qed.

Lemma mergeEnvsBlock_other fs overlay k : k ≠ "envs" →
  obj_get k (mergeEnvsBlock fs overlay) = obj_get k fs.
Proof. intros Hk. unfold mergeEnvsBlock. case_decide; [done|]. by apply obj_get_set_ne. Qed.

(** ** The environment of a job *)

Lemma pick_last p entries v :
  pick p entries = Some v ↔
  ∃ l1 e l2, entries = l1 ++ e :: l2 ∧ p (gev_Target e) = true ∧ gev_Value e = v ∧
    Forall (λ e', p (gev_Target e') = false) l2.
Proof.
  unfold pick. induction entries as [|x l IH] using rev_ind.
  { split; [done|]. intros (l1 & e & l2 & E & _). by destruct l1. }
  rewrite foldl_app. simpl. destruct (p (gev_Target x)) eqn:Hx.
  - split.
    + intros [= <-]. exists l, x, []. by split_and!.
    + intros (l1 & e & l2 & E & He & <- & Hf). destruct l2 as [|y l2' _] using rev_ind.
      * apply app_inj_tail in E as [-> ->]. done.
      * rewrite app_comm_cons, app_assoc in E. apply app_inj_tail in E as [_ ->].
        apply Forall_app in Hf as [_ Hf]. apply Forall_cons in Hf as [? _]. congruence.
  - rewrite IH. split.
    + intros (l1 & e & l2 & -> & He & <- & Hf). exists l1, e, (l2 ++ [x]). rewrite <-app_assoc.
      split_and!; [done..|]. apply Forall_app. by repeat constructor.
    + intros (l1 & e & l2 & E & He & <- & Hf). destruct l2 as [|y l2' _] using rev_ind.
      * apply app_inj_tail in E as [_ ->]. congruence.
      * rewrite app_comm_cons, app_assoc in E. apply app_inj_tail in E as [-> ->].
        apply Forall_app in Hf as [Hf _]. exists l1, e, l2'. by split_and!.
Qed.

(** Where a holder has one entry per target, picking looks the target up; no two
    job targets match the same job type. *)
Definition job_target (t : JobType) : GlobalEnvTarget :=
  match t with JobTypeMig => GlobalEnvTargetSteps | _ => GlobalEnvTargetGates end.

Lemma matches_job_target g t : MatchesJobType g t = bool_decide (g = job_target t).
Proof. by destruct g, t. Qed.

Lemma pick_target t l :
  NoDup (gev_Target <$> l) → pick (λ g, bool_decide (g = t)) l = gev_Value <$> entry_of t l.
Proof.
  intros Hn. destruct (pick _ l) as [v|] eqn:E.
  - apply pick_last in E as (l1 & e & l2 & -> & He & <- & _). apply bool_decide_eq_true in He.
    assert (entry_of t (l1 ++ e :: l2) = Some e) as ->; [|done].
    rewrite fmap_app in Hn. apply NoDup_app in Hn as (_ & Hd & _).
    induction l1 as [|x l1 IH]; simpl; rewrite entry_of_cons; [by rewrite decide_True|].
    rewrite decide_False; [|].
    + apply IH. intros y Hy. apply Hd. by right.
    + intros Hx. eapply (Hd (gev_Target x)); [by left|]. simpl. rewrite Hx, <-He. left.
  - destruct (entry_of t l) as [e|] eqn:Ee; [|done]. exfalso.
    assert (∃ l1 l2, l = l1 ++ e :: l2 ∧ gev_Target e = t) as (l1 & l2 & -> & Ht).
    { clear E Hn. induction l as [|x l IH]; [done|]. rewrite entry_of_cons in Ee.
      case_decide; [injection Ee as <-; by exists [], l|].
      destruct (IH Ee) as (l1 & l2 & -> & ?). by exists (x :: l1), l2. }
    rewrite fmap_app in Hn. apply NoDup_app in Hn as (_ & _ & [Hx _]%NoDup_cons).
    assert (pick (λ g, bool_decide (g = t)) (l1 ++ e :: l2) = Some (gev_Value e)); [|congruence].
    apply pick_last. exists l1, e, l2. rewrite bool_decide_eq_true_2 by done. split_and!; [done..|].
    apply Forall_forall. intros y Hy. apply bool_decide_eq_false. intros E'. apply Hx.
    rewrite Ht, <-E'. by apply list_elem_of_fmap_2.
Qed.

(** What the server's configuration says of a variable of a job: the section's
    overlay, then the entry for jobs of the type, then the entry for nodes. *)
Definition server_env (h : ConfigHolder) (t : JobType) (k : string) : option string :=
  match (default (mkHydraJobConfig ∅ [] []) (ch_hydra h !! JobType_String t)) with
  | cfg => match hjc_Envs cfg !! k with
           | Some v => Some v
           | None => match abstract h k (job_target t) with
                     | Some e => Some (gev_Value e)
                     | None => gev_Value <$> abstract h k GlobalEnvTargetNodes
                     end
           end
  end.

Lemma overlay_env h t k :
  holder_ok h →
  hjc_Envs (assembleHydraOverlay (ch_hydra h) (JobType_String t) (ch_globalEnv h) t) !! k
    = server_env h t k.
Proof.
  intros Hok. unfold assembleHydraOverlay, server_env, global_merged. cbn [hjc_Envs].
  rewrite lookup_union, lookup_omap.
  destruct (hjc_Envs _ !! k) as [v|]; [by destruct (_ ≫= _)|].
  rewrite (left_id_L None _). unfold abstract.
  pose proof (holder_entries_ok h k Hok) as Hn. unfold GetGlobalEnvEntries in *.
  destruct (ch_globalEnv h !! k) as [l|] eqn:E; simpl in *; [|done].
  assert (pick (λ g, MatchesJobType g t) l = gev_Value <$> entry_of (job_target t) l) as ->.
  { rewrite <-pick_target by done. unfold pick. clear. generalize (@None string) as a.
    induction l as [|x l IH]; intros a; simpl; [done|]. by rewrite IH, matches_job_target. }
  rewrite pick_target by done. by destruct (entry_of (job_target t) l).
Qed.

(** ** File lists *)

Abbreviation parses k := (λ e p, ParseStoredEntry k e = inr p).

Lemma spec_records_strings k ss ps dsts :
  Forall2 (parses k) ss ps →
  spec_records k (JStr <$> ss) dsts = inr (list_to_set (pse_Dst <$> ps) ∪ dsts).
Proof.
  intros Hf. revert dsts. induction Hf as [|s p ss ps Hp Hf IH]; intros dsts; simpl.
  - f_equal. set_solver.
  - rewrite Hp, IH. f_equal. set_solver.
Qed.

Lemma overlay_records_spec k overlay dsts added :
  overlay_records k overlay dsts = inr added →
  ∃ ss ps, added = JStr <$> ss ∧ Forall2 (parses k) ss ps ∧ NoDup (pse_Dst <$> ps) ∧
    Forall (λ p, pse_Dst p ∉ dsts) ps ∧ ss `sublist_of` overlay ∧
    Forall (λ s, ∃ p, ParseStoredEntry k s = inr p ∧ (pse_Dst p ∈ dsts ∨ pse_Dst p ∈ pse_Dst <$> ps)) overlay.
Proof.
  revert dsts added. induction overlay as [|s overlay IH]; intros dsts added; simpl.
  { intros [= <-]. exists [], []. split_and!; try constructor. }
  destruct (ParseStoredEntry k s) as [e|p] eqn:Ep; [done|]. case_decide as Hd.
  - intros Ha. destruct (IH _ _ Ha) as (ss & ps & -> & Hf & Hn & Hnew & Hsub & Hall).
    exists ss, ps. split_and!; [done..|by constructor|]. constructor; [by eauto|done].
  - destruct (overlay_records _ _ _) as [e|l] eqn:Er; [done|]. intros [= <-].
    destruct (IH _ _ Er) as (ss & ps & -> & Hf & Hn & Hnew & Hsub & Hall).
    exists (s :: ss), (p :: ps). split_and!; [done|by constructor| | |by constructor|].
    + rewrite fmap_cons. constructor; [|done]. intros (q & Eq & Hq)%list_elem_of_fmap.
      eapply Forall_forall in Hnew; [|exact Hq]. rewrite <-Eq in Hnew. set_solver.
    + constructor; [done|]. eapply Forall_impl; [exact Hnew|]. set_solver.
    + constructor; [exists p; split; [done|right; left]|].
      eapply Forall_impl; [exact Hall|]. intros s' (q & Hq & Hin). exists q. split; [done|].
      rewrite fmap_cons, elem_of_cons. set_solver.
Qed.

(** Merging keeps the step's own entries, adds the overlay's entries whose
    destination is free, and a valid list stays valid. *)
Lemma merge_records_valid k overlay block block' ss :
  mergeRecordsByDstBlock k overlay block = inr block' →
  block_list k block = JStr <$> ss → ValidateHydraEntries k ss = None →
  ∃ added, block_list k block' = JStr <$> (ss ++ added) ∧ added `sublist_of` overlay ∧
    ValidateHydraEntries k (ss ++ added) = None ∧
    Forall (λ s, ∃ p, ParseStoredEntry k s = inr p ∧
              ∃ e p', e ∈ ss ++ added ∧ ParseStoredEntry k e = inr p' ∧ pse_Dst p' = pse_Dst p) overlay.
Proof.
  intros Hm Hb Hv. pose proof Hv as (ps & Hps & Hn)%ValidateHydraEntries_ok.
  unfold mergeRecordsByDstBlock in Hm. case_decide as Ho.
  { injection Hm as <-. subst. exists []. rewrite app_nil_r. by split_and!. }
  rewrite Hb, (spec_records_strings k ss ps) in Hm by done.
  destruct (overlay_records _ _ _) as [e|added] eqn:Er; [done|].
  destruct (overlay_records_spec _ _ _ _ Er) as (as_ & qs & -> & Hqs & Hn' & Hnew & Hsub & Hall).
  rewrite <-fmap_app in Hm. exists as_. split_and!; [|done| |].
  - destruct (ss ++ as_) as [|x l] eqn:El.
    + injection Hm as <-. apply app_eq_nil in El as [-> _]. exact Hb.
    + injection Hm as <-. unfold block_list. by rewrite obj_get_set_eq.
  - apply ValidateHydraEntries_ok. exists (ps ++ qs). split; [by apply Forall2_app|].
    rewrite fmap_app. apply NoDup_app. split_and!; [done| |done].
    intros d (p & -> & Hp)%list_elem_of_fmap (q & Eq & Hq)%list_elem_of_fmap.
    eapply Forall_forall in Hnew; [|exact Hq]. apply Hnew. rewrite <-Eq.
    apply elem_of_union_l, elem_of_list_to_set. by apply list_elem_of_fmap_2.
  - eapply Forall_impl; [exact Hall|]. intros s (p & Hp & Hin). exists p. split; [done|].
    assert (Hin' : pse_Dst p ∈ pse_Dst <$> (ps ++ qs)) by (rewrite fmap_app, elem_of_app; set_solver).
    apply list_elem_of_fmap in Hin' as (p' & Ed & Hp'). apply list_elem_of_lookup in Hp' as [i Hi].
    destruct (Forall2_lookup_r _ _ _ i p' (Forall2_app Hps Hqs) Hi) as (e & He & Hpe).
    exists e, p'. split_and!; [by eapply list_elem_of_lookup_2|done|done].
Qed.

Lemma merge_records_other k overlay block block' f :
  mergeRecordsByDstBlock k overlay block = inr block' → f ≠ HydraFileKind_String k →
  obj_get f block' = obj_get f block.
Proof.
  intros Hm Hf. unfold mergeRecordsByDstBlock in Hm. case_decide; [congruence|].
  destruct (spec_records _ _ _); [done|]. destruct (overlay_records _ _ _); [done|].
  destruct (_ ++ _); [congruence|]. injection Hm as <-. by apply obj_get_set_ne.
Qed.

(** One step: both lists are merged, everything else stays. *)
Lemma merge_step_valid i overlay step step' :
  merge_step i overlay step = inr step' →
  (∀ f, f ≠ "in" → f ≠ "out" → obj_get f step' = obj_get f step) ∧
  ∀ k ss, k = HydraFileIn ∨ k = HydraFileOut →
    block_list k step = JStr <$> ss → ValidateHydraEntries k ss = None →
    ∃ added, block_list k step' = JStr <$> (ss ++ added) ∧
      ValidateHydraEntries k (ss ++ added) = None ∧
      added `sublist_of` (match k with HydraFileIn => hjc_In overlay | _ => hjc_Out overlay end) ∧
      Forall (λ s, ∃ p, ParseStoredEntry k s = inr p ∧
          ∃ e p', e ∈ ss ++ added ∧ ParseStoredEntry k e = inr p' ∧ pse_Dst p' = pse_Dst p)
        (match k with HydraFileIn => hjc_In overlay | _ => hjc_Out overlay end).
Proof.
  unfold merge_step. destruct (mergeRecordsByDstBlock HydraFileIn _ _) as [e|step1] eqn:E1; [done|].
  destruct (mergeRecordsByDstBlock HydraFileOut _ _) as [e|step2] eqn:E2; [done|]. intros [= <-].
  split.
  - intros f H1 H2. rewrite (merge_records_other _ _ _ _ f E2), (merge_records_other _ _ _ _ f E1); done.
  - intros k ss [-> | ->] Hb Hv.
    + destruct (merge_records_valid _ _ _ _ ss E1 Hb Hv) as (added & Hb' & Hs & Hv' & Hall).
      exists added. split_and!; [|done..]. rewrite <-Hb'. unfold block_list. cbn [HydraFileKind_String].
      by rewrite (merge_records_other _ _ _ _ "in" E2).
    + assert (Hb1 : block_list HydraFileOut step1 = JStr <$> ss).
      { rewrite <-Hb. unfold block_list. cbn [HydraFileKind_String].
        by rewrite (merge_records_other _ _ _ _ "out" E1). }
      destruct (merge_records_valid _ _ _ _ ss E2 Hb1 Hv) as (added & Hb' & Hs & Hv' & Hall).
      exists added. by split_and!.
Qed.

Lemma merge_steps_lookup i overlay steps steps' :
  merge_steps i overlay steps = inr steps' → length steps' = length steps ∧
  ∀ n s s', steps !! n = Some s → steps' !! n = Some s' →
    match s with
    | JObj fs => ∃ fs', s' = JObj fs' ∧ merge_step (i + n) overlay fs = inr fs'
    | _ => s' = s
    end.
Proof.
  revert i steps'. induction steps as [|x steps IH]; intros i steps'; simpl.
  { intros [= <-]. split; [done|]. intros n s s' Hs. by rewrite lookup_nil in Hs. }
  destruct (match x with JObj fs => _ | _ => _ end) as [e|x'] eqn:Ex; [done|].
  destruct (merge_steps (S i) overlay steps) as [e|l] eqn:El; [done|]. intros [= <-].
  destruct (IH _ _ El) as [Hlen Hl]. split; [simpl; congruence|]. intros [|n] s s' Hs Hs'; simpl in *.
  - injection Hs as <-. injection Hs' as <-. rewrite Nat.add_0_r. destruct x; try congruence.
    destruct (merge_step i overlay fields) eqn:Em; [done|]. injection Ex as <-. eauto.
  - specialize (Hl n s s' Hs Hs'). by rewrite <-Nat.add_succ_comm.
Qed.

(** ** Decoded objects have no repeated keys *)

Section Unique.
Context `{GoFloat}.

Lemma any_of_obj fs : any_of (JObj fs) = JObj <$> any_fields fs [].
Proof. reflexivity. Qed.

Lemma obj_set_elem k v fs x : x ∈ obj_set k v fs → x = (k, v) ∨ x ∈ fs.
Proof.
  induction fs as [|[k0 v0] fs IH]; simpl; [rewrite list_elem_of_singleton; auto|].
  case_decide; rewrite !elem_of_cons; naive_solver.
Qed.

Lemma any_fields_spec fs acc gs :
  any_fields fs acc = Some gs → unique_keys acc → unique_keys gs ∧
  ∀ kv, kv ∈ gs → kv ∈ acc ∨ ∃ x, any_of x = Some kv.2.
Proof.
  revert acc. induction fs as [|[k x] fs IH]; intros acc; simpl; [by intros [= <-]; auto|].
  intros (x' & Hx & Hgs)%bind_Some Hu. destruct (IH _ Hgs (unique_set _ _ _ Hu)) as [Hu' He].
  split; [done|]. intros kv [Hin|?]%He; [|by right].
  apply obj_set_elem in Hin as [-> |?]; [right; by exists x|by left].
Qed.

Lemma obj_get_elem k v fs : obj_get k fs = Some v → (k, v) ∈ fs.
Proof.
  induction fs as [|[k0 v0] fs IH]; simpl; [done|].
  case_decide; [intros [= <-]; subst; left|intros; right; auto].
Qed.

Lemma any_of_obj_inv j fs : any_of j = Some (JObj fs) → ∃ fs0, j = JObj fs0 ∧ any_fields fs0 [] = Some fs.
Proof.
  destruct j as [| |z|lit| |l|fs0]; intros Hj; try (simpl in Hj; discriminate).
  - by apply float_number in Hj.
  - by apply float_number in Hj.
  - simpl in Hj. apply fmap_Some in Hj as (? & _ & ?). done.
  - rewrite any_of_obj in Hj. apply fmap_Some in Hj as (gs & Hgs & [= ->]). eauto.
Qed.

Lemma parsed_unique spec fs : parseSpecObjectStrict spec = Some fs →
  unique_keys fs ∧ ∀ k raw, obj_get k fs = Some (JObj raw) → unique_keys raw.
Proof.
  unfold parseSpecObjectStrict. destruct (any_of spec) as [[]|] eqn:E; try done. intros [= ->].
  apply any_of_obj_inv in E as (fs0 & -> & Hf).
  destruct (any_fields_spec _ _ _ Hf (NoDup_nil_2)) as [Hu He]. split; [done|].
  intros k raw Hk%obj_get_elem. apply He in Hk as [Hn|[x Hx]]; [by apply not_elem_of_nil in Hn|].
  apply any_of_obj_inv in Hx as (fs1 & _ & Hf1). by eapply any_fields_spec; [exact Hf1|apply NoDup_nil_2].
Qed.

End Unique.

Lemma obj_get_filter fs k :
  unique_keys fs →
  obj_get k (string_fields fs) =
    match obj_get k fs with Some (JStr s) => Some (JStr s) | _ => None end.
Proof.
  unfold string_fields. induction fs as [|[k0 v0] fs IH]; intros Hu; [done|].
  apply NoDup_cons in Hu as [Hk0 Hu]. simpl. case_decide as Hk.
  - subst k0. destruct (is_string v0) eqn:Hv.
    + rewrite filter_cons_True by done. simpl. rewrite decide_True by done. by destruct v0.
    + rewrite filter_cons_False by (simpl; congruence). rewrite IH by done.
      assert (obj_get k fs = None) as ->; [|by destruct v0].
      destruct (obj_get k fs) eqn:E; [|done]. apply obj_get_elem in E. exfalso. apply Hk0.
      by apply (list_elem_of_fmap_2 fst) in E.
  - destruct (is_string v0) eqn:Hv.
    + rewrite filter_cons_True by done. simpl. rewrite decide_False by done. by apply IH.
    + rewrite filter_cons_False by (simpl; congruence). by apply IH.
Qed.

(** ** The pipeline *)

Definition holder_input (h : ConfigHolder) (spec : json) (jobID : string) (t : JobType) :
    claimSpecMutatorInput :=
  mkClaimSpecMutatorInput spec jobID t (ch_globalEnv h) (ch_hydra h) (ch_bundleMap h).

Definition the_overlay (h : ConfigHolder) (t : JobType) : HydraJobConfig :=
  assembleHydraOverlay (ch_hydra h) (JobType_String t) (ch_globalEnv h) t.

(** The steps of a mig job's spec, each merged with the overlay. *)
Definition steps_merged (o : HydraJobConfig) (fs gs : list (string * json)) : Prop :=
  match obj_get "steps" fs with
  | Some (JArr (s :: l)) => ∃ l', merge_steps 0 o (s :: l) = inr l' ∧ obj_get "steps" gs = Some (JArr l')
  | other => obj_get "steps" gs = other
  end.

Lemma applyOverlay_spec fs t o gs :
  applyCanonicalHydraOverlay fs t o = inr gs →
  (∀ k, k ≠ "steps" → obj_get k gs = obj_get k fs) ∧
  (t ≠ JobTypeMig → gs = fs) ∧ (t = JobTypeMig → steps_merged o fs gs).
Proof.
  unfold applyCanonicalHydraOverlay, applyOverlayToSteps, steps_merged. destruct t.
  1,3: intros [= <-]; by split_and!.
  destruct (obj_get "steps" fs) as [v|] eqn:E; [|intros [= <-]; by split_and!].
  destruct v as [| | | | |[|s l]|]; try (intros [= <-]; by split_and!).
  destruct (merge_steps _ _ _) as [e|l']; [done|]. intros [= <-]. split_and!; [|done|].
  - intros k Hk. by apply obj_get_set_ne.
  - intros _. exists l'. split; [done|]. apply obj_get_set_eq.
Qed.

Lemma bundle_spec fs i :
  (∀ raw, obj_get "bundle_map" fs = Some (JObj raw) → unique_keys raw) →
  (∀ k, k ≠ "bundle_map" → obj_get k (applyBundleMapMutator fs i) = obj_get k fs) ∧
  (csi_bundleMap i ≠ ∅ → ∀ hash, field_of "bundle_map" (applyBundleMapMutator fs i) hash =
     match field_of "bundle_map" fs hash with
     | Some (JStr s) => Some (JStr s)
     | _ => JStr <$> csi_bundleMap i !! hash
     end).
Proof.
  intros Hu. unfold applyBundleMapMutator. split.
  - intros k Hk. case_decide; [done|]. by apply obj_get_set_ne.
  - intros Hne hash. rewrite decide_False by done. unfold field_of. rewrite obj_get_set_eq, add_missing_map.
    destruct (obj_get "bundle_map" fs) as [v|] eqn:E; [|done]. destruct v as [| | | | | |raw]; try done.
    rewrite obj_get_filter by (by eapply Hu). by destruct (obj_get hash raw) as [[]|].
Qed.

(** What a claim makes of a spec, field by field. *)
Lemma mutateClaimSpec_spec `{GoFloat} h spec jobID t out :
  holder_ok h → mutateClaimSpec (holder_input h spec jobID t) = inr out →
  ∃ fs gs, parseSpecObjectStrict spec = Some fs ∧ out = JObj gs ∧
    obj_get "job_id" gs = Some (JStr jobID) ∧
    (∀ k, k ∉ ["job_id"; "envs"; "bundle_map"; "steps"] → obj_get k gs = obj_get k fs) ∧
    (∀ k, field_of "envs" gs k =
       match field_of "envs" fs k with Some v => Some v | None => JStr <$> server_env h t k end) ∧
    (ch_bundleMap h ≠ ∅ → ∀ hash, field_of "bundle_map" gs hash =
       match field_of "bundle_map" fs hash with
       | Some (JStr s) => Some (JStr s)
       | _ => JStr <$> ch_bundleMap h !! hash
       end) ∧
    (ch_bundleMap h = ∅ → obj_get "bundle_map" gs = obj_get "bundle_map" fs) ∧
    (t ≠ JobTypeMig → obj_get "steps" gs = obj_get "steps" fs) ∧
    (t = JobTypeMig → steps_merged (the_overlay h t) fs gs).
Proof.
  intros Hok. unfold mutateClaimSpec, applyHydraOverlayMutator. cbn [csi_spec csi_jobID csi_jobType holder_input].
  destruct (parseSpecObjectStrict spec) as [fs|] eqn:Hp; [|done].
  destruct (validateOverlayCollisions _); [done|].
  change (overlay_of (holder_input h spec jobID t)) with (the_overlay h t).
  set (f1 := applyJobIDMutator fs jobID). set (f2 := mergeEnvsBlock f1 _).
  destruct (applyCanonicalHydraOverlay f2 t _) as [e|f3] eqn:E3; [done|]. intros [= <-].
  assert (H1 : ∀ k, k ≠ "job_id" → obj_get k f1 = obj_get k fs) by (intros; by apply obj_get_set_ne).
  assert (H2 : ∀ k, k ≠ "envs" → obj_get k f2 = obj_get k f1) by (intros; by apply mergeEnvsBlock_other).
  destruct (applyOverlay_spec _ _ _ _ E3) as (H3 & Hgate & Hmig).
  assert (Hb : obj_get "bundle_map" f3 = obj_get "bundle_map" fs) by (rewrite H3, H2, H1; done).
  destruct (bundle_spec f3 (holder_input h spec jobID t)) as [H4 H4b].
  { intros raw Hraw. rewrite Hb in Hraw. apply parsed_unique in Hp as [_ Hu]. by eapply Hu. }
  exists fs, (applyBundleMapMutator f3 (holder_input h spec jobID t)).
  split_and!; [done|done| | | | | | |].
  - rewrite H4, H3, H2 by done. apply obj_get_set_eq.
  - intros k Hk. rewrite !not_elem_of_cons in Hk. destruct Hk as (? & ? & ? & ? & _).
    by rewrite H4, H3, H2, H1.
  - intros k. transitivity (field_of "envs" f2 k).
    { unfold field_of. by rewrite H4, H3. }
    unfold f2. rewrite mergeEnvsBlock_envs. unfold the_overlay. rewrite overlay_env by done.
    unfold field_of. by rewrite H1.
  - intros Hne hash. rewrite H4b by done. unfold field_of. by rewrite Hb.
  - intros He. unfold applyBundleMapMutator. cbn [csi_bundleMap holder_input]. by rewrite decide_True.
  - intros Ht. rewrite H4, (Hgate Ht), H2, H1 by done. done.
  - intros Ht. specialize (Hmig Ht). unfold steps_merged in *.
    rewrite H2, H1 in Hmig by done. rewrite !H4 by done. exact Hmig.
Qed.
