(* ===== verification/Recovery.v ===== *)
(** * Reconciliation and stale-job recovery ([internal/server/recovery])

    [MaybeUpdateRunStatus] and [MaybeCompleteRunIfAllReposTerminal] derive run
    and wave statuses from the rows below them. The recovery task runs them after
    cancelling the jobs of nodes that stopped sending heartbeats; it works
    statement by statement, without a transaction, and goes on after errors. *)

From stdpp Require Import base gmap sets list sorting strings.
From S2P Require Import Prelude GoStrings Types Json JobMeta Db Tx Queries JobChain Lifecycle.
From S2P Require Import Tokens.
From Stdlib Require Import ZArith Lia.

Section Recovery.
Context `{Collation}.

Definition MaybeUpdateRunStatus (runID : string) (attempt : Z) : M bool :=
  jobs ← wrap "list jobs by run attempt" (ListJobsByRunAttempt runID attempt);
  match EvaluateRunAttemptTerminalStatus jobs with
  | inl e => throw e
  | inr ev =>
      match rare_ShouldUpdate ev, rare_Status ev with
      | true, Some status =>
          wrap "update run status" (UpdateRunStatus runID status) ;; mret true
      | _, _ => mret false
      end
  end.

Definition repoURLForID (id : string) : M string :=
  repo ← wrap "get repo" (GetRepo id); mret (repo_Url repo).

(** [events] tells whether an event service is configured; then the repository
    is read for the event's URL, a failure to read it is ignored, and the run's
    summary and its end are published. *)
Definition MaybeCompleteRunIfAllReposTerminal (events : bool) (run : Run) : M bool :=
  wave ← wrap "get wave" (GetWave (run_WaveID run));
  if IsTerminalWaveStatus (wave_Status wave) then mret false
  else
    counts ← wrap "count wave runs" (CountRunsByWaveStatus (run_WaveID run));
    let eval := EvaluateWaveCompletionFromRunCounts counts in
    if negb (rce_ShouldFinish eval) then mret false
    else
      currentWave ← wrap "get wave for completion check" (GetWave (run_WaveID run));
      if IsTerminalWaveStatus (wave_Status currentWave) then mret false
      else
        wrap "update wave status" (UpdateWaveStatus (run_WaveID run) WaveStatusFinished) ;;
        when events
          (emit (HubResumeRun (run_ID run) (run_Attempt run) (ResumeCount (run_Stats run))) ;;
           repo ← attempt (GetRepo (run_RepoID run));
           emit (HubRun (run_ID run) (rce_RunState eval) (match repo with inr r => repo_Url r | inl _ => "" end)) ;;
           emit (HubRunDone (run_ID run))) ;;
        mret true.

(** ** The periodic task *)

Record StaleJobRecoveryTask := mkStaleJobRecoveryTask {
  srt_events : bool;
  srt_interval : Z;         (* microseconds *)
  srt_nodeStaleAfter : Z    (* microseconds *)
}.

Definition NewStaleJobRecoveryTask (events : bool) (interval nodeStaleAfter : Z) :
    StaleJobRecoveryTask :=
  mkStaleJobRecoveryTask events
    (if decide (interval ≤ 0)%Z then 30 * 1000000 else interval)%Z
    (if decide (nodeStaleAfter ≤ 0)%Z then 60 * 1000000 else nodeStaleAfter)%Z.

(** The counters of a cycle, the runs it finalized, and the runs for which it
    logged "reconcile run status failed" after it had cancelled their jobs. *)
Record Cycle := mkCycle {
  cy_cancelledJobs : Z; cy_runsUpdated : Z; cy_runsFinalized : Z;
  cy_finalizedRuns : gset string; cy_registry : option Registry;
  cy_unreconciled : list string
}.

(** One round of the loop over stale attempts. *)
Definition recover_row (t : StaleJobRecoveryTask) (c : Cycle) (stale : StaleRow) : M Cycle :=
  a ← attempt (CancelActiveJobsByRunAttempt (st_RunID stale) (st_Attempt stale));
  match a with
  | inl _ => mret c
  | inr affected =>
      let c := mkCycle (cy_cancelledJobs c + affected) (cy_runsUpdated c) (cy_runsFinalized c)
                 (cy_finalizedRuns c) (cy_registry c) (cy_unreconciled c) in
      u ← attempt (MaybeUpdateRunStatus (st_RunID stale) (st_Attempt stale));
      match u with
      | inl _ =>   (* logged, and on to the next row *)
          mret (mkCycle (cy_cancelledJobs c) (cy_runsUpdated c) (cy_runsFinalized c)
                  (cy_finalizedRuns c) (cy_registry c) (st_RunID stale :: cy_unreconciled c))
      | inr false => mret c
      | inr true =>
          let c := mkCycle (cy_cancelledJobs c) (cy_runsUpdated c + 1) (cy_runsFinalized c)
                     (cy_finalizedRuns c) (cy_registry c) (cy_unreconciled c) in
          if decide (st_RunID stale ∈ cy_finalizedRuns c) then mret c
          else
            g ← attempt (GetRun (st_RunID stale));
            match g with
            | inl _ => mret c
            | inr run =>
                f ← attempt (MaybeCompleteRunIfAllReposTerminal (srt_events t) run);
                match f with
                | inr true =>
                    reg ← ReleaseWave (run_WaveID run) (cy_registry c);
                    mret (mkCycle (cy_cancelledJobs c) (cy_runsUpdated c) (cy_runsFinalized c + 1)
                            ({[st_RunID stale]} ∪ cy_finalizedRuns c) reg (cy_unreconciled c))
                | _ => mret c
                end
            end
      end
  end.

Fixpoint recover_rows (t : StaleJobRecoveryTask) (c : Cycle) (rows : list StaleRow) : M Cycle :=
  match rows with
  | [] => mret c
  | r :: rs => c' ← recover_row t c r; recover_rows t c' rs
  end.

Definition StaleJobRecoveryTask_Run (t : StaleJobRecoveryTask) (reg : option Registry) : M Cycle :=
  now ← ask env_clock;
  let cutoff := (now - srt_nodeStaleAfter t)%Z in
  let c0 := mkCycle 0 0 0 ∅ reg [] in
  s ← attempt (ListStaleRunningJobs cutoff);
  match s with
  | inl _ => mret c0
  | inr [] => mret c0
  | inr staleRows =>
      attempt (CountStaleNodesWithRunningJobs cutoff) ;;
      recover_rows t c0 staleRows
  end.

End Recovery.

(** * Token markers in run statistics ([internal/gitlabtoken/gitlabtoken.go],
    [internal/server/handlers/gitlab_token.go])

    A run that needs an ephemeral GitLab token records the token's hash in its
    statistics; the token itself stays in the registry. SHA-256, URL parsing and
    case folding are arguments. *)

Definition RunMetadataKey : string := "ploy.gitlab_token_hash".

Section Token.
Context (Hash : string → string).

(** The hash and the trimmed token, unless the token is blank. *)
Definition ValidateRequest (token : string) : option (string * string) :=
  let token := trim_space token in
  if decide (token = "") then None else Some (Hash token, token).

(** The decoded form of the two results of [RunStatsWithMarker]: [None] is its
    error, [RawEmpty] its nil slice. *)
Definition RunStatsWithMarker (hash : string) : option raw :=
  let hash := trim_space hash in
  if decide (hash = "") then Some RawEmpty
  else if negb (String.length hash =? 64) then None
  else if negb (forallb is_hex_lower (to_bytes hash)) then None
  else Some (RawJson (JObj [("metadata", JObj [(RunMetadataKey, JStr hash)])])).

(** The last binding of a key of a Go map. *)
Definition map_get (k : string) (m : list (string * string)) : string :=
  foldl (λ acc kv, if decide (kv.1 = k) then kv.2 else acc) "" m.

Definition HashFromRunStats (stats : raw) : string :=
  match stats with
  | RawJson j =>
      match dec_struct [("metadata", dec_field id (λ v _, v) dec_string_map)] j [] with
      | Some m => trim_space (map_get RunMetadataKey m)
      | None => ""
      end
  | _ => ""
  end.

(** ** Which repositories a token may be used for *)

Context (configuredHost : string) (schemeAndHostForRepoURL : string → string * string)
        (EqualFold : string → string → bool).

Definition validateGitLabTokenRequest (token : option string) : option (string * string) :=
  match token with None => Some ("", "") | Some t => ValidateRequest t end.

Definition repo_allowed (url : string) : bool :=
  let '(scheme, host) := schemeAndHostForRepoURL url in
  bool_decide (scheme = "https") && EqualFold host configuredHost.

Definition validateGitLabTokenRequestForRepos (token : option string) (repoURLs : list string) :
    option (string * string) :=
  match validateGitLabTokenRequest token with
  | None => None
  | Some (hash, trimmed) =>
      if decide (hash = "") then Some (hash, trimmed)
      else if decide (configuredHost = "") then None
      else if forallb repo_allowed repoURLs then Some (hash, trimmed) else None
  end.

End Token.

(** ** Facts *)

(** The marker of a hash is read back from the statistics it is stored in. *)
Lemma marker_roundtrip hash stats :
  RunStatsWithMarker hash = Some stats → HashFromRunStats stats = trim_space hash.
Proof.
  unfold RunStatsWithMarker. destruct (decide (trim_space hash = "")) as [->|Hne].
  { by intros [= <-]. }
  destruct (negb (_ =? 64)); [done|]. destruct (negb (forallb _ _)) eqn:Eh; [done|]. intros [= <-].
  apply negb_false_iff in Eh. unfold HashFromRunStats. simpl.
  unfold dec_struct, dec_field. simpl. unfold map_get. simpl. by apply trim_space_hex.
Qed.
