(* ===== verification/Projects.v ===== *)
(** * Migration projects ([internal/store/migs.sql.go], [mig_repos.sql.go],
    [specs.sql.go], [internal/server/handlers/migs_crud.go], [migs_archive.go],
    [migs_spec.go], [migs_repos.go], [internal/domain/types/vcs.go])

    A mig is a named project with a current spec and a set of repositories; runs are
    launched from it. Here its tables' statements, the endpoints that change it, and
    the normalisation of repository URLs they share. Path identifiers and request
    bodies are taken after they have been parsed; an endpoint returns its status and
    the row it shows. *)

From stdpp Require Import base gmap sets list sorting strings.
From S2P Require Import Prelude GoStrings Types Json JobMeta Hydra Spec Db Tx Queries Lifecycle.
From S2P Require Import Recovery.
From Stdlib Require Import ZArith Lia.
Local Open Scope list_scope.

(** ** Repository URLs

    [url.Parse] is used to drop the credentials of a URL: [without_user] is the
    rendering of a URL it parses to one with a user, once the user is removed. *)
Class UrlLib := { without_user : string → option string }.

Definition allowedRepoURL (s : string) : bool :=
  let s := to_lower s in
  has_prefix s "https://" || has_prefix s "ssh://" || has_prefix s "file://".

Definition RepoURL_Validate (v : string) : bool := negb (IsEmpty v) && allowedRepoURL v.

Definition GitRef_Validate (v : string) : bool := negb (IsEmpty v).

Definition NormalizeRepoURL `{UrlLib} (raw : string) : string :=
  let n := trim_space raw in
  let n := if allowedRepoURL n then default n (without_user n) else n in
  trim_suffix (trim_suffix n "/") ".git".

(** [MigRef.Validate]: not blank, and safe in a path. *)
Definition MigRef_Validate (v : string) : bool :=
  negb (IsEmpty v) &&
  forallb (λ c, negb (bool_decide (c ∈ [b 47; b 63; b 32; b 9; b 10; b 13]))) (to_bytes (trim_space v)).

(** ** Errors *)

(** SQLSTATE 23505: PostgreSQL names unique constraints [*_pkey] and [*_key]. *)
Fixpoint isUniqueViolation (e : Err) : bool :=
  match e with
  | ErrConstraint name => has_suffix name "_pkey" || has_suffix name "_key"
  | ErrWrap _ e' => isUniqueViolation e'
  | ErrCompletion _ _ (Some e') => isUniqueViolation e'
  | _ => false
  end.

Section Projects.
Context `{Collation}.

(** ** specs.sql *)

Record CreateSpecParams := mkCreateSpecParams {
  cs_ID : string; cs_Name : string; cs_Spec : raw; cs_CreatedBy : option string
}.

Definition new_spec (a : CreateSpecParams) (j : json) (now : Z) : SpecRow :=
  mkSpecRow (cs_ID a) (cs_Name a) "" jempty "" None (jsonb_of j) (cs_CreatedBy a) now.

Definition CreateSpec (a : CreateSpecParams) : M SpecRow :=
  if negb (validateJSONB (cs_Spec a)) then throw (ErrWrap "specs.spec" ErrInvalidJSON)
  else stmt (λ env db,
    match cs_Spec a with
    | RawJson j =>
        if decide (is_Some (db_specs db !! cs_ID a)) then inl (ErrConstraint "specs_pkey")
        else let r := new_spec a j (env_now env) in
             inr (r, set_db_specs (<[cs_ID a := r]> (db_specs db)) db)
    | _ => inl (ErrConstraint "specs_spec_not_null")
    end).

(** ** migs.sql *)

Record CreateMigParams := mkCreateMigParams {
  cm_ID : string; cm_Name : string; cm_SpecID : option string; cm_CreatedBy : option string
}.

Definition new_mig (a : CreateMigParams) (now : Z) : Mig :=
  mkMig (cm_ID a) (cm_Name a) (cm_SpecID a) (cm_CreatedBy a) now None.

Definition spec_exists (db : DB) (specID : option string) : bool :=
  match specID with None => true | Some i => bool_decide (is_Some (db_specs db !! i)) end.

Definition CreateMig (a : CreateMigParams) : M Mig :=
  stmt (λ env db,
    if decide (is_Some (db_migs db !! cm_ID a)) then inl (ErrConstraint "migs_pkey")
    else if existsb (λ m, bool_decide (mig_Name m = cm_Name a)) (rows (db_migs db))
    then inl (ErrConstraint "migs_name_key")
    else if negb (spec_exists db (cm_SpecID a)) then inl (ErrConstraint "migs_spec_id_fkey")
    else let m := new_mig a (env_now env) in
         inr (m, set_db_migs (<[cm_ID a := m]> (db_migs db)) db)).

Definition GetMig (id : string) : M Mig := query_one (λ _ db, inr (db_migs db !! id, db)).

Definition GetMigByName (name : string) : M Mig :=
  query_one (λ _ db, inr (snd <$> list_find (λ m, mig_Name m = name) (rows (db_migs db)), db)).

Definition set_archived (v : option Z) (m : Mig) : Mig :=
  mkMig (mig_ID m) (mig_Name m) (mig_SpecID m) (mig_CreatedBy m) (mig_CreatedAt m) v.

Definition ArchiveMig (id : string) : M unit :=
  exec (λ env db, set_db_migs (alter (λ m,
    match mig_ArchivedAt m with None => set_archived (Some (env_now env)) m | Some _ => m end)
    id (db_migs db)) db).

Definition UnarchiveMig (id : string) : M unit :=
  exec (λ _ db, set_db_migs (alter (set_archived None) id (db_migs db)) db).

Definition set_mig_spec (v : option string) (m : Mig) : Mig :=
  mkMig (mig_ID m) (mig_Name m) v (mig_CreatedBy m) (mig_CreatedAt m) (mig_ArchivedAt m).

Definition UpdateMigSpec (id : string) (specID : option string) : M unit :=
  stmt (λ _ db,
    if decide (is_Some (db_migs db !! id)) then
      if negb (spec_exists db specID) then inl (ErrConstraint "migs_spec_id_fkey")
      else inr (tt, set_db_migs (alter (set_mig_spec specID) id (db_migs db)) db)
    else inr (tt, db)).

(** Waves and runs restrict the deletion; memberships go with it. *)
Definition DeleteMig (id : string) : M unit :=
  stmt (λ _ db,
    if existsb (λ w, bool_decide (wave_MigID w = id)) (rows (db_waves db))
    then inl (ErrConstraint "waves_mig_id_fkey")
    else if existsb (λ r, bool_decide (run_MigID r = id)) (rows (db_runs db))
    then inl (ErrConstraint "runs_mig_id_fkey")
    else inr (tt, set_db_mig_repos (filter (λ kv, mr_MigID kv.2 ≠ id) (db_mig_repos db))
                    (set_db_migs (delete id (db_migs db)) db))).

(** ** mig_repos.sql *)

Record CreateMigRepoParams := mkCreateMigRepoParams {
  cr_ID : string; cr_MigID : string; cr_Url : string; cr_BaseRef : string
}.

Definition by_mig_created : relation MigRepo :=
  lex (λ x y, mr_CreatedAt x < mr_CreatedAt y)%Z (λ x y, coll_le (mr_ID x) (mr_ID y)).

#[export] Instance by_mig_created_dec : RelDecision by_mig_created.
Proof. unfold by_mig_created. apply lex_dec; intros x y; apply _. Defined.

Definition ListMigReposByMig (migID : string) : M (list MigRepo) :=
  query (λ db, select (λ m, bool_decide (mr_MigID m = migID)) by_mig_created (db_mig_repos db)).

Definition GetMigRepo (id : string) : M MigRepo := query_one (λ _ db, inr (db_mig_repos db !! id, db)).

Definition url_repo (db : DB) (url : string) : option Repo :=
  snd <$> list_find (λ r, repo_Url r = url) (rows (db_repos db)).

Definition mig_repo_of (db : DB) (migID repoID : string) : option MigRepo :=
  snd <$> list_find (λ m, mr_MigID m = migID ∧ mr_RepoID m = repoID) (rows (db_mig_repos db)).

Definition GetMigRepoByURL (migID url : string) : M MigRepo :=
  query_one (λ _ db, inr (
    match url_repo db url with None => None | Some r => mig_repo_of db migID (repo_ID r) end, db)).

(** The repository with the URL, inserted under the identifier of the membership
    when there is none. *)
Definition resolve_repo (a : CreateMigRepoParams) (now : Z) (db : DB) : Err + string * DB :=
  match url_repo db (cr_Url a) with
  | Some r => inr (repo_ID r, db)
  | None =>
      if decide (is_Some (db_repos db !! cr_ID a)) then inl (ErrConstraint "repos_pkey")
      else inr (cr_ID a, set_db_repos (<[cr_ID a := mkRepo (cr_ID a) (cr_Url a) now]> (db_repos db)) db)
  end.

Definition insert_mig_repo (a : CreateMigRepoParams) (repoID : string) (now : Z) (db : DB) :
    Err + MigRepo * DB :=
  if decide (is_Some (db_mig_repos db !! cr_ID a)) then inl (ErrConstraint "mig_repos_pkey")
  else if decide (db_migs db !! cr_MigID a = None) then inl (ErrConstraint "mig_repos_mig_id_fkey")
  else let m := mkMigRepo (cr_ID a) (cr_MigID a) repoID (cr_BaseRef a) now in
       inr (m, set_db_mig_repos (<[cr_ID a := m]> (db_mig_repos db)) db).

Definition CreateMigRepo (a : CreateMigRepoParams) : M MigRepo :=
  stmt (λ env db,
    match resolve_repo a (env_now env) db with
    | inl e => inl e
    | inr (repoID, db1) =>
        if member db1 (cr_MigID a) repoID then inl (ErrConstraint "mig_repos_mig_id_repo_id_key")
        else insert_mig_repo a repoID (env_now env) db1
    end).

(** [ON CONFLICT (mig_id, repo_id) DO UPDATE SET base_ref] *)
Definition UpsertMigRepo (a : CreateMigRepoParams) : M MigRepo :=
  stmt (λ env db,
    match resolve_repo a (env_now env) db with
    | inl e => inl e
    | inr (repoID, db1) =>
        match mig_repo_of db1 (cr_MigID a) repoID with
        | Some m =>
            let m' := mkMigRepo (mr_ID m) (mr_MigID m) (mr_RepoID m) (cr_BaseRef a) (mr_CreatedAt m) in
            inr (m', set_db_mig_repos (<[mr_ID m := m']> (db_mig_repos db1)) db1)
        | None => insert_mig_repo a repoID (env_now env) db1
        end
    end).

Definition HasMigRepoHistory (repoID : string) : M bool :=
  query (λ db, existsb (λ r, bool_decide (run_RepoID r = repoID)) (rows (db_runs db))).

Definition DeleteMigRepo (id : string) : M unit :=
  stmt (λ _ db,
    match db_mig_repos db !! id with
    | None => inr (tt, db)
    | Some m =>
        if existsb (λ r, bool_decide (run_MigID r = mr_MigID m ∧ run_RepoID r = mr_RepoID m)) (rows (db_runs db))
        then inl (ErrConstraint "runs_mig_repo_membership_fkey")
        else inr (tt, set_db_mig_repos (delete id (db_mig_repos db)) db)
    end).

(** ** runs.sql: pages of runs *)

Definition newest_first : relation Run :=
  lex (λ x y, run_CreatedAt y < run_CreatedAt x)%Z (λ x y, coll_le (run_ID y) (run_ID x)).

#[export] Instance newest_first_dec : RelDecision newest_first.
Proof. unfold newest_first. apply lex_dec; intros x y; apply _. Defined.

Definition runs_newest_first (db : DB) : list Run := select (λ _, true) newest_first (db_runs db).

(** [LIMIT] and [OFFSET] reject negative values. *)
Definition ListRuns (limit offset : Z) : M (list Run) :=
  stmt (λ _ db,
    if decide (limit < 0)%Z then inl (ErrServer "LIMIT must not be negative")
    else if decide (offset < 0)%Z then inl (ErrServer "OFFSET must not be negative")
    else inr (take (Z.to_nat limit) (drop (Z.to_nat offset) (runs_newest_first db)), db)).

Fixpoint match_any (f : Run → M bool) (page : list Run) : M bool :=
  match page with
  | [] => mret false
  | r :: rest => matched ← f r; if matched : bool then mret true else match_any f rest
  end.

Definition pageLimit : Z := 200.

(** The loop of [scanRunPages], [None] when [rounds] pages were not enough. The
    offset is an [int32]. *)
Fixpoint scan_pages (rounds : nat) (pageOffset : Z) (f : Run → M bool) : M (option bool) :=
  match rounds with
  | O => mret None
  | S rounds' =>
      page ← ListRuns pageLimit pageOffset;
      match page with
      | [] => mret (Some false)
      | _ =>
          matched ← match_any f page;
          if matched : bool then mret (Some true)
          else scan_pages rounds' (wrap32 (pageOffset + pageLimit)) f
      end
  end.

(** Enough rounds for the runs there are ([scan_pages_total]). *)
Definition scanRunPages (f : Run → M bool) : M (option bool) := λ t,
  scan_pages (S (size (db_runs (tx_db t)))) 0 f t.

Definition migHasAnyRuns (migID : string) : M (option bool) :=
  scanRunPages (λ run, mret (bool_decide (run_MigID run = migID))).

Definition busy_job (j : Job) : bool :=
  bool_decide (job_Status j = JobStatusRunning ∨ job_Status j = JobStatusQueued).

Definition migHasAnyRunningJobs (migID : string) : M (option bool) :=
  scanRunPages (λ run,
    if decide (run_MigID run = migID) then
      jobs ← ListJobsByRun (run_ID run); mret (existsb busy_job jobs)
    else mret false).

(** ** Endpoints *)

Definition not_found_or_500 (e : Err) : Z := if errors_Is e ErrNoRows then 404 else 500.

Definition getMigByIDOrFail (migID : string) : M (Z + Mig) :=
  r ← attempt (GetMig migID);
  mret (match r with inr mig => inr mig | inl e => inl (not_found_or_500 e) end).

Definition resolveMigByRef (ref : string) : M Mig :=
  r ← attempt (GetMig ref);
  match r with
  | inr mig => mret mig
  | inl e => if errors_Is e ErrNoRows then GetMigByName ref else throw e
  end.

Definition getMigByRefOrFail (ref : string) : M (Z + Mig) :=
  r ← attempt (resolveMigByRef ref);
  mret (match r with inr mig => inr mig | inl e => inl (not_found_or_500 e) end).

Definition archived (m : Mig) : bool := bool_decide (is_Some (mig_ArchivedAt m)).

Definition archiveMigHandler (ref : string) : M (Z * option bool) :=
  g ← getMigByRefOrFail ref;
  match g with
  | inl code => mret (code, None)
  | inr mig =>
      if archived mig then mret (200%Z, Some true)
      else
        h ← attempt (migHasAnyRunningJobs (mig_ID mig));
        match h with
        | inl _ | inr None => mret (500%Z, None)
        | inr (Some true) => mret (409%Z, None)
        | inr (Some false) =>
            r ← attempt (ArchiveMig (mig_ID mig));
            mret (match r with inl _ => (500%Z, None) | inr _ => (200%Z, Some true) end)
        end
  end.

Definition unarchiveMigHandler (ref : string) : M (Z * option bool) :=
  g ← getMigByRefOrFail ref;
  match g with
  | inl code => mret (code, None)
  | inr mig =>
      if archived mig then
        r ← attempt (UnarchiveMig (mig_ID mig));
        mret (match r with inl _ => (500%Z, None) | inr _ => (200%Z, Some false) end)
      else mret (200%Z, Some false)
  end.

Definition deleteMigHandler (ref : string) : M Z :=
  g ← getMigByRefOrFail ref;
  match g with
  | inl code => mret code
  | inr mig =>
      h ← attempt (migHasAnyRuns (mig_ID mig));
      match h with
      | inl _ | inr None => mret 500%Z
      | inr (Some true) => mret 409%Z
      | inr (Some false) =>
          r ← attempt (DeleteMig (mig_ID mig));
          mret (match r with inl _ => 500%Z | inr _ => 204%Z end)
      end
  end.

Context `{GoFmt} `{SpecLib} `{UrlLib}.

Record CreateMigRequest := mkCreateMigRequest {
  cmr_Name : string; cmr_Spec : option raw; cmr_CreatedBy : option string
}.

(** A spec that is given and not empty. *)
Definition given_spec (s : option raw) : option raw :=
  match s with Some RawEmpty | None => None | Some r => Some r end.

Definition createMigHandler (migID specID : string) (req : CreateMigRequest) :
    M (Z * option (Mig * option string)) :=
  let name := trim_space (cmr_Name req) in
  if decide (name = "") then mret (400%Z, None)
  else if negb (MigRef_Validate name) then mret (400%Z, None)
  else if match given_spec (cmr_Spec req) with
          | Some s => match ParseMigSpecJSON s with inl _ => true | inr _ => false end
          | None => false
          end then mret (400%Z, None)
  else
    c ← attempt (CreateMig (mkCreateMigParams migID name None (cmr_CreatedBy req)));
    match c with
    | inl e => mret (if isUniqueViolation e then 409%Z else 500%Z, None)
    | inr mig =>
        match given_spec (cmr_Spec req) with
        | None => mret (201%Z, Some (mig, None))
        | Some s =>
            cs ← attempt (CreateSpec (mkCreateSpecParams specID "" s (cmr_CreatedBy req)));
            match cs with
            | inl _ => mret (500%Z, None)
            | inr created =>
                u ← attempt (UpdateMigSpec migID (Some (sp_ID created)));
                mret (match u with
                      | inl _ => (500%Z, None)
                      | inr _ => (201%Z, Some (mig, Some (sp_ID created)))
                      end)
            end
        end
    end.

Record SetSpecRequest := mkSetSpecRequest {
  ssr_Name : string; ssr_Spec : raw; ssr_CreatedBy : option string
}.

Definition setMigSpecHandler (specID ref : string) (req : SetSpecRequest) : M (Z * option SpecRow) :=
  match ssr_Spec req with
  | RawEmpty => mret (400%Z, None)
  | s =>
      match ParseMigSpecJSON s with
      | inl _ => mret (400%Z, None)
      | inr _ =>
          g ← getMigByRefOrFail ref;
          match g with
          | inl code => mret (code, None)
          | inr mig =>
              if archived mig then mret (409%Z, None)
              else
                c ← attempt (CreateSpec (mkCreateSpecParams specID (ssr_Name req) s (ssr_CreatedBy req)));
                match c with
                | inl _ => mret (500%Z, None)
                | inr created =>
                    u ← attempt (UpdateMigSpec (mig_ID mig) (Some (sp_ID created)));
                    mret (match u with inl _ => (500%Z, None) | inr _ => (201%Z, Some created) end)
                end
          end
      end
  end.

Definition addMigRepoHandler (newID migID repoURL baseRef : string) : M (Z * option MigRepo) :=
  let normalizedURL := NormalizeRepoURL repoURL in
  if negb (RepoURL_Validate normalizedURL) || negb (GitRef_Validate baseRef) then mret (400%Z, None)
  else
    g ← getMigByIDOrFail migID;
    match g with
    | inl code => mret (code, None)
    | inr mig =>
        if archived mig then mret (409%Z, None)
        else
          c ← attempt (CreateMigRepo (mkCreateMigRepoParams newID (mig_ID mig) normalizedURL baseRef));
          mret (match c with
                | inl e => (if isUniqueViolation e then 409%Z else 500%Z, None)
                | inr row => (201%Z, Some row)
                end)
    end.

Definition deleteMigRepoHandler (migID repoID : string) : M Z :=
  g ← getMigByIDOrFail migID;
  match g with
  | inl code => mret code
  | inr mig =>
      r ← attempt (GetMigRepo repoID);
      match r with
      | inl e => mret (not_found_or_500 e)
      | inr repo =>
          if negb (bool_decide (mr_MigID repo = mig_ID mig)) then mret 404%Z
          else
            h ← attempt (HasMigRepoHistory (mr_RepoID repo));
            match h with
            | inl _ => mret 500%Z
            | inr true => mret 409%Z
            | inr false =>
                d ← attempt (DeleteMigRepo repoID);
                mret (match d with inl _ => 500%Z | inr _ => 204%Z end)
            end
      end
  end.

(** ** Bulk import

    [read k] is what the CSV reader returns at its [k]-th call; a record with a
    number of fields other than two comes with an error. *)

Inductive CsvRead := CsvEOF | CsvErr | CsvRecord (repoURL baseRef : string).

Record ImportCounts := mkImportCounts {
  ic_Created : Z; ic_Updated : Z; ic_Failed : Z; ic_Errors : list (nat * string)
}.

Definition no_counts : ImportCounts := mkImportCounts 0 0 0 [].

Definition count_failed (line : nat) (msg : string) (c : ImportCounts) : ImportCounts :=
  mkImportCounts (ic_Created c) (ic_Updated c) (ic_Failed c + 1) (ic_Errors c ++ [(line, msg)]).

Definition count_done (isUpdate : bool) (c : ImportCounts) : ImportCounts :=
  if isUpdate then mkImportCounts (ic_Created c) (ic_Updated c + 1) (ic_Failed c) (ic_Errors c)
  else mkImportCounts (ic_Created c + 1) (ic_Updated c) (ic_Failed c) (ic_Errors c).

Definition import_row (newID migID : string) (line : nat) (r : CsvRead) (c : ImportCounts) :
    M ImportCounts :=
  match r with
  | CsvEOF => mret c
  | CsvErr => mret (count_failed line "CSV parse error" c)
  | CsvRecord repoURL baseRef =>
      let repoURL := trim_space repoURL in
      let baseRef := trim_space baseRef in
      if negb (utf8_valid repoURL) || negb (utf8_valid baseRef)
      then mret (count_failed line "invalid UTF-8 encoding" c)
      else if decide (repoURL = "") then mret (count_failed line "repo_url is required" c)
      else if decide (baseRef = "") then mret (count_failed line "base_ref is required" c)
      else
        let normalizedURL := NormalizeRepoURL repoURL in
        if negb (RepoURL_Validate normalizedURL) then mret (count_failed line "invalid repo_url" c)
        else
          g ← attempt (GetMigRepoByURL migID normalizedURL);
          match g with
          | inl e =>
              if errors_Is e ErrNoRows then
                u ← attempt (UpsertMigRepo (mkCreateMigRepoParams newID migID normalizedURL baseRef));
                mret (match u with inl _ => count_failed line "upsert failed" c | inr _ => count_done false c end)
              else mret (count_failed line "lookup failed" c)
          | inr _ =>
              u ← attempt (UpsertMigRepo (mkCreateMigRepoParams newID migID normalizedURL baseRef));
              mret (match u with inl _ => count_failed line "upsert failed" c | inr _ => count_done true c end)
          end
  end.

Definition header_ok (r : CsvRead) : bool :=
  match r with
  | CsvRecord a c => bool_decide (to_lower (trim_space a) = "repo_url")
                     && bool_decide (to_lower (trim_space c) = "base_ref")
  | _ => false
  end.

(** [None] when the reader has not reached the end within [fuel] calls. *)
Fixpoint import_loop (fuel : nat) (read : nat → CsvRead) (gen : nat → string) (migID : string)
    (k : nat) (headerRead : bool) (c : ImportCounts) : M (option (Z * option ImportCounts)) :=
  match fuel with
  | O => mret None
  | S fuel' =>
      match read k with
      | CsvEOF => mret (Some (if headerRead then (200%Z, Some c) else (400%Z, None)))
      | r =>
          if headerRead then
            c' ← import_row (gen k) migID (S k) r c;
            import_loop fuel' read gen migID (S k) true c'
          else if header_ok r then import_loop fuel' read gen migID (S k) true c
          else mret (Some (400%Z, None))
      end
  end.

Definition bulkUpsertMigReposHandler (fuel : nat) (gen : nat → string) (migID contentType : string)
    (read : nat → CsvRead) : M (option (Z * option ImportCounts)) :=
  g ← getMigByIDOrFail migID;
  match g with
  | inl code => mret (Some (code, None))
  | inr mig =>
      if archived mig then mret (Some (409%Z, None))
      else if negb (has_prefix contentType "text/csv") then mret (Some (400%Z, None))
      else import_loop fuel read gen (mig_ID mig) 0 false no_counts
  end.

End Projects.
