(* ===== verification/Handlers.v ===== *)
(** * HTTP handlers that change runs and waves
    ([internal/server/handlers/runs_batch_http.go], [waves.go])

    A handler is a program over the store that also holds the token registry. Its
    result is the status code of the response, the row shown in it if there is
    one, and the registry it leaves. Path identifiers are taken after they have
    been parsed. *)

From stdpp Require Import base gmap sets list sorting strings.
From S2P Require Import Prelude GoStrings Types Json JobMeta Db Tx Queries JobChain Lifecycle.
From S2P Require Import Hydra Spec Tokens Store Plan Recovery.
From Stdlib Require Import ZArith Lia.

Record Response (A : Type) := mkResponse {
  rsp_code : Z; rsp_body : option A; rsp_registry : option Registry
}.
Arguments mkResponse {A}.
Arguments rsp_code {A}.
Arguments rsp_body {A}.
Arguments rsp_registry {A}.

(** [errors.As] for [*store.ActiveRepoRunError]. *)
Fixpoint is_active_repo_run (e : Err) : bool :=
  match e with
  | ErrActiveRepoRun _ _ _ => true
  | ErrWrap _ e' => is_active_repo_run e'
  | ErrCompletion _ _ (Some e') => is_active_repo_run e'
  | _ => false
  end.

(** The status code of a failed restart. *)
Definition restart_code (e : Err) : Z :=
  if is_active_repo_run e then 409
  else if errors_Is e ErrRunRestartActive then 409
  else if errors_Is e ErrRunResumeInvalid then 409
  else if errors_Is e ErrRunRestartWaveCancelled then 409
  else if errors_Is e ErrNoRows then 404
  else 500.

Section Handlers.
Context `{Collation}.

(** [getRunOrFail] *)
Definition getRunOrFail (runID : string) : M (Z + Run) :=
  r ← attempt (GetRun runID);
  mret (match r with
        | inr run => inr run
        | inl e => inl (if errors_Is e ErrNoRows then 404%Z else 500%Z)
        end).

Definition cancelRunHandlerV1 (registry : option Registry) (runID : string) : M (Response Run) :=
  g ← getRunOrFail runID;
  match g with
  | inl code => mret (mkResponse code None registry)
  | inr run =>
      if negb (IsTerminalRunStatus (run_Status run)) then
        c ← attempt (CancelRun runID);
        match c with
        | inl _ => mret (mkResponse 500 None registry)
        | inr _ =>
            let registry := ReleaseRunsNil [runID] registry in
            r ← attempt (GetRun runID);
            match r with
            | inl _ => mret (mkResponse 500 None registry)
            | inr run => mret (mkResponse 200 (Some run) registry)
            end
        end
      else mret (mkResponse 200 (Some run) (ReleaseRunsNil [runID] registry))
  end.

Definition cancelWaveHandler (registry : option Registry) (waveID : string) : M (Response Wave) :=
  c ← attempt (CancelWave waveID);
  match c with
  | inl _ => mret (mkResponse 500 None registry)
  | inr _ =>
      registry ← ReleaseWave waveID registry;
      w ← attempt (GetWave waveID);
      match w with
      | inl _ => mret (mkResponse 500 None registry)
      | inr wave => mret (mkResponse 200 (Some wave) registry)
      end
  end.

(** ** Restart *)

Context `{GoFmt} `{SpecLib} (Hash : string → string) (configuredHost : string).
Context (schemeAndHost : string → string * string) (EqualFold : string → string → bool).
Context (gen : nat → string).

Record RunRestartRequest := mkRunRestartRequest { rrq_FromFailed : bool; rrq_GitLabToken : option string }.

(** The hash and the token to use, or the status code of the rejection. *)
Definition validateRestartGitLabTokenRequest (run : Run) (token : option string) :
    M (Z + (string * string)) :=
  match token with
  | None => mret (inr ("", ""))
  | Some _ =>
      r ← attempt (GetRepo (run_RepoID run));
      match r with
      | inl e => mret (inl (if errors_Is e ErrNoRows then 404%Z else 400%Z))
      | inr repo =>
          mret (match validateGitLabTokenRequestForRepos Hash configuredHost schemeAndHost EqualFold
                        token [repo_Url repo] with
                | None => inl 400%Z
                | Some ht => inr ht
                end)
      end
  end.

(** The statistics of the restarted run, and the registry once its token is
    registered. *)
Definition register_restart (hash token runID : string) (registry : option Registry) :
    option (raw * option Registry) :=
  if decide (hash = "") then Some (RawEmpty, registry)
  else match RunStatsWithMarker hash with
       | None => None
       | Some stats => Some (stats, RegisterNil hash token [runID] registry)
       end.

Definition restartRunHandler (registry : option Registry) (runID : string)
    (req : RunRestartRequest) : M (Response Run) :=
  g ← getRunOrFail runID;
  match g with
  | inl code => mret (mkResponse code None registry)
  | inr existing =>
      v ← validateRestartGitLabTokenRequest existing (rrq_GitLabToken req);
      match v with
      | inl code => mret (mkResponse code None registry)
      | inr (hash, token) =>
          s ← attempt (GetSpec (run_SpecID existing));
          match s with
          | inl _ => mret (mkResponse 500 None registry)
          | inr spec =>
              match planJobsFromSpec (sp_Spec spec) with
              | None => mret (mkResponse 500 None registry)
              | Some plans =>
                  match register_restart hash token runID registry with
                  | None => mret (mkResponse 400 None registry)
                  | Some (stats, registry) =>
                      r ← attempt (RestartRun gen
                            (mkRestartRunParams (rrq_FromFailed req) (ResumeCount (run_Stats existing))
                               runID (run_Attempt existing) stats plans));
                      match r with
                      | inr run => mret (mkResponse 200 (Some run) registry)
                      | inl e =>
                          mret (mkResponse (restart_code e) None
                            (if decide (hash = "") then registry else ReleaseRunsNil [runID] registry))
                      end
                  end
              end
          end
      end
  end.

End Handlers.
