(* ===== verification/Submit.v ===== *)
(** * Submission of runs ([internal/server/handlers/migs_runs.go], [runs_submit.go],
    [runs_submit_spec.go])

    Two endpoints start runs: one launches a wave over repositories of a mig, the
    other submits a single repository with a spec of its own. Both resolve every
    input first and then create wave, runs and jobs in one transaction.

    [resolve] stands for the query of the remote repository that turns a ref into a
    commit, with the token to use; [named] for the catalog of named specs and its
    compiler. Identifiers the server draws are arguments. The caller's name, which
    [resolvedCreatedBy] reads from the token the request was authenticated with, is
    an argument too. *)

From stdpp Require Import base gmap sets list sorting strings.
From S2P Require Import Prelude GoStrings Types Json JobMeta Hydra Spec Db Tx Queries Lifecycle.
From S2P Require Import Tokens Store Plan Recovery Projects Handlers.
From Stdlib Require Import ZArith Lia.
Local Open Scope list_scope.

Section Submit.
Context `{Collation}.

(** ** Selecting repositories *)

Definition last_terminal (db : DB) (migID repoID : string) : option Run :=
  head (select (λ r, bool_decide (run_MigID r = migID) && bool_decide (run_RepoID r = repoID)
                     && IsTerminalRunStatus (run_Status r)) newest_first (db_runs db)).

Definition failed_last (db : DB) (migID repoID : string) : bool :=
  match last_terminal db migID repoID with
  | Some r => bool_decide (run_Status r = RunStatusFail)
  | None => false
  end.

Definition ListFailedRepoIDsByMig (migID : string) : M (list string) :=
  query (λ db, filter (λ repoID, failed_last db migID repoID = true)
    (merge_sort coll_le (remove_dups (run_RepoID <$> rows (db_runs db))))).

Context `{UrlLib}.

Fixpoint explicit_repos (urls : gset string) (repos : list MigRepo) : M (list MigRepo) :=
  match repos with
  | [] => mret []
  | repo :: rest =>
      url ← wrap "get repo" (repoURLForID (mr_RepoID repo));
      others ← explicit_repos urls rest;
      mret (if decide (NormalizeRepoURL url ∈ urls) then repo :: others else others)
  end.

Definition selectReposForRun (migID mode : string) (repoURLs : list string) : M (list MigRepo) :=
  allRepos ← wrap "list mig repos" (ListMigReposByMig migID);
  if decide (mode = "all") then mret allRepos
  else if decide (mode = "failed") then
    failed ← wrap "list failed repos" (ListFailedRepoIDsByMig migID);
    mret (filter (λ repo, mr_RepoID repo ∈ failed) allRepos)
  else if decide (mode = "explicit") then
    explicit_repos (list_to_set (NormalizeRepoURL <$> repoURLs)) allRepos
  else throw (ErrMsg "unknown mode").

(** ** Launching a wave of a mig *)

Record CreateMigRunRequest := mkCreateMigRunRequest {
  cmq_Mode : string; cmq_Repos : list string; cmq_CreatedBy : option string; cmq_GitLabToken : option string
}.

Context `{GoFmt} `{SpecLib} (Hash : string → string) (configuredHost : string).
Context (schemeAndHost : string → string * string) (EqualFold : string → string → bool).
Context (resolve : string → string → string → option string).
Context (newWaveID : string) (newRunID : nat → string) (newJobID : nat → string).

(** The URL of each selected repository, by repository. *)
Fixpoint selected_urls (repos : list MigRepo) (urls : gmap string string) : M (gmap string string * list string) :=
  match repos with
  | [] => mret (urls, [])
  | repo :: rest =>
      url ← repoURLForID (mr_RepoID repo);
      r ← selected_urls rest (<[mr_RepoID repo := url]> urls);
      mret (r.1, url :: r.2)
  end.

Definition run_plan (i : nat) (repo : MigRepo) (sha : string) (stats : raw) (jobs : list JobPlan) : RunPlan :=
  mkRunPlan (newRunID i) (mr_RepoID repo) (mr_BaseRef repo) sha sha stats jobs.

(** The plans of the selected repositories, unless some ref cannot be resolved. *)
Fixpoint run_plans (i : nat) (repos : list MigRepo) (urls : gmap string string) (token : string)
    (stats : raw) (jobs : list JobPlan) : option (list RunPlan) :=
  match repos with
  | [] => Some []
  | repo :: rest =>
      sha ← resolve (default "" (urls !! mr_RepoID repo)) (mr_BaseRef repo) token;
      others ← run_plans (S i) rest urls token stats jobs;
      Some (run_plan i repo sha stats jobs :: others)
  end.

(** The last step of both endpoints: the token is registered, the wave created, and
    the token released again when that fails. *)
Definition launch (registry : option Registry) (hash token : string) (wave : CreateWaveParams)
    (plans : list RunPlan) : M (Response (Wave * list (Run * list Job))) :=
  let registered := if decide (hash = "") then registry
                    else RegisterNil hash token (rp_ID <$> plans) registry in
  r ← attempt (CreateWaveWithRuns newJobID wave plans);
  match r with
  | inr wr => mret (mkResponse 201 (Some wr) registered)
  | inl e =>
      mret (mkResponse (if is_active_repo_run e then 409 else 500) None
        (if decide (hash = "") then registered else ReleaseRunsNil (rp_ID <$> plans) registered))
  end.

Definition createMigRunHandler (registry : option Registry) (migID : string) (req : CreateMigRunRequest) :
    M (Response (Wave * list (Run * list Job))) :=
  let reject code := mret (mkResponse code None registry) in
  if negb (bool_decide (cmq_Mode req ∈ ["all"; "failed"; "explicit"])) then reject 400%Z
  else if bool_decide (cmq_Mode req = "explicit" ∧ cmq_Repos req = []) then reject 400%Z
  else
    g ← getMigByIDOrFail migID;
    match g with
    | inl code => reject code
    | inr mig =>
        if archived mig then reject 409%Z
        else match mig_SpecID mig with
             | None => reject 400%Z
             | Some specID =>
                 s ← attempt (GetSpec specID);
                 match s with
                 | inl _ => reject 500%Z
                 | inr spec =>
                     match planJobsFromSpec (sp_Spec spec) with
                     | None => reject 500%Z
                     | Some jobs =>
                         sel ← attempt (selectReposForRun (mig_ID mig) (cmq_Mode req) (cmq_Repos req));
                         match sel with
                         | inl _ => reject 500%Z
                         | inr [] => reject 400%Z
                         | inr repos =>
                             u ← attempt (selected_urls repos ∅);
                             match u with
                             | inl _ => reject 500%Z
                             | inr (urls, repoURLs) =>
                                 match validateGitLabTokenRequestForRepos Hash configuredHost schemeAndHost
                                         EqualFold (cmq_GitLabToken req) repoURLs with
                                 | None => reject 400%Z
                                 | Some (hash, token) =>
                                     match RunStatsWithMarker hash with
                                     | None => reject 400%Z
                                     | Some stats =>
                                         match run_plans 0 repos urls token stats jobs with
                                         | None => reject 400%Z
                                         | Some plans =>
                                             launch registry hash token
                                               (mkCreateWaveParams newWaveID (mig_ID mig) specID (cmq_CreatedBy req)) plans
                                         end
                                     end
                                 end
                             end
                         end
                     end
                 end
             end
    end.

(** ** Submitting a single repository *)

Record runSubmissionSpec := mkRunSubmissionSpec {
  rss_canonical : raw; rss_name : string; rss_description : string;
  rss_domain : string; rss_repo : string; rss_url : string; rss_path : string;
  rss_sha : string; rss_committedAt : Z
}.

Inductive SpecResolveError :=
| InvalidSelector | SpecNotFound | SpecAmbiguous | SpecCompilation | SpecUnavailable.

Definition writeRunSubmissionSpecError (e : SpecResolveError) : Z :=
  match e with
  | InvalidSelector => 400 | SpecNotFound => 404 | SpecAmbiguous => 409
  | SpecCompilation => 400 | SpecUnavailable => 503
  end.

Record RunSubmitRequest := mkRunSubmitRequest {
  rsr_RepoURL : string; rsr_Ref : string; rsr_CommitSHA : string; rsr_Spec : raw;
  rsr_SpecSelector : string; rsr_HasOverrides : bool; rsr_GitLabToken : option string
}.

(** [len(bytes.TrimSpace(spec)) > 0 && spec != "null"] *)
Definition has_spec (r : raw) : bool :=
  match r with RawEmpty | RawJson JNull => false | _ => true end.

Definition validateRunSubmissionSpecRequest (req : RunSubmitRequest) : bool :=
  let hasSelector := negb (bool_decide (trim_space (rsr_SpecSelector req) = "")) in
  if eqb (has_spec (rsr_Spec req)) hasSelector then false
  else if has_spec (rsr_Spec req) then
    negb (rsr_HasOverrides req) &&
    match ParseMigSpecJSON (rsr_Spec req) with inl _ => false | inr _ => true end
  else true.

Context (named : string → SpecResolveError + runSubmissionSpec).

Definition resolveRunSubmissionSpec (req : RunSubmitRequest) : SpecResolveError + runSubmissionSpec :=
  if negb (validateRunSubmissionSpecRequest req) then inl SpecUnavailable
  else if has_spec (rsr_Spec req)
  then inr (mkRunSubmissionSpec (rsr_Spec req) "" "" "" "" "" "" "" 0)
  else named (trim_space (rsr_SpecSelector req)).

(** *** Git snapshots of specs *)

Definition spec_source (s : runSubmissionSpec) : json :=
  JObj [("domain", JStr (rss_domain s)); ("repo", JStr (rss_repo s)); ("url", JStr (rss_url s));
        ("path", JStr (rss_path s))].

(** [source->>'key'] *)
Definition text_field (k : string) (j : json) : option string :=
  match j with
  | JObj fs => match obj_get k fs with Some (JStr v) => Some v | _ => None end
  | _ => None
  end.

(** Equality of [jsonb] documents, numbers as written. *)
Fixpoint json_eqb (x y : json) : bool :=
  match x, y with
  | JNull, JNull => true
  | JBool a, JBool c => eqb a c
  | JInt a, JInt c => bool_decide (a = c)
  | JNumber a, JNumber c => bool_decide (a = c)
  | JStr a, JStr c => bool_decide (a = c)
  | JArr l, JArr m =>
      (fix go (l m : list json) : bool :=
         match l, m with
         | [], [] => true
         | a :: l', c :: m' => json_eqb a c && go l' m'
         | _, _ => false
         end) l m
  | JObj f, JObj g =>
      (fix go (f g : list (string * json)) : bool :=
         match f, g with
         | [], [] => true
         | (k, a) :: f', (k', c) :: g' => bool_decide (k = k') && json_eqb a c && go f' g'
         | _, _ => false
         end) f g
  | _, _ => false
  end.

Definition same_snapshot (s : runSubmissionSpec) (row : SpecRow) : bool :=
  bool_decide (sp_Name row = rss_name s)
  && bool_decide (text_field "domain" (sp_Source row) = Some (rss_domain s))
  && bool_decide (text_field "repo" (sp_Source row) = Some (rss_repo s))
  && bool_decide (default "" (text_field "path" (sp_Source row)) = rss_path s)
  && bool_decide (sp_Sha row = rss_sha s) && negb (bool_decide (sp_Sha row = ""))
  && match rss_canonical s with RawJson j => json_eqb (sp_Spec row) (jsonb_of j) | _ => false end.

Definition oldest_spec_first : relation SpecRow :=
  lex (λ x y, sp_CreatedAt x < sp_CreatedAt y)%Z (λ x y, coll_le (sp_ID x) (sp_ID y)).

#[export] Instance oldest_spec_first_dec : RelDecision oldest_spec_first.
Proof. unfold oldest_spec_first. apply lex_dec; intros x y; apply _. Defined.

Definition GetGitSpecSnapshot (s : runSubmissionSpec) : M SpecRow :=
  query_one (λ _ db, inr (head (select (same_snapshot s) oldest_spec_first (db_specs db)), db)).

Definition sha_column_ok (sha : string) : bool :=
  bool_decide (sha = "") || Nat.eqb (String.length sha) 40 && forallb is_hex_lower (to_bytes sha).

Definition CreateGitSpecSnapshot (id : string) (s : runSubmissionSpec) (createdBy : option string) : M SpecRow :=
  if negb (validateJSONB (rss_canonical s)) then throw (ErrWrap "specs.spec" ErrInvalidJSON)
  else stmt (λ env db,
    match rss_canonical s with
    | RawJson j =>
        if negb (sha_column_ok (rss_sha s)) then inl (ErrConstraint "specs_sha_check")
        else if negb (bool_decide (rss_sha s = "")) &&
                (bool_decide (rss_name s = "") || bool_decide (rss_domain s = "") || bool_decide (rss_repo s = ""))
        then inl (ErrConstraint "specs_named_required_check")
        else if decide (is_Some (db_specs db !! id)) then inl (ErrConstraint "specs_pkey")
        else let r := mkSpecRow id (rss_name s) (rss_description s) (jsonb_of (spec_source s)) (rss_sha s)
                        (Some (rss_committedAt s)) (jsonb_of j) createdBy (env_now env) in
             inr (r, set_db_specs (<[id := r]> (db_specs db)) db)
    | _ => inl (ErrConstraint "specs_spec_not_null")
    end).

Definition persistRunSubmissionSpec (newID : string) (s : runSubmissionSpec) (createdBy : option string) :
    M string :=
  if decide (rss_name s = "") then
    row ← CreateSpec (mkCreateSpecParams newID "" (rss_canonical s) createdBy);
    mret (sp_ID row)
  else
    g ← attempt (GetGitSpecSnapshot s);
    match g with
    | inr existing => mret (sp_ID existing)
    | inl e =>
        if errors_Is e ErrNoRows then
          row ← CreateGitSpecSnapshot newID s createdBy; mret (sp_ID row)
        else throw (ErrWrap "lookup Git spec snapshot" e)
    end.

(** *** The endpoint *)

Context (newMigID newSpecID newMigRepoID : string).

Definition createSingleRepoRunHandler (registry : option Registry) (caller : Z + option string)
    (req : RunSubmitRequest) : M (Response (Wave * list (Run * list Job))) :=
  let reject code := mret (mkResponse code None registry) in
  match caller with
  | inl code => reject code
  | inr createdBy =>
  if negb (RepoURL_Validate (rsr_RepoURL req)) || negb (GitRef_Validate (rsr_Ref req)) then reject 400%Z
  else
    let commitSHA := trim_space (rsr_CommitSHA req) in
    if negb (bool_decide (commitSHA = "")) && negb (IsCanonicalFullCommitSHA (rsr_CommitSHA req)) then reject 400%Z
    else if negb (validateRunSubmissionSpecRequest req) then reject 400%Z
    else
      let rawRepoURL := trim_space (rsr_RepoURL req) in
      let normalizedRepoURL := NormalizeRepoURL rawRepoURL in
      match validateGitLabTokenRequestForRepos Hash configuredHost schemeAndHost EqualFold
              (rsr_GitLabToken req) [rawRepoURL] with
      | None => reject 400%Z
      | Some (hash, token) =>
          match (if decide (commitSHA = "") then resolve rawRepoURL (rsr_Ref req) token else Some commitSHA) with
          | None => reject 400%Z
          | Some sha =>
              match resolveRunSubmissionSpec req with
              | inl e => reject (writeRunSubmissionSpecError e)
              | inr sub =>
                  match rss_canonical sub with
                  | RawJson j =>
                      match planJobsFromSpec j with
                      | None => reject 400%Z
                      | Some jobs =>
                          p ← attempt (persistRunSubmissionSpec newSpecID sub createdBy);
                          match p with
                          | inl _ => reject 500%Z
                          | inr specID =>
                              m ← attempt (CreateMig (mkCreateMigParams newMigID newMigID (Some specID) createdBy));
                              match m with
                              | inl _ => reject 500%Z
                              | inr _ =>
                                  r ← attempt (CreateMigRepo (mkCreateMigRepoParams newMigRepoID newMigID
                                        normalizedRepoURL (rsr_Ref req)));
                                  match r with
                                  | inl _ => reject 500%Z
                                  | inr migRepo =>
                                      match RunStatsWithMarker hash with
                                      | None => reject 400%Z
                                      | Some stats =>
                                          launch registry hash token
                                            (mkCreateWaveParams (newRunID 0) newMigID specID createdBy)
                                            [run_plan 0 migRepo sha stats jobs]
                                      end
                                  end
                              end
                          end
                      end
                  | _ => reject 400%Z
                  end
              end
          end
      end
  end.

End Submit.
