(* ===== verification/Completion.v ===== *)
(** * Job completion ([internal/server/handlers/jobs_complete*.go])

    The handler a node calls when a job ends: request validation, the completion
    transaction (row update, cancellation of the rest of the chain or promotion of
    the successor, run status), and the wave's reconciliation after the commit.
    The post-completion steps log their errors and go on; inside the transaction
    the failed statement has aborted it, and the commit reports that. *)

From S2P Require Import Prelude GoStrings Types Json JobMeta Db Tx Queries JobChain Lifecycle.
From S2P Require Import Tokens Store Recovery.
From stdpp Require Import base gmap sets list sorting strings.
From Stdlib Require Import ZArith Lia Ascii.

(** ** Payload *)

Record RunStatsJobResources := mkJobResources {
  res_CPUConsumedNs : Z; res_DiskConsumedBytes : Z; res_MemConsumedBytes : Z
}.

(** [jsp_JobMeta] is [None] when the field is absent. *)
Record JobStatsPayload := mkJobStatsPayload {
  jsp_ResumeCount : Z; jsp_JobMeta : option json; jsp_Metadata : list (string * string);
  jsp_DurationMs : Z; jsp_Error : string; jsp_JobResources : option RunStatsJobResources
}.

Definition zero_payload := mkJobStatsPayload 0 None [] 0 "" None.

Definition dec_JobResources : Decoder RunStatsJobResources := dec_struct [
  ("cpu_consumed_ns", dec_field res_CPUConsumedNs (λ v a, mkJobResources v (res_DiskConsumedBytes a) (res_MemConsumedBytes a)) dec_int);
  ("disk_consumed_bytes", dec_field res_DiskConsumedBytes (λ v a, mkJobResources (res_CPUConsumedNs a) v (res_MemConsumedBytes a)) dec_int);
  ("mem_consumed_bytes", dec_field res_MemConsumedBytes (λ v a, mkJobResources (res_CPUConsumedNs a) (res_DiskConsumedBytes a) v) dec_int)
].

Definition dec_JobStatsPayload : Decoder JobStatsPayload := dec_struct [
  ("resume_count", dec_field jsp_ResumeCount (λ v a, mkJobStatsPayload v (jsp_JobMeta a) (jsp_Metadata a) (jsp_DurationMs a) (jsp_Error a) (jsp_JobResources a)) dec_int);
  ("job_meta", λ v a, Some (mkJobStatsPayload (jsp_ResumeCount a) (Some v) (jsp_Metadata a) (jsp_DurationMs a) (jsp_Error a) (jsp_JobResources a)));
  ("metadata", dec_field jsp_Metadata (λ v a, mkJobStatsPayload (jsp_ResumeCount a) (jsp_JobMeta a) v (jsp_DurationMs a) (jsp_Error a) (jsp_JobResources a)) dec_string_map);
  ("duration_ms", dec_field jsp_DurationMs (λ v a, mkJobStatsPayload (jsp_ResumeCount a) (jsp_JobMeta a) (jsp_Metadata a) v (jsp_Error a) (jsp_JobResources a)) dec_int);
  ("error", dec_field jsp_Error (λ v a, mkJobStatsPayload (jsp_ResumeCount a) (jsp_JobMeta a) (jsp_Metadata a) (jsp_DurationMs a) v (jsp_JobResources a)) dec_string);
  ("job_resources", dec_field jsp_JobResources (λ v a, mkJobStatsPayload (jsp_ResumeCount a) (jsp_JobMeta a) (jsp_Metadata a) (jsp_DurationMs a) (jsp_Error a) v) (dec_ptr (mkJobResources 0 0 0) dec_JobResources))
].

Definition ErrorMessage (p : JobStatsPayload) : string := trim_space (jsp_Error p).

(** Absent, [null] and the empty object are all "no job meta". *)
Definition HasJobMeta (p : JobStatsPayload) : bool :=
  match jsp_JobMeta p with None | Some JNull | Some (JObj []) => false | Some _ => true end.

Definition HasJobResources (p : JobStatsPayload) : bool :=
  match jsp_JobResources p with None => false | Some _ => true end.

Definition ValidateJobResources (p : JobStatsPayload) : bool :=
  match jsp_JobResources p with
  | None => true
  | Some r => bool_decide (0 ≤ res_CPUConsumedNs r)%Z && bool_decide (0 ≤ res_DiskConsumedBytes r)%Z
              && bool_decide (0 ≤ res_MemConsumedBytes r)%Z
  end.

Definition ValidateJobMeta `{GoFmt} (p : JobStatsPayload) : bool :=
  match jsp_JobMeta p with
  | None | Some JNull | Some (JObj []) => true
  | Some j => match UnmarshalJobMeta j with None => false | Some _ => true end
  end.

(** ** Request validation *)

Record completeJobRequest := mkCompleteJobRequest {
  req_Status : string; req_ExitCode : option Z; req_Stats : raw; req_RepoSHAOut : string
}.

Record completionInput := mkCompletionInput {
  ci_JobID : string; ci_NodeID : string; ci_Status : JobStatus; ci_ExitCode : option Z;
  ci_StatsPayload : JobStatsPayload; ci_RepoSHAOut : string
}.

Definition completeBadRequest (msg : string) : Err := ErrCompletion 400 msg None.
Definition completeForbidden (msg : string) : Err := ErrCompletion 403 msg None.
Definition completeConflict (msg : string) : Err := ErrCompletion 409 msg None.
Definition completeNotFound (msg : string) : Err := ErrCompletion 404 msg None.
Definition completeInternal (msg : string) (e : Err) : Err := ErrCompletion 500 msg (Some e).

Definition terminal_request_status (s : JobStatus) : bool :=
  match s with
  | JobStatusSuccess | JobStatusFail | JobStatusError | JobStatusCancelled => true
  | _ => false
  end.

(** A node id is at most 64 URL-safe characters. *)
Definition parseNodeUUIDHeader (header : string) : option string :=
  if decide (trim_space header = "") then None
  else match unmarshalIDTextValidated (validateURLSafeID 64) (trim_space header) with
       | inr id => Some id
       | inl _ => None
       end.

Definition decode_stats `{GoFmt} (stats : raw) : Err + JobStatsPayload :=
  match stats with
  | RawEmpty => inr zero_payload
  | RawInvalid => inl (completeBadRequest "stats field must be valid JSON")
  | RawJson (JObj kvs) =>
      match dec_JobStatsPayload (JObj kvs) zero_payload with
      | None => inl (completeBadRequest "invalid stats payload")
      | Some p =>
          if negb (ValidateJobMeta p) then inl (completeBadRequest "invalid job_meta")
          else if negb (ValidateJobResources p) then inl (completeBadRequest "invalid job_resources")
          else inr p
      end
  | RawJson _ => inl (completeBadRequest "stats must be a JSON object")
  end.

Definition validateCompletionRequest `{GoFmt} (jobID header : string) (req : completeJobRequest) :
    Err + completionInput :=
  if decide (trim_space (req_Status req) = "") then inl (completeBadRequest "status is required")
  else match ParseJobStatus (trim_space (req_Status req)) with
       | None => inl (completeBadRequest "invalid status")
       | Some status =>
           if negb (terminal_request_status status)
           then inl (completeBadRequest "status must be Success, Fail, Error, or Cancelled")
           else match decode_stats (req_Stats req) with
                | inl e => inl e
                | inr p =>
                    if negb (bool_decide (trim_space (req_RepoSHAOut req) = ""))
                       && negb (IsCanonicalFullCommitSHA (req_RepoSHAOut req))
                    then inl (completeBadRequest "repo_sha_out must match ^[0-9a-f]{40}$")
                    else match parseNodeUUIDHeader header with
                         | None => inl (completeBadRequest "invalid PLOY_NODE_UUID header")
                         | Some nodeID =>
                             inr (mkCompletionInput jobID nodeID status (req_ExitCode req) p
                                    (trim_space (req_RepoSHAOut req)))
                         end
                end
       end.

(** ** Messages for [runs.last_error] *)

Definition newline : string := String (ascii_of_nat 10) "".

Definition formatExit137Error (jobLabel : string) (exitCode : option Z) : option string :=
  match exitCode with
  | Some 137%Z =>
      let name := trim_space jobLabel in
      Some (if decide (name = "") then "job failed with exit code 137 (killed; likely out of memory)"
            else ("job " +:+ name +:+ " failed with exit code 137 (killed; likely out of memory)"))
  | _ => None
  end.

Definition appendStackGateExpectation `{GoFmt} (label : string) (e : option StackExpectation) : string :=
  match e with
  | None => ""
  | Some e =>
      ("  " +:+ label +:+ ": {language: " +:+ se_Language e
       +:+ (if decide (se_Tool e = "") then "" else (", tool: " +:+ se_Tool e))
       +:+ (if decide (se_Release e = "") then "" else (", release: " +:+ fmt_q (se_Release e)))
       +:+ "}" +:+ newline)
  end.

(** [strings.Split(s, "\n")] *)
Fixpoint split_lines (l : list ascii) (cur : list ascii) : list string :=
  match l with
  | [] => [of_bytes (reverse cur)]
  | c :: l' => if decide (c = ascii_of_nat 10) then of_bytes (reverse cur) :: split_lines l' []
               else split_lines l' (c :: cur)
  end.

Definition evidence_text (findings : list BuildGateLogFinding) : string :=
  match filter (λ f, lf_Evidence f ≠ "") findings with
  | [] => ""
  | f :: _ =>
      foldl (λ acc line, let line := trim_space line in
               if decide (line = "") then acc else (acc +:+ "    - " +:+ line +:+ newline))
        ("  Evidence:" +:+ newline) (split_lines (to_bytes (lf_Evidence f)) [])
  end.

Definition formatStackGateError `{GoFmt} (jobType : JobType) (meta : json) : option string :=
  match UnmarshalJobMeta meta with
  | None => None
  | Some m =>
      if negb (bool_decide (jmt_Kind m = "gate")) then None
      else match jmt_GateMetadata m with
           | None => None
           | Some g =>
               match bg_StackGate g with
               | None => None
               | Some sg =>
                   if bool_decide (sg_Result sg = "pass") then None
                   else
                     let phase := match jobType with
                                  | JobTypePreGate => "inbound"
                                  | JobTypePostGate => "outbound"
                                  | JobTypeMig => "unknown"
                                  end in
                     Some (trim_suffix
                       ("Stack Gate [" +:+ phase +:+ "]: " +:+ sg_Result sg +:+ newline
                        +:+ appendStackGateExpectation "Expected" (sg_Expected sg)
                        +:+ appendStackGateExpectation "Detected" (sg_Detected sg)
                        +:+ evidence_text (bg_LogFindings g)) newline)
               end
           end
  end.

(** ** The service *)

Section Completion.
Context `{Collation} `{GoFmt}.

(** The loop of [cancelRemainingJobsAfterFailure]: it follows the successor
    pointers of the listed jobs and stops at an id seen before. *)
Fixpoint cancel_walk (fuel : nat) (now : Z) (byID : gmap string Job) (seen : gset string)
    (nextID : option string) : M unit :=
  match fuel, nextID with
  | O, _ | _, None => mret tt
  | S fuel', Some id =>
      if decide (id ∈ seen) then mret tt
      else match byID !! id with
           | None => mret tt
           | Some job =>
               when (negb (terminal_job (job_Status job)))
                 (wrap "cancel job"
                    (UpdateJobStatus (job_ID job) JobStatusCancelled (job_StartedAt job) (Some now)
                       (match job_StartedAt job with
                        | None => 0
                        | Some st => Z.max 0 (Z.quot (now - st) 1000)
                        end)%Z)) ;;
               cancel_walk fuel' now byID ({[id]} ∪ seen) (job_NextID job)
           end
  end.

Definition cancelRemainingJobsAfterFailure (failedJob : Job) : M unit :=
  now ← ask env_clock;
  jobs ← wrap "list jobs for repo attempt"
    (ListJobsByRunAttempt (job_RunID failedJob) (job_Attempt failedJob));
  let byID := itemByID job_ID jobs in
  let nextID := match byID !! job_ID failedJob with
                | Some refreshed => job_NextID refreshed
                | None => job_NextID failedJob
                end in
  cancel_walk (S (size byID)) now byID ∅ nextID.

Definition lastErrorFromTerminalJob (input : completionInput) (job : Job) : option string :=
  if negb (bool_decide (ErrorMessage (ci_StatsPayload input) = ""))
  then Some (ErrorMessage (ci_StatsPayload input))
  else if decide (ci_Status input = JobStatusFail)
  then formatExit137Error (JobType_String (job_JobType job)) (ci_ExitCode input)
  else None.

Definition has_next (job : Job) : bool := match job_NextID job with None => false | Some _ => true end.

(** An error that is logged and dropped. *)
Definition logged {A} (m : M A) : M unit := attempt m ;; mret tt.

Definition record_error (runID : string) (msg : option string) : M unit :=
  match msg with None => mret tt | Some e => logged (UpdateRunError runID (Some e)) end.

Definition onFail (input : completionInput) (job : Job) (persistedMeta : json) : M unit :=
  if negb (bool_decide (ci_Status input = JobStatusFail) || bool_decide (ci_Status input = JobStatusError))
  then mret tt
  else
    record_error (job_RunID job) (lastErrorFromTerminalJob input job) ;;
    when (bool_decide (ci_Status input = JobStatusFail) && IsGateJobType (job_JobType job))
      (record_error (job_RunID job) (formatStackGateError (job_JobType job) persistedMeta)) ;;
    match EvaluateCompletionDecision (ci_Status input) (has_next job) with
    | CompletionChainCancelRemainder => logged (cancelRemainingJobsAfterFailure job)
    | _ => mret tt
    end.

Definition onCancelled (input : completionInput) (job : Job) : M unit :=
  if negb (bool_decide (ci_Status input = JobStatusCancelled)) then mret tt
  else match EvaluateCompletionDecision (ci_Status input) (has_next job) with
       | CompletionChainNoAction => mret tt
       | _ => logged (cancelRemainingJobsAfterFailure job)
       end.

Definition onSuccess (input : completionInput) (job : Job) : M unit :=
  if negb (bool_decide (ci_Status input = JobStatusSuccess)) then mret tt
  else match EvaluateCompletionDecision (ci_Status input) (has_next job), job_NextID job with
       | CompletionChainAdvanceNext, Some next => logged (PromoteJobByIDIfUnblocked next)
       | _, _ => mret tt
       end.

(** [loadRunForPostCompletion]: one retry. *)
Definition loadRunForPostCompletion (job : Job) : M (option Run) :=
  r ← attempt (GetRun (job_RunID job));
  match r with
  | inr run => mret (Some run)
  | inl _ =>
      r2 ← attempt (GetRun (job_RunID job));
      mret (match r2 with inr run => Some run | inl _ => None end)
  end.

Definition reconcileRepoRun (job : Job) : M (option Run) :=
  u ← attempt (MaybeUpdateRunStatus (job_RunID job) (job_Attempt job));
  match u with
  | inr true => loadRunForPostCompletion job
  | _ => mret None
  end.

(** [err != nil] with a status of its own. *)
Definition or_internal {A} (msg : string) (m : M A) : M A :=
  r ← attempt m;
  match r with inl e => throw (completeInternal msg e) | inr a => mret a end.

(** The SHA a successful completion records: the reported one, or the input of a
    job that does not change the tree. *)
Definition effective_sha (input : completionInput) (job : Job) : string :=
  if decide (ci_Status input = JobStatusSuccess) then
    let sha := normalizeRepoSHA (ci_RepoSHAOut input) in
    if decide (sha = "" ∧ isNonChangingJob (job_JobType job) = true)
    then normalizeRepoSHA (job_RepoShaIn job) else sha
  else ci_RepoSHAOut input.

(** The end of the job on its log stream: published at once, before the
    transaction commits. *)
Definition publish_job_end (events : bool) (input : completionInput) : M unit :=
  when events
    (emit (HubResumeJob (ci_JobID input) (jsp_ResumeCount (ci_StatsPayload input))) ;;
     emit (HubJobRetention (ci_JobID input)) ;;
     emit (HubJobDone (ci_JobID input) (JobStatus_String (ci_Status input)))).

Definition complete (events : bool) (input : completionInput) (job : Job) : M (option Run) :=
  if negb (bool_decide (job_NodeID job = Some (ci_NodeID input)))
  then throw (completeForbidden "job not assigned to this node")
  else if negb (bool_decide (job_Status job = JobStatusRunning))
  then throw (completeConflict "job status is not Running")
  else
    let sha := effective_sha input job in
    let advancing := bool_decide (ci_Status input = JobStatusSuccess) && has_next job in
    if advancing && negb (IsCanonicalFullCommitSHA (job_RepoShaIn job))
    then throw (completeConflict "job repo_sha_in must match ^[0-9a-f]{40}$ for chain progression")
    else if advancing && bool_decide (sha = "")
    then throw (completeBadRequest "repo_sha_out is required for successful jobs with next_id")
    else
      match jsp_JobResources (ci_StatsPayload input) with
      | None => mret tt
      | Some res => or_internal "failed to persist job metrics"
          (UpsertJobMetric (mkJobMetric (ci_NodeID input) (job_ID job) (res_CPUConsumedNs res)
             (res_DiskConsumedBytes res) (res_MemConsumedBytes res)))
      end ;;
      persistedMeta ← (match HasJobMeta (ci_StatsPayload input), jsp_JobMeta (ci_StatsPayload input) with
        | true, Some meta =>
            if negb (ValidateJobMeta (ci_StatsPayload input))
            then throw (completeInternal "invalid job metadata" (ErrMsg "invalid job_meta"))
            else or_internal "failed to complete job"
                   (UpdateJobCompletionWithMeta (job_ID job) (ci_Status input) (ci_ExitCode input)
                      sha (RawJson meta)) ;;
                 mret meta
        | _, _ =>
            or_internal "failed to complete job"
              (UpdateJobCompletion (job_ID job) (ci_Status input) (ci_ExitCode input) sha) ;;
            mret (job_Meta job)
        end);
      publish_job_end events input ;;
      onFail input job persistedMeta ;;
      onCancelled input job ;;
      onSuccess input job ;;
      reconcileRepoRun job.

Definition reconcileWave (events : bool) (run : Run) (reg : option Registry) : M (option Registry) :=
  c ← attempt (MaybeCompleteRunIfAllReposTerminal events run);
  match c with
  | inr true => ReleaseWave (run_WaveID run) reg
  | _ => mret reg
  end.

Definition Complete (events : bool) (reg : option Registry) (input : completionInput) :
    M (option Registry) :=
  r ← attempt (WithJobExecution (ci_JobID input) (jsp_ResumeCount (ci_StatsPayload input))
        (complete events input));
  match r with
  | inl e =>
      if errors_Is e ErrJobExecutionStale
      then throw (completeConflict "completion belongs to an earlier execution")
      else if errors_Is e ErrNoRows then throw (completeNotFound "job not found")
      else throw e
  | inr None => mret reg
  | inr (Some run) => reconcileWave events run reg
  end.

(** The status code of the response. *)
Fixpoint completion_status (e : Err) : Z :=
  match e with
  | ErrCompletion s _ _ => s
  | ErrWrap _ e' => completion_status e'
  | _ => 500
  end.

Definition completeJobHandler (events : bool) (reg : option Registry) (jobID header : string)
    (req : completeJobRequest) : M (Z * option Registry) :=
  match validateCompletionRequest jobID header req with
  | inl _ => mret (400%Z, reg)
  | inr input =>
      r ← attempt (Complete events reg input);
      mret (match r with
            | inl e => (completion_status e, reg)
            | inr reg' => (204%Z, reg')
            end)
  end.

End Completion.
