(* ===== verification/Chains.v ===== *)
(** * Job chains in the database

    The jobs of one attempt of a run form a linked list through [next_id]. This
    file relates the rows of the [jobs] table to that list, describes the statuses
    a live chain can have, and shows how updates of rows act on chains. *)

From S2P Require Import Prelude GoStrings Types Json Db Tx Queries JobChain.
From stdpp Require Import base gmap sets list sorting strings.
From Stdlib Require Import ZArith Lia.

(** ** Tables *)

Lemma elem_of_rows {A} (m : gmap string A) x : x ∈ rows m ↔ ∃ i, m !! i = Some x.
Proof.
  unfold rows. rewrite list_elem_of_fmap. split.
  - intros ([i y] & -> & Hin). apply elem_of_map_to_list in Hin. eauto.
  - intros [i Hi]. exists (i, x). split; [done|]. by apply elem_of_map_to_list.
Qed.

Lemma elem_of_select {A} (p : A → bool) (r : relation A) `{!RelDecision r} (m : gmap string A) x :
  x ∈ select p r m ↔ p x = true ∧ ∃ i, m !! i = Some x.
Proof.
  unfold select. rewrite (merge_sort_Permutation r), list_elem_of_filter, elem_of_rows. done.
Qed.

Lemma existsb_rows {A} (p : A → bool) (m : gmap string A) :
  existsb p (rows m) = true ↔ ∃ i x, m !! i = Some x ∧ p x = true.
Proof.
  rewrite existsb_exists. setoid_rewrite <-list_elem_of_In. setoid_rewrite elem_of_rows. naive_solver.
Qed.

Lemma forallb_rows {A} (p : A → bool) (m : gmap string A) :
  forallb p (rows m) = true → ∀ i x, m !! i = Some x → p x = true.
Proof.
  rewrite forallb_forall. intros Hall i x Hx. apply Hall, list_elem_of_In, elem_of_rows. eauto.
Qed.

Lemma lookup_update {A} (p : A → bool) (f : A → A) (m : gmap string A) i :
  update p f m !! i = (λ x, if p x then f x else x) <$> m !! i.
Proof. unfold update. apply lookup_fmap. Qed.

(** ** Well-keyed job tables *)

(** Every row is stored under its own, non-blank, id. *)
Definition keyed (jobs : gmap string Job) : Prop :=
  ∀ i j, jobs !! i = Some j → job_ID j = i ∧ IsZero i = false.

(** An update of rows that keeps the columns that place a job in its chain. *)
Record stable (F : Job → Job) : Prop := {
  stable_id : ∀ j, job_ID (F j) = job_ID j;
  stable_run : ∀ j, job_RunID (F j) = job_RunID j;
  stable_attempt : ∀ j, job_Attempt (F j) = job_Attempt j;
  stable_next : ∀ j, job_NextID (F j) = job_NextID j
}.

Lemma stable_id_fn : stable (λ j, j).
Proof. done. Qed.

Lemma stable_compose F G : stable F → stable G → stable (λ j, F (G j)).
Proof. intros [] []. split; intros; etrans; eauto. Qed.

Lemma stable_if (p : Job → bool) F : stable F → stable (λ j, if p j then F j else j).
Proof. intros []. split; intros j; destruct (p j); auto. Qed.

#[export] Hint Resolve stable_id_fn stable_compose stable_if : ploy.

(** One row, addressed by its key. *)
Definition at_id (id : string) (F : Job → Job) (j : Job) : Job :=
  if decide (job_ID j = id) then F j else j.

Lemma stable_at id F : stable F → stable (at_id id F).
Proof. intros []. unfold at_id. split; intros j; destruct (decide _); auto. Qed.

#[export] Hint Resolve stable_at : ploy.

Lemma keyed_fmap F jobs : stable F → keyed jobs → keyed (F <$> jobs).
Proof.
  intros HF Hk i j. rewrite lookup_fmap, fmap_Some. intros (x & Hx & ->).
  rewrite (stable_id _ HF). eauto.
Qed.

Lemma insert_at_id F jobs id j :
  keyed jobs → jobs !! id = Some j → <[id := F j]> jobs = at_id id F <$> jobs.
Proof.
  intros Hk Hj. apply map_eq. intros i. rewrite lookup_fmap. unfold at_id.
  destruct (decide (i = id)) as [->|Hne].
  - rewrite lookup_insert_eq, Hj. simpl. destruct (Hk _ _ Hj) as [-> _]. by rewrite decide_True.
  - rewrite lookup_insert_ne by done. destruct (jobs !! i) as [x|] eqn:E; simpl; [|done].
    destruct (Hk _ _ E) as [-> _]. by rewrite decide_False.
Qed.

Lemma alter_at_id F jobs id : keyed jobs → alter F id jobs = at_id id F <$> jobs.
Proof.
  intros Hk. apply map_eq. intros i. rewrite lookup_fmap. unfold at_id.
  destruct (decide (i = id)) as [->|Hne].
  - rewrite lookup_alter_eq. destruct (jobs !! id) as [x|] eqn:E; simpl; [|done].
    destruct (Hk _ _ E) as [-> _]. by rewrite decide_True.
  - rewrite lookup_alter_ne by done. destruct (jobs !! i) as [x|] eqn:E; simpl; [|done].
    destruct (Hk _ _ E) as [-> _]. by rewrite decide_False.
Qed.

(** ** Chains *)

Record chain_of (jobs : gmap string Job) (rid : string) (a : Z) (c : list Job) : Prop := {
  ch_linked : linked job_ID job_NextID c;
  ch_nodup : NoDup (job_ID <$> c);
  ch_elem : ∀ j, j ∈ c ↔ jobs !! job_ID j = Some j ∧ job_RunID j = rid ∧ job_Attempt j = a
}.

Lemma chain_of_fmap F jobs rid a c :
  stable F → keyed jobs → chain_of jobs rid a c → chain_of (F <$> jobs) rid a (F <$> c).
Proof.
  intros HF Hk [Hl Hn He]. split.
  - intros k x. rewrite !list_lookup_fmap, fmap_Some. intros (y & Hy & ->).
    rewrite (stable_next _ HF), (Hl _ _ Hy). destruct (c !! S k); simpl; [|done].
    by rewrite (stable_id _ HF).
  - replace (job_ID <$> (F <$> c)) with (job_ID <$> c); [done|].
    rewrite <-list_fmap_compose. apply list_fmap_ext. intros ? x _. simpl.
    by rewrite (stable_id _ HF).
  - intros j. rewrite list_elem_of_fmap. split.
    + intros (x & -> & Hx). apply He in Hx as (Hx & <- & <-).
      rewrite lookup_fmap, (stable_id _ HF), Hx, (stable_run _ HF), (stable_attempt _ HF). done.
    + rewrite lookup_fmap, fmap_Some. intros ((x & Hx & ->) & Hr & Ha).
      rewrite (stable_run _ HF) in Hr. rewrite (stable_attempt _ HF) in Ha.
      rewrite (stable_id _ HF) in Hx.
      exists x. split; [done|]. apply He. done.
Qed.

Section Chain.
Context (jobs : gmap string Job) (rid : string) (a : Z) (c : list Job).
Context (Hk : keyed jobs) (Hc : chain_of jobs rid a c).

Lemma chain_nonzero : Forall (λ j, IsZero (job_ID j) = false) c.
Proof using Hk Hc.
  apply Forall_forall. intros j Hj. apply (ch_elem _ _ _ _ Hc) in Hj as (Hj & _).
  by destruct (Hk _ _ Hj).
Qed.

Lemma chain_at k j : c !! k = Some j → jobs !! job_ID j = Some j ∧ job_RunID j = rid ∧ job_Attempt j = a.
Proof using Hc. intros Hj. apply (ch_elem _ _ _ _ Hc). by eapply list_elem_of_lookup_2. Qed.

Lemma chain_next k x y : c !! k = Some x → c !! S k = Some y → job_NextID x = Some (job_ID y).
Proof using Hc. intros Hx Hy. rewrite (ch_linked _ _ _ _ Hc _ _ Hx), Hy. done. Qed.

Lemma chain_last k x : c !! k = Some x → c !! S k = None → job_NextID x = None.
Proof using Hc. intros Hx Hy. rewrite (ch_linked _ _ _ _ Hc _ _ Hx), Hy. done. Qed.

Lemma chain_id_inj k1 k2 x y :
  c !! k1 = Some x → c !! k2 = Some y → job_ID x = job_ID y → k1 = k2.
Proof using Hc.
  intros H1 H2 He. eapply NoDup_lookup; [apply (ch_nodup _ _ _ _ Hc)|..].
  - by rewrite list_lookup_fmap, H1.
  - by rewrite list_lookup_fmap, H2; simpl; rewrite He.
Qed.

(** The rows [ListJobsByRunAttempt] returns are the chain, in some order. *)
Lemma attempt_jobs_perm `{Collation} db : db_jobs db = jobs → attempt_jobs db rid a ≡ₚ c.
Proof using Hk Hc.
  intros Hdb. apply NoDup_Permutation.
  - unfold attempt_jobs, select. rewrite (merge_sort_Permutation by_id). apply NoDup_filter.
    unfold rows. apply NoDup_fmap_2_strong; [|apply NoDup_map_to_list].
    intros [i x] [j y] Hi Hj. simpl. intros ->.
    apply elem_of_map_to_list in Hi. apply elem_of_map_to_list in Hj. rewrite Hdb in *.
    destruct (Hk _ _ Hi) as [<- _], (Hk _ _ Hj) as [<- _]. done.
  - eapply NoDup_fmap_1. apply (ch_nodup _ _ _ _ Hc).
  - intros j. unfold attempt_jobs. rewrite elem_of_select, (ch_elem _ _ _ _ Hc), Hdb.
    unfold of_attempt. rewrite andb_true_iff, !bool_decide_eq_true. split.
    + intros ([Hr Ha] & i & Hi). destruct (Hk _ _ Hi) as [-> _]. done.
    + intros (Hj & Hr & Ha). eauto.
Qed.

Lemma attempt_jobs_Order `{Collation} db :
  db_jobs db = jobs → Order job_ID job_NextID (attempt_jobs db rid a) = c.
Proof using Hk Hc.
  intros Hdb. apply Order_chain;
    [by apply attempt_jobs_perm|apply Hc|apply Hc|apply chain_nonzero].
Qed.

End Chain.

Lemma chain_unique jobs rid a c1 c2 :
  keyed jobs → chain_of jobs rid a c1 → chain_of jobs rid a c2 → c1 = c2.
Proof.
  intros Hk H1 H2.
  assert (Hp : c1 ≡ₚ c2).
  { apply NoDup_Permutation;
      [eapply NoDup_fmap_1; apply H1|eapply NoDup_fmap_1; apply H2|].
    intros j. by rewrite (ch_elem _ _ _ _ H1), (ch_elem _ _ _ _ H2). }
  rewrite <-(Order_chain job_ID job_NextID c1 c1); [|done|apply H1|apply H1|by eapply chain_nonzero].
  apply Order_chain; [done|apply H2|apply H2|by eapply chain_nonzero].
Qed.

(** Rows of other attempts do not matter. *)
Lemma chain_of_other jobs jobs' rid a c :
  chain_of jobs rid a c →
  (∀ i j, job_RunID j = rid → job_Attempt j = a → jobs' !! i = Some j ↔ jobs !! i = Some j) →
  chain_of jobs' rid a c.
Proof.
  intros [Hl Hn He] Hsame. split; [done|done|]. intros j. rewrite He. split.
  - intros (Hj & Hr & Ha). split; [|done]. by apply Hsame.
  - intros (Hj & Hr & Ha). split; [|done]. by apply Hsame.
Qed.

(** ** Statuses of a live chain *)

(** Done jobs, then one job that is queued or running, then jobs that wait. *)
Inductive live_shape : list JobStatus → Prop :=
| live_here s l :
    s = JobStatusQueued ∨ s = JobStatusRunning → Forall (λ s, s = JobStatusCreated) l →
    live_shape (s :: l)
| live_done l : live_shape l → live_shape (JobStatusSuccess :: l).

(** The active job of a live chain: its position and what surrounds it. *)
Lemma live_split (c : list Job) :
  live_shape (job_Status <$> c) ↔
  ∃ pre j post, c = pre ++ j :: post ∧
    Forall (λ x, job_Status x = JobStatusSuccess) pre ∧
    (job_Status j = JobStatusQueued ∨ job_Status j = JobStatusRunning) ∧
    Forall (λ x, job_Status x = JobStatusCreated) post.
Proof.
  split.
  - remember (job_Status <$> c) as l eqn:Hl. intros Hs. revert c Hl.
    induction Hs as [s l Hs Hpost|l Hs IH]; intros [|j c] Hl; simplify_eq/=.
    + exists [], j, c. split_and!; [done|done|done|]. by apply Forall_fmap in Hpost.
    + destruct (IH c eq_refl) as (pre & x & post & -> & Hpre & Hx & Hpost).
      exists (j :: pre), x, post. split_and!; auto.
  - intros (pre & j & post & -> & Hpre & Hj & Hpost).
    induction Hpre as [|x pre Hx Hpre IH]; simpl.
    + constructor; [done|]. by apply Forall_fmap.
    + rewrite Hx. by constructor.
Qed.

(** Exactly one job of a live chain is queued or running, so a status tells the
    part of the chain a job is in. *)
Lemma live_lookup c k j :
  live_shape (job_Status <$> c) → c !! k = Some j → active_job (job_Status j) = true →
  job_Status j ≠ JobStatusCreated →
  ∃ pre post, c = pre ++ j :: post ∧ length pre = k ∧
    Forall (λ x, job_Status x = JobStatusSuccess) pre ∧
    Forall (λ x, job_Status x = JobStatusCreated) post.
Proof.
  intros (pre & x & post & -> & Hpre & Hx & Hpost)%live_split Hk Ha Hnc.
  rewrite lookup_app in Hk. destruct (pre !! k) as [y|] eqn:Ey.
  { simplify_eq. eapply Forall_lookup in Hpre; [|exact Ey]. simpl in Hpre. by rewrite Hpre in Ha. }
  destruct (k - length pre) as [|m] eqn:Em; simpl in Hk.
  - simplify_eq. exists pre, post. split_and!; try done. apply lookup_ge_None in Ey. lia.
  - eapply Forall_lookup in Hpost; [|exact Hk]. done.
Qed.

(** ** Node affinity and commit hand-over *)

(** All the jobs of an attempt that have a node have the same one. *)
Definition affine (c : list Job) : Prop :=
  ∀ j1 j2 n1 n2, j1 ∈ c → j2 ∈ c → job_NodeID j1 = Some n1 → job_NodeID j2 = Some n2 → n1 = n2.

(** A job starts from the commit its successful predecessor produced. *)
Definition sha_chain (c : list Job) : Prop :=
  ∀ k x y, c !! k = Some x → c !! S k = Some y → job_Status x = JobStatusSuccess →
    job_RepoShaIn y = job_RepoShaOut x ∧ IsCanonicalFullCommitSHA (job_RepoShaOut x) = true.

Lemma affine_fmap F c :
  (∀ j, j ∈ c → job_NodeID (F j) = job_NodeID j) → affine c → affine (F <$> c).
Proof.
  intros HF Hc j1 j2 n1 n2. rewrite !list_elem_of_fmap.
  intros (x & -> & Hx) (y & -> & Hy). rewrite !HF by done. eauto.
Qed.

Lemma sha_chain_fmap F c :
  (∀ j, j ∈ c → job_RepoShaIn (F j) = job_RepoShaIn j) →
  (∀ j, j ∈ c → job_Status (F j) = JobStatusSuccess →
     job_Status j = JobStatusSuccess ∧ job_RepoShaOut (F j) = job_RepoShaOut j) →
  sha_chain c → sha_chain (F <$> c).
Proof.
  intros HI HO Hc k x y. rewrite !list_lookup_fmap, !fmap_Some.
  intros (x' & Hx & ->) (y' & Hy & ->) Hs.
  destruct (HO x') as [Hs' ->]; [by eapply list_elem_of_lookup_2|done|].
  rewrite HI by (by eapply list_elem_of_lookup_2). eauto.
Qed.

(** ** A chain appears: the rows of a new attempt *)

Lemma chain_of_new jobs rid a (c : list Job) :
  (∀ i j, jobs !! i = Some j → job_RunID j = rid → job_Attempt j ≠ a) →
  (∀ j, j ∈ c → jobs !! job_ID j = None ∧ job_RunID j = rid ∧ job_Attempt j = a) →
  linked job_ID job_NextID c → NoDup (job_ID <$> c) →
  chain_of (list_to_map ((λ j, (job_ID j, j)) <$> c) ∪ jobs) rid a c.
Proof.
  intros Hno Hc Hl Hn. split; [done|done|]. intros j.
  assert (Hl1 : (((λ j, (job_ID j, j)) <$> c).*1) = job_ID <$> c)
    by (rewrite <-list_fmap_compose; done).
  rewrite lookup_union_Some_raw. split.
  - intros Hj. destruct (Hc _ Hj) as (? & ? & ?). split; [|done]. left.
    apply elem_of_list_to_map_1; [by rewrite Hl1|]. apply list_elem_of_fmap. eauto.
  - intros ([Hj|[_ Hj]] & Hr & Ha).
    + apply elem_of_list_to_map_2, list_elem_of_fmap in Hj as (x & [= Hx ->] & Hin). done.
    + destruct (Hno _ _ Hj Hr Ha).
Qed.
