(* ===== verification/Claim.v ===== *)
(** * The claim service ([internal/server/handlers/nodes_claim_service.go])

    A node asks for work: the node row is checked, a job is claimed, the run, the
    repository and the spec are read, and the response payload is built. The
    statements run outside a transaction. The payload builder
    ([buildJobClaimPayload]) reads the database and the configuration; the
    service's behaviour is stated for any such reader. *)

From stdpp Require Import base gmap sets list sorting strings.
From S2P Require Import Prelude GoStrings Types Json JobMeta Hydra Db Tx Queries JobChain.
From S2P Require Import Lifecycle Tokens Store Config ClaimSpec Recovery Completion Chains.
From Stdlib Require Import ZArith Lia.
Local Open Scope list_scope.

(** Error types of the service, by the HTTP status they map to. *)
Inductive ClaimResult (P : Type) :=
| ClaimPayload (p : P)
| claimNotFound
| claimNoWork
| claimInternalError (msg : string).
Arguments ClaimPayload {P} p.
Arguments claimNotFound {P}.
Arguments claimNoWork {P}.
Arguments claimInternalError {P} msg.

(** A failed payload build; [pe_terminal] marks a [claimTerminalError]. *)
Record PayloadError := mkPayloadError { pe_terminal : bool; pe_message : string }.

Section Claim.
Context `{Collation} `{GoFmt}.
Context {P : Type} (buildJobClaimPayload : Run → json → string → Job → M (PayloadError + P)).


Definition terminal_input (job : Job) (nodeID msg : string) : completionInput :=
  mkCompletionInput (job_ID job) nodeID JobStatusError None
    (mkJobStatsPayload 0 None [] 0 msg None) "".

(** What follows a failed payload build. *)
Definition abandon_claim (job : Job) (nodeID : string) (e : PayloadError) : M (ClaimResult P) :=
  completed ← (if pe_terminal e then
                 r ← attempt (Complete false None (terminal_input job nodeID (pe_message e)));
                 mret (match r with inr _ => true | inl _ => false end)
               else mret false);
  if completed : bool then mret claimNoWork
  else
    attempt (UnclaimJob (job_ID job) nodeID) ;;
    mret (claimInternalError "failed to build claim response").

Definition Claim (nodeID : string) : M (ClaimResult P) :=
  n ← attempt (GetNode nodeID);
  match n with
  | inl e => mret (if errors_Is e ErrNoRows then claimNotFound
                   else claimInternalError "failed to check node")
  | inr _ =>
      j ← attempt (ClaimJob nodeID);
      match j with
      | inl e => mret (if errors_Is e ErrNoRows then claimNoWork
                       else claimInternalError "failed to claim job")
      | inr job =>
          r ← attempt (GetRun (job_RunID job));
          match r with
          | inl _ => mret (claimInternalError "failed to get run for claimed job")
          | inr run =>
              u ← attempt (repoURLForID (job_RepoID job));
              match u with
              | inl _ => mret (claimInternalError "failed to get repo for claimed job")
              | inr repoURL =>
                  s ← attempt (GetSpec (run_SpecID run));
                  match s with
                  | inl _ => mret (claimInternalError "failed to get spec for claimed job")
                  | inr spec =>
                      p ← buildJobClaimPayload run (sp_Spec spec) repoURL job;
                      match p with
                      | inr payload => mret (ClaimPayload payload)
                      | inl e => abandon_claim job nodeID e
                      end
                  end
              end
          end
      end
  end.

End Claim.

(** * The response to a claim ([internal/server/handlers/nodes_claim_response.go],
      [claim_detected_stack.go], [internal/workflow/lifecycle/orchestrator.go])

    The payload a node receives with a job: the identity of the job and its run,
    the commit to start from, the merged spec, the step or gate to run, and the
    stack that the nearest earlier gate of the attempt detected. *)

(** The order in which a [range] over a map of jobs visits it: any, and another
    one each time ([n] counts the loops). *)
Class MapOrder := {
  visit : nat → list Job → list Job;
  visit_perm n l : visit n l ≡ₚ l
}.

#[export, refine] Instance in_order : MapOrder := { visit := λ _ l, l }.
Proof. done. Defined.

Definition NormalizeStackExpectation (e : StackExpectation) : option StackExpectation :=
  let out := mkStackExpectation (trim_space (se_Language e)) (trim_space (se_Tool e))
               (trim_space (se_Release e)) in
  if decide (se_Language out = "" ∧ se_Tool out = "" ∧ se_Release out = "") then None else Some out.

(** Both branches keep the expectation only when language and tool are known. *)
Definition complete_stack (e : StackExpectation) : option StackExpectation :=
  match NormalizeStackExpectation e with
  | Some out => if decide (se_Language out = "" ∨ se_Tool out = "") then None else Some out
  | None => None
  end.

Definition DetectedStackExpectation (m : BuildGateStageMetadata) : option StackExpectation :=
  match bg_Detected m with
  | Some d => complete_stack d
  | None =>
      match bg_StaticChecks m with
      | [] => None
      | r :: _ => complete_stack (mkStackExpectation (scr_Language r) (scr_Tool r) "")
      end
  end.

Section Payload.
Context `{Collation} `{GoFmt} `{GoFloat} `{MapOrder}.

Definition ChainPredecessor (jobID : string) (visited : list Job) : option Job :=
  snd <$> list_find (λ j, job_NextID j = Some jobID) visited.

(** The stack a job's metadata carries, for gates. *)
Definition gate_stack (j : Job) : option StackExpectation :=
  if IsGateJobType (job_JobType j) then
    match UnmarshalJobMeta (job_Meta j) with
    | Some m => match jmt_GateMetadata m with
                | Some g => DetectedStackExpectation g ≫= NormalizeStackExpectation
                | None => None
                end
    | None => None
    end
  else None.

(** The loop over [len(jobsByID)] rounds. *)
Fixpoint walk_back (rounds n : nat) (jobsByID : list Job) (current : string) : option StackExpectation :=
  match rounds with
  | O => None
  | S rounds' =>
      match ChainPredecessor current (visit n jobsByID) with
      | None => None
      | Some prev =>
          match gate_stack prev with
          | Some e => Some e
          | None => walk_back rounds' (S n) jobsByID (job_ID prev)
          end
      end
  end.

Definition resolveDetectedStackExpectationFromJobs (currentJobID : string) (jobs : list Job) :
    option StackExpectation :=
  if IsZero currentJobID || bool_decide (jobs = []) then None
  else
    let jobsByID := rows (itemByID job_ID jobs) in
    walk_back (length jobsByID) 0 jobsByID currentJobID.

Definition resolveClaimDetectedStack (job : Job) : M (option StackExpectation) :=
  jobs ← ListJobsByRunAttempt (job_RunID job) (job_Attempt job);
  mret (resolveDetectedStackExpectationFromJobs (job_ID job) jobs).

(** [StartedAt] and [CreatedAt] are formatted by package [time]; [None] is the zero
    time of a column that is null. *)
Record NodeClaimResponse := mkNodeClaimResponse {
  ncr_RunID : string; ncr_ResumeCount : Z; ncr_RepoID : string; ncr_Attempt : Z;
  ncr_JobID : string; ncr_JobName : string; ncr_JobType : JobType; ncr_JobImage : string;
  ncr_NextID : option string; ncr_RepoURL : string; ncr_Status : RunStatus; ncr_NodeID : string;
  ncr_BaseRef : string; ncr_CommitSHA : string; ncr_RepoSHAIn : string;
  ncr_StartedAt : option Z; ncr_CreatedAt : Z; ncr_Spec : json;
  ncr_MigContext : option Z; ncr_GateContext : option string;
  ncr_DetectedStack : option StackExpectation
}.

Definition mig_context (job : Job) : option Z :=
  match job_JobType job, UnmarshalJobMeta (job_Meta job) with
  | JobTypeMig, Some m => jmt_MigStepIndex m
  | _, _ => None
  end.

Definition gate_context (job : Job) : option string :=
  match UnmarshalJobMeta (job_Meta job) with
  | Some m =>
      if IsGateJobType (job_JobType job) && negb (blank (jmt_GateCycleName m))
      then Some (trim_space (jmt_GateCycleName m)) else None
  | None => None
  end.

Definition commit_sha (run : Run) (job : Job) : string :=
  let sha := trim_space (run_SourceCommitSha run) in
  if decide (sha = "") then trim_space (job_RepoShaIn job) else sha.

Definition claim_input (config : option ConfigHolder) (spec : json) (job : Job) : claimSpecMutatorInput :=
  match config with
  | Some h => holder_input h spec (job_ID job) (job_JobType job)
  | None => holder_input (NewConfigHolder ∅) spec (job_ID job) (job_JobType job)
  end.

Definition claim_response (run : Run) (merged : json) (repoURL : string) (job : Job)
    (stack : option StackExpectation) : NodeClaimResponse :=
  mkNodeClaimResponse (run_ID run) (ResumeCount (run_Stats run)) (job_RepoID job) (job_Attempt job)
    (job_ID job) (trim_space (job_Name job)) (job_JobType job) (job_JobImage job) (job_NextID job)
    repoURL (run_Status run) (default "" (job_NodeID job)) (job_RepoBaseRef job) (commit_sha run job)
    (job_RepoShaIn job) (run_StartedAt run) (run_CreatedAt run) merged (mig_context job)
    (gate_context job) stack.

(** No error of the builder is a [claimTerminalError]: nothing constructs one. *)
Definition build_error (msg : string) : PayloadError := mkPayloadError false msg.

Definition buildJobClaimPayload (config : option ConfigHolder) (run : Run) (spec : json)
    (repoURL : string) (job : Job) : M (PayloadError + NodeClaimResponse) :=
  match mutateClaimSpec (claim_input config spec job) with
  | inl _ => mret (inl (build_error "merge spec"))
  | inr merged =>
      s ← attempt (resolveClaimDetectedStack job);
      mret (match s with
            | inl _ => inl (build_error "resolve detected stack for claim")
            | inr stack => inr (claim_response run merged repoURL job stack)
            end)
  end.

End Payload.

(** ** The detected stack of a job in its chain *)

Section Stack.
Context `{GoFmt} `{MapOrder}.
Context (jobs : gmap string Job) (rid : string) (a : Z) (c : list Job).
Context (Hk : keyed jobs) (Hc : chain_of jobs rid a c).

Lemma predecessor_in_chain l k j :
  l ≡ₚ c → c !! k = Some j →
  ChainPredecessor (job_ID j) l = match k with O => None | S k' => c !! k' end.
Proof using Hk Hc.
  intros Hl Hj. unfold ChainPredecessor.
  assert (Huniq : ∀ x, x ∈ l → job_NextID x = Some (job_ID j) → ∃ k', k = S k' ∧ c !! k' = Some x).
  { intros x Hx Hn. rewrite Hl in Hx. apply list_elem_of_lookup in Hx as [m Hm].
    rewrite (ch_linked _ _ _ _ Hc _ _ Hm) in Hn. destruct (c !! S m) as [y|] eqn:Ey; [|done].
    injection Hn as Hn. exists m. split; [|done]. by eapply chain_id_inj. }
  destruct (list_find _ l) as [[i x]|] eqn:E.
  - apply list_find_Some in E as (Hx & Hn & _). simpl.
    destruct (Huniq x) as (k' & -> & Hk'); [by eapply list_elem_of_lookup_2|done|]. done.
  - simpl. destruct k as [|k']; [done|]. destruct (c !! k') as [x|] eqn:Ex.
    + exfalso. apply list_find_None in E. eapply Forall_forall in E.
      * apply E. by eapply chain_next.
      * rewrite Hl. by eapply list_elem_of_lookup_2.
    + exfalso. apply lookup_ge_None in Ex. apply lookup_lt_Some in Hj. lia.
Qed.

(** The nearest earlier gate that detected a stack. *)
Definition nearest_stack (k : nat) : option StackExpectation :=
  head (omap gate_stack (reverse (take k c))).

Lemma walk_back_spec rounds n l k j :
  l ≡ₚ c → c !! k = Some j → k < rounds →
  walk_back rounds n l (job_ID j) = nearest_stack k.
Proof using Hk Hc.
  intros Hl. revert n k j. induction rounds as [|rounds IH]; intros n k j Hj Hr; [lia|].
  cbn [walk_back]. rewrite (predecessor_in_chain _ k j) by (by rewrite ?visit_perm).
  destruct k as [|k]; [done|]. destruct (c !! k) as [x|] eqn:Ex.
  2: { apply lookup_ge_None in Ex. apply lookup_lt_Some in Hj. lia. }
  unfold nearest_stack. rewrite (take_S_r c k x Ex), reverse_snoc. simpl.
  destruct (gate_stack x) eqn:Eg; [done|]. apply IH; [done|lia].
Qed.

Lemma itemByID_rows l : NoDup (job_ID <$> l) → rows (itemByID job_ID l) ≡ₚ l.
Proof using Type.
  intros Hn. apply NoDup_Permutation.
  - unfold rows. apply NoDup_fmap_2_strong; [|apply NoDup_map_to_list].
    intros [i x] [i' y] Hi Hi'. simpl. intros ->.
    apply elem_of_map_to_list in Hi. apply elem_of_map_to_list in Hi'.
    apply (itemByID_spec job_ID job_NextID l Hn) in Hi as [_ <-]. by apply (itemByID_spec job_ID job_NextID l Hn) in Hi' as [_ <-].
  - by eapply NoDup_fmap_1.
  - intros x. rewrite elem_of_rows. split.
    + intros [i Hi]. by apply (itemByID_spec job_ID job_NextID l Hn) in Hi as [? _].
    + intros Hx. exists (job_ID x). by apply (itemByID_spec job_ID job_NextID l Hn).
Qed.

Lemma resolve_in_chain l k j :
  l ≡ₚ c → c !! k = Some j →
  resolveDetectedStackExpectationFromJobs (job_ID j) l = nearest_stack k.
Proof using Hk Hc.
  intros Hl Hj. unfold resolveDetectedStackExpectationFromJobs.
  pose proof (chain_nonzero _ _ _ _ Hk Hc) as Hz. eapply Forall_lookup in Hz; [|exact Hj].
  simpl in Hz. rewrite Hz. rewrite bool_decide_eq_false_2.
  2: { intros ->. apply lookup_lt_Some in Hj. rewrite <-Hl in Hj. simpl in Hj. lia. }
  simpl. assert (Hp : rows (itemByID job_ID l) ≡ₚ c).
  { rewrite <-Hl. apply itemByID_rows. rewrite Hl. apply Hc. }
  apply walk_back_spec; [done|done|]. rewrite Hp. by eapply lookup_lt_Some.
Qed.

End Stack.
