(* ===== verification/Frame.v ===== *)
(** * What the life of a run leaves alone

    Projects, specs and repositories, the references runs and waves hold to them,
    and the API tokens form the [frame] of the database. Operations on runs and jobs never change
    it; this is a property of their statements, so it holds whatever fails. *)

From stdpp Require Import base gmap sets list sorting strings.
From S2P Require Import Prelude GoStrings Types Json JobMeta Db Tx Queries JobChain Lifecycle.
From S2P Require Import Spec Tokens Store Plan Recovery Handlers Completion Claim.
From Stdlib Require Import ZArith Lia.
Local Open Scope list_scope.

Definition run_refs (r : Run) : string * string * string * string :=
  (run_MigID r, run_SpecID r, run_RepoID r, run_WaveID r).
Definition wave_refs (w : Wave) : string * string := (wave_MigID w, wave_SpecID w).

Definition frame (db : DB) :=
  (db_migs db, db_mig_repos db, db_repos db, db_specs db, run_refs <$> db_runs db, wave_refs <$> db_waves db,
   db_api_tokens db).

(** [m] leaves the frame alone, however it ends. *)
Definition kept {A} (m : M A) : Prop := ∀ t, frame (tx_db (m t).2) = frame (tx_db t).

Lemma kept_ret {A} (a : A) : kept (mret a).
Proof. done. Qed.
Lemma kept_throw {A} e : kept (throw (A := A) e).
Proof. done. Qed.
Lemma kept_ask {A} (f : Env → A) : kept (ask f).
Proof. done. Qed.
Lemma kept_emit c : kept (emit c).
Proof. done. Qed.
Lemma kept_bind {A B} (m : M A) (k : A → M B) : kept m → (∀ a, kept (k a)) → kept (m ≫= k).
Proof.
  intros Hm Hk t. unfold mbind, M_bind. specialize (Hm t). destruct (m t) as [[e|a] t']; simpl in *; [done|].
  by rewrite Hk.
Qed.
Lemma kept_wrap {A} msg (m : M A) : kept m → kept (wrap msg m).
Proof. intros Hm t. unfold wrap. specialize (Hm t). by destruct (m t) as [[e|a] t']. Qed.
Lemma kept_attempt {A} (m : M A) : kept m → kept (attempt m).
Proof. intros Hm t. unfold attempt. specialize (Hm t). by destruct (m t) as [r t']. Qed.
Lemma kept_of_option {A} e (o : option A) : kept (of_option e o).
Proof. by destruct o. Qed.
Lemma kept_when c m : kept m → kept (when c m).
Proof. by destruct c. Qed.
Lemma kept_for_each {A} (l : list A) f : (∀ a, kept (f a)) → kept (for_each l f).
Proof. intros Hf. induction l; [apply kept_ret|]. simpl. by apply kept_bind. Qed.
Lemma kept_transaction {A} (m : M A) : kept m → kept (transaction m).
Proof.
  intros Hm t. unfold transaction. destruct (head (tx_faults t)) as [[e|]|]; [done|..];
    (destruct (m _) as [[e|a] t'] eqn:E; [done|]; destruct (tx_aborted t'); [done|];
     destruct (head (tx_faults t')) as [[e|]|]; [done|..]; simpl;
     match type of E with m ?s = _ => specialize (Hm s) end; by rewrite E in Hm).
Qed.
Lemma kept_stmt {A} (f : Env → DB → Err + A * DB) :
  (∀ env db a db', f env db = inr (a, db') → frame db' = frame db) → kept (stmt f).
Proof.
  intros Hf t. unfold stmt. destruct (tx_aborted t); [done|].
  destruct (head (tx_faults t)) as [[e|]|]; [done|..];
    (destruct (f (tx_env t) (tx_db t)) as [e|[a db]] eqn:E; [done|]; simpl; by eapply Hf).
Qed.
Lemma kept_query {A} (f : DB → A) : kept (query f).
Proof. apply kept_stmt. by intros env db a db' [= _ <-]. Qed.
Lemma kept_exec (f : Env → DB → DB) : (∀ env db, frame (f env db) = frame db) → kept (exec f).
Proof. intros Hf. apply kept_stmt. intros env db a db' [= _ <-]. apply Hf. Qed.
Lemma kept_query_one {A} (f : Env → DB → Err + option A * DB) :
  (∀ env db a db', f env db = inr (a, db') → frame db' = frame db) → kept (query_one f).
Proof. intros Hf. apply kept_bind; [by apply kept_stmt|]. intros. apply kept_of_option. Qed.

(** Updates of runs and waves that keep the references. *)
Lemma fmap_view_same {A B} (g : A → B) (f : A → A) (m : gmap string A) :
  (∀ x, g (f x) = g x) → g <$> (f <$> m) = g <$> m.
Proof. intros Hf. rewrite <-map_fmap_compose. apply map_fmap_ext. intros. apply Hf. Qed.

Lemma update_same {A B} (g : A → B) p (f : A → A) (m : gmap string A) :
  (∀ x, g (f x) = g x) → g <$> update p f m = g <$> m.
Proof. intros Hf. apply fmap_view_same. intros x. by destruct (p x). Qed.

Lemma alter_same {A B} (g : A → B) (f : A → A) i (m : gmap string A) :
  (∀ x, g (f x) = g x) → g <$> alter f i m = g <$> m.
Proof.
  intros Hf. apply map_eq. intros j. rewrite !lookup_fmap. destruct (decide (i = j)) as [->|Hne].
  - rewrite lookup_alter_eq. destruct (m !! j); simpl; by rewrite ?Hf.
  - by rewrite lookup_alter_ne.
Qed.

Lemma insert_same {A B} (g : A → B) i x y (m : gmap string A) :
  m !! i = Some x → g y = g x → g <$> <[i := y]> m = g <$> m.
Proof.
  intros Hi Hg. rewrite fmap_insert, Hg. apply insert_id. by rewrite lookup_fmap, Hi.
Qed.

Lemma frame_runs v db : run_refs <$> v = run_refs <$> db_runs db → frame (set_db_runs v db) = frame db.
Proof. intros E. unfold frame. simpl. by rewrite E. Qed.

Lemma frame_waves v db : wave_refs <$> v = wave_refs <$> db_waves db → frame (set_db_waves v db) = frame db.
Proof. intros E. unfold frame. simpl. by rewrite E. Qed.

Ltac frame_eq :=
  unfold complete_stmt in *; do 3 (repeat split_match; simplify_eq/=; try done);
  first [apply frame_runs | apply frame_waves];
  first [by apply alter_same | by apply update_same | by apply fmap_view_same | by eapply insert_same].

(** Goals of the form [kept]. *)
Ltac keep :=
  repeat lazymatch goal with
  | |- kept (mret _) => apply kept_ret
  | |- kept (throw _) => apply kept_throw
  | |- kept (ask _) => apply kept_ask
  | |- kept (emit _) => apply kept_emit
  | |- kept (query _) => apply kept_query
  | |- kept (wrap _ _) => apply kept_wrap
  | |- kept (attempt _) => apply kept_attempt
  | |- kept (when _ _) => apply kept_when
  | |- kept (for_each _ _) => apply kept_for_each; intros ?
  | |- kept (of_option _ _) => apply kept_of_option
  | |- kept (transaction _) => apply kept_transaction
  | |- kept (mbind _ _) => apply kept_bind; [|intros ?]
  | |- kept (match _ with _ => _ end) => case_match
  end.

(** One statement. *)
Ltac keep_stmt :=
  first [apply kept_exec; intros ?? | apply kept_query_one; intros ????? | apply kept_stmt; intros ?????];
  frame_eq.

Create HintDb kept.

Section Queries.
Context `{Collation}.

Lemma GetRun_kept i : kept (GetRun i).
Proof. keep_stmt. Qed.
Lemma GetRunForUpdate_kept i : kept (GetRunForUpdate i).
Proof. keep_stmt. Qed.
Lemma GetWave_kept i : kept (GetWave i).
Proof. keep_stmt. Qed.
Lemma GetNode_kept i : kept (GetNode i).
Proof. keep_stmt. Qed.
Lemma GetRepo_kept i : kept (GetRepo i).
Proof. keep_stmt. Qed.
Lemma GetSpec_kept i : kept (GetSpec i).
Proof. keep_stmt. Qed.
Lemma GetJob_kept i : kept (GetJob i).
Proof. keep_stmt. Qed.
Lemma UpdateRunStatus_kept i s : kept (UpdateRunStatus i s).
Proof. keep_stmt. Qed.
Lemma UpdateRunError_kept i s : kept (UpdateRunError i s).
Proof. keep_stmt. Qed.
Lemma UpdateWaveStatus_kept i s : kept (UpdateWaveStatus i s).
Proof. keep_stmt. Qed.
Lemma CancelActiveJobsByRun_kept i : kept (CancelActiveJobsByRun i).
Proof. keep_stmt. Qed.
Lemma CancelActiveJobsByRunAttempt_kept i a : kept (CancelActiveJobsByRunAttempt i a).
Proof. keep_stmt. Qed.
Lemma CancelActiveRunsByWave_kept i : kept (CancelActiveRunsByWave i).
Proof. keep_stmt. Qed.
Lemma ClaimJob_query_kept i : kept (ClaimJob_query i).
Proof. keep_stmt. Qed.
Lemma CreateJob_query_kept a : kept (CreateJob_query a).
Proof. keep_stmt. Qed.
Lemma PromoteJobByIDIfUnblocked_kept i : kept (PromoteJobByIDIfUnblocked i).
Proof. keep_stmt. Qed.
Lemma UnclaimJob_query_kept i n : kept (UnclaimJob_query i n).
Proof. keep_stmt. Qed.
Lemma UpdateJobCompletion_kept i s x o : kept (UpdateJobCompletion i s x o).
Proof. keep_stmt. Qed.
Lemma UpdateJobCompletionWithMeta_query_kept i s x m o : kept (UpdateJobCompletionWithMeta_query i s x m o).
Proof. keep_stmt. Qed.
Lemma UpdateJobImageName_kept i m : kept (UpdateJobImageName i m).
Proof. keep_stmt. Qed.
Lemma CreateNode_kept a : kept (CreateNode a).
Proof. keep_stmt. Qed.
Lemma UpdateNodeCertMetadata_kept i s f x y : kept (UpdateNodeCertMetadata i s f x y).
Proof. keep_stmt. Qed.
Lemma UpsertJobMetric_kept m : kept (UpsertJobMetric m).
Proof. keep_stmt. Qed.
Lemma DeleteSBOMRowsByJob_kept i : kept (DeleteSBOMRowsByJob i).
Proof. keep_stmt. Qed.
Lemma delete_logs_kept i : kept (delete_logs i).
Proof. keep_stmt. Qed.
Lemma delete_metrics_kept i : kept (delete_metrics i).
Proof. keep_stmt. Qed.

End Queries.

#[export] Hint Resolve GetRun_kept GetRunForUpdate_kept GetWave_kept GetNode_kept GetRepo_kept GetSpec_kept GetJob_kept UpdateRunStatus_kept UpdateRunError_kept UpdateWaveStatus_kept CancelActiveJobsByRun_kept CancelActiveJobsByRunAttempt_kept CancelActiveRunsByWave_kept ClaimJob_query_kept CreateJob_query_kept PromoteJobByIDIfUnblocked_kept UnclaimJob_query_kept UpdateJobCompletion_kept UpdateJobCompletionWithMeta_query_kept UpdateJobImageName_kept CreateNode_kept UpdateNodeCertMetadata_kept UpsertJobMetric_kept DeleteSBOMRowsByJob_kept delete_logs_kept delete_metrics_kept : kept.

(** ** The operations *)

Ltac keep_all := repeat (keep; try (progress auto with kept); try by keep_stmt).

Section Store.
Context `{Collation}.

Lemma createPlannedJobs_kept gen run jobs : kept (createPlannedJobs gen run jobs).
Proof.
  unfold createPlannedJobs. destruct jobs as [|p ps]; keep.
  generalize (zip (gen <$> seq 0 (length (p :: ps))) (p :: ps)) as zs. intros zs.
  generalize 0 as i. induction zs as [|[id q] zs IH]; intros i; simpl; keep_all.
Qed.

Lemma requireRepo_kept repoID : kept (requireRepoWithoutActiveRun repoID).
Proof. unfold requireRepoWithoutActiveRun. keep_all. Qed.

Lemma CancelRun_kept runID : kept (CancelRun runID).
Proof. unfold CancelRun, CancelRun_body. keep_all. Qed.

Lemma CancelWave_kept waveID : kept (CancelWave waveID).
Proof. unfold CancelWave, CancelWave_body, ListRunsByWave. keep_all. Qed.

Lemma reset_jobs_kept plans first suffix : kept (reset_jobs plans first suffix).
Proof. revert first. induction suffix as [|j js IH]; intros first; simpl; unfold reset_job; keep_all. Qed.
#[local] Hint Resolve createPlannedJobs_kept requireRepo_kept reset_jobs_kept : kept.

Lemma RestartRun_kept gen arg : kept (RestartRun gen arg).
Proof.
  unfold RestartRun, RestartRun_body, resumeFailedJobs, ListJobsByRunAttempt, lockRunRepositories,
    mark_resumed, incrementRunAttempt. keep_all.
Qed.

Lemma ClaimJob_kept n : kept (ClaimJob n).
Proof. unfold ClaimJob. keep_all. Qed.

Lemma UnclaimJob_kept i n : kept (UnclaimJob i n).
Proof. unfold UnclaimJob. keep_all. Qed.

Lemma Enrollment_kept a : kept (CompleteBootstrapEnrollment a).
Proof. unfold CompleteBootstrapEnrollment, get_token, consume_token. keep_all. Qed.

Lemma ReleaseWave_kept i reg : kept (ReleaseWave i reg).
Proof. unfold ReleaseWave, ListRunsByWave. keep_all. Qed.

Lemma MaybeUpdateRunStatus_kept i a : kept (MaybeUpdateRunStatus i a).
Proof. unfold MaybeUpdateRunStatus, ListJobsByRunAttempt. keep_all. Qed.

Lemma MaybeComplete_kept ev run : kept (MaybeCompleteRunIfAllReposTerminal ev run).
Proof. unfold MaybeCompleteRunIfAllReposTerminal, CountRunsByWaveStatus. keep_all. Qed.

#[local] Hint Resolve ReleaseWave_kept MaybeUpdateRunStatus_kept MaybeComplete_kept UnclaimJob_kept
  ClaimJob_kept CancelRun_kept CancelWave_kept RestartRun_kept : kept.

Lemma recover_rows_kept t c l : kept (recover_rows t c l).
Proof.
  revert c. induction l as [|r rs IH]; intros c; simpl; [apply kept_ret|].
  apply kept_bind; [unfold recover_row; keep_all|done].
Qed.

Lemma recovery_kept t reg : kept (StaleJobRecoveryTask_Run t reg).
Proof.
  unfold StaleJobRecoveryTask_Run, ListStaleRunningJobs, CountStaleNodesWithRunningJobs. keep_all.
  apply recover_rows_kept.
Qed.

Context `{GoFmt}.

Lemma cancel_walk_kept fuel now byID seen next : kept (cancel_walk fuel now byID seen next).
Proof.
  revert seen next. induction fuel as [|n IH]; intros seen next; simpl; [apply kept_ret|].
  unfold UpdateJobStatus. keep_all.
Qed.

Lemma cancelRemaining_kept job : kept (cancelRemainingJobsAfterFailure job).
Proof.
  unfold cancelRemainingJobsAfterFailure, ListJobsByRunAttempt. keep. apply cancel_walk_kept.
Qed.
#[local] Hint Resolve cancelRemaining_kept : kept.

Lemma complete_kept events input job : kept (complete events input job).
Proof.
  unfold complete, publish_job_end, onFail, onCancelled, onSuccess, reconcileRepoRun, loadRunForPostCompletion, or_internal,
    record_error, logged, UpdateJobCompletionWithMeta, HasRunningJobForRunNode. keep_all.
Qed.

#[local] Hint Resolve complete_kept : kept.

Lemma Complete_kept ev reg input : kept (Complete ev reg input).
Proof. unfold Complete, WithJobExecution, reconcileWave. keep_all. Qed.
#[local] Hint Resolve Complete_kept : kept.

Lemma completeJobHandler_kept ev reg j h req : kept (completeJobHandler ev reg j h req).
Proof. unfold completeJobHandler. keep_all. Qed.

Lemma Claim_kept {P} (build : Run → json → string → Job → M (PayloadError + P)) n :
  (∀ r j u b, kept (build r j u b)) → kept (Claim build n).
Proof. intros Hb. unfold Claim, abandon_claim, repoURLForID. keep_all. Qed.

Lemma getRunOrFail_kept i : kept (getRunOrFail i).
Proof. unfold getRunOrFail. keep_all. Qed.
#[local] Hint Resolve getRunOrFail_kept : kept.

Lemma cancelRunHandler_kept reg i : kept (cancelRunHandlerV1 reg i).
Proof. unfold cancelRunHandlerV1. keep_all. Qed.

Lemma cancelWaveHandler_kept reg i : kept (cancelWaveHandler reg i).
Proof. unfold cancelWaveHandler. keep_all. Qed.

Lemma restartRunHandler_kept `{SpecLib} Hash host sh ef gen reg i req :
  kept (restartRunHandler Hash host sh ef gen reg i req).
Proof. unfold restartRunHandler, validateRestartGitLabTokenRequest. keep_all. Qed.

End Store.

#[export] Hint Resolve CancelRun_kept CancelWave_kept RestartRun_kept ClaimJob_kept UnclaimJob_kept
  Enrollment_kept recovery_kept completeJobHandler_kept Claim_kept cancelRunHandler_kept
  cancelWaveHandler_kept restartRunHandler_kept createPlannedJobs_kept requireRepo_kept : kept.
