(* ===== verification/Invariant.v ===== *)
(** * The invariant of the control plane's database

    What every operation maintains and relies on: rows are stored under their
    keys, references resolve, every attempt of a run is one chain of jobs, the
    current attempt of a running run has exactly one queued or running job with
    finished jobs before it and waiting jobs after it, every other attempt is over,
    a job's commit input is its predecessor's output, one node serves an attempt,
    a running run belongs to a started wave, and a repository has at most one
    active run. *)

From S2P Require Import Prelude GoStrings Types Json Db Tx Queries JobChain Chains.
From stdpp Require Import base gmap sets list sorting strings.
From Stdlib Require Import ZArith Lia.

(** ** Rows *)

Record job_ok (nodes : gmap string Node) (j : Job) : Prop := {
  jo_running : job_Status j = JobStatusRunning → is_Some (job_NodeID j) ∧ is_Some (job_StartedAt j);
  jo_waiting : job_Status j = JobStatusQueued ∨ job_Status j = JobStatusCreated → job_StartedAt j = None;
  jo_finished : is_Some (job_FinishedAt j) ↔ terminal_job (job_Status j) = true;
  jo_duration : (0 ≤ job_DurationMs j)%Z;
  jo_node : ∀ n, job_NodeID j = Some n → is_Some (nodes !! n) ∧ IsZero n = false;
  jo_sha_in : job_RepoShaIn8 j = sha8 (job_RepoShaIn j);
  jo_sha_out : job_RepoShaOut8 j = sha8 (job_RepoShaOut j)
}.

Record run_ok (waves : gmap string Wave) (r : Run) : Prop := {
  ro_status : run_Status r ≠ RunStatusQueued;
  ro_attempt : (1 ≤ run_Attempt r)%Z;
  ro_finished : is_Some (run_FinishedAt r) ↔ run_Status r ≠ RunStatusRunning;
  ro_wave : ∃ w, waves !! run_WaveID r = Some w ∧
              (run_Status r = RunStatusRunning → wave_Status w = WaveStatusStarted)
}.

Definition wave_ok (w : Wave) : Prop :=
  is_Some (wave_FinishedAt w) ↔ wave_Status w ≠ WaveStatusStarted.

(** ** Attempts *)

Definition live (r : Run) (a : Z) : bool :=
  bool_decide (a = run_Attempt r) && bool_decide (run_Status r = RunStatusRunning).

Record attempt_ok (lv : bool) (c : list Job) : Prop := {
  ao_nonempty : c ≠ [];
  ao_statuses : if lv then live_shape (job_Status <$> c)
                else Forall (λ j, terminal_job (job_Status j) = true) c;
  ao_affine : affine c;
  ao_sha : sha_chain c
}.

(** ** The database *)

Definition one_active (runs : gmap string Run) : Prop :=
  ∀ i1 i2 r1 r2, runs !! i1 = Some r1 → runs !! i2 = Some r2 → run_RepoID r1 = run_RepoID r2 →
    active_run (run_Status r1) = true → active_run (run_Status r2) = true → i1 = i2.

Record wf (db : DB) : Prop := {
  wf_keyed : keyed (db_jobs db);
  wf_run_key : ∀ i r, db_runs db !! i = Some r → run_ID r = i;
  wf_wave_key : ∀ i w, db_waves db !! i = Some w → wave_ID w = i;
  wf_node_key : ∀ i n, db_nodes db !! i = Some n → node_ID n = i;
  wf_job : ∀ i j, db_jobs db !! i = Some j → job_ok (db_nodes db) j;
  wf_job_run : ∀ i j, db_jobs db !! i = Some j →
    ∃ r, db_runs db !! job_RunID j = Some r ∧ (1 ≤ job_Attempt j ≤ run_Attempt r)%Z;
  wf_run : ∀ i r, db_runs db !! i = Some r → run_ok (db_waves db) r;
  wf_repo : ∀ i r, db_runs db !! i = Some r → is_Some (db_repos db !! run_RepoID r);
  wf_wave : ∀ i w, db_waves db !! i = Some w → wave_ok w;
  wf_attempt : ∀ i r a, db_runs db !! i = Some r → (1 ≤ a ≤ run_Attempt r)%Z →
    ∃ c, chain_of (db_jobs db) i a c ∧ attempt_ok (live r a) c;
  wf_one_active : one_active (db_runs db)
}.

(** The empty database, in which nothing has run yet. *)
Definition empty_db : DB := mkDB ∅ ∅ ∅ ∅ ∅ ∅ ∅ ∅ [] [] ∅ ∅ ∅.

Lemma empty_wf : wf empty_db.
Proof. split; simpl; unfold keyed, one_active; intros; simplify_map_eq. Qed.

(** ** Consequences *)

Section Consequences.
Context (db : DB) (Hwf : wf db).

(** The chain a job belongs to, and its place in it. *)
Lemma wf_job_chain i j : db_jobs db !! i = Some j →
  ∃ r c k, db_runs db !! job_RunID j = Some r ∧
    chain_of (db_jobs db) (job_RunID j) (job_Attempt j) c ∧
    attempt_ok (live r (job_Attempt j)) c ∧ c !! k = Some j.
Proof using Hwf.
  intros Hj. destruct (wf_job_run _ Hwf _ _ Hj) as (r & Hr & Ha).
  destruct (wf_attempt _ Hwf _ _ _ Hr Ha) as (c & Hc & Hok).
  destruct (wf_keyed _ Hwf _ _ Hj) as [<- _].
  assert (Hin : j ∈ c) by (by apply (ch_elem _ _ _ _ Hc)).
  apply list_elem_of_lookup in Hin as [k Hk]. eauto 8.
Qed.

(** An active job belongs to the current attempt of a running run. *)
Lemma active_job_live i j r :
  db_jobs db !! i = Some j → active_job (job_Status j) = true →
  db_runs db !! job_RunID j = Some r →
  run_Status r = RunStatusRunning ∧ job_Attempt j = run_Attempt r.
Proof using Hwf.
  intros Hj Ha Hr. destruct (wf_job_chain _ _ Hj) as (r' & c & k & Hr' & Hc & Hok & Hk).
  assert (r' = r) as -> by congruence.
  destruct (live r (job_Attempt j)) eqn:E.
  { apply andb_true_iff in E as [E1 E2]. apply bool_decide_eq_true in E1, E2. done. }
  apply ao_statuses in Hok. eapply Forall_lookup in Hok; [|exact Hk]. simpl in Hok.
  unfold terminal_job in Hok. by rewrite Ha in Hok.
Qed.

End Consequences.

(** ** Updates *)

(** A running job that leaves the row it is in: [at_id] on a chain. *)
Lemma at_id_chain jobs rid a pre j post f :
  chain_of jobs rid a (pre ++ j :: post) →
  at_id (job_ID j) f <$> (pre ++ j :: post) = pre ++ f j :: post.
Proof.
  intros Hc. pose proof (ch_nodup _ _ _ _ Hc) as Hn.
  rewrite fmap_app in Hn. simpl in Hn. apply NoDup_app in Hn as (_ & Hpre & Hn).
  apply NoDup_cons in Hn as [Hpost _].
  assert (Hid : ∀ l : list Job, job_ID j ∉ job_ID <$> l → at_id (job_ID j) f <$> l = l).
  { intros l Hl. rewrite <-(list_fmap_id l) at 2. apply list_fmap_ext. intros i x Hx.
    unfold at_id. rewrite decide_False; [done|]. intros He. apply Hl. rewrite <-He.
    apply list_elem_of_fmap. exists x. split; [done|]. by eapply list_elem_of_lookup_2. }
  rewrite fmap_app. simpl. rewrite !Hid.
  - unfold at_id. by rewrite decide_True.
  - done.
  - intros Hin. destruct (Hpre _ Hin). left.
Qed.

(** Rewriting rows in place. [F], [G] and [V] act on jobs, runs and waves. *)
Section Rewrite.
Context (db db' : DB) (F : Job → Job) (G : Run → Run) (V : Wave → Wave).
Context (Hwf : wf db) (HF : stable F).
Context (HG : ∀ r, run_ID (G r) = run_ID r ∧ run_WaveID (G r) = run_WaveID r ∧
                   run_RepoID (G r) = run_RepoID r ∧ run_Attempt (G r) = run_Attempt r).
Context (HV : ∀ w, wave_ID (V w) = wave_ID w).
Context (Hjobs : db_jobs db' = F <$> db_jobs db).
Context (Hruns : db_runs db' = G <$> db_runs db).
Context (Hwaves : db_waves db' = V <$> db_waves db).
Context (Hnodes : db_nodes db' = db_nodes db).
Context (Hrepos : db_repos db' = db_repos db).

Lemma wf_rewrite :
  (∀ i j, db_jobs db !! i = Some j → job_ok (db_nodes db) (F j)) →
  (∀ i r, db_runs db !! i = Some r → run_ok (V <$> db_waves db) (G r)) →
  (∀ i w, db_waves db !! i = Some w → wave_ok (V w)) →
  (∀ i r a c, db_runs db !! i = Some r → chain_of (db_jobs db) i a c →
     attempt_ok (live r a) c → attempt_ok (live (G r) a) (F <$> c)) →
  one_active (db_runs db') →
  wf db'.
Proof using Type*.
  intros Hj Hr Hw Ha Hone. split; rewrite ?Hjobs, ?Hruns, ?Hwaves, ?Hnodes, ?Hrepos.
  - apply keyed_fmap; [done|apply Hwf].
  - intros i r. rewrite lookup_fmap, fmap_Some. intros (x & Hx & ->).
    destruct (HG x) as (-> & _). by eapply wf_run_key.
  - intros i w. rewrite lookup_fmap, fmap_Some. intros (x & Hx & ->).
    rewrite HV. by eapply wf_wave_key.
  - apply Hwf.
  - intros i j. rewrite lookup_fmap, fmap_Some. intros (x & Hx & ->). eauto.
  - intros i j. rewrite lookup_fmap, fmap_Some. intros (x & Hx & ->).
    destruct (wf_job_run _ Hwf _ _ Hx) as (r & Hrr & Hat). exists (G r).
    rewrite (stable_run _ HF), (stable_attempt _ HF), lookup_fmap, Hrr. split; [done|].
    destruct (HG r) as (_ & _ & _ & ->). done.
  - intros i r. rewrite lookup_fmap, fmap_Some. intros (x & Hx & ->). eauto.
  - intros i r. rewrite lookup_fmap, fmap_Some. intros (x & Hx & ->).
    destruct (HG x) as (_ & _ & -> & _). by eapply wf_repo.
  - intros i w. rewrite lookup_fmap, fmap_Some. intros (x & Hx & ->). eauto.
  - intros i r a. rewrite lookup_fmap, fmap_Some. intros (x & Hx & ->) Hat.
    destruct (HG x) as (_ & _ & _ & Hatt). rewrite Hatt in Hat.
    destruct (wf_attempt _ Hwf _ _ _ Hx Hat) as (c & Hc & Hok).
    exists (F <$> c). split; [|eauto]. apply chain_of_fmap; [done|apply Hwf|done].
  - by rewrite <-Hruns.
Qed.

End Rewrite.

(** Fewer active runs. *)
Lemma one_active_fmap G runs :
  (∀ i r, runs !! i = Some r → run_RepoID (G r) = run_RepoID r ∧
     (active_run (run_Status (G r)) = true → active_run (run_Status r) = true)) →
  one_active runs → one_active (G <$> runs).
Proof.
  intros HG Hone i1 i2 r1 r2. rewrite !lookup_fmap, !fmap_Some.
  intros (x1 & H1 & ->) (x2 & H2 & ->) Hrepo Ha1 Ha2.
  destruct (HG _ _ H1) as [E1 A1], (HG _ _ H2) as [E2 A2]. rewrite E1, E2 in Hrepo. eauto.
Qed.

Lemma wave_lookup_id db (V : Wave → Wave) r :
  run_ok (db_waves db) r →
  (∀ w, db_waves db !! run_WaveID r = Some w → run_Status r = RunStatusRunning →
     wave_Status w = WaveStatusStarted → wave_Status (V w) = WaveStatusStarted) →
  run_ok (V <$> db_waves db) r.
Proof.
  intros [H1 H2 H3 (w & Hw & Hs)] HV. split; try done.
  exists (V w). rewrite lookup_fmap, Hw. split; [done|]. intros. apply HV; auto.
Qed.

(** An update of job rows only. *)
Lemma wf_jobs_only db db' F :
  wf db → stable F → db_jobs db' = F <$> db_jobs db → db_runs db' = db_runs db →
  db_waves db' = db_waves db → db_nodes db' = db_nodes db → db_repos db' = db_repos db →
  (∀ i j, db_jobs db !! i = Some j → job_ok (db_nodes db) (F j)) →
  (∀ i r a c, db_runs db !! i = Some r → chain_of (db_jobs db) i a c →
     attempt_ok (live r a) c → attempt_ok (live r a) (F <$> c)) →
  wf db'.
Proof.
  intros Hwf HF Hj Hr Hw Hn Hre Hjo Ha.
  apply (wf_rewrite db db' F id id); auto; rewrite ?Hr, ?Hw, ?map_fmap_id;
    [done|done|apply Hwf|apply Hwf|apply Hwf].
Qed.

Lemma at_id_other (l : list Job) id f : id ∉ job_ID <$> l → at_id id f <$> l = l.
Proof.
  intros Hl. rewrite <-(list_fmap_id l) at 2. apply list_fmap_ext. intros i x Hx.
  unfold at_id. rewrite decide_False; [done|]. intros <-. apply Hl.
  apply list_elem_of_fmap. exists x. split; [done|]. by eapply list_elem_of_lookup_2.
Qed.

(** An update of one job row. *)
Lemma wf_one_job db db' j f :
  wf db → stable f → db_jobs db !! job_ID j = Some j →
  db_jobs db' = <[job_ID j := f j]> (db_jobs db) → db_runs db' = db_runs db →
  db_waves db' = db_waves db → db_nodes db' = db_nodes db → db_repos db' = db_repos db →
  job_ok (db_nodes db) (f j) →
  (∀ r pre post, db_runs db !! job_RunID j = Some r →
     chain_of (db_jobs db) (job_RunID j) (job_Attempt j) (pre ++ j :: post) →
     attempt_ok (live r (job_Attempt j)) (pre ++ j :: post) →
     attempt_ok (live r (job_Attempt j)) (pre ++ f j :: post)) →
  wf db'.
Proof.
  intros Hwf Hf Hj Hjobs Hr Hw Hn Hre Hjo Ha.
  pose proof (wf_keyed _ Hwf) as Hk.
  rewrite (insert_at_id f _ _ _ Hk Hj) in Hjobs.
  apply (wf_jobs_only db db' (at_id (job_ID j) f)); auto with ploy.
  - intros i x Hx. unfold at_id. case_decide as Hd; [|by eapply wf_job].
    destruct (Hk _ _ Hx) as [Hid _]. assert (x = j) as -> by congruence. done.
  - intros i r a c Hrun Hc Hok.
    destruct (decide (job_ID j ∈ job_ID <$> c)) as [Hin|Hout].
    + apply list_elem_of_fmap in Hin as (x & Hid & Hx).
      assert (x = j) as -> by (apply (ch_elem _ _ _ _ Hc) in Hx as (? & _); congruence).
      apply (ch_elem _ _ _ _ Hc) in Hx as Hxx. destruct Hxx as (_ & <- & <-).
      apply list_elem_of_split in Hx as (pre & post & ->).
      erewrite at_id_chain by exact Hc. eauto.
    + by rewrite at_id_other.
Qed.

(** The status of a job in the middle of a live chain may change between queued
    and running. *)
Lemma attempt_ok_requeue lv pre j post (f : Job → Job) :
  attempt_ok lv (pre ++ j :: post) →
  (job_Status j = JobStatusQueued ∨ job_Status j = JobStatusRunning) →
  (job_Status (f j) = JobStatusQueued ∨ job_Status (f j) = JobStatusRunning) →
  (∀ j, job_RepoShaIn (f j) = job_RepoShaIn j) →
  affine (pre ++ f j :: post) → attempt_ok lv (pre ++ f j :: post).
Proof.
  intros [Hne Hst Haf Hsha] Hj Hfj Hin Haf'. split; [by destruct pre| |done|].
  - destruct lv.
    + apply live_split in Hst as (pre' & x & post' & Heq & Hpre & Hx & Hpost).
      assert (Hp : Forall (λ x, job_Status x = JobStatusSuccess) pre ∧
                   Forall (λ x, job_Status x = JobStatusCreated) post).
      { destruct (live_lookup (pre ++ j :: post) (length pre) j) as (p1 & p2 & He & Hl & H1 & H2).
        - rewrite Heq. apply live_split. eauto 8.
        - by apply list_lookup_middle.
        - by destruct Hj as [-> | ->].
        - by destruct Hj as [-> | ->].
        - apply app_inj_1 in He as [<- He]; [|done]. by injection He as <-. }
      destruct Hp. apply live_split. eauto 8.
    + exfalso. rewrite Forall_app, Forall_cons in Hst. destruct Hst as (_ & Ht & _).
      destruct Hj as [E|E]; rewrite E in Ht; done.
  - intros k x y Hx Hy Hs.
    assert (Hcase : ∀ k z, (pre ++ f j :: post) !! k = Some z →
      ((pre ++ j :: post) !! k = Some z ∧ k ≠ length pre) ∨ (k = length pre ∧ z = f j)).
    { intros k' z Hz. destruct (decide (k' = length pre)) as [->|Hd].
      - right. rewrite list_lookup_middle in Hz by done. naive_solver.
      - left. split; [|done]. rewrite lookup_app in Hz |- *. destruct (pre !! k') eqn:E; [done|].
        apply lookup_ge_None in E. destruct (k' - length pre) eqn:Em; [lia|done]. }
    destruct (Hcase _ _ Hx) as [[Hx' _]|[-> ->]]; [|by destruct Hfj; congruence].
    destruct (Hcase _ _ Hy) as [[Hy' _]|[Hk ->]]; [eauto|].
    rewrite Hin. eapply Hsha; [exact Hx'| |done]. rewrite Hk. by apply list_lookup_middle.
Qed.
