(* ===== verification/ClaimSafety.v ===== *)
(** * Claims: what a claim picks, and that claims keep the invariant *)

From S2P Require Import Prelude GoStrings Types Json JobMeta Db Tx Queries JobChain Lifecycle.
From S2P Require Import Tokens Store Recovery Completion Claim Chains Invariant.
From stdpp Require Import base gmap sets list sorting strings.
From Stdlib Require Import ZArith Lia.

Section ClaimSafety.
Context `{Collation}.

(** ** What a claim does *)

Lemma claim_candidates_spec locked db n j :
  j ∈ claim_candidates locked db n ↔
  job_ID j ∉ locked ∧ claim_eligible db n j = true ∧ ∃ i, db_jobs db !! i = Some j.
Proof.
  unfold claim_candidates. rewrite list_elem_of_filter, elem_of_select. done.
Qed.

(** The conditions of the claim query. *)
Record eligible (db : DB) (n : Node) (j : Job) : Prop := {
  el_drained : node_Drained n = false;
  el_queued : job_Status j = JobStatusQueued;
  el_node : ∀ m, job_NodeID j = Some m → m = node_ID n;
  el_run : ∃ r w, db_runs db !! job_RunID j = Some r ∧ run_Status r = RunStatusRunning ∧
             db_waves db !! run_WaveID r = Some w ∧ wave_Status w = WaveStatusStarted;
  el_affine : ∀ i o m, db_jobs db !! i = Some o → job_RunID o = job_RunID j →
             job_Attempt o = job_Attempt j → job_NodeID o = Some m → m = node_ID n
}.

Lemma claim_eligible_spec db n j :
  claim_eligible db n j = true ↔ node_ID n ≠ "" ∧ eligible db n j.
Proof.
  unfold claim_eligible. rewrite !andb_true_iff, !negb_true_iff, bool_decide_eq_false, bool_decide_eq_true.
  assert (Hown : owned_elsewhere db (node_ID n) j = false ↔
    ∀ i o m, db_jobs db !! i = Some o → job_RunID o = job_RunID j →
      job_Attempt o = job_Attempt j → job_NodeID o = Some m → m = node_ID n).
  { unfold owned_elsewhere. rewrite <-not_true_iff_false, existsb_rows. split.
    - intros Hno i o m Ho Hr Ha Hm. destruct (decide (m = node_ID n)); [done|]. destruct Hno.
      exists i, o. split; [done|]. rewrite !bool_decide_eq_true_2, Hm by done.
      by rewrite bool_decide_eq_false_2.
    - intros Hall (i & o & Ho & Hb). rewrite !andb_true_iff, !bool_decide_eq_true in Hb.
      destruct Hb as [[Hr Ha] Hm]. destruct (job_NodeID o) as [m|] eqn:Em; [|done].
      apply negb_true_iff, bool_decide_eq_false in Hm. by apply Hm; eauto. }
  split.
  - intros (((((H1 & H2) & H3) & H4) & H5) & H6). split; [done|]. split; [done|done| | |by apply Hown].
    + intros m Hm. rewrite Hm in H4. by apply bool_decide_eq_true in H4.
    + destruct (db_runs db !! job_RunID j) as [r|] eqn:Er; [|done].
      apply andb_true_iff in H5 as [Hs Hw]. apply bool_decide_eq_true in Hs.
      destruct (db_waves db !! run_WaveID r) as [w|] eqn:Ew; [|done].
      apply bool_decide_eq_true in Hw. eauto 8.
  - intros (Hne & [H1 H2 H3 (r & w & Hr & Hs & Hw & Hws) H5]). split_and!; try done.
    + destruct (job_NodeID j) as [m|]; [|done]. apply bool_decide_eq_true. auto.
    + rewrite Hr, Hw. by rewrite !bool_decide_eq_true_2.
    + by apply Hown.
Qed.

(** The outcome of the claim statement. *)
Lemma ClaimJob_outcome env db faults nodeID r db' :
  run_op (ClaimJob nodeID) env db faults = (r, db') →
  match r with
  | inl _ => db' = db
  | inr j' => ∃ n j, IsZero nodeID = false ∧ db_nodes db !! nodeID = Some n ∧
      head (claim_candidates (env_locked env) db n) = Some j ∧
      j' = claim_row (node_ID n) (env_now env) j ∧
      db' = set_db_jobs (<[job_ID j := j']> (db_jobs db)) db
  end.
Proof.
  unfold run_op, session, ClaimJob. destruct (IsZero nodeID) eqn:Ez.
  { unfold throw. by intros [= <- <-]. }
  unfold ClaimJob_query, query_one, mbind, M_bind, stmt; simpl.
  destruct (head faults) as [[e|]|]; [by intros [= <- <-]|..];
    (destruct (db_nodes db !! nodeID) as [n|]; [|by intros [= <- <-]];
     destruct (claim_candidates (env_locked env) db n) as [|j l] eqn:Ec; [by intros [= <- <-]|];
     simpl; intros [= <- <-]; exists n, j; by rewrite Ec).
Qed.

(** ** The invariant *)

Lemma affine_claim pre j post nid now :
  affine (pre ++ j :: post) →
  (∀ o m, o ∈ pre ++ j :: post → job_NodeID o = Some m → m = nid) →
  affine (pre ++ claim_row nid now j :: post).
Proof.
  intros _ Hall. assert (Hnew : ∀ o m, o ∈ pre ++ claim_row nid now j :: post →
    job_NodeID o = Some m → m = nid).
  { intros o m. rewrite elem_of_app, elem_of_cons. intros [Hin|[->|Hin]] Hm.
    - eapply Hall; [|done]. set_solver.
    - by injection Hm.
    - eapply Hall; [|done]. set_solver. }
  intros j1 j2 n1 n2 H1 H2 E1 E2. rewrite (Hnew _ _ H1 E1). symmetry. eauto.
Qed.

Lemma stable_claim nid now : stable (claim_row nid now).
Proof. done. Qed.

Lemma claim_wf db n j now :
  wf db → db_nodes db !! node_ID n = Some n → IsZero (node_ID n) = false →
  db_jobs db !! job_ID j = Some j → eligible db n j →
  wf (set_db_jobs (<[job_ID j := claim_row (node_ID n) now j]> (db_jobs db)) db).
Proof.
  intros Hwf Hn Hz Hj Hel. destruct Hel as [_ Hq Hnode _ Haff].
  apply (wf_one_job db _ j (claim_row (node_ID n) now)); try done.
  - destruct (wf_job _ Hwf _ _ Hj) as [H1 H2 H3 H4 H5 H6 H7]. split; simpl; try done.
    + intros [|]; done.
    + rewrite Hq in H3. done.
    + intros m [= <-]. eauto.
  - intros r pre post Hr Hc Hok. apply attempt_ok_requeue; try done; [by left|by right|].
    apply affine_claim; [apply Hok|]. intros o m Ho. apply (ch_elem _ _ _ _ Hc) in Ho as (Ho & Hrid & Ha).
    by apply (Haff (job_ID o)).
Qed.

Lemma stable_unclaim keep : stable (unclaim_row keep).
Proof. done. Qed.

Lemma affine_unclaim keep pre j post :
  affine (pre ++ j :: post) → affine (pre ++ unclaim_row keep j :: post).
Proof.
  intros Haf j1 j2 n1 n2 Hj1 Hj2 E1 E2.
  assert (Hold : ∀ o m, o ∈ pre ++ unclaim_row keep j :: post → job_NodeID o = Some m →
    ∃ o', o' ∈ pre ++ j :: post ∧ job_NodeID o' = Some m).
  { intros o m. rewrite elem_of_app, elem_of_cons. intros [Hin|[->|Hin]] Hm.
    - exists o. set_solver.
    - simpl in Hm. destruct keep; [|done]. exists j. set_solver.
    - exists o. set_solver. }
  destruct (Hold _ _ Hj1 E1) as (o1 & Ho1 & Eo1), (Hold _ _ Hj2 E2) as (o2 & Ho2 & Eo2). eauto.
Qed.

Lemma unclaim_wf db j keep :
  wf db → db_jobs db !! job_ID j = Some j → job_Status j = JobStatusRunning →
  wf (set_db_jobs (<[job_ID j := unclaim_row keep j]> (db_jobs db)) db).
Proof.
  intros Hwf Hj Hs. apply (wf_one_job db _ j (unclaim_row keep)); try done.
  - destruct (wf_job _ Hwf _ _ Hj) as [H1 H2 H3 H4 H5 H6 H7]. split; simpl; try done.
    + rewrite Hs in H3. done.
    + intros m. destruct keep; [apply H5|done].
  - intros r pre post Hr Hc Hok.
    apply (attempt_ok_requeue _ _ _ _ (unclaim_row keep)); auto.
    apply affine_unclaim, Hok.
Qed.

Lemma ClaimJob_triple env nodeID :
  triple false env wf (ClaimJob nodeID) (λ _, wf) (λ _, wf).
Proof.
  unfold ClaimJob. destruct (IsZero nodeID) eqn:Ez; [by apply triple_throw|].
  apply triple_query_one; [|intros db db' Hwf|auto].
  - intros db j' db' Hwf. destruct (db_nodes db !! nodeID) as [n|] eqn:En; [|done].
    destruct (claim_candidates _ _ _) as [|j l] eqn:Ec; [done|]. intros [= <- <-].
    assert (Hc : j ∈ claim_candidates (env_locked env) db n) by (rewrite Ec; left).
    apply claim_candidates_spec in Hc as (_ & Hel & i & Hi).
    apply claim_eligible_spec in Hel as [_ Hel].
    destruct (wf_keyed _ Hwf _ _ Hi) as [Hid _]. rewrite <-Hid in Hi.
    pose proof (wf_node_key _ Hwf _ _ En) as Hnid. rewrite <-Hnid in En, Ez. by apply claim_wf.
  - destruct (db_nodes db !! nodeID) as [n|]; [|by intros [= <-]].
    destruct (claim_candidates _ _ _); [by intros [= <-]|done].
Qed.

Lemma UnclaimJob_triple env id nodeID :
  triple false env wf (UnclaimJob id nodeID) (λ _, wf) (λ _, wf).
Proof.
  unfold UnclaimJob. destruct (IsZero id); [by apply triple_throw|].
  destruct (IsZero nodeID); [by apply triple_throw|]. apply triple_wrap, triple_stmt; [|auto].
  intros db [] db' Hwf. destruct (db_nodes db !! nodeID) as [n|]; [|by intros [= <-]].
  destruct (db_jobs db !! id) as [j|] eqn:Ej; [|by intros [= <-]].
  case_decide as Hd; [|by intros [= <-]]. destruct Hd as (_ & _ & Hs).
  destruct (wf_keyed _ Hwf _ _ Ej) as [Hid _]. subst id.
  destruct (db_runs db !! job_RunID j) as [r|]; simpl.
  - destruct (sql_resume_count (run_Stats r)) as [z|]; simpl; [|done]. intros [= <-].
    by apply unclaim_wf.
  - intros [= <-]. by apply (unclaim_wf db j false).
Qed.

End ClaimSafety.

(** ** Giving a job back *)

Lemma claim_unclaim_total `{Collation} env1 env2 db faults nodeID j' db1 :
  wf db → run_op (ClaimJob nodeID) env1 db faults = (inr j', db1) →
  (∀ j, db_jobs db !! job_ID j' = Some j → job_NodeID j = None) →
  (∀ r, db_runs db !! job_RunID j' = Some r → sql_resume_count (run_Stats r) = Some 0%Z) →
  Tx.total env2 (λ d, d = db1) (UnclaimJob (job_ID j') nodeID) (λ _ d, d = db).
Proof.
  intros Hwf E Hfree Hres.
  destruct (ClaimJob_outcome _ _ _ _ _ _ E) as (n & j & Hz & Hn & Hh & -> & ->).
  pose proof (wf_node_key _ Hwf _ _ Hn) as Hid. simpl in *.
  assert (Hin : j ∈ claim_candidates (env_locked env1) db n).
  { destruct (claim_candidates _ _ _); [done|]. injection Hh as ->. left. }
  apply claim_candidates_spec in Hin as (_ & Hel & i & Hi). apply claim_eligible_spec in Hel as [Hne Hel].
  destruct (wf_keyed _ Hwf _ _ Hi) as [Hji Hjz]. subst i.
  destruct (wf_job_run _ Hwf _ _ Hi) as (r & Hr & _).
  unfold UnclaimJob. rewrite Hjz, Hz. apply total_wrap, total_stmt. intros d ->. simpl.
  rewrite Hn, lookup_insert_eq. simpl. rewrite Hid.
  rewrite decide_True by (split_and!; [congruence|done|done]). rewrite Hr. simpl. rewrite (Hres _ Hr). simpl.
  eexists _, _. split; [done|]. rewrite insert_insert_eq.
  assert (Hrow : unclaim_row false (claim_row nodeID (env_now env1) j) = j).
  { pose proof (jo_waiting _ _ (wf_job _ Hwf _ _ Hi) (or_introl (el_queued _ _ _ Hel))) as Hst.
    pose proof (el_queued _ _ _ Hel) as Hq. pose proof (Hfree _ Hi) as Hnode.
    destruct j; simpl in *; subst. reflexivity. }
  rewrite Hrow, insert_id by done. by destruct db.
Qed.
