(* ===== verification/CancelSafety.v ===== *)
(** * Cancellation of runs and waves

    What [CancelRun], [CancelWave] and the bulk cancellation statements write, and
    that a completed cancellation keeps the invariant. *)

From S2P Require Import Prelude GoStrings Types Json Db Tx Queries JobChain Lifecycle Store Chains.
From S2P Require Import Invariant.
From stdpp Require Import base gmap sets list sorting strings.
From Stdlib Require Import ZArith Lia.

(** ** Rows *)

Lemma epoch_ms_nonneg us : (0 ≤ us)%Z → (0 ≤ epoch_ms us)%Z.
Proof. intros Hu. unfold epoch_ms. rewrite decide_True by done. apply Z.div_pos; lia. Qed.

Lemma stable_cancel now : stable (cancel_row now).
Proof. done. Qed.

Lemma cancel_job_ok nodes now j : job_ok nodes j → job_ok nodes (cancel_row now j).
Proof.
  intros [H1 H2 H3 H4 H5 H6 H7]. split; simpl; try done.
  - intros [|]; done.
  - destruct (job_StartedAt j); [|done]. apply epoch_ms_nonneg. lia.
Qed.

Section Cancel.
Context (p : Job → bool) (now : Z).
Context (Hp : ∀ j, p j = true → active_job (job_Status j) = true).

Definition cancel_if (j : Job) : Job := if p j then cancel_row now j else j.

Lemma stable_cancel_if : stable cancel_if.
Proof using Type. unfold cancel_if. apply stable_if, stable_cancel. Qed.

(** A chain is over once its active jobs are cancelled, and is unchanged when
    none of its jobs is concerned. *)
Lemma cancel_attempt_ok lv lv' c :
  attempt_ok lv c →
  (lv' = false → ∀ j, j ∈ c → active_job (job_Status j) = true → p j = true) →
  (lv' = true → lv = true ∧ ∀ j, j ∈ c → p j = false) →
  attempt_ok lv' (cancel_if <$> c).
Proof using Hp.
  intros [Hne Hst Haf Hsha] Hf Ht. split.
  - by destruct c.
  - destruct lv'.
    + destruct (Ht eq_refl) as [-> Hno].
      replace (cancel_if <$> c) with c; [done|]. rewrite <-(list_fmap_id c) at 1.
      apply list_fmap_ext. intros k j Hj. unfold cancel_if, id.
      rewrite Hno; [done|]. by eapply list_elem_of_lookup_2.
    + apply Forall_fmap, Forall_forall. intros j Hj. simpl. unfold cancel_if.
      destruct (p j) eqn:Ep; [done|]. destruct (active_job (job_Status j)) eqn:Ea.
      * rewrite (Hf eq_refl) in Ep; done.
      * unfold terminal_job. by rewrite Ea.
  - apply affine_fmap; [|done]. intros j _. unfold cancel_if. by destruct (p j).
  - apply sha_chain_fmap; [| |done]; intros j _; unfold cancel_if; by destruct (p j).
Qed.

Lemma cancel_if_job_ok nodes j : job_ok nodes j → job_ok nodes (cancel_if j).
Proof using Type. unfold cancel_if. destruct (p j); auto using cancel_job_ok. Qed.

End Cancel.

(** ** Cancelling runs together with their jobs *)

(** [C] selects the runs: their rows become terminal by [g], their active jobs
    are cancelled. *)
Section CancelRuns.
Context (db db' : DB) (C : Run → bool) (g : Run → Run) (V : Wave → Wave) (p : Job → bool) (now : Z).
Context (Hwf : wf db).
Context (Hg : ∀ r, run_ID (g r) = run_ID r ∧ run_WaveID (g r) = run_WaveID r ∧
                   run_RepoID (g r) = run_RepoID r ∧ run_Attempt (g r) = run_Attempt r).
Context (Hgt : ∀ r, active_run (run_Status (g r)) = false ∧ is_Some (run_FinishedAt (g r))).
Context (HV : ∀ w, wave_ID (V w) = wave_ID w).
Context (Hp : ∀ j, p j = true → active_job (job_Status j) = true).
Context (Hpr : ∀ i j r, db_jobs db !! i = Some j → db_runs db !! job_RunID j = Some r →
                 active_job (job_Status j) = true → p j = C r).
Context (Hjobs : db_jobs db' = cancel_if p now <$> db_jobs db).
Context (Hruns : db_runs db' = (λ r, if C r then g r else r) <$> db_runs db).
Context (Hwaves : db_waves db' = V <$> db_waves db).
Context (Hnodes : db_nodes db' = db_nodes db).
Context (Hrepos : db_repos db' = db_repos db).
Context (Hwok : ∀ i w, db_waves db !! i = Some w → wave_ok (V w)).
Context (Hwst : ∀ i r w, db_runs db !! i = Some r → C r = false →
                 db_waves db !! run_WaveID r = Some w → run_Status r = RunStatusRunning →
                 wave_Status w = WaveStatusStarted → wave_Status (V w) = WaveStatusStarted).

Lemma cancel_runs_wf : wf db'.
Proof using Type*.
  assert (HG : ∀ r, run_ID (if C r then g r else r) = run_ID r ∧
    run_WaveID (if C r then g r else r) = run_WaveID r ∧
    run_RepoID (if C r then g r else r) = run_RepoID r ∧
    run_Attempt (if C r then g r else r) = run_Attempt r) by (intros r; destruct (C r); auto).
  apply (wf_rewrite db db' (cancel_if p now) (λ r, if C r then g r else r) V);
    auto using stable_cancel_if.
  - intros i j Hj. apply cancel_if_job_ok. by eapply wf_job.
  - intros i r Hr. pose proof (wf_run _ Hwf _ _ Hr) as Hro. destruct (C r) eqn:EC.
    + destruct (Hg r) as (_ & Hw & _ & Ha), (Hgt r) as [Hs Hfin].
      destruct Hro as [_ Hat _ (w & Hlw & _)].
      split; rewrite ?Hw, ?Ha; [by intros E; rewrite E in Hs|done| |].
      * split; [|done]. intros _ E. by rewrite E in Hs.
      * exists (V w). rewrite lookup_fmap, Hlw. split; [done|]. intros E. by rewrite E in Hs.
    + apply wave_lookup_id; [done|]. intros w Hw. by eapply Hwst.
  - intros i r a c Hr Hc Hok. apply (cancel_attempt_ok p now Hp (live r a)); [done|..].
    + intros Hl j Hj Hact. apply (ch_elem _ _ _ _ Hc) in Hj as (Hj & Hrid & Hat).
      assert (Hrj : db_runs db !! job_RunID j = Some r) by (by rewrite Hrid).
      rewrite (Hpr _ _ _ Hj Hrj Hact).
      destruct (active_job_live _ Hwf _ _ _ Hj Hact Hrj) as [Hrs Hatt].
      destruct (C r); [done|]. unfold live in Hl.
      rewrite !bool_decide_eq_true_2 in Hl by congruence. done.
    + intros Hl. destruct (C r) eqn:EC.
      { unfold live in Hl. destruct (Hgt r) as [Hs _].
        rewrite andb_true_iff, !bool_decide_eq_true in Hl. destruct Hl as [_ E]. by rewrite E in Hs. }
      split; [done|]. intros j Hj. apply (ch_elem _ _ _ _ Hc) in Hj as (Hj & Hrid & Hat).
      destruct (p j) eqn:Ep; [|done]. pose proof (Hp _ Ep) as Hact.
      assert (Hrj : db_runs db !! job_RunID j = Some r) by (by rewrite Hrid).
      rewrite (Hpr _ _ _ Hj Hrj Hact) in Ep. congruence.
  - rewrite Hruns. apply one_active_fmap; [|apply Hwf]. intros i r _.
    destruct (HG r) as (_ & _ & -> & _). split; [done|]. destruct (C r); [|done].
    by destruct (Hgt r) as [-> _].
Qed.

End CancelRuns.

Section CancelSafety.
Context `{Collation}.

Lemma update_cancel p now m : update p (cancel_row now) m = cancel_if p now <$> m.
Proof. done. Qed.

Lemma active_of_run_active runID j : active_of_run runID j = true → active_job (job_Status j) = true.
Proof. unfold active_of_run. rewrite andb_true_iff. naive_solver. Qed.

(** ** [CancelRun] *)

Definition cancels_run (runID : string) (r : Run) : bool :=
  bool_decide (run_ID r = runID) && negb (IsTerminalRunStatus (run_Status r)).

(** The database after a committed [CancelRun]. *)
Definition cancel_run_db (runID : string) (now : Z) (db : DB) : DB :=
  set_db_jobs (update (active_of_run runID) (cancel_row now) (db_jobs db))
    (set_db_runs ((λ r, if cancels_run runID r then run_status_row RunStatusCancelled now r else r)
                    <$> db_runs db) db).

Definition run_keyed (runs : gmap string Run) : Prop := ∀ i r, runs !! i = Some r → run_ID r = i.

Lemma alter_run (f : Run → Run) runs id :
  run_keyed runs → alter f id runs = (λ r, if bool_decide (run_ID r = id) then f r else r) <$> runs.
Proof.
  intros Hk. apply map_eq. intros i. rewrite lookup_fmap.
  destruct (decide (i = id)) as [->|Hne].
  - rewrite lookup_alter_eq. destruct (runs !! id) as [x|] eqn:E; simpl; [|done].
    by rewrite bool_decide_eq_true_2 by (by apply Hk).
  - rewrite lookup_alter_ne by done. destruct (runs !! i) as [x|] eqn:E; simpl; [|done].
    rewrite bool_decide_eq_false_2; [done|]. by rewrite (Hk _ _ E).
Qed.

Lemma fmap_same {A} (f : A → A) (m : gmap string A) :
  (∀ i x, m !! i = Some x → f x = x) → f <$> m = m.
Proof.
  intros Hf. apply map_eq. intros i. rewrite lookup_fmap. destruct (m !! i) eqn:E; simpl; [|done].
  f_equal. eauto.
Qed.

Lemma CancelRun_exact env db0 runID :
  run_keyed (db_runs db0) →
  triple true env (λ db, db = db0)
    (CancelRun_body runID)
    (λ _ db, is_Some (db_runs db0 !! runID) ∧ db = cancel_run_db runID (env_now env) db0)
    any_error.
Proof.
  intros Hk. unfold CancelRun_body.
  eapply triple_bind with (Q := λ run db, db_runs db0 !! runID = Some run ∧ db = db0).
  { apply triple_wrap, triple_query_one; [|done|done]. intros db run db' -> [= E <-]. done. }
  intros run. eapply triple_bind with (Q := λ _ db, db_runs db0 !! runID = Some run ∧
    db = set_db_runs ((λ r, if cancels_run runID r
      then run_status_row RunStatusCancelled (env_now env) r else r) <$> db_runs db0) db0).
  { apply triple_when.
    - intros Hc. apply triple_wrap, triple_exec; [|done]. intros db [Hr ->]. split; [done|].
      rewrite (alter_run _ _ _ Hk). f_equal. apply map_fmap_ext. intros i r Hi. unfold cancels_run.
      destruct (decide (run_ID r = runID)) as [Hd|Hd];
        [rewrite !bool_decide_eq_true_2 by done|by rewrite !bool_decide_eq_false_2]. simpl.
      assert (r = run) as -> by (rewrite (Hk _ _ Hi) in Hd; congruence).
      destruct (run_Status run); done.
    - intros Hc db [Hr ->]. split; [done|]. rewrite fmap_same; [by destruct db0|].
      intros i r Hi. unfold cancels_run.
      destruct (decide (run_ID r = runID)) as [Hd|Hd];
        [rewrite !bool_decide_eq_true_2 by done|by rewrite !bool_decide_eq_false_2]. simpl.
      assert (r = run) as -> by (rewrite (Hk _ _ Hi) in Hd; congruence).
      destruct (run_Status run); done. }
  intros ?. eapply triple_bind with (Q := λ _ db, is_Some (db_runs db0 !! runID) ∧
    db = cancel_run_db runID (env_now env) db0); [|intros ?; by apply triple_ret].
  apply triple_wrap, triple_stmt; [|done]. intros db z db' [Hr ->] [= _ <-]. split; [eauto|done].
Qed.

Lemma cancel_run_wf runID now db : wf db → wf (cancel_run_db runID now db).
Proof.
  intros Hwf.
  apply (cancel_runs_wf db _ (cancels_run runID) (run_status_row RunStatusCancelled now) id
           (active_of_run runID) now); try done.
  - apply active_of_run_active.
  - intros i j r Hj Hr Ha. unfold active_of_run, cancels_run. rewrite Ha, andb_true_r.
    destruct (active_job_live _ Hwf _ _ _ Hj Ha Hr) as [-> _].
    rewrite (wf_run_key _ Hwf _ _ Hr). simpl. by rewrite andb_true_r.
  - simpl. by rewrite map_fmap_id.
  - apply Hwf.
Qed.

(** ** [CancelWave] *)

Definition cancels_wave (waveID : string) (w : Wave) : bool :=
  bool_decide (wave_ID w = waveID) && negb (IsTerminalWaveStatus (wave_Status w)).

(** The jobs a committed [CancelWave] cancels: those of the wave's runs. *)
Definition in_wave (db : DB) (waveID : string) (j : Job) : bool :=
  active_job (job_Status j) &&
  match db_runs db !! job_RunID j with
  | Some r => bool_decide (run_WaveID r = waveID)
  | None => false
  end.

Definition cancel_wave_db (waveID : string) (now : Z) (db : DB) : DB :=
  set_db_jobs (update (in_wave db waveID) (cancel_row now) (db_jobs db))
    (set_db_runs (update (active_of_wave waveID) (cancel_run_row now) (db_runs db))
      (set_db_waves ((λ w, if cancels_wave waveID w then wave_status_row WaveStatusCancelled now w else w)
                       <$> db_waves db) db)).

Definition wave_keyed (waves : gmap string Wave) : Prop := ∀ i w, waves !! i = Some w → wave_ID w = i.

Lemma alter_wave (f : Wave → Wave) waves id :
  wave_keyed waves → alter f id waves = (λ w, if bool_decide (wave_ID w = id) then f w else w) <$> waves.
Proof.
  intros Hk. apply map_eq. intros i. rewrite lookup_fmap.
  destruct (decide (i = id)) as [->|Hne].
  - rewrite lookup_alter_eq. destruct (waves !! id) as [x|] eqn:E; simpl; [|done].
    by rewrite bool_decide_eq_true_2 by (by apply Hk).
  - rewrite lookup_alter_ne by done. destruct (waves !! i) as [x|] eqn:E; simpl; [|done].
    rewrite bool_decide_eq_false_2; [done|]. by rewrite (Hk _ _ E).
Qed.

(** The loop over the wave's runs. *)
Definition of_runs (ids : list string) (j : Job) : bool :=
  active_job (job_Status j) && bool_decide (job_RunID j ∈ ids).

Lemma cancel_runs_step ids id now m :
  update (active_of_run id) (cancel_row now) (update (of_runs ids) (cancel_row now) m) =
  update (of_runs (ids ++ [id])) (cancel_row now) m.
Proof.
  apply map_eq. intros i. rewrite !lookup_update. destruct (m !! i) as [j|]; simpl; [|done]. f_equal.
  unfold of_runs, active_of_run. destruct (active_job (job_Status j)) eqn:Ea; simpl.
  - destruct (bool_decide (job_RunID j ∈ ids)) eqn:E1; simpl.
    + rewrite andb_false_r. apply bool_decide_eq_true in E1.
      by rewrite bool_decide_eq_true_2 by set_solver.
    + rewrite Ea, andb_true_r. apply bool_decide_eq_false in E1.
      destruct (decide (job_RunID j = id)) as [->|Hne].
      * by rewrite !bool_decide_eq_true_2 by set_solver.
      * by rewrite !bool_decide_eq_false_2 by set_solver.
  - by rewrite Ea, andb_false_r.
Qed.

Lemma cancel_runs_loop env db0 msg (runs : list Run) past :
  triple true env (λ db, db = set_db_jobs (update (of_runs past) (cancel_row (env_now env)) (db_jobs db0)) db0)
    (for_each runs (λ run, wrap msg (CancelActiveJobsByRun (run_ID run)) ;; mret tt))
    (λ _ db, db = set_db_jobs (update (of_runs (past ++ (run_ID <$> runs))) (cancel_row (env_now env)) (db_jobs db0)) db0)
    any_error.
Proof.
  revert past; induction runs as [|r runs IH]; intros past; simpl.
  { apply triple_ret. intros db ->. by rewrite app_nil_r. }
  eapply triple_bind with (Q := λ _ db,
    db = set_db_jobs (update (of_runs (past ++ [run_ID r])) (cancel_row (env_now env)) (db_jobs db0)) db0).
  - eapply triple_bind with (Q := λ _ db,
      db = set_db_jobs (update (of_runs (past ++ [run_ID r])) (cancel_row (env_now env)) (db_jobs db0)) db0);
      [|intros ?; by apply triple_ret].
    apply triple_wrap, triple_stmt; [|done]. intros db z db' -> [= _ <-]. simpl.
    by rewrite cancel_runs_step.
  - intros _. eapply triple_conseq; [apply (IH (past ++ [run_ID r]))|naive_solver| |naive_solver].
    intros _ db ->. by rewrite <-app_assoc.
Qed.

Lemma wave_runs_elem db waveID r :
  r ∈ wave_runs db waveID ↔ run_WaveID r = waveID ∧ ∃ i, db_runs db !! i = Some r.
Proof. unfold wave_runs. rewrite elem_of_select, bool_decide_eq_true. done. Qed.

Lemma of_wave_runs db waveID now j :
  run_keyed (db_runs db) →
  of_runs (run_ID <$> wave_runs (set_db_runs (update (active_of_wave waveID) (cancel_run_row now) (db_runs db)) db) waveID) j
  = in_wave db waveID j.
Proof.
  intros Hk. unfold of_runs, in_wave. f_equal. apply eq_true_iff_eq. rewrite bool_decide_eq_true.
  rewrite list_elem_of_fmap. setoid_rewrite wave_runs_elem. simpl. setoid_rewrite lookup_update. split.
  - intros (r' & -> & Hw & i & Hi). apply fmap_Some in Hi as (r & Hr & ->).
    assert (E : run_ID (if active_of_wave waveID r then cancel_run_row now r else r) = run_ID r)
      by (by destruct (active_of_wave waveID r)).
    rewrite E, (Hk _ _ Hr), Hr. apply bool_decide_eq_true. by destruct (active_of_wave waveID r).
  - destruct (db_runs db !! job_RunID j) as [r|] eqn:Er; [|done]. intros Hw%bool_decide_eq_true.
    exists (if active_of_wave waveID r then cancel_run_row now r else r).
    pose proof (Hk _ _ Er). split_and!; [by destruct (active_of_wave waveID r)|by destruct (active_of_wave waveID r)|].
    exists (job_RunID j). by rewrite Er.
Qed.

Lemma CancelWave_exact env db0 waveID :
  run_keyed (db_runs db0) → wave_keyed (db_waves db0) →
  triple true env (λ db, db = db0) (CancelWave_body waveID)
    (λ _ db, is_Some (db_waves db0 !! waveID) ∧ db = cancel_wave_db waveID (env_now env) db0) any_error.
Proof.
  intros Hk Hwk. unfold CancelWave_body.
  set (V := λ w, if cancels_wave waveID w then wave_status_row WaveStatusCancelled (env_now env) w else w).
  set (db1 := set_db_waves (V <$> db_waves db0) db0).
  set (db2 := set_db_runs (update (active_of_wave waveID) (cancel_run_row (env_now env)) (db_runs db0)) db1).
  eapply triple_bind with (Q := λ wave db, db_waves db0 !! waveID = Some wave ∧ db = db0).
  { apply triple_wrap, triple_query_one; [|done|done]. intros db w db' -> [= E <-]. done. }
  intros wave. eapply triple_bind with (Q := λ _ db, is_Some (db_waves db0 !! waveID) ∧ db = db1).
  { assert (HVw : ∀ i w, db_waves db0 !! i = Some w → db_waves db0 !! waveID = Some wave →
      wave_ID w = waveID → w = wave) by (intros i w Hi Hw Hd; rewrite (Hwk _ _ Hi) in Hd; congruence).
    apply triple_when.
    - intros Hc. apply triple_wrap, triple_exec; [|done]. intros db [Hr ->]. split; [eauto|].
      rewrite (alter_wave _ _ _ Hwk). unfold db1. f_equal. apply map_fmap_ext. intros i w Hi.
      unfold V, cancels_wave. destruct (decide (wave_ID w = waveID)) as [Hd|Hd];
        [rewrite !bool_decide_eq_true_2 by done|by rewrite !bool_decide_eq_false_2]. simpl.
      rewrite (HVw _ _ Hi Hr Hd). destruct (wave_Status wave); done.
    - intros Hc db [Hr ->]. split; [eauto|]. unfold db1. rewrite fmap_same; [by destruct db0|].
      intros i w Hi. unfold V, cancels_wave. destruct (decide (wave_ID w = waveID)) as [Hd|Hd];
        [rewrite !bool_decide_eq_true_2 by done|by rewrite !bool_decide_eq_false_2]. simpl.
      rewrite (HVw _ _ Hi Hr Hd). destruct (wave_Status wave); done. }
  intros ?. eapply triple_bind with (Q := λ _ db, is_Some (db_waves db0 !! waveID) ∧ db = db2).
  { apply triple_wrap, triple_stmt; [|done]. by intros db z db' [Hr ->] [= _ <-]. }
  intros ?. eapply triple_bind with (Q := λ runs db, is_Some (db_waves db0 !! waveID) ∧
    runs = wave_runs db2 waveID ∧ db = db2).
  { apply triple_wrap, triple_query; [|done]. by intros db [Hr ->]. }
  intros runs. pose proof (cancel_runs_loop env db2 "cancel wave: cancel jobs" runs []) as Hloop.
  apply triple_pure; [eapply triple_behaved, Hloop|]. intros Hsome.
  apply triple_pure; [eapply triple_behaved, Hloop|]. intros ->.
  eapply triple_conseq; [exact Hloop| | |done].
  - intros db ->. unfold update. rewrite fmap_same; [done|].
    intros i j _. unfold of_runs. rewrite bool_decide_eq_false_2 by set_solver. by rewrite andb_false_r.
  - intros _ db ->. split; [done|].
    assert (E : update (of_runs ([] ++ (run_ID <$> wave_runs db2 waveID))) (cancel_row (env_now env)) (db_jobs db2)
      = update (in_wave db0 waveID) (cancel_row (env_now env)) (db_jobs db0)).
    { unfold update. apply map_fmap_ext. intros i j _. by rewrite <-(of_wave_runs db0 waveID (env_now env)). }
    by rewrite E.
Qed.

Lemma cancel_wave_wf waveID now db : wf db → wf (cancel_wave_db waveID now db).
Proof.
  intros Hwf.
  apply (cancel_runs_wf db _ (active_of_wave waveID) (cancel_run_row now)
           (λ w, if cancels_wave waveID w then wave_status_row WaveStatusCancelled now w else w)
           (in_wave db waveID) now); try done.
  - intros w. by destruct (cancels_wave waveID w).
  - intros j. unfold in_wave. rewrite andb_true_iff. naive_solver.
  - intros i j r Hj Hr Ha. unfold in_wave, active_of_wave. rewrite Ha, Hr.
    destruct (active_job_live _ Hwf _ _ _ Hj Ha Hr) as [-> _]. simpl. by rewrite andb_true_r.
  - intros i w Hw. destruct (cancels_wave waveID w); [|by eapply wf_wave]. unfold wave_ok; simpl.
    split; [done|eauto].
  - intros i r w Hr HC Hw Hrs Hs. unfold active_of_wave in HC. rewrite Hrs, andb_true_r in HC.
    apply bool_decide_eq_false in HC. unfold cancels_wave.
    rewrite bool_decide_eq_false_2; [done|]. by rewrite (wf_wave_key _ Hwf _ _ Hw).
Qed.

(** ** Preservation *)

Lemma CancelRun_triple env runID :
  triple false env wf (CancelRun runID) (λ _, wf) (λ _, wf).
Proof.
  unfold CancelRun. apply triple_transaction; [|done].
  apply triple_pre.
  - eapply triple_behaved, (CancelRun_exact env empty_db). by intros i r.
  - intros db0 Hwf. eapply triple_conseq; [apply (CancelRun_exact _ _ _ (wf_run_key _ Hwf))|done| |done].
    intros _ db [_ ->]. by apply cancel_run_wf.
Qed.

Lemma CancelWave_triple env waveID :
  triple false env wf (CancelWave waveID) (λ _, wf) (λ _, wf).
Proof.
  unfold CancelWave. apply triple_transaction; [|done].
  apply triple_pre.
  - eapply triple_behaved, (CancelWave_exact env empty_db); by intros i r.
  - intros db0 Hwf. eapply triple_conseq; [apply (CancelWave_exact _ _ _ (wf_run_key _ Hwf) (wf_wave_key _ Hwf))|done| |done].
    intros _ db [_ ->]. by apply cancel_wave_wf.
Qed.

End CancelSafety.
