(* ===== verification/LaunchSafety.v ===== *)
(** * Launching: new waves, runs and attempts

    [createPlannedJobs] inserts a chain tail first; a committed launch adds a
    running run with such a chain, a full restart adds the chain of a new attempt.
    Both keep the invariant. *)

From stdpp Require Import base gmap sets list sorting strings.
From S2P Require Import Prelude GoStrings Types Json Db Tx Queries JobChain Lifecycle Store.
From S2P Require Import Chains Invariant CancelSafety.
From Stdlib Require Import ZArith Lia.
Local Open Scope list_scope.

(** ** The chain [createPlannedJobs] builds *)

Inductive built (run : Run) : nat → list (string * JobPlan) → list Job → Prop :=
| built_nil i : built run i [] []
| built_cons i id p meta rest js :
    jp_Meta p = RawJson meta → built run (S i) rest js →
    built run i ((id, p) :: rest) (new_job (planned_job run i id (fst <$> head rest) p) meta :: js).

(** The jobs of a chain carry the names of their plans. *)
Lemma built_names run i zs js : built run i zs js → job_Name <$> js = jp_Name ∘ snd <$> zs.
Proof. induction 1; simpl; [done|]. by f_equal. Qed.

Lemma zip_gen_snd (gen : nat → string) (jobs : list JobPlan) :
  (zip (gen <$> seq 0 (length jobs)) jobs).*2 = jobs.
Proof. apply snd_zip. by rewrite length_fmap, length_seq. Qed.

Definition pairs (c : list Job) : list (string * Job) := (λ j, (job_ID j, j)) <$> c.

Section Built.
Context (run : Run).

Lemma built_ids i zs js : built run i zs js → job_ID <$> js = zs.*1.
Proof. induction 1; simpl; [done|]. by f_equal. Qed.

Lemma built_head i zs js : built run i zs js → job_ID <$> head js = fst <$> head zs.
Proof. by destruct 1. Qed.

Lemma built_linked i zs js : built run i zs js → linked job_ID job_NextID js.
Proof.
  induction 1 as [i|i id p meta rest js Hm Hb IH]; [by intros k x|].
  intros [|k] x Hx; simpl in *; [|by apply IH].
  injection Hx as <-. simpl. rewrite <-(built_head _ _ _ Hb). by destruct js.
Qed.

Lemma built_jobs i zs js :
  built run i zs js → Forall (λ j, job_RunID j = run_ID run ∧ job_Attempt j = run_Attempt run ∧
    job_NodeID j = None ∧ job_Status j ≠ JobStatusSuccess ∧ ∀ nodes, job_ok nodes j) js.
Proof.
  induction 1 as [i|i id p meta rest js Hm Hb IH]; constructor; [|done].
  simpl. split_and!; try done; [by case_decide|]. intros nodes.
  split; simpl; try done; by case_decide.
Qed.

Lemma built_created i zs js :
  built run (S i) zs js → Forall (λ s, s = JobStatusCreated) (job_Status <$> js).
Proof.
  remember (S i) as k eqn:Hk. intros Hb. revert i Hk.
  induction Hb as [k|k id p meta rest js Hm Hb IH]; intros i ->; simpl; constructor; eauto.
Qed.

Lemma built_live zs js : built run 0 zs js → js ≠ [] → live_shape (job_Status <$> js).
Proof.
  intros Hb Hne. inversion Hb as [|i id p meta rest js' Hm Hb']; subst; [done|]. simpl.
  apply live_here; [by left|]. by eapply built_created.
Qed.

Lemma built_attempt_ok zs js : built run 0 zs js → js ≠ [] → attempt_ok true js.
Proof.
  intros Hb Hne. pose proof (built_jobs _ _ _ Hb) as Hj. rewrite Forall_forall in Hj.
  split; [done|by eapply built_live| |].
  - intros j1 j2 n1 n2 H1 _ E1. destruct (Hj _ H1) as (_ & _ & E & _). congruence.
  - intros k x y Hx _ Hs. destruct (Hj x) as (_ & _ & _ & E & _); [|done].
    by eapply list_elem_of_lookup_2.
Qed.

(** The first job starts at the run's commit, the others have no input yet. *)
Lemma built_sha_in zs j js : built run 0 zs (j :: js) → job_RepoShaIn j = run_RepoSha0 run.
Proof. by inversion 1. Qed.

End Built.

Section Launch.
Context `{Collation}.

Definition chain_inserted (db0 : DB) (js : list Job) (db : DB) : Prop :=
  NoDup (job_ID <$> js) ∧ (∀ j, j ∈ js → db_jobs db0 !! job_ID j = None) ∧
  db = set_db_jobs (list_to_map (pairs js) ∪ db_jobs db0) db0.

Lemma set_db_jobs_id db : set_db_jobs (db_jobs db) db = db.
Proof. by destruct db. Qed.

Lemma pairs_fst js : (pairs js).*1 = job_ID <$> js.
Proof. unfold pairs. by rewrite <-list_fmap_compose. Qed.

Lemma create_from_triple env db0 run i zs :
  triple true env (λ db, db = db0) (create_from run i zs)
    (λ js db, built run i zs js ∧ chain_inserted db0 js db) any_error.
Proof.
  revert i; induction zs as [|[id p] rest IH]; intros i; simpl.
  { apply triple_ret. intros db ->. split; [constructor|]. split_and!; [apply NoDup_nil_2|set_solver|].
    simpl. by rewrite (left_id_L ∅ (∪)), set_db_jobs_id. }
  eapply triple_bind; [apply IH|]. intros js. simpl.
  eapply triple_bind with (Q := λ j db, built run i ((id, p) :: rest) (j :: js) ∧
    chain_inserted db0 (j :: js) db); [|intros j; by apply triple_ret].
  apply triple_wrap, triple_stmt; [|done]. intros db j db' (Hb & Hn & Hfree & ->). simpl.
  destruct (jp_Meta p) as [| |meta] eqn:Em; [done|done|].
  case_decide as Hd; [done|]. case_decide; [done|]. case_decide; [done|].
  assert (Hres : ∀ j', j' = new_job (planned_job run i id (fst <$> head rest) p) meta →
    built run i ((id, p) :: rest) (j' :: js) ∧
    chain_inserted db0 (j' :: js) (set_db_jobs (<[id := j']> (list_to_map (pairs js) ∪ db_jobs db0)) db0)).
  { intros j' ->. split; [by constructor|].
    rewrite <-eq_None_not_Some, lookup_union_None in Hd. destruct Hd as [Hd1 Hd2].
    apply not_elem_of_list_to_map in Hd1. rewrite pairs_fst in Hd1.
    split_and!.
    - simpl. by apply NoDup_cons.
    - intros x [->|Hx]%elem_of_cons; [done|auto].
    - simpl. by rewrite insert_union_l. }
  destruct (fst <$> head rest) as [n|] eqn:En; [case_decide; [done|]|];
    intros [= <- <-]; by apply Hres.
Qed.

Lemma createPlannedJobs_triple env db0 gen run jobs :
  triple true env (λ db, db = db0) (createPlannedJobs gen run jobs)
    (λ js db, js ≠ [] ∧ built run 0 (zip (gen <$> seq 0 (length jobs)) jobs) js ∧
      chain_inserted db0 js db) any_error.
Proof.
  unfold createPlannedJobs. destruct jobs as [|p jobs]; [by apply triple_throw|].
  destruct (forallb _ _); [|by apply triple_throw].
  eapply triple_conseq; [apply (create_from_triple env db0)|done| |done].
  intros js db [Hb Hi]. split_and!; [|done|done]. intros ->. inversion Hb.
Qed.

(** ** The invariant after a launch *)

Section LaunchWf.
Context (db db' : DB) (rid : string) (r' : Run) (c : list Job) (V : Wave → Wave).
Context (Hwf : wf db).
Context (Hjobs : db_jobs db' = list_to_map (pairs c) ∪ db_jobs db).
Context (Hruns : db_runs db' = <[rid := r']> (db_runs db)).
Context (Hwaves : db_waves db' = V <$> db_waves db).
Context (Hnodes : db_nodes db' = db_nodes db).
Context (Hrepos : db_repos db' = db_repos db).
Context (Hrepo : is_Some (db_repos db !! run_RepoID r')).
Context (Hold : match db_runs db !! rid with
                | None => run_Attempt r' = 1%Z
                | Some r => run_Status r ≠ RunStatusRunning ∧ run_Attempt r' = (run_Attempt r + 1)%Z
                end).
Context (Hrid : run_ID r' = rid) (Hrun : run_Status r' = RunStatusRunning).
Context (Hrok : run_ok (db_waves db') r').
Context (Hfree : ∀ i r, db_runs db !! i = Some r → run_RepoID r = run_RepoID r' →
                   active_run (run_Status r) = false).
Context (Hfresh : ∀ j, j ∈ c → db_jobs db !! job_ID j = None).
Context (Hnz : ∀ j, j ∈ c → IsZero (job_ID j) = false).
Context (Hrows : Forall (λ j, job_RunID j = rid ∧ job_Attempt j = run_Attempt r' ∧
                              ∀ nodes, job_ok nodes j) c).
Context (Hnodup : NoDup (job_ID <$> c)) (Hlinked : linked job_ID job_NextID c).
Context (Hatt : attempt_ok true c).
Context (HVid : ∀ w, wave_ID (V w) = wave_ID w).
Context (HVok : ∀ i w, db_waves db !! i = Some w → wave_ok (V w)).
Context (HVst : ∀ w, wave_Status w = WaveStatusStarted → wave_Status (V w) = WaveStatusStarted).

Lemma launch_lookup i j :
  db_jobs db' !! i = Some j ↔ (j ∈ c ∧ job_ID j = i) ∨ db_jobs db !! i = Some j.
Proof using Type*.
  rewrite Hjobs, lookup_union_Some_raw.
  assert (Hl : (list_to_map (pairs c) : gmap string Job) !! i = Some j ↔ j ∈ c ∧ job_ID j = i).
  { rewrite <-elem_of_list_to_map by (by rewrite pairs_fst). unfold pairs.
    rewrite list_elem_of_fmap. naive_solver. }
  rewrite Hl. split; [naive_solver|]. intros [?|Hj]; [by left|]. right. split; [|done].
  apply not_elem_of_list_to_map. rewrite pairs_fst. intros (x & -> & Hx)%list_elem_of_fmap.
  rewrite (Hfresh _ Hx) in Hj. done.
Qed.

Lemma launch_no_jobs i j :
  db_jobs db !! i = Some j → job_RunID j = rid → job_Attempt j ≠ run_Attempt r'.
Proof using Type*.
  intros Hj Hr. destruct (wf_job_run _ Hwf _ _ Hj) as (r & Hrr & Ha). rewrite Hr in Hrr.
  pose proof Hold as Hold'. rewrite Hrr in Hold'. destruct Hold'. lia.
Qed.

Lemma launch_chain_new : chain_of (db_jobs db') rid (run_Attempt r') c.
Proof using Type*.
  pose proof Hrows as Hrows'. rewrite Forall_forall in Hrows'.
  rewrite Hjobs. apply chain_of_new; [|intros j Hj|done|done].
  - intros i j. apply launch_no_jobs.
  - destruct (Hrows' _ Hj) as (? & ? & _). auto.
Qed.

Lemma launch_chain_old i a d :
  chain_of (db_jobs db) i a d → (i, a) ≠ (rid, run_Attempt r') → chain_of (db_jobs db') i a d.
Proof using Type*.
  intros Hd Hne. eapply chain_of_other; [exact Hd|]. intros k j Hr Ha. rewrite launch_lookup.
  split; [|by right]. intros [[Hj _]|?]; [|done].
  pose proof Hrows as Hrows'. rewrite Forall_forall in Hrows'.
  destruct (Hrows' _ Hj) as (E1 & E2 & _). congruence.
Qed.

Lemma launch_wf : wf db'.
Proof using Type*.
  pose proof Hrows as Hrows'. rewrite Forall_forall in Hrows'.
  assert (Hrl : ∀ i r, db_runs db' !! i = Some r ↔ (i = rid ∧ r = r') ∨ (i ≠ rid ∧ db_runs db !! i = Some r)).
  { intros i r. rewrite Hruns, lookup_insert_Some. naive_solver. }
  split.
  - intros i j [[Hj <-]|Hj]%launch_lookup; [split; auto|by apply Hwf].
  - intros i r [[-> ->]|[_ Hr]]%Hrl; [done|by eapply wf_run_key].
  - intros i w. rewrite Hwaves, lookup_fmap, fmap_Some. intros (x & Hx & ->).
    rewrite HVid. by eapply wf_wave_key.
  - rewrite Hnodes. apply Hwf.
  - intros i j. rewrite Hnodes. intros [[Hj <-]|Hj]%launch_lookup; [by apply Hrows'|by eapply wf_job].
  - intros i j. intros [[Hj <-]|Hj]%launch_lookup.
    + destruct (Hrows' _ Hj) as (-> & -> & _). exists r'. rewrite Hruns, lookup_insert_eq.
      split; [done|]. pose proof (ro_attempt _ _ Hrok). lia.
    + destruct (wf_job_run _ Hwf _ _ Hj) as (r & Hr & Ha).
      destruct (decide (job_RunID j = rid)) as [Hd|Hd].
      * exists r'. rewrite Hruns, Hd, lookup_insert_eq. split; [done|].
        pose proof Hold as Hold'. rewrite <-Hd, Hr in Hold'. destruct Hold'. lia.
      * exists r. rewrite Hruns, lookup_insert_ne by done. done.
  - intros i r [[-> ->]|[_ Hr]]%Hrl; [done|]. rewrite Hwaves.
    apply wave_lookup_id; [by eapply wf_run|auto].
  - intros i r. rewrite Hrepos. intros [[-> ->]|[_ Hr]]%Hrl; [done|by eapply wf_repo].
  - intros i w. rewrite Hwaves, lookup_fmap, fmap_Some. intros (x & Hx & ->). eauto.
  - intros i r a [[-> ->]|[Hd Hr]]%Hrl Ha.
    + destruct (decide (a = run_Attempt r')) as [->|Hne].
      { exists c. split; [apply launch_chain_new|]. unfold live.
        by rewrite !bool_decide_eq_true_2. }
      pose proof Hold as Hold'.
      assert (Hc : (∃ r, db_runs db !! rid = Some r) ∨ db_runs db !! rid = None)
        by (destruct (db_runs db !! rid); eauto).
      destruct Hc as [[r Er]|Er]; rewrite Er in Hold'; [|lia]. destruct Hold' as [Hs Hat].
      destruct (wf_attempt _ Hwf rid r a Er) as (d & Hdc & Hdok); [lia|].
      exists d. split; [apply launch_chain_old; congruence|].
      unfold live in *. rewrite (bool_decide_eq_false_2 (a = _)) by done. simpl.
      rewrite (bool_decide_eq_false_2 (run_Status r = _)) in Hdok by done.
      by rewrite andb_false_r in Hdok.
    + destruct (wf_attempt _ Hwf i r a Hr Ha) as (d & Hdc & Hdok).
      exists d. split; [apply launch_chain_old; congruence|done].
  - intros i1 i2 r1 r2 [[-> ->]|[Hn1 H1]]%Hrl [[-> ->]|[Hn2 H2]]%Hrl Hsame Ha1 Ha2; [done|..].
    + rewrite (Hfree _ _ H2) in Ha2; [done|congruence].
    + rewrite (Hfree _ _ H1) in Ha1; done.
    + by eapply wf_one_active.
Qed.

End LaunchWf.

(** The guard that no other run of the repository is active. *)
Lemma active_repo_run_None db repoID :
  is_Some (db_repos db !! repoID) → active_repo_run db repoID = None →
  ∀ i r, db_runs db !! i = Some r → run_RepoID r = repoID → active_run (run_Status r) = false.
Proof.
  unfold active_repo_run. intros [repo ->].
  destruct (select _ _ _) as [|x l] eqn:E; [|done]. intros _ i r Hr Hrepo.
  destruct (active_run (run_Status r)) eqn:Ea; [|done]. exfalso.
  assert (Hin : r ∈ select (active_of_repo repoID) by_created_id (db_runs db)).
  { apply elem_of_select. split; [|eauto]. unfold active_of_repo. rewrite Ea, andb_true_r.
    by apply bool_decide_eq_true. }
  rewrite E in Hin. by apply elem_of_nil in Hin.
Qed.

Lemma requireRepo_triple env (P : DB → Prop) repoID :
  triple true env P (requireRepoWithoutActiveRun repoID)
    (λ _ db, P db ∧ active_repo_run db repoID = None) any_error.
Proof.
  unfold requireRepoWithoutActiveRun.
  eapply triple_bind with (Q := λ r db, P db ∧ r = active_repo_run db repoID).
  - apply triple_wrap, triple_query; [|done]. auto.
  - intros [[runID url]|]; [by apply triple_throw|]. apply triple_ret. naive_solver.
Qed.


(** ** [CreateWaveWithRuns] *)

Definition wave_ready (wave : CreateWaveParams) (db : DB) : Prop :=
  ∃ w, db_waves db !! cw_ID wave = Some w ∧ wave_Status w = WaveStatusStarted.

(** What a committed [insertRun] checked and wrote. *)
Lemma insertRun_triple env db0 wave plan :
  triple true env (λ db, db = db0) (insertRun wave plan)
    (λ r db, is_Some (db_repos db0 !! rp_RepoID plan) ∧ db_runs db0 !! rp_ID plan = None ∧
       r = new_run wave plan (stats_or_empty (rp_Stats plan)) (env_now env) ∧
       db = set_db_runs (<[rp_ID plan := r]> (db_runs db0)) db0) any_error.
Proof.
  unfold insertRun. destruct (negb _); [by apply triple_throw|].
  apply triple_stmt; [|done]. intros db r db' ->.
  repeat (case_decide; [done|]). destruct (negb (member _ _ _)); [done|]. intros [= <- <-]. split_and!; [|by apply eq_None_not_Some|done|done].
  destruct (db_repos db0 !! rp_RepoID plan); naive_solver.
Qed.

Lemma zip_gen_nonzero gen (jobs : list JobPlan) run js :
  (∀ k, IsZero (gen k) = false) → built run 0 (zip (gen <$> seq 0 (length jobs)) jobs) js →
  ∀ j, j ∈ js → IsZero (job_ID j) = false.
Proof.
  intros Hg Hb j Hj. assert (Hin : job_ID j ∈ job_ID <$> js) by (apply list_elem_of_fmap; eauto).
  rewrite (built_ids _ _ _ _ Hb) in Hin. apply list_elem_of_fmap in Hin as ([x p] & -> & Hin).
  apply elem_of_zip_l, list_elem_of_fmap in Hin as (k & -> & _). apply Hg.
Qed.

Lemma create_one_run_triple env gen wave plan :
  (∀ k, IsZero (gen k) = false) →
  triple true env (λ db, wf db ∧ wave_ready wave db)
    (requireRepoWithoutActiveRun (rp_RepoID plan) ;;
     run ← wrap "create wave with runs: create run" (insertRun wave plan);
     jobs ← wrap "create wave with runs: create jobs" (createPlannedJobs gen run (rp_Jobs plan));
     mret (run, jobs))
    (λ _ db, wf db ∧ wave_ready wave db) any_error.
Proof.
  intros Hgen.
  eapply triple_bind; [apply requireRepo_triple|]. intros ?.
  apply triple_pre.
  { eapply triple_bind; [apply triple_wrap; eapply triple_behaved, (insertRun_triple env empty_db)|].
    intros run. eapply triple_bind;
      [apply triple_wrap; eapply triple_behaved, (createPlannedJobs_triple env empty_db)|].
    intros ?. by apply triple_ret. }
  intros db0 [[Hwf Hready] Hnone].
  eapply triple_bind; [apply triple_wrap, insertRun_triple|]. intros run.
  set (db1 := set_db_runs (<[rp_ID plan := run]> (db_runs db0)) db0).
  apply triple_pre.
  { eapply triple_bind;
      [apply triple_wrap; eapply triple_behaved, (createPlannedJobs_triple env empty_db)|].
    intros ?. by apply triple_ret. }
  intros db (Hrepo & Hnorun & Hrun & ->).
  eapply triple_bind; [apply triple_wrap, (createPlannedJobs_triple env db1)|]. intros js.
  apply triple_ret. intros db (Hne & Hb & Hnd & Hfresh & ->).
  destruct Hready as (w & Hw & Hws). split; [|exists w; done].
  pose proof (built_jobs _ _ _ _ Hb) as Hrows.
  apply (launch_wf db0 _ (rp_ID plan) run js id); try done; simpl; rewrite ?map_fmap_id; try done.
  - by rewrite Hrun.
  - rewrite Hnorun. by rewrite Hrun.
  - by rewrite Hrun.
  - by rewrite Hrun.
  - rewrite Hrun. split; simpl; try done. exists w. done.
  - intros i r Hr Hrr. rewrite Hrun in Hrr. by eapply active_repo_run_None.
  - by eapply zip_gen_nonzero.
  - eapply Forall_impl; [exact Hrows|]. intros j (E1 & E2 & _ & _ & Hok). split_and!; try done.
    rewrite E1. by rewrite Hrun.
  - by eapply built_linked.
  - by eapply built_attempt_ok.
  - apply Hwf.
Qed.

Lemma create_runs_triple env wave plans gen :
  (∀ k, IsZero (gen k) = false) →
  triple true env (λ db, wf db ∧ wave_ready wave db) (create_runs gen wave plans)
    (λ _ db, wf db ∧ wave_ready wave db) any_error.
Proof.
  revert gen; induction plans as [|plan rest IH]; intros gen Hgen; simpl; [by apply triple_ret|].
  (* the iteration, then the rest *)
  intros t r t' Hrun.
  refine (triple_bind true env
    (requireRepoWithoutActiveRun (rp_RepoID plan) ;;
     run ← wrap "create wave with runs: create run" (insertRun wave plan);
     jobs ← wrap "create wave with runs: create jobs" (createPlannedJobs gen run (rp_Jobs plan));
     mret (run, jobs))
    (λ rj, others ← create_runs (gen_from gen (length (rp_Jobs plan))) wave rest;
           mret (rj :: others)) (λ db, wf db ∧ wave_ready wave db)
    (λ _ db, wf db ∧ wave_ready wave db) (λ _ db, wf db ∧ wave_ready wave db) any_error _ _ t r t' _).
  - by apply create_one_run_triple.
  - intros rj. eapply triple_bind; [apply IH; intros k; apply Hgen|]. intros ?. by apply triple_ret.
  - rewrite <-Hrun. unfold mbind, M_bind. destruct (requireRepoWithoutActiveRun _ t) as [[e|[]] t1]; [done|].
    destruct (wrap _ (insertRun _ _) t1) as [[e|run] t2]; [done|].
    destruct (wrap _ (createPlannedJobs _ _ _) t2) as [[e|js] t3]; done.
Qed.

Lemma CreateWave_triple env wave :
  triple true env wf (CreateWave wave) (λ _ db, wf db ∧ wave_ready wave db) any_error.
Proof.
  apply triple_stmt; [|done]. intros db w db' Hwf.
  case_decide as Hd; [done|]. repeat (case_decide; [done|]). intros [= <- <-].
  apply eq_None_not_Some in Hd.
  split; [|eexists; simpl; by rewrite lookup_insert_eq].
  split; simpl; try apply Hwf.
  - intros i w [[<- <-]|[_ Hw]]%lookup_insert_Some; [done|by eapply wf_wave_key].
  - intros i r Hr. destruct (wf_run _ Hwf _ _ Hr) as [? ? ? (w & Hw & Hs)]. split; try done.
    exists w. rewrite lookup_insert_ne by congruence. done.
  - intros i w [[<- <-]|[_ Hw]]%lookup_insert_Some; [|by eapply wf_wave]. split; [by intros [? ?]|done].
Qed.

(** The statements of the transaction. *)
Definition launch_body (gen : nat → string) (wave : CreateWaveParams) (plans : list RunPlan) :
    M (Wave * list (Run * list Job)) :=
  wrap "create wave with runs: lock repositories" (lockRunRepositories (rp_RepoID <$> plans)) ;;
  w ← wrap "create wave with runs: create wave" (CreateWave wave);
  m ← create_runs gen wave plans;
  mret (w, m).

Lemma launch_body_triple env gen wave plans :
  (∀ k, IsZero (gen k) = false) →
  triple true env wf (launch_body gen wave plans) (λ _, wf) any_error.
Proof.
  intros Hgen. unfold launch_body. eapply triple_bind with (Q := λ _, wf).
  { apply triple_wrap, triple_query; [done|done]. }
  intros ?. eapply triple_bind; [apply triple_wrap, CreateWave_triple|]. intros w.
  eapply triple_bind; [by apply create_runs_triple|]. intros m. apply triple_ret. naive_solver.
Qed.

Lemma CreateWaveWithRuns_triple env gen wave plans :
  (∀ k, IsZero (gen k) = false) →
  triple false env wf (CreateWaveWithRuns gen wave plans) (λ _, wf) (λ _, wf).
Proof.
  intros Hgen. unfold CreateWaveWithRuns. destruct plans as [|plan rest]; [by apply triple_throw|].
  apply triple_transaction; [|done]. by apply launch_body_triple.
Qed.

End Launch.

(** * Launches that succeed

    When nothing stands in the way (fresh identifiers, known project and
    repositories, no active run of any of them) a launch without faults returns, and
    adds exactly the planned rows: one run per plan with its chain of jobs. *)

Section Exact.
Context `{Collation} (env : Env).

(** ** One chain *)

Definition known_meta (p : JobPlan) : Prop := ∃ meta, jp_Meta p = RawJson meta.

Lemma create_from_total db0 run i zs :
  is_Some (db_runs db0 !! run_ID run) → is_Some (db_repos db0 !! run_RepoID run) →
  Forall (λ z, db_jobs db0 !! z.1 = None ∧ known_meta z.2) zs → NoDup zs.*1 →
  Tx.total env (λ db, db = db0) (create_from run i zs)
    (λ js db, built run i zs js ∧ chain_inserted db0 js db).
Proof using Type.
  intros Hr Hp. revert i. induction zs as [|[id p] rest IH]; intros i Hz Hnd; simpl.
  { apply total_ret. intros db ->. split; [constructor|]. split_and!; [apply NoDup_nil_2|set_solver|].
    simpl. by rewrite (left_id_L ∅ (∪)), set_db_jobs_id. }
  apply Forall_cons in Hz as [[Hfree [meta Hm]] Hz]. simpl in Hfree, Hm. rewrite fmap_cons, NoDup_cons in Hnd. destruct Hnd as [Hid Hnd].
  eapply total_bind; [by apply IH|]. intros js. simpl.
  set (j := new_job (planned_job run i id (fst <$> head rest) p) meta).
  eapply total_bind with (Q := λ x db, x = j ∧ built run i ((id, p) :: rest) (j :: js) ∧ chain_inserted db0 (j :: js) db);
    [|intros x; apply total_ret; by intros db (-> & ? & ?)].
  apply total_wrap, total_stmt. intros db (Hb & Hn & Hfresh & ->). simpl. rewrite Hm.
  pose proof (built_ids _ _ _ _ Hb) as Hids. simpl in Hid.
  assert (Hnew : (list_to_map (pairs js) ∪ db_jobs db0) !! id = None).
  { apply lookup_union_None. split; [|done]. apply not_elem_of_list_to_map. by rewrite pairs_fst, Hids. }
  rewrite decide_False by (rewrite Hnew; by intros []).
  rewrite decide_False by (destruct Hr as [? ->]; done). rewrite decide_False by (destruct Hp as [? ->]; done).
  exists j, (set_db_jobs (<[id := j]> (list_to_map (pairs js) ∪ db_jobs db0)) db0).
  split; [|split; [done|split; [by constructor|split_and!]]].
  - destruct (fst <$> head rest) as [n|] eqn:En; [|done]. rewrite decide_False; [done|].
    rewrite <-(built_head _ _ _ _ Hb) in En. destruct js as [|j' js']; [done|]. injection En as <-.
    simpl. rewrite <-insert_union_l, lookup_insert_eq. done.
  - rewrite fmap_cons. apply NoDup_cons. rewrite Hids. done.
  - intros x [->|Hx]%elem_of_cons; [done|auto].
  - simpl. by rewrite insert_union_l.
Qed.

(** Identifiers: distinct, and not in use. *)
Definition unused (gen : nat → string) (db : DB) : Prop :=
  (∀ k l, gen k = gen l → k = l) ∧ ∀ k, db_jobs db !! gen k = None.

Lemma zip_fst_seq (gen : nat → string) (jobs : list JobPlan) :
  (zip (gen <$> seq 0 (length jobs)) jobs).*1 = gen <$> seq 0 (length jobs).
Proof using Type. apply fst_zip. by rewrite length_fmap, length_seq. Qed.

Lemma createPlannedJobs_total db0 gen run jobs :
  is_Some (db_runs db0 !! run_ID run) → is_Some (db_repos db0 !! run_RepoID run) →
  unused gen db0 → jobs ≠ [] → Forall known_meta jobs →
  Tx.total env (λ db, db = db0) (createPlannedJobs gen run jobs)
    (λ js db, built run 0 (zip (gen <$> seq 0 (length jobs)) jobs) js ∧ chain_inserted db0 js db).
Proof using Type.
  intros Hr Hp [Hinj Hfree] Hne Hm. unfold createPlannedJobs. destruct jobs as [|p ps] eqn:Ej; [done|]. rewrite <-Ej in *.
  replace (forallb _ jobs) with true.
  - apply create_from_total; [done..| |].
    + apply Forall_forall. intros [id q] Hin. pose proof (elem_of_zip_l _ _ _ _ Hin) as H1.
      pose proof (elem_of_zip_r _ _ _ _ Hin) as H2. apply list_elem_of_fmap in H1 as (k & -> & _).
      rewrite Forall_forall in Hm. split; [apply Hfree|by apply Hm].
    + rewrite zip_fst_seq. apply NoDup_fmap_2; [|apply NoDup_seq]. intros ? ?. apply Hinj.
  - symmetry. apply forallb_forall. intros q Hq%list_elem_of_In. rewrite Forall_forall in Hm.
    by destruct (Hm q Hq) as [meta ->].
Qed.

(** ** All runs *)

Definition plan_run (wave : CreateWaveParams) (plan : RunPlan) : Run :=
  new_run wave plan (stats_or_empty (rp_Stats plan)) (env_now env).

Inductive launched_rows (wave : CreateWaveParams) : (nat → string) → list RunPlan → list (Run * list Job) → Prop :=
| launched_nil gen : launched_rows wave gen [] []
| launched_cons gen plan rest js rjs :
    built (plan_run wave plan) 0 (zip (gen <$> seq 0 (length (rp_Jobs plan))) (rp_Jobs plan)) js →
    launched_rows wave (gen_from gen (length (rp_Jobs plan))) rest rjs →
    launched_rows wave gen (plan :: rest) ((plan_run wave plan, js) :: rjs).

Definition add_run (rj : Run * list Job) (db : DB) : DB :=
  set_db_jobs (list_to_map (pairs rj.2) ∪ db_jobs db)
    (set_db_runs (<[run_ID rj.1 := rj.1]> (db_runs db)) db).

Definition add_runs (rjs : list (Run * list Job)) (db : DB) : DB := foldl (λ db rj, add_run rj db) db rjs.

(** What one plan needs. *)
Record plan_ready (wave : CreateWaveParams) (db : DB) (plan : RunPlan) : Prop := {
  pr_new : db_runs db !! rp_ID plan = None;
  pr_stats : validateJSONB (rp_Stats plan) = true;
  pr_repo : is_Some (db_repos db !! rp_RepoID plan);
  pr_member : member db (cw_MigID wave) (rp_RepoID plan) = true;
  pr_idle : ∀ i r, db_runs db !! i = Some r → run_RepoID r = rp_RepoID plan → active_run (run_Status r) = false;
  pr_jobs : rp_Jobs plan ≠ [];
  pr_metas : Forall known_meta (rp_Jobs plan)
}.

Lemma active_repo_run_idle db repoID :
  (∀ i r, db_runs db !! i = Some r → run_RepoID r = repoID → active_run (run_Status r) = false) →
  active_repo_run db repoID = None.
Proof using Type.
  intros Hidle. unfold active_repo_run. destruct (db_repos db !! repoID); [|done].
  destruct (select _ _ _) as [|x l] eqn:E; [done|].
  assert (Hin : x ∈ select (active_of_repo repoID) by_created_id (db_runs db)) by (rewrite E; left).
  apply elem_of_select in Hin as [Ha [i Hi]]. unfold active_of_repo in Ha. apply andb_true_iff in Ha as [H1 H2].
  apply bool_decide_eq_true in H1. by rewrite (Hidle i x Hi H1) in H2.
Qed.

Lemma insertRun_total db0 wave plan :
  is_Some (db_waves db0 !! cw_ID wave) → is_Some (db_migs db0 !! cw_MigID wave) →
  is_Some (db_specs db0 !! cw_SpecID wave) → plan_ready wave db0 plan →
  Tx.total env (λ db, db = db0) (insertRun wave plan)
    (λ r db, r = plan_run wave plan ∧ db = set_db_runs (<[rp_ID plan := r]> (db_runs db0)) db0).
Proof using Type.
  intros [w Hw] [m Hm] [s Hs] []. unfold insertRun. rewrite pr_stats0. apply total_stmt. intros db ->.
  destruct pr_repo0 as [rp Hrp]. rewrite pr_new0, Hw, Hm, Hs, Hrp, pr_member0.
  rewrite decide_False by (by intros []). rewrite !decide_False by done. simpl. eauto.
Qed.

(** What all plans need together. *)
Record ready (gen : nat → string) (wave : CreateWaveParams) (db : DB) (plans : list RunPlan) : Prop := {
  rd_wave : is_Some (db_waves db !! cw_ID wave);
  rd_mig : is_Some (db_migs db !! cw_MigID wave);
  rd_spec : is_Some (db_specs db !! cw_SpecID wave);
  rd_gen : unused gen db;
  rd_ids : NoDup (rp_ID <$> plans);
  rd_repos : NoDup (rp_RepoID <$> plans);
  rd_plans : Forall (plan_ready wave db) plans
}.

(** A run of one plan leaves the others ready. *)
Lemma ready_next gen wave db plan rest js :
  ready gen wave db (plan :: rest) →
  built (plan_run wave plan) 0 (zip (gen <$> seq 0 (length (rp_Jobs plan))) (rp_Jobs plan)) js →
  ready (gen_from gen (length (rp_Jobs plan))) wave (add_run (plan_run wave plan, js) db) rest.
Proof using Type.
  intros [Hw Hm Hs [Hinj Hfree] Hids Hrepos Hplans] Hb. rewrite !fmap_cons, !NoDup_cons in *.
  destruct Hids as [Hid Hids], Hrepos as [Hrp Hrepos]. apply Forall_cons in Hplans as [Hp Hplans].
  split; try done.
  - split; [intros k l E; apply Hinj in E; lia|]. intros k. simpl. apply lookup_union_None. split; [|apply Hfree].
    apply not_elem_of_list_to_map. rewrite pairs_fst, (built_ids _ _ _ _ Hb), zip_fst_seq.
    intros (l & E & Hl%elem_of_seq)%list_elem_of_fmap. unfold gen_from in E. apply Hinj in E. lia.
  - apply Forall_forall. intros q Hq. rewrite Forall_forall in Hplans. destruct (Hplans q Hq).
    assert (rp_ID q ≠ rp_ID plan) by (intros E; apply Hid; rewrite <-E; by apply list_elem_of_fmap_2).
    assert (rp_RepoID q ≠ rp_RepoID plan) by (intros E; apply Hrp; rewrite <-E; by apply list_elem_of_fmap_2).
    split; simpl; try done; [by rewrite lookup_insert_ne|].
    intros i r [[<- <-]|[_ Hi]]%lookup_insert_Some; [simpl; congruence|eauto].
Qed.

Lemma create_runs_total gen wave plans db0 :
  ready gen wave db0 plans →
  Tx.total env (λ db, db = db0) (create_runs gen wave plans)
    (λ rjs db, launched_rows wave gen plans rjs ∧ db = add_runs rjs db0).
Proof using Type.
  revert gen db0. induction plans as [|plan rest IH]; intros gen db0 Hr; simpl.
  { apply total_ret. intros db ->. split; [constructor|done]. }
  pose proof Hr as [Hw Hm Hs Hg _ _ Hplans]. apply Forall_cons in Hplans as [Hp _].
  eapply total_then with (x := tt) (Q := λ db, db = db0).
  { unfold requireRepoWithoutActiveRun. eapply total_then with (x := None) (Q := λ db, db = db0).
    - apply total_wrap, total_query. intros db ->. split; [|done]. apply active_repo_run_idle, Hp.
    - by apply total_ret. }
  set (run := plan_run wave plan). set (db1 := set_db_runs (<[rp_ID plan := run]> (db_runs db0)) db0).
  eapply total_then with (x := run) (Q := λ db, db = db1).
  { apply total_wrap. eapply total_conseq; [by apply insertRun_total|done|]. by intros r db [-> ->]. }
  eapply total_bind.
  { apply total_wrap, (createPlannedJobs_total db1 gen run); [|apply Hp|done|apply Hp|apply Hp].
    simpl. by rewrite lookup_insert_eq. }
  intros js. eapply total_bind with (Q := λ rjs db,
    launched_rows wave gen (plan :: rest) ((run, js) :: rjs) ∧ db = add_runs ((run, js) :: rjs) db0);
    [|intros rjs; by apply total_ret].
  intros db ins hub (Hb & _ & _ & ->).
  destruct (IH _ _ (ready_next _ _ _ _ _ _ Hr Hb) (add_run (run, js) db0) ins hub eq_refl) as (rjs & db' & hub' & E & Hl & ->).
  exists rjs, (add_runs rjs (add_run (run, js) db0)), hub'. split; [exact E|]. split; [by constructor|done].
Qed.

Lemma CreateWaveWithRuns_total gen wave plans db0 :
  db_waves db0 !! cw_ID wave = None → plans ≠ [] →
  let w := new_wave wave (env_now env) in
  let db1 := set_db_waves (<[cw_ID wave := w]> (db_waves db0)) db0 in
  ready gen wave db1 plans →
  Tx.total env (λ db, db = db0) (CreateWaveWithRuns gen wave plans)
    (λ r db, r.1 = w ∧ launched_rows wave gen plans r.2 ∧ db = add_runs r.2 db1).
Proof using Type.
  intros Hnew Hne w db1 Hr. unfold CreateWaveWithRuns. destruct plans as [|p ps] eqn:Ep; [done|]. rewrite <-Ep in *.
  apply total_transaction. eapply total_bind with (Q := λ _ db, db = db0).
  { apply total_wrap, total_query. by intros db ->. }
  intros ?. eapply total_then with (x := w) (Q := λ db, db = db1).
  { apply total_wrap, total_stmt. intros db ->. rewrite Hnew.
    destruct (rd_mig _ _ _ _ Hr) as [m Hm], (rd_spec _ _ _ _ Hr) as [s Hs]. simpl in Hm, Hs. rewrite Hm, Hs.
    rewrite decide_False by (by intros []). rewrite !decide_False by done. eauto. }
  eapply total_bind; [by apply create_runs_total|]. intros rjs. apply total_ret. naive_solver.
Qed.

End Exact.

(** ** The database after a launch *)

(** A run with its chain, and nothing else of that run. *)
Record run_started (db : DB) (run : Run) (js : list Job) : Prop := {
  rs_run : db_runs db !! run_ID run = Some run;
  rs_status : run_Status run = RunStatusRunning;
  rs_attempt : run_Attempt run = 1%Z;
  rs_jobs : ∀ j, j ∈ js ↔ db_jobs db !! job_ID j = Some j ∧ job_RunID j = run_ID run;
  rs_linked : linked job_ID job_NextID js;
  rs_first : ∃ n, job_Status <$> js = JobStatusQueued :: replicate n JobStatusCreated;
  rs_input : job_RepoShaIn <$> head js = Some (run_RepoSha0 run)
}.

Section After.
Context (env : Env) (wave : CreateWaveParams).
Implicit Types (rjs : list (Run * list Job)).

Lemma launched_ids gen plans rjs rj j :
  launched_rows env wave gen plans rjs → rj ∈ rjs → j ∈ rj.2 → ∃ k, job_ID j = gen k.
Proof.
  intros Hl. induction Hl as [gen|gen plan rest js rjs Hb Hl IH]; [by intros ?%elem_of_nil|].
  intros [->|Hin]%elem_of_cons Hj.
  - assert (Hid : job_ID j ∈ job_ID <$> js) by (by apply list_elem_of_fmap_2).
    rewrite (built_ids _ _ _ _ Hb), zip_fst_seq in Hid. apply list_elem_of_fmap in Hid as (k & -> & _). eauto.
  - destruct (IH Hin Hj) as [k ->]. by exists (length (rp_Jobs plan) + k).
Qed.

Lemma launched_runs gen plans rjs : launched_rows env wave gen plans rjs → rjs.*1 = plan_run env wave <$> plans.
Proof. induction 1; [done|]. rewrite !fmap_cons. by f_equal. Qed.

Lemma launched_built gen plans rjs rj :
  launched_rows env wave gen plans rjs → rj ∈ rjs →
  ∃ gen' plan, plan ∈ plans ∧ rj.1 = plan_run env wave plan ∧
    built rj.1 0 (zip (gen' <$> seq 0 (length (rp_Jobs plan))) (rp_Jobs plan)) rj.2.
Proof.
  induction 1 as [gen|gen plan rest js rjs Hb Hl IH]; [by intros ?%elem_of_nil|].
  intros [->|Hin]%elem_of_cons; [exists gen, plan; split_and!; [left|done|done]|].
  destruct (IH Hin) as (g & p & Hp & ? & ?). exists g, p. split_and!; [by right|done|done].
Qed.

Lemma add_runs_other_run rjs db i :
  i ∉ (run_ID ∘ fst <$> rjs) → db_runs (add_runs rjs db) !! i = db_runs db !! i.
Proof.
  revert db. induction rjs as [|rj rjs IH]; intros db Hi; [done|]. rewrite fmap_cons, not_elem_of_cons in Hi.
  destruct Hi as [Hne Hi]. change (add_runs (rj :: rjs) db) with (add_runs rjs (add_run rj db)).
  rewrite IH by done. simpl. by rewrite lookup_insert_ne.
Qed.

Lemma add_runs_run rjs db rj :
  NoDup (run_ID ∘ fst <$> rjs) → rj ∈ rjs → db_runs (add_runs rjs db) !! run_ID rj.1 = Some rj.1.
Proof.
  revert db. induction rjs as [|x rjs IH]; intros db Hnd Hin; [by apply elem_of_nil in Hin|].
  rewrite fmap_cons, NoDup_cons in Hnd. destruct Hnd as [Hx Hnd].
  change (add_runs (x :: rjs) db) with (add_runs rjs (add_run x db)).
  apply elem_of_cons in Hin as [->|Hin]; [|by apply IH].
  rewrite add_runs_other_run by done. simpl. by rewrite lookup_insert_eq.
Qed.

Lemma add_runs_run_inv rjs db i r :
  db_runs (add_runs rjs db) !! i = Some r → r ∈ rjs.*1 ∨ db_runs db !! i = Some r.
Proof.
  revert db. induction rjs as [|x rjs IH]; intros db Hr; [by right|]. rewrite fmap_cons.
  change (add_runs (x :: rjs) db) with (add_runs rjs (add_run x db)) in Hr.
  apply IH in Hr as [Hr|Hr]; [left; by right|]. simpl in Hr.
  apply lookup_insert_Some in Hr as [[_ <-]|[_ Hr]]; [left; left|by right].
Qed.

Lemma add_runs_waves rjs db : db_waves (add_runs rjs db) = db_waves db.
Proof. revert db. induction rjs as [|x rjs IH]; intros db; [done|]. apply (IH (add_run x db)). Qed.

Lemma add_runs_job_inv rjs db i j :
  db_jobs (add_runs rjs db) !! i = Some j → (∃ rj, rj ∈ rjs ∧ j ∈ rj.2) ∨ db_jobs db !! i = Some j.
Proof.
  revert db. induction rjs as [|x rjs IH]; intros db Hj; [by right|].
  change (add_runs (x :: rjs) db) with (add_runs rjs (add_run x db)) in Hj.
  apply IH in Hj as [(rj & ? & ?)|Hj]; [left; exists rj; split; [by right|done]|]. simpl in Hj.
  apply lookup_union_Some_raw in Hj as [Hj|[_ Hj]]; [left|by right].
  apply elem_of_list_to_map_2 in Hj. apply list_elem_of_fmap in Hj as (y & [= -> ->] & Hy). exists x. split; [left|done].
Qed.

Lemma add_runs_old_job rjs db i :
  (∀ rj j, rj ∈ rjs → j ∈ rj.2 → job_ID j ≠ i) → db_jobs (add_runs rjs db) !! i = db_jobs db !! i.
Proof.
  revert db. induction rjs as [|x rjs IH]; intros db Hi; [done|].
  change (add_runs (x :: rjs) db) with (add_runs rjs (add_run x db)).
  rewrite IH by (intros rj j ? ?; apply (Hi rj j); [by right|done]). simpl. apply lookup_union_r.
  apply not_elem_of_list_to_map. rewrite pairs_fst. intros (j & -> & Hj)%list_elem_of_fmap.
  by apply (Hi x j); [left|..].
Qed.

Lemma add_runs_job gen plans rjs db rj j :
  (∀ k l, gen k = gen l → k = l) → launched_rows env wave gen plans rjs → rj ∈ rjs → j ∈ rj.2 →
  db_jobs (add_runs rjs db) !! job_ID j = Some j.
Proof.
  intros Hinj Hl. revert db Hinj. induction Hl as [gen|gen plan rest js rjs Hb Hl IH]; intros db Hinj Hin Hj;
    [by apply elem_of_nil in Hin|].
  set (x := (plan_run env wave plan, js)). change (add_runs (x :: rjs) db) with (add_runs rjs (add_run x db)).
  assert (Hinj' : ∀ k l, gen_from gen (length (rp_Jobs plan)) k = gen_from gen (length (rp_Jobs plan)) l → k = l).
  { intros k l E. apply Hinj in E. lia. }
  apply elem_of_cons in Hin as [->|Hin]; [|by apply IH]. simpl in Hj.
  assert (Hids : job_ID <$> js = gen <$> seq 0 (length (rp_Jobs plan))).
  { by rewrite (built_ids _ _ _ _ Hb), zip_fst_seq. }
  rewrite add_runs_old_job.
  - simpl. apply lookup_union_Some_l. apply elem_of_list_to_map_1.
    + rewrite pairs_fst, Hids. apply NoDup_fmap_2; [|apply NoDup_seq]. intros ? ?. apply Hinj.
    + apply list_elem_of_fmap. by exists j.
  - intros rj' j' Hin' Hj' E. destruct (launched_ids _ _ _ _ _ Hl Hin' Hj') as [k Hk].
    assert (Hid : job_ID j ∈ job_ID <$> js) by (by apply list_elem_of_fmap_2).
    rewrite Hids in Hid. apply list_elem_of_fmap in Hid as (l & El & Hll%elem_of_seq).
    rewrite Hk, El in E. unfold gen_from in E. apply Hinj in E. lia.
Qed.

Lemma created_replicate l : Forall (λ s, s = JobStatusCreated) l → l = replicate (length l) JobStatusCreated.
Proof. induction 1 as [|? ? -> _ IH]; [done|]. simpl. by f_equal. Qed.

(** Every run of a launch has started. *)
Lemma launched_started gen plans rjs db rj :
  (∀ k l, gen k = gen l → k = l) → launched_rows env wave gen plans rjs →
  NoDup (rp_ID <$> plans) → Forall (λ p, rp_Jobs p ≠ []) plans →
  (∀ k j, db_jobs db !! k = Some j → job_ID j = k ∧ job_RunID j ∉ rp_ID <$> plans) →
  rj ∈ rjs → run_started (add_runs rjs db) rj.1 rj.2.
Proof.
  intros Hinj Hl Hnd Hne Hold Hin.
  assert (Hids : run_ID ∘ fst <$> rjs = rp_ID <$> plans).
  { rewrite list_fmap_compose, (launched_runs _ _ _ Hl), <-list_fmap_compose. done. }
  destruct (launched_built _ _ _ _ Hl Hin) as (g & plan & Hp & Hrun & Hb).
  assert (Hpid : ∀ x y, x ∈ rjs → y ∈ rjs → run_ID x.1 = run_ID y.1 → x = y).
  { intros x y (a & Ha)%list_elem_of_lookup (c & Hc)%list_elem_of_lookup E. rewrite <-Hids in Hnd.
    assert (a = c) as <-; [|congruence]. eapply (NoDup_lookup _ _ _ (run_ID x.1) Hnd); rewrite list_lookup_fmap.
    - by rewrite Ha.
    - rewrite Hc. simpl. by rewrite E. }
  assert (Hown : ∀ x j, x ∈ rjs → j ∈ x.2 → job_RunID j = run_ID x.1).
  { intros x j Hx Hj. destruct (launched_built _ _ _ _ Hl Hx) as (? & ? & _ & _ & Hbx).
    pose proof (built_jobs _ _ _ _ Hbx) as Hf. rewrite Forall_forall in Hf. by apply Hf. }
  rewrite Forall_forall in Hne. specialize (Hne _ Hp).
  assert (Hcons : ∃ j js, rj.2 = j :: js).
  { inversion Hb as [i0 Hi0 Hz|]; [|by eauto]. by destruct (rp_Jobs plan). }
  destruct Hcons as (j0 & js0 & Hjs). split.
  - apply add_runs_run; [by rewrite Hids|done].
  - by rewrite Hrun.
  - by rewrite Hrun.
  - intros j. split.
    + intros Hj. split; [by eapply add_runs_job|by apply Hown].
    + intros [Hj Hr]. apply add_runs_job_inv in Hj as [(x & Hx & Hjx)|Hj].
      * rewrite (Hown _ _ Hx Hjx) in Hr. by rewrite <-(Hpid _ _ Hx Hin Hr).
      * destruct (Hold _ _ Hj) as [_ Hnot]. destruct Hnot. rewrite Hr, <-Hids.
        apply list_elem_of_fmap. by exists rj.
  - by eapply built_linked.
  - rewrite Hjs in *. inversion Hb as [|i id p meta rest js' Hm Hb' Hz]; subst. simpl.
    eexists. f_equal. apply created_replicate. by eapply built_created.
  - rewrite Hjs in *. simpl. f_equal. by eapply built_sha_in.
Qed.

End After.
