(* ===== verification/ProjectSafety.v ===== *)
(** * Projects stay consistent

    The invariant of the project tables: rows under their keys, unique names, URLs
    and memberships, references that resolve, and every run and wave of a known mig,
    spec and member repository. Project endpoints and submissions keep it together
    with the invariant of runs; the life of a run does not touch it ([Frame]). *)

From stdpp Require Import base gmap sets list sorting strings.
From S2P Require Import Prelude GoStrings Types Json JobMeta Hydra Spec Db Tx Queries JobChain Lifecycle.
From S2P Require Import Tokens Store Plan Recovery Projects Handlers Submit Frame Chains.
From S2P Require Import Invariant LaunchSafety.
From Stdlib Require Import ZArith Lia.
Local Open Scope list_scope.

(** ** Invariants of a program *)

(** [m] keeps [I], in whatever session and however it ends. *)
Definition stays {A} (I : DB → Prop) (m : M A) : Prop := ∀ t, I (tx_db t) → I (tx_db (m t).2).

Section Stays.
Context (I : DB → Prop).

Lemma stays_ret {A} (a : A) : stays I (mret a).
Proof. by intros t Ht. Qed.
Lemma stays_throw {A} e : stays I (throw (A := A) e).
Proof. by intros t Ht. Qed.
Lemma stays_bind {A B} (m : M A) (k : A → M B) : stays I m → (∀ a, stays I (k a)) → stays I (m ≫= k).
Proof.
  intros Hm Hk t Ht. unfold mbind, M_bind. specialize (Hm t Ht). destruct (m t) as [[e|a] t']; simpl in *; [done|].
  by apply Hk.
Qed.
Lemma stays_wrap {A} msg (m : M A) : stays I m → stays I (wrap msg m).
Proof. intros Hm t Ht. unfold wrap. specialize (Hm t Ht). by destruct (m t) as [[e|a] t']. Qed.
Lemma stays_attempt {A} (m : M A) : stays I m → stays I (attempt m).
Proof. intros Hm t Ht. unfold attempt. specialize (Hm t Ht). by destruct (m t) as [r t']. Qed.
Lemma stays_of_option {A} e (o : option A) : stays I (of_option e o).
Proof. by destruct o; intros t Ht. Qed.
Lemma stays_stmt {A} (f : Env → DB → Err + A * DB) :
  (∀ env db a db', I db → f env db = inr (a, db') → I db') → stays I (stmt f).
Proof.
  intros Hf t Ht. unfold stmt. destruct (tx_aborted t); [done|].
  destruct (head (tx_faults t)) as [[e|]|]; [done|..];
    (destruct (f (tx_env t) (tx_db t)) as [e|[a db]] eqn:E; [done|]; simpl; by eapply Hf).
Qed.
Lemma stays_query {A} (f : DB → A) : stays I (query f).
Proof. apply stays_stmt. by intros env db a db' HI [= _ <-]. Qed.
Lemma stays_exec (f : Env → DB → DB) : (∀ env db, I db → I (f env db)) → stays I (exec f).
Proof. intros Hf. apply stays_stmt. intros env db a db' HI [= _ <-]. by apply Hf. Qed.
Lemma stays_get {A} (f : DB → option A) : stays I (query_one (λ _ db, inr (f db, db))).
Proof.
  apply stays_bind; [apply stays_stmt; by intros env db a db' HI [= _ <-]|]. intros. apply stays_of_option.
Qed.
Lemma stays_transaction {A} (m : M A) : stays I m → stays I (transaction m).
Proof.
  intros Hm t Ht. unfold transaction. destruct (head (tx_faults t)) as [[e|]|]; [done|..];
    (destruct (m _) as [[e|a] t'] eqn:E; [done|]; destruct (tx_aborted t'); [done|];
     destruct (head (tx_faults t')) as [[e|]|]; [done|..]; simpl;
     match type of E with m ?s = _ => specialize (Hm s Ht) end; by rewrite E in Hm).
Qed.

(** A transaction whose body ends with [I] unless it is aborted. *)
Lemma stays_transaction_triple {A} (m : M A) (Q : A → DB → Prop) :
  (∀ env, triple true env I m Q any_error) → (∀ a db, Q a db → I db) → stays I (transaction m).
Proof.
  intros Hm HQ t Ht. unfold transaction. destruct (head (tx_faults t)) as [[e|]|]; [done|..];
    (destruct (m _) as [[e|a] t'] eqn:E; [done|]; destruct (tx_aborted t') eqn:Ea; [done|];
     destruct (head (tx_faults t')) as [[e|]|]; [done|..]; simpl;
     destruct (Hm (tx_env t) _ _ _ E eq_refl eq_refl ltac:(done)) as (_ & _ & _ & _ & Hpost);
     (destruct (Hpost eq_refl Ht); [congruence|by eapply HQ])).
Qed.

Lemma stays_run_op {A} (m : M A) env db faults r db' :
  stays I m → run_op m env db faults = (r, db') → I db → I db'.
Proof.
  intros Hm E HI. unfold run_op in E. specialize (Hm (session env db faults) HI).
  destruct (m _) as [r1 t]. by injection E as <- <-.
Qed.

End Stays.

(** Goals of the form [stays]. *)
Create HintDb stays.
Ltac stay :=
  repeat (repeat lazymatch goal with
  | |- stays _ (mret _) => apply stays_ret
  | |- stays _ (throw _) => apply stays_throw
  | |- stays _ (query _) => apply stays_query
  | |- stays _ (wrap _ _) => apply stays_wrap
  | |- stays _ (attempt _) => apply stays_attempt
  | |- stays _ (of_option _ _) => apply stays_of_option
  | |- stays _ (mbind _ _) => apply stays_bind; [|intros ?]
  | |- stays _ (match _ with _ => _ end) => case_match
  end; try apply stays_get; try (progress auto with stays)).

(** ** The invariant *)

Record projects_ok (db : DB) : Prop := {
  po_spec_key : ∀ i s, db_specs db !! i = Some s → sp_ID s = i;
  po_mig_key : ∀ i m, db_migs db !! i = Some m → mig_ID m = i;
  po_mig_name : ∀ i j m n, db_migs db !! i = Some m → db_migs db !! j = Some n →
    mig_Name m = mig_Name n → i = j;
  po_mig_spec : ∀ i m s, db_migs db !! i = Some m → mig_SpecID m = Some s → is_Some (db_specs db !! s);
  po_repo_key : ∀ i r, db_repos db !! i = Some r → repo_ID r = i;
  po_repo_url : ∀ i j r q, db_repos db !! i = Some r → db_repos db !! j = Some q →
    repo_Url r = repo_Url q → i = j;
  po_mr_key : ∀ i m, db_mig_repos db !! i = Some m → mr_ID m = i;
  po_mr_refs : ∀ i m, db_mig_repos db !! i = Some m →
    is_Some (db_migs db !! mr_MigID m) ∧ is_Some (db_repos db !! mr_RepoID m);
  po_mr_once : ∀ i j m n, db_mig_repos db !! i = Some m → db_mig_repos db !! j = Some n →
    mr_MigID m = mr_MigID n → mr_RepoID m = mr_RepoID n → i = j;
  po_run : ∀ i mig spec repo wave, (run_refs <$> db_runs db) !! i = Some (mig, spec, repo, wave) →
    is_Some (db_migs db !! mig) ∧ is_Some (db_specs db !! spec) ∧
    ∃ k m, db_mig_repos db !! k = Some m ∧ mr_MigID m = mig ∧ mr_RepoID m = repo;
  po_wave : ∀ i mig spec, (wave_refs <$> db_waves db) !! i = Some (mig, spec) →
    is_Some (db_migs db !! mig) ∧ is_Some (db_specs db !! spec)
}.

Definition sound (db : DB) : Prop := wf db ∧ projects_ok db.

Lemma projects_ok_frame db db' : frame db' = frame db → projects_ok db → projects_ok db'.
Proof.
  unfold frame. intros [= E1 E2 E3 E4 E5 E6 _] [].
  split; rewrite ?E1, ?E2, ?E3, ?E4, ?E5, ?E6; assumption.
Qed.

Lemma kept_stays {A} (m : M A) : kept m → stays projects_ok m.
Proof. intros Hm t. by apply projects_ok_frame. Qed.

(** ** The statements *)

(** The invariant of runs only asks that repositories do not disappear. *)
Lemma wf_grow db db' :
  wf db → db_jobs db' = db_jobs db → db_runs db' = db_runs db → db_waves db' = db_waves db →
  db_nodes db' = db_nodes db → db_repos db ⊆ db_repos db' → wf db'.
Proof.
  intros [] E1 E2 E3 E4 Hsub. split; rewrite ?E1, ?E2, ?E3, ?E4; try assumption.
  intros i r Hr. destruct (wf_repo i r Hr) as [x Hx]. exists x. by eapply lookup_weaken.
Qed.

Lemma sound_same db db' :
  sound db → db_jobs db' = db_jobs db → db_runs db' = db_runs db → db_waves db' = db_waves db →
  db_nodes db' = db_nodes db → db_repos db ⊆ db_repos db' → projects_ok db' → sound db'.
Proof. intros [Hwf _] ????? Hp. split; [by eapply wf_grow|done]. Qed.

Lemma existsb_rows_false {A} (p : A → bool) (m : gmap string A) i x :
  existsb p (rows m) = false → m !! i = Some x → p x = false.
Proof.
  intros Hf Hi. destruct (p x) eqn:E; [|done]. rewrite <-Hf. symmetry. apply existsb_rows. eauto.
Qed.

Lemma member_spec db mig repo :
  member db mig repo = true ↔
  ∃ k m, db_mig_repos db !! k = Some m ∧ mr_MigID m = mig ∧ mr_RepoID m = repo.
Proof.
  unfold member. rewrite (existsb_rows _ (db_mig_repos db)). setoid_rewrite bool_decide_eq_true. naive_solver.
Qed.

(** A new row, or the row itself. *)
Ltac rows_cases :=
  repeat match goal with
  | E : <[_ := _]> _ !! _ = Some _ |- _ => apply lookup_insert_Some in E as [[? ?]|[? E]]; simplify_eq/=
  end.

Lemma insert_unique {A B} (g : A → B) (m : gmap string A) i x :
  (∀ j k y z, m !! j = Some y → m !! k = Some z → g y = g z → j = k) →
  (∀ j y, m !! j = Some y → g y = g x → j = i) →
  ∀ j k y z, <[i := x]> m !! j = Some y → <[i := x]> m !! k = Some z → g y = g z → j = k.
Proof. intros Hu Hx j k y z Hj Hk Hg. rows_cases; eauto. symmetry. by eapply Hx. Qed.

Lemma lookup_alter_inv {A} (f : A → A) (m : gmap string A) i j y :
  alter f i m !! j = Some y → ∃ x, m !! j = Some x ∧ (y = f x ∧ i = j ∨ y = x).
Proof.
  rewrite lookup_alter. destruct (decide (i = j)) as [->|]; [|eauto].
  destruct (m !! j); simpl; [|done]. intros [= <-]. eauto.
Qed.

Lemma is_Some_insert {A} (m : gmap string A) i x j : is_Some (m !! j) → is_Some (<[i := x]> m !! j).
Proof. intros [y Hy]. destruct (decide (i = j)) as [->|]; [rewrite lookup_insert_eq|rewrite lookup_insert_ne by done]; eauto. Qed.

Lemma is_Some_alter {A} (f : A → A) (m : gmap string A) i j : is_Some (m !! j) → is_Some (alter f i m !! j).
Proof. rewrite lookup_alter. destruct (decide _) as [->|]; [|done]. intros [y ->]. simpl. eauto. Qed.

#[export] Hint Resolve is_Some_insert is_Some_alter : core.

Section Statements.
Context `{Collation}.

Lemma insert_spec_ok db i s : projects_ok db → sp_ID s = i → projects_ok (set_db_specs (<[i := s]> (db_specs db)) db).
Proof.
  intros [] Hi. split; simpl; try assumption.
  - intros j x Hj. rows_cases; eauto.
  - eauto.
  - intros j a b c d Hr. destruct (po_run0 _ _ _ _ _ Hr) as (? & ? & ?). eauto.
  - intros j a b Hw. destruct (po_wave0 _ _ _ Hw). eauto.
Qed.

Lemma CreateSpec_stays a : stays sound (CreateSpec a).
Proof.
  unfold CreateSpec. stay. apply stays_stmt. intros env db r db' Hs E. repeat case_match; simplify_eq.
  destruct Hs. split; [by eapply wf_grow|by apply insert_spec_ok].
Qed.

(** A mig whose name is free, or whose row is rewritten under its name. *)
Lemma insert_mig_ok db m :
  projects_ok db → (∀ j n, db_migs db !! j = Some n → mig_Name n = mig_Name m → j = mig_ID m) →
  (∀ s, mig_SpecID m = Some s → is_Some (db_specs db !! s)) →
  projects_ok (set_db_migs (<[mig_ID m := m]> (db_migs db)) db).
Proof.
  intros [] Hn Hsp. split; simpl; try assumption.
  - intros j x Hj. rows_cases; eauto.
  - by apply insert_unique.
  - intros j x s Hj Hx. rows_cases; eauto.
  - intros j x Hj. destruct (po_mr_refs0 _ _ Hj). eauto.
  - intros j a b c d Hr. destruct (po_run0 _ _ _ _ _ Hr) as (? & ? & ?). eauto.
  - intros j a b Hw. destruct (po_wave0 _ _ _ Hw). eauto.
Qed.

Lemma spec_exists_ok db o s : spec_exists db o = true → o = Some s → is_Some (db_specs db !! s).
Proof. intros Ho ->. by apply bool_decide_eq_true in Ho. Qed.

Lemma CreateMig_stays a : stays sound (CreateMig a).
Proof.
  apply stays_stmt. intros env db m db' [Hwf Hp] E. case_decide; [done|].
  destruct (existsb _ _) eqn:En; [done|]. destruct (spec_exists _ _) eqn:Es; [|done]. injection E as <- <-.
  split; [by eapply wf_grow|]. apply (insert_mig_ok db (new_mig a (env_now env))); [done| |].
  - intros j n Hj Hname. pose proof (existsb_rows_false _ _ _ _ En Hj) as Hf. simpl in *.
    by apply bool_decide_eq_false in Hf.
  - intros s. simpl. by apply spec_exists_ok.
Qed.

Lemma alter_mig_ok db i f :
  projects_ok db → (∀ m, mig_ID (f m) = mig_ID m ∧ mig_Name (f m) = mig_Name m) →
  (∀ m s, db_migs db !! i = Some m → mig_SpecID (f m) = Some s → is_Some (db_specs db !! s)) →
  projects_ok (set_db_migs (alter f i (db_migs db)) db).
Proof.
  intros Hp Hf Hs. destruct (db_migs db !! i) as [m|] eqn:Em.
  - assert (alter f i (db_migs db) = <[mig_ID (f m) := f m]> (db_migs db)) as ->.
    { apply map_eq. intros j. destruct (Hf m) as [-> _]. rewrite (po_mig_key _ Hp _ _ Em), lookup_alter, lookup_insert.
      destruct (decide (i = j)) as [<-|]; [by rewrite Em|done]. }
    apply insert_mig_ok; [done| |eauto]. intros j n Hj Hn. destruct (Hf m) as [Hid Hname].
    rewrite Hid, (po_mig_key _ Hp _ _ Em). eapply po_mig_name; [done..|congruence].
  - rewrite alter_id' by done. by destruct db.
Qed.

Lemma ArchiveMig_stays i : stays sound (ArchiveMig i).
Proof.
  apply stays_exec. intros env db [Hwf Hp]. split; [by eapply wf_grow|]. apply alter_mig_ok; [done|..].
  - intros m. by destruct (mig_ArchivedAt m).
  - intros m s Hm Hsp. eapply po_mig_spec; [done..|]. by destruct (mig_ArchivedAt m).
Qed.

Lemma UnarchiveMig_stays i : stays sound (UnarchiveMig i).
Proof.
  apply stays_exec. intros env db [Hwf Hp]. split; [by eapply wf_grow|]. apply alter_mig_ok; [done..|].
  intros m s Hm Hsp. by eapply po_mig_spec.
Qed.

Lemma UpdateMigSpec_stays i o : stays sound (UpdateMigSpec i o).
Proof.
  apply stays_stmt. intros env db r db' [Hwf Hp] E. case_decide; [|by simplify_eq].
  destruct (spec_exists _ _) eqn:Es; [|done]. injection E as _ <-.
  split; [by eapply wf_grow|]. apply alter_mig_ok; [done..|]. intros m s _. simpl. by apply spec_exists_ok.
Qed.

Lemma DeleteMig_stays i : stays sound (DeleteMig i).
Proof.
  apply stays_stmt. intros env db r db' [Hwf Hp] E. destruct (existsb _ _) eqn:Ew; [done|].
  destruct (existsb _ (rows (db_runs db))) eqn:Er; [done|]. injection E as _ <-.
  split; [by eapply wf_grow|].
  assert (Hruns : ∀ j a b c d, (run_refs <$> db_runs db) !! j = Some (a, b, c, d) → a ≠ i).
  { intros j a b c d. rewrite lookup_fmap, fmap_Some. intros (x & Hx & [= -> -> -> ->]).
    by apply (existsb_rows_false _ _ _ _ Er), bool_decide_eq_false in Hx. }
  assert (Hwaves : ∀ j a b, (wave_refs <$> db_waves db) !! j = Some (a, b) → a ≠ i).
  { intros j a b. rewrite lookup_fmap, fmap_Some. intros (x & Hx & [= -> ->]).
    by apply (existsb_rows_false _ _ _ _ Ew), bool_decide_eq_false in Hx. }
  destruct Hp. split; simpl; try assumption.
  - intros j m [_ Hj]%lookup_delete_Some. eauto.
  - intros j k m n [_ Hj]%lookup_delete_Some [_ Hk]%lookup_delete_Some. eauto.
  - intros j m s [_ Hj]%lookup_delete_Some. eauto.
  - intros j m [Hj _]%map_lookup_filter_Some. eauto.
  - intros j m [Hj Hne]%map_lookup_filter_Some. simpl in Hne.
    rewrite lookup_delete_ne by done. eauto.
  - intros j k m n [Hj _]%map_lookup_filter_Some [Hk _]%map_lookup_filter_Some. eauto.
  - intros j a b c d Hr. pose proof (Hruns _ _ _ _ _ Hr). rewrite lookup_delete_ne by done.
    destruct (po_run0 _ _ _ _ _ Hr) as (? & ? & k & m & Hk & Hm & ?). split_and!; [done..|].
    exists k, m. split_and!; [|done..]. apply map_lookup_filter_Some. split; [done|]. simpl. congruence.
  - intros j a b Hw. rewrite lookup_delete_ne by (symmetry; eauto). eauto.
Qed.

(** *** Repositories and memberships *)

Lemma url_repo_spec db url : projects_ok db →
  match url_repo db url with
  | Some r => db_repos db !! repo_ID r = Some r ∧ repo_Url r = url
  | None => ∀ i r, db_repos db !! i = Some r → repo_Url r ≠ url
  end.
Proof.
  intros Hp. unfold url_repo. destruct (list_find _ _) as [[k r]|] eqn:E; simpl.
  - apply list_find_Some in E as (Hk & Hu & _). apply list_elem_of_lookup_2, elem_of_rows in Hk as [i Hi].
    by rewrite (po_repo_key _ Hp _ _ Hi).
  - intros i r Hi. apply list_find_None, Forall_forall with (x := r) in E; [done|]. apply elem_of_rows. eauto.
Qed.

Lemma resolve_repo_spec db a now repoID db1 :
  sound db → resolve_repo a now db = inr (repoID, db1) →
  sound db1 ∧ (∃ r, db_repos db1 !! repoID = Some r ∧ repo_Url r = cr_Url a) ∧
  db_mig_repos db1 = db_mig_repos db ∧ db_migs db1 = db_migs db.
Proof.
  intros [Hwf Hp]. unfold resolve_repo. pose proof (url_repo_spec db (cr_Url a) Hp) as Hu.
  destruct (url_repo db (cr_Url a)) as [r|].
  - intros [= <- <-]. destruct Hu. split_and!; eauto. by split.
  - case_decide as Hn; [done|]. intros [= <- <-]. apply eq_None_not_Some in Hn. simpl.
    split_and!; [|eexists; by rewrite lookup_insert_eq|done..].
    split; [eapply wf_grow; simpl; try done; by apply insert_subseteq|].
    destruct Hp. split; simpl; try assumption.
    + intros j x Hj. rows_cases; eauto.
    + apply insert_unique; [done|]. intros j x Hj Hx. by destruct (Hu _ _ Hj).
    + intros j x Hj. destruct (po_mr_refs0 _ _ Hj). eauto.
Qed.

Lemma insert_member_ok db m :
  projects_ok db → is_Some (db_migs db !! mr_MigID m) → is_Some (db_repos db !! mr_RepoID m) →
  (∀ j n, db_mig_repos db !! j = Some n → mr_MigID n = mr_MigID m → mr_RepoID n = mr_RepoID m → j = mr_ID m) →
  (∀ n, db_mig_repos db !! mr_ID m = Some n → mr_MigID n = mr_MigID m ∧ mr_RepoID n = mr_RepoID m) →
  projects_ok (set_db_mig_repos (<[mr_ID m := m]> (db_mig_repos db)) db).
Proof.
  intros [] Hm Hr Hu Hsame. split; simpl; try assumption.
  - intros j x Hj. rows_cases; eauto.
  - intros j x Hj. rows_cases; eauto.
  - intros j k x y Hj Hk E1 E2. rows_cases; eauto. symmetry. eapply Hu; eauto.
  - intros j a b c d Hrr. destruct (po_run0 _ _ _ _ _ Hrr) as (? & ? & k & n & Hk & <- & <-). split_and!; [done..|].
    destruct (decide (mr_ID m = k)) as [<-|Hne].
    + exists (mr_ID m), m. rewrite lookup_insert_eq. destruct (Hsame _ Hk). done.
    + exists k, n. by rewrite lookup_insert_ne.
Qed.

Lemma insert_mig_repo_sound db a repoID now m db' :
  sound db → is_Some (db_repos db !! repoID) → member db (cr_MigID a) repoID = false →
  insert_mig_repo a repoID now db = inr (m, db') → sound db'.
Proof.
  intros [Hwf Hp] Hr Hm. unfold insert_mig_repo. case_decide as Hn; [done|]. case_decide as Hg; [done|].
  intros [= <- <-]. split; [by eapply wf_grow|].
  apply (insert_member_ok db (mkMigRepo (cr_ID a) (cr_MigID a) repoID (cr_BaseRef a) now)); simpl; try done.
  - by apply not_eq_None_Some.
  - intros j n Hj E1 E2. exfalso. assert (member db (cr_MigID a) repoID = true); [|congruence].
    apply member_spec. eauto.
  - intros n Hx. destruct Hn. eauto.
Qed.

Lemma CreateMigRepo_stays a : stays sound (CreateMigRepo a).
Proof.
  apply stays_stmt. intros env db m db' Hs E.
  destruct (resolve_repo _ _ _) as [e|[repoID db1]] eqn:Er; [done|].
  destruct (resolve_repo_spec _ _ _ _ _ Hs Er) as (Hs1 & (r & Hr & _) & _).
  destruct (member _ _ _) eqn:Em; [done|]. by eapply insert_mig_repo_sound.
Qed.

Lemma mig_repo_of_spec db mig repo : projects_ok db →
  match mig_repo_of db mig repo with
  | Some m => db_mig_repos db !! mr_ID m = Some m ∧ mr_MigID m = mig ∧ mr_RepoID m = repo
  | None => member db mig repo = false
  end.
Proof.
  intros Hp. unfold mig_repo_of. destruct (list_find _ _) as [[k m]|] eqn:E; simpl.
  - apply list_find_Some in E as (Hk & [] & _). apply list_elem_of_lookup_2, elem_of_rows in Hk as [i Hi].
    by rewrite (po_mr_key _ Hp _ _ Hi).
  - destruct (member db mig repo) eqn:Em; [|done]. apply member_spec in Em as (j & m & Hj & <- & <-).
    apply list_find_None, Forall_forall with (x := m) in E; [naive_solver|]. apply elem_of_rows. eauto.
Qed.

Lemma UpsertMigRepo_stays a : stays sound (UpsertMigRepo a).
Proof.
  apply stays_stmt. intros env db m db' Hs E.
  destruct (resolve_repo _ _ _) as [e|[repoID db1]] eqn:Er; [done|].
  destruct (resolve_repo_spec _ _ _ _ _ Hs Er) as ([Hwf1 Hp1] & (r & Hr & _) & _).
  pose proof (mig_repo_of_spec db1 (cr_MigID a) repoID Hp1) as Hm.
  destruct (mig_repo_of _ _ _) as [n|]; [|eapply insert_mig_repo_sound; [by split| | |done]; eauto].
  injection E as <- <-. destruct Hm as (Hn & Hmig & Hrepo). split; [by eapply wf_grow|].
  destruct (po_mr_refs _ Hp1 _ _ Hn).
  apply (insert_member_ok db1 (mkMigRepo (mr_ID n) (mr_MigID n) (mr_RepoID n) (cr_BaseRef a) (mr_CreatedAt n))); try done.
  - simpl. intros j x Hj ? ?. by eapply (po_mr_once _ Hp1).
  - simpl. intros x Hx. by simplify_eq.
Qed.

Lemma DeleteMigRepo_stays i : stays sound (DeleteMigRepo i).
Proof.
  apply stays_stmt. intros env db r db' [Hwf Hp] E. destruct (db_mig_repos db !! i) as [m|] eqn:Em; [|by simplify_eq].
  destruct (existsb _ _) eqn:Er; [done|]. injection E as _ <-. split; [by eapply wf_grow|].
  destruct Hp. split; simpl; try assumption.
  - intros j x [_ Hj]%lookup_delete_Some. eauto.
  - intros j x [_ Hj]%lookup_delete_Some. eauto.
  - intros j k x y [_ Hj]%lookup_delete_Some [_ Hk]%lookup_delete_Some. eauto.
  - intros j a b c d Hr. destruct (po_run0 _ _ _ _ _ Hr) as (? & ? & k & n & Hk & E1 & E2). split_and!; [done..|].
    exists k, n. rewrite lookup_delete_ne; [done|]. intros <-. rewrite Em in Hk. injection Hk as <-.
    rewrite lookup_fmap, fmap_Some in Hr. destruct Hr as (x & Hx & Hrefs). unfold run_refs in Hrefs.
    apply (existsb_rows_false _ _ _ _ Er), bool_decide_eq_false in Hx. apply Hx. split; congruence.
Qed.

End Statements.


(** ** Submissions and endpoints *)

Section Launch.
Context `{Collation}.

Lemma CreateWave_projects wave : stays projects_ok (CreateWave wave).
Proof.
  apply stays_stmt. intros env db w db' [] E. case_decide as Hn; [done|]. repeat (case_decide; [done|]).
  injection E as <- <-. split; simpl; try assumption.
  intros i m sp. rewrite fmap_insert. intros [[<- [= <- <-]]|[_ Hi]]%lookup_insert_Some; [|eauto].
  split; by apply not_eq_None_Some.
Qed.

Lemma insertRun_projects wave plan : stays projects_ok (insertRun wave plan).
Proof.
  unfold insertRun. stay. apply stays_stmt. intros env db r db' [] E. repeat (case_decide; [done|]).
  destruct (member _ _ _) eqn:Em; [|done]. injection E as <- <-. split; simpl; try assumption.
  intros i m sp rp w. rewrite fmap_insert.
  intros [[<- [= <- <- <- <-]]|[_ Hi]]%lookup_insert_Some; [|eauto].
  split_and!; [by apply not_eq_None_Some..|]. by apply member_spec.
Qed.

#[local] Hint Resolve CreateWave_projects insertRun_projects : stays.

Lemma create_runs_projects gen wave plans : stays projects_ok (create_runs gen wave plans).
Proof.
  revert gen. induction plans as [|plan rest IH]; intros gen; simpl; [apply stays_ret|].
  apply stays_bind; [apply kept_stays, requireRepo_kept|]. intros ?.
  apply stays_bind; [stay|]. intros run.
  apply stays_bind; [apply kept_stays, kept_wrap, createPlannedJobs_kept|]. intros ?. stay.
Qed.

Lemma CreateWaveWithRuns_stays gen wave plans :
  (∀ k, IsZero (gen k) = false) → stays sound (CreateWaveWithRuns gen wave plans).
Proof.
  intros Hgen.
  assert (H1 : stays wf (CreateWaveWithRuns gen wave plans)).
  { unfold CreateWaveWithRuns. stay.
    apply (stays_transaction_triple _ (launch_body gen wave _) (λ _, wf)); [|done]. intros env. by apply launch_body_triple. }
  assert (H2 : stays projects_ok (CreateWaveWithRuns gen wave plans)).
  { unfold CreateWaveWithRuns, lockRunRepositories. stay. apply stays_transaction. stay. apply create_runs_projects. }
  intros t [Hwf Hp]. split; [by apply H1|by apply H2].
Qed.

End Launch.

(** ** Endpoints *)

(** What the endpoints of projects and the submissions do to the database, they do by
    these operations; an invariant of each of them is one of the endpoints. *)
Class Steady `{Collation} (I : DB → Prop) : Prop := {
  st_CreateSpec : ∀ a, stays I (CreateSpec a);
  st_CreateGitSpecSnapshot : ∀ i s c, stays I (CreateGitSpecSnapshot i s c);
  st_CreateMig : ∀ a, stays I (CreateMig a);
  st_ArchiveMig : ∀ i, stays I (ArchiveMig i);
  st_UnarchiveMig : ∀ i, stays I (UnarchiveMig i);
  st_UpdateMigSpec : ∀ i o, stays I (UpdateMigSpec i o);
  st_DeleteMig : ∀ i, stays I (DeleteMig i);
  st_CreateMigRepo : ∀ a, stays I (CreateMigRepo a);
  st_UpsertMigRepo : ∀ a, stays I (UpsertMigRepo a);
  st_DeleteMigRepo : ∀ i, stays I (DeleteMigRepo i);
  st_CreateWaveWithRuns : ∀ gen wave plans,
    (∀ k, IsZero (gen k) = false) → stays I (CreateWaveWithRuns gen wave plans)
}.

#[export] Hint Extern 0 (stays _ _) =>
  first [apply st_CreateSpec | apply st_CreateGitSpecSnapshot | apply st_CreateMig | apply st_ArchiveMig
        | apply st_UnarchiveMig | apply st_UpdateMigSpec | apply st_DeleteMig | apply st_CreateMigRepo
        | apply st_UpsertMigRepo | apply st_DeleteMigRepo | by apply st_CreateWaveWithRuns] : stays.

Lemma CreateGitSpecSnapshot_stays i s c : stays sound (CreateGitSpecSnapshot i s c).
Proof.
  unfold CreateGitSpecSnapshot. stay. apply stays_stmt. intros env db r db' [] E. repeat case_match; simplify_eq.
  split; [by eapply wf_grow|by apply insert_spec_ok].
Qed.

#[export] Instance sound_steady `{Collation} : Steady sound.
Proof.
  split; auto using CreateSpec_stays, CreateGitSpecSnapshot_stays, CreateMig_stays, ArchiveMig_stays, UnarchiveMig_stays,
    UpdateMigSpec_stays, DeleteMig_stays, CreateMigRepo_stays, UpsertMigRepo_stays, DeleteMigRepo_stays,
    CreateWaveWithRuns_stays.
Qed.

Section Endpoints.
Context `{Collation} `{GoFmt} `{SpecLib} `{UrlLib}.

Lemma match_any_stays I f page : (∀ r, stays I (f r)) → stays I (match_any f page).
Proof. intros Hf. induction page; simpl; stay. Qed.

Lemma scan_pages_stays I rounds off f : (∀ r, stays I (f r)) → stays I (scan_pages rounds off f).
Proof.
  intros Hf. revert off. induction rounds as [|n IH]; intros off; simpl; [apply stays_ret|].
  apply stays_bind; [apply stays_stmt; intros ????? E; repeat case_decide; by simplify_eq|].
  intros page. destruct page; [apply stays_ret|].
  apply stays_bind; [by apply match_any_stays|]. intros []; [apply stays_ret|apply IH].
Qed.

Lemma scanRunPages_stays I f : (∀ r, stays I (f r)) → stays I (scanRunPages f).
Proof. intros Hf t. apply scan_pages_stays, Hf. Qed.

Lemma migHasAnyRuns_stays I i : stays I (migHasAnyRuns i).
Proof. apply scanRunPages_stays. intros r. apply stays_ret. Qed.

Lemma migHasAnyRunningJobs_stays I i : stays I (migHasAnyRunningJobs i).
Proof. apply scanRunPages_stays. intros r. unfold ListJobsByRun. stay. Qed.

Lemma getMigByIDOrFail_stays I i : stays I (getMigByIDOrFail i).
Proof. unfold getMigByIDOrFail. stay. Qed.

Lemma getMigByRefOrFail_stays I i : stays I (getMigByRefOrFail i).
Proof. unfold getMigByRefOrFail, resolveMigByRef, GetMigByName. stay. Qed.

#[local] Hint Resolve migHasAnyRuns_stays migHasAnyRunningJobs_stays getMigByIDOrFail_stays
  getMigByRefOrFail_stays : stays.

Context (I : DB → Prop) `{!Steady I}.

Lemma archive_stays ref : stays I (archiveMigHandler ref).
Proof. unfold archiveMigHandler. stay. Qed.
Lemma unarchive_stays ref : stays I (unarchiveMigHandler ref).
Proof. unfold unarchiveMigHandler. stay. Qed.
Lemma deleteMig_stays ref : stays I (deleteMigHandler ref).
Proof. unfold deleteMigHandler. stay. Qed.
Lemma createMig_stays m s req : stays I (createMigHandler m s req).
Proof. unfold createMigHandler. stay. Qed.
Lemma setMigSpec_stays s ref req : stays I (setMigSpecHandler s ref req).
Proof. unfold setMigSpecHandler. stay. Qed.
Lemma addMigRepo_stays n m u b : stays I (addMigRepoHandler n m u b).
Proof. unfold addMigRepoHandler. stay. Qed.
Lemma deleteMigRepo_stays m i : stays I (deleteMigRepoHandler m i).
Proof. unfold deleteMigRepoHandler, HasMigRepoHistory. stay. Qed.

Lemma import_row_stays n m line r c : stays I (import_row n m line r c).
Proof. unfold import_row, GetMigRepoByURL. stay. Qed.

Lemma import_loop_stays fuel read gen migID k h c : stays I (import_loop fuel read gen migID k h c).
Proof.
  revert k h c. induction fuel as [|n IH]; intros k h c; cbn [import_loop]; [apply stays_ret|].
  destruct (read k), h; stay; apply import_row_stays.
Qed.

Lemma bulkUpsert_stays fuel gen m ct read : stays I (bulkUpsertMigReposHandler fuel gen m ct read).
Proof. unfold bulkUpsertMigReposHandler. stay. apply import_loop_stays. Qed.

Lemma explicit_repos_stays urls l : stays I (explicit_repos urls l).
Proof. induction l as [|m l IH]; cbn [explicit_repos]; unfold repoURLForID; stay. Qed.

Lemma selectRepos_stays migID mode urls : stays I (selectReposForRun migID mode urls).
Proof.
  unfold selectReposForRun, ListMigReposByMig, ListFailedRepoIDsByMig. stay. apply explicit_repos_stays.
Qed.

Lemma selected_urls_stays l urls : stays I (selected_urls l urls).
Proof. revert urls. induction l as [|m l IH]; intros urls; cbn [selected_urls]; unfold repoURLForID; stay. Qed.

Context (Hash : string → string) (configuredHost : string).
Context (schemeAndHost : string → string * string) (EqualFold : string → string → bool).
Context (resolve : string → string → string → option string).
Context (newWaveID : string) (newRunID newJobID : nat → string).
Context (Hgen : ∀ k, IsZero (newJobID k) = false).

Lemma launch_stays reg hash token wave plans : stays I (launch newJobID reg hash token wave plans).
Proof. unfold launch. stay. Qed.
#[local] Hint Resolve launch_stays selectRepos_stays selected_urls_stays : stays.

Lemma createMigRun_stays reg migID req :
  stays I (createMigRunHandler Hash configuredHost schemeAndHost EqualFold resolve newWaveID newRunID newJobID
                 reg migID req).
Proof. unfold createMigRunHandler. stay. Qed.

Lemma persist_stays i s c : stays I (persistRunSubmissionSpec i s c).
Proof. unfold persistRunSubmissionSpec, GetGitSpecSnapshot. stay. Qed.
#[local] Hint Resolve persist_stays : stays.

Lemma createSingleRepoRun_stays named newMigID newSpecID newMigRepoID reg caller req :
  stays I (createSingleRepoRunHandler Hash configuredHost schemeAndHost EqualFold resolve newRunID newJobID
                 named newMigID newSpecID newMigRepoID reg caller req).
Proof. unfold createSingleRepoRunHandler. stay. Qed.

End Endpoints.
