(* ===== verification/SubmitExact.v ===== *)
(** * Submissions: what they select, what they create, what a rejection leaves *)

From stdpp Require Import base gmap sets list sorting strings.
From S2P Require Import Prelude GoStrings Types Json JobMeta Hydra Spec Db Tx Queries JobChain Lifecycle.
From S2P Require Import Tokens Store Plan Recovery Projects Handlers Submit Chains Frame.
From S2P Require Import Invariant CancelSafety LaunchSafety ProjectSafety.
From Stdlib Require Import ZArith Lia.
Local Open Scope list_scope.

Section Selection.
Context `{Collation} `{UrlLib} (env : Env).

(** ** What is selected *)

Definition repos_of_mig (db : DB) (migID : string) : list MigRepo :=
  select (λ m, bool_decide (mr_MigID m = migID)) by_mig_created (db_mig_repos db).

Definition repo_url (db : DB) (m : MigRepo) : string :=
  match db_repos db !! mr_RepoID m with Some r => repo_Url r | None => "" end.

Definition chosen (db : DB) (migID mode : string) (urls : list string) (m : MigRepo) : bool :=
  if decide (mode = "all") then true
  else if decide (mode = "failed") then failed_last db migID (mr_RepoID m)
  else bool_decide (NormalizeRepoURL (repo_url db m) ∈ NormalizeRepoURL <$> urls).

Definition selected (db : DB) (migID mode : string) (urls : list string) : list MigRepo :=
  filter (λ m, chosen db migID mode urls m = true) (repos_of_mig db migID).

Lemma repos_of_mig_spec db migID m :
  m ∈ repos_of_mig db migID ↔ mr_MigID m = migID ∧ ∃ i, db_mig_repos db !! i = Some m.
Proof using Type. unfold repos_of_mig. by rewrite elem_of_select, bool_decide_eq_true. Qed.

Lemma select_perm {A} (p : A → bool) (R : relation A) `{!RelDecision R} (m : gmap string A) :
  select p R m ≡ₚ filter (λ x, p x = true) (rows m).
Proof using Type. apply merge_sort_Permutation. Qed.

Lemma rows_nodup {A} (g : A → string) (m : gmap string A) :
  (∀ i x, m !! i = Some x → g x = i) → NoDup (g <$> rows m).
Proof using Type.
  intros Hk. unfold rows. rewrite <-list_fmap_compose.
  rewrite (list_fmap_ext _ fst); [apply NoDup_fst_map_to_list|].
  intros i [k x] Hi%list_elem_of_lookup_2%elem_of_map_to_list. simpl. by apply Hk.
Qed.

Lemma selected_repos_nodup db migID mode urls :
  projects_ok db → NoDup (mr_RepoID <$> selected db migID mode urls).
Proof using Type.
  intros Hp. apply NoDup_fmap_2_strong.
  - intros x y Hx Hy E. apply list_elem_of_filter in Hx as [_ Hx], Hy as [_ Hy].
    apply repos_of_mig_spec in Hx as (Hxm & i & Hi), Hy as (Hym & j & Hj).
    assert (i = j) by (eapply (po_mr_once _ Hp); [done..|congruence|done]). congruence.
  - apply NoDup_filter. unfold repos_of_mig. rewrite select_perm. apply NoDup_filter.
    eapply NoDup_fmap_1, (rows_nodup mr_ID). apply Hp.
Qed.

Lemma failed_elem db migID repoID :
  repoID ∈ filter (λ i, failed_last db migID i = true)
    (merge_sort coll_le (remove_dups (run_RepoID <$> rows (db_runs db)))) ↔
  failed_last db migID repoID = true.
Proof using Type.
  rewrite list_elem_of_filter. split; [by intros []|]. intros Hf. split; [done|].
  rewrite merge_sort_Permutation, elem_of_remove_dups.
  unfold failed_last in Hf. destruct (last_terminal db migID repoID) as [r|] eqn:E; [|done].
  unfold last_terminal in E. apply head_Some_elem_of in E. apply elem_of_select in E as [Hs [i Hi]].
  rewrite !andb_true_iff, !bool_decide_eq_true in Hs. destruct Hs as [[_ <-] _].
  apply list_elem_of_fmap_2, elem_of_rows. eauto.
Qed.

Lemma repoURLForID_total db i r :
  db_repos db !! i = Some r →
  Tx.total env (λ d, d = db) (repoURLForID i) (λ u d, u = repo_Url r ∧ d = db).
Proof using Type.
  intros Hr. unfold repoURLForID. eapply total_then; [by apply total_wrap, total_get|]. by apply total_ret.
Qed.

Lemma explicit_repos_total db urls l :
  Forall (λ m, is_Some (db_repos db !! mr_RepoID m)) l →
  Tx.total env (λ d, d = db) (explicit_repos urls l)
    (λ x d, x = filter (λ m, NormalizeRepoURL (repo_url db m) ∈ urls) l ∧ d = db).
Proof using Type.
  induction l as [|m l IH]; intros Hl; cbn [explicit_repos]; [by apply total_ret; intros d ->|].
  apply Forall_cons in Hl as [[r Hr] Hl].
  eapply total_then; [apply total_wrap; by apply repoURLForID_total|].
  eapply total_then; [by apply IH|]. apply total_ret. intros d ->. split; [|done].
  assert (Hu : repo_url db m = repo_Url r) by (unfold repo_url; by rewrite Hr).
  rewrite filter_cons, Hu. by destruct (decide _).
Qed.

Lemma selectRepos_total db migID mode urls :
  projects_ok db → mode ∈ ["all"; "failed"; "explicit"] →
  Tx.total env (λ d, d = db) (selectReposForRun migID mode urls)
    (λ x d, x = selected db migID mode urls ∧ d = db).
Proof using Type.
  intros Hp Hmode. unfold selectReposForRun.
  eapply total_then with (x := repos_of_mig db migID) (Q := λ d, d = db).
  { apply total_wrap, total_query. by intros d ->. }
  unfold selected, chosen. destruct (decide (mode = "all")) as [->|Hn1].
  { apply total_ret. intros d ->. split; [|done]. symmetry. by apply filter_all, Forall_true. }
  destruct (decide (mode = "failed")) as [->|Hn2].
  { eapply total_bind with (Q := λ x d, x = filter (λ i, failed_last db migID i = true)
      (merge_sort coll_le (remove_dups (run_RepoID <$> rows (db_runs db)))) ∧ d = db).
    { apply total_wrap, total_query. by intros d ->. }
    intros x. apply total_ret. intros d [-> ->]. split; [|done].
    apply list_filter_iff. intros m. apply failed_elem. }
  destruct (decide (mode = "explicit")) as [->|]; [|exfalso; set_solver].
  eapply total_conseq; [apply (explicit_repos_total db)|done|].
  - apply Forall_forall. intros m (_ & i & Hi)%repos_of_mig_spec. by eapply po_mr_refs.
  - intros x d [-> ->]. split; [|done]. apply list_filter_iff. intros m.
    by rewrite bool_decide_eq_true, elem_of_list_to_set.
Qed.

Definition urls_of (db : DB) (l : list MigRepo) (urls : gmap string string) : gmap string string :=
  foldl (λ u m, <[mr_RepoID m := repo_url db m]> u) urls l.

Lemma selected_urls_total db l urls :
  Forall (λ m, is_Some (db_repos db !! mr_RepoID m)) l →
  Tx.total env (λ d, d = db) (selected_urls l urls)
    (λ x d, x = (urls_of db l urls, repo_url db <$> l) ∧ d = db).
Proof using Type.
  revert urls. induction l as [|m l IH]; intros urls Hl; cbn [selected_urls]; [by apply total_ret; intros d ->|].
  apply Forall_cons in Hl as [[r Hr] Hl].
  assert (Hu : repo_url db m = repo_Url r) by (unfold repo_url; by rewrite Hr).
  eapply total_then; [by apply repoURLForID_total|].
  eapply total_then; [by apply IH|]. apply total_ret. intros d ->. split; [|done].
  rewrite <-Hu. done.
Qed.

Lemma urls_of_lookup db l urls m : m ∈ l → urls_of db l urls !! mr_RepoID m = Some (repo_url db m).
Proof using Type.
  assert (Hkeep : ∀ l urls, urls !! mr_RepoID m = Some (repo_url db m) →
    urls_of db l urls !! mr_RepoID m = Some (repo_url db m)).
  { clear. intros l. induction l as [|x l IH]; intros urls Hu; [done|]. apply IH.
    destruct (decide (mr_RepoID x = mr_RepoID m)) as [E|Hne]; [|by rewrite lookup_insert_ne].
    rewrite E, lookup_insert_eq. unfold repo_url. by rewrite E. }
  revert urls. induction l as [|x l IH]; intros urls; [by intros ?%elem_of_nil|].
  intros [->|Hin]%elem_of_cons; [apply (Hkeep l), lookup_insert_eq|by apply IH].
Qed.

End Selection.

(** ** The plans of a launch *)

Section Plans.
Context (resolve : string → string → string → option string) (newRunID : nat → string).
Context (token : string) (stats : raw) (jobs : list JobPlan).

Lemma run_plans_total sha i l urls :
  (∀ m, m ∈ l → resolve (default "" (urls !! mr_RepoID m)) (mr_BaseRef m) token = Some (sha m)) →
  run_plans resolve newRunID i l urls token stats jobs =
    Some (imap (λ k m, run_plan newRunID (i + k) m (sha m) stats jobs) l).
Proof.
  revert i. induction l as [|m l IH]; intros i Hsha; [done|]. cbn [run_plans].
  rewrite (Hsha m) by left. cbn. rewrite IH by (intros; apply Hsha; by right). cbn. f_equal. f_equal.
  - by rewrite Nat.add_0_r.
  - apply imap_ext. intros k x _. cbn. by rewrite Nat.add_succ_r.
Qed.

End Plans.

Lemma plan_ok `{GoFmt} `{SpecLib} j plans :
  planJobsFromSpec j = Some plans → plans ≠ [] ∧ Forall known_meta plans.
Proof.
  unfold planJobsFromSpec. destruct (ParseMigSpecJSON _) as [|spec] eqn:E; [done|]. intros Hm. split.
  - intros ->. apply mapM_Some, Forall2_nil_inv_r in Hm.
    unfold drafts in Hm. apply app_eq_nil in Hm as [_ Hm]. apply app_eq_nil in Hm as [Hm _].
    destruct (decide _) as [Hl|]; destruct (spec_Steps spec); simpl in *; try done. lia.
  - apply mapM_Some in Hm. pose proof (drafts_ok spec) as Hok. apply Forall_forall.
    intros p (k & Hk)%list_elem_of_lookup. destruct (Forall2_lookup_r _ _ _ _ _ Hm Hk) as (d & Hd & Hp).
    rewrite Forall_lookup in Hok. destruct (plan_draft_Some d (Hok _ _ Hd)) as (meta & _ & E'). rewrite E' in Hp.
    injection Hp as <-. by exists meta.
Qed.

(** Statistics with a marker can be stored. *)
Lemma marker_stored hash stats : RunStatsWithMarker hash = Some stats → validateJSONB stats = true.
Proof.
  unfold RunStatsWithMarker. destruct (decide _); [by intros [= <-]|]. repeat case_match; by intros [= <-].
Qed.

(** ** A launch that goes through *)

Section Launch.
Context `{Collation} `{UrlLib} `{GoFmt} `{SpecLib}.
Context (Hash : string → string) (configuredHost : string).
Context (schemeAndHost : string → string * string) (EqualFold : string → string → bool).
Context (resolve : string → string → string → option string).
Context (newWaveID : string) (newRunID newJobID : nat → string).

(** What a launch of [repos] needs of the request and of the world around it. *)
Record launchable (db : DB) (migID : string) (req : CreateMigRunRequest) (repos : list MigRepo)
    (specID hash token : string) (stats : raw) (jobs : list JobPlan) (sha : MigRepo → string) : Prop := {
  la_mode : cmq_Mode req ∈ ["all"; "failed"; "explicit"];
  la_urls : cmq_Mode req = "explicit" → cmq_Repos req ≠ [];
  la_mig : ∃ mig spec, db_migs db !! migID = Some mig ∧ archived mig = false ∧ mig_SpecID mig = Some specID ∧
    db_specs db !! specID = Some spec ∧ planJobsFromSpec (sp_Spec spec) = Some jobs;
  la_repos : repos = selected db migID (cmq_Mode req) (cmq_Repos req);
  la_some : repos ≠ [];
  la_idle : ∀ m i r, m ∈ repos → db_runs db !! i = Some r → run_RepoID r = mr_RepoID m →
    active_run (run_Status r) = false;
  la_token : validateGitLabTokenRequestForRepos Hash configuredHost schemeAndHost EqualFold
    (cmq_GitLabToken req) (repo_url db <$> repos) = Some (hash, token);
  la_stats : RunStatsWithMarker hash = Some stats;
  la_sha : ∀ m, m ∈ repos → resolve (repo_url db m) (mr_BaseRef m) token = Some (sha m);
  la_wave : db_waves db !! newWaveID = None;
  la_runs : (∀ k l, newRunID k = newRunID l → k = l) ∧ ∀ k, db_runs db !! newRunID k = None;
  la_jobs : unused newJobID db
}.

Definition launch_plans (repos : list MigRepo) (sha : MigRepo → string) (stats : raw) (jobs : list JobPlan) :
    list RunPlan :=
  imap (λ k m, run_plan newRunID k m (sha m) stats jobs) repos.

Lemma launch_plans_ids repos sha stats jobs :
  rp_ID <$> launch_plans repos sha stats jobs = newRunID <$> seq 0 (length repos).
Proof using Type.
  apply list_eq. intros k. unfold launch_plans. rewrite !list_lookup_fmap, list_lookup_imap.
  destruct (repos !! k) as [m|] eqn:E; simpl.
  - rewrite lookup_seq_lt by (by eapply lookup_lt_Some). done.
  - rewrite lookup_seq_ge by (by apply lookup_ge_None). done.
Qed.

Lemma launch_plans_repos repos sha stats jobs :
  rp_RepoID <$> launch_plans repos sha stats jobs = mr_RepoID <$> repos.
Proof using Type.
  apply list_eq. intros k. unfold launch_plans. rewrite !list_lookup_fmap, list_lookup_imap. by destruct (repos !! k).
Qed.

Lemma launchable_ready env db migID req repos specID hash token stats jobs sha :
  sound db → launchable db migID req repos specID hash token stats jobs sha →
  let wave := mkCreateWaveParams newWaveID migID specID (cmq_CreatedBy req) in
  ready newJobID wave (set_db_waves (<[newWaveID := new_wave wave (env_now env)]> (db_waves db)) db)
    (launch_plans repos sha stats jobs).
Proof using Type.
  intros [Hwf Hp] [Hmode Hurls (mig & spec & Hm & Har & Hsp & Hs & Hjobs) Hrepos Hsome Hidle Htok Hstats Hsha Hw [Hri Hrn] Hj] wave.
  destruct (plan_ok _ _ Hjobs) as [Hne Hmeta].
  split; simpl; [by rewrite lookup_insert_eq|by rewrite Hm|by rewrite Hs|done|..].
  - rewrite launch_plans_ids. apply NoDup_fmap_2; [|apply NoDup_seq]. intros ? ?. apply Hri.
  - rewrite launch_plans_repos, Hrepos. by apply selected_repos_nodup.
  - apply Forall_forall. intros p (k & Hk)%list_elem_of_lookup. unfold launch_plans in Hk.
    rewrite list_lookup_imap, fmap_Some in Hk. destruct Hk as (m & Hmk & ->). apply list_elem_of_lookup_2 in Hmk.
    pose proof Hmk as Hin. rewrite Hrepos in Hin. apply list_elem_of_filter in Hin as [_ (Hmm & i & Hi)%repos_of_mig_spec].
    split; simpl; try done; [by eapply marker_stored|by eapply po_mr_refs| |eauto].
    apply member_spec. eauto.
Qed.

Lemma createMigRun_total env db registry migID req repos specID hash token stats jobs sha :
  sound db → launchable db migID req repos specID hash token stats jobs sha →
  let wave := mkCreateWaveParams newWaveID migID specID (cmq_CreatedBy req) in
  let w := new_wave wave (env_now env) in
  let plans := launch_plans repos sha stats jobs in
  Tx.total env (λ d, d = db)
    (createMigRunHandler Hash configuredHost schemeAndHost EqualFold resolve newWaveID newRunID newJobID
       registry migID req)
    (λ r d, ∃ rjs, r = mkResponse 201 (Some (w, rjs))
        (if decide (hash = "") then registry else RegisterNil hash token (rp_ID <$> plans) registry) ∧
      launched_rows env wave newJobID plans rjs ∧
      d = add_runs rjs (set_db_waves (<[newWaveID := w]> (db_waves db)) db)).
Proof using Type.
  intros Hsound Hl wave w plans. pose proof (launchable_ready env _ _ _ _ _ _ _ _ _ _ Hsound Hl) as Hready.
  destruct Hsound as [Hwf Hp].
  destruct Hl as [Hmode Hurls (mig & spec & Hm & Har & Hsp & Hs & Hjobs) Hrepos Hsome Hidle Htok Hstats Hsha Hw _ _].
  unfold createMigRunHandler. rewrite bool_decide_eq_true_2 by done. cbn [negb].
  rewrite bool_decide_eq_false_2 by (intros [E1 E2]; by apply Hurls).
  eapply total_then with (x := inr mig) (Q := λ d, d = db).
  { unfold getMigByIDOrFail. eapply total_then; [by apply total_attempt_eq, total_get|]. by apply total_ret. }
  cbn beta iota. rewrite Har, Hsp. eapply total_then; [by apply total_attempt_eq, total_get|].
  cbn beta iota. rewrite Hjobs.
  rewrite (po_mig_key _ Hp _ _ Hm).
  eapply total_then; [by apply total_attempt_eq, selectRepos_total|]. rewrite <-Hrepos.
  destruct repos as [|m0 ms] eqn:Er; [done|]. rewrite <-Er in *.
  eapply total_then.
  { apply total_attempt_eq, selected_urls_total. apply Forall_forall. intros m Hin. rewrite Hrepos in Hin.
    apply list_elem_of_filter in Hin as [_ (_ & i & Hi)%repos_of_mig_spec]. by eapply po_mr_refs. }
  cbn beta iota. rewrite Htok, Hstats, (run_plans_total resolve newRunID token stats jobs sha).
  2: { intros m Hin. rewrite urls_of_lookup by done. by apply Hsha. }
  unfold launch. eapply total_bind; [apply total_attempt, CreateWaveWithRuns_total; [done| |exact Hready]|].
  - rewrite Er. done.
  - intros r d ins hub ([w' rjs] & -> & E1 & E2 & E3). simpl in E1, E2, E3. subst. eexists _, _, _. split; [done|]. eauto.
Qed.

(** What each selected repository has afterwards. *)
Lemma launch_rows env db wave repos sha stats jobs rjs k m :
  (∀ i j, db_jobs db !! i = Some j → job_ID j = i ∧ is_Some (db_runs db !! job_RunID j)) →
  launched_rows env wave newJobID (launch_plans repos sha stats jobs) rjs →
  (∀ k l, newRunID k = newRunID l → k = l) → (∀ k, db_runs db !! newRunID k = None) →
  unused newJobID db → jobs ≠ [] → repos !! k = Some m →
  let run := plan_run env wave (run_plan newRunID k m (sha m) stats jobs) in
  ∃ js, rjs !! k = Some (run, js) ∧ job_Name <$> js = jp_Name <$> jobs ∧ run_started (add_runs rjs db) run js.
Proof using Type.
  intros Hold Hl Hri Hrn [Hji _] Hne Hm run.
  assert (Hk : rjs.*1 !! k = Some run).
  { rewrite (launched_runs _ _ _ _ _ Hl), list_lookup_fmap. unfold launch_plans. by rewrite list_lookup_imap, Hm. }
  rewrite list_lookup_fmap, fmap_Some in Hk. destruct Hk as ([run' js] & Hk & E). simpl in E. subst run'.
  exists js. apply list_elem_of_lookup_2 in Hk as Hin. split; [done|]. split.
  - destruct (launched_built _ _ _ _ _ _ Hl Hin) as (g & plan & Hp & _ & Hb). apply list_elem_of_lookup in Hp as (i & Hp).
    unfold launch_plans in Hp. rewrite list_lookup_imap, fmap_Some in Hp. destruct Hp as (m' & _ & ->). simpl in Hb.
    rewrite (built_names _ _ _ _ Hb), list_fmap_compose. by rewrite zip_gen_snd.
  - apply (launched_started env wave newJobID _ rjs db (run, js) Hji Hl); [..|done].
    + rewrite launch_plans_ids. apply NoDup_fmap_2; [|apply NoDup_seq]. intros ? ?. apply Hri.
    + apply Forall_forall. intros p (i & Hp)%list_elem_of_lookup. unfold launch_plans in Hp.
      rewrite list_lookup_imap, fmap_Some in Hp. by destruct Hp as (? & _ & ->).
    + intros i j Hj. destruct (Hold _ _ Hj) as [Hid [r Hr]]. split; [done|]. rewrite launch_plans_ids.
      intros (x & E & _)%list_elem_of_fmap. by rewrite E, Hrn in Hr.
Qed.

(** Rows that were there stay. *)
Lemma launch_keeps env db wave repos sha stats jobs rjs :
  launched_rows env wave newJobID (launch_plans repos sha stats jobs) rjs →
  (∀ k, db_runs db !! newRunID k = None) → unused newJobID db →
  db_runs db ⊆ db_runs (add_runs rjs db) ∧ db_jobs db ⊆ db_jobs (add_runs rjs db).
Proof using Type.
  intros Hl Hrn [_ Hjn]. split; apply map_subseteq_spec; intros i x Hx.
  - rewrite add_runs_other_run; [done|]. rewrite list_fmap_compose, (launched_runs _ _ _ _ _ Hl), <-list_fmap_compose.
    change (run_ID ∘ plan_run env wave) with rp_ID. rewrite launch_plans_ids. intros (k & -> & _)%list_elem_of_fmap.
    by rewrite Hrn in Hx.
  - rewrite add_runs_old_job; [done|]. intros rj j Hrj Hj <-.
    destruct (launched_ids _ _ _ _ _ _ _ Hl Hrj Hj) as [k Hk]. by rewrite Hk, Hjn in Hx.
Qed.

End Launch.

(** ** A submission that is refused *)

(** The registry holds the same registrations as before. *)
Definition same_tokens (before after : option Registry) : Prop :=
  match before, after with
  | None, None => True
  | Some g, Some g' => registry_ok g' ∧ rg_runHash g' = rg_runHash g
  | _, _ => False
  end.

Lemma register_release hash token ids g :
  registry_ok g → Forall (λ i, IsZero i = false ∧ rg_runHash g !! i = None) ids →
  registry_ok (ReleaseRuns ids (Register hash token ids g)) ∧
  rg_runHash (ReleaseRuns ids (Register hash token ids g)) = rg_runHash g.
Proof.
  intros Hg Hids. rewrite Forall_forall in Hids.
  assert (registry_ok (Register hash token ids g) ∧
    ∀ i, i ∉ ids → rg_runHash (Register hash token ids g) !! i = rg_runHash g !! i) as [Hok Hrest].
  { destruct ids as [|i0 ids]; [unfold Register; by rewrite orb_true_r|].
    destruct (decide (trim_space hash = "")) as [E|Hh]; [unfold Register; by rewrite bool_decide_true|].
    destruct (decide (trim_space token = "")) as [E|Ht].
    { unfold Register. rewrite (bool_decide_true (trim_space token = "")) by done. by rewrite orb_true_r. }
    destruct (Hids i0) as [Hz _]; [left|]. split; [eapply Register_ok; try done; left|].
    intros i Hi. erewrite Register_runHash; try done; [|left]. apply decide_False. by intros []. }
  split; [by apply ReleaseRuns_ok|]. apply map_eq. intros i. rewrite ReleaseRuns_runHash by done.
  destruct (decide (i ∈ ids)) as [Hi|Hi]; [|by apply Hrest]. symmetry. by apply Hids.
Qed.

(** Unless [m] answers 201, what [f] sees of the database is as before, and so are
    the tokens in the registry. *)
Definition refuses {A X} (f : DB → X) (registry : option Registry) (m : M (Response A)) : Prop :=
  ∀ t, match (m t).1 with
       | inr r => rsp_code r ≠ 201%Z → f (tx_db (m t).2) = f (tx_db t) ∧ same_tokens registry (rsp_registry r)
       | inl _ => f (tx_db (m t).2) = f (tx_db t)
       end.

(** A transaction that fails leaves nothing. *)
Lemma transaction_fails {A} (m : M A) t e t' : transaction m t = (inl e, t') → tx_db t' = tx_db t.
Proof.
  unfold transaction. destruct (head (tx_faults t)) as [[e0|]|]; [by intros [= _ <-]|..];
    (destruct (m _) as [[e1|a] t1]; [by intros [= _ <-]|]; destruct (tx_aborted t1); [by intros [= _ <-]|];
     destruct (head (tx_faults t1)) as [[e2|]|]; by intros [= _ <-]).
Qed.

Section Refuses.
Context {X : Type} (f : DB → X) (registry : option Registry).
Context (Hok : ∀ g, registry = Some g → registry_ok g).

Definition same_as (x : X) (db : DB) : Prop := f db = x.

Lemma refuses_ret {A} code (body : option A) : refuses f registry (mret (mkResponse code body registry)).
Proof using Hok. intros t _. split; [done|]. simpl. destruct registry; [by split; [apply Hok|]|done]. Qed.

Lemma refuses_bind {A B} (m : M B) (k : B → M (Response A)) :
  (∀ x, stays (same_as x) m) → (∀ b, refuses f registry (k b)) → refuses f registry (m ≫= k).
Proof using Type.
  intros Hm Hk t. specialize (Hm (f (tx_db t)) t eq_refl). unfold mbind, M_bind.
  destruct (m t) as [[e|b] t'] eqn:E; simpl in *; [done|]. rewrite <-Hm. apply Hk.
Qed.

Lemma launch_refuses `{Collation} gen hash token wave plans :
  (∀ g, registry = Some g → Forall (λ i, IsZero i = false ∧ rg_runHash g !! i = None) (rp_ID <$> plans)) →
  refuses f registry (launch gen registry hash token wave plans).
Proof using Hok.
  intros Hids t. unfold launch, mbind, M_bind, attempt.
  destruct (CreateWaveWithRuns gen wave plans t) as [[e|wr] t'] eqn:E; simpl; [|done]. intros _. split.
  - f_equal. unfold CreateWaveWithRuns in E. destruct plans; [by injection E as _ <-|]. by eapply transaction_fails.
  - destruct registry as [g|]; [|by repeat destruct (decide _)]. destruct (decide (hash = "")); [by split; [apply Hok|]|].
    simpl. by apply register_release; [apply Hok|apply Hids].
Qed.

End Refuses.

Ltac refuse :=
  repeat lazymatch goal with
  | |- refuses _ _ (mret _) => apply refuses_ret; assumption
  | |- refuses _ _ (mbind _ _) => apply refuses_bind; [intros ?; stay|intros ?]
  | |- refuses _ _ (match _ with _ => _ end) => case_match
  end.

(** An archived mig is not launched. *)
Lemma createMigRun_archived `{Collation} `{UrlLib} `{GoFmt} `{SpecLib} env db mig Hash host sh ef resolve wave run job
    registry req :
  db_migs db !! mig_ID mig = Some mig → archived mig = true →
  Tx.total env (λ d, d = db)
    (createMigRunHandler Hash host sh ef resolve wave run job registry (mig_ID mig) req)
    (λ x d, rsp_code x ∈ [400%Z; 409%Z] ∧ rsp_body x = None ∧ d = db).
Proof.
  intros Hm Ha. unfold createMigRunHandler. destruct (negb _); [apply total_ret; set_solver|].
  destruct (bool_decide _); [apply total_ret; set_solver|].
  eapply total_then with (x := inr mig) (Q := λ d, d = db).
  { unfold getMigByIDOrFail. eapply total_then; [by apply total_attempt_eq, total_get|]. by apply total_ret. }
  cbn beta iota. rewrite Ha. apply total_ret. set_solver.
Qed.

Section Refusals.
Context `{Collation} `{UrlLib} `{GoFmt} `{SpecLib}.
Context (Hash : string → string) (configuredHost : string).
Context (schemeAndHost : string → string * string) (EqualFold : string → string → bool).
Context (resolve : string → string → string → option string).
Context (newWaveID : string) (newRunID newJobID : nat → string).
#[local] Hint Resolve getMigByIDOrFail_stays selectRepos_stays selected_urls_stays : stays.

(** The registry, which has not seen the runs to come. *)
Context (registry : option Registry) (Hok : ∀ g, registry = Some g → registry_ok g).
Context (Hruns : ∀ g k, registry = Some g → IsZero (newRunID k) = false ∧ rg_runHash g !! newRunID k = None).

Lemma run_plans_ids i l urls token stats jobs plans id :
  run_plans resolve newRunID i l urls token stats jobs = Some plans → id ∈ rp_ID <$> plans →
  ∃ k, id = newRunID k.
Proof using Type.
  revert i plans. induction l as [|m l IH]; intros i plans; cbn [run_plans].
  { intros [= <-] Hin. by apply elem_of_nil in Hin. }
  destruct (resolve _ _ _) as [sha|]; [|done]. cbn. destruct (run_plans _ _ _ _ _ _ _ _) as [others|] eqn:E; [|done].
  intros [= <-]. rewrite fmap_cons. intros [->|Hin]%elem_of_cons; [by eexists|by eapply IH].
Qed.

Lemma createMigRun_refuses migID req :
  refuses id registry
    (createMigRunHandler Hash configuredHost schemeAndHost EqualFold resolve newWaveID newRunID newJobID
       registry migID req).
Proof using Hok Hruns.
  unfold createMigRunHandler. refuse. apply launch_refuses; [done|]. intros gr Hgr.
  apply Forall_forall. intros i Hi.
  match goal with E : run_plans _ _ _ _ _ _ _ _ = Some _ |- _ => destruct (run_plans_ids _ _ _ _ _ _ _ _ E Hi) as [k ->] end.
  by apply Hruns.
Qed.

(** What runs are made of. *)
Definition run_tables (db : DB) := (db_waves db, db_runs db, db_jobs db, db_nodes db).

Lemma stmt_tables {A} (g : Env → DB → Err + A * DB) x :
  (∀ env db a db', g env db = inr (a, db') → run_tables db' = run_tables db) →
  stays (same_as run_tables x) (stmt g).
Proof using Type. intros Hg. apply stays_stmt. intros env db a db' <- E. by eapply Hg. Qed.

Lemma CreateSpec_tables a x : stays (same_as run_tables x) (CreateSpec a).
Proof using Type. unfold CreateSpec. stay. apply stmt_tables. intros. repeat case_match; by simplify_eq. Qed.

Lemma persist_tables i s c x : stays (same_as run_tables x) (persistRunSubmissionSpec i s c).
Proof using Type.
  unfold persistRunSubmissionSpec, GetGitSpecSnapshot, CreateGitSpecSnapshot. stay; try apply CreateSpec_tables.
  apply stmt_tables. intros. repeat case_match; by simplify_eq.
Qed.

Lemma CreateMig_tables a x : stays (same_as run_tables x) (CreateMig a).
Proof using Type. unfold CreateMig. stay. apply stmt_tables. intros. repeat case_match; by simplify_eq. Qed.

Lemma CreateMigRepo_tables a x : stays (same_as run_tables x) (CreateMigRepo a).
Proof using Type.
  unfold CreateMigRepo. apply stmt_tables. intros env db r db' E. unfold resolve_repo, insert_mig_repo in E.
  repeat case_match; by simplify_eq.
Qed.
#[local] Hint Resolve persist_tables CreateMig_tables CreateMigRepo_tables : stays.

Lemma createSingleRepoRun_refuses named newMigID newSpecID newMigRepoID caller req :
  refuses run_tables registry
    (createSingleRepoRunHandler Hash configuredHost schemeAndHost EqualFold resolve newRunID newJobID
       named newMigID newSpecID newMigRepoID registry caller req).
Proof using Hok Hruns.
  unfold createSingleRepoRunHandler. refuse; (apply launch_refuses; [done|]; intros gr Hgr;
    apply Forall_cons; split; [by apply Hruns|done]).
Qed.

End Refusals.
