(* ===== verification/ProjectExact.v ===== *)
(** * Projects: what archiving, deletion and import do

    The two guards scan all runs page by page; their loop is shown to end with the
    answer a single scan of the table would give. *)

From stdpp Require Import base gmap sets list sorting strings.
From S2P Require Import Prelude GoStrings Types Json JobMeta Hydra Spec Db Tx Queries JobChain.
From S2P Require Import Lifecycle Store Projects Chains Invariant LaunchSafety ProjectSafety.
From Stdlib Require Import ZArith Lia.
Local Open Scope list_scope.

Section Scan.
Context `{Collation} (env : Env).

(** ** The scan of pages *)

(** A check that returns [p r] of every run, and changes nothing. *)
Definition checks (db : DB) (f : Run → M bool) (p : Run → bool) : Prop :=
  ∀ r, Tx.total env (λ d, d = db) (f r) (λ x d, x = p r ∧ d = db).

Lemma match_any_total db f p page :
  checks db f p → Tx.total env (λ d, d = db) (match_any f page) (λ x d, x = existsb p page ∧ d = db).
Proof using Type.
  intros Hf. induction page as [|r page IH]; cbn [match_any existsb]; [by apply total_ret|].
  eapply total_then; [apply Hf|]. destruct (p r); [by apply total_ret|done].
Qed.

Lemma scan_pages_total db f p rounds off :
  checks db f p → let runs := runs_newest_first db in
  (length runs - off < rounds)%nat → (Z.of_nat (length runs) + pageLimit < 2 ^ 31)%Z → (off ≤ length runs + 200)%nat →
  Tx.total env (λ d, d = db) (scan_pages rounds (Z.of_nat off) f)
    (λ x d, x = Some (existsb p (drop off runs)) ∧ d = db).
Proof using Type.
  intros Hf runs. revert off. induction rounds as [|n IH]; intros off Hn Hsize Hoff; [lia|]. cbn [scan_pages].
  eapply total_then with (x := take 200 (drop off runs)) (Q := λ d, d = db).
  { apply total_stmt. intros d ->. rewrite !decide_False by (unfold pageLimit; lia).
    unfold pageLimit. rewrite !Nat2Z.id. eauto. }
  destruct (take 200 (drop off runs)) as [|r page] eqn:Ep.
  { apply total_ret. intros d ->. split; [|done]. destruct (drop off runs); [done|by simpl in Ep]. }
  rewrite <-Ep. eapply total_then; [by apply match_any_total|].
  assert (Hlt : (off < length runs)%nat).
  { destruct (decide (off < length runs)%nat); [done|]. by rewrite drop_ge in Ep by lia. }
  destruct (existsb p (take 200 (drop off runs))) eqn:Ex.
  - apply total_ret. intros d ->. split; [|done]. f_equal. rewrite <-(take_drop 200 (drop off runs)), existsb_app, Ex. done.
  - unfold pageLimit in *. replace (wrap32 (Z.of_nat off + 200)) with (Z.of_nat (off + 200)).
    2: { unfold wrap32. rewrite Z.mod_small by lia. lia. }
    eapply total_conseq; [apply (IH (off + 200)); [|done|]; lia|done|]. intros x d [-> ->]. split; [|done].
    f_equal. rewrite <-(take_drop 200 (drop off runs)), existsb_app, Ex, drop_drop. done.
Qed.

(** The runs fit the offsets of the scan. *)
Definition scannable (db : DB) : Prop := (Z.of_nat (size (db_runs db)) + pageLimit < 2 ^ 31)%Z.

Lemma length_newest db : length (runs_newest_first db) = size (db_runs db).
Proof using Type.
  unfold runs_newest_first, select, rows. rewrite (Permutation_length (merge_sort_Permutation _ _)).
  rewrite (list_filter_iff _ (λ _, True)) by done. rewrite filter_all by (by apply Forall_true).
  by rewrite length_fmap, length_map_to_list.
Qed.

Lemma scanRunPages_total db f p :
  checks db f p → scannable db →
  Tx.total env (λ d, d = db) (scanRunPages f)
    (λ x d, x = Some (existsb p (runs_newest_first db)) ∧ d = db).
Proof using Type.
  intros Hf Hs d ins hub ->. unfold scannable in Hs. rewrite <-length_newest in Hs.
  destruct (scan_pages_total db f p (S (size (db_runs db))) 0 Hf) with (db := db) (ins := ins) (hub := hub)
    as (x & d' & hub' & E & -> & ->); [rewrite length_newest; lia|done|lia|done|]. eexists _, _, _. split; [exact E|done].
Qed.

End Scan.

(** ** Finding a mig *)

(** [ref] is the mig's identifier or, when no mig has that identifier, its name. *)
Definition names_mig (db : DB) (ref : string) (mig : Mig) : Prop :=
  db_migs db !! mig_ID mig = Some mig ∧
  (ref = mig_ID mig ∨ db_migs db !! ref = None ∧ mig_Name mig = ref).

Lemma total_attempt_none {A} env (f : DB → option A) db :
  f db = None →
  Tx.total env (λ d, d = db) (attempt (query_one (λ _ d, inr (f d, d)))) (λ r d, r = inl ErrNoRows ∧ d = db).
Proof.
  intros Hf d ins hub ->. exists (inl ErrNoRows), db, hub. split; [|done].
  unfold attempt, query_one, mbind, M_bind, stmt. simpl. by rewrite Hf.
Qed.

Lemma getMigByRef_total env db ref mig :
  projects_ok db → names_mig db ref mig →
  Tx.total env (λ d, d = db) (getMigByRefOrFail ref) (λ r d, r = inr mig ∧ d = db).
Proof.
  intros Hp [Hm Href]. unfold getMigByRefOrFail, resolveMigByRef.
  eapply total_then with (x := inr mig) (Q := λ d, d = db); [|by apply total_ret].
  apply total_attempt_eq. destruct Href as [->|[Hn Hname]].
  { eapply total_then; [by apply total_attempt_eq, total_get|]. by apply total_ret. }
  eapply total_then; [by apply total_attempt_none|]. simpl. apply total_get.
  destruct (list_find _ _) as [[k m]|] eqn:E; simpl.
  - apply list_find_Some in E as (Hk & Hmn & _). apply list_elem_of_lookup_2, elem_of_rows in Hk as [i Hi]. f_equal.
    assert (i = mig_ID mig) as -> by (eapply (po_mig_name _ Hp); [done..|congruence]). congruence.
  - apply list_find_None, Forall_forall with (x := mig) in E; [done|]. apply elem_of_rows. eauto.
Qed.

(** ** Archiving and deleting *)

Section Archive.
Context `{Collation} (env : Env) (db : DB) (Hs : sound db) (Hscan : scannable db).

Definition mig_running (migID : string) : bool :=
  existsb (λ r, bool_decide (run_MigID r = migID) && active_run (run_Status r)) (rows (db_runs db)).
Definition mig_used (migID : string) : bool :=
  existsb (λ r, bool_decide (run_MigID r = migID)) (rows (db_runs db)).

Lemma existsb_newest p : existsb p (runs_newest_first db) = existsb p (rows (db_runs db)).
Proof using Type.
  apply eq_true_iff_eq. rewrite !existsb_exists. setoid_rewrite <-list_elem_of_In.
  setoid_rewrite elem_of_rows. unfold runs_newest_first. setoid_rewrite elem_of_select. naive_solver.
Qed.

(** Under the invariant, a run has a queued or running job exactly while it runs. *)
Lemma run_busy i r :
  db_runs db !! i = Some r →
  existsb busy_job (select (λ j, bool_decide (job_RunID j = run_ID r)) by_attempt_id (db_jobs db))
    = active_run (run_Status r).
Proof using Hs.
  clear Hscan. destruct Hs as [Hwf _]. intros Hr. pose proof (wf_run_key _ Hwf _ _ Hr) as Hid.
  apply eq_true_iff_eq. rewrite existsb_exists. setoid_rewrite <-list_elem_of_In. setoid_rewrite elem_of_select.
  unfold busy_job. setoid_rewrite bool_decide_eq_true. split.
  - intros (j & [Hjr [k Hk]] & Hst). rewrite Hid in Hjr. rewrite <-Hjr in Hr.
    destruct (active_job_live _ Hwf _ _ r Hk) as [-> _]; [by destruct Hst as [-> | ->]|done|done].
  - intros Ha. destruct (wf_run _ Hwf _ _ Hr) as [Hq Hat _ _].
    destruct (wf_attempt _ Hwf _ _ (run_Attempt r) Hr) as (c & Hc & Hok); [lia|].
    assert (live r (run_Attempt r) = true) as Hl.
    { unfold live. rewrite bool_decide_eq_true_2 by done. apply bool_decide_eq_true. by destruct (run_Status r). }
    rewrite Hl in Hok. apply ao_statuses, live_split in Hok as (pre & j & post & -> & _ & Hst & _).
    assert (Hin : j ∈ pre ++ j :: post) by set_solver. apply (ch_elem _ _ _ _ Hc) in Hin as (Hj & Hjr & _).
    exists j. split; [|tauto]. split; [congruence|eauto].
Qed.

Lemma running_total migID :
  Tx.total env (λ d, d = db) (migHasAnyRunningJobs migID) (λ x d, x = Some (mig_running migID) ∧ d = db).
Proof using Hs Hscan.
  set (p := λ r, if decide (run_MigID r = migID) then
    existsb busy_job (select (λ j, bool_decide (job_RunID j = run_ID r)) by_attempt_id (db_jobs db)) else false).
  replace (mig_running migID) with (existsb p (runs_newest_first db)).
  - apply scanRunPages_total; [|done]. intros r. unfold p. destruct (decide _); [|by apply total_ret].
    eapply total_then with (Q := λ d, d = db); [apply total_query; intros d ->; done|].
    by apply total_ret.
  - rewrite existsb_newest. unfold mig_running. apply eq_true_iff_eq. rewrite !existsb_exists.
    setoid_rewrite <-list_elem_of_In. setoid_rewrite elem_of_rows. unfold p.
    split; intros (r & [i Hr] & Hb); exists r; (split; [by exists i|]).
    + destruct (decide _); [|done]. rewrite (run_busy i) in Hb by done. by rewrite bool_decide_eq_true_2.
    + apply andb_true_iff in Hb as [Hb1%bool_decide_eq_true Hb2]. rewrite decide_True by done. by rewrite (run_busy i).
Qed.

Lemma used_total migID :
  Tx.total env (λ d, d = db) (migHasAnyRuns migID) (λ x d, x = Some (mig_used migID) ∧ d = db).
Proof using Hscan.
  unfold mig_used. rewrite <-existsb_newest. apply scanRunPages_total; [|done]. intros r. by apply total_ret.
Qed.

Lemma archive_total ref mig :
  names_mig db ref mig →
  Tx.total env (λ d, d = db) (archiveMigHandler ref) (λ x d,
    if archived mig then x = (200%Z, Some true) ∧ d = db
    else if mig_running (mig_ID mig) then x = (409%Z, None) ∧ d = db
    else x = (200%Z, Some true) ∧
         d = set_db_migs (<[mig_ID mig := set_archived (Some (env_now env)) mig]> (db_migs db)) db).
Proof using Hs Hscan.
  intros Hm. unfold archiveMigHandler. eapply total_then; [apply getMigByRef_total; [apply Hs|done]|]. cbn beta iota.
  destruct (archived mig) eqn:Ea; [by apply total_ret|].
  eapply total_then; [apply total_attempt_eq, running_total|]. cbn beta iota.
  destruct (mig_running (mig_ID mig)); [by apply total_ret|].
  eapply total_bind; [apply total_attempt|intros x; apply total_ret; intros d (? & -> & Hd); split; [done|exact Hd]].
  apply total_exec. intros d ->. f_equal. destruct Hm as [Hm _]. apply map_eq. intros i.
  destruct (decide (i = mig_ID mig)) as [->|Hne]; [|by rewrite lookup_alter_ne, lookup_insert_ne].
  rewrite lookup_alter_eq, lookup_insert_eq, Hm. simpl. unfold archived in Ea. apply bool_decide_eq_false in Ea.
  destruct (mig_ArchivedAt mig); [by destruct Ea; eauto|done].
Qed.

Lemma deleteMig_total ref mig :
  names_mig db ref mig → (∀ i w, db_waves db !! i = Some w → wave_MigID w = mig_ID mig → mig_used (mig_ID mig) = true) →
  Tx.total env (λ d, d = db) (deleteMigHandler ref) (λ x d,
    if mig_used (mig_ID mig) then x = 409%Z ∧ d = db
    else x = 204%Z ∧
         d = set_db_mig_repos (filter (λ kv, mr_MigID kv.2 ≠ mig_ID mig) (db_mig_repos db))
               (set_db_migs (delete (mig_ID mig) (db_migs db)) db)).
Proof using Hs Hscan.
  intros Hm Hw. unfold deleteMigHandler. eapply total_then; [apply getMigByRef_total; [apply Hs|done]|]. cbn beta iota.
  eapply total_then; [apply total_attempt_eq, used_total|]. cbn beta iota.
  destruct (mig_used (mig_ID mig)) eqn:Eu; [by apply total_ret|].
  eapply total_bind; [apply total_attempt|intros x; apply total_ret; intros d (? & -> & Hd); split; [done|exact Hd]].
  apply total_stmt. intros d ->. fold (mig_used (mig_ID mig)). rewrite Eu.
  destruct (existsb _ (rows (db_waves db))) eqn:Ew; [|eauto].
  apply existsb_rows in Ew as (i & w & Hi & Hwm%bool_decide_eq_true). by specialize (Hw _ _ Hi Hwm).
Qed.

End Archive.

(** ** An archived mig *)

Section Archived.
Context `{Collation} `{UrlLib} `{GoFmt} `{SpecLib} (env : Env) (db : DB) (mig : Mig).
Context (Hp : projects_ok db) (Hm : db_migs db !! mig_ID mig = Some mig) (Ha : archived mig = true).

Lemma getMigByID_total :
  Tx.total env (λ d, d = db) (getMigByIDOrFail (mig_ID mig)) (λ r d, r = inr mig ∧ d = db).
Proof using Hm. eapply total_then; [by apply total_attempt_eq, total_get|]. by apply total_ret. Qed.

Lemma setMigSpec_refused specID req spec :
  ssr_Spec req ≠ RawEmpty → ParseMigSpecJSON (ssr_Spec req) = inr spec →
  Tx.total env (λ d, d = db) (setMigSpecHandler specID (mig_ID mig) req) (λ x d, x = (409%Z, None) ∧ d = db).
Proof using Type*.
  intros Hne Hparse. unfold setMigSpecHandler.
  destruct (ssr_Spec req); [done|..];
    (rewrite Hparse; eapply total_then; [apply getMigByRef_total; [done|by split; [done|left]]|]; cbn beta iota; rewrite Ha; by apply total_ret).
Qed.

Lemma addMigRepo_refused newID url ref :
  RepoURL_Validate (NormalizeRepoURL url) = true → GitRef_Validate ref = true →
  Tx.total env (λ d, d = db) (addMigRepoHandler newID (mig_ID mig) url ref) (λ x d, x = (409%Z, None) ∧ d = db).
Proof using Hm Ha.
  intros Hu Hb. unfold addMigRepoHandler. rewrite Hu, Hb. cbn [negb orb].
  eapply total_then; [apply getMigByID_total|]. cbn beta iota. rewrite Ha. by apply total_ret.
Qed.

Lemma bulkUpsert_refused fuel gen ct read :
  Tx.total env (λ d, d = db) (bulkUpsertMigReposHandler fuel gen (mig_ID mig) ct read)
    (λ x d, x = Some (409%Z, None) ∧ d = db).
Proof using Hm Ha.
  unfold bulkUpsertMigReposHandler. eapply total_then; [apply getMigByID_total|]. cbn beta iota. rewrite Ha. by apply total_ret.
Qed.

End Archived.

(** * Bulk import: the repositories of a mig as a map from URL to base ref

    An import is a sequence of insertions into that map, one per well-formed row, and
    its counts say how each row was treated. *)

(** ** The map *)

Definition ref_of (db : DB) (migID url : string) : option string :=
  match url_repo db url with
  | None => None
  | Some r => mr_BaseRef <$> mig_repo_of db migID (repo_ID r)
  end.

Lemma url_repo_Some db url r :
  projects_ok db → db_repos db !! repo_ID r = Some r → repo_Url r = url → url_repo db url = Some r.
Proof.
  intros Hp Hr Hu. pose proof (url_repo_spec db url Hp) as Hs. destruct (url_repo db url) as [x|]; [|by destruct (Hs _ _ Hr)].
  destruct Hs as [Hx Hxu]. assert (repo_ID x = repo_ID r) by (eapply (po_repo_url _ Hp); [done..|congruence]).
  congruence.
Qed.

Lemma ref_of_Some db migID url base :
  projects_ok db →
  ref_of db migID url = Some base ↔
  ∃ i m r, db_mig_repos db !! i = Some m ∧ db_repos db !! mr_RepoID m = Some r ∧
    mr_MigID m = migID ∧ repo_Url r = url ∧ mr_BaseRef m = base.
Proof.
  intros Hp. unfold ref_of. split.
  - pose proof (url_repo_spec db url Hp) as Hus. destruct (url_repo db url) as [r|]; [|done]. destruct Hus as [Hr Hu].
    pose proof (mig_repo_of_spec db migID (repo_ID r) Hp) as Hm. destruct (mig_repo_of _ _ _) as [m|]; [|done].
    destruct Hm as (Hm & H1 & H2). intros [= <-]. exists (mr_ID m), m, r. by rewrite H2.
  - intros (i & m & r & Hm & Hr & <- & <- & <-). pose proof (po_repo_key _ Hp _ _ Hr) as Hid.
    rewrite (url_repo_Some db (repo_Url r) r Hp) by (rewrite ?Hid; done). rewrite Hid.
    pose proof (mig_repo_of_spec db (mr_MigID m) (mr_RepoID m) Hp) as Hf.
    destruct (mig_repo_of _ _ _) as [m'|].
    + destruct Hf as (Hm' & E1 & E2). assert (mr_ID m' = i) as Ei by (eapply (po_mr_once _ Hp); done).
      simpl. congruence.
    + assert (member db (mr_MigID m) (mr_RepoID m) = true); [|congruence]. apply member_spec. eauto.
Qed.

Lemma ref_of_ext db db' migID url :
  (∀ b, ref_of db' migID url = Some b ↔ ref_of db migID url = Some b) → ref_of db' migID url = ref_of db migID url.
Proof. intros Hb. apply option_eq. intros b. apply Hb. Qed.

(** ** One row of the import *)

(** Repositories may be added; the map does not see it. *)
Lemma ref_of_repos db db' migID url :
  projects_ok db → projects_ok db' → db_mig_repos db' = db_mig_repos db → db_repos db ⊆ db_repos db' →
  ref_of db' migID url = ref_of db migID url.
Proof.
  intros Hp Hp' Em Hsub. apply ref_of_ext. intros b. rewrite !ref_of_Some by done. rewrite Em.
  split; intros (i & m & r & Hm & Hr & ?); exists i, m, r; (split_and!; try apply H; [done| |naive_solver..]).
  - destruct (po_mr_refs _ Hp _ _ Hm) as [_ [x Hx]]. pose proof (lookup_weaken _ _ _ _ Hx Hsub). congruence.
  - by eapply lookup_weaken.
Qed.

(** A membership that is set, under the key of the one it replaces if any. *)
Lemma ref_of_set db m r migID url :
  projects_ok db → projects_ok (set_db_mig_repos (<[mr_ID m := m]> (db_mig_repos db)) db) →
  db_repos db !! mr_RepoID m = Some r →
  (∀ n, db_mig_repos db !! mr_ID m = Some n → mr_MigID n = mr_MigID m ∧ mr_RepoID n = mr_RepoID m) →
  ref_of (set_db_mig_repos (<[mr_ID m := m]> (db_mig_repos db)) db) migID url =
    if decide (migID = mr_MigID m ∧ url = repo_Url r) then Some (mr_BaseRef m) else ref_of db migID url.
Proof.
  intros Hp Hp' Hr Hold. destruct (decide _) as [[-> ->]|Hne].
  - apply ref_of_Some; [done|]. exists (mr_ID m), m, r. simpl. by rewrite lookup_insert_eq.
  - apply ref_of_ext. intros b. rewrite !ref_of_Some by done. simpl.
    split; intros (i & n & x & Hn & Hx & E1 & E2 & E3); exists i, n, x; (split_and!; [|done..]).
    + apply lookup_insert_Some in Hn as [[<- <-]|[_ Hn]]; [|done]. destruct Hne. split; congruence.
    + rewrite lookup_insert_ne; [done|]. intros <-. destruct (Hold _ Hn) as [E4 E5]. destruct Hne. split; congruence.
Qed.

Section BulkImport.
Context `{Collation} `{UrlLib} (env : Env).

(** What an identifier needs to be used for a new row. *)
Definition unused_id (db : DB) (id : string) : Prop := db_repos db !! id = None ∧ db_mig_repos db !! id = None.

(** What an import keeps: its mig, and the identifiers still to be used. *)
Definition grown (id : string) (db db' : DB) : Prop :=
  db_migs db' = db_migs db ∧ ∀ i, i ≠ id → unused_id db i → unused_id db' i.

Lemma resolve_repo_total db a now :
  sound db → db_repos db !! cr_ID a = None →
  ∃ repoID db1, resolve_repo a now db = inr (repoID, db1) ∧ db_repos db ⊆ db_repos db1 ∧
    ∀ i, i ≠ cr_ID a → db_repos db !! i = None → db_repos db1 !! i = None.
Proof using Type.
  intros Hs Hn. unfold resolve_repo. destruct (url_repo _ _) as [r|]; [eauto 6|].
  rewrite decide_False by (rewrite Hn; by intros []). eexists _, _. split_and!; [done| |]; simpl.
  - by apply insert_subseteq.
  - intros i Hi Hnone. by rewrite lookup_insert_ne.
Qed.

Lemma upsert_total db id mig url base :
  sound db → is_Some (db_migs db !! mig) → unused_id db id →
  Tx.total env (λ d, d = db) (UpsertMigRepo (mkCreateMigRepoParams id mig url base))
    (λ _ d, sound d ∧ grown id db d ∧
       ∀ M u, ref_of d M u = if decide (M = mig ∧ u = url) then Some base else ref_of db M u).
Proof using Type.
  intros Hs Hmig [Hi1 Hi2] d ins hub ->.
  set (a := mkCreateMigRepoParams id mig url base).
  pose proof (UpsertMigRepo_stays a (mkTx env db ins false [] hub) Hs) as Hsound.
  enough (Tx.total env (λ d, d = db) (UpsertMigRepo a) (λ _ d, sound d → grown id db d ∧
    ∀ M u, ref_of d M u = if decide (M = mig ∧ u = url) then Some base else ref_of db M u)) as Ht.
  { destruct (Ht db ins hub eq_refl) as (x & d' & hub' & E & Hd). rewrite E in Hsound. exists x, d', hub'. auto. }
  apply total_stmt. clear Hsound. intros d ->.
  destruct (resolve_repo_total db a (env_now env) Hs Hi1) as (repoID & db1 & Er & Hsub & Hnew). rewrite Er.
  destruct (resolve_repo_spec _ _ _ _ _ Hs Er) as ([Hwf1 Hp1] & (r & Hr & Hu) & Em & Eg). simpl in Hu.
  assert (Href : ∀ M u, ref_of db1 M u = ref_of db M u) by (intros; apply ref_of_repos; [apply Hs|done..]).
  pose proof (mig_repo_of_spec db1 mig repoID Hp1) as Hm. simpl. destruct (mig_repo_of db1 mig repoID) as [m|].
  - destruct Hm as (Hm & E1 & E2). eexists _, _. split; [done|]. intros [_ Hp']. split.
    { split; [done|]. intros i Hne [H1 H2]. split; [by apply Hnew|]. simpl. rewrite lookup_insert_ne; [by rewrite Em|].
      intros <-. rewrite Em in Hm. congruence. }
    intros M u. rewrite <-(Href M u), (ref_of_set db1 (mkMigRepo (mr_ID m) (mr_MigID m) (mr_RepoID m) base (mr_CreatedAt m)) r);
      simpl; [by rewrite E1, Hu|done|done|by rewrite E2|]. intros n Hn. assert (n = m) as -> by congruence. done.
  - unfold insert_mig_repo. simpl. rewrite Em, Eg, decide_False by (rewrite Hi2; by intros []).
    rewrite decide_False by (destruct Hmig as [? ->]; done). eexists _, _. split; [done|]. intros [_ Hp']. split.
    { split; [done|]. intros i Hne [H1 H2]. split; [by apply Hnew|]. simpl. by rewrite lookup_insert_ne. }
    intros M u. rewrite <-(Href M u). rewrite <-Em in Hp' |- *.
    rewrite (ref_of_set db1 (mkMigRepo id mig repoID base (env_now env)) r); simpl; [by rewrite Hu|done|done|done|].
    intros n Hn. rewrite Em in Hn. congruence.
Qed.

(** What a record asks for: a binding of the map, or the reason it is refused. *)
Definition row_effect (r : CsvRead) : string + string * string :=
  match r with
  | CsvEOF => inl ""
  | CsvErr => inl "CSV parse error"
  | CsvRecord repoURL baseRef =>
      let url := trim_space repoURL in
      let base := trim_space baseRef in
      if negb (utf8_valid url && utf8_valid base) then inl "invalid UTF-8 encoding"
      else if decide (url = "") then inl "repo_url is required"
      else if decide (base = "") then inl "base_ref is required"
      else if RepoURL_Validate (NormalizeRepoURL url) then inr (NormalizeRepoURL url, base)
      else inl "invalid repo_url"
  end.

Definition bind_ref (url base : string) (view : string → option string) : string → option string :=
  λ u, if decide (u = url) then Some base else view u.

(** The import as a fold over the records, [line] the number of the next one. *)
Fixpoint import_fold (line : nat) (rows : list CsvRead) (view : string → option string) (c : ImportCounts) :
    (string → option string) * ImportCounts :=
  match rows with
  | [] => (view, c)
  | r :: rest =>
      match row_effect r with
      | inl msg => import_fold (S line) rest view (count_failed line msg c)
      | inr (url, base) =>
          import_fold (S line) rest (bind_ref url base view) (count_done (bool_decide (is_Some (view url))) c)
      end
  end.

Lemma import_fold_counts line rows view c :
  let c' := (import_fold line rows view c).2 in
  (ic_Created c' + ic_Updated c' + ic_Failed c' =
     ic_Created c + ic_Updated c + ic_Failed c + Z.of_nat (length rows))%Z ∧
  (Z.of_nat (length (ic_Errors c')) - ic_Failed c' = Z.of_nat (length (ic_Errors c)) - ic_Failed c)%Z.
Proof using Type.
  revert line view c. induction rows as [|r rows IH]; intros line view c; [simpl; lia|]. cbn [import_fold].
  destruct (row_effect r) as [msg|[url base]].
  - destruct (IH (S line) view (count_failed line msg c)) as [H1 H2]. cbn zeta. simpl in *.
    rewrite length_app in H2. simpl in H2. lia.
  - destruct (IH (S line) (bind_ref url base view) (count_done (bool_decide (is_Some (view url))) c)) as [H1 H2].
    cbn zeta. destruct (bool_decide _); simpl in *; lia.
Qed.

(** A file whose records cannot be read any more is read for ever. *)
Lemma import_loop_spins gen' mig read fuel k c t :
  (∀ i, (k ≤ i)%nat → read i = CsvErr) → (import_loop fuel read gen' mig k true c t).1 = inr None.
Proof using Type.
  intros Hread. revert k c t Hread. induction fuel as [|fuel IH]; intros k c t Hread; [done|].
  cbn [import_loop]. rewrite Hread by done. unfold mbind, M_bind. cbn. apply IH. intros i Hi. apply Hread. lia.
Qed.

Context (gen : nat → string) (migID : string) (Hgen : ∀ k l, gen k = gen l → k = l).

(** Between two records: [view] is the map of the mig, other migs are as in [db0]. *)
Record importing (db0 : DB) (k : nat) (view : string → option string) (db : DB) : Prop := {
  im_sound : sound db;
  im_mig : db_migs db = db_migs db0;
  im_ids : ∀ l, (k ≤ l)%nat → unused_id db (gen l);
  im_view : ∀ u, ref_of db migID u = view u;
  im_other : ∀ M u, M ≠ migID → ref_of db M u = ref_of db0 M u
}.

Lemma import_row_total db0 k view r c :
  is_Some (db_migs db0 !! migID) → r ≠ CsvEOF →
  Tx.total env (importing db0 k view) (import_row (gen k) migID (S k) r c) (λ c' d,
    match row_effect r with
    | inl msg => c' = count_failed (S k) msg c ∧ importing db0 (S k) view d
    | inr (url, base) =>
        c' = count_done (bool_decide (is_Some (view url))) c ∧ importing db0 (S k) (bind_ref url base view) d
    end).
Proof using Hgen.
  intros Hmig Hr. assert (Hnext : ∀ d, importing db0 k view d → importing db0 (S k) view d).
  { intros d []. split; try done. intros l Hl. apply im_ids0. lia. }
  destruct r as [| |url base]; [done|..]; cbn [import_row row_effect]; [by apply total_ret; auto|].
  rewrite negb_andb. destruct (negb (utf8_valid (trim_space url)) || negb (utf8_valid (trim_space base)));
    [by apply total_ret; auto|].
  destruct (decide (trim_space url = "")); [by apply total_ret; auto|].
  destruct (decide (trim_space base = "")); [by apply total_ret; auto|].
  destruct (RepoURL_Validate _); cbn [negb]; [|by apply total_ret; auto].
  set (u := NormalizeRepoURL (trim_space url)). apply total_at. intros d Hd.
  assert (Hup : Tx.total env (λ d', d' = d)
    (attempt (UpsertMigRepo (mkCreateMigRepoParams (gen k) migID u (trim_space base))))
    (λ x d', (∃ m, x = inr m) ∧ importing db0 (S k) (bind_ref u (trim_space base) view) d')).
  { destruct Hd as [Hs Em Hids Hv Ho].
    eapply total_conseq; [apply total_attempt, (upsert_total d); [done|by rewrite Em|by apply Hids]|done|].
    intros x d' (m & -> & Hs' & [Eg Hn] & Href). split; [by eexists|]. split; [done|congruence| | |].
    - intros l Hl. apply Hn; [intros E; apply Hgen in E; lia|apply Hids; lia].
    - intros v. rewrite Href. unfold bind_ref. destruct (decide (v = u)) as [->|]; [by rewrite decide_True|].
      rewrite decide_False by (by intros []). apply Hv.
    - intros M v HM. rewrite Href, decide_False by (by intros []). by apply Ho. }
  assert (Hget : view u = mr_BaseRef <$> match url_repo d u with None => None | Some r => mig_repo_of d migID (repo_ID r) end).
  { rewrite <-(im_view _ _ _ _ Hd u). unfold ref_of. by destruct (url_repo d u). }
  unfold GetMigRepoByURL. rewrite Hget.
  destruct (match url_repo d u with None => None | Some r => mig_repo_of d migID (repo_ID r) end) as [m|] eqn:Ef.
  - eapply total_then; [apply total_attempt_eq; by apply (total_get _ (λ d, match url_repo d u with
      None => None | Some r => mig_repo_of d migID (repo_ID r) end))|]. cbn beta iota.
    eapply total_bind; [exact Hup|]. intros x. apply total_ret. by intros d' [[? ->] ?].
  - eapply total_then; [by apply (total_attempt_none _ (λ d, match url_repo d u with
      None => None | Some r => mig_repo_of d migID (repo_ID r) end))|]. cbn beta iota.
    eapply total_bind; [exact Hup|]. intros x. apply total_ret. by intros d' [[? ->] ?].
Qed.

(** The whole file. *)
Lemma import_loop_total db0 read rows fuel k view c :
  is_Some (db_migs db0 !! migID) → Forall (λ r, r ≠ CsvEOF) rows →
  (∀ i r, rows !! i = Some r → read (k + i) = r) → read (k + length rows) = CsvEOF →
  (length rows < fuel)%nat →
  Tx.total env (importing db0 k view) (import_loop fuel read gen migID k true c) (λ x d,
    x = Some (200%Z, Some (import_fold (S k) rows view c).2) ∧
    importing db0 (k + length rows) (import_fold (S k) rows view c).1 d).
Proof using Hgen.
  intros Hmig. revert fuel k view c. induction rows as [|r rows IH]; intros fuel k view c Hne Hread Hend Hf;
    (destruct fuel as [|fuel]; [simpl in Hf; lia|]); cbn [import_loop import_fold length].
  { simpl in Hend. rewrite Nat.add_0_r in Hend. rewrite Hend. apply total_ret. intros d Hd. by rewrite Nat.add_0_r. }
  apply Forall_cons in Hne as [Hr Hne]. pose proof (Hread 0 r eq_refl) as Hk. rewrite Nat.add_0_r in Hk. rewrite Hk.
  simpl in Hf, Hend. rewrite Nat.add_succ_r in Hend |- *.
  assert (Hrest : ∀ view c, Tx.total env (importing db0 (S k) view) (import_loop fuel read gen migID (S k) true c)
    (λ x d, x = Some (200%Z, Some (import_fold (S (S k)) rows view c).2) ∧
      importing db0 (S k + length rows) (import_fold (S (S k)) rows view c).1 d)).
  { intros view' c'. apply IH; [done| |done|lia]. intros i x Hi. replace (S k + i) with (k + S i) by lia. by apply Hread. }
  destruct r as [| |url base] eqn:Er; [done|..];
    (rewrite <-Er in *; eapply total_bind; [by apply import_row_total|]; intros c';
     destruct (row_effect r) as [msg|[u b]]; apply total_pure; intros ->; apply Hrest).
Qed.

End BulkImport.
