(* ===== verification/RestartSafety.v ===== *)
(** * Restarting a run: a new attempt, or the failed suffix again

    [RestartRun] either starts a fresh attempt (a launch) or resets the failed job
    and everything after it. Both keep the invariant; the second keeps the failed
    job's node and input commit. *)

From S2P Require Import Prelude GoStrings Types Json Db Tx Queries JobChain Lifecycle Store Chains.
From S2P Require Import Invariant CancelSafety LaunchSafety.
From stdpp Require Import base gmap sets list sorting strings.
From Stdlib Require Import ZArith Lia.

(** ** The suffix a resume retries *)

Record resumable (c pre : list Job) (f : Job) (rest : list Job) : Prop := {
  rs_split : c = pre ++ f :: rest;
  rs_before : Forall (λ j, job_Status j = JobStatusSuccess) pre;
  rs_failed : job_Status f = JobStatusFail ∨ job_Status f = JobStatusError;
  rs_node : ∃ n, job_NodeID f = Some n ∧ n ≠ "";
  rs_sha : IsCanonicalFullCommitSHA (job_RepoShaIn f) = true;
  rs_after : Forall (λ j, job_Status j = JobStatusCancelled ∧ job_StartedAt j = None ∧
                          job_NodeID j = None) rest
}.

Lemma suffix_scan_sound c owner s :
  suffix_scan c owner = Some s → ∃ pre f rest, s = f :: rest ∧ resumable c pre f rest.
Proof.
  revert owner; induction c as [|j c IH]; intros owner; simpl; [done|].
  destruct (match job_NodeID j with Some n => _ | None => _ end) as [owner'|]; [|done].
  case_decide as Hs.
  - intros (pre & f & rest & -> & [Hc H1 H2 H3 H4 H5])%IH. exists (j :: pre), f, rest.
    split; [done|]. split; [by rewrite Hc|by constructor|done..].
  - destruct (_ && forallb _ c) eqn:E; [|done]. intros [= <-].
    rewrite !andb_true_iff, orb_true_iff, !bool_decide_eq_true, forallb_forall in E.
    destruct E as [[[Hf Hn] Hsha] Hrest].
    exists [], j, c. split; [done|]. split; [done|done|done| |done|].
    + destruct (job_NodeID j) as [n|]; [|done]. exists n. split; [done|].
      by apply negb_true_iff, bool_decide_eq_false in Hn.
    + apply Forall_forall. intros x Hx. apply list_elem_of_In, Hrest in Hx.
      rewrite !andb_true_iff, !bool_decide_eq_true in Hx. naive_solver.
Qed.

(** Conversely: a chain whose finished jobs, failed job and cancelled remainder
    are as described is accepted, when its nodes agree. *)
Lemma suffix_scan_complete c pre f rest owner :
  resumable c pre f rest → affine c →
  (owner = "" ∨ ∀ j n, j ∈ c → job_NodeID j = Some n → n = owner) →
  suffix_scan c owner = Some (f :: rest).
Proof.
  intros [-> Hpre Hf (nf & Hnf & Hne) Hsha Hrest]. revert owner.
  induction Hpre as [|j pre Hj Hpre IH]; intros owner Haf Hown; simpl.
  - assert (E : (if negb (bool_decide (owner = "")) && negb (bool_decide (owner = nf)) then None else Some nf)
      = Some nf).
    { destruct Hown as [->|Hown]; [done|]. rewrite (Hown f nf) by (try left; done).
      rewrite (bool_decide_eq_true_2 (owner = owner)) by done. by rewrite andb_false_r. }
    rewrite Hnf, E. rewrite decide_False by (destruct Hf; congruence).
    rewrite (bool_decide_eq_false_2 (nf = "")), Hsha by done. simpl.
    assert (Hrest' : forallb (λ c, bool_decide (job_Status c = JobStatusCancelled) &&
      bool_decide (job_StartedAt c = None) && bool_decide (job_NodeID c = None)) rest = true).
    { apply forallb_forall. intros x Hx. apply list_elem_of_In in Hx.
      eapply Forall_forall in Hrest; [|exact Hx]. destruct Hrest as (-> & -> & ->). done. }
    rewrite Hrest'. by destruct Hf as [-> | ->].
  - assert (Haf' : affine (pre ++ f :: rest)).
    { intros j1 j2 n1 n2 H1 H2. apply Haf; by right. }
    destruct (job_NodeID j) as [n|] eqn:En.
    + assert (E : (if negb (bool_decide (owner = "")) && negb (bool_decide (owner = n)) then None else Some n)
        = Some n).
      { destruct Hown as [->|Hown]; [done|]. rewrite (Hown j n) by (try left; done).
        rewrite (bool_decide_eq_true_2 (owner = owner)) by done. by rewrite andb_false_r. }
      rewrite E, decide_True by done. apply IH; [done|]. right. intros j' n' Hj' En'.
      apply (Haf j' j n' n); [by right|left|done|done].
    + rewrite decide_True by done. apply IH; [done|].
      destruct Hown as [->|Hown]; [by left|right]. intros j' n' Hj'. apply Hown. by right.
Qed.

Lemma chain_linked_spec c : linked job_ID job_NextID c → chain_linked c = true.
Proof.
  induction c as [|j [|k c] IH]; intros Hl; [done| |].
  - simpl. apply bool_decide_eq_true. by rewrite (Hl 0 j eq_refl).
  - change (bool_decide (job_NextID j = Some (job_ID k)) && chain_linked (k :: c) = true).
    rewrite bool_decide_eq_true_2 by (by rewrite (Hl 0 j eq_refl)). simpl. apply IH.
    intros i x Hx. by rewrite (Hl (S i) x Hx).
Qed.

Section Suffix.
Context `{Collation}.
Context (db : DB) (rid : string) (a : Z) (c : list Job).
Context (Hk : keyed (db_jobs db)) (Hc : chain_of (db_jobs db) rid a c) (Hne : c ≠ []).

(** On the rows of an attempt, [failedJobSuffix] is the scan of its chain. *)
Lemma failedJobSuffix_chain :
  failedJobSuffix (attempt_jobs db rid a) = suffix_scan c "".
Proof using Type*.
  unfold failedJobSuffix. rewrite (attempt_jobs_Order _ _ _ _ Hk Hc _ eq_refl).
  rewrite decide_False.
  - by rewrite (chain_linked_spec _ (ch_linked _ _ _ _ Hc)).
  - rewrite (attempt_jobs_perm _ _ _ _ Hk Hc _ eq_refl). intros [H0|H0]; [|done].
    apply nil_length_inv in H0. done.
Qed.

End Suffix.

(** ** Resetting rows *)

Definition same_tables (db db' : DB) : Prop :=
  db_runs db' = db_runs db ∧ db_waves db' = db_waves db ∧
  db_nodes db' = db_nodes db ∧ db_repos db' = db_repos db.

(** [R] resets the rows of [suffix]: the first, when [first], is queued and keeps
    its input; the others wait without one. *)
Record resets (suffix : list Job) (first : bool) (R : Job → Job) : Prop := {
  re_stable : stable R;
  re_other : ∀ j, job_ID j ∉ job_ID <$> suffix → R j = j;
  re_at : ∀ k x, suffix !! k = Some x → ∃ m, ∀ j, job_ID j = job_ID x →
    R j = resume_row (if first && bool_decide (k = 0) then JobStatusQueued else JobStatusCreated)
            m (first && bool_decide (k = 0)) j
}.

Lemma stable_resume st m first : stable (resume_row st m first).
Proof. done. Qed.

Lemma same_tables_refl db : same_tables db db.
Proof. done. Qed.

Lemma same_tables_trans db1 db2 db3 : same_tables db1 db2 → same_tables db2 db3 → same_tables db1 db3.
Proof. intros (? & ? & ? & ?) (? & ? & ? & ?). split_and!; congruence. Qed.

Section Reset.
Context (env : Env) (plans : list JobPlan).

Lemma reset_jobs_behaved first suffix : behaved true env (reset_jobs plans first suffix).
Proof.
  revert first; induction suffix as [|x suffix IH]; intros first; simpl; [by apply triple_ret|].
  destruct (plan_named _ _); [|by apply triple_throw]. case_decide; [|by apply triple_throw].
  repeat (eapply triple_bind with (Q := λ _ _, False); [apply triple_stmt; done|intros ?]). apply IH.
Qed.

Lemma reset_jobs_triple db0 first suffix :
  keyed (db_jobs db0) → NoDup (job_ID <$> suffix) →
  (∀ x, x ∈ suffix → db_jobs db0 !! job_ID x = Some x) →
  triple true env (λ db, db = db0) (reset_jobs plans first suffix)
    (λ _ db, ∃ R, resets suffix first R ∧ db_jobs db = R <$> db_jobs db0 ∧ same_tables db0 db)
    any_error.
Proof.
  revert db0 first; induction suffix as [|x suffix IH]; intros db0 first Hk Hnd Hin; simpl.
  { apply triple_ret. intros db ->. exists id. split_and!; [|by rewrite map_fmap_id|done].
    split; [done|done|]. by intros k x. }
  destruct (plan_named _ _) as [plan|]; [|by apply triple_throw].
  case_decide; [|by apply triple_throw].
  set (st := if first then JobStatusQueued else JobStatusCreated).
  set (Q := λ db, ∃ m, db_jobs db = at_id (job_ID x) (resume_row st m first) <$> db_jobs db0 ∧
    same_tables db0 db).
  eapply triple_bind with (Q := λ _, Q).
  { apply triple_stmt; [|done]. intros db [] db' -> Hres. rewrite (Hin x) in Hres by left.
    destruct (jp_Meta plan) as [| |m]; [done|done|]. injection Hres as <-. exists m. split; [|done]. simpl.
    apply (insert_at_id (resume_row st m first)); [done|]. apply Hin. left. }
  intros u1. do 3 (eapply triple_bind with (Q := λ _, Q); [by apply triple_exec|intros ?]).
  apply triple_pre; [apply reset_jobs_behaved|]. intros db1 (m & Hj1 & Hs1).
  simpl in Hnd. apply NoDup_cons in Hnd as [Hx Hnd].
  eapply triple_conseq; [apply (IH db1 false)|done| |done].
  - rewrite Hj1. apply keyed_fmap; [|done]. auto using stable_at, stable_resume.
  - done.
  - intros y Hy. rewrite Hj1, lookup_fmap, (Hin y) by (by right). simpl. unfold at_id.
    rewrite decide_False; [done|]. intros E. apply Hx. rewrite <-E. apply list_elem_of_fmap. eauto.
  - intros _ db (R & [HR1 HR2 HR3] & Hjdb & Hsdb).
    exists (λ j, R (at_id (job_ID x) (resume_row st m first) j)).
    split_and!; [|by rewrite Hjdb, Hj1, <-map_fmap_compose|by eapply same_tables_trans].
    split.
    + apply (stable_compose R); auto using stable_at, stable_resume.
    + intros j Hj. simpl in Hj. apply not_elem_of_cons in Hj as [Hj1' Hj2]. unfold at_id.
      rewrite decide_False by done. auto.
    + intros [|k] y Hy; simpl in Hy.
      * injection Hy as <-. exists m. intros j Hj. unfold at_id. rewrite decide_True by done.
        rewrite HR2 by (by rewrite (stable_id _ (stable_resume st m first)), Hj).
        subst st. by rewrite (bool_decide_eq_true_2 (0 = 0)), andb_true_r by done.
      * destruct (HR3 _ _ Hy) as [m' Hm']. exists m'. intros j Hj. unfold at_id.
        rewrite decide_False.
        -- rewrite Hm' by done. by rewrite (bool_decide_eq_false_2 (S k = 0)), andb_false_r by done.
        -- intros E. apply Hx. rewrite <-E, Hj. apply list_elem_of_fmap. exists y.
           split; [done|]. by eapply list_elem_of_lookup_2.
Qed.

End Reset.

#[export] Hint Resolve reset_jobs_behaved : behaved.

(** ** The chain after a resume *)

Lemma resume_job_ok nodes st m first j :
  st = JobStatusQueued ∨ st = JobStatusCreated → job_ok nodes j → job_ok nodes (resume_row st m first j).
Proof.
  intros Hst [H1 H2 H3 H4 H5 H6 H7]. split; simpl; try done.
  - destruct Hst as [-> | ->]; done.
  - destruct Hst as [-> | ->]; split; [by intros [? ?]|done|by intros [? ?]|done].
  - by destruct first.
Qed.

Lemma resets_fmap jobs rid a pre f rest R :
  chain_of jobs rid a (pre ++ f :: rest) → resets (f :: rest) true R →
  R <$> (pre ++ f :: rest) = pre ++ R f :: (R <$> rest) ∧
  job_Status (R f) = JobStatusQueued ∧ job_RepoShaIn (R f) = job_RepoShaIn f ∧
  Forall (λ j, job_Status j = JobStatusCreated) (R <$> rest).
Proof.
  intros Hc [HR1 HR2 HR3]. pose proof (ch_nodup _ _ _ _ Hc) as Hn.
  rewrite fmap_app in Hn. apply NoDup_app in Hn as (_ & Hd & _).
  split_and!.
  - rewrite fmap_app. f_equal. rewrite <-(list_fmap_id pre) at 2. apply list_fmap_ext.
    intros i j Hj. apply HR2. apply Hd. apply list_elem_of_fmap. exists j. split; [done|].
    by eapply list_elem_of_lookup_2.
  - destruct (HR3 0 f eq_refl) as [m Hm]. by rewrite Hm.
  - destruct (HR3 0 f eq_refl) as [m Hm]. by rewrite Hm.
  - apply Forall_fmap, Forall_lookup. intros k x Hx. simpl.
    destruct (HR3 (S k) x Hx) as [m Hm]. rewrite Hm by done. done.
Qed.

Lemma resets_node suffix first R j : resets suffix first R → job_NodeID (R j) = job_NodeID j.
Proof.
  intros [_ HR2 HR3]. destruct (decide (job_ID j ∈ job_ID <$> suffix)) as [Hin|Hout].
  - apply list_elem_of_fmap in Hin as (x & Hid & Hx). apply list_elem_of_lookup in Hx as [k Hk].
    destruct (HR3 _ _ Hk) as [m Hm]. by rewrite Hm.
  - by rewrite HR2.
Qed.

Lemma resets_job_ok suffix first R nodes j :
  resets suffix first R → job_ok nodes j → job_ok nodes (R j).
Proof.
  intros [_ HR2 HR3] Hok. destruct (decide (job_ID j ∈ job_ID <$> suffix)) as [Hin|Hout].
  - apply list_elem_of_fmap in Hin as (x & Hid & Hx). apply list_elem_of_lookup in Hx as [k Hk].
    destruct (HR3 _ _ Hk) as [m Hm]. rewrite Hm by done. apply resume_job_ok; [|done].
    destruct (first && _); auto.
  - by rewrite HR2.
Qed.

Lemma resume_attempt_ok jobs rid a c pre f rest R lv :
  chain_of jobs rid a c → attempt_ok lv c → resumable c pre f rest → resets (f :: rest) true R →
  attempt_ok true (R <$> c).
Proof.
  intros Hc [Hne Hst Haf Hsha] [-> Hpre Hf Hn Hcan Hrest] HR.
  destruct (resets_fmap _ _ _ _ _ _ _ Hc HR) as (Heq & Hq & Hin & Hcr). split.
  - by destruct pre.
  - rewrite Heq. apply live_split. exists pre, (R f), (R <$> rest). auto.
  - apply affine_fmap; [|done]. intros j _. by eapply resets_node.
  - rewrite Heq. intros k x y Hx Hy Hs.
    assert (Hk : k < length pre).
    { destruct (decide (k < length pre)) as [|Hge]; [done|]. rewrite lookup_app_r in Hx by lia.
      destruct (k - length pre) as [|m]; simpl in Hx; [congruence|].
      rewrite list_lookup_fmap in Hx. apply fmap_Some in Hx as (z & Hz & ->).
      rewrite Forall_fmap in Hcr. eapply Forall_lookup in Hcr; [|exact Hz]. simpl in Hcr. congruence. }
    rewrite lookup_app_l in Hx by done.
    destruct (decide (S k < length pre)) as [Hlt|Hge].
    + rewrite lookup_app_l in Hy by done. eapply Hsha; [by rewrite lookup_app_l|by rewrite lookup_app_l|done].
    + assert (Ek : S k = length pre) by lia. rewrite Ek, list_lookup_middle in Hy by done.
      injection Hy as <-. rewrite Hin. eapply Hsha; [by rewrite lookup_app_l| |done].
      rewrite Ek. by apply list_lookup_middle.
Qed.

(** ** [RestartRun] *)

Section Restart.
Context `{Collation}.

Lemma create_from_behaved env run i zs : behaved true env (create_from run i zs).
Proof. eapply triple_behaved, (create_from_triple env empty_db). Qed.

Lemma createPlannedJobs_behaved env gen run jobs : behaved true env (createPlannedJobs gen run jobs).
Proof. eapply triple_behaved, (createPlannedJobs_triple env empty_db). Qed.

#[local] Hint Resolve create_from_behaved createPlannedJobs_behaved : behaved.

Definition revive (wave : Wave) (now : Z) (w : Wave) : Wave :=
  if bool_decide (wave_ID w = wave_ID wave) && bool_decide (wave_Status wave = WaveStatusFinished)
  then wave_status_row WaveStatusStarted now w else w.

Section Revive.
Context (db : DB) (wave : Wave) (now : Z).
Context (Hwf : wf db) (Hwave : db_waves db !! wave_ID wave = Some wave).
Context (Hnc : wave_Status wave ≠ WaveStatusCancelled).

Lemma revive_ok i w : db_waves db !! i = Some w → wave_ok (revive wave now w).
Proof using Hwf.
  intros Hw. unfold revive. destruct (_ && _); [|by eapply wf_wave].
  unfold wave_ok; simpl. split; [by intros [? ?]|done].
Qed.

Lemma revive_started w : wave_Status w = WaveStatusStarted → wave_Status (revive wave now w) = WaveStatusStarted.
Proof using Type. unfold revive. by destruct (_ && _). Qed.

Lemma revive_id w : wave_ID (revive wave now w) = wave_ID w.
Proof using Type. unfold revive. by destruct (_ && _). Qed.

Lemma revive_this : wave_Status (revive wave now wave) = WaveStatusStarted.
Proof using Hnc.
  unfold revive. rewrite bool_decide_eq_true_2 by done. simpl.
  case_bool_decide as Hd; [done|]. by destruct (wave_Status wave).
Qed.

End Revive.

Lemma revive_triple env db0 wave :
  wave_keyed (db_waves db0) → 
  triple true env (λ db, db = db0)
    (when (bool_decide (wave_Status wave = WaveStatusFinished))
       (wrap "restart run: revive wave" (UpdateWaveStatus (wave_ID wave) WaveStatusStarted)))
    (λ _ db, db = set_db_waves (revive wave (env_now env) <$> db_waves db0) db0) any_error.
Proof.
  intros Hk. apply triple_when.
  - intros Hd%bool_decide_eq_true. apply triple_wrap, triple_exec; [|done]. intros db ->.
    rewrite (alter_wave _ _ _ Hk). f_equal. apply map_fmap_ext. intros i w Hi. unfold revive.
    rewrite (bool_decide_eq_true_2 (wave_Status wave = _)) by done. by rewrite andb_true_r.
  - intros Hd%bool_decide_eq_false db ->. rewrite fmap_same; [by destruct db0|].
    intros i w Hi. unfold revive. rewrite (bool_decide_eq_false_2 (wave_Status wave = _)) by done.
    by rewrite andb_false_r.
Qed.

(** *** A fresh attempt *)

Section Fresh.
Context (env : Env) (db0 : DB) (run : Run) (wave : Wave) (stats : raw).
Context (Hwf : wf db0) (Hrun : db_runs db0 !! run_ID run = Some run).
Context (Hterm : run_Status run ≠ RunStatusRunning).
Context (Hwave : db_waves db0 !! run_WaveID run = Some wave).
Context (Hnc : wave_Status wave ≠ WaveStatusCancelled).
Context (Hfree : active_repo_run db0 (run_RepoID run) = None).

(** A terminal run has no active job left to cancel. *)
Lemma no_active_jobs p :
  (∀ j, p j = true → job_RunID j = run_ID run ∧ active_job (job_Status j) = true) →
  update p (cancel_row (env_now env)) (db_jobs db0) = db_jobs db0.
Proof using Hwf Hrun Hterm.
  intros Hp. apply fmap_same. intros i j Hj. destruct (p j) eqn:E; [|done].
  apply Hp in E as [Hr Ha]. pose proof Hrun as Hrun'. rewrite <-Hr in Hrun'.
  by destruct (active_job_live _ Hwf _ _ _ Hj Ha Hrun').
Qed.

Let updated := next_attempt_row stats (env_now env) run.
Let db1 := set_db_waves (revive wave (env_now env) <$> db_waves db0)
             (set_db_runs (<[run_ID run := updated]> (db_runs db0)) db0).

Lemma fresh_wf js zs db :
  built updated 0 zs js → js ≠ [] → (∀ j, j ∈ js → IsZero (job_ID j) = false) →
  chain_inserted db1 js db → wf db.
Proof using Type*.
  intros Hb Hne Hnz (Hnd & Hfresh & ->).
  pose proof (wf_wave_key _ Hwf _ _ Hwave) as Hwid.
  pose proof (built_jobs _ _ _ _ Hb) as Hrows.
  apply (launch_wf db0 _ (run_ID run) updated js (revive wave (env_now env))); try done.
  - apply (wf_repo _ Hwf _ _ Hrun).
  - rewrite Hrun. done.
  - pose proof (ro_attempt _ _ (wf_run _ Hwf _ _ Hrun)).
    split; simpl; [done|lia|split; [by intros [? ?]|done]|].
    exists (revive wave (env_now env) wave). rewrite lookup_fmap, Hwave. split; [done|].
    intros _. by apply revive_this.
  - intros i r Hr Hrr. apply (active_repo_run_None db0 (run_RepoID run) (wf_repo _ Hwf _ _ Hrun) Hfree i r Hr Hrr).
  - eapply Forall_impl; [exact Hrows|]. intros j (E1 & E2 & _ & _ & Hok). done.
  - by eapply built_linked.
  - by eapply built_attempt_ok.
  - intros w. apply revive_id.
  - intros i w. by apply revive_ok.
  - intros w. apply revive_started.
Qed.

End Fresh.

(** *** The failed suffix again *)

Lemma one_active_resume (runs : gmap string Run) (G : Run → Run) rid r0 :
  one_active runs → run_keyed runs → runs !! rid = Some r0 →
  (∀ r, run_RepoID (G r) = run_RepoID r) → (∀ r, run_ID r ≠ rid → G r = r) →
  (∀ i r, runs !! i = Some r → run_RepoID r = run_RepoID r0 → active_run (run_Status r) = false) →
  one_active (G <$> runs).
Proof.
  intros Hone Hk Hr0 HG Hother Hfree i1 i2 r1 r2. rewrite !lookup_fmap, !fmap_Some.
  intros (x1 & H1 & ->) (x2 & H2 & ->). rewrite !HG. intros Hrepo Ha1 Ha2.
  assert (Hcase : ∀ i x, runs !! i = Some x → i ≠ rid → G x = x).
  { intros i x Hx Hne. apply Hother. by rewrite (Hk _ _ Hx). }
  destruct (decide (i1 = rid)) as [->|N1], (decide (i2 = rid)) as [->|N2]; [done|..].
  - rewrite (Hcase _ _ H2 N2) in Ha2. rewrite (Hfree _ _ H2) in Ha2; [done|congruence].
  - rewrite (Hcase _ _ H1 N1) in Ha1. rewrite (Hfree _ _ H1) in Ha1; [done|congruence].
  - rewrite (Hcase _ _ H1 N1) in Ha1. rewrite (Hcase _ _ H2 N2) in Ha2. eauto.
Qed.

Section Resume.
Context (env : Env) (db0 db : DB) (run : Run) (wave : Wave) (stats : raw) (count : Z).
Context (c pre : list Job) (f : Job) (rest : list Job) (R : Job → Job).
Context (Hwf : wf db0) (Hrun : db_runs db0 !! run_ID run = Some run).
Context (Hterm : run_Status run ≠ RunStatusRunning).
Context (Hwave : db_waves db0 !! run_WaveID run = Some wave).
Context (Hnc : wave_Status wave ≠ WaveStatusCancelled).
Context (Hfree : active_repo_run db0 (run_RepoID run) = None).
Context (Hc : chain_of (db_jobs db0) (run_ID run) (run_Attempt run) c).
Context (Hres : resumable c pre f rest) (HR : resets (f :: rest) true R).

Definition resumed_run (r : Run) : Run :=
  if bool_decide (run_ID r = run_ID run)
  then resume_run_row stats count (env_now_text env) r else r.

Context (Hjobs : db_jobs db = R <$> db_jobs db0).
Context (Hruns : db_runs db = resumed_run <$> db_runs db0).
Context (Hwaves : db_waves db = revive wave (env_now env) <$> db_waves db0).
Context (Hnodes : db_nodes db = db_nodes db0) (Hrepos : db_repos db = db_repos db0).

Lemma suffix_in x : x ∈ f :: rest → db_jobs db0 !! job_ID x = Some x ∧ job_RunID x = run_ID run ∧ job_Attempt x = run_Attempt run.
Proof using Type*.
  intros Hx. apply (ch_elem _ _ _ _ Hc). rewrite (rs_split _ _ _ _ Hres). set_solver.
Qed.

Lemma resume_wf : wf db.
Proof using Type*.
  pose proof (wf_wave_key _ Hwf _ _ Hwave) as Hwid.
  apply (wf_rewrite db0 db R resumed_run (revive wave (env_now env))); try done.
  - apply HR.
  - intros r. unfold resumed_run. by case_bool_decide.
  - intros w. apply revive_id.
  - intros i j Hj. eapply resets_job_ok; [exact HR|]. by eapply wf_job.
  - intros i r Hr. pose proof (wf_run _ Hwf _ _ Hr) as Hro. unfold resumed_run.
    case_bool_decide as Hd.
    + rewrite (wf_run_key _ Hwf _ _ Hr) in Hd. subst i. assert (r = run) as -> by congruence.
      destruct Hro as [H1 H2 H3 _]. split; simpl; [done|done|split; [by intros [? ?]|done]|].
      exists (revive wave (env_now env) wave). rewrite lookup_fmap, Hwave. split; [done|].
      intros _. by apply revive_this.
    + apply wave_lookup_id; [done|]. intros w _ _. apply revive_started.
  - intros i w. by apply revive_ok.
  - intros i r a d Hr Hd Hok. unfold resumed_run. case_bool_decide as Hid.
    + rewrite (wf_run_key _ Hwf _ _ Hr) in Hid. subst i. assert (r = run) as -> by congruence.
      assert (Hl : live (resume_run_row stats count (env_now_text env) run) a
        = bool_decide (a = run_Attempt run)).
      { unfold live. simpl. by rewrite andb_true_r. }
      rewrite Hl. case_bool_decide as Ha.
      * subst a. assert (d = c) as -> by (eapply chain_unique; [apply Hwf|done|done]).
        by eapply resume_attempt_ok.
      * replace (R <$> d) with d.
        { unfold live in Hok. by rewrite (bool_decide_eq_false_2 (a = _)) in Hok. }
        rewrite <-(list_fmap_id d) at 1. apply list_fmap_ext. intros k j Hj. symmetry.
        apply (re_other _ _ _ HR). unfold id. intros (x & Hx & Hin)%list_elem_of_fmap.
        destruct (suffix_in _ Hin) as (Hxx & _ & Hxa). destruct (chain_at _ _ _ _ Hd _ _ Hj) as (Hjj & _ & Hja).
        apply Ha. assert (x = j) by congruence. congruence.
    + replace (R <$> d) with d; [done|].
      rewrite <-(list_fmap_id d) at 1. apply list_fmap_ext. intros k j Hj. symmetry.
      apply (re_other _ _ _ HR). unfold id. intros (x & Hx & Hin)%list_elem_of_fmap.
      destruct (suffix_in _ Hin) as (Hxx & Hxr & _). destruct (chain_at _ _ _ _ Hd _ _ Hj) as (Hjj & Hjr & _).
      apply Hid. rewrite (wf_run_key _ Hwf _ _ Hr). assert (x = j) by congruence. congruence.
  - rewrite Hruns. eapply (one_active_resume _ _ (run_ID run) run).
    + apply Hwf.
    + intros i r. apply Hwf.
    + done.
    + intros r. unfold resumed_run. by case_bool_decide.
    + intros r Hne. unfold resumed_run. by rewrite bool_decide_eq_false_2.
    + intros i r Hr Hrr. apply (active_repo_run_None db0 (run_RepoID run) (wf_repo _ Hwf _ _ Hrun) Hfree i r Hr Hrr).
Qed.

End Resume.


(** *** What a committed restart did *)

Record restart_checked (arg : RestartRunParams) (db0 : DB) (run : Run) (wave : Wave) : Prop := {
  rc_run : db_runs db0 !! rr_RunID arg = Some run;
  rc_attempt : run_Attempt run = rr_ExpectedAttempt arg;
  rc_terminal : IsTerminalRunStatus (run_Status run) = true;
  rc_wave : db_waves db0 !! run_WaveID run = Some wave;
  rc_not_cancelled : wave_Status wave ≠ WaveStatusCancelled;
  rc_free : active_repo_run db0 (run_RepoID run) = None
}.

Definition restart_fresh (env : Env) (gen : nat → string) (arg : RestartRunParams) (db0 : DB)
    (run : Run) (wave : Wave) (db : DB) : Prop :=
  ∃ js, js ≠ [] ∧
    built (next_attempt_row (rr_Stats arg) (env_now env) run) 0
      (zip (gen <$> seq 0 (length (rr_Jobs arg))) (rr_Jobs arg)) js ∧
    chain_inserted (set_db_waves (revive wave (env_now env) <$> db_waves db0)
      (set_db_runs (<[run_ID run := next_attempt_row (rr_Stats arg) (env_now env) run]> (db_runs db0)) db0))
      js db.

Definition restart_resumed (env : Env) (arg : RestartRunParams) (db0 : DB) (run : Run) (wave : Wave)
    (db : DB) : Prop :=
  (run_Status run = RunStatusFail ∨ run_Status run = RunStatusCancelled) ∧
  ResumeCount (run_Stats run) = rr_ExpectedResumeCount arg ∧
  ∃ c pre f rest R, chain_of (db_jobs db0) (run_ID run) (run_Attempt run) c ∧
    resumable c pre f rest ∧ resets (f :: rest) true R ∧
    db_jobs db = R <$> db_jobs db0 ∧
    db_runs db = resumed_run env run (rr_Stats arg) (rr_ExpectedResumeCount arg + 1) <$> db_runs db0 ∧
    db_waves db = revive wave (env_now env) <$> db_waves db0 ∧
    db_nodes db = db_nodes db0 ∧ db_repos db = db_repos db0.

Lemma resumeFailedJobs_triple env db0 run arg :
  wf db0 → db_runs db0 !! run_ID run = Some run →
  triple true env (λ db, db = db0) (resumeFailedJobs run arg)
    (λ _ db, (run_Status run = RunStatusFail ∨ run_Status run = RunStatusCancelled) ∧
      ResumeCount (run_Stats run) = rr_ExpectedResumeCount arg ∧
      ∃ c pre f rest R, chain_of (db_jobs db0) (run_ID run) (run_Attempt run) c ∧
      resumable c pre f rest ∧ resets (f :: rest) true R ∧
      db_jobs db = R <$> db_jobs db0 ∧
      db_runs db = resumed_run env run (rr_Stats arg) (rr_ExpectedResumeCount arg + 1) <$> db_runs db0 ∧
      db_waves db = db_waves db0 ∧ db_nodes db = db_nodes db0 ∧ db_repos db = db_repos db0) any_error.
Proof.
  intros Hwf Hrun. unfold resumeFailedJobs.
  destruct (_ || _) eqn:Eg; [by apply triple_throw|].
  rewrite orb_false_iff, andb_false_iff, !negb_false_iff, !bool_decide_eq_true in Eg.
  destruct Eg as [Hst Hcount].
  pose proof (wf_run _ Hwf _ _ Hrun) as Hro. pose proof (ro_attempt _ _ Hro) as Hat.
  destruct (wf_attempt _ Hwf _ _ (run_Attempt run) Hrun) as (c & Hc & Hok); [lia|].
  eapply triple_bind with (Q := λ jobs db, jobs = attempt_jobs db0 (run_ID run) (run_Attempt run) ∧ db = db0).
  { apply triple_query; [|done]. by intros db ->. }
  intros jobs. apply triple_pure; [behave|]. intros ->.
  eapply triple_bind with (Q := λ suffix db, suffix_scan c "" = Some suffix ∧ db = db0).
  { apply triple_of_option; [|done]. intros s db. rewrite (failedJobSuffix_chain _ _ _ c); eauto.
    - apply Hwf.
    - apply Hok. }
  intros suffix. apply triple_pure; [behave|]. intros Hscan.
  apply suffix_scan_sound in Hscan as (pre & f & rest & -> & Hres).
  eapply triple_bind.
  { apply (reset_jobs_triple env (rr_Jobs arg) db0 true (f :: rest)).
    - apply Hwf.
    - pose proof (ch_nodup _ _ _ _ Hc) as Hn. rewrite (rs_split _ _ _ _ Hres), fmap_app in Hn.
      by apply NoDup_app in Hn as (_ & _ & ?).
    - intros x Hx. apply (ch_elem _ _ _ _ Hc). rewrite (rs_split _ _ _ _ Hres). set_solver. }
  intros ?. apply triple_stmt; [|done]. intros db [] db' (R & HR & Hj & Hr & Hw & Hn & Hre).
  destruct (in_int32 _); [|done]. intros [= <-]. split_and!; [done|done|].
  exists c, pre, f, rest, R. split_and!; try done. simpl. rewrite Hr.
  rewrite alter_run by (intros i r; apply Hwf). done.
Qed.

Lemma RestartRun_body_triple env gen arg db0 :
  wf db0 →
  triple true env (λ db, db = db0) (RestartRun_body gen arg)
    (λ updated db, ∃ run wave, restart_checked arg db0 run wave ∧
       db_runs db !! rr_RunID arg = Some updated ∧
       if rr_FromFailed arg then restart_resumed env arg db0 run wave db
       else restart_fresh env gen arg db0 run wave db) any_error.
Proof.
  intros Hwf. unfold RestartRun_body.
  eapply triple_bind with (Q := λ run db, db_runs db0 !! rr_RunID arg = Some run ∧ db = db0).
  { apply triple_wrap, triple_query_one; [|done|done]. intros db run db' -> [= E <-]. done. }
  intros run. destruct (_ || _) eqn:Eg; [by apply triple_throw|].
  rewrite orb_false_iff, negb_false_iff, bool_decide_eq_true in Eg. destruct Eg as [Hat Hterm].
  assert (Ht : IsTerminalRunStatus (run_Status run) = true).
  { rewrite !andb_false_iff, !negb_false_iff, !bool_decide_eq_true in Hterm.
    by destruct Hterm as [[-> | ->] | ->]. }
  eapply triple_bind with (Q := λ wave db, db_waves db0 !! run_WaveID run = Some wave ∧
    db_runs db0 !! rr_RunID arg = Some run ∧ db = db0).
  { apply triple_wrap, triple_query_one; [|done|done]. intros db w db' [Hr ->] [= E <-]. done. }
  intros wave. destruct (bool_decide (wave_Status wave = WaveStatusCancelled)) eqn:Hcan;
    [by apply triple_throw|apply bool_decide_eq_false in Hcan].
  eapply triple_bind with (Q := λ _ db, db_waves db0 !! run_WaveID run = Some wave ∧
    db_runs db0 !! rr_RunID arg = Some run ∧ db = db0).
  { apply triple_wrap, triple_query; done. }
  intros ?. eapply triple_bind; [apply requireRepo_triple|]. intros ?.
  apply triple_pre.
  { destruct (rr_FromFailed arg); unfold resumeFailedJobs; behave. }
  intros db ((Hw & Hr & ->) & Hfree).
  assert (Hchk : restart_checked arg db0 run wave) by done.
  pose proof (wf_run_key _ Hwf _ _ Hr) as Hid.
  assert (Hrun : db_runs db0 !! run_ID run = Some run) by (by rewrite Hid).
  pose proof (wf_wave_key _ Hwf _ _ Hw) as Hwid.
  assert (Hwk : wave_keyed (db_waves db0)) by (intros i w; apply Hwf).
  destruct (rr_FromFailed arg) eqn:Emode.
  - eapply triple_bind; [by apply resumeFailedJobs_triple|]. intros ?.
    apply triple_pre; [behave|].
    intros db1 (Hst & Hcount & c & pre & f & rest & R & Hc & Hres & HR & Hj & Hrs & Hws & Hns & Hre).
    eapply triple_bind; [apply (revive_triple env db1); by rewrite Hws|]. intros ?.
    eapply triple_bind with (Q := λ updated db, db_runs db1 !! rr_RunID arg = Some updated ∧
      db = set_db_waves (revive wave (env_now env) <$> db_waves db1) db1).
    { apply triple_wrap, triple_query_one; [|done|done]. intros db u db' -> [= E <-]. done. }
    intros updated. eapply triple_bind with (Q := λ _ db, db_runs db1 !! rr_RunID arg = Some updated ∧
      db = set_db_waves (revive wave (env_now env) <$> db_waves db1) db1); [by apply triple_ret|].
    intros ?. apply triple_ret. intros db [Hu ->]. exists run, wave. split; [done|]. split; [done|].
    split_and!; [done|done|]. exists c, pre, f, rest, R. simpl. rewrite Hws. done.
  - set (updated := next_attempt_row (rr_Stats arg) (env_now env) run).
    set (dbr := set_db_runs (<[run_ID run := updated]> (db_runs db0)) db0).
    eapply triple_bind with (Q := λ _ db, db = dbr).
    { eapply triple_bind with (Q := λ _ db, db = db0).
      - apply triple_wrap, triple_stmt; [|done]. intros db z db' -> [= _ <-].
        rewrite (no_active_jobs env db0 run Hwf Hrun); [by destruct db0|..].
        + intros E. by rewrite E in Ht.
        + intros j Hj. unfold active_of_attempt in Hj.
          rewrite !andb_true_iff, !bool_decide_eq_true in Hj. rewrite Hid. naive_solver.
      - intros ?. apply triple_wrap, triple_stmt; [|done]. intros db [] db' ->. rewrite Hr.
        destruct (in_int32 _); [|done]. intros [= <-]. unfold dbr. by rewrite Hid. }
    intros ?. eapply triple_bind; [apply (revive_triple env dbr); done|]. intros ?.
    set (db1 := set_db_waves (revive wave (env_now env) <$> db_waves dbr) dbr).
    eapply triple_bind with (Q := λ u db, u = updated ∧ db = db1).
    { apply triple_wrap, triple_query_one; [|done|done]. intros db u db' -> [= E <-].
      split; [|done]. unfold dbr in E. simpl in E. rewrite Hid, lookup_insert_eq in E. congruence. }
    intros u. apply triple_pure; [behave|]. intros ->.
    eapply triple_bind; [apply triple_wrap, createPlannedJobs_triple|]. intros js.
    apply triple_ret. intros db (Hne & Hb & Hins). exists run, wave. split; [done|]. split.
    + destruct Hins as (_ & _ & ->). simpl. rewrite Hid. apply lookup_insert_eq.
    + exists js. done.
Qed.

(** ** Preservation *)

Lemma RestartRun_triple env gen arg :
  (∀ k, IsZero (gen k) = false) →
  triple false env wf (RestartRun gen arg) (λ _, wf) (λ _, wf).
Proof.
  intros Hgen. unfold RestartRun. destruct (negb _); [by apply triple_throw|].
  apply triple_transaction; [|done]. apply triple_pre.
  { eapply triple_behaved, RestartRun_body_triple, empty_wf. }
  intros db0 Hwf. eapply triple_conseq; [by apply RestartRun_body_triple|done| |done].
  intros updated db (run & wave & [Hrun Hat Ht Hw Hnc Hfree] & _ & Hmode).
  pose proof (wf_run_key _ Hwf _ _ Hrun) as Hid. rewrite <-Hid in Hrun.
  assert (Hns : run_Status run ≠ RunStatusRunning) by (intros E; by rewrite E in Ht).
  destruct (rr_FromFailed arg).
  - destruct Hmode as (_ & _ & c & pre & f & rest & R & Hc & Hres & HR & Hj & Hrs & Hws & Hn & Hre).
    by eapply (resume_wf env db0 db run wave).
  - destruct Hmode as (js & Hne & Hb & Hins).
    eapply (fresh_wf env db0 run wave (rr_Stats arg)); try done. by eapply zip_gen_nonzero.
Qed.

End Restart.
