(* ===== verification/AuthSafety.v ===== *)
(** * Node enrollment

    What [CompleteBootstrapEnrollment] checks and writes: a token enrolls the node
    it is bound to, once. Every node is entered with the address 0.0.0.0, which
    [nodes] declares unique. *)

From stdpp Require Import base gmap sets list sorting strings.
From S2P Require Import Prelude GoStrings Types Json JobMeta Spec Db Tx Queries JobChain.
From S2P Require Import Lifecycle Tokens Store Plan Config Auth Recovery Projects.
From S2P Require Import Handlers Submit Completion Claim Chains Frame Invariant ProjectSafety.
From Stdlib Require Import ZArith Lia.
Local Open Scope list_scope.

Section Enrollment.
Context (env : Env) (a : CompleteBootstrapEnrollmentParams).

Definition enrolled_node : Node :=
  set_node_CertSerial (Some (be_CertSerial a)) (set_node_CertFingerprint (Some (be_CertFingerprint a))
    (set_node_CertNotBefore (Some (be_CertNotBefore a)) (set_node_CertNotAfter (Some (be_CertNotAfter a))
      (new_node (mkCreateNodeParams (be_NodeID a) ("node-" +:+ be_NodeID a) "0.0.0.0" None 1) (env_now env))))).

Definition used_token (t : BootstrapToken) : BootstrapToken :=
  set_bt_UsedAt (Some (env_now env)) (set_bt_CertIssuedAt (Some (env_now env)) t).

Definition enrolled_db (db : DB) : DB :=
  set_db_bootstrap_tokens (alter used_token (be_TokenID a) (db_bootstrap_tokens db))
    (set_db_nodes (<[be_NodeID a := enrolled_node]> (db_nodes db)) db).

(** What the token and the node table must be like. *)
Record may_enroll (db : DB) : Prop := {
  me_node_id : IsZero (be_NodeID a) = false;
  me_token : ∃ tok, db_bootstrap_tokens db !! be_TokenID a = Some tok ∧
               bt_NodeID tok = Some (be_NodeID a) ∧ bt_UsedAt tok = None ∧ bt_RevokedAt tok = None;
  me_fresh : db_nodes db !! be_NodeID a = None;
  me_addr : ∀ i nd, db_nodes db !! i = Some nd → node_IpAddress nd ≠ "0.0.0.0"
}.

Lemma enroll_triple db0 :
  triple false env (λ db, db = db0) (CompleteBootstrapEnrollment a)
    (λ _ db, may_enroll db0 ∧ db = enrolled_db db0) (λ _ db, db = db0).
Proof.
  unfold CompleteBootstrapEnrollment. destruct (_ || IsZero _) eqn:Ez; [by apply triple_throw|].
  apply orb_false_iff in Ez as [_ Ez]. apply triple_transaction; [|done].
  eapply triple_bind with (Q := λ r db, match r with
    | inr tok => db_bootstrap_tokens db0 !! be_TokenID a = Some tok ∧ db = db0 | inl _ => True end).
  { eapply triple_conseq; [apply (triple_attempt true env (get_token (be_TokenID a)) (λ db, db = db0)
      (λ tok db, db_bootstrap_tokens db0 !! be_TokenID a = Some tok ∧ db = db0) any_error any_error)|done|done|done].
    apply triple_query_one; [|done|done]. by intros db tok db' -> [= E <-]. }
  intros [e|tok]; [destruct (errors_Is e ErrNoRows); by apply triple_throw|].
  apply triple_pure; [behave|]. intros Htok.
  destruct (_ || _) eqn:Eg; [by apply triple_throw|].
  rewrite !orb_false_iff, negb_false_iff, bool_decide_eq_true, !bool_decide_eq_false in Eg.
  destruct Eg as [[Hn Hu] Hr]. rewrite <-eq_None_not_Some in Hu, Hr.
  eapply triple_bind with (Q := λ x db, match x with inl e => errors_Is e ErrNoRows = true →
    db_nodes db0 !! be_NodeID a = None ∧ db = db0 | inr _ => True end).
  { eapply triple_conseq; [apply (triple_attempt true env (GetNode (be_NodeID a)) (λ db, db = db0)
      (λ _ _, True) (λ e db, db_nodes db0 !! be_NodeID a = None ∧ db = db0) any_error)|done| |done].
    - apply triple_query_one; [done| |done]. by intros db db' -> [= E <-].
    - intros [e|x] db; auto. }
  intros [e|x]; [|by apply triple_throw]. destruct (negb (errors_Is e ErrNoRows)) eqn:Ee; [by apply triple_throw|].
  apply negb_false_iff in Ee.
  eapply triple_conseq with (P := λ db, db_nodes db0 !! be_NodeID a = None ∧ db = db0);
    [|by auto|intros ?? HQ; exact HQ|done].
  apply triple_pure; [behave|]. intros Hfresh.
  set (db1 := set_db_nodes (<[be_NodeID a := new_node (mkCreateNodeParams (be_NodeID a)
    ("node-" +:+ be_NodeID a) "0.0.0.0" None 1) (env_now env)]> (db_nodes db0)) db0).
  eapply triple_bind with (Q := λ c db, match c with
    | inr _ => (∀ i nd, db_nodes db0 !! i = Some nd → node_IpAddress nd ≠ "0.0.0.0") ∧ db = db1 | inl _ => True end).
  { eapply triple_conseq; [apply (triple_attempt true env _ (λ db, db = db0)
      (λ _ db, (∀ i nd, db_nodes db0 !! i = Some nd → node_IpAddress nd ≠ "0.0.0.0") ∧ db = db1) any_error any_error)|done|done|done].
    apply triple_stmt; [|done]. intros db nd db' ->. simpl. rewrite Hfresh.
    rewrite decide_False by (by intros []). destruct (existsb _ _); [done|].
    destruct (existsb _ _) eqn:Ex; [done|]. intros [= <- <-]. split; [|done].
    intros i n Hi Hip. apply not_true_iff_false in Ex. apply Ex. apply existsb_rows. exists i, n.
    split; [done|]. by apply bool_decide_eq_true. }
  intros [e'|nd]; [destruct (isNodeIdentityUniqueViolation e'); by apply triple_throw|].
  apply triple_pure; [behave|]. intros Haddr.
  eapply triple_bind with (Q := λ _ db, db = set_db_nodes (<[be_NodeID a := enrolled_node]> (db_nodes db0)) db0).
  { apply triple_wrap, triple_exec; [|done]. intros db ->. unfold db1. simpl.
    rewrite alter_insert_eq. done. }
  intros ?. apply triple_wrap, triple_exec; [|done]. intros db ->. split; [|done].
  split; [done|exists tok; done|done|done].
Qed.

(** Entering a node keeps the invariant. *)
Lemma job_ok_nodes (nodes nodes' : gmap string Node) j : nodes ⊆ nodes' → job_ok nodes j → job_ok nodes' j.
Proof.
  intros Hsub [H1 H2 H3 H4 H5 H6 H7]. split; try done. intros m Hm. destruct (H5 m Hm) as [[x Hx] Hz].
  split; [|done]. exists x. by eapply lookup_weaken.
Qed.

Lemma enrolled_wf db : may_enroll db → wf db → wf (enrolled_db db).
Proof.
  intros [_ _ Hfresh _] Hwf. split; simpl; try apply Hwf.
  - intros i nd [[<- <-]|[_ Hn]]%lookup_insert_Some; [done|by eapply wf_node_key].
  - intros i j Hj. eapply job_ok_nodes; [|by eapply wf_job]. by apply insert_subseteq.
Qed.

Lemma Enroll_wf_triple : triple false env wf (CompleteBootstrapEnrollment a) (λ _, wf) (λ _, wf).
Proof.
  apply triple_pre.
  { eapply triple_behaved, (enroll_triple empty_db). }
  intros db0 Hwf. eapply triple_conseq; [apply (enroll_triple db0)|done| |by intros e db ->].
  intros _ db [Hm ->]. by apply enrolled_wf.
Qed.

End Enrollment.

(** * Authentication: who gets in

    The middleware against a specification without effects, and what the token
    endpoints keep. Statements may fail; a failure is never taken for a missing row. *)

(** Faults other than the answer that there is no row. *)
Definition honest (faults : list (option Err)) : Prop :=
  Forall (λ f, ∀ e, f = Some e → errors_Is e ErrNoRows = false) faults.

Lemma honest_head faults e : honest faults → head faults = Some (Some e) → errors_Is e ErrNoRows = false.
Proof. intros Hh E. destruct faults as [|f fs]; [done|]. injection E as ->. apply Forall_cons in Hh as [Hf _]. by apply Hf. Qed.

Lemma honest_tail faults : honest faults → honest (tail faults).
Proof. intros Hh. destruct faults; [done|]. by apply Forall_cons in Hh as [_ ?]. Qed.

(** ** Roles *)

(** The roles that may use a route. *)
Definition permits (roles : list string) (role : string) : Prop :=
  (role ∈ roles ∧ role ≠ "") ∨ (role = RoleCLIAdmin ∧ RoleControlPlane ∈ roles).

Lemma elem_allowlist role roles : role ∈ allowlist roles ↔ role ∈ roles ∧ role ≠ "".
Proof. unfold allowlist. rewrite elem_of_list_to_set, list_elem_of_filter. tauto. Qed.

Lemma normalized_spec roles role : role ∈ normalized roles ↔ permits roles role.
Proof.
  unfold normalized, permits, roleIncludes. cbn [foldl].
  assert (Hex : Exists (λ r, r ∈ allowlist roles) [RoleControlPlane] ↔ RoleControlPlane ∈ roles).
  { rewrite Exists_cons, Exists_nil, elem_allowlist. split; [by intros [[? _]|[]]|intros Hin; left; by split]. }
  destruct (decide _) as [He|He]; rewrite Hex in He; [rewrite elem_of_union, elem_of_singleton|]; rewrite elem_allowlist; tauto.
Qed.

Lemma normalized_empty roles : normalized roles = ∅ → ∀ role, role ∈ roles → role = "".
Proof.
  intros He role Hin. destruct (decide (role = "")); [done|]. exfalso.
  assert (Hr : role ∈ normalized roles) by (apply normalized_spec; left; done). rewrite He in Hr. by apply elem_of_empty in Hr.
Qed.

Section Safety.
Context `{JwtLib}.

(** ** A token and its row *)

Definition known_type (ty : string) : Prop := ty = TokenTypeAPI ∨ ty = TokenTypeBootstrap.

Definition revoked_in (db : DB) (id ty : string) : bool :=
  if decide (ty = TokenTypeAPI) then bool_decide (is_Some (db_api_tokens db !! id ≫= at_RevokedAt))
  else bool_decide (is_Some (db_bootstrap_tokens db !! id ≫= bt_RevokedAt)).

(** A check of one column, whatever fails. *)
Lemma check_row (f : DB → option Z) t :
  tx_aborted t = false → honest (tx_faults t) →
  ∃ r t', query_one (λ _ db, inr (f db, db)) t = (r, t') ∧ tx_db t' = tx_db t ∧
    match r with
    | inr _ => is_Some (f (tx_db t))
    | inl e => errors_Is e ErrNoRows = true → f (tx_db t) = None
    end ∧ (tx_faults t = [] → if f (tx_db t) then is_Some (f (tx_db t)) ∧ ∃ x, r = inr x else r = inl ErrNoRows).
Proof.
  intros Ha Hh. unfold query_one, mbind, M_bind, stmt. rewrite Ha.
  destruct (head (tx_faults t)) as [[e|]|] eqn:Ef.
  - do 2 eexists. split; [done|]. split; [done|]. split.
    + intros He. by rewrite (honest_head _ _ Hh Ef) in He.
    + intros E0. by rewrite E0 in Ef.
  - destruct (f (tx_db t)) as [x|]; simpl; do 2 eexists; (split; [done|]); (split; [done|]);
      (split; [eauto|]); eauto.
  - destruct (f (tx_db t)) as [x|]; simpl; do 2 eexists; (split; [done|]); (split; [done|]);
      (split; [eauto|]); eauto.
Qed.

Lemma revocation_check a id ty t :
  az_querier a = true → tx_aborted t = false → honest (tx_faults t) →
  ∃ r t', isTokenRevoked a id ty t = (r, t') ∧ tx_db t' = tx_db t ∧
    (∀ b, r = inr b → known_type ty ∧ b = revoked_in (tx_db t) id ty) ∧
    (tx_faults t = [] → known_type ty → r = inr (revoked_in (tx_db t) id ty)).
Proof.
  intros Hq Ha Hh. unfold isTokenRevoked. rewrite Hq. cbn [negb]. unfold revoked_in, known_type.
  destruct (decide (ty = TokenTypeAPI)) as [Ht|Ht]; [|destruct (decide (ty = TokenTypeBootstrap)) as [Ht'|Ht']].
  3: { do 2 eexists. split; [done|]. split; [done|]. split; [done|]. intros _ [?|?]; done. }
  1: destruct (check_row (λ db, db_api_tokens db !! id ≫= at_RevokedAt) t Ha Hh) as (r & t' & E & Hdb & Hr & H0).
  2: destruct (check_row (λ db, db_bootstrap_tokens db !! id ≫= bt_RevokedAt) t Ha Hh) as (r & t' & E & Hdb & Hr & H0).
  all: unfold CheckAPITokenRevoked, CheckBootstrapTokenRevoked, mbind at 1, M_bind, attempt; rewrite E.
  all: destruct r as [e|x]; cbn [fst snd];
    [destruct (errors_Is e ErrNoRows) eqn:Ee|]; do 2 eexists; (split; [done|]); (split; [done|]).
  all: split; [intros ? [= <-]|intros E0; specialize (H0 E0)].
  all: try (split; [tauto|]).
  all: try (rewrite Hr by done; symmetry; by apply bool_decide_eq_false_2, is_Some_None).
  all: try (symmetry; by apply bool_decide_eq_true_2).
  all: intros _; case_match; repeat (match goal with Hx : ∃ _, _ |- _ => destruct Hx end || destruct_and?); simplify_eq; try done.
  all: by rewrite ?bool_decide_eq_true_2, ?bool_decide_eq_false_2 by eauto.
Qed.

(** ** Callers *)

(** Whom a token stands for. *)
Definition verified (a : Authorizer) (now : Z) (db : DB) (tok : string) : option Identity :=
  claims ← ValidateToken tok (az_tokenSecret a) now;
  expires ← tc_ExpiresAt claims;
  if decide ((now ≤ expires)%Z ∧ known_type (tc_TokenType claims) ∧ revoked_in db (tc_ID claims) (tc_TokenType claims) = false)
  then Some (mkIdentity (tc_Role claims) (tc_ID claims) "" (tc_ID claims)) else None.

(** Whom a request comes from. *)
Definition caller (a : Authorizer) (now : Z) (db : DB) (r : Request) : option Identity :=
  match presented r with
  | Some tok => verified a now db tok
  | None => cert ← rq_peer r;
            if decide (extractRole cert = "") then None
            else Some (mkIdentity (extractRole cert) (ce_CN cert) (ce_Serial cert) "")
  end.

(** A server that insists on credentials and can look up tokens. *)
Definition secure (a : Authorizer) : Prop := az_allowInsecure a = false ∧ az_querier a = true.

Lemma bearer_run a tok t :
  az_querier a = true → tx_aborted t = false → honest (tx_faults t) →
  ∃ x t', identityFromBearerToken a tok t = (inr x, t') ∧ tx_db t' = tx_db t ∧
    (∀ id u, x = AuthOk id u → verified a (env_clock (tx_env t)) (tx_db t) tok = Some id) ∧
    (tx_faults t = [] → ∀ id, verified a (env_clock (tx_env t)) (tx_db t) tok = Some id → ∃ u, x = AuthOk id u).
Proof.
  intros Hq Ha Hh. unfold identityFromBearerToken, verified.
  change (mbind (M := M) ?k (ask env_clock) t) with (k (env_clock (tx_env t)) t). cbn beta.
  destruct (ValidateToken tok (az_tokenSecret a) (env_clock (tx_env t))) as [claims|];
    [|do 2 eexists; split_and!; [done|done|done|done]].
  cbn [mbind option_bind]. destruct (tc_ExpiresAt claims) as [ex|]; [|do 2 eexists; split_and!; [done|done|done|done]].
  cbn [mbind option_bind]. case_bool_decide as Hex.
  { do 2 eexists. split_and!; [done|done|done|]. intros _ id. case_decide as Hd; [|done]. destruct Hd as [Hd _]. lia. }
  destruct (revocation_check a (tc_ID claims) (tc_TokenType claims) t Hq Ha Hh) as (r & t' & E & Hdb & H1 & H2).
  unfold mbind at 1, M_bind, attempt. rewrite E. destruct r as [e|b].
  - do 2 eexists. split_and!; [done|done|done|]. intros E0 id. case_decide as Hd; [|done]. destruct Hd as (_ & Hk & _).
    by specialize (H2 E0 Hk).
  - destruct (H1 b eq_refl) as [Hk ->]. destruct (revoked_in _ _ _) eqn:Er.
    + do 2 eexists. split_and!; [done|done|done|]. intros _ id. case_decide as Hd; [|done]. by destruct Hd as (_ & _ & ?).
    + assert (Hc : (env_clock (tx_env t) ≤ ex)%Z ∧ known_type (tc_TokenType claims) ∧ false = false)
        by (split; [lia|split; [exact Hk|done]]).
      do 2 eexists. split_and!; [done|done| |]; rewrite (decide_True _ _ Hc).
      * by intros id u [= <- _].
      * intros _ id [= <-]. by eexists.
Qed.

Lemma request_run a r t :
  secure a → tx_aborted t = false → honest (tx_faults t) →
  ∃ x t', identityFromRequest a r t = (inr x, t') ∧ tx_db t' = tx_db t ∧
    (∀ id u, x = AuthOk id u → caller a (env_clock (tx_env t)) (tx_db t) r = Some id) ∧
    (tx_faults t = [] → ∀ id, caller a (env_clock (tx_env t)) (tx_db t) r = Some id → ∃ u, x = AuthOk id u).
Proof.
  intros [Hs Hq] Ha Hh. unfold identityFromRequest, caller. destruct (presented r) as [tok|]; [by apply bearer_run|].
  destruct (rq_peer r) as [cert|]; cbn [mbind option_bind].
  - destruct (decide _); do 2 eexists; (split; [done|]); (split; [done|]); [done|].
    split; [by intros id u [= <- _]|]. intros _ id [= <-]. by eexists.
  - rewrite Hs. do 2 eexists. split_and!; [done|done|done|done].
Qed.

(** The middleware admits the callers the specification admits, and no others. *)
Lemma Middleware_run a allowed r env db faults :
  secure a → honest faults → ¬ (∀ role, role ∈ allowed → role = "") →
  ∃ x, run_op (Middleware a allowed r) env db faults = (inr x, db) ∧
    (∀ id u, x = Served id u → caller a (env_clock env) db r = Some id ∧ permits allowed (id_Role id)) ∧
    (faults = [] → ∀ id, caller a (env_clock env) db r = Some id → permits allowed (id_Role id) → ∃ u, x = Served id u).
Proof.
  intros Hs Hh Hne. destruct (request_run a r (session env db faults) Hs eq_refl Hh) as (x & t' & E & Hdb & H1 & H2).
  assert (Hn : normalized allowed ≠ ∅) by (intros He; apply Hne; by apply normalized_empty).
  unfold run_op, Middleware, mbind, M_bind. rewrite E. cbn [tx_env session tx_faults] in *.
  eexists. split; [unfold mret, M_ret; cbn beta iota; by rewrite Hdb|]. rewrite (bool_decide_eq_true_2 _ Hn). cbn [andb]. split.
  - intros id u. destruct x as [id' u'| |]; [|done|done]. case_bool_decide as Hin; [|done]. intros [= <- <-].
    split; [by eapply H1|by apply normalized_spec].
  - intros E0 id Hc Hp. destruct (H2 E0 id Hc) as [u ->]. rewrite bool_decide_eq_true_2 by (by apply normalized_spec). by exists u.
Qed.

End Safety.

(** ** What the endpoints keep *)

Lemma sound_api_tokens v db : sound db → sound (set_db_api_tokens v db).
Proof. intros [Hw Hp]. split; [by eapply wf_grow|]. destruct Hp. by split. Qed.

Lemma wf_bootstrap_tokens v db : wf db → wf (set_db_bootstrap_tokens v db).
Proof. intros Hw. by eapply wf_grow. Qed.

(** A token that has been revoked. *)
Definition token_revoked (id : string) (db : DB) : Prop := is_Some (db_api_tokens db !! id ≫= at_RevokedAt).

Lemma revoked_same id db db' : db_api_tokens db' = db_api_tokens db → token_revoked id db → token_revoked id db'.
Proof. unfold token_revoked. by intros ->. Qed.

Lemma kept_revoked {A} (m : M A) id : kept m → stays (token_revoked id) m.
Proof. intros Hm t. specialize (Hm t). unfold frame in Hm. injection Hm as _ _ _ _ _ _ E. by apply revoked_same. Qed.

Lemma revoked_alter f i id db :
  (∀ t, is_Some (at_RevokedAt t) → is_Some (at_RevokedAt (f t))) →
  token_revoked id db → token_revoked id (set_db_api_tokens (alter f i (db_api_tokens db)) db).
Proof.
  intros Hf. unfold token_revoked. simpl. destruct (decide (i = id)) as [->|Hne]; [|by rewrite lookup_alter_ne].
  rewrite lookup_alter_eq. destruct (db_api_tokens db !! id) as [t|]; simpl; [apply Hf|done].
Qed.

(** The endpoints of projects do not touch tokens. *)
Ltac same_tokens :=
  unfold resolve_repo, insert_mig_repo in *; do 6 (repeat split_match; simplify_eq/=; try done).

Lemma stays_same {A} id (f : Env → DB → Err + A * DB) :
  (∀ env db a db', f env db = inr (a, db') → db_api_tokens db' = db_api_tokens db) → stays (token_revoked id) (stmt f).
Proof. intros Hf. apply stays_stmt. intros env db a db' Hr E. eapply revoked_same; [by eapply Hf|done]. Qed.

Section Steady.
Context `{Collation} (id : string).

Lemma create_runs_revoked gen wave plans : stays (token_revoked id) (create_runs gen wave plans).
Proof.
  revert gen. induction plans as [|plan rest IH]; intros gen; simpl; [apply stays_ret|].
  apply stays_bind; [apply kept_revoked, requireRepo_kept|]. intros ?.
  apply stays_bind; [unfold insertRun; stay; apply stays_same; intros; same_tokens|]. intros run.
  apply stays_bind; [apply kept_revoked, kept_wrap, createPlannedJobs_kept|]. intros ?. stay.
Qed.

#[export] Instance revoked_steady : Steady (token_revoked id).
Proof.
  split; intros; unfold CreateSpec, CreateGitSpecSnapshot, CreateWaveWithRuns, lockRunRepositories; stay;
    try (first [apply stays_exec; intros ?? Hr; by eapply revoked_same | apply stays_same; intros; same_tokens]; fail).
  apply stays_transaction. stay; [apply stays_same; intros; same_tokens|apply create_runs_revoked].
Qed.

End Steady.

(** *** The token endpoints *)

Section Endpoints.
Context `{JwtLib} (sha256 : string → string) (AddDate : Z → Z → Z → Z → Z).

Lemma stays_ask {A} I (f : Env → A) : stays I (ask f).
Proof. by intros t Ht. Qed.
#[local] Hint Resolve stays_ask : stays.

(** An invariant of the three statements on API tokens is one of the endpoints. *)
Class TokenSteady (I : DB → Prop) : Prop := {
  ts_Insert : ∀ a, stays I (InsertAPIToken a);
  ts_Revoke : ∀ i, stays I (RevokeAPIToken i);
  ts_LastUsed : ∀ i, stays I (UpdateAPITokenLastUsed i)
}.

#[export] Instance sound_token_steady : TokenSteady sound.
Proof.
  split; intros; [apply stays_stmt; intros env db u db' Hs E; repeat case_match; simplify_eq
                 |apply stays_exec; intros env db Hs..]; by apply sound_api_tokens.
Qed.

#[export] Instance revoked_token_steady id : TokenSteady (token_revoked id).
Proof.
  split; intros.
  - apply stays_stmt. intros env db u db' Hr E. destruct (existsb _ _); [done|]. case_decide as Hn; [done|].
    injection E as <- <-. unfold token_revoked in *. simpl.
    destruct (decide (ia_TokenID a = id)) as [<-|Hne]; [|by rewrite lookup_insert_ne].
    apply eq_None_not_Some in Hn. rewrite Hn in Hr. by destruct Hr.
  - apply stays_exec. intros env db Hr. apply revoked_alter; [|done]. by eexists.
  - apply stays_exec. intros env db Hr. by apply revoked_alter.
Qed.

#[local] Hint Extern 0 (stays _ _) => first [apply ts_Insert | apply ts_Revoke | apply ts_LastUsed] : stays.

Context (I : DB → Prop) `{!TokenSteady I}.

Lemma createAPIToken_stays secret id caller req : stays I (createAPITokenHandler sha256 AddDate secret id caller req).
Proof. unfold createAPITokenHandler. stay. Qed.

Lemma revokeAPIToken_stays id : stays I (revokeAPITokenHandler id).
Proof. unfold revokeAPITokenHandler. stay. Qed.

Lemma updateTokenLastUsed_stays a id ty : stays I (updateTokenLastUsed a id ty).
Proof. unfold updateTokenLastUsed. stay. Qed.

End Endpoints.

Section Bootstrap.
Context `{JwtLib} (sha256 : string → string) (AddDate : Z → Z → Z → Z → Z).
Context (csr_name : string → option string) (SignNodeCSR : string → Z → option IssuedCert).

Lemma InsertBootstrapToken_kept a : kept (InsertBootstrapToken a).
Proof. keep_stmt. Qed.
Lemma GetBootstrapToken_kept i : kept (GetBootstrapToken i).
Proof. keep_stmt. Qed.
#[local] Hint Resolve InsertBootstrapToken_kept GetBootstrapToken_kept Enrollment_kept : kept.

Lemma createBootstrapToken_kept secret id caller n m : kept (createBootstrapTokenHandler sha256 secret id caller n m).
Proof. unfold createBootstrapTokenHandler. keep_all. Qed.

Lemma bootstrapCertificate_kept secret authSecret wid ca authz csr :
  kept (bootstrapCertificateHandler AddDate csr_name SignNodeCSR secret authSecret wid ca authz csr).
Proof. unfold bootstrapCertificateHandler, validateBootstrapToken. keep_all. Qed.

Lemma createBootstrapToken_wf secret id caller n m env :
  triple false env wf (createBootstrapTokenHandler sha256 secret id caller n m) (λ _, wf) (λ _, wf).
Proof.
  unfold createBootstrapTokenHandler.
  eapply triple_bind with (Q := λ _, wf); [apply triple_attempt_inv, triple_get|].
  intros [e|nd]; [|by apply triple_ret]. destruct (negb _); [by apply triple_ret|].
  eapply triple_bind with (Q := λ _, wf); [by apply triple_ask|]. intros now.
  destruct (GenerateBootstrapToken _ _ _ _ _); [|by apply triple_ret].
  destruct (ValidateToken _ _ _); [|by apply triple_ret].
  eapply triple_bind with (Q := λ _, wf); [|intros ?; by apply triple_ret].
  apply triple_attempt_inv, triple_stmt; [|done]. intros db u db' Hw E.
  destruct (existsb _ _); [done|]. case_decide; [done|]. injection E as <- <-. by apply wf_bootstrap_tokens.
Qed.

Lemma validateBootstrapToken_inv authz secret env (I : DB → Prop) :
  triple false env I (validateBootstrapToken authz secret) (λ _, I) (λ _, I).
Proof.
  unfold validateBootstrapToken. eapply triple_bind with (Q := λ _, I); [by apply triple_ask|]. intros now.
  destruct (negb _); [by apply triple_ret|]. destruct (ValidateToken _ _ _); [|by apply triple_ret].
  destruct (negb _); [by apply triple_ret|]. destruct (tc_ExpiresAt _); [|by apply triple_ret].
  destruct (bool_decide _); [by apply triple_ret|].
  eapply triple_bind with (Q := λ _, I); [apply triple_attempt_inv, triple_get|]. intros ?. by apply triple_ret.
Qed.

Lemma bootstrapCertificate_wf secret authSecret wid ca authz csr env :
  triple false env wf (bootstrapCertificateHandler AddDate csr_name SignNodeCSR secret authSecret wid ca authz csr)
    (λ _, wf) (λ _, wf).
Proof.
  unfold bootstrapCertificateHandler. eapply triple_bind with (Q := λ _, wf); [apply validateBootstrapToken_inv|].
  intros [claims| |]; [|by apply triple_ret..]. destruct (negb _); [by apply triple_ret|].
  destruct ca; [by apply triple_ret..|]. eapply triple_bind with (Q := λ _, wf); [by apply triple_ask|]. intros now.
  destruct (SignNodeCSR _ _); [|by apply triple_ret]. destruct (issueWorkerToken _ _ _ _); [|by apply triple_ret].
  eapply triple_bind with (Q := λ _, wf); [apply triple_attempt_inv, Enroll_wf_triple|]. intros ?. by apply triple_ret.
Qed.

End Bootstrap.

(** ** The life of a token *)

Section Life.
Context `{JwtLib} `{!JwtLaws}.

(** A calendar that adds days and years forward. *)
Definition forward (AddDate : Z → Z → Z → Z → Z) : Prop :=
  ∀ t y d, (0 ≤ y → 0 ≤ d → 0 < y + d → t + 1000000 ≤ AddDate t y 0 d)%Z.

Definition issued_claims (role : string) (expiresAt : Z) (id : string) (now : Z) : TokenClaims :=
  mkTokenClaims role TokenTypeAPI "" (Some (NewNumericDate expiresAt)) (Some (NewNumericDate now)) id.

Lemma issued_valid secret role expiresAt id now now1 tok :
  GenerateAPIToken secret role expiresAt id now = Some tok → (now1 < NewNumericDate expiresAt)%Z →
  ValidateToken tok secret now1 = Some (issued_claims role expiresAt id now).
Proof.
  intros E Hn. unfold ValidateToken. rewrite (sign_parse _ _ _ _ _ _ E); [done|by rewrite hs256_hmac|].
  by intros e [= <-].
Qed.

(** An answer 200 means a token of the caller's choice of role, and its row. *)
Lemma createAPIToken_issues sha256 AddDate secret tokenID cl req env db faults tok id db1 :
  forward AddDate →
  run_op (createAPITokenHandler sha256 AddDate secret tokenID cl req) env db faults = (inr (200%Z, Some (tok, id)), db1) →
  ∃ expiresAt, GenerateAPIToken secret (NormalizeRole (ct_Role req)) expiresAt tokenID (env_clock env) = Some tok ∧
    (env_clock env < NewNumericDate expiresAt)%Z ∧
    id = tokenID ∧ NormalizeRole (ct_Role req) ≠ "" ∧
    ∃ row, db_api_tokens db1 = <[tokenID := row]> (db_api_tokens db) ∧ at_RevokedAt row = None ∧
           db_bootstrap_tokens db1 = db_bootstrap_tokens db.
Proof.
  intros Hf E. unfold run_op, createAPITokenHandler in E. cbv zeta in E. destruct (decide _) as [|Hrole]; [done|].
  destruct (_ && _); [done|]. unfold mbind at 1, M_bind, ask in E. cbn [session tx_env] in E.
  set (days := if bool_decide (ct_ExpiresInDays req ≤ 0)%Z then 365%Z else ct_ExpiresInDays req) in *. set (expiresAt := AddDate (env_clock env) 0%Z 0%Z days) in *.
  assert (Hd : (0 < days)%Z) by (unfold days; case_bool_decide; lia).
  assert (He : (env_clock env < NewNumericDate expiresAt)%Z).
  { pose proof (date_second expiresAt). pose proof (Hf (env_clock env) 0%Z days ltac:(lia) ltac:(lia) ltac:(lia)).
    unfold expiresAt in *. lia. }
  destruct (GenerateAPIToken _ _ _ _ _) as [token|] eqn:Eg; [|done].
  rewrite (issued_valid _ _ _ _ _ _ _ Eg He) in E. unfold mbind at 1, M_bind, attempt, InsertAPIToken, stmt in E.
  cbn [tx_aborted] in E. exists expiresAt. destruct (head _) as [[e|]|]; [done|..].
  all: cbn [tx_env tx_db] in E; destruct (existsb _ _); [done|]; destruct (decide _); [done|]; simpl in E;
    injection E as <- <- <-; split; [done|]; split; [done|]; split; [done|]; split; [done|]; eexists; split; [done|]; done.
Qed.

(** Who presents a token of this kind is its holder, unless it was revoked. *)
Lemma issued_caller secret role expiresAt id now a now1 db r tok :
  GenerateAPIToken secret role expiresAt id now = Some tok → az_tokenSecret a = secret →
  (now1 < NewNumericDate expiresAt)%Z → presented r = Some tok → ¬ token_revoked id db →
  caller a now1 db r = Some (mkIdentity role id "" id).
Proof.
  intros Eg Hs Hn Hp Hr. unfold caller, verified. rewrite Hp, Hs, (issued_valid _ _ _ _ _ _ _ Eg Hn).
  cbn [mbind option_bind issued_claims tc_ExpiresAt tc_TokenType tc_ID tc_Role]. rewrite decide_True; [done|].
  split; [lia|]. split; [by left|]. unfold revoked_in. rewrite decide_True by done. by apply bool_decide_eq_false_2.
Qed.

Lemma revoked_caller secret role expiresAt id now a now0 now1 db r tok :
  GenerateAPIToken secret role expiresAt id now = Some tok → az_tokenSecret a = secret →
  (now0 < NewNumericDate expiresAt)%Z → presented r = Some tok → token_revoked id db → caller a now1 db r = None.
Proof.
  intros Eg Hs Hn0 Hp Hr. unfold caller, verified. rewrite Hp, Hs. pose proof (issued_valid _ _ _ _ _ _ _ Eg Hn0) as Hv0.
  destruct (ValidateToken tok secret now1) as [c|] eqn:Hv; [|done]. cbn [mbind option_bind].
  assert (Hc : c = issued_claims role expiresAt id now).
  { unfold ValidateToken in Hv0, Hv. destruct (ParseWithClaims tok _ now0) as [[c0 []]|] eqn:E0; [|done..].
    destruct (ParseWithClaims tok _ now1) as [[c1 []]|] eqn:E1; [|done..]. injection Hv0 as <-. injection Hv as <-.
    by eapply parse_claims. }
  rewrite Hc. cbn. rewrite decide_False; [done|]. intros (_ & _ & Hf). unfold revoked_in in Hf.
  rewrite decide_True in Hf by done. by apply bool_decide_eq_false in Hf.
Qed.

(** Revoking a token that has a row. *)
Lemma revokeAPIToken_revokes id env db faults db' :
  trim_space id = id → id ≠ "" → is_Some (db_api_tokens db !! id) →
  run_op (revokeAPITokenHandler id) env db faults = (inr 200%Z, db') → token_revoked id db'.
Proof.
  intros Ht Hne [row Hrow]. unfold run_op, revokeAPITokenHandler, requiredPathParam. rewrite Ht, decide_False by done.
  unfold mbind, M_bind, attempt, RevokeAPIToken, exec, stmt. cbn [tx_aborted session].
  destruct (head _) as [[e|]|]; [done|..]; simpl; intros [= <-]; unfold token_revoked; simpl;
    rewrite lookup_alter_eq, Hrow; by eexists.
Qed.

(** A token without a row: nothing happens, and the answer is the same. *)
Lemma revokeAPIToken_missing id env db :
  trim_space id = id → id ≠ "" → db_api_tokens db !! id = None →
  ∃ db', run_op (revokeAPITokenHandler id) env db [] = (inr 200%Z, db') ∧ db_api_tokens db' = db_api_tokens db.
Proof.
  intros Ht Hne Hrow. unfold run_op, revokeAPITokenHandler, requiredPathParam. rewrite Ht, decide_False by done.
  eexists. split; [reflexivity|]. simpl. apply map_eq. intros j. destruct (decide (id = j)) as [<-|Hj].
  - by rewrite lookup_alter_eq, Hrow.
  - by rewrite lookup_alter_ne.
Qed.

(** *** Enrollment *)

Context (AddDate : Z → Z → Z → Z → Z) (csr_name : string → option string) (SignNodeCSR : string → Z → option IssuedCert).

(** What a bootstrap token has shown when it passes. *)
Record vouched (authz secret : string) (env : Env) (claims : TokenClaims) : Prop := {
  vo_bearer : has_prefix authz "Bearer " = true;
  vo_claims : ValidateToken (trim_prefix authz "Bearer ") secret (env_clock env) = Some claims;
  vo_type : tc_TokenType claims = TokenTypeBootstrap;
  vo_fresh : ∃ e, tc_ExpiresAt claims = Some e ∧ (env_clock env ≤ e)%Z
}.

Lemma validateBootstrapToken_vouches authz secret env db :
  triple false env (λ d, d = db) (validateBootstrapToken authz secret)
    (λ v d, (∀ claims, v = CheckOk claims → vouched authz secret env claims) ∧ d = db) any_error.
Proof.
  unfold validateBootstrapToken. eapply triple_bind with (Q := λ now d, now = env_clock env ∧ d = db); [by apply triple_ask; intros d ->|].
  intros now. apply triple_pure; [behave|]. intros ->. destruct (has_prefix authz "Bearer ") eqn:Eb; [|by apply triple_ret]. cbn [negb].
  destruct (ValidateToken _ _ _) as [claims|] eqn:Ev; [|by apply triple_ret].
  case_bool_decide as Hty; [|by apply triple_ret]. cbn [negb].
  destruct (tc_ExpiresAt claims) as [e|] eqn:Ee; [|by apply triple_ret]. case_bool_decide as Hlt; [by apply triple_ret|].
  eapply triple_bind with (Q := λ _ d, d = db); [apply triple_attempt_inv, triple_get|]. intros [er|row]; [by apply triple_ret|].
  apply triple_ret. intros d ->. split; [|done]. intros c Hc. repeat case_match; simplify_eq. split; [done..|].
  eexists. split; [done|lia].
Qed.

Definition enroll_params (claims : TokenClaims) (cert : IssuedCert) : CompleteBootstrapEnrollmentParams :=
  mkBootstrapParams (tc_ID claims) (tc_NodeID claims) (ic_Serial cert) (ic_Fingerprint cert) (ic_NotBefore cert) (ic_NotAfter cert).

(** What has happened when a certificate is granted. *)
Record granted (secret authSecret wid authz csr : string) (env : Env) (db : DB) (cert : IssuedCert) (wtok : string)
    (claims : TokenClaims) (db' : DB) : Prop := {
  gr_token : vouched authz secret env claims;
  gr_name : parseAndVerifyCSR csr_name csr ("node:" +:+ tc_NodeID claims) = true;
  gr_cert : SignNodeCSR csr (env_clock env) = Some cert;
  gr_worker : issueWorkerToken AddDate authSecret wid (env_clock env) = Some wtok;
  gr_may : may_enroll (enroll_params claims cert) db;
  gr_db : db' = enrolled_db env (enroll_params claims cert) db
}.

Lemma bootstrapCertificate_triple secret authSecret wid ca authz csr env db :
  triple false env (λ d, d = db)
    (bootstrapCertificateHandler AddDate csr_name SignNodeCSR secret authSecret wid ca authz csr)
    (λ r d, ∀ cert wtok, r = (200%Z, Some (cert, wtok)) →
       ∃ claims, granted secret authSecret wid authz csr env db cert wtok claims d) any_error.
Proof.
  unfold bootstrapCertificateHandler. eapply triple_bind; [apply (validateBootstrapToken_vouches authz secret env db)|].
  intros [claims| |]; [|by apply triple_ret..].
  destruct (parseAndVerifyCSR _ _ _) eqn:Ecsr; [|by apply triple_ret]. cbn [negb].
  destruct ca as [| |pem]; [by apply triple_ret..|].
  apply triple_pure; [behave; apply (triple_behaved _ _ _ _ _ _ (enroll_triple _ _ db))|]. intros Hv.
  eapply triple_bind with (Q := λ now d, now = env_clock env ∧ d = db); [by apply triple_ask; intros d ->|].
  intros now. apply triple_pure; [behave; apply (triple_behaved _ _ _ _ _ _ (enroll_triple _ _ db))|]. intros ->.
  destruct (SignNodeCSR csr (env_clock env)) as [cert|] eqn:Ec; [|by apply triple_ret].
  destruct (issueWorkerToken _ _ _ _) as [wtok|] eqn:Ew; [|by apply triple_ret].
  eapply triple_bind with (Q := λ r d, match r with inr _ => may_enroll (enroll_params claims cert) db ∧
    d = enrolled_db env (enroll_params claims cert) db | inl _ => True end).
  { eapply triple_conseq; [apply (triple_attempt _ _ _ _ _ _ any_error (enroll_triple env (enroll_params claims cert) db))
      |done| |done]. intros [e|u] d; simpl; auto. }
  intros [e|u]; apply triple_ret; intros d Hd cert' wtok' [= <- <-]. destruct Hd as [Hmay ->]. exists claims. split; auto.
Qed.

Lemma bootstrapCertificate_grants secret authSecret wid ca authz csr env db faults cert wtok db' :
  run_op (bootstrapCertificateHandler AddDate csr_name SignNodeCSR secret authSecret wid ca authz csr) env db faults
    = (inr (200%Z, Some (cert, wtok)), db') →
  ∃ claims, granted secret authSecret wid authz csr env db cert wtok claims db'.
Proof.
  intros E. by apply (triple_run_op env _ _ _ _ db faults _ _
    (bootstrapCertificate_triple secret authSecret wid ca authz csr env db) eq_refl E).
Qed.

(** A token that was used, or that no longer verifies, is refused. *)
Lemma bootstrapCertificate_used secret authSecret wid ca authz csr env db faults :
  (∀ c, ValidateToken (trim_prefix authz "Bearer ") secret (env_clock env) = Some c →
     is_Some (tc_ExpiresAt c) ∧ ∃ row, db_bootstrap_tokens db !! tc_ID c = Some row ∧ is_Some (bt_UsedAt row)) →
  run_op (bootstrapCertificateHandler AddDate csr_name SignNodeCSR secret authSecret wid ca authz csr) env db faults
    = (inr (401%Z, None), db).
Proof.
  intros Hc. unfold run_op, bootstrapCertificateHandler, validateBootstrapToken, mbind, M_bind, ask.
  cbn [session tx_env]. destruct (has_prefix authz "Bearer "); [|done]. cbn [negb].
  destruct (ValidateToken _ _ _) as [c|] eqn:Ev; [|done]. destruct (Hc c eq_refl) as ([e He] & row & Hrow & [u Hu]).
  case_bool_decide; [|done]. cbn [negb]. rewrite He. case_bool_decide; [done|].
  unfold attempt, GetBootstrapToken, query_one, mbind, M_bind, stmt. cbn [tx_aborted session tx_faults tx_env tx_db].
  destruct (head faults) as [[er|]|]; [done|..]; rewrite Hrow; simpl; destruct (bool_decide _); try done;
    by rewrite Hu.
Qed.

End Life.
