(* ===== verification/WaveStatus.v ===== *)
(** * Wave status from the statuses of its runs

    The 32-bit tallies of [EvaluateWaveCompletionFromRunCounts] and of
    [runCountsFromStatusRows] speak of the runs of the wave as long as there are
    fewer than 2^31 of them: a wave can finish exactly when it has a run and all
    its runs are terminal. *)

From stdpp Require Import base gmap sets list sorting strings.
From S2P Require Import Prelude GoStrings Types Json Db Tx Queries JobChain Lifecycle Tokens.
From S2P Require Import Recovery Chains Invariant CancelSafety.
From Stdlib Require Import ZArith Lia.

(** ** Counting rows *)

(** The runs of a wave that have a status. *)
Definition has_run (db : DB) (waveID : string) (p : RunStatus → bool) : Prop :=
  ∃ i r, db_runs db !! i = Some r ∧ run_WaveID r = waveID ∧ p (run_Status r) = true.

(** What [int32] can count. *)
Definition countable_runs (db : DB) : Prop := (Z.of_nat (size (db_runs db)) < 2 ^ 31)%Z.

Lemma count_of_nonneg db w s : (0 ≤ count_of db w s)%Z.
Proof. unfold count_of, affected. lia. Qed.

Lemma count_of_pos db w s :
  (0 < count_of db w s)%Z ↔ has_run db w (λ s', bool_decide (s' = s)).
Proof.
  unfold count_of, affected, has_run. set (p := λ r, bool_decide (run_WaveID r = w) && bool_decide (run_Status r = s)).
  assert (Hiff : (0 < Z.of_nat (length (filter (λ x, p x = true) (rows (db_runs db)))))%Z ↔
    filter (λ x, p x = true) (rows (db_runs db)) ≠ []).
  { destruct (filter _ _); simpl; split; intros; try done; lia. }
  etransitivity; [exact Hiff|]. split.
  - intros Hne. destruct (filter _ _) as [|r l] eqn:E; [done|].
    assert (Hr : r ∈ filter (λ x, p x = true) (rows (db_runs db))) by (rewrite E; left).
    apply list_elem_of_filter in Hr as [Hp Hr]. apply elem_of_rows in Hr as [i Hi].
    unfold p in Hp. apply andb_true_iff in Hp as [H1 H2]. apply bool_decide_eq_true in H1. eauto.
  - intros (i & r & Hi & Hw & Hs) E.
    assert (Hr : r ∈ filter (λ x, p x = true) (rows (db_runs db))).
    { apply list_elem_of_filter. split; [|apply elem_of_rows; eauto].
      unfold p. rewrite Hs, bool_decide_eq_true_2 by done. done. }
    rewrite E in Hr. by apply not_elem_of_nil in Hr.
Qed.

Definition sum_of (f : RunStatus → Z) : Z :=
  (f RunStatusQueued + f RunStatusRunning + f RunStatusCancelled + f RunStatusFail + f RunStatusSuccess)%Z.

Lemma sum_counts_le db w : (sum_of (count_of db w) ≤ Z.of_nat (size (db_runs db)))%Z.
Proof.
  assert (Hl : size (db_runs db) = length (rows (db_runs db))).
  { unfold rows. by rewrite length_fmap, length_map_to_list. }
  rewrite Hl. unfold sum_of, count_of, affected. clear Hl. generalize (rows (db_runs db)). intros l.
  set (f := λ s l, length (filter (λ r, bool_decide (run_WaveID r = w) &&
    bool_decide (run_Status r = s) = true) l)).
  assert (Hcons : ∀ s r l, f s (r :: l) =
    ((if bool_decide (run_WaveID r = w) && bool_decide (run_Status r = s) then 1 else 0) + f s l)%nat).
  { intros s r l'. unfold f. rewrite filter_cons.
    by destruct (_ && _). }
  change (Z.of_nat (f RunStatusQueued l) + Z.of_nat (f RunStatusRunning l) + Z.of_nat (f RunStatusCancelled l)
    + Z.of_nat (f RunStatusFail l) + Z.of_nat (f RunStatusSuccess l) ≤ Z.of_nat (length l))%Z.
  assert (Hnil : ∀ s, f s [] = 0) by done.
  clearbody f. induction l as [|r l IH]; [rewrite !Hnil; simpl; lia|].
  rewrite !Hcons; simpl length. destruct (bool_decide (run_WaveID r = w)); simpl; [destruct (run_Status r); simpl|]; lia.
Qed.

(** ** Tallies *)

Section Tally.
Context (db : DB) (w : string) (Hsmall : countable_runs db).

Notation n := (count_of db w).

Lemma counts_bound s : (0 ≤ n s < 2 ^ 31)%Z.
Proof using Hsmall.
  pose proof (sum_counts_le db w). pose proof (count_of_nonneg db w) as Hn. unfold countable_runs in *.
  unfold sum_of in *.
  pose proof (Hn RunStatusQueued). pose proof (Hn RunStatusRunning). pose proof (Hn RunStatusCancelled).
  pose proof (Hn RunStatusFail). pose proof (Hn RunStatusSuccess). destruct s; lia.
Qed.

(** The runs of the wave whose status satisfies [p]. *)
Definition count_where (p : RunStatus → bool) : Z := sum_of (λ s, if p s then n s else 0%Z).

Definition sum_rows (p : RunStatus → bool) (l : list CountRow) : Z :=
  foldr (λ r acc, ((if p (cr_Status r) then cr_Count r else 0) + acc)%Z) 0%Z l.

(** A status that does not occur has no row, and would not count. *)
Lemma sum_count_rows p : sum_rows p (count_rows db w) = count_where p.
Proof using Type.
  unfold count_where, sum_of, count_rows.
  assert (Hg : ∀ ss : list RunStatus, sum_rows p (omap (λ s, if bool_decide (0 < n s)%Z
      then Some (mkCountRow s (n s)) else None) ss)
    = foldr (λ s acc, ((if p s then n s else 0) + acc)%Z) 0%Z ss).
  { induction ss as [|s ss IH]; simpl; [done|]. case_bool_decide as Hs; simpl; [f_equal; exact IH|].
    etransitivity; [exact IH|]. pose proof (count_of_nonneg db w s). destruct (p s); lia. }
  etransitivity; [exact (Hg members)|]. simpl. lia.
Qed.

Lemma count_rows_pos : Forall (λ r, (0 < cr_Count r)%Z) (count_rows db w).
Proof using Type.
  apply Forall_forall. intros r. unfold count_rows. rewrite list_elem_of_omap.
  intros (s & _ & Hr). case_bool_decide; by simplify_eq/=.
Qed.

Lemma sum_rows_nonneg p l : Forall (λ r, (0 < cr_Count r)%Z) l → (0 ≤ sum_rows p l)%Z.
Proof using Type. induction 1; simpl; [lia|]. destruct (p _); lia. Qed.

(** An occurring status. *)
Definition seen (s : RunStatus) (l : list CountRow) : bool :=
  existsb (λ r, bool_decide (cr_Status r = s) && bool_decide (0 < cr_Count r)%Z) l.

Lemma tally_rows a b f c l :
  Forall (λ r, (0 < cr_Count r)%Z) l → (0 ≤ a)%Z → (0 ≤ b)%Z →
  (a + sum_rows (λ _, true) l < 2 ^ 31)%Z → (b + sum_rows IsTerminalRunStatus l < 2 ^ 31)%Z →
  foldl tally_row (mkWaveTally a b f c) l =
  mkWaveTally (a + sum_rows (λ _, true) l) (b + sum_rows IsTerminalRunStatus l)
    (f || seen RunStatusFail l) (c || seen RunStatusCancelled l).
Proof using Type.
  intros Hl. revert a b f c. induction Hl as [|r l Hr Hl IH]; intros a b f c Ha Hb Hta Htb; simpl in *.
  { by rewrite !Z.add_0_r, !orb_false_r. }
  pose proof (sum_rows_nonneg (λ _, true) l Hl). pose proof (sum_rows_nonneg IsTerminalRunStatus l Hl).
  unfold tally_row. simpl. rewrite (wrap32_id (a + cr_Count r)) by lia.
  assert (Hb' : (if IsTerminalRunStatus (cr_Status r) then wrap32 (b + cr_Count r) else b)
    = (b + (if IsTerminalRunStatus (cr_Status r) then cr_Count r else 0))%Z).
  { destruct (IsTerminalRunStatus _); [apply wrap32_id; lia|lia]. }
  rewrite Hb', IH; [|lia|destruct (IsTerminalRunStatus _); lia|lia|lia].
  by rewrite !Z.add_assoc, !orb_assoc.
Qed.

Lemma seen_count_rows s : seen s (count_rows db w) = bool_decide (0 < n s)%Z.
Proof using Type.
  apply eq_bool_prop_intro. rewrite !Is_true_true, bool_decide_eq_true. unfold seen.
  rewrite existsb_exists. split.
  - intros (r & Hr & Hb). apply list_elem_of_In in Hr. unfold count_rows in Hr.
    apply list_elem_of_omap in Hr as (s' & _ & Hr).
    apply andb_true_iff in Hb as [Hb _]. apply bool_decide_eq_true in Hb. subst s.
    case_bool_decide as Hs; [|done]. by injection Hr as <-.
  - intros Hs. exists (mkCountRow s (n s)). split.
    + apply list_elem_of_In. unfold count_rows. apply list_elem_of_omap. exists s.
      split; [apply members_all|]. by rewrite bool_decide_eq_true_2.
    + simpl. by rewrite !bool_decide_eq_true_2 by done.
Qed.

Lemma count_where_pos p : (0 < count_where p)%Z ↔ has_run db w p.
Proof using Type.
  assert (Hs : ∀ s, (0 ≤ if p s then n s else 0)%Z)
    by (intros s; pose proof (count_of_nonneg db w s); destruct (p s); lia).
  split.
  - intros Hc. assert (∃ s, (0 < if p s then n s else 0)%Z) as (s & Hps).
    { unfold count_where, sum_of in Hc.
      destruct (decide (0 < if p RunStatusQueued then n RunStatusQueued else 0)%Z) as [?|?Hn]; [eauto|].
      destruct (decide (0 < if p RunStatusRunning then n RunStatusRunning else 0)%Z) as [?|?Hn]; [eauto|].
      destruct (decide (0 < if p RunStatusCancelled then n RunStatusCancelled else 0)%Z) as [?|?Hn]; [eauto|].
      destruct (decide (0 < if p RunStatusFail then n RunStatusFail else 0)%Z) as [?|?Hn]; [eauto|].
      exists RunStatusSuccess. lia. }
    destruct (p s) eqn:Ep; [|lia]. apply count_of_pos in Hps as (i & r & Hi & Hw & Hb).
    apply bool_decide_eq_true in Hb. exists i, r. by rewrite Hb.
  - intros (i & r & Hi & Hw & Hp).
    assert (H1 : (0 < if p (run_Status r) then n (run_Status r) else 0)%Z).
    { rewrite Hp. apply count_of_pos. exists i, r. split_and!; [done..|]. by apply bool_decide_eq_true. }
    pose proof (Hs RunStatusQueued). pose proof (Hs RunStatusRunning). pose proof (Hs RunStatusCancelled).
    pose proof (Hs RunStatusFail). pose proof (Hs RunStatusSuccess).
    unfold count_where, sum_of. destruct (run_Status r); lia.
Qed.

Lemma count_where_split p :
  count_where (λ _, true) = (count_where p + count_where (λ s, negb (p s)))%Z.
Proof using Type. unfold count_where, sum_of. repeat case_match; simpl in *; simplify_eq; lia. Qed.

Lemma count_where_nonneg p : (0 ≤ count_where p)%Z.
Proof using Type.
  rewrite <-sum_count_rows. apply sum_rows_nonneg, count_rows_pos.
Qed.

(** The evaluation of a wave's counts, in terms of its runs. *)
Lemma wave_eval_spec :
  (rce_ShouldFinish (EvaluateWaveCompletionFromRunCounts (count_rows db w)) = true ↔
     has_run db w (λ _, true) ∧ ¬ has_run db w active_run) ∧
  (rce_ShouldFinish (EvaluateWaveCompletionFromRunCounts (count_rows db w)) = true →
     rce_RunState (EvaluateWaveCompletionFromRunCounts (count_rows db w)) =
     Some (if bool_decide (0 < n RunStatusFail)%Z then RunStateFailed
           else if bool_decide (0 < n RunStatusCancelled)%Z then RunStateCancelled
           else RunStateSucceeded)).
Proof using Hsmall.
  pose proof (sum_counts_le db w) as Hle. pose proof Hsmall as Hs. unfold countable_runs in Hs.
  pose proof (count_where_split IsTerminalRunStatus) as Hsp.
  pose proof (count_where_nonneg IsTerminalRunStatus). pose proof (count_where_nonneg (λ s, negb (IsTerminalRunStatus s))).
  assert (Hall : count_where (λ _, true) = sum_of n) by done.
  unfold EvaluateWaveCompletionFromRunCounts.
  rewrite tally_rows, !sum_count_rows, !seen_count_rows; [|apply count_rows_pos|lia|lia| |]; simpl.
  2,3: rewrite sum_count_rows; lia.
  rewrite <-!count_where_pos.
  assert (Hact : count_where active_run = count_where (λ s, negb (IsTerminalRunStatus s))).
  { unfold count_where, sum_of. simpl. done. }
  rewrite Hact. destruct (decide _) as [Hd|Hd]; simpl; (split; [|try done]); split; intros; try done; lia.
Qed.

End Tally.

(** ** Finishing a wave *)

(** The wave is open, has runs, and none of them is active. *)
Definition wave_over (db : DB) (w : string) : Prop :=
  (∃ wv, db_waves db !! w = Some wv ∧ wave_Status wv = WaveStatusStarted) ∧
  has_run db w (λ _, true) ∧ ¬ has_run db w active_run.

Definition finish_wave (now : Z) (w : string) (db : DB) : DB :=
  set_db_waves (alter (wave_status_row WaveStatusFinished now) w (db_waves db)) db.

Lemma finish_wave_wf now w db : wf db → wave_over db w → wf (finish_wave now w db).
Proof.
  intros Hwf (_ & _ & Hno).
  set (V := λ wv, if bool_decide (wave_ID wv = w) then wave_status_row WaveStatusFinished now wv else wv).
  assert (Hall : V <$> db_waves db = alter (wave_status_row WaveStatusFinished now) w (db_waves db))
    by (symmetry; apply alter_wave; intros ??; apply (wf_wave_key _ Hwf)).
  apply (wf_rewrite db _ id id V); rewrite ?map_fmap_id; auto; try done.
  - intros wv. unfold V. by case_bool_decide.
  - apply Hwf.
  - intros i r Hi. apply wave_lookup_id; [by eapply wf_run|]. intros wv Hw Hr Hs. unfold V.
    rewrite bool_decide_eq_false_2; [done|]. intros E. apply Hno. exists i, r.
    unfold id in *. rewrite Hr. rewrite (wf_wave_key _ Hwf _ _ Hw) in E. done.
  - intros i wv Hi. unfold V. case_bool_decide; [|by eapply wf_wave].
    split; simpl; [done|eauto].
  - intros i r a c Hi Hc Hok. by rewrite list_fmap_id.
  - apply Hwf.
Qed.

Section Complete.
Context `{Collation} (inside : bool) (env : Env) (db0 : DB) (Hsmall : countable_runs db0).

Lemma MaybeComplete_triple events run :
  triple inside env (λ db, db = db0) (MaybeCompleteRunIfAllReposTerminal events run)
    (λ b db, if b then wave_over db0 (run_WaveID run) ∧ db = finish_wave (env_now env) (run_WaveID run) db0
             else db = db0)
    (λ _ db, db = db0).
Proof using Hsmall.
  unfold MaybeCompleteRunIfAllReposTerminal. set (w := run_WaveID run).
  set (P := λ db, db = db0).
  assert (Hget : ∀ msg, triple inside env P (wrap msg (GetWave w))
    (λ wv db, db_waves db0 !! w = Some wv ∧ P db) (λ _, P)).
  { intros msg. apply triple_wrap. unfold GetWave. apply triple_query_one; [| |done].
    - intros db a db' -> [= E <-]. done.
    - by intros db db' -> [= _ <-]. }
  eapply triple_bind; [apply Hget|]. intros wv. apply triple_pure; [behave|]. intros Hwv.
  destruct (IsTerminalWaveStatus (wave_Status wv)) eqn:Ew; [by apply triple_ret|].
  eapply triple_bind with (Q := λ counts db, counts = count_rows db0 w ∧ P db).
  { apply triple_wrap, triple_query; [|done]. by intros db ->. }
  intros counts. apply triple_pure; [behave|]. intros ->.
  destruct (negb _) eqn:Ef; [by apply triple_ret|]. apply negb_false_iff in Ef.
  apply (proj1 (wave_eval_spec db0 w Hsmall)) in Ef.
  eapply triple_bind; [apply Hget|]. intros wv'. apply triple_pure; [behave|]. intros Hwv'.
  destruct (IsTerminalWaveStatus (wave_Status wv')) eqn:Ew'; [by apply triple_ret|].
  assert (Hover : wave_over db0 w).
  { split; [|done]. exists wv. split; [done|]. by destruct (wave_Status wv). }
  eapply triple_bind with (Q := λ _ db, db = finish_wave (env_now env) w db0).
  { apply triple_wrap, triple_exec; [|done]. by intros db ->. }
  intros ?. eapply triple_bind with (Q := λ _ db, db = finish_wave (env_now env) w db0).
  - destruct events; simpl; [|by apply triple_ret].
    eapply triple_bind; [apply triple_emit|intros ?].
    eapply triple_bind; [apply triple_attempt_inv, (triple_get inside env (λ db, db_repos db !! run_RepoID run))|intros ?].
    eapply triple_bind; [apply triple_emit|intros ?]. apply triple_emit.
  - intros ?. by apply triple_ret.
Qed.

Lemma calm_MaybeComplete events run : calm env (MaybeCompleteRunIfAllReposTerminal events run).
Proof using Type.
  unfold MaybeCompleteRunIfAllReposTerminal, CountRunsByWaveStatus, UpdateWaveStatus.
  keep_calm; apply calm_query_one; by eexists.
Qed.

Lemma ReleaseWave_total waveID reg (P : DB → Prop) : total env P (ReleaseWave waveID reg) (λ _, P).
Proof using Type.
  unfold ReleaseWave. destruct reg; [|by apply total_ret]. destruct (IsZero _); [by apply total_ret|].
  eapply total_bind with (Q := λ _, P); [|intros ?; by apply total_ret].
  eapply total_conseq; [apply total_attempt, (total_query env _ P (λ _, P)); done|done|].
  naive_solver.
Qed.

End Complete.
