(* ===== verification/RecoverySafety.v ===== *)
(** * Recovery of runs whose node went silent

    A fault-free cycle of the recovery task cancels the attempts that have a
    running job on a silent node, gives their runs a final status, leaves the rest
    alone and leaves no such job behind. *)

From stdpp Require Import base gmap sets list sorting strings.
From S2P Require Import Prelude GoStrings Types Json Db Tx Queries JobChain Lifecycle Tokens.
From S2P Require Import Recovery Chains Invariant CancelSafety WaveStatus.
From Stdlib Require Import ZArith Lia.

(** ** Stale rows *)

Definition row_key (s : StaleRow) : string * Z := (st_RunID s, st_Attempt s).
Definition job_key (j : Job) : string * Z := (job_RunID j, job_Attempt j).

Lemma group_stale_keys l k : k ∈ row_key <$> group_stale l ↔ k ∈ job_key <$> l.
Proof.
  induction l as [|j l IH]; [done|].
  assert (Hstep : k ∈ row_key <$> group_stale (j :: l) ↔ k = job_key j ∨ k ∈ row_key <$> group_stale l).
  { simpl. destruct (group_stale l) as [|g gs]; simpl.
    - rewrite list_elem_of_singleton. unfold row_key, job_key; simpl. set_solver.
    - destruct (_ && _) eqn:Eb; simpl; rewrite !elem_of_cons; unfold row_key at 1; simpl; [|done].
      rewrite andb_true_iff, !bool_decide_eq_true in Eb. destruct Eb as [E1 E2].
      assert (E : job_key j = row_key g) by (unfold job_key, row_key; congruence).
      rewrite E. unfold row_key. tauto. }
  rewrite Hstep, IH. simpl. by rewrite elem_of_cons.
Qed.

Section Recovery.
Context `{Collation}.

Lemma stale_rows_elem db cutoff rid a :
  (∃ s, s ∈ stale_rows db cutoff ∧ st_RunID s = rid ∧ st_Attempt s = a) ↔
  ∃ i j, db_jobs db !! i = Some j ∧ stale_running db cutoff j = true ∧
         job_RunID j = rid ∧ job_Attempt j = a.
Proof.
  pose proof (group_stale_keys (select (stale_running db cutoff) by_run_attempt_id (db_jobs db)) (rid, a)) as Hk.
  rewrite !list_elem_of_fmap in Hk. unfold row_key, job_key in Hk. split.
  - intros (s & Hs & <- & <-). destruct (proj1 Hk) as (j & [= E1 E2] & Hj); [eauto|].
    apply elem_of_select in Hj as [Hst [i Hi]]. exists i, j. done.
  - intros (i & j & Hi & Hst & <- & <-). destruct (proj2 Hk) as (s & [= E1 E2] & Hs); [|eauto].
    exists j. split; [done|]. apply elem_of_select. eauto.
Qed.

Lemma all_terminal_no_stale db cutoff :
  (∀ i j, db_jobs db !! i = Some j → terminal_job (job_Status j) = true) → stale_rows db cutoff = [].
Proof.
  intros Hall. destruct (stale_rows db cutoff) as [|s l] eqn:E; [done|].
  destruct (proj1 (stale_rows_elem db cutoff (st_RunID s) (st_Attempt s))) as (i & j & Hj & Hst & _).
  { exists s. rewrite E. split; [left|done]. }
  pose proof (Hall i j Hj) as Ht. unfold stale_running in Hst. apply andb_true_iff in Hst as [Hst _].
  apply bool_decide_eq_true in Hst. by rewrite Hst in Ht.
Qed.

(** ** One attempt *)

(** An attempt of a stale row is hit. *)
Definition hit (rows : list StaleRow) (j : Job) : bool :=
  existsb (λ s, active_of_attempt (st_RunID s) (st_Attempt s) j) rows.

Lemma hit_active rows j : hit rows j = true → active_job (job_Status j) = true.
Proof.
  unfold hit. rewrite existsb_exists. intros (s & _ & Hs). unfold active_of_attempt in Hs.
  rewrite !andb_true_iff in Hs. naive_solver.
Qed.

(** What processing [rows] does to the jobs, the runs and the nodes. *)
Record recovered (now : Z) (rows : list StaleRow) (db db' : DB) : Prop := {
  rec_jobs : db_jobs db' = cancel_if (hit rows) now <$> db_jobs db;
  rec_runs : ∀ i r, db_runs db !! i = Some r → ∃ r', db_runs db' !! i = Some r' ∧
    run_Attempt r' = run_Attempt r ∧
    (r' = r ∨ active_run (run_Status r') = false) ∧
    (i ∉ st_RunID <$> rows → r' = r) ∧
    (i ∈ st_RunID <$> rows → active_run (run_Status r') = false);
  rec_nodes : db_nodes db' = db_nodes db
}.

Lemma recovered_nil now db : recovered now [] db db.
Proof.
  split; [|intros i r Hr; exists r; split_and!; auto|done].
  - unfold cancel_if, hit. simpl. by rewrite map_fmap_id.
  - intros Hin. by apply not_elem_of_nil in Hin.
Qed.

Lemma recovered_cons now s rows db1 db2 db3 :
  recovered now [s] db1 db2 → recovered now rows db2 db3 → recovered now (s :: rows) db1 db3.
Proof.
  intros [J1 R1 N1] [J2 R2 N2]. split; [| |congruence].
  - rewrite J2, J1, <-map_fmap_compose. apply map_fmap_ext. intros i j _. simpl.
    unfold cancel_if, hit. simpl. rewrite orb_false_r.
    destruct (active_of_attempt (st_RunID s) (st_Attempt s) j) eqn:Es; simpl; [|done].
    destruct (existsb _ rows) eqn:Ex; [|done].
    assert (Hx : hit rows (cancel_row now j) = true) by done. by apply hit_active in Hx.
  - intros i r Hr. destruct (R1 _ _ Hr) as (r1 & Hr1 & A1 & C1 & U1 & T1).
    destruct (R2 _ _ Hr1) as (r2 & Hr2 & A2 & C2 & U2 & T2). exists r2. simpl in *.
    setoid_rewrite elem_of_cons. setoid_rewrite list_elem_of_singleton in U1.
    setoid_rewrite list_elem_of_singleton in T1.
    split_and!; [done|congruence| | |].
    + destruct C2 as [-> |]; [|by right]. destruct C1 as [-> |]; auto.
    + intros Hn. rewrite U2, U1; tauto.
    + intros [-> |Hi]; [|auto]. destruct C2 as [-> |]; auto.
Qed.

(** Releasing the tokens of a wave only reads the database. *)
Lemma ReleaseWave_keeps (P : DB → Prop) inside env waveID reg E :
  triple inside env P (ReleaseWave waveID reg) (λ _, P) E.
Proof.
  unfold ReleaseWave. destruct reg as [reg|]; [|by apply triple_ret].
  destruct (IsZero waveID); [by apply triple_ret|].
  eapply triple_bind with (Q := λ _, P); [|intros ?; by apply triple_ret].
  eapply triple_conseq; [apply (triple_attempt inside env _ P (λ _, P) (λ _, P) E)|done| |done].
  - by apply triple_query.
  - by intros [?|?] db.
Qed.

Section Row.
Context (env : Env) (db0 : DB) (Hwf : wf db0) (Hsmall : countable_runs db0).
Context (s : StaleRow) (r : Run).
Context (Hrun : db_runs db0 !! st_RunID s = Some r) (Hatt : st_Attempt s = run_Attempt r).

Notation rid := (st_RunID s).
Notation now := (env_now env).

Definition cancel_attempt_db : DB :=
  set_db_jobs (update (active_of_attempt rid (st_Attempt s)) (cancel_row now) (db_jobs db0)) db0.

Definition recover_db (rs : RunStatus) : DB :=
  set_db_runs (alter (run_status_row rs now) rid (db_runs db0)) cancel_attempt_db.

Lemma run_status_terminal rs x :
  active_run rs = false →
  active_run (run_Status (run_status_row rs now x)) = false ∧
  is_Some (run_FinishedAt (run_status_row rs now x)).
Proof using Type. intros Hrs. split; [done|]. destruct rs; simpl; eauto; done. Qed.

Lemma recover_db_wf rs : active_run rs = false → wf (recover_db rs).
Proof using Hwf Hrun Hatt.
  intros Hrs.
  apply (cancel_runs_wf db0 _ (λ x, bool_decide (run_ID x = rid)) (run_status_row rs now) id
           (active_of_attempt rid (st_Attempt s)) now); try done.
  - intros x. by apply run_status_terminal.
  - intros j. unfold active_of_attempt. rewrite !andb_true_iff. naive_solver.
  - intros i j x Hj Hx Ha. unfold active_of_attempt. rewrite Ha, andb_true_r.
    rewrite (wf_run_key _ Hwf _ _ Hx).
    destruct (decide (job_RunID j = rid)) as [E|E]; [|by rewrite !bool_decide_eq_false_2 by done].
    assert (x = r) as -> by congruence.
    destruct (active_job_live _ Hwf _ _ _ Hj Ha Hx) as [_ Hja].
    by rewrite !bool_decide_eq_true_2 by congruence.
  - simpl. apply alter_run. intros ??. apply (wf_run_key _ Hwf).
  - simpl. by rewrite map_fmap_id.
  - apply Hwf.
Qed.

Lemma recover_db_recovered rs : active_run rs = false → recovered now [s] db0 (recover_db rs).
Proof using Hrun.
  intros Hrs. split; [| |done].
  - simpl. unfold update, cancel_if, hit. apply map_fmap_ext. intros i j _. simpl. by rewrite orb_false_r.
  - intros i x Hx. simpl. setoid_rewrite list_elem_of_singleton.
    destruct (decide (i = rid)) as [-> |Hne].
    + rewrite lookup_alter_eq, Hx. simpl. eexists. split; [done|].
      pose proof (run_status_terminal rs x Hrs) as [? _]. split_and!; auto. done.
    + rewrite lookup_alter_ne, Hx by done. eexists. split; [done|]. split_and!; auto. done.
Qed.

(** The jobs of the attempt are all terminal once its active ones are cancelled. *)
Lemma cancelled_jobs :
  attempt_jobs cancel_attempt_db rid (st_Attempt s) ≠ [] ∧
  Forall (λ j, terminal_job (job_Status j) = true) (attempt_jobs cancel_attempt_db rid (st_Attempt s)).
Proof using Hwf Hrun Hatt.
  pose proof (ro_attempt _ _ (wf_run _ Hwf _ _ Hrun)) as Hpos.
  destruct (wf_attempt _ Hwf _ _ (st_Attempt s) Hrun) as (c & Hc & Hok); [lia|].
  pose proof (stable_cancel_if (active_of_attempt rid (st_Attempt s)) now) as HF.
  assert (Hp : attempt_jobs cancel_attempt_db rid (st_Attempt s)
    ≡ₚ cancel_if (active_of_attempt rid (st_Attempt s)) now <$> c).
  { apply (attempt_jobs_perm _ _ _ _ (keyed_fmap _ _ HF (wf_keyed _ Hwf))); [|done].
    apply chain_of_fmap; [done|apply Hwf|done]. }
  split.
  - intros E. rewrite E in Hp. apply Permutation_nil_l in Hp. pose proof (ao_nonempty _ _ Hok).
    by destruct c.
  - rewrite Hp. apply Forall_fmap, Forall_forall. intros j Hj. simpl. unfold cancel_if, active_of_attempt.
    apply (ch_elem _ _ _ _ Hc) in Hj as (_ & -> & ->). rewrite !bool_decide_eq_true_2 by done. simpl.
    destruct (active_job (job_Status j)) eqn:E; [done|]. unfold terminal_job. by rewrite E.
Qed.

Lemma MaybeUpdate_total :
  total env (λ db, db = cancel_attempt_db) (MaybeUpdateRunStatus rid (st_Attempt s))
    (λ b db, b = true ∧ ∃ rs, active_run rs = false ∧ db = recover_db rs).
Proof using Hwf Hrun Hatt.
  unfold MaybeUpdateRunStatus.
  eapply total_bind with (Q := λ jobs db, jobs = attempt_jobs cancel_attempt_db rid (st_Attempt s) ∧
    db = cancel_attempt_db).
  { apply total_wrap, total_query. by intros db ->. }
  intros jobs. apply total_pure. intros ->.
  destruct (evaluate_attempt_spec (attempt_jobs cancel_attempt_db rid (st_Attempt s))) as (ev & -> & Hiff & Hst).
  rewrite (proj2 Hiff cancelled_jobs). destruct (Hst (proj2 Hiff cancelled_jobs)) as (j & rs & _ & _ & -> & Hrs).
  assert (Ha : active_run rs = false) by (by destruct (job_Status j); simplify_eq/=).
  eapply total_bind with (Q := λ _ db, db = recover_db rs).
  { apply total_wrap, total_exec. by intros db ->. }
  intros ?. apply total_ret. eauto.
Qed.

Lemma finish_recovered w db : recovered now [s] db0 db → recovered now [s] db0 (finish_wave now w db).
Proof using Type. by intros [J R N]. Qed.

Lemma recover_row_total t c :
  total env (λ db, db = db0) (recover_row t c s)
    (λ _ db, wf db ∧ countable_runs db ∧ recovered now [s] db0 db).
Proof using Hwf Hsmall Hrun Hatt.
  set (R := λ db, wf db ∧ countable_runs db ∧ recovered now [s] db0 db).
  assert (HR : ∀ rs, active_run rs = false → R (recover_db rs)).
  { intros rs Hrs. split_and!; [by apply recover_db_wf| |by apply recover_db_recovered].
    unfold countable_runs, recover_db. simpl.
    rewrite alter_run by (intros ??; apply (wf_run_key _ Hwf)). by rewrite map_size_fmap. }
  unfold recover_row. eapply total_bind.
  { apply total_attempt, (total_stmt env _ (λ db, db = db0) (λ _ db, db = cancel_attempt_db)).
    intros db ->. by eexists _, _. }
  intros a. eapply (total_conseq env _ (λ db, (∃ n, a = inr n) ∧ db = cancel_attempt_db));
    [|naive_solver|intros ?? HQ; exact HQ]. apply total_pure. intros (n & ->).
  eapply total_bind; [apply total_attempt, MaybeUpdate_total|]. intros u.
  eapply (total_conseq env _ (λ db, u = inr true ∧ ∃ rs, active_run rs = false ∧ db = recover_db rs));
    [|naive_solver|intros ?? HQ; exact HQ]. apply total_pure. intros ->. simpl.
  destruct (decide _); [apply total_ret; naive_solver|].
  apply total_exists. intros rs. apply total_pure. intros Hrs.
  eapply total_bind.
  { apply total_attempt, (total_query_one env _ _ (λ _ db, db = recover_db rs)). intros db ->. simpl.
    rewrite lookup_alter_eq, Hrun. by eexists _, _. }
  intros g. apply total_exists. intros run. apply total_pure. intros ->.
  destruct (HR rs Hrs) as (Hw & Hs & Hrec).
  eapply total_bind; [apply total_attempt_calm; [apply calm_MaybeComplete|]; intros inside;
    by apply MaybeComplete_triple|].
  intros [e|[]]; try (apply total_ret; intros db ->; by apply HR).
  eapply total_bind; [apply ReleaseWave_total|]. intros ?. apply total_ret. intros db (Hover & ->).
  split_and!; [by apply finish_wave_wf|done|by apply finish_recovered].
Qed.

(** *** When statements fail *)

(** What a row leaves unless it reports that its run could not be reconciled. *)
Definition row_kept (db : DB) : Prop :=
  wf db ∧ countable_runs db ∧
  ∀ i x, db_runs db0 !! i = Some x → ∃ x', db_runs db !! i = Some x' ∧ run_Attempt x' = run_Attempt x.

Lemma row_kept_start : row_kept db0.
Proof using Hwf Hsmall. split_and!; eauto. Qed.

Lemma row_kept_recover rs : active_run rs = false → row_kept (recover_db rs).
Proof using Hwf Hsmall Hrun Hatt.
  intros Hrs. split_and!; [by apply recover_db_wf| |].
  - unfold countable_runs, recover_db. simpl.
    rewrite alter_run by (intros ??; apply (wf_run_key _ Hwf)). by rewrite map_size_fmap.
  - intros i x Hx. destruct (rec_runs _ _ _ _ (recover_db_recovered rs Hrs) i x Hx) as (x' & ? & ? & _). eauto.
Qed.

Lemma MaybeUpdate_triple :
  triple false env (λ db, db = cancel_attempt_db) (MaybeUpdateRunStatus rid (st_Attempt s))
    (λ b db, b = true ∧ ∃ rs, active_run rs = false ∧ db = recover_db rs) any_error.
Proof using Hwf Hrun Hatt.
  unfold MaybeUpdateRunStatus, ListJobsByRunAttempt.
  eapply triple_bind with (Q := λ jobs db, jobs = attempt_jobs cancel_attempt_db rid (st_Attempt s) ∧
    db = cancel_attempt_db).
  { apply triple_wrap, triple_query; [by intros db ->|done]. }
  intros jobs. apply triple_pure; [behave|]. intros ->.
  destruct (evaluate_attempt_spec (attempt_jobs cancel_attempt_db rid (st_Attempt s))) as (ev & -> & Hiff & Hst).
  rewrite (proj2 Hiff cancelled_jobs). destruct (Hst (proj2 Hiff cancelled_jobs)) as (j & rs & _ & _ & -> & Hrs).
  assert (Ha : active_run rs = false) by (by destruct (job_Status j); simplify_eq/=).
  eapply triple_bind with (Q := λ _ db, db = recover_db rs).
  { apply triple_wrap, triple_exec; [by intros db ->|done]. }
  intros ?. apply triple_ret. eauto.
Qed.

(** The end of a row whose run has its final status. *)
Lemma finish_row_triple t c c0 :
  cy_unreconciled c = cy_unreconciled c0 →
  triple false env (λ db, ∃ rs, active_run rs = false ∧ db = recover_db rs)
    (g ← attempt (GetRun rid);
     match g with
     | inl _ => mret c
     | inr run =>
         f ← attempt (MaybeCompleteRunIfAllReposTerminal (srt_events t) run);
         match f with
         | inr true =>
             reg ← ReleaseWave (run_WaveID run) (cy_registry c);
             mret (mkCycle (cy_cancelledJobs c) (cy_runsUpdated c) (cy_runsFinalized c + 1)
                     ({[rid]} ∪ cy_finalizedRuns c) reg (cy_unreconciled c))
         | _ => mret c
         end
     end)
    (λ c' db, cy_unreconciled c' = cy_unreconciled c0 ∧ row_kept db) any_error.
Proof using Hwf Hsmall Hrun Hatt.
  intros Hc. set (P := λ db, ∃ rs, active_run rs = false ∧ db = recover_db rs).
  assert (HP : ∀ db, P db → row_kept db) by (intros db (rs & Hrs & ->); by apply row_kept_recover).
  eapply triple_bind; [apply triple_attempt_inv, (triple_get false env (λ db, db_runs db !! rid) P)|].
  intros [e|run]; [apply triple_ret; auto|].
  eapply triple_bind with (Q := λ _, row_kept).
  - apply triple_pre; [apply behaved_attempt; exact (triple_behaved _ _ _ _ _ _
      (MaybeComplete_triple false env db0 Hsmall (srt_events t) run))|].
    intros db1 Hdb1. destruct (HP _ Hdb1) as (Hw & Hs & Hr).
    eapply triple_conseq; [apply (triple_attempt _ _ _ _ _ _ any_error
      (MaybeComplete_triple false env db1 Hs (srt_events t) run))|done| |done].
    intros [e|[]] db; [intros ->|intros [Hover ->]|intros ->]; split_and!; auto.
    by apply finish_wave_wf.
  - intros [e|[]]; try (apply triple_ret; auto).
    eapply triple_bind; [apply (ReleaseWave_keeps row_kept)|]. intros reg. apply triple_ret. auto.
Qed.

Lemma recover_row_triple t c :
  triple false env (λ db, db = db0) (recover_row t c s)
    (λ c' db, cy_unreconciled c' ≠ [] ∨ cy_unreconciled c' = cy_unreconciled c ∧ row_kept db) any_error.
Proof using Hwf Hsmall Hrun Hatt.
  unfold recover_row, CancelActiveJobsByRunAttempt. eapply triple_bind.
  { apply (triple_attempt false env _ _ (λ _ db, db = cancel_attempt_db) (λ _ db, db = db0)).
    apply triple_stmt; [|done]. by intros db a db' -> [= <- <-]. }
  intros [e|n]; [apply triple_ret; intros db ->; right; split; [done|apply row_kept_start]|].
  eapply triple_bind.
  { exact (triple_attempt false env _ _ _ _ any_error MaybeUpdate_triple). }
  intros [e|[]]; [apply triple_ret; by left| |apply triple_ret; by intros db []].
  apply triple_pure.
  { destruct (decide _); [behave|]. eapply triple_behaved, finish_row_triple. reflexivity. }
  intros _. destruct (decide _).
  - apply triple_ret. intros db (rs & Hrs & ->). right. split; [done|by apply row_kept_recover].
  - eapply triple_conseq; [by apply (finish_row_triple t _ c)|done|by right|done].
Qed.

End Row.

(** ** A cycle *)

Section Cycle.
Context (env : Env).
Notation now := (env_now env).

(** The rows name the current attempts of runs of the database. *)
Definition current_rows (rows : list StaleRow) (db : DB) : Prop :=
  Forall (λ s, ∃ r, db_runs db !! st_RunID s = Some r ∧ st_Attempt s = run_Attempt r) rows.

Lemma current_rows_recovered rows s db db' :
  recovered now [s] db db' → current_rows rows db → current_rows rows db'.
Proof using Type.
  intros Hrec Hcur. eapply Forall_impl; [exact Hcur|]. intros x (r & Hr & Ha).
  destruct (rec_runs _ _ _ _ Hrec _ _ Hr) as (r' & Hr' & Ha' & _). exists r'. by rewrite Ha'.
Qed.

Lemma recover_rows_total t rows c db0 :
  wf db0 → countable_runs db0 → current_rows rows db0 →
  total env (λ db, db = db0) (recover_rows t c rows)
    (λ _ db, wf db ∧ countable_runs db ∧ recovered now rows db0 db).
Proof using Type.
  revert c db0; induction rows as [|s rows IH]; intros c db0 Hwf Hs Hcur; simpl.
  { apply total_ret. intros db ->. auto using recovered_nil. }
  apply Forall_cons in Hcur as [(r & Hr & Ha) Hcur].
  eapply total_bind; [apply (recover_row_total env db0 Hwf Hs s r Hr Ha)|].
  intros c' db1 ins hub (Hwf1 & Hs1 & Hrec).
  destruct (IH c' db1 Hwf1 Hs1 (current_rows_recovered _ _ _ _ Hrec Hcur) db1 ins hub eq_refl)
    as (c2 & db2 & hub2 & E & Hwf2 & Hs2 & Hrec2).
  exists c2, db2, hub2. split_and!; try done. by eapply recovered_cons.
Qed.

Lemma stale_rows_current db cutoff : wf db → current_rows (stale_rows db cutoff) db.
Proof using Type.
  intros Hwf. apply Forall_forall. intros s Hs.
  destruct (proj1 (stale_rows_elem db cutoff (st_RunID s) (st_Attempt s))) as (i & j & Hj & Hst & Hr & Ha);
    [by exists s|].
  assert (Hact : active_job (job_Status j) = true).
  { unfold stale_running in Hst. apply andb_true_iff in Hst as [Hst _].
    apply bool_decide_eq_true in Hst. by rewrite Hst. }
  destruct (wf_job_run _ Hwf _ _ Hj) as (r & Hrr & _).
  destruct (active_job_live _ Hwf _ _ _ Hj Hact Hrr) as [_ Hja].
  exists r. rewrite <-Hr, <-Ha. done.
Qed.

Lemma recovered_no_stale db db' cutoff :
  recovered now (stale_rows db cutoff) db db' → stale_rows db' cutoff = [].
Proof using Type.
  intros [J R N]. destruct (stale_rows db' cutoff) as [|s l] eqn:E; [done|]. exfalso.
  destruct (proj1 (stale_rows_elem db' cutoff (st_RunID s) (st_Attempt s))) as (i & j' & Hj' & Hst & Hr & Ha).
  { exists s. rewrite E. split; [left|done]. }
  rewrite J, lookup_fmap, fmap_Some in Hj'. destruct Hj' as (j & Hj & ->).
  unfold cancel_if in *. destruct (hit (stale_rows db cutoff) j) eqn:Eh; [done|].
  unfold stale_running in Hst. rewrite N in Hst.
  destruct (proj2 (stale_rows_elem db cutoff (st_RunID s) (st_Attempt s))) as (s' & Hs' & Er & Ea).
  { exists i, j. split_and!; done. }
  assert (Hh : hit (stale_rows db cutoff) j = true); [|congruence].
  unfold hit. apply existsb_exists. exists s'. split; [by apply list_elem_of_In|].
  unfold active_of_attempt. rewrite Er, Ea, Hr, Ha, !bool_decide_eq_true_2 by done. simpl.
  apply andb_true_iff in Hst as [Hst _]. apply bool_decide_eq_true in Hst. by rewrite Hst.
Qed.

Lemma Run_total t reg db0 :
  wf db0 → countable_runs db0 →
  total env (λ db, db = db0) (StaleJobRecoveryTask_Run t reg)
    (λ _ db, wf db ∧ countable_runs db ∧
       recovered now (stale_rows db0 (env_clock env - srt_nodeStaleAfter t)) db0 db).
Proof using Type.
  intros Hwf Hs. unfold StaleJobRecoveryTask_Run. set (cutoff := (env_clock env - srt_nodeStaleAfter t)%Z).
  eapply total_bind with (Q := λ n db, n = env_clock env ∧ db = db0); [by apply total_ask|].
  intros n. apply total_pure. intros ->. fold cutoff.
  eapply total_bind; [apply total_attempt, (total_query env _ (λ db, db = db0)
    (λ l db, l = stale_rows db0 cutoff ∧ db = db0)); by intros db ->|].
  intros a. apply total_exists. intros l. apply total_pure. intros ->. apply total_pure. intros ->.
  destruct (stale_rows db0 cutoff) as [|s rows] eqn:E.
  - apply total_ret. intros db ->. auto using recovered_nil.
  - eapply total_bind; [apply total_attempt, (total_query env _ (λ db, db = db0) (λ _ db, db = db0)); by intros db ->|].
    intros a. apply total_exists. intros cnt. apply total_pure. intros ->.
    apply recover_rows_total; [done|done|]. rewrite <-E. by apply stale_rows_current.
Qed.

(** *** When statements fail *)

Lemma recover_row_adds t c s :
  triple false env (λ _, True) (recover_row t c s)
    (λ c' _, cy_unreconciled c' = [] → cy_unreconciled c = []) any_error.
Proof using Type.
  unfold recover_row, CancelActiveJobsByRunAttempt, MaybeUpdateRunStatus, ListJobsByRunAttempt, ReleaseWave,
    MaybeCompleteRunIfAllReposTerminal, CountRunsByWaveStatus, ListRunsByWave.
  repeat first [apply triple_ret; by simpl
    | case_match
    | eapply triple_bind with (Q := λ _ _, True); [apply triple_true; behave|intros ?]].
Qed.

Lemma recover_row_behaved t c s : behaved false env (recover_row t c s).
Proof using Type. eapply triple_behaved, recover_row_adds. Qed.

Lemma recover_rows_behaved t c rows : behaved false env (recover_rows t c rows).
Proof using Type.
  revert c. induction rows as [|s rows IH]; intros c; simpl; [behave|].
  apply behaved_bind; [apply recover_row_behaved|done].
Qed.

Lemma recover_rows_triple t rows c db0 :
  (cy_unreconciled c = [] → wf db0 ∧ countable_runs db0 ∧ current_rows rows db0) →
  triple false env (λ db, db = db0) (recover_rows t c rows)
    (λ c' db, cy_unreconciled c' = [] → wf db ∧ countable_runs db) any_error.
Proof using Type.
  revert c db0; induction rows as [|s rows IH]; intros c db0 Hpre; simpl.
  { apply triple_ret. intros db -> Hc. by destruct (Hpre Hc) as (? & ? & _). }
  eapply triple_bind with (Q := λ c' db, cy_unreconciled c' = [] →
    wf db ∧ countable_runs db ∧ current_rows rows db).
  - destruct (decide (cy_unreconciled c = [])) as [Hc|Hc].
    + destruct (Hpre Hc) as (Hwf & Hs & [(r & Hr & Ha) Hcur]%Forall_cons).
      eapply triple_conseq; [apply (recover_row_triple env db0 Hwf Hs s r Hr Ha)|done| |done].
      intros c' db [Hne|[E (Hw & Hs' & Hruns)]] Hc'; [by rewrite Hc' in Hne|]. split_and!; [done|done|].
      eapply Forall_impl; [exact Hcur|]. intros x (y & Hy & Hx). destruct (Hruns _ _ Hy) as (y' & ? & Ey).
      exists y'. by rewrite Ey.
    + eapply triple_conseq; [apply recover_row_adds|done| |done]. naive_solver.
  - intros c'. apply triple_pre; [apply recover_rows_behaved|]. intros db1 H1. by apply IH.
Qed.

(** Whatever fails, a cycle that reports no run it could not reconcile keeps the
    database well formed. *)
Lemma Run_triple t reg db0 :
  wf db0 → countable_runs db0 →
  triple false env (λ db, db = db0) (StaleJobRecoveryTask_Run t reg)
    (λ c db, cy_unreconciled c = [] → wf db) any_error.
Proof using Type.
  intros Hwf Hs. unfold StaleJobRecoveryTask_Run, ListStaleRunningJobs, CountStaleNodesWithRunningJobs.
  eapply triple_bind with (Q := λ _ db, db = db0); [by apply triple_ask|]. intros n.
  set (cutoff := (n - _)%Z).
  eapply triple_bind.
  { apply (triple_attempt false env _ _ (λ l db, l = stale_rows db0 cutoff ∧ db = db0) (λ _ db, db = db0)).
    apply triple_query; [by intros db ->|done]. }
  intros [e|l]; [apply triple_ret; by intros db ->|].
  apply triple_pure. { destruct l; behave. apply recover_rows_behaved. }
  intros ->. destruct (stale_rows db0 cutoff) as [|s rows] eqn:E; [apply triple_ret; by intros db ->|].
  eapply triple_bind; [apply (triple_attempt_inv false env _ (λ db, db = db0)), triple_query; by auto|]. intros ?.
  eapply triple_conseq; [apply (recover_rows_triple t (s :: rows) _ db0)|done| |done].
  - intros _. split_and!; [done|done|]. rewrite <-E. by apply stale_rows_current.
  - naive_solver.
Qed.

End Cycle.

End Recovery.
