(* ===== verification/CompletionSafety.v ===== *)
(** * Completion: what a committed completion wrote

    A completion of a running job moves its chain on: on success the successor is
    queued with the produced commit, otherwise every later job is cancelled; when
    no job of the attempt is left active the run gets its final status. Everything
    else is untouched. The invariant is kept. *)

From S2P Require Import Prelude GoStrings Types Json JobMeta Db Tx Queries JobChain Lifecycle.
From S2P Require Import Tokens Store Recovery Completion Chains Invariant CancelSafety.
From S2P Require Import LaunchSafety RestartSafety.
From stdpp Require Import base gmap sets list sorting strings.
From Stdlib Require Import ZArith Lia.

(** ** Rows *)

Lemma stable_complete st ex sha now meta : stable (complete_row st ex sha now meta).
Proof. done. Qed.

Lemma stable_feed sha : stable (feed_row sha).
Proof. unfold feed_row. split; intros j; by destruct (decide _). Qed.

(** The row a remaining job gets when its chain is given up at [now]. *)
Definition cancelled_at (now : Z) (j : Job) : Job :=
  if terminal_job (job_Status j) then j
  else status_row JobStatusCancelled (job_StartedAt j) (Some now)
         (match job_StartedAt j with None => 0 | Some st => Z.max 0 (Z.quot (now - st) 1000) end)%Z
         0 j.

Lemma stable_cancelled_at now : stable (cancelled_at now).
Proof. unfold cancelled_at. split; intros j; by destruct (terminal_job _). Qed.

(** [F] on the rows whose id is listed. *)
Definition on_ids (ids : list string) (F : Job → Job) (j : Job) : Job :=
  if bool_decide (job_ID j ∈ ids) then F j else j.

Lemma stable_on_ids ids F : stable F → stable (on_ids ids F).
Proof. intros HF. unfold on_ids. apply (stable_if (λ j, bool_decide (job_ID j ∈ ids))). done. Qed.

(** ** Walking down the chain *)

Section Walk.
Context (env : Env) (now : Z) (byID : gmap string Job).

Lemma cancel_walk_behaved inside fuel seen next :
  behaved inside env (cancel_walk fuel now byID seen next).
Proof.
  revert seen next; induction fuel as [|fuel IH]; intros seen next; simpl; [behave|].
  destruct next as [id|]; [|behave]. destruct (decide _); [behave|].
  destruct (byID !! id); [|behave]. apply behaved_bind; [behave|]. intros ?. apply IH.
Qed.

Lemma cancel_walk_triple fuel seen (post : list Job) db0 :
  keyed (db_jobs db0) → linked job_ID job_NextID post → NoDup (job_ID <$> post) →
  length post < fuel → (∀ x, x ∈ post → byID !! job_ID x = Some x) →
  (∀ x, x ∈ post → db_jobs db0 !! job_ID x = Some x) → (∀ x, x ∈ post → job_ID x ∉ seen) →
  triple true env (λ db, db = db0)
    (cancel_walk fuel now byID seen (job_ID <$> head post))
    (λ _ db, db = set_db_jobs (on_ids (job_ID <$> post) (cancelled_at now) <$> db_jobs db0) db0)
    (λ _ _, False).
Proof.
  revert fuel seen db0; induction post as [|x post IH]; intros fuel seen db0 Hk Hl Hnd Hf Hby Hdb Hseen.
  { destruct fuel; simpl; apply triple_ret; intros db ->; unfold on_ids;
      rewrite fmap_same by (intros; by rewrite bool_decide_eq_false_2 by set_solver); by destruct db0. }
  destruct fuel as [|fuel]; simpl in Hf; [lia|]. simpl.
  rewrite decide_False by (apply Hseen; left). rewrite (Hby x) by left.
  simpl in Hnd. apply NoDup_cons in Hnd as [Hx Hnd].
  set (db1 := set_db_jobs (at_id (job_ID x) (cancelled_at now) <$> db_jobs db0) db0).
  eapply triple_bind with (Q := λ _ db, db = db1).
  { apply triple_when.
    - intros Ht. apply triple_wrap, triple_stmt; [|done]. intros db [] db' ->.
      rewrite (Hdb x) by left.
      rewrite decide_False by (destruct (job_StartedAt x); lia). intros [= <-]. unfold db1.
      rewrite <-(insert_at_id (cancelled_at now) _ _ x); [|done|apply Hdb; left].
      unfold cancelled_at. apply negb_true_iff in Ht. by rewrite Ht.
    - intros Ht db ->. unfold db1. rewrite fmap_same; [by destruct db0|].
      intros i y Hy. unfold at_id. case_decide as Hd; [|done]. apply negb_false_iff in Ht.
      destruct (Hk _ _ Hy) as [Hi _]. assert (y = x) as ->.
      { rewrite <-Hi, Hd, (Hdb x) in Hy by left. congruence. }
      unfold cancelled_at. by rewrite Ht. }
  intros ?. rewrite (Hl 0 x eq_refl). simpl.
  assert (Hl' : linked job_ID job_NextID post) by (intros k y Hy; by rewrite (Hl (S k) y Hy)).
  assert (Hhead : job_ID <$> (post !! 0) = job_ID <$> head post) by (by destruct post).
  rewrite Hhead. eapply triple_conseq; [apply (IH fuel ({[job_ID x]} ∪ seen) db1)|done| |done].
  - apply keyed_fmap; [|done]. apply stable_at, stable_cancelled_at.
  - done.
  - done.
  - lia.
  - intros y Hy. apply Hby. by right.
  - intros y Hy. unfold db1. simpl. rewrite lookup_fmap, (Hdb y) by (by right). simpl. unfold at_id.
    rewrite decide_False; [done|]. intros E. apply Hx. rewrite <-E. apply list_elem_of_fmap. eauto.
  - intros y Hy. apply not_elem_of_union. split; [|apply Hseen; by right].
    rewrite elem_of_singleton. intros E. apply Hx. rewrite <-E. apply list_elem_of_fmap. eauto.
  - intros _ db ->. unfold db1. simpl. unfold set_db_jobs; simpl. f_equal.
    rewrite <-map_fmap_compose. apply map_fmap_ext. intros i y Hy. simpl. unfold on_ids, at_id.
    destruct (decide (job_ID y = job_ID x)) as [E|E].
    + rewrite (stable_id _ (stable_cancelled_at now)), E.
      rewrite bool_decide_eq_false_2 by done. by rewrite bool_decide_eq_true_2 by left.
    + destruct (decide (job_ID y ∈ job_ID <$> post)) as [Hi|Hi].
      * by rewrite !bool_decide_eq_true_2 by (try right; done).
      * rewrite !bool_decide_eq_false_2; [done| |done]. by apply not_elem_of_cons.
Qed.

(** The fuel is enough: the walk sees each row at most once. *)
Lemma cancel_walk_fuel fuel k seen next t :
  size (dom byID ∖ seen) < fuel →
  cancel_walk (fuel + k) now byID seen next t = cancel_walk fuel now byID seen next t.
Proof.
  revert seen next t; induction fuel as [|fuel IH]; intros seen next t Hs; [lia|]. simpl.
  destruct next as [id|]; [|done]. destruct (decide (id ∈ seen)) as [|Hid]; [done|].
  destruct (byID !! id) as [x|] eqn:Ex; [|done]. unfold mbind, M_bind.
  destruct (when _ _ t) as [[e|[]] t1]; [done|]. apply IH.
  assert (size (dom byID ∖ ({[id]} ∪ seen)) < size (dom byID ∖ seen)); [|lia].
  apply subset_size. apply elem_of_dom_2 in Ex. set_solver.
Qed.

End Walk.

#[export] Hint Resolve cancel_walk_behaved : behaved.

(** ** Snapshots

    [snap F G db]: with respect to [db0], jobs changed by [F], runs by [G], the
    other tables of the invariant not at all. *)
Section Snap.
Context (db0 : DB).

Definition snap (F : Job → Job) (G : Run → Run) (db : DB) : Prop :=
  db_jobs db = F <$> db_jobs db0 ∧ db_runs db = G <$> db_runs db0 ∧
  db_waves db = db_waves db0 ∧ db_nodes db = db_nodes db0 ∧ db_repos db = db_repos db0.

(** A run update that leaves alone what the invariant speaks of. *)
Definition benign (G : Run → Run) : Prop := ∀ r,
  run_ID (G r) = run_ID r ∧ run_WaveID (G r) = run_WaveID r ∧ run_RepoID (G r) = run_RepoID r ∧
  run_Attempt (G r) = run_Attempt r ∧ run_Status (G r) = run_Status r ∧
  run_FinishedAt (G r) = run_FinishedAt r ∧ run_Stats (G r) = run_Stats r.

Definition snapE (F : Job → Job) (db : DB) : Prop := ∃ G, benign G ∧ snap F G db.

Lemma snap_id : snap id id db0.
Proof. unfold snap. by rewrite !map_fmap_id. Qed.

Lemma snapE_id : snapE id db0.
Proof. exists id. split; [done|apply snap_id]. Qed.

Lemma snap_runs F G db (f : Run → Run) :
  snap F G db → snap F (λ r, f (G r)) (set_db_runs (f <$> db_runs db) db).
Proof.
  intros (Hj & Hr & Hw & Hn & Hre). unfold snap. simpl. rewrite Hr, <-map_fmap_compose. done.
Qed.

Lemma snap_jobs F G db f :
  snap F G db → snap (λ j, f (F j)) G (set_db_jobs (f <$> db_jobs db) db).
Proof.
  intros (Hj & Hr & Hw & Hn & Hre). unfold snap. simpl. rewrite Hj, <-map_fmap_compose. done.
Qed.

End Snap.

Section Steps.
Context `{Collation} `{GoFmt}.
Context (env : Env) (db0 : DB) (Hwf : wf db0).

Lemma logged_triple {A} (m : M A) (P Q : DB → Prop) E :
  triple true env P m (λ _, Q) (λ _ _, False) → triple true env P (logged m) (λ _, Q) E.
Proof using Type.
  intros Hm. unfold logged. eapply triple_bind; [apply triple_attempt, Hm|].
  intros [e|a]; apply triple_ret; [intros db []|auto].
Qed.

Lemma snap_run_keyed F db G : (∀ r, run_ID (G r) = run_ID r) → snap db0 F G db → run_keyed (db_runs db).
Proof using Hwf.
  intros HG (_ & Hr & _) i r. rewrite Hr, lookup_fmap, fmap_Some. intros (x & Hx & ->).
  rewrite HG. by eapply wf_run_key.
Qed.

Lemma record_error_triple F runID msg :
  triple true env (snapE db0 F) (record_error runID msg) (λ _, snapE db0 F) (λ _ _, False).
Proof using Hwf.
  unfold record_error. destruct msg as [e|]; [|by apply triple_ret].
  apply logged_triple, triple_exec; [|done]. intros db (G & HG & Hs).
  exists (λ r, if bool_decide (run_ID (G r) = runID) then set_run_LastError (Some e) (G r) else G r).
  split.
  - intros r. destruct (HG r) as (? & ? & ? & ? & ? & ? & ?). case_bool_decide; done.
  - rewrite alter_run by (eapply snap_run_keyed; [apply HG|exact Hs]).
    by apply (snap_runs db0 F G db (λ r, if bool_decide (run_ID r = runID) then set_run_LastError (Some e) r else r)).
Qed.

Lemma snapE_keyed F db : stable F → snapE db0 F db → keyed (db_jobs db).
Proof using Hwf. intros HF (G & _ & -> & _). apply keyed_fmap; [done|apply Hwf]. Qed.

End Steps.

Lemma head_elem {A} (l : list A) x : head l = Some x → x ∈ l.
Proof. destruct l; [done|]. intros [= ->]. left. Qed.

(** ** The completion of one running job *)

Section Completing.
Context `{Collation} `{GoFmt}.
Context (env : Env) (db0 : DB) (Hwf : wf db0).
Context (input : completionInput) (job : Job) (run : Run) (pre post : list Job).
Context (Hjob : db_jobs db0 !! job_ID job = Some job).
Context (Hrun : db_runs db0 !! job_RunID job = Some run).
Context (Hc : chain_of (db_jobs db0) (job_RunID job) (job_Attempt job) (pre ++ job :: post)).

Notation rid := (job_RunID job).
Notation att := (job_Attempt job).
Notation c := (pre ++ job :: post).
Notation sha := (effective_sha input job).

Definition done_row (m : option json) : Job → Job :=
  complete_row (ci_Status input) (ci_ExitCode input) sha (env_now env) m.

(** After the completion statement: the row itself, and its successor's input. *)
Definition after_stmt (m : option json) (x : Job) : Job :=
  if decide (job_ID x = job_ID job) then done_row m x
  else if bool_decide (job_NextID job = Some (job_ID x))
  then feed_row (job_RepoShaOut (done_row m job)) x else x.

Lemma stable_after_stmt m : stable (after_stmt m).
Proof using Type.
  unfold after_stmt. destruct (stable_feed (job_RepoShaOut (done_row m job))).
  split; intros x; destruct (decide _); try done; by case_bool_decide.
Qed.

Lemma next_of_job : job_NextID job = job_ID <$> head post.
Proof using Hc.
  rewrite (ch_linked _ _ _ _ Hc (length pre) job) by (by apply list_lookup_middle).
  rewrite lookup_app_r by lia. replace (S (length pre) - length pre) with 1 by lia. by destruct post.
Qed.

Lemma post_ids x : x ∈ post → job_ID x ≠ job_ID job.
Proof using Hc.
  intros Hx E. pose proof (ch_nodup _ _ _ _ Hc) as Hn. rewrite fmap_app in Hn. simpl in Hn.
  apply NoDup_app in Hn as (_ & _ & Hn). apply NoDup_cons in Hn as [Hn _]. apply Hn.
  rewrite <-E. apply list_elem_of_fmap. eauto.
Qed.

Lemma pre_ids x : x ∈ pre → job_ID x ≠ job_ID job ∧ job_ID x ∉ job_ID <$> post.
Proof using Hc.
  intros Hx. pose proof (ch_nodup _ _ _ _ Hc) as Hn. rewrite fmap_app in Hn. simpl in Hn.
  apply NoDup_app in Hn as (_ & Hd & _).
  assert (Hin : job_ID x ∈ job_ID <$> pre) by (apply list_elem_of_fmap; eauto).
  apply Hd in Hin. by apply not_elem_of_cons in Hin.
Qed.

Lemma complete_stmt_triple m :
  triple true env (snapE db0 id)
    (stmt (complete_stmt (job_ID job) (ci_Status input) (ci_ExitCode input) sha m))
    (λ _ db, (0 ≤ job_DurationMs (done_row m job))%Z ∧ snapE db0 (after_stmt m) db) (λ _ _, False).
Proof using Hwf Hjob Hc.
  apply triple_stmt; [|done]. intros db [] db' (G & HG & Hs). unfold complete_stmt.
  destruct Hs as (Hj & Hr & Hw & Hn & Hre). rewrite map_fmap_id in Hj. rewrite Hj, Hjob.
  change (complete_row _ _ _ _ _ job) with (done_row m job).
  destruct (decide (job_DurationMs (done_row m job) < 0)%Z) as [|Hdur]; [done|].
  intros [= <-]. split; [lia|]. exists G. split; [done|]. unfold snap. simpl. split_and!; [|done..].
  pose proof (wf_keyed _ Hwf) as Hk.
  apply map_eq. intros i. rewrite lookup_fmap. unfold after_stmt.
  destruct (job_NextID job) as [n|] eqn:En.
  - assert (Hni : n ≠ job_ID job).
    { rewrite next_of_job in En. apply fmap_Some in En as (y & Hy & ->).
      by apply post_ids, head_elem. }
    rewrite decide_False by done. destruct (decide (i = n)) as [->|Hin].
    + rewrite lookup_alter_eq, lookup_insert_ne by done.
      destruct (db_jobs db0 !! n) as [x|] eqn:Ex; simpl; [|done].
      destruct (Hk _ _ Ex) as [Hxn _].
      destruct (decide (job_ID x = job_ID job)); [congruence|].
      by rewrite bool_decide_eq_true_2 by congruence.
    + rewrite lookup_alter_ne by done. destruct (decide (i = job_ID job)) as [->|Hij].
      * rewrite lookup_insert_eq, Hjob. simpl.
        by destruct (decide (job_ID job = job_ID job)).
      * rewrite lookup_insert_ne by done. destruct (db_jobs db0 !! i) as [x|] eqn:Ex; simpl; [|done].
        destruct (Hk _ _ Ex) as [Hxi _]. destruct (decide (job_ID x = job_ID job)); [congruence|].
        by rewrite bool_decide_eq_false_2 by congruence.
  - destruct (decide (i = job_ID job)) as [->|Hij].
    + rewrite lookup_insert_eq, Hjob. simpl.
        by destruct (decide (job_ID job = job_ID job)).
    + rewrite lookup_insert_ne by done. destruct (db_jobs db0 !! i) as [x|] eqn:Ex; simpl; [|done].
      destruct (Hk _ _ Ex) as [Hxi _]. destruct (decide (job_ID x = job_ID job)); [congruence|done].
Qed.

(** The rows [ListJobsByRunAttempt] returns at a snapshot. *)
Lemma snap_chain F G db : stable F → snap db0 F G db → chain_of (db_jobs db) rid att (F <$> c).
Proof using Hwf Hc. intros HF (-> & _). apply chain_of_fmap; [done|apply Hwf|done]. Qed.

Lemma byID_lookup F G db x :
  stable F → snap db0 F G db → x ∈ F <$> c →
  itemByID job_ID (attempt_jobs db rid att) !! job_ID x = Some x.
Proof using Hwf Hc.
  intros HF Hs Hx. pose proof (snap_chain _ _ _ HF Hs) as Hch.
  assert (Hk : keyed (db_jobs db)) by (destruct Hs as (-> & _); apply keyed_fmap; [done|apply Hwf]).
  pose proof (attempt_jobs_perm _ _ _ _ Hk Hch db eq_refl) as Hp.
  apply (itemByID_spec _ job_NextID); [rewrite Hp; apply Hch|]. by rewrite Hp.
Qed.

Definition after_give_up (m : option json) (x : Job) : Job :=
  on_ids (job_ID <$> post) (cancelled_at (env_clock env)) (after_stmt m x).

Lemma cancel_remaining_triple m :
  triple true env (snapE db0 (after_stmt m)) (cancelRemainingJobsAfterFailure job)
    (λ _, snapE db0 (after_give_up m)) (λ _ _, False).
Proof using Type*.
  unfold cancelRemainingJobsAfterFailure.
  eapply triple_bind with (Q := λ now db, now = env_clock env ∧ snapE db0 (after_stmt m) db).
  { by apply triple_ask. }
  intros now. apply triple_pure; [behave|]. intros ->.
  eapply triple_bind with (Q := λ jobs db, jobs = attempt_jobs db rid att ∧ snapE db0 (after_stmt m) db).
  { apply triple_wrap, triple_query; [|done]. by intros db Hs. }
  intros jobs. apply triple_pre; [behave|]. intros db (-> & G & HG & Hs).
  pose proof (stable_after_stmt m) as HF. set (F := after_stmt m) in *.
  pose proof (snap_chain _ _ _ HF Hs) as Hch.
  assert (Hk : keyed (db_jobs db)) by (destruct Hs as (-> & _); apply keyed_fmap; [done|apply Hwf]).
  set (byID := itemByID job_ID (attempt_jobs db rid att)).
  assert (Hby : ∀ x, x ∈ F <$> c → byID !! job_ID x = Some x) by (intros x; by eapply byID_lookup).
  assert (Hsub : ∀ x, x ∈ F <$> post → x ∈ F <$> c).
  { intros x. rewrite fmap_app. simpl. set_solver. }
  assert (Hids : job_ID <$> (F <$> post) = job_ID <$> post).
  { rewrite <-list_fmap_compose. apply list_fmap_ext. intros k x _. apply (stable_id _ HF). }
  assert (Hnd : NoDup (job_ID <$> post)).
  { pose proof (ch_nodup _ _ _ _ Hc) as Hn. rewrite fmap_app in Hn. simpl in Hn.
    apply NoDup_app in Hn as (_ & _ & Hn). by apply NoDup_cons in Hn as [_ Hn]. }
  assert (Hnext : match byID !! job_ID job with Some x => job_NextID x | None => job_NextID job end
    = job_ID <$> head (F <$> post)).
  { assert (Hj : byID !! job_ID job = Some (F job)).
    { rewrite <-(stable_id _ HF job). apply Hby. rewrite fmap_app. simpl. set_solver. }
    rewrite Hj, (stable_next _ HF), next_of_job. destruct post; simpl; [done|]. by rewrite (stable_id _ HF). }
  rewrite Hnext.
  eapply triple_conseq; [apply (cancel_walk_triple env (env_clock env) byID _ ∅ (F <$> post) db)|done| |done].
  - done.
  - intros k x Hx. pose proof (ch_linked _ _ _ _ Hch (S (length pre) + k) x) as Hl.
    assert (Hlk : ∀ k, (F <$> c) !! (S (length pre) + k) = (F <$> post) !! k).
    { intros k'. rewrite fmap_app, lookup_app_r by (rewrite length_fmap; lia).
      rewrite length_fmap.
      replace (S (length pre) + k' - length pre) with (S k') by lia. done. }
    rewrite Hlk in Hl. rewrite (Hl Hx).
    replace (S (S (length pre) + k)) with (S (length pre) + S k) by lia. by rewrite Hlk.
  - by rewrite Hids.
  - assert (length (F <$> post) ≤ size byID); [|lia].
    rewrite length_fmap, <-(length_fmap job_ID post), <-(size_list_to_set (C := gset string) _ Hnd), <-size_dom.
    apply subseteq_size. intros i Hi. apply elem_of_list_to_set in Hi. rewrite <-Hids in Hi.
    apply list_elem_of_fmap in Hi as (x & -> & Hx). apply elem_of_dom. exists x. auto.
  - auto.
  - intros x Hx. apply (ch_elem _ _ _ _ Hch). auto.
  - intros x Hx. set_solver.
  - intros _ db' ->. exists G. split; [done|]. rewrite Hids.
    by apply (snap_jobs db0 F G db (on_ids (job_ID <$> post) (cancelled_at (env_clock env)))).
Qed.

Definition after_promote (m : option json) (y : string) (x : Job) : Job :=
  at_id y (set_job_Status JobStatusQueued) (after_stmt m x).

(** The only row that points to a job is its predecessor in the chain. *)
Lemma unique_predecessor y post' p i :
  post = y :: post' → db_jobs db0 !! i = Some p → job_NextID p = Some (job_ID y) → p = job.
Proof using Type*.
  intros Hp Hpi Hnx. destruct (wf_job_chain _ Hwf _ _ Hpi) as (r' & d & k & _ & Hd & _ & Hk).
  pose proof (ch_linked _ _ _ _ Hd _ _ Hk) as Hl. rewrite Hnx in Hl.
  destruct (d !! S k) as [z|] eqn:Ez; [|done]. injection Hl as Hz.
  assert (Hy : c !! S (length pre) = Some y).
  { rewrite Hp, lookup_app_r by lia. by replace (S (length pre) - length pre) with 1 by lia. }
  destruct (chain_at _ _ _ _ Hc _ _ Hy) as (Hyy & Hyr & Hya).
  destruct (chain_at _ _ _ _ Hd _ _ Ez) as (Hzz & Hzr & Hza).
  assert (z = y) as -> by congruence. rewrite Hyr in Hzr. rewrite Hya in Hza.
  rewrite <-Hzr, <-Hza in Hd. assert (d = c) as -> by (eapply chain_unique; [apply Hwf|done|done]).
  assert (S k = S (length pre)) as [= ->] by (by eapply chain_id_inj).
  rewrite list_lookup_middle in Hk by done. congruence.
Qed.

Lemma promote_triple m y post' :
  post = y :: post' → ci_Status input = JobStatusSuccess → job_Status y = JobStatusCreated →
  job_ID y ∉ env_locked env →
  triple true env (snapE db0 (after_stmt m)) (PromoteJobByIDIfUnblocked (job_ID y))
    (λ _, snapE db0 (after_promote m (job_ID y))) (λ _ _, False).
Proof using Type*.
  intros Hp Hs Hy Hlock. pose proof (stable_after_stmt m) as HF.
  assert (Hyc : db_jobs db0 !! job_ID y = Some y).
  { apply (ch_elem _ _ _ _ Hc). rewrite Hp. set_solver. }
  assert (Hyd : job_Status (after_stmt m y) = JobStatusCreated).
  { unfold after_stmt. rewrite decide_False by (apply post_ids; rewrite Hp; left).
    case_bool_decide; [|done]. unfold feed_row. by destruct (decide _). }
  assert (Hfind : ∀ db, snapE db0 (after_stmt m) db →
    db_jobs db !! job_ID y = Some (after_stmt m y) ∧ blocked db (job_ID y) = false).
  { intros db (G & HG & Hj & _). rewrite Hj, lookup_fmap, Hyc. split; [done|].
    unfold blocked. rewrite <-not_true_iff_false, existsb_rows. intros (i & p & Hpi & Hb).
    rewrite andb_true_iff, negb_true_iff, bool_decide_eq_true, bool_decide_eq_false in Hb.
    destruct Hb as [Hn Hns]. rewrite Hj, lookup_fmap, fmap_Some in Hpi. destruct Hpi as (p0 & Hp0 & ->).
    rewrite (stable_next _ HF) in Hn. apply Hns.
    rewrite (unique_predecessor _ _ _ _ Hp Hp0 Hn). unfold after_stmt. by rewrite decide_True. }
  apply triple_query_one; [| |done].
  - intros db j' db' Hsn. destruct (Hfind db Hsn) as [-> Hb].
    rewrite decide_True by done. intros [= _ <-]. destruct Hsn as (G & HG & Hsn).
    exists G. split; [done|]. 
    assert (Hk : keyed (db_jobs db)) by (destruct Hsn as (-> & _); apply keyed_fmap; [done|apply Hwf]).
    assert (Hyy : db_jobs db !! job_ID y = Some (after_stmt m y)).
    { destruct Hsn as (-> & _). by rewrite lookup_fmap, Hyc. }
    rewrite (insert_at_id (set_job_Status JobStatusQueued) _ _ _ Hk Hyy).
    by apply (snap_jobs db0 (after_stmt m) G db (at_id (job_ID y) (set_job_Status JobStatusQueued))).
  - intros db db' Hsn. destruct (Hfind db Hsn) as [-> Hb]. by rewrite decide_True.
Qed.


(** *** The run's status *)

(** The status [MaybeUpdateRunStatus] gives, if it gives one. *)
Definition final_status (jobs : list Job) : option RunStatus :=
  match EvaluateRunAttemptTerminalStatus jobs with
  | inr ev => if rare_ShouldUpdate ev then rare_Status ev else None
  | inl _ => None
  end.

Definition settle (rs : option RunStatus) (r : Run) : Run :=
  match rs with
  | Some s => if bool_decide (run_ID r = rid) then run_status_row s (env_now env) r else r
  | None => r
  end.

Lemma MaybeUpdateRunStatus_triple F :
  triple true env (snapE db0 F) (MaybeUpdateRunStatus rid att)
    (λ b db, ∃ G, benign G ∧ b = bool_decide (is_Some (final_status (attempt_jobs db rid att))) ∧
       snap db0 F (λ r, settle (final_status (attempt_jobs db rid att)) (G r)) db)
    (λ _ _, False).
Proof using Hwf.
  unfold MaybeUpdateRunStatus.
  eapply triple_bind with (Q := λ jobs db, jobs = attempt_jobs db rid att ∧ snapE db0 F db).
  { apply triple_wrap, triple_query; [|done]. auto. }
  intros jobs. destruct (evaluate_attempt_spec jobs) as (ev & Hev & Hiff & Hst). rewrite Hev.
  assert (Hfs : final_status jobs = if rare_ShouldUpdate ev then rare_Status ev else None)
    by (unfold final_status; by rewrite Hev).
  destruct (rare_ShouldUpdate ev) eqn:Es.
  - destruct (Hst eq_refl) as (j & rs & _ & _ & Hrs & _). rewrite Hrs in *.
    eapply triple_bind with (Q := λ _ db, ∃ G, benign G ∧ final_status (attempt_jobs db rid att) = Some rs ∧
      snap db0 F (λ r, settle (Some rs) (G r)) db).
    + apply triple_wrap, triple_exec; [|done]. intros db (-> & G & HG & Hs). exists G.
      split; [done|]. split; [done|].
      rewrite alter_run by (eapply (snap_run_keyed db0 Hwf); [apply HG|exact Hs]).
      by apply (snap_runs db0 F G db (λ r, if bool_decide (run_ID r = rid)
        then run_status_row rs (env_now env) r else r)).
    + intros ?. apply triple_ret. intros db (G & HG & Hf & Hs). exists G. split; [done|].
      rewrite Hf. split; [|done]. symmetry. apply bool_decide_eq_true. eauto.
  - apply triple_ret. intros db (-> & G & HG & Hs). exists G. rewrite Hfs. split; [done|].
    split; [|done]. symmetry. apply bool_decide_eq_false. by intros [? ?].
Qed.

Lemma reconcile_triple F :
  triple true env (snapE db0 F) (reconcileRepoRun job)
    (λ ro db, ∃ G, benign G ∧
       snap db0 F (λ r, settle (final_status (attempt_jobs db rid att)) (G r)) db ∧
       match ro with
       | Some r' => db_runs db !! rid = Some r' ∧ is_Some (final_status (attempt_jobs db rid att))
       | None => final_status (attempt_jobs db rid att) = None
       end) any_error.
Proof using Hwf Hrun.
  unfold reconcileRepoRun.
  eapply triple_bind; [apply triple_attempt, MaybeUpdateRunStatus_triple|].
  intros [e|b]; [apply triple_ret; by intros db|]. destruct b.
  - unfold loadRunForPostCompletion.
    set (P := λ db, ∃ G, benign G ∧ true = bool_decide (is_Some (final_status (attempt_jobs db rid att))) ∧
       snap db0 F (λ r, settle (final_status (attempt_jobs db rid att)) (G r)) db).
    eapply triple_bind with (Q := λ r db, match r with
      | inr r' => db_runs db !! rid = Some r' ∧ P db | inl e => False end).
    { eapply triple_conseq; [apply (triple_attempt true env (GetRun rid) P (λ r' db, db_runs db !! rid = Some r' ∧ P db)
        (λ _ _, False) any_error)|done|by intros [e|a] db|done].
      apply triple_query_one; [| |done].
      - intros db r' db' HP [= E <-]. done.
      - intros db db' (G & HG & _ & (_ & Hr & _)) [= E <-]. rewrite Hr, lookup_fmap, Hrun in E. done. }
    intros [e|r']; [apply triple_absurd; behave|].
    apply triple_ret. intros db (Hr' & G & HG & Hb & Hs). exists G. split_and!; try done.
    by symmetry in Hb; apply bool_decide_eq_true in Hb.
  - apply triple_ret. intros db (G & HG & Hb & Hs). exists G. split_and!; try done.
    symmetry in Hb. apply bool_decide_eq_false in Hb. by apply eq_None_not_Some.
Qed.

(** *** The whole transaction body *)

Definition final_jobs (m : option json) : Job → Job :=
  match ci_Status input with
  | JobStatusSuccess => match post with [] => after_stmt m | y :: _ => after_promote m (job_ID y) end
  | _ => after_give_up m
  end.

Record completion_allowed : Prop := {
  ca_node : job_NodeID job = Some (ci_NodeID input);
  ca_running : job_Status job = JobStatusRunning;
  ca_sha : ci_Status input = JobStatusSuccess → post ≠ [] →
           IsCanonicalFullCommitSHA (job_RepoShaIn job) = true ∧ sha ≠ ""
}.

Definition completed (ro : option Run) (db : DB) : Prop :=
  completion_allowed ∧ ∃ m G, (0 ≤ job_DurationMs (done_row m job))%Z ∧ benign G ∧
    snap db0 (final_jobs m) (λ r, settle (final_status (attempt_jobs db rid att)) (G r)) db ∧
    match ro with
    | Some r' => db_runs db !! rid = Some r' ∧ is_Some (final_status (attempt_jobs db rid att))
    | None => final_status (attempt_jobs db rid att) = None
    end.

Context (Hterm : terminal_request_status (ci_Status input) = true).
Context (Hcreated : Forall (λ x, job_Status x = JobStatusCreated) post).
Context (Hlock : ∀ y, head post = Some y → job_ID y ∉ env_locked env).

Lemma has_next_post : has_next job = negb (bool_decide (post = [])).
Proof using Hc. clear Hcreated Hlock. unfold has_next. rewrite next_of_job. by destruct post. Qed.

Lemma post_steps_triple m pm :
  triple true env (snapE db0 (after_stmt m))
    (onFail input job pm ;; onCancelled input job ;; onSuccess input job ;; reconcileRepoRun job)
    (λ ro db, ∃ G, benign G ∧
       snap db0 (final_jobs m) (λ r, settle (final_status (attempt_jobs db rid att)) (G r)) db ∧
       match ro with
       | Some r' => db_runs db !! rid = Some r' ∧ is_Some (final_status (attempt_jobs db rid att))
       | None => final_status (attempt_jobs db rid att) = None
       end) any_error.
Proof using Type*.
  set (E := snapE db0 (after_stmt m)). set (R := snapE db0 (final_jobs m)).
  assert (Hgive : ci_Status input ≠ JobStatusSuccess → final_jobs m = after_give_up m).
  { unfold final_jobs. by destruct (ci_Status input). }
  eapply triple_bind with (Q := λ _, if bool_decide (ci_Status input = JobStatusFail ∨ ci_Status input = JobStatusError) then R else E).
  { unfold onFail. destruct (bool_decide (ci_Status input = JobStatusFail) || bool_decide (ci_Status input = JobStatusError)) eqn:Ef; simpl.
    - rewrite orb_true_iff, !bool_decide_eq_true in Ef. rewrite (bool_decide_eq_true_2 (_ ∨ _)) by done.
      eapply triple_bind with (Q := λ _, E).
      { eapply triple_conseq; [apply (record_error_triple env db0 Hwf (after_stmt m))|done|done|done]. }
      intros ?. eapply triple_bind with (Q := λ _, E).
      { apply triple_when; [|done]. intros _.
        eapply triple_conseq; [apply (record_error_triple env db0 Hwf (after_stmt m))|done|done|done]. }
      intros ?. assert (Hd : EvaluateCompletionDecision (ci_Status input) (has_next job) = CompletionChainCancelRemainder)
        by (by destruct Ef as [-> | ->]).
      rewrite Hd. unfold R. rewrite Hgive by (destruct Ef; congruence).
      apply logged_triple, cancel_remaining_triple.
    - rewrite orb_false_iff, !bool_decide_eq_false in Ef. rewrite (bool_decide_eq_false_2 (_ ∨ _)) by tauto.
      by apply triple_ret. }
  intros ?. eapply triple_bind with (Q := λ _, if bool_decide (ci_Status input = JobStatusSuccess) then E else R).
  { unfold onCancelled. destruct (ci_Status input) eqn:Es; try done; simpl; try (by apply triple_ret).
    unfold R. rewrite Hgive by done. apply logged_triple, cancel_remaining_triple. }
  intros ?. eapply triple_bind with (Q := λ _, R).
  { unfold onSuccess. destruct (bool_decide (ci_Status input = JobStatusSuccess)) eqn:Es; simpl;
      [|by apply triple_ret].
    apply bool_decide_eq_true in Es. rewrite Es. simpl. rewrite has_next_post, next_of_job.
    unfold R, final_jobs. rewrite Es.
    assert (Hp : post = [] ∨ ∃ y post', post = y :: post') by (destruct post; eauto).
    destruct Hp as [Hp|(y & post' & Hp)].
    - rewrite (bool_decide_eq_true_2 (post = [])) by done. simpl. rewrite Hp. by apply triple_ret.
    - rewrite (bool_decide_eq_false_2 (post = [])) by (by rewrite Hp). simpl.
      assert (Hh : head post = Some y) by (by rewrite Hp). rewrite Hh. simpl.
      assert (Hf : match post with [] => after_stmt m | y :: _ => after_promote m (job_ID y) end
        = after_promote m (job_ID y)) by (by rewrite Hp).
      rewrite Hf. apply logged_triple. eapply (promote_triple m y post'); auto.
      eapply Forall_forall in Hcreated; [exact Hcreated|]. rewrite Hp. left. }
  intros ?. apply reconcile_triple.
Qed.


Lemma or_internal_triple {A} msg (m : M A) (P : DB → Prop) (Q : A → DB → Prop) :
  triple true env P m Q any_error → triple true env P (or_internal msg m) Q any_error.
Proof using Type.
  intros Hm. unfold or_internal. eapply triple_bind; [apply triple_attempt, Hm|].
  intros [e|a]; [by apply triple_throw|by apply triple_ret].
Qed.

Lemma metrics_triple res :
  triple true env (λ db, db = db0)
    (match res with
     | None => mret tt
     | Some r => or_internal "failed to persist job metrics"
         (UpsertJobMetric (mkJobMetric (ci_NodeID input) (job_ID job) (res_CPUConsumedNs r)
            (res_DiskConsumedBytes r) (res_MemConsumedBytes r)))
     end) (λ _, snapE db0 id) any_error.
Proof using Type.
  destruct res as [r|]; [|apply triple_ret; intros db ->; apply snapE_id].
  apply or_internal_triple, triple_stmt; [|done]. intros db [] db' ->.
  repeat (case_decide; [done|]). intros [= <-]. exists id. split; [done|].
  destruct (snap_id db0) as (? & ? & ? & ? & ?). done.
Qed.

Lemma persist_triple pl :
  triple true env (snapE db0 id)
    (match HasJobMeta pl, jsp_JobMeta pl with
     | true, Some meta =>
         if negb (ValidateJobMeta pl)
         then throw (completeInternal "invalid job metadata" (ErrMsg "invalid job_meta"))
         else or_internal "failed to complete job"
                (UpdateJobCompletionWithMeta (job_ID job) (ci_Status input) (ci_ExitCode input)
                   sha (RawJson meta)) ;;
              mret meta
     | _, _ =>
         or_internal "failed to complete job"
           (UpdateJobCompletion (job_ID job) (ci_Status input) (ci_ExitCode input) sha) ;;
         mret (job_Meta job)
     end)
    (λ _ db, ∃ m, (0 ≤ job_DurationMs (done_row m job))%Z ∧ snapE db0 (after_stmt m) db) any_error.
Proof using Type*.
  assert (Hnone : triple true env (snapE db0 id)
    (or_internal "failed to complete job"
       (UpdateJobCompletion (job_ID job) (ci_Status input) (ci_ExitCode input) sha) ;;
     mret (job_Meta job))
    (λ _ db, ∃ m, (0 ≤ job_DurationMs (done_row m job))%Z ∧ snapE db0 (after_stmt m) db) any_error).
  { eapply triple_bind; [apply or_internal_triple; eapply triple_conseq;
      [apply (complete_stmt_triple None)|done|intros a db Hs; exact Hs|done]|].
    intros ?. apply triple_ret. eauto. }
  destruct (HasJobMeta pl), (jsp_JobMeta pl) as [meta|]; try done.
  destruct (negb (ValidateJobMeta pl)); [by apply triple_throw|].
  eapply triple_bind; [apply or_internal_triple; eapply triple_conseq;
    [apply (complete_stmt_triple (Some meta))|done|intros a db Hs; exact Hs|done]|].
  intros ?. apply triple_ret. eauto.
Qed.

Lemma publish_job_end_triple events (P : DB → Prop) :
  triple true env P (publish_job_end events input) (λ _, P) any_error.
Proof using Type.
  apply triple_when; [|done]. intros _.
  repeat (eapply triple_bind; [apply triple_emit|intros ?]). apply triple_emit.
Qed.

Lemma complete_triple events :
  triple true env (λ db, db = db0) (complete events input job) completed any_error.
Proof using Type*.
  unfold complete.
  destruct (negb (bool_decide (job_NodeID job = _))) eqn:Eg1; [by apply triple_throw|].
  destruct (negb (bool_decide (job_Status job = _))) eqn:Eg2; [by apply triple_throw|].
  destruct (_ && negb (IsCanonicalFullCommitSHA _)) eqn:Eg3; [by apply triple_throw|].
  destruct (_ && bool_decide (sha = "")) eqn:Eg4; [by apply triple_throw|].
  apply negb_false_iff, bool_decide_eq_true in Eg1, Eg2.
  assert (Hallow : completion_allowed).
  { split; [done|done|]. intros Hs Hne.
    rewrite (bool_decide_eq_true_2 (ci_Status input = _)), has_next_post in Eg3, Eg4 by done.
    rewrite (bool_decide_eq_false_2 (post = [])) in Eg3, Eg4 by done. simpl in Eg3, Eg4.
    apply negb_false_iff in Eg3. by apply bool_decide_eq_false in Eg4. }
  eapply triple_bind; [apply metrics_triple|]. intros ?.
  eapply triple_bind; [apply persist_triple|]. intros pm.
  eapply triple_bind; [apply publish_job_end_triple|]. intros ?.
  apply triple_pre.
  { unfold onFail, onCancelled, onSuccess, reconcileRepoRun, record_error, logged,
      cancelRemainingJobsAfterFailure, MaybeUpdateRunStatus, loadRunForPostCompletion. behave. }
  intros db (m & Hdur & Hs).
  eapply triple_conseq; [apply (post_steps_triple m pm)|by intros ? ->| |done].
  intros ro db' (G & HG & Hsn & Hro). split; [done|]. exists m, G. done.
Qed.

End Completing.
