(* ===== verification/CompletionOutcome.v ===== *)
(** * Completion: the database after a completion

    A committed completion leaves the database well formed, and its effect on the
    chain can be read off: the completed row, its successor queued on success, the
    rest cancelled otherwise, and the run's status once nothing is left to do. *)

From S2P Require Import Prelude GoStrings Types Json JobMeta Db Tx Queries JobChain Lifecycle.
From S2P Require Import Tokens Store Recovery Completion Chains Invariant CancelSafety.
From S2P Require Import LaunchSafety RestartSafety CompletionSafety.
From stdpp Require Import base gmap sets list sorting strings.
From Stdlib Require Import ZArith Lia.

(** ** Rows *)

Lemma feed_job_ok nodes s j : job_ok nodes j → job_ok nodes (feed_row s j).
Proof.
  intros [H1 H2 H3 H4 H5 H6 H7]. unfold feed_row. destruct (decide (s = "")) as [|Hs]; [done|].
  split; simpl; try done. unfold sha8. by rewrite decide_False.
Qed.

Lemma give_up_job_ok nodes now j : job_ok nodes j → job_ok nodes (cancelled_at now j).
Proof.
  intros Hj. unfold cancelled_at. destruct (terminal_job _) eqn:E; [done|].
  destruct Hj as [H1 H2 H3 H4 H5 H6 H7]. split; simpl; try done.
  - intros [|]; done.
  - destruct (job_StartedAt j); lia.
Qed.

Lemma queue_job_ok nodes j :
  job_Status j = JobStatusCreated → job_ok nodes j → job_ok nodes (set_job_Status JobStatusQueued j).
Proof.
  intros Hs [H1 H2 H3 H4 H5 H6 H7]. rewrite Hs in *. split; simpl; try done. auto.
Qed.

Lemma feed_status s j : job_Status (feed_row s j) = job_Status j.
Proof. unfold feed_row. by destruct (decide _). Qed.

Lemma feed_node s j : job_NodeID (feed_row s j) = job_NodeID j.
Proof. unfold feed_row. by destruct (decide _). Qed.

Lemma give_up_terminal now j : terminal_job (job_Status (cancelled_at now j)) = true.
Proof. unfold cancelled_at. by destruct (terminal_job (job_Status j)) eqn:E. Qed.

Lemma give_up_node now j : job_NodeID (cancelled_at now j) = job_NodeID j.
Proof. unfold cancelled_at. by destruct (terminal_job _). Qed.

Lemma terminal_request s :
  terminal_request_status s = true → terminal_job s = true ∧ s ≠ JobStatusRunning.
Proof. by destruct s. Qed.

(** Replacing the end of a chain by rows none of which has succeeded. *)
Lemma sha_chain_replace pre x x' t t' :
  sha_chain (pre ++ x :: t) → job_RepoShaIn x' = job_RepoShaIn x →
  (∀ y, head t' = Some y → job_Status x' = JobStatusSuccess →
     job_RepoShaIn y = job_RepoShaOut x' ∧ IsCanonicalFullCommitSHA (job_RepoShaOut x') = true) →
  Forall (λ y, job_Status y ≠ JobStatusSuccess) t' →
  sha_chain (pre ++ x' :: t').
Proof.
  intros Hs Hin Hhd Ht k a b Ha Hb Hsa.
  destruct (decide (k < length pre)) as [Hk|Hk].
  - rewrite lookup_app_l in Ha by done.
    assert (Ha' : (pre ++ x :: t) !! k = Some a) by (by rewrite lookup_app_l).
    destruct (decide (S k < length pre)) as [Hk'|Hk'].
    + rewrite lookup_app_l in Hb by done. eapply Hs; [exact Ha'| |done]. by rewrite lookup_app_l.
    + assert (Hl : S k = length pre) by lia. rewrite Hl, list_lookup_middle in Hb by done.
      injection Hb as <-. rewrite Hin. eapply Hs; [exact Ha'| |done]. by rewrite Hl, list_lookup_middle.
  - destruct (decide (k = length pre)) as [->|Hk'].
    + rewrite list_lookup_middle in Ha by done. injection Ha as <-.
      rewrite lookup_app_r in Hb by lia. replace (S (length pre) - length pre) with 1 in Hb by lia.
      apply Hhd; [|done]. by destruct t'.
    + rewrite lookup_app_r in Ha by lia. destruct (k - length pre) eqn:E; [lia|].
      eapply Forall_lookup in Ht; [|exact Ha]. done.
Qed.

Section Outcome.
Context `{Collation} `{GoFmt}.
Context (env : Env) (db0 : DB) (Hwf : wf db0).
Context (input : completionInput) (job : Job) (run : Run) (pre post : list Job).
Context (Hjob : db_jobs db0 !! job_ID job = Some job).
Context (Hrun : db_runs db0 !! job_RunID job = Some run).
Context (Hc : chain_of (db_jobs db0) (job_RunID job) (job_Attempt job) (pre ++ job :: post)).

Notation rid := (job_RunID job).
Notation att := (job_Attempt job).
Notation c := (pre ++ job :: post).
Notation sha := (effective_sha input job).
Notation done_row := (done_row env input job).
Notation final_jobs := (final_jobs env input job post).

(** The rows after the completed one. *)
Definition fed (m : option json) : list Job :=
  match post with
  | [] => []
  | y :: p => feed_row (job_RepoShaOut (done_row m job)) y :: p
  end.

Definition final_tail (m : option json) : list Job :=
  match ci_Status input, fed m with
  | JobStatusSuccess, y :: p => set_job_Status JobStatusQueued y :: p
  | JobStatusSuccess, [] => []
  | _, l => cancelled_at (env_clock env) <$> l
  end.

Lemma after_stmt_job m : after_stmt env input job m job = done_row m job.
Proof using Type. unfold after_stmt. by rewrite decide_True. Qed.

Lemma after_stmt_other m x :
  job_ID x ≠ job_ID job → job_ID x ∉ job_ID <$> post → after_stmt env input job m x = x.
Proof using Hc.
  intros H1 H2. unfold after_stmt. rewrite decide_False by done.
  rewrite (next_of_job db0 job pre post Hc). case_bool_decide as Hb; [|done].
  apply fmap_Some in Hb as (y & Hy & E). destruct H2. rewrite E. apply list_elem_of_fmap.
  exists y. split; [done|]. by apply head_elem.
Qed.

Lemma final_other m x :
  job_ID x ≠ job_ID job → job_ID x ∉ job_ID <$> post → final_jobs m x = x.
Proof using Hc.
  intros H1 H2. pose proof (after_stmt_other m x H1 H2) as Ha.
  unfold CompletionSafety.final_jobs, after_promote, after_give_up, on_ids, at_id.
  destruct (ci_Status input); try (rewrite Ha; by rewrite bool_decide_eq_false_2 by done).
  destruct post as [|y p]; [done|]. rewrite Ha, decide_False; [done|].
  intros E. apply H2. rewrite E. left.
Qed.

Lemma final_job m : final_jobs m job = done_row m job.
Proof using Hc.
  unfold CompletionSafety.final_jobs, after_promote, after_give_up, on_ids, at_id.
  pose proof (after_stmt_job m) as Ha.
  assert (Hn : job_ID (done_row m job) ∉ job_ID <$> post).
  { intros (x & E & Hx)%list_elem_of_fmap. by apply (post_ids db0 job pre post Hc x Hx). }
  destruct (ci_Status input); try (rewrite Ha; by rewrite bool_decide_eq_false_2 by done).
  destruct post as [|y p]; [done|]. rewrite Ha, decide_False; [done|]. intros E. apply Hn.
  rewrite E. left.
Qed.

Lemma after_stmt_post m : after_stmt env input job m <$> post = fed m.
Proof using Hc.
  pose proof (next_of_job db0 job pre post Hc) as Hn. unfold fed.
  pose proof (ch_nodup _ _ _ _ Hc) as Hnd. rewrite fmap_app in Hnd. simpl in Hnd.
  apply NoDup_app in Hnd as (_ & _ & Hnd). apply NoDup_cons in Hnd as [Hnj Hnd].
  destruct post as [|y p] eqn:Ep; [done|]. simpl in *. apply NoDup_cons in Hnd as [Hy Hnd].
  apply not_elem_of_cons in Hnj as [Hyj Hpj]. f_equal.
  - unfold after_stmt. rewrite decide_False by done. by rewrite bool_decide_eq_true_2.
  - rewrite <-(list_fmap_id p) at 2. apply list_fmap_ext. intros k x Hx. unfold after_stmt.
    assert (Hin : job_ID x ∈ job_ID <$> p)
      by (apply list_elem_of_fmap; exists x; split; [done|by eapply list_elem_of_lookup_2]).
    rewrite decide_False by (intros E; apply Hpj; by rewrite <-E).
    rewrite bool_decide_eq_false_2; [done|]. rewrite Hn. intros [= E]. apply Hy. by rewrite E.
Qed.

Lemma final_post m : final_jobs m <$> post = final_tail m.
Proof using Hc.
  unfold final_tail. rewrite <-after_stmt_post.
  assert (Hg : after_give_up env input job post m <$> post
    = cancelled_at (env_clock env) <$> (after_stmt env input job m <$> post)).
  { rewrite <-list_fmap_compose. apply list_fmap_ext. intros k x Hx. unfold after_give_up, on_ids.
    rewrite bool_decide_eq_true_2; [done|].
    rewrite (stable_id _ (stable_after_stmt env input job m)).
    apply list_elem_of_fmap. exists x. split; [done|]. by eapply list_elem_of_lookup_2. }
  unfold CompletionSafety.final_jobs. destruct (ci_Status input); try exact Hg.
  pose proof (ch_nodup _ _ _ _ Hc) as Hnd. rewrite fmap_app in Hnd. simpl in Hnd.
  apply NoDup_app in Hnd as (_ & _ & Hnd). apply NoDup_cons in Hnd as [_ Hnd].
  destruct post as [|y p]; [done|]. simpl in *. apply NoDup_cons in Hnd as [Hy _].
  unfold after_promote, at_id. f_equal.
  - rewrite decide_True; [done|]. apply (stable_id _ (stable_after_stmt env input job m)).
  - apply list_fmap_ext. intros k x Hx. rewrite decide_False; [done|].
    rewrite (stable_id _ (stable_after_stmt env input job m)). intros E. apply Hy. rewrite <-E.
    apply list_elem_of_fmap. exists x. split; [done|]. by eapply list_elem_of_lookup_2.
Qed.

Lemma stable_final m : stable (final_jobs m).
Proof using Type.
  clear Hc. pose proof (stable_after_stmt env input job m) as Hst.
  assert (Hg : stable (after_give_up env input job post m)).
  { apply (stable_compose (on_ids _ _)); [|done]. apply stable_on_ids, stable_cancelled_at. }
  unfold CompletionSafety.final_jobs. destruct (ci_Status input); try exact Hg.
  destruct post as [|y p]; [done|].
  apply (stable_compose (at_id _ _)); [by apply stable_at|done].
Qed.

(** On success only the job and its successor change. *)
Lemma final_success_same m x :
  keyed (db_jobs db0) → ci_Status input = JobStatusSuccess → db_jobs db0 !! job_ID x = Some x →
  job_ID x ≠ job_ID job → job_NextID job ≠ Some (job_ID x) → final_jobs m x = x.
Proof using Hc.
  intros Hk Hs Hx Hj Hn. rewrite (next_of_job db0 job pre post Hc) in Hn.
  destruct (decide (job_ID x ∈ job_ID <$> post)) as [Hin|Hout]; [|by apply final_other].
  apply list_elem_of_fmap in Hin as (z & Hz & Hzp).
  assert (Hzc : z ∈ c) by (apply elem_of_app; right; by right).
  apply (ch_elem _ _ _ _ Hc) in Hzc as (Hzz & _).
  rewrite Hz, Hzz in Hx. injection Hx as <-.
  pose proof (final_post m) as Hfp. unfold final_tail, fed in Hfp. rewrite Hs in Hfp.
  clear Hc. destruct post as [|y p]; [by apply not_elem_of_nil in Hzp|].
  apply elem_of_cons in Hzp as [-> |Hzp]; [done|]. simpl in Hfp. injection Hfp as _ Hfp.
  apply list_elem_of_lookup in Hzp as [k Hkz].
  pose proof (f_equal (λ l, l !! k) Hfp) as Hlk. simpl in Hlk.
  rewrite list_lookup_fmap, Hkz in Hlk. by injection Hlk.
Qed.

(** The chain after the completion. *)
Lemma final_chain m : final_jobs m <$> c = pre ++ done_row m job :: final_tail m.
Proof using Hc.
  rewrite fmap_app. simpl. rewrite final_job, final_post. f_equal.
  rewrite <-(list_fmap_id pre) at 2. apply list_fmap_ext. intros k x Hx.
  destruct (pre_ids db0 job pre post Hc x) as [H1 H2]; [by eapply list_elem_of_lookup_2|].
  by apply final_other.
Qed.

Context (Hterm : terminal_request_status (ci_Status input) = true).
Context (Hpre : Forall (λ x, job_Status x = JobStatusSuccess) pre).
Context (Hcreated : Forall (λ x, job_Status x = JobStatusCreated) post).

Lemma after_stmt_job_ok m nodes x :
  (0 ≤ job_DurationMs (done_row m job))%Z → job_ok nodes job →
  (job_ID x = job_ID job → x = job) →
  job_ok nodes x → job_ok nodes (after_stmt env input job m x).
Proof using Hterm.
  intros Hd Hj Hu Hx. unfold after_stmt. destruct (decide _) as [E|E].
  - rewrite (Hu E). destruct Hj as [H1 H2 H3 H4 H5 H6 H7].
    destruct (terminal_request _ Hterm) as [Ht Hr]. split; simpl; try done.
    + intros [E'|E']; rewrite E' in Ht; done.
    + destruct (decide (sha = "")) as [|Hs]; [done|]. unfold sha8. by destruct (decide (sha = "")).
  - case_bool_decide; [by apply feed_job_ok|done].
Qed.

Lemma final_job_ok m i x :
  (0 ≤ job_DurationMs (done_row m job))%Z → db_jobs db0 !! i = Some x →
  job_ok (db_nodes db0) (final_jobs m x).
Proof using Type*.
  intros Hd Hx. destruct (wf_keyed _ Hwf _ _ Hx) as [Hi _].
  assert (Ha : job_ok (db_nodes db0) (after_stmt env input job m x)).
  { apply after_stmt_job_ok; [done|by eapply wf_job|congruence|by eapply wf_job]. }
  unfold CompletionSafety.final_jobs, after_promote, after_give_up, on_ids, at_id.
  assert (Hg : job_ok (db_nodes db0) (if bool_decide (job_ID (after_stmt env input job m x) ∈ job_ID <$> post)
    then cancelled_at (env_clock env) (after_stmt env input job m x) else after_stmt env input job m x))
    by (case_bool_decide; [by apply give_up_job_ok|done]).
  destruct (ci_Status input); try exact Hg.
  assert (Hp : post = [] ∨ ∃ y p, post = y :: p) by (clear; destruct post; eauto).
  destruct Hp as [-> |(y & p & Hp)]; [done|]. rewrite Hp. destruct (decide _) as [E|E]; [|done].
  apply queue_job_ok; [|done]. rewrite (stable_id _ (stable_after_stmt env input job m)) in E.
  assert (Hyp : y ∈ post) by (rewrite Hp; left).
  assert (x = y) as ->.
  { assert (Hy : y ∈ c) by set_solver. apply (ch_elem _ _ _ _ Hc) in Hy as (Hy & _). congruence. }
  unfold after_stmt. rewrite decide_False by (by apply (post_ids db0 job pre post Hc)).
  pose proof (proj1 (Forall_forall _ _) Hcreated y Hyp) as Hys. simpl in Hys.
  destruct (bool_decide (job_NextID _ = _)); [rewrite feed_status|]; exact Hys.
Qed.

(** Nothing is left to do, unless the job succeeded and has a successor. *)
Definition advances : bool := bool_decide (ci_Status input = JobStatusSuccess) && bool_decide (post ≠ []).

Lemma final_terminal m :
  if advances then live_shape (job_Status <$> (pre ++ done_row m job :: final_tail m))
  else Forall (λ j, terminal_job (job_Status j) = true) (pre ++ done_row m job :: final_tail m).
Proof using Type*.
  pose proof Hcreated as Hcr. pose proof Hpre as Hp. pose proof Hterm as Ht.
  apply terminal_request in Ht as [Ht _].
  assert (Hg : Forall (λ j, terminal_job (job_Status j) = true)
    (pre ++ done_row m job :: (cancelled_at (env_clock env) <$> fed m))).
  { apply Forall_app. split; [eapply Forall_impl; [exact Hp|]; by intros x ->|].
    constructor; [done|]. apply Forall_fmap, Forall_forall. intros x _. apply give_up_terminal. }
  unfold advances, final_tail.
  destruct (ci_Status input) eqn:Es; try exact Hg. simpl. unfold fed in *.
  destruct post as [|y p]; [exact Hg|]. rewrite bool_decide_eq_true_2 by done.
  apply Forall_cons in Hcr as [Hy Hcr]. apply live_split.
  exists (pre ++ [done_row m job]), (set_job_Status JobStatusQueued (feed_row (job_RepoShaOut (done_row m job)) y)), p.
  split_and!; [by rewrite <-app_assoc| |by left|done].
  apply Forall_app. split; [done|]. by repeat constructor.
Qed.

Lemma final_affine m : affine c → affine (pre ++ done_row m job :: final_tail m).
Proof using Type*.
  rewrite <-final_chain. apply affine_fmap. intros x _.
  unfold CompletionSafety.final_jobs, after_promote, after_give_up, on_ids, at_id, after_stmt.
  destruct (ci_Status input), post; repeat case_decide; repeat case_bool_decide;
    rewrite ?give_up_node; simpl; rewrite ?feed_node; done.
Qed.


(** The commit a successful completion with a successor records. *)
Lemma sha_canonical :
  ci_Status input = JobStatusSuccess → sha ≠ "" → IsCanonicalFullCommitSHA sha = true.
Proof using Type.
  intros Hs. unfold effective_sha. rewrite decide_True by done.
  destruct (decide _); intros Hne; by edestruct normalizeRepoSHA_cases.
Qed.

Lemma final_sha m :
  completion_allowed input job post → sha_chain c → sha_chain (pre ++ done_row m job :: final_tail m).
Proof using Type*.
  intros [_ _ Hsha] Hs. pose proof Hcreated as Hcr.
  eapply (sha_chain_replace pre job); [exact Hs|done| |].
  - intros y Hy Hst. simpl in Hst. unfold final_tail, fed in Hy. rewrite Hst in Hy.
    destruct post as [|z p]; [done|]. simpl in Hy. injection Hy as <-.
    destruct (Hsha Hst) as [_ Hne]; [done|]. simpl.
    rewrite (decide_False _ _ Hne). unfold feed_row. rewrite (decide_False _ _ Hne). split; [done|].
    by apply sha_canonical.
  - assert (Hg : Forall (λ y, job_Status y ≠ JobStatusSuccess) (cancelled_at (env_clock env) <$> fed m)).
    { apply Forall_fmap, Forall_forall. intros x Hx. simpl.
      assert (Hxs : job_Status x = JobStatusCreated).
      { unfold fed in Hx. destruct post as [|z p]; [by apply not_elem_of_nil in Hx|].
        apply Forall_cons in Hcr as [Hz Hcr]. apply elem_of_cons in Hx as [-> |Hx].
        - by rewrite feed_status.
        - by apply (proj1 (Forall_forall _ _) Hcr). }
      unfold cancelled_at. rewrite Hxs. done. }
    unfold final_tail. destruct (ci_Status input); try exact Hg. unfold fed.
    destruct post as [|z p]; [done|]. apply Forall_cons in Hcr as [Hz Hcr].
    constructor; [done|]. eapply Forall_impl; [exact Hcr|]. simpl. by intros x ->.
Qed.

Lemma final_status_chain jobs m :
  jobs ≡ₚ pre ++ done_row m job :: final_tail m →
  match final_status jobs with
  | None => advances = true
  | Some rs => advances = false ∧ rs ≠ RunStatusRunning ∧ rs ≠ RunStatusQueued
  end.
Proof using Type*.
  intros Hp. unfold final_status.
  destruct (evaluate_attempt_spec jobs) as (ev & -> & Hiff & Hst).
  pose proof (final_terminal m) as Hft. destruct (rare_ShouldUpdate ev).
  - destruct (Hst eq_refl) as (j & rs & _ & _ & -> & Hrs). split.
    + destruct advances; [|done]. destruct (proj1 Hiff eq_refl) as [_ Hall]. rewrite Hp in Hall.
      apply live_split in Hft as (p1 & x & p2 & He & _ & Hx & _). rewrite He in Hall.
      apply Forall_app in Hall as [_ Hall]. apply Forall_cons in Hall as [Hall _].
      by destruct Hx as [E|E]; rewrite E in Hall.
    + destruct (job_Status j); simplify_eq/=; done.
  - destruct advances; [done|]. assert (Hf : false = true); [|done]. apply Hiff. split.
    + intros ->. apply Permutation_nil_l in Hp. by destruct pre.
    + by rewrite Hp.
Qed.


Context (Hok : attempt_ok true c).
Context (Hlive : run_Status run = RunStatusRunning ∧ att = run_Attempt run).

Lemma settled_run_ok rs G i r :
  benign G → rs ≠ Some RunStatusRunning → rs ≠ Some RunStatusQueued →
  db_runs db0 !! i = Some r → run_ok (db_waves db0) (settle env job rs (G r)).
Proof using Hwf.
  intros HG Hr Hq Hi. destruct (HG r) as (E1 & E2 & E3 & E4 & E5 & E6 & _).
  destruct (wf_run _ Hwf _ _ Hi) as [H1 H2 H3 (w & Hw & Hws)].
  assert (Hb : run_ok (db_waves db0) (G r)).
  { split; rewrite ?E2, ?E4, ?E5, ?E6; try done. eauto. }
  unfold settle. destruct rs as [s|]; [|done]. case_bool_decide; [|done].
  destruct s; try done; (split; simpl; [done|by rewrite E4| |]).
  all: try (split; [done|eauto]).
  all: rewrite E2; exists w; split; [done|done].
Qed.

Lemma final_elsewhere m i a d :
  chain_of (db_jobs db0) i a d → (i ≠ rid ∨ a ≠ att) → final_jobs m <$> d = d.
Proof using Hc.
  intros Hd Hne. rewrite <-(list_fmap_id d) at 2. apply list_fmap_ext. intros k x Hx.
  destruct (chain_at _ _ _ _ Hd _ _ Hx) as (Hxx & Hxr & Hxa).
  assert (Hno : ∀ y, y ∈ job :: post → job_ID x ≠ job_ID y).
  { intros y Hy E. assert (Hyc : y ∈ c) by (apply elem_of_app; by right).
    apply (ch_elem _ _ _ _ Hc) in Hyc as (Hyy & Hyr & Hya). rewrite E, Hyy in Hxx.
    injection Hxx as <-. destruct Hne; congruence. }
  apply final_other; [apply Hno; left|]. intros (y & E & Hy)%list_elem_of_fmap.
  apply (Hno y); [by right|done].
Qed.

Lemma settle_live rs G i r a d m :
  benign G → db_runs db0 !! i = Some r → chain_of (db_jobs db0) i a d → attempt_ok (live r a) d →
  completion_allowed input job post →
  match rs with
  | None => advances = true
  | Some s => advances = false ∧ s ≠ RunStatusRunning ∧ s ≠ RunStatusQueued
  end →
  attempt_ok (live (settle env job rs (G r)) a) (final_jobs m <$> d).
Proof using Type*.
  intros HG Hi Hd Hdok Hallow Hrs. destruct (HG r) as (E1 & _ & _ & E4 & E5 & _).
  pose proof (wf_run_key _ Hwf _ _ Hi) as Hid.
  assert (Hsame : i ≠ rid → settle env job rs (G r) = G r).
  { intros Hne. unfold settle. destruct rs; [|done].
    rewrite bool_decide_eq_false_2; [done|]. by rewrite E1, Hid. }
  assert (Hat : run_Attempt (settle env job rs (G r)) = run_Attempt r).
  { unfold settle. destruct rs; [|done]. by case_bool_decide. }
  destruct (decide (i = rid)) as [->|Hne].
  - assert (r = run) as -> by congruence. pose proof Hlive as [Hl1 Hl2].
    destruct (decide (a = att)) as [->|Hna].
    + assert (d = c) as -> by (eapply chain_unique; [apply Hwf|done|done]).
      rewrite final_chain. pose proof Hok as [_ _ Haf Hsha]. split.
      * by destruct pre.
      * pose proof (final_terminal m) as Hft. unfold live. rewrite Hat. unfold settle.
        destruct rs as [s|].
        -- destruct Hrs as (Hadv & Hs & _). rewrite Hadv in Hft.
           rewrite (bool_decide_eq_true_2 (run_ID _ = rid)) by congruence. simpl.
           by rewrite (bool_decide_eq_false_2 (s = _)), andb_false_r by done.
        -- rewrite Hrs in Hft. rewrite E5. by rewrite !bool_decide_eq_true_2 by done.
      * by apply final_affine.
      * by apply final_sha.
    + rewrite (final_elsewhere m _ _ _ Hd) by auto. unfold live in *. rewrite Hat.
      by rewrite (bool_decide_eq_false_2 (a = run_Attempt run)) in * by congruence.
  - rewrite (final_elsewhere m _ _ _ Hd) by auto. unfold live in *. rewrite Hat, Hsame by done.
    by rewrite E5.
Qed.

Lemma completed_wf ro db : completed env db0 input job post ro db → wf db.
Proof using Type*.
  intros (Hallow & m & G & Hdur & HG & (Hj & Hr & Hw & Hn & Hre) & _).
  assert (Hfs : match final_status (attempt_jobs db rid att) with
    | None => advances = true
    | Some s => advances = false ∧ s ≠ RunStatusRunning ∧ s ≠ RunStatusQueued end).
  { apply (final_status_chain _ m). rewrite <-final_chain.
    apply (attempt_jobs_perm _ _ _ _ (keyed_fmap _ _ (stable_final m) (wf_keyed _ Hwf))); [|done].
    apply chain_of_fmap; [apply stable_final|apply Hwf|done]. }
  set (rs := final_status (attempt_jobs db rid att)) in *.
  assert (Hset : ∀ r, run_ID (settle env job rs (G r)) = run_ID r ∧
    run_WaveID (settle env job rs (G r)) = run_WaveID r ∧
    run_RepoID (settle env job rs (G r)) = run_RepoID r ∧
    run_Attempt (settle env job rs (G r)) = run_Attempt r).
  { intros r. destruct (HG r) as (? & ? & ? & ? & _). unfold settle.
    destruct rs; [|done]. by case_bool_decide. }
  apply (wf_rewrite db0 db (final_jobs m) (λ r, settle env job rs (G r)) id);
    rewrite ?map_fmap_id; auto using stable_final.
  - intros i x Hx. by eapply final_job_ok.
  - intros i r Hi. apply (settled_run_ok _ _ i); try done.
    + intros E. rewrite E in Hfs. naive_solver.
    + intros E. rewrite E in Hfs. naive_solver.
  - apply Hwf.
  - intros i r a d Hi Hd Hdok. by eapply settle_live.
  - rewrite Hr. apply one_active_fmap; [|apply Hwf]. intros i r Hi. split; [apply Hset|].
    destruct (HG r) as (_ & _ & _ & _ & E5 & _). unfold settle. rewrite <-E5.
    destruct rs as [s|]; [|done]. case_bool_decide; [|done]. simpl. destruct Hfs as (_ & ? & ?).
    by destruct s.
Qed.


End Outcome.
