(* ===== verification/CompletionService.v ===== *)
(** * The completion service

    [Complete] as a whole: the fence that rejects a report of an earlier execution,
    the transaction, and the completion of the wave after it. Whatever statements
    fail, the database stays well formed, and a rejected report changes nothing. *)

From stdpp Require Import base gmap sets list sorting strings.
From S2P Require Import Prelude GoStrings Types Json JobMeta Db Tx Queries JobChain Lifecycle.
From S2P Require Import Tokens Store Recovery Completion Chains Invariant CancelSafety.
From S2P Require Import LaunchSafety RestartSafety WaveStatus CompletionSafety CompletionOutcome.
From Stdlib Require Import ZArith Lia.

(** ** The fence *)

Section Fence.
Context (env : Env) (db0 : DB) {A : Type} (jobID : string) (resumeCount : Z).
Context (f : Job → M A) (Q : Job → Run → A → DB → Prop).
Context (Hf : ∀ job, behaved true env (f job)).
Context (Hbody : ∀ job run, db_jobs db0 !! jobID = Some job → db_runs db0 !! job_RunID job = Some run →
  ResumeCount (run_Stats run) = resumeCount → job_Attempt job = run_Attempt run →
  triple true env (λ db, db = db0) (f job) (Q job run) any_error).

Lemma WithJobExecution_triple :
  triple false env (λ db, db = db0) (WithJobExecution jobID resumeCount f)
    (λ a db, ∃ job run, db_jobs db0 !! jobID = Some job ∧ db_runs db0 !! job_RunID job = Some run ∧
       ResumeCount (run_Stats run) = resumeCount ∧ job_Attempt job = run_Attempt run ∧ Q job run a db)
    (λ _ db, db = db0).
Proof using Type*.
  unfold WithJobExecution. apply triple_transaction; [|done].
  assert (Hget : triple true env (λ db, db = db0) (GetJob jobID)
    (λ job db, db_jobs db0 !! jobID = Some job ∧ db = db0) any_error).
  { apply triple_query_one; [|done|done]. by intros db a db' -> [= E <-]. }
  eapply triple_bind; [apply Hget|]. intros job. apply triple_pure; [behave|]. intros Hj.
  eapply triple_bind with (Q := λ _ db, db = db0).
  { apply triple_query; [|done]. by intros db ->. }
  intros ?. eapply triple_bind with (Q := λ run db, db_runs db0 !! job_RunID job = Some run ∧ db = db0).
  { apply triple_query_one; [|done|done]. by intros db a' db' -> [= E <-]. }
  intros run. apply triple_pure; [behave|]. intros Hr.
  destruct (_ || _) eqn:Ef; [by apply triple_throw|].
  rewrite orb_false_iff, !negb_false_iff, !bool_decide_eq_true in Ef. destruct Ef as [E1 E2].
  eapply triple_bind; [apply Hget|]. intros job'. apply triple_pure; [apply Hf|]. intros Hj'.
  assert (job' = job) as -> by congruence.
  eapply triple_conseq; [apply (Hbody job run)|done| |done]; try done.
  intros a' db HQ. exists job, run. done.
Qed.

End Fence.

(** No concurrent transaction holds the row of a job that waits for its turn.
    Claims lock queued rows only; completions, restarts and cancellations of the
    same run wait for each other at the run's row. *)
Definition waiting_unlocked (env : Env) (db : DB) : Prop :=
  ∀ i j, db_jobs db !! i = Some j → job_Status j = JobStatusCreated → i ∉ env_locked env.

Section Service.
Context `{Collation} `{GoFmt}.
Context (env : Env) (db0 : DB) (Hwf : wf db0) (Hsmall : countable_runs db0).
Context (input : completionInput) (Hterm : terminal_request_status (ci_Status input) = true).
Context (Hlock : waiting_unlocked env db0).

Lemma complete_behaved events job : behaved true env (complete events input job).
Proof using Type.
  unfold complete, publish_job_end, onFail, onCancelled, onSuccess, reconcileRepoRun, record_error, logged,
    or_internal, cancelRemainingJobsAfterFailure, MaybeUpdateRunStatus, loadRunForPostCompletion,
    UpsertJobMetric, UpdateJobCompletion, UpdateJobCompletionWithMeta.
  behave.
Qed.

Lemma Complete_behaved events reg : behaved false env (Complete events reg input).
Proof using Type.
  unfold Complete, WithJobExecution. apply behaved_bind; [apply behaved_attempt, behaved_transaction; behave;
    apply complete_behaved|intros ?].
  unfold reconcileWave, ReleaseWave, MaybeCompleteRunIfAllReposTerminal. behave.
Qed.

(** A running job: its chain and the run it belongs to. *)
Lemma running_job_chain jobID job run :
  db_jobs db0 !! jobID = Some job → job_Status job = JobStatusRunning →
  db_runs db0 !! job_RunID job = Some run →
  job_ID job = jobID ∧ (run_Status run = RunStatusRunning ∧ job_Attempt job = run_Attempt run) ∧
  ∃ pre post, chain_of (db_jobs db0) (job_RunID job) (job_Attempt job) (pre ++ job :: post) ∧
    attempt_ok true (pre ++ job :: post) ∧
    Forall (λ x, job_Status x = JobStatusSuccess) pre ∧
    Forall (λ x, job_Status x = JobStatusCreated) post.
Proof using Hwf.
  intros Hj Hs Hr. destruct (wf_keyed _ Hwf _ _ Hj) as [Hid _].
  assert (Ha : active_job (job_Status job) = true) by (by rewrite Hs).
  destruct (active_job_live _ Hwf _ _ _ Hj Ha Hr) as [Hrs Hra]. split; [done|]. split; [done|].
  destruct (wf_job_chain _ Hwf _ _ Hj) as (r' & c & k & Hr' & Hc & Hok & Hk).
  assert (r' = run) as -> by congruence.
  assert (Hl : live run (job_Attempt job) = true)
    by (unfold live; by rewrite !bool_decide_eq_true_2 by done).
  rewrite Hl in Hok. pose proof (ao_statuses _ _ Hok) as Hst. simpl in Hst.
  destruct (live_lookup _ _ _ Hst Hk Ha) as (pre & post & -> & _ & Hpre & Hpost); [by rewrite Hs|].
  eauto 8.
Qed.

(** What a committed completion has established. *)
Definition completion_post (job : Job) (run : Run) (ro : option Run) (db : DB) : Prop :=
  ∃ pre post,
    job_ID job = ci_JobID input ∧
    chain_of (db_jobs db0) (job_RunID job) (job_Attempt job) (pre ++ job :: post) ∧
    attempt_ok true (pre ++ job :: post) ∧
    (run_Status run = RunStatusRunning ∧ job_Attempt job = run_Attempt run) ∧
    Forall (λ x, job_Status x = JobStatusSuccess) pre ∧
    Forall (λ x, job_Status x = JobStatusCreated) post ∧
    completed env db0 input job post ro db.

Lemma complete_in_tx events job run :
  db_jobs db0 !! ci_JobID input = Some job → db_runs db0 !! job_RunID job = Some run →
  triple true env (λ db, db = db0) (complete events input job) (completion_post job run) any_error.
Proof using Type*.
  intros Hj Hr. destruct (decide (job_Status job = JobStatusRunning)) as [Hs|Hs].
  - destruct (running_job_chain _ _ _ Hj Hs Hr) as (Hid & Hl & pre & post & Hc & Hok & Hpre & Hpost).
    eapply triple_conseq; [apply (complete_triple env db0 Hwf input job run pre post)|done| |done]; try done.
    + by rewrite Hid.
    + intros y Hy. apply head_elem in Hy.
      apply (Hlock _ y); [|by apply (proj1 (Forall_forall _ _) Hpost)].
      apply (ch_elem _ _ _ _ Hc). set_solver.
    + intros ro db Hco. exists pre, post. done.
  - unfold complete. destruct (negb (bool_decide (job_NodeID job = _))); [by apply triple_throw|].
    rewrite (bool_decide_eq_false_2 (job_Status job = _)) by done. by apply triple_throw.
Qed.

(** The completion's transaction commits a well-formed database or nothing. *)
Lemma WithJobExecution_complete events :
  triple false env (λ db, db = db0)
    (WithJobExecution (ci_JobID input) (jsp_ResumeCount (ci_StatsPayload input)) (complete events input))
    (λ ro db, ∃ job run, db_jobs db0 !! ci_JobID input = Some job ∧
       db_runs db0 !! job_RunID job = Some run ∧
       ResumeCount (run_Stats run) = jsp_ResumeCount (ci_StatsPayload input) ∧
       job_Attempt job = run_Attempt run ∧ completion_post job run ro db)
    (λ _ db, db = db0).
Proof using Type*.
  apply WithJobExecution_triple; [apply complete_behaved|]. intros job run Hj Hr _ _.
  by apply complete_in_tx.
Qed.

Lemma completion_post_wf job run ro db :
  db_jobs db0 !! ci_JobID input = Some job → db_runs db0 !! job_RunID job = Some run →
  completion_post job run ro db → wf db ∧ countable_runs db.
Proof using Hwf Hsmall Hterm.
  intros Hj Hr (pre & post & Hid & Hc & Hok & Hl & Hpre & Hpost & Hco). split.
  - rewrite <-Hid in Hj. by eapply (completed_wf env db0 Hwf input job run pre post).
  - destruct Hco as (_ & m & G & _ & _ & (_ & Hruns & _) & _). unfold countable_runs.
    by rewrite Hruns, map_size_fmap.
Qed.

(** *** The wave *)

Lemma ReleaseWave_triple inside (P : DB → Prop) waveID reg E :
  triple inside env P (ReleaseWave waveID reg) (λ _, P) E.
Proof using Type.
  unfold ReleaseWave. destruct reg as [reg|]; [|by apply triple_ret].
  destruct (IsZero waveID); [by apply triple_ret|].
  eapply triple_bind with (Q := λ _, P); [|intros ?; by apply triple_ret].
  eapply triple_conseq; [apply (triple_attempt inside env _ P (λ _, P) (λ _, P) E)|done| |done].
  - by apply triple_query.
  - by intros [?|?] db.
Qed.

Lemma reconcileWave_triple db1 events run reg :
  countable_runs db1 →
  triple false env (λ db, db = db1) (reconcileWave events run reg)
    (λ _ db, db = db1 ∨ wave_over db1 (run_WaveID run) ∧
                        db = finish_wave (env_now env) (run_WaveID run) db1)
    (λ _ _, False).
Proof using Type.
  intros Hs. unfold reconcileWave.
  eapply triple_bind; [apply (triple_attempt false env _ _ _ _ _ (MaybeComplete_triple false env db1 Hs events run))|].
  intros [e|[]]; try (apply triple_ret; intros db Hdb; by left).
  eapply triple_conseq; [apply (ReleaseWave_triple false (λ db, wave_over db1 (run_WaveID run) ∧
    db = finish_wave (env_now env) (run_WaveID run) db1) _ _ (λ _ _, False))|auto|auto|done].
Qed.

(** The whole service. *)
Lemma Complete_triple events reg :
  triple false env (λ db, db = db0) (Complete events reg input)
    (λ _ db, ∃ job run ro db1, db_jobs db0 !! ci_JobID input = Some job ∧
       db_runs db0 !! job_RunID job = Some run ∧
       ResumeCount (run_Stats run) = jsp_ResumeCount (ci_StatsPayload input) ∧
       completion_post job run ro db1 ∧
       (db = db1 ∨ ∃ r', ro = Some r' ∧ wave_over db1 (run_WaveID r') ∧
          db = finish_wave (env_now env) (run_WaveID r') db1))
    (λ _ db, db = db0).
Proof using Type*.
  unfold Complete.
  eapply triple_bind; [apply triple_attempt, WithJobExecution_complete|]. intros [e|ro].
  - repeat (case_match; try by apply triple_throw).
  - apply triple_pre; [unfold reconcileWave, ReleaseWave, MaybeCompleteRunIfAllReposTerminal; behave|].
    intros db1 (job & run & Hj & Hr & Hrc & _ & Hpost).
    destruct (completion_post_wf _ _ _ _ Hj Hr Hpost) as [_ Hs1].
    destruct ro as [r'|].
    + eapply triple_conseq; [apply (reconcileWave_triple db1 events r' reg Hs1)|done| |done].
      intros ? db Hdb. exists job, run, (Some r'), db1. split_and!; try done. naive_solver.
    + apply triple_ret. intros db ->. exists job, run, None, db1. split_and!; try done. by left.
Qed.

End Service.

(** * Completion: a valid report is accepted

    When no statement fails for reasons of its own, the report of the node that
    runs the job is accepted and answered with 204. *)

(** ** Validated requests *)

Record valid_input `{GoFmt} (input : completionInput) : Prop := {
  vi_status : terminal_request_status (ci_Status input) = true;
  vi_meta : ValidateJobMeta (ci_StatsPayload input) = true;
  vi_resources : ValidateJobResources (ci_StatsPayload input) = true
}.

Lemma validate_valid `{GoFmt} jobID header req input :
  validateCompletionRequest jobID header req = inr input →
  ci_JobID input = jobID ∧ parseNodeUUIDHeader header = Some (ci_NodeID input) ∧ valid_input input.
Proof.
  unfold validateCompletionRequest. destruct (decide _); [done|].
  destruct (ParseJobStatus _) as [s|]; [|done].
  destruct (negb (terminal_request_status s)) eqn:Es; [done|]. apply negb_false_iff in Es.
  destruct (decode_stats _) as [e|p] eqn:Ed; [done|]. destruct (_ && _); [done|].
  destruct (parseNodeUUIDHeader header) as [nid|]; [|done]. intros [= <-].
  assert (Hp : ValidateJobMeta p = true ∧ ValidateJobResources p = true).
  { unfold decode_stats in Ed. destruct (req_Stats req) as [| |j]; [by injection Ed as <-|done|].
    destruct j; try done. destruct (dec_JobStatsPayload _ _) as [q|]; [|done].
    destruct (negb (ValidateJobMeta q)) eqn:E1; [done|].
    destruct (negb (ValidateJobResources q)) eqn:E2; [done|]. injection Ed as <-.
    apply negb_false_iff in E1, E2. done. }
  destruct Hp. split_and!; [done..|]. by split.
Qed.

Section Progress.
Context `{Collation} `{GoFmt}.
Context (env : Env) (db0 : DB) (Hwf : wf db0) (input : completionInput) (Hin : valid_input input).

(** ** The steps after the completion statement *)

Lemma calm_cancel_walk now byID fuel seen next : calm env (cancel_walk fuel now byID seen next).
Proof using Type.
  revert seen next. induction fuel as [|fuel IH]; intros seen next; simpl; [keep_calm|].
  destruct next as [id|]; [|keep_calm]. destruct (decide _); [keep_calm|].
  destruct (byID !! id) as [x|]; [|keep_calm]. apply calm_bind; [|intros ?; apply IH].
  keep_calm. unfold UpdateJobStatus. apply calm_stmt. intros db.
  destruct (db_jobs db !! job_ID x); [|by eexists].
  rewrite decide_False by (destruct (job_StartedAt x); lia). by eexists.
Qed.

Lemma calm_promote id : calm env (PromoteJobByIDIfUnblocked id).
Proof using Type. apply calm_query_one. intros db. repeat case_match; by eexists. Qed.

Lemma calm_GetRun id : calm env (GetRun id).
Proof using Type. apply calm_query_one. by eexists. Qed.

Lemma sure_logged {A} (m : M A) : calm env m → sure env (logged m).
Proof using Type.
  intros Hm. unfold logged. eapply total_bind; [by apply calm_attempt|]. intros ?. by apply total_ret.
Qed.

Lemma sure_record id msg : sure env (record_error id msg).
Proof using Type.
  unfold record_error. destruct msg; [|by apply total_ret]. apply sure_logged. unfold UpdateRunError.
  keep_calm.
Qed.

Lemma sure_cancel job : sure env (logged (cancelRemainingJobsAfterFailure job)).
Proof using Type.
  apply sure_logged. unfold cancelRemainingJobsAfterFailure, ListJobsByRunAttempt. keep_calm.
  apply calm_cancel_walk.
Qed.

Lemma sure_after job pm :
  sure env (onFail input job pm ;; onCancelled input job ;; onSuccess input job ;; reconcileRepoRun job).
Proof using Type.
  assert (Hb : ∀ {A B} (m : M A) (k : A → M B), sure env m → (∀ a, sure env (k a)) → sure env (m ≫= k)).
  { intros A B m k Hm Hk. eapply total_bind; [exact Hm|exact Hk]. }
  assert (Hr : ∀ {A} (a : A), sure env (mret a)) by (intros A a; by apply total_ret).
  apply Hb; [|intros ?; apply Hb; [|intros ?; apply Hb; [|intros ?]]].
  - unfold onFail. destruct (negb _); [done|]. apply Hb; [apply sure_record|intros ?].
    apply Hb; [destruct (_ && _); [apply sure_record|apply Hr]|intros ?].
    destruct (EvaluateCompletionDecision _ _); auto using sure_cancel.
  - unfold onCancelled. destruct (negb _); [done|].
    destruct (EvaluateCompletionDecision _ _); auto using sure_cancel.
  - unfold onSuccess. destruct (negb _); [done|].
    destruct (EvaluateCompletionDecision _ _), (job_NextID job); auto using sure_logged, calm_promote.
  - unfold reconcileRepoRun. apply Hb.
    + apply calm_attempt. unfold MaybeUpdateRunStatus, ListJobsByRunAttempt, UpdateRunStatus. keep_calm.
    + intros [e|[]]; try done. unfold loadRunForPostCompletion.
      apply Hb; [apply calm_attempt, calm_GetRun|]. intros [e|r]; [|done].
      apply Hb; [apply calm_attempt, calm_GetRun|]. done.
Qed.

(** ** The transaction *)

Lemma total_or_internal {A} msg (m : M A) (P : DB → Prop) Q :
  total env P m Q → total env P (or_internal msg m) Q.
Proof using Type.
  intros Hm. unfold or_internal. eapply total_bind; [apply total_attempt, Hm|].
  intros r db ins hub (a & -> & HQ). exists a, db, hub. done.
Qed.

Section Report.
Context (job : Job) (run : Run).
Context (Hjob : db_jobs db0 !! ci_JobID input = Some job).
Context (Hrun : db_runs db0 !! job_RunID job = Some run).
Context (Hresume : ResumeCount (run_Stats run) = jsp_ResumeCount (ci_StatsPayload input)).
Context (Hnode : job_NodeID job = Some (ci_NodeID input)).
Context (Hstatus : job_Status job = JobStatusRunning).
Context (Hclock : ∀ st, job_StartedAt job = Some st → (st ≤ env_now env)%Z).
Context (Hsha : ci_Status input = JobStatusSuccess → has_next job = true →
  IsCanonicalFullCommitSHA (job_RepoShaIn job) = true ∧ effective_sha input job ≠ "").

Lemma complete_stmt_total meta :
  total env (λ db, db_jobs db = db_jobs db0)
    (stmt (complete_stmt (job_ID job) (ci_Status input) (ci_ExitCode input) (effective_sha input job) meta))
    (λ _ _, True).
Proof using Hwf Hjob Hclock.
  destruct (wf_keyed _ Hwf _ _ Hjob) as [Hid _].
  apply total_stmt. intros db Hdb. unfold complete_stmt. rewrite Hdb, Hid, Hjob.
  rewrite decide_False; [by eexists _, _|]. simpl.
  destruct (job_StartedAt job) as [st|] eqn:E; [|lia].
  pose proof (epoch_ms_nonneg (env_now env - st)). pose proof (Hclock _ eq_refl). lia.
Qed.

Lemma metrics_total res :
  jsp_JobResources (ci_StatsPayload input) = Some res →
  total env (λ db, db = db0)
    (UpsertJobMetric (mkJobMetric (ci_NodeID input) (job_ID job) (res_CPUConsumedNs res)
       (res_DiskConsumedBytes res) (res_MemConsumedBytes res)))
    (λ _ db, db_jobs db = db_jobs db0).
Proof using Type*.
  intros Hres. destruct (wf_keyed _ Hwf _ _ Hjob) as [Hid _].
  apply total_stmt. intros db ->. simpl. pose proof (vi_resources _ Hin) as Hv.
  unfold ValidateJobResources in Hv. rewrite Hres in Hv.
  rewrite !andb_true_iff, !bool_decide_eq_true in Hv. destruct Hv as [[H1 H2] H3].
  rewrite decide_False by lia.
  destruct (jo_node _ _ (wf_job _ Hwf _ _ Hjob) _ Hnode) as [Hn _].
  rewrite (decide_False (P := db_nodes db0 !! _ = None)) by (by apply not_eq_None_Some).
  rewrite (decide_False (P := db_jobs db0 !! _ = None)) by (by rewrite Hid, Hjob). by eexists _, _.
Qed.

Lemma persist_total :
  total env (λ db, db_jobs db = db_jobs db0)
    (match HasJobMeta (ci_StatsPayload input), jsp_JobMeta (ci_StatsPayload input) with
     | true, Some meta =>
         if negb (ValidateJobMeta (ci_StatsPayload input))
         then throw (completeInternal "invalid job metadata" (ErrMsg "invalid job_meta"))
         else or_internal "failed to complete job"
                (UpdateJobCompletionWithMeta (job_ID job) (ci_Status input) (ci_ExitCode input)
                   (effective_sha input job) (RawJson meta)) ;;
              mret meta
     | _, _ =>
         or_internal "failed to complete job"
           (UpdateJobCompletion (job_ID job) (ci_Status input) (ci_ExitCode input)
              (effective_sha input job)) ;;
         mret (job_Meta job)
     end) (λ _ _, True).
Proof using Hwf Hin Hjob Hclock.
  destruct (HasJobMeta _), (jsp_JobMeta (ci_StatsPayload input)) as [meta|].
  1: rewrite (vi_meta _ Hin); simpl; eapply total_bind;
    [apply total_or_internal, (complete_stmt_total (Some meta))|intros ?; by apply total_ret].
  all: eapply total_bind; [apply total_or_internal, (complete_stmt_total None)|intros ?; by apply total_ret].
Qed.

Lemma publish_total events (P : DB → Prop) : total env P (publish_job_end events input) (λ _, P).
Proof using Type.
  apply total_when; [|done]. intros _.
  repeat (eapply total_bind; [apply total_emit|intros ?]). apply total_emit.
Qed.

Lemma complete_total events : total env (λ db, db = db0) (complete events input job) (λ _ _, True).
Proof using Type*.
  unfold complete.
  rewrite (bool_decide_eq_true_2 (job_NodeID job = _)), (bool_decide_eq_true_2 (job_Status job = _)) by done.
  simpl.
  assert (Hadv : bool_decide (ci_Status input = JobStatusSuccess) && has_next job = true →
    IsCanonicalFullCommitSHA (job_RepoShaIn job) = true ∧ effective_sha input job ≠ "").
  { intros [E1 E2]%andb_true_iff. apply bool_decide_eq_true in E1. auto. }
  destruct (_ && has_next job); simpl; [destruct (Hadv eq_refl) as [-> Hne]; simpl;
    rewrite (bool_decide_eq_false_2 (_ = "")) by done|].
  all: eapply total_bind with (Q := λ _ db, db_jobs db = db_jobs db0);
    [destruct (jsp_JobResources _) as [res|] eqn:Eres;
      [apply total_or_internal; by apply metrics_total|apply total_ret; by intros db ->]|].
  all: intros ?; eapply total_bind; [|intros ?; eapply total_bind; [apply publish_total|intros ?; apply sure_after]].
  all: apply persist_total.
Qed.

Lemma Complete_total events reg : total env (λ db, db = db0) (Complete events reg input) (λ _ _, True).
Proof using Type*.
  assert (Hlive : job_Attempt job = run_Attempt run).
  { eapply active_job_live; [done|exact Hjob|by rewrite Hstatus|done]. }
  assert (Hget : total env (λ db, db = db0) (GetJob (ci_JobID input)) (λ j db, j = job ∧ db = db0)).
  { apply total_query_one. intros db ->. rewrite Hjob. by eexists _, _. }
  unfold Complete. eapply total_bind.
  { apply total_attempt. unfold WithJobExecution. apply total_transaction.
    eapply total_bind; [apply Hget|]. intros j. apply total_pure. intros ->.
    eapply total_bind with (Q := λ _ db, db = db0); [by apply total_query|]. intros ?.
    eapply total_bind with (Q := λ r db, r = run ∧ db = db0).
    { apply total_query_one. intros db ->. rewrite Hrun. by eexists _, _. }
    intros r. apply total_pure. intros ->.
    rewrite (bool_decide_eq_true_2 (ResumeCount _ = _)), (bool_decide_eq_true_2 (job_Attempt job = _)) by done.
    simpl. eapply total_bind; [apply Hget|]. intros j. apply total_pure. intros ->. apply complete_total. }
  intros [e|ro]; [by intros db ins hub (? & [=] & _)|].
  apply (total_conseq env _ (λ _, True) _ (λ _ _, True)); [|done|done].
  destruct ro as [r'|]; [|by apply total_ret].
  unfold reconcileWave. eapply total_bind.
  { apply calm_attempt, calm_MaybeComplete. }
  intros [e|[]]; try (by apply total_ret). apply ReleaseWave_total.
Qed.

(** The report is answered with 204. *)
Lemma completeJobHandler_total events reg jobID header req :
  validateCompletionRequest jobID header req = inr input →
  ∃ reg' db', run_op (completeJobHandler events reg jobID header req) env db0 [] = (inr (204%Z, reg'), db').
Proof using Type*.
  intros Hv.
  destruct (total_run_op env (completeJobHandler events reg jobID header req) (λ db, db = db0)
    (λ r _, ∃ reg', r = (204%Z, reg')) db0) as (a & db' & E & reg' & ->); [|done|eauto].
  unfold completeJobHandler. rewrite Hv.
  eapply total_bind; [apply total_attempt, (Complete_total events reg)|].
  intros r db ins hub (reg' & -> & _). exists (204%Z, reg'), db, hub. split; [done|eauto].
Qed.

End Report.

End Progress.

(** ** What a report publishes

    The hub is called inside the transaction, so what it was told stays said when a
    later statement or the commit fails. *)

Definition silent {A} (m : M A) : Prop := ∀ t, tx_hub (m t).2 = tx_hub t.

Lemma silent_stmt {A} (f : Env → DB → Err + A * DB) : silent (stmt f).
Proof.
  intros t. unfold stmt. destruct (tx_aborted t); [done|]. destruct (head (tx_faults t)) as [[e|]|]; [done|..];
    by destruct (f (tx_env t) (tx_db t)) as [e|[a db]].
Qed.
Lemma silent_bind {A B} (m : M A) (k : A → M B) : silent m → (∀ a, silent (k a)) → silent (m ≫= k).
Proof.
  intros Hm Hk t. unfold mbind, M_bind. specialize (Hm t). destruct (m t) as [[e|a] t']; simpl in *; [done|].
  by rewrite Hk.
Qed.
Lemma silent_wrap {A} msg (m : M A) : silent m → silent (wrap msg m).
Proof. intros Hm t. unfold wrap. specialize (Hm t). by destruct (m t) as [[e|a] t']. Qed.
Lemma silent_when c m : silent m → silent (when c m).
Proof. by destruct c. Qed.
Lemma silent_of_option {A} e (o : option A) : silent (of_option e o).
Proof. by destruct o. Qed.
Lemma silent_attempt {A} (m : M A) : silent m → silent (attempt m).
Proof. intros Hm t. unfold attempt. specialize (Hm t). by destruct (m t) as [r t']. Qed.

Ltac hush :=
  repeat lazymatch goal with
  | |- silent (mret _) => done
  | |- silent (throw _) => done
  | |- silent (ask _) => done
  | |- silent (stmt _) => apply silent_stmt
  | |- silent (query _) => apply silent_stmt
  | |- silent (exec _) => apply silent_stmt
  | |- silent (query_one _) => unfold query_one
  | |- silent (of_option _ _) => apply silent_of_option
  | |- silent (wrap _ _) => apply silent_wrap
  | |- silent (attempt _) => apply silent_attempt
  | |- silent (when _ _) => apply silent_when
  | |- silent (mbind _ _) => apply silent_bind; [|intros ?]
  | |- silent (match _ with _ => _ end) => case_match
  end.

(** A read of one row. *)
Lemma fetch_run {A} (f : DB → option A) t :
  let '(r, t') := query_one (λ _ db, inr (f db, db)) t in
  tx_hub t' = tx_hub t ∧ tx_db t' = tx_db t ∧ ∀ a, r = inr a → f (tx_db t) = Some a.
Proof.
  unfold query_one, mbind, M_bind, stmt. destruct (tx_aborted t); [done|].
  destruct (head (tx_faults t)) as [[e|]|]; [done|..]; by destruct (f (tx_db t)) as [a|]; cbn;
    (split_and!; [done|done|]; intros ? [=]; subst).
Qed.

Section Publishing.
Context `{Collation} `{GoFmt} (events : bool) (input : completionInput).

(** The three calls that end the job's stream. *)
Definition job_end : list HubCall :=
  [HubResumeJob (ci_JobID input) (jsp_ResumeCount (ci_StatsPayload input));
   HubJobRetention (ci_JobID input);
   HubJobDone (ci_JobID input) (JobStatus_String (ci_Status input))].

(** Nothing is published, or the end of the job, which then is the reporter's to
    end. *)
Definition said (job : Job) (hub hub' : list HubCall) : Prop :=
  hub' = hub ∨
  events = true ∧ job_NodeID job = Some (ci_NodeID input) ∧ job_Status job = JobStatusRunning ∧ hub' = (hub ++ job_end)%list.

Lemma cancel_walk_silent fuel now byID seen next : silent (cancel_walk fuel now byID seen next).
Proof using Type.
  revert seen next. induction fuel as [|n IH]; intros seen next; simpl; [done|].
  unfold UpdateJobStatus. hush. apply IH.
Qed.

Lemma after_publication_silent job meta :
  silent (onFail input job meta ;; onCancelled input job ;; onSuccess input job ;; reconcileRepoRun job).
Proof using Type.
  unfold onFail, onCancelled, onSuccess, reconcileRepoRun, loadRunForPostCompletion, record_error, logged,
    cancelRemainingJobsAfterFailure, MaybeUpdateRunStatus, PromoteJobByIDIfUnblocked, UpdateRunError, GetRun,
    ListJobsByRunAttempt, UpdateRunStatus.
  hush; apply cancel_walk_silent.
Qed.

(** A silent program before one that publishes. *)
Lemma said_bind {A B} (m : M A) (k : A → M B) job :
  silent m → (∀ a t, said job (tx_hub t) (tx_hub (k a t).2)) → ∀ t, said job (tx_hub t) (tx_hub ((m ≫= k) t).2).
Proof using Type.
  intros Hm Hk t. specialize (Hm t). unfold mbind, M_bind. destruct (m t) as [[e|a] t']; simpl in *.
  - by left.
  - rewrite <-Hm. apply Hk.
Qed.

Lemma complete_said job t : said job (tx_hub t) (tx_hub (complete events input job t).2).
Proof using Type.
  unfold complete.
  destruct (negb (bool_decide (job_NodeID job = _))) eqn:Eg1; [by left|].
  destruct (negb (bool_decide (job_Status job = _))) eqn:Eg2; [by left|].
  apply negb_false_iff, bool_decide_eq_true in Eg1, Eg2.
  destruct (_ && negb (IsCanonicalFullCommitSHA _)); [by left|].
  destruct (_ && bool_decide (_ = "")); [by left|].
  revert t. apply said_bind; [unfold or_internal, UpsertJobMetric; hush|]. intros _.
  apply said_bind; [unfold or_internal, UpdateJobCompletion, UpdateJobCompletionWithMeta,
    UpdateJobCompletionWithMeta_query; hush|]. intros meta t.
  unfold publish_job_end. destruct events eqn:Ev.
  - right. split_and!; try done. erewrite bind_run by reflexivity.
    rewrite after_publication_silent. simpl. by rewrite <-!(assoc_L app).
  - left. erewrite bind_run by reflexivity. by rewrite after_publication_silent.
Qed.

(** The reads of the fence, then the completion of the row they found. *)
Lemma execution_said env db faults :
  let t' := (WithJobExecution (ci_JobID input) (jsp_ResumeCount (ci_StatsPayload input))
               (complete events input) (session env db faults)).2 in
  tx_hub t' = [] ∨
  ∃ job run, events = true ∧ db_jobs db !! ci_JobID input = Some job ∧ db_runs db !! job_RunID job = Some run ∧
    job_NodeID job = Some (ci_NodeID input) ∧ job_Status job = JobStatusRunning ∧
    job_Attempt job = run_Attempt run ∧ ResumeCount (run_Stats run) = jsp_ResumeCount (ci_StatsPayload input) ∧
    tx_hub t' = job_end.
Proof using Type.
  unfold WithJobExecution. set (body := mbind _ _).
  assert (Hbody : ∀ t, tx_db t = db → tx_hub t = [] → tx_hub (body t).2 = [] ∨
    ∃ job run, events = true ∧ db_jobs db !! ci_JobID input = Some job ∧ db_runs db !! job_RunID job = Some run ∧
      job_NodeID job = Some (ci_NodeID input) ∧ job_Status job = JobStatusRunning ∧
      job_Attempt job = run_Attempt run ∧ ResumeCount (run_Stats run) = jsp_ResumeCount (ci_StatsPayload input) ∧
      tx_hub (body t).2 = job_end).
  { intros t Hdb Hhub. unfold body, mbind, M_bind.
    pose proof (fetch_run (λ db, db_jobs db !! ci_JobID input) t) as H1.
    change (query_one _) with (GetJob (ci_JobID input)) in H1.
    destruct (GetJob (ci_JobID input) t) as [[e|job] t1]; destruct H1 as (E1 & D1 & F1); [left; simpl; congruence|].
    specialize (F1 _ eq_refl). rewrite Hdb in F1.
    pose proof (silent_stmt (λ _ db, inr (db_runs db !! job_RunID job, db)) t1) as S2.
    assert (D2 : tx_db (query (λ db, db_runs db !! job_RunID job) t1).2 = tx_db t1).
    { unfold query, stmt. destruct (tx_aborted t1); [done|]. by destruct (head (tx_faults t1)) as [[e|]|]. }
    unfold query in *. destruct (stmt _ t1) as [[e|o] t2]; simpl in *; [left; congruence|].
    pose proof (fetch_run (λ db, db_runs db !! job_RunID job) t2) as H3.
    change (query_one _) with (GetRun (job_RunID job)) in H3.
    destruct (GetRun (job_RunID job) t2) as [[e|run] t3]; destruct H3 as (E3 & D3 & F3); [left; simpl; congruence|].
    specialize (F3 _ eq_refl). rewrite D2, D1, Hdb in F3.
    destruct (_ || _) eqn:Eg; [left; simpl; congruence|].
    apply orb_false_iff in Eg as [G1%negb_false_iff G2%negb_false_iff]. apply bool_decide_eq_true in G1, G2.
    pose proof (fetch_run (λ db, db_jobs db !! ci_JobID input) t3) as H4.
    change (query_one _) with (GetJob (ci_JobID input)) in H4.
    destruct (GetJob (ci_JobID input) t3) as [[e|job'] t4]; destruct H4 as (E4 & D4 & F4); [left; simpl; congruence|].
    specialize (F4 _ eq_refl). rewrite D3, D2, D1, Hdb, F1 in F4. injection F4 as <-.
    assert (Hhub4 : tx_hub t4 = []) by congruence.
    destruct (complete_said job t4) as [Hs|(He & Hn & Hst & Hs)]; rewrite Hs, Hhub4; [by left|right].
    exists job, run. done. }
  unfold transaction. simpl. destruct (head faults) as [[e|]|]; [by left|..];
    (destruct (Hbody (mkTx env db true false (tail faults) []) eq_refl eq_refl) as [Hb|(job & run & Hb)];
     destruct (body _) as [[e|a] t']; simpl in *; [left|left|right|right];
     repeat case_match; simpl; try done; exists job, run; done).
Qed.

(** An accepted report never turns into an error after the commit. *)
Lemma reconcileWave_returns run reg t : ∃ reg' t', reconcileWave events run reg t = (inr reg', t').
Proof using Type.
  unfold reconcileWave, ReleaseWave, mbind, M_bind, attempt.
  destruct (MaybeCompleteRunIfAllReposTerminal events run t) as [[e|[]] t1]; try by eexists _, _.
  destruct reg as [reg|]; [|by eexists _, _]. destruct (IsZero _); [by eexists _, _|].
  destruct (ListRunsByWave (run_WaveID run) t1) as [r t2]. by eexists _, _.
Qed.

Lemma Complete_error_said reg env db faults e :
  (run_op (Complete events reg input) env db faults).1 = inl e →
  hub_calls (Complete events reg input) env db faults
  = tx_hub (WithJobExecution (ci_JobID input) (jsp_ResumeCount (ci_StatsPayload input))
              (complete events input) (session env db faults)).2.
Proof using Type.
  unfold run_op, hub_calls, Complete.
  destruct (WithJobExecution _ _ _ _) as [r t] eqn:E. erewrite bind_run by (unfold attempt; by rewrite E).
  destruct r as [e'|[run|]]; simpl.
  - intros _. by destruct (errors_Is e' ErrJobExecutionStale), (errors_Is e' ErrNoRows).
  - by destruct (reconcileWave_returns run reg t) as (reg' & t' & ->).
  - done.
Qed.

End Publishing.
