(* ===== verification/ClaimService.v ===== *)
(** * The claim service keeps the database well formed

    Claims, reads and, when the payload cannot be built, the completion or the
    release of the claimed job, each outside a transaction and each able to fail. *)

From stdpp Require Import base gmap sets list sorting strings.
From S2P Require Import Prelude GoStrings Types Json JobMeta Hydra Db Tx Queries JobChain.
From S2P Require Import Lifecycle Tokens Store Config ClaimSpec Recovery Completion Claim Chains.
From S2P Require Import Claim Invariant ClaimSafety CancelSafety LaunchSafety.
From S2P Require Import RestartSafety WaveStatus CompletionSafety CompletionOutcome.
From S2P Require Import CompletionService.
From Stdlib Require Import ZArith Lia.
Local Open Scope list_scope.

Section ClaimService.
Context `{Collation} `{GoFmt} (env : Env).
Context {P : Type} (build : Run → json → string → Job → M (PayloadError + P)).

(** The payload builder only reads. *)
Definition reads_only : Prop := ∀ run spec url job (I : DB → Prop),
  triple false env I (build run spec url job) (λ _, I) (λ _, I).

Definition good (db : DB) : Prop := wf db ∧ countable_runs db ∧ waiting_unlocked env db.

Lemma ClaimJob_good nodeID : triple false env good (ClaimJob nodeID) (λ _, good) (λ _, good).
Proof using Type.
  apply triple_conj; [apply ClaimJob_triple|].
  unfold ClaimJob. destruct (IsZero nodeID); [by apply triple_throw|].
  apply triple_query_one; [| |auto].
  - intros db j' db' [Hs Hw]. destruct (db_nodes db !! nodeID) as [nd|]; [|done].
    destruct (claim_candidates _ _ _) as [|j l]; [done|]. intros [= <- <-]. split; [done|].
    intros i x. simpl. destruct (decide (i = job_ID j)) as [->|Hne].
    + rewrite lookup_insert_eq. by intros [= <-].
    + rewrite lookup_insert_ne by done. apply Hw.
  - intros db db' Hg. destruct (db_nodes db !! nodeID); [|by intros [= <-]].
    by destruct (claim_candidates _ _ _); [intros [= <-]|].
Qed.

Lemma Complete_wf_triple events reg input :
  terminal_request_status (ci_Status input) = true →
  triple false env good (Complete events reg input) (λ _, wf) (λ _, good).
Proof using Type.
  intros Ht. apply triple_pre.
  { apply Complete_behaved. }
  intros db0 (Hwf & Hs & Hw).
  eapply triple_conseq; [apply (Complete_triple env db0 Hwf Hs input Ht Hw events reg)|done| |].
  - intros ? db (job & run & ro & db1 & Hj & Hr & _ & Hpost & Hdb).
    destruct (completion_post_wf env db0 Hwf Hs input Ht _ _ _ _ Hj Hr Hpost) as [Hwf1 _].
    destruct Hdb as [-> |(r' & _ & Hover & ->)]; [done|by apply finish_wave_wf].
  - intros ? db ->. done.
Qed.

Lemma UnclaimJob_wf id nodeID I :
  (∀ db, I db → wf db) → triple false env I (UnclaimJob id nodeID) (λ _, wf) (λ _, wf).
Proof using Type. intros HI. by eapply triple_conseq; [apply UnclaimJob_triple|..]. Qed.

Lemma Claim_triple nodeID :
  reads_only → triple false env good (Claim build nodeID) (λ _, wf) (λ _, wf).
Proof using Type.
  intros Hbuild. assert (Hgw : ∀ db, good db → wf db) by (by intros db []).
  unfold Claim. eapply triple_bind; [apply triple_attempt_inv, triple_get|]. intros [e|nd]; [by apply triple_ret|].
  eapply triple_bind; [apply triple_attempt_inv, ClaimJob_good|]. intros [e|job]; [by apply triple_ret|].
  eapply triple_bind; [apply triple_attempt_inv, triple_get|]. intros [e|run]; [by apply triple_ret|].
  eapply triple_bind; [apply triple_attempt_inv; unfold repoURLForID; eapply triple_bind;
    [apply triple_wrap, triple_get|intros ?; by apply triple_ret]|]. intros [e|url]; [by apply triple_ret|].
  eapply triple_bind; [apply triple_attempt_inv, triple_get|]. intros [e|spec]; [by apply triple_ret|].
  eapply triple_bind.
  { eapply triple_conseq; [apply (Hbuild run (sp_Spec spec) url job good)|done|intros a db HQ; exact HQ|auto]. }
  intros [e|payload]; [|by apply triple_ret]. unfold abandon_claim.
  set (Mid := λ (b : bool) db, wf db).
  eapply triple_bind with (Q := Mid).
  - destruct (pe_terminal e); [|by apply triple_ret].
    eapply triple_bind; [apply triple_attempt, Complete_wf_triple; done|].
    intros [e'|?]; apply triple_ret; unfold Mid; auto.
  - intros []; [by apply triple_ret|].
    eapply triple_bind with (Q := λ _, wf); [|intros ?; by apply triple_ret].
    apply triple_attempt_inv. by apply UnclaimJob_wf.
Qed.

End ClaimService.

(** * Claims with their payload

    The claim service with its payload builder: the builder only reads, so the
    service keeps the database well formed ([reads_only]); what a node receives is
    the job it now runs; and a job whose payload cannot be built is given back. *)

Section Response.
Context `{Collation} `{GoFmt} `{GoFloat} `{MapOrder} (env : Env) (config : option ConfigHolder).

Abbreviation build := (buildJobClaimPayload config).

Lemma build_reads_only : reads_only env build.
Proof.
  intros run spec url job I. unfold buildJobClaimPayload.
  destruct (mutateClaimSpec _); [by apply triple_ret|].
  eapply triple_bind with (Q := λ _, I); [|intros s; by apply triple_ret].
  apply triple_attempt_inv. unfold resolveClaimDetectedStack.
  eapply triple_bind with (Q := λ _, I); [apply triple_query; auto|]. intros l. by apply triple_ret.
Qed.

(** A job just claimed by a node. *)
Definition claimed_by (nodeID : string) (job : Job) (db : DB) : Prop :=
  wf db ∧ db_jobs db !! job_ID job = Some job ∧ job_Status job = JobStatusRunning ∧
  job_NodeID job = Some nodeID.

Lemma ClaimJob_claimed nodeID :
  triple false env wf (ClaimJob nodeID) (λ job, claimed_by nodeID job) (λ _, wf).
Proof.
  eapply triple_conseq.
  - apply (triple_conj _ _ _ wf wf _ (λ job db, db_jobs db !! job_ID job = Some job ∧
      job_Status job = JobStatusRunning ∧ job_NodeID job = Some nodeID) _ (λ _ _, True)
      (ClaimJob_triple env nodeID)).
    unfold ClaimJob. destruct (IsZero nodeID); [by apply triple_throw|].
    apply triple_query_one; [|done|done]. intros db j' db' Hwf.
    destruct (db_nodes db !! nodeID) as [n|] eqn:En; [|done].
    destruct (claim_candidates _ _ _) as [|j l]; [done|]. intros [= <- <-]. simpl.
    rewrite lookup_insert_eq. by rewrite (wf_node_key _ Hwf _ _ En).
  - intros db ?. by split.
  - intros job db [Hwf (? & ? & ?)]. by split_and!.
  - by intros e db [? _].
Qed.

(** The payload of a claimed job: built from the rows as they are. *)
Definition response_ok (nodeID : string) (p : NodeClaimResponse) (db : DB) : Prop :=
  ∃ job run repo spec c k merged,
    claimed_by nodeID job db ∧ db_runs db !! job_RunID job = Some run ∧
    db_repos db !! job_RepoID job = Some repo ∧ db_specs db !! run_SpecID run = Some spec ∧
    mutateClaimSpec (claim_input config (sp_Spec spec) job) = inr merged ∧
    chain_of (db_jobs db) (job_RunID job) (job_Attempt job) c ∧ c !! k = Some job ∧
    p = claim_response run merged (repo_Url repo) job (nearest_stack c k).

Lemma build_response nodeID run spec repo job (I : DB → Prop) :
  (∀ db, I db → claimed_by nodeID job db ∧ db_runs db !! job_RunID job = Some run ∧
     db_repos db !! job_RepoID job = Some repo ∧ db_specs db !! run_SpecID run = Some spec) →
  triple false env I (build run (sp_Spec spec) (repo_Url repo) job)
    (λ r db, match r with inr p => response_ok nodeID p db | inl e => pe_terminal e = false end) (λ _ _, True).
Proof.
  intros HI. unfold buildJobClaimPayload. destruct (mutateClaimSpec _) as [e|merged] eqn:Em; [by apply triple_ret|].
  eapply triple_bind with (Q := λ s db, match s with
    | inr s => I db ∧ s = resolveDetectedStackExpectationFromJobs (job_ID job)
                 (attempt_jobs db (job_RunID job) (job_Attempt job))
    | inl _ => True end).
  - apply (triple_attempt _ _ _ I (λ s db, I db ∧ s = resolveDetectedStackExpectationFromJobs (job_ID job)
             (attempt_jobs db (job_RunID job) (job_Attempt job))) (λ _ _, True)).
    unfold resolveClaimDetectedStack.
    eapply triple_bind with (Q := λ l db, I db ∧ l = attempt_jobs db (job_RunID job) (job_Attempt job)).
    + apply triple_query; auto.
    + intros l. apply triple_ret. by intros db [? ->].
  - intros [e|s]; [by apply triple_ret|]. apply triple_ret. intros db [Hi ->].
    destruct (HI db Hi) as (Hcl & Hrun & Hrepo & Hspec). pose proof Hcl as (Hwf & Hjob & _ & _).
    destruct (wf_job_chain _ Hwf _ _ Hjob) as (r & c & k & _ & Hc & _ & Hk).
    exists job, run, repo, spec, c, k, merged. split_and!; [done..|]. f_equal.
    eapply resolve_in_chain; [apply (wf_keyed _ Hwf)|exact Hc| |exact Hk].
    eapply attempt_jobs_perm; [apply (wf_keyed _ Hwf)|exact Hc|done].
Qed.

(** Whatever statements fail, a payload that reaches the node is that of a job the
    node now runs. *)
Lemma Claim_response nodeID :
  triple false env wf (Claim build nodeID)
    (λ r db, match r with ClaimPayload p => response_ok nodeID p db | _ => True end) (λ _ _, True).
Proof.
  unfold Claim. eapply triple_bind; [apply triple_attempt_inv, triple_get|]. intros [e|nd]; [apply triple_ret; intros; by destruct (errors_Is _ _)|].
  eapply triple_bind; [apply triple_attempt, ClaimJob_claimed|]. intros [e|job]; [apply triple_ret; intros; by destruct (errors_Is _ _)|].
  eapply triple_bind; [apply triple_attempt, triple_fetch|]. intros [e|run]; [by apply triple_ret|].
  eapply triple_bind with (Q := λ u db, match u with
    | inr url => claimed_by nodeID job db ∧ db_runs db !! job_RunID job = Some run ∧
        ∃ repo, db_repos db !! job_RepoID job = Some repo ∧ url = repo_Url repo
    | inl _ => True end).
  { apply (triple_attempt _ _ _ _ (λ url db, claimed_by nodeID job db ∧ db_runs db !! job_RunID job = Some run ∧
        ∃ repo, db_repos db !! job_RepoID job = Some repo ∧ url = repo_Url repo) (λ _ _, True)).
    unfold repoURLForID. eapply triple_bind.
    { apply triple_wrap. eapply triple_conseq; [apply (triple_fetch false env (λ db, db_repos db !! job_RepoID job)
        (λ db, claimed_by nodeID job db ∧ db_runs db !! job_RunID job = Some run))|auto|intros ?? HQ; exact HQ|auto]. }
    intros repo. apply triple_ret. intros db [[? ?] ?]. eauto 6. }
  intros [e|url]; [by apply triple_ret|].
  eapply triple_bind; [apply triple_attempt, triple_fetch|]. intros [e|spec]; [by apply triple_ret|].
  eapply triple_bind with (Q := λ r db, match r with inr p => response_ok nodeID p db | inl e => pe_terminal e = false end).
  - apply triple_pre; [exact (triple_behaved _ _ _ _ _ _ (build_reads_only run (sp_Spec spec) url job wf))|].
    intros db0 [(Hcl & Hrun & repo & Hrepo & ->) Hspec]. apply build_response. by intros db ->.
  - intros [e|p]; [|by apply triple_ret]. unfold abandon_claim.
    eapply triple_bind with (Q := λ _ _, True).
    { apply triple_true. destruct (pe_terminal e); [|apply behaved_ret].
      apply behaved_bind; [apply behaved_attempt, Complete_behaved|intros; apply behaved_ret]. }
    intros []; [by apply triple_ret|].
    eapply triple_bind with (Q := λ _ _, True); [|intros; by apply triple_ret].
    apply triple_true, behaved_attempt. eapply triple_behaved, UnclaimJob_triple.
Qed.

(** A job whose spec cannot be merged is given back as it was found. *)
Lemma Claim_unbuildable db nodeID node job run repo spec err :
  wf db → IsZero nodeID = false → db_nodes db !! nodeID = Some node →
  head (claim_candidates (env_locked env) db node) = Some job → job_NodeID job = None →
  db_runs db !! job_RunID job = Some run → sql_resume_count (run_Stats run) = Some 0%Z →
  db_repos db !! job_RepoID job = Some repo → db_specs db !! run_SpecID run = Some spec →
  mutateClaimSpec (claim_input config (sp_Spec spec) job) = inl err →
  total env (λ d, d = db) (Claim build nodeID)
    (λ r d, r = claimInternalError "failed to build claim response" ∧ d = db).
Proof.
  intros Hwf Hz Hn Hh Hfree Hr Hrc Hrepo Hspec Hm.
  set (j' := claim_row (node_ID node) (env_now env) job).
  set (db1 := set_db_jobs (<[job_ID job := j']> (db_jobs db)) db).
  assert (Hclaim : total env (λ d, d = db) (ClaimJob nodeID) (λ j d, j = j' ∧ d = db1)).
  { unfold ClaimJob. rewrite Hz. apply total_query_one. intros d ->. rewrite Hn.
    destruct (claim_candidates _ _ _); [done|]. injection Hh as ->. eauto. }
  destruct (total_run_op env _ _ _ db Hclaim eq_refl) as (? & ? & Hcl & -> & ->).
  assert (Hjob : db_jobs db !! job_ID job = Some job).
  { assert (Hin : job ∈ claim_candidates (env_locked env) db node)
      by (destruct (claim_candidates _ _ _); [done|injection Hh as ->; left]).
    apply claim_candidates_spec in Hin as (_ & _ & i & Hi). by destruct (wf_keyed _ Hwf _ _ Hi) as [-> _]. }
  assert (Hun : total env (λ d, d = db1) (UnclaimJob (job_ID j') nodeID) (λ _ d, d = db)).
  { eapply claim_unclaim_total; [exact Hwf|exact Hcl|..]; intros x Hx; simpl in Hx; congruence. }
  unfold Claim. eapply total_then; [by apply total_attempt_eq, total_get|].
  eapply total_then; [by apply total_attempt_eq, Hclaim|].
  eapply total_then; [by apply total_attempt_eq, total_get|].
  eapply total_then with (x := inr (repo_Url repo)) (Q := λ d, d = db1).
  { apply total_attempt_eq. unfold repoURLForID. eapply total_then; [by apply total_wrap, total_get|].
    by apply total_ret. }
  eapply total_then; [by apply total_attempt_eq, total_get|].
  eapply total_then with (x := inl (build_error "merge spec")) (Q := λ d, d = db1).
  { unfold buildJobClaimPayload. change (claim_input config (sp_Spec spec) j') with (claim_input config (sp_Spec spec) job).
    rewrite Hm. by apply total_ret. }
  unfold abandon_claim. simpl.
  eapply total_then with (x := false) (Q := λ d, d = db1); [by apply total_ret|].
  eapply total_bind with (Q := λ _ d, d = db); [|intros _; by apply total_ret].
  eapply total_conseq; [apply total_attempt, Hun|done|]. by intros r d (? & _ & ->).
Qed.

End Response.
