(* ===== verification/HandlerSafety.v ===== *)
(** * What the cancel and restart handlers do

    The handlers keep the database well formed whatever fails, and a cancelled run
    is cancelled with its jobs and its token. A restart that is refused because the
    run is active still takes the token of that run away. *)

From stdpp Require Import base gmap sets list sorting strings.
From S2P Require Import Prelude GoStrings Types Json JobMeta Db Tx Queries JobChain Lifecycle.
From S2P Require Import Spec Tokens Store Plan Recovery Handlers Chains Invariant CancelSafety.
From S2P Require Import LaunchSafety RestartSafety WaveStatus.
From Stdlib Require Import ZArith Lia.

Section Safety.
Context `{Collation} (env : Env).

Lemma ReleaseWave_wf waveID reg :
  triple false env wf (ReleaseWave waveID reg) (λ _, wf) (λ _, wf).
Proof using Type.
  unfold ReleaseWave. destruct reg; [|by apply triple_ret]. destruct (IsZero _); [by apply triple_ret|].
  eapply triple_bind; [apply triple_attempt_inv, triple_query; auto|]. intros ?. by apply triple_ret.
Qed.

Lemma getRunOrFail_wf runID : triple false env wf (getRunOrFail runID) (λ _, wf) (λ _, wf).
Proof using Type.
  unfold getRunOrFail. eapply triple_bind; [apply triple_attempt_inv, triple_get|]. intros ?.
  by apply triple_ret.
Qed.

Lemma cancelRunHandler_wf registry runID :
  triple false env wf (cancelRunHandlerV1 registry runID) (λ _, wf) (λ _, wf).
Proof using Type.
  unfold cancelRunHandlerV1. eapply triple_bind; [apply getRunOrFail_wf|].
  intros [code|run]; [by apply triple_ret|]. destruct (negb _); [|by apply triple_ret].
  eapply triple_bind; [apply triple_attempt_inv, CancelRun_triple|]. intros [e|?]; [by apply triple_ret|].
  eapply triple_bind; [apply triple_attempt_inv, triple_get|]. intros [e|?]; by apply triple_ret.
Qed.

Lemma cancelWaveHandler_wf registry waveID :
  triple false env wf (cancelWaveHandler registry waveID) (λ _, wf) (λ _, wf).
Proof using Type.
  unfold cancelWaveHandler. eapply triple_bind; [apply triple_attempt_inv, CancelWave_triple|].
  intros [e|?]; [by apply triple_ret|]. eapply triple_bind; [apply ReleaseWave_wf|]. intros ?.
  eapply triple_bind; [apply triple_attempt_inv, triple_get|]. intros [e|?]; by apply triple_ret.
Qed.

Section Restart.
Context `{GoFmt} `{SpecLib} (Hash : string → string) (configuredHost : string).
Context (schemeAndHost : string → string * string) (EqualFold : string → string → bool).
Context (gen : nat → string) (Hgen : ∀ k, IsZero (gen k) = false).

Notation handler := (restartRunHandler Hash configuredHost schemeAndHost EqualFold gen).

Lemma restartRunHandler_wf registry runID req :
  triple false env wf (handler registry runID req) (λ _, wf) (λ _, wf).
Proof using Hgen.
  unfold restartRunHandler. eapply triple_bind; [apply getRunOrFail_wf|].
  intros [code|run]; [by apply triple_ret|].
  eapply triple_bind with (Q := λ _, wf).
  { unfold validateRestartGitLabTokenRequest. destruct (rrq_GitLabToken req); [|by apply triple_ret].
    eapply triple_bind; [apply triple_attempt_inv, triple_get|]. intros [e|?]; by apply triple_ret. }
  intros [code|[hash token]]; [by apply triple_ret|].
  eapply triple_bind; [apply triple_attempt_inv, triple_get|]. intros [e|spec]; [by apply triple_ret|].
  destruct (planJobsFromSpec (sp_Spec spec)); [|by apply triple_ret].
  destruct (register_restart _ _ _ _) as [[stats reg]|]; [|by apply triple_ret].
  eapply triple_bind; [apply triple_attempt_inv, RestartRun_triple, Hgen|].
  intros [e|run']; by apply triple_ret.
Qed.

End Restart.

(** ** Exact behaviour without faults *)

Lemma CancelRun_total db0 runID run :
  wf db0 → db_runs db0 !! runID = Some run →
  total env (λ db, db = db0) (CancelRun runID) (λ _ db, db = cancel_run_db runID (env_now env) db0).
Proof using Type.
  intros Hwf Hrun. unfold CancelRun.
  eapply total_conseq; [eapply total_transaction_triple; [|apply (CancelRun_exact env db0)]|done|].
  - unfold CancelRun_body. eapply total_bind with (Q := λ _ _, True).
    { apply total_wrap, total_query_one. intros db ->. rewrite Hrun. by eexists _, _. }
    intros r. eapply total_bind with (Q := λ _ _, True).
    { apply total_when; [|done]. intros _. apply total_wrap. by apply total_exec. }
    intros ?. eapply total_bind with (Q := λ _ _, True); [|intros ?; by apply total_ret].
    apply total_wrap, total_stmt. intros db _. by eexists _, _.
  - intros ??. apply (wf_run_key _ Hwf).
  - by intros ? db [_ ->].
Qed.

(** Cancelling an active run: 200, the run and its jobs cancelled, its token released. *)
Lemma cancelRunHandler_total db0 registry runID run :
  wf db0 → db_runs db0 !! runID = Some run → run_Status run = RunStatusRunning →
  total env (λ db, db = db0) (cancelRunHandlerV1 registry runID)
    (λ rsp db, db = cancel_run_db runID (env_now env) db0 ∧
       ∃ run', db_runs db !! runID = Some run' ∧ run_Status run' = RunStatusCancelled ∧
         rsp = mkResponse 200 (Some run') (ReleaseRunsNil [runID] registry)).
Proof using Type.
  intros Hwf Hrun Hst. unfold cancelRunHandlerV1, getRunOrFail.
  assert (Hget : ∀ db1, total env (λ db, db = db1 ∧ is_Some (db_runs db1 !! runID)) (GetRun runID)
    (λ r db, db = db1 ∧ db_runs db1 !! runID = Some r)).
  { intros db1. apply total_query_one. intros db [-> [r Hr]]. rewrite Hr. by eexists _, _. }
  eapply total_bind with (Q := λ g db, g = inr run ∧ db = db0).
  { eapply total_bind; [eapply total_conseq; [apply total_attempt, (Hget db0)|intros db ->; eauto|intros ?? HQ; exact HQ]|].
    intros r. apply total_exists. intros r'. apply total_pure. intros ->.
    apply total_ret. intros db [-> E]. rewrite Hrun in E. by injection E as ->. }
  intros g. apply total_pure. intros ->. rewrite Hst. simpl.
  eapply total_bind; [apply total_attempt, (CancelRun_total db0 runID run Hwf Hrun)|].
  intros c. apply total_exists. intros []. apply total_pure. intros ->.
  set (run' := run_status_row RunStatusCancelled (env_now env) run).
  assert (Hrun' : db_runs (cancel_run_db runID (env_now env) db0) !! runID = Some run').
  { simpl. rewrite lookup_fmap, Hrun. simpl. unfold cancels_run.
    rewrite (wf_run_key _ Hwf _ _ Hrun), Hst, bool_decide_eq_true_2 by done. done. }
  eapply total_bind; [eapply total_conseq; [apply total_attempt, (Hget (cancel_run_db runID (env_now env) db0))|
    intros db ->; eauto|intros ?? HQ; exact HQ]|].
  intros r. apply total_exists. intros r'. apply total_pure. intros ->.
  apply total_ret. intros db [-> E]. rewrite Hrun' in E. injection E as <-. eauto.
Qed.

(** A restart of an active run is refused with 409 and changes no row, but the
    token the run was registered with is gone from the registry. *)
Lemma restart_active_drops_token `{GoFmt} `{SpecLib} Hash host schemeAndHost EqualFold gen
    db0 reg runID run repo spec plans token hash tok stats fromFailed :
  wf db0 → db_runs db0 !! runID = Some run → run_Status run = RunStatusRunning →
  registry_ok reg → IsZero runID = false →
  db_repos db0 !! run_RepoID run = Some repo → db_specs db0 !! run_SpecID run = Some spec →
  planJobsFromSpec (sp_Spec spec) = Some plans →
  validateGitLabTokenRequestForRepos Hash host schemeAndHost EqualFold (Some token) [repo_Url repo]
    = Some (hash, tok) →
  trim_space hash ≠ "" → RunStatsWithMarker hash = Some stats →
  ∃ reg', run_op (restartRunHandler Hash host schemeAndHost EqualFold gen (Some reg) runID
                    (mkRunRestartRequest fromFailed (Some token))) env db0 []
          = (inr (mkResponse 409 None (Some reg')), db0) ∧
          rg_runHash reg' !! runID = None.
Proof using Type.
  intros Hwf Hrun Hst Hreg Hz Hrepo Hspec Hplan Hval Hblank Hstats.
  assert (Htok : trim_space tok ≠ "").
  { unfold validateGitLabTokenRequestForRepos, validateGitLabTokenRequest, ValidateRequest in Hval.
    destruct (decide (trim_space token = "")) as [|Hne]; [done|].
    assert (tok = trim_space token) as ->.
    { destruct (decide (Hash (trim_space token) = "")); [congruence|].
      destruct (decide (host = "")); [done|]. destruct (forallb _ _); congruence. }
    by rewrite trim_space_idem. }
  assert (Hne : hash ≠ "") by (by intros ->).
  exists (ReleaseRuns [runID] (Register hash tok [runID] reg)). split.
  - unfold run_op, session, restartRunHandler, getRunOrFail, validateRestartGitLabTokenRequest.
    unfold mbind, M_bind, attempt, mret, M_ret, GetRun, GetRepo, GetSpec, query_one, stmt, of_option,
      mbind, M_bind, mret, M_ret; simpl. rewrite Hrun. simpl. rewrite Hrepo. simpl. rewrite Hval. simpl.
    rewrite Hspec. simpl. rewrite Hplan. unfold register_restart. rewrite decide_False by done.
    rewrite Hstats. simpl. unfold RestartRun. simpl.
    assert (Hjson : validateJSONB stats = true).
    { unfold RunStatsWithMarker in Hstats. repeat case_match; simplify_eq; done. }
    rewrite Hjson. simpl. unfold transaction, RestartRun_body, GetRunForUpdate, GetRun, wrap, query_one,
      stmt, of_option, mbind, M_bind, mret, M_ret, throw; simpl. rewrite Hrun. simpl.
    rewrite Hst, !orb_true_r. simpl. by rewrite decide_False.
  - rewrite ReleaseRuns_runHash; [by rewrite decide_True by left|].
    apply (Register_ok _ _ _ _ Hreg Hblank Htok runID); [left|done].
Qed.

End Safety.
