(* ===== verification/Machine.v ===== *)
(** * The control plane as a state machine

    A step is one operation of the server, run against the database with whatever
    statements failing. What an operation promises to the machine is the class
    [Preserving]; the instances are discharged by the operations' own files, and
    reachable databases are well formed by induction on the steps. *)

From stdpp Require Import base gmap sets list sorting relations strings.
From S2P Require Import Prelude GoStrings Types Json JobMeta Hydra Spec Db Tx Queries JobChain.
From S2P Require Import Lifecycle Tokens Store Plan Config Auth ClaimSpec Recovery.
From S2P Require Import Projects Handlers Submit Completion Claim Chains Frame.
From S2P Require Import Invariant ClaimSafety CancelSafety LaunchSafety ProjectSafety.
From S2P Require Import RestartSafety AuthSafety WaveStatus RecoverySafety.
From S2P Require Import CompletionSafety CompletionOutcome CompletionService.
From S2P Require Import ClaimService HandlerSafety.
From Stdlib Require Import ZArith Lia.
Local Open Scope list_scope.

(** ** What an operation promises *)

(** Where [guard] holds, the operation keeps the invariant, whatever it returns
    and whatever fails on the way. *)
Class Preserving {A} (guard : Env → DB → Prop) (op : M A) : Prop :=
  preserving : ∀ env, triple false env (λ db, wf db ∧ guard env db) op (λ _, wf) (λ _, wf).

Definition always (env : Env) (db : DB) : Prop := True.

(** Fewer than 2^31 runs, and no concurrent transaction on a waiting job's row. *)
Definition quiet (env : Env) (db : DB) : Prop := countable_runs db ∧ waiting_unlocked env db.

Lemma preserving_step {A} guard (op : M A) `{!Preserving guard op} env db faults r db' :
  wf db → guard env db → run_op op env db faults = (r, db') → wf db'.
Proof.
  intros Hwf Hg E. pose proof (triple_run_op env _ op _ _ db faults r db' (preserving env) (conj Hwf Hg) E) as HQ.
  by destruct r.
Qed.

Lemma preserving_always {A} (op : M A) :
  (∀ env, triple false env wf op (λ _, wf) (λ _, wf)) → Preserving always op.
Proof. intros Hop env. eapply triple_conseq; [apply Hop|by intros db []|done|done]. Qed.

Section Machine.
Context `{Collation} `{GoFmt}.

(** Identifiers drawn by the server are not blank. *)
Class FreshIds (gen : nat → string) : Prop := fresh_ids : ∀ k, IsZero (gen k) = false.

#[export] Instance launch_preserving gen wave plans :
  FreshIds gen → Preserving always (CreateWaveWithRuns gen wave plans).
Proof. intros Hgen. apply preserving_always. intros env. by apply CreateWaveWithRuns_triple. Qed.

#[export] Instance cancel_run_preserving reg id : Preserving always (cancelRunHandlerV1 reg id).
Proof. apply preserving_always. intros env. apply cancelRunHandler_wf. Qed.

#[export] Instance cancel_wave_preserving reg id : Preserving always (cancelWaveHandler reg id).
Proof. apply preserving_always. intros env. apply cancelWaveHandler_wf. Qed.

#[export] Instance restart_preserving `{SpecLib} Hash host sh ef gen reg id req :
  FreshIds gen → Preserving always (restartRunHandler Hash host sh ef gen reg id req).
Proof. intros Hgen. apply preserving_always. intros env. by apply restartRunHandler_wf. Qed.

#[export] Instance enroll_preserving a : Preserving always (CompleteBootstrapEnrollment a).
Proof. apply preserving_always. intros env. apply Enroll_wf_triple. Qed.

(** A payload builder that only reads, in every environment. *)
Class Reader {P} (build : Run → json → string → Job → M (PayloadError + P)) : Prop :=
  reader : ∀ env, reads_only env build.

#[export] Instance claim_preserving {P} (build : Run → json → string → Job → M (PayloadError + P)) nodeID :
  Reader build → Preserving quiet (Claim build nodeID).
Proof.
  intros Hb env. eapply triple_conseq; [by apply Claim_triple|by intros db (? & ? & ?)|done|done].
Qed.

#[export] Instance complete_preserving events reg jobID header req :
  Preserving quiet (completeJobHandler events reg jobID header req).
Proof.
  intros env. unfold completeJobHandler.
  destruct (validateCompletionRequest jobID header req) as [e|input] eqn:Ev;
    [apply triple_ret; by intros db []|].
  destruct (validate_valid _ _ _ _ Ev) as (_ & _ & [Hst _ _]).
  eapply triple_bind with (Q := λ _, wf); [|intros [e|?]; by apply triple_ret].
  eapply triple_conseq; [apply triple_attempt, (Complete_wf_triple env events reg input Hst)|
    by intros db (? & ? & ?)| |intros e db HE; exact HE].
  intros [e|?] db; [by intros []|done].
Qed.

(** ** Steps *)

Inductive step (db db' : DB) : Prop :=
| step_launch env faults gen wave plans r :
    FreshIds gen → run_op (CreateWaveWithRuns gen wave plans) env db faults = (r, db') → step db db'
| step_claim env faults P (build : Run → json → string → Job → M (PayloadError + P)) nodeID r :
    Reader build → quiet env db → run_op (Claim build nodeID) env db faults = (r, db') → step db db'
| step_complete env faults events reg jobID header req r :
    quiet env db → run_op (completeJobHandler events reg jobID header req) env db faults = (r, db') →
    step db db'
| step_cancel_run env faults reg runID r :
    run_op (cancelRunHandlerV1 reg runID) env db faults = (r, db') → step db db'
| step_cancel_wave env faults reg waveID r :
    run_op (cancelWaveHandler reg waveID) env db faults = (r, db') → step db db'
| step_restart `{SpecLib} env faults Hash host sh ef gen reg runID req r :
    FreshIds gen →
    run_op (restartRunHandler Hash host sh ef gen reg runID req) env db faults = (r, db') →
    step db db'
| step_enroll env faults a r :
    run_op (CompleteBootstrapEnrollment a) env db faults = (r, db') → step db db'
(** A recovery cycle, whichever of its statements fail, unless it logs that a run
    could not be reconciled after its jobs had been cancelled: that run is stranded
    ([recovery_fault_strands_run]). *)
| step_recover env faults t reg c :
    countable_runs db → run_op (StaleJobRecoveryTask_Run t reg) env db faults = (inr c, db') →
    cy_unreconciled c = [] → step db db'.

(** The step at hand is an operation with an instance. *)
Ltac preserved guard :=
  match goal with
  | E : run_op ?op ?env ?db ?f = (?r, ?db') |- wf ?db' =>
      apply (preserving_step guard op env db f r db')
  end.

Lemma step_wf db db' : wf db → step db db' → wf db'.
Proof.
  intros Hwf Hstep. destruct Hstep; [by preserved always|by preserved quiet|by preserved quiet|
    by preserved always|by preserved always|by preserved always|by preserved always|].
  match goal with Hs : countable_runs _, E : run_op _ _ _ _ = _ |- _ =>
      exact (triple_run_op env _ _ _ _ db faults _ db' (Run_triple env t reg db Hwf Hs) eq_refl E ltac:(done)) end.
Qed.

Lemma reachable_wf db db' : wf db → rtc step db db' → wf db'.
Proof. intros Hwf. induction 1; [done|]. eauto using step_wf. Qed.

End Machine.

(** ** What the invariant gives *)

(** In a running run exactly one job of the current attempt is queued or running. *)
Lemma wf_one_current db i r :
  wf db → db_runs db !! i = Some r → run_Status r = RunStatusRunning →
  ∃ j, db_jobs db !! job_ID j = Some j ∧ job_RunID j = i ∧ job_Attempt j = run_Attempt r ∧
    (job_Status j = JobStatusQueued ∨ job_Status j = JobStatusRunning) ∧
    ∀ k j', db_jobs db !! k = Some j' → job_RunID j' = i →
      (job_Status j' = JobStatusQueued ∨ job_Status j' = JobStatusRunning) → j' = j.
Proof.
  intros Hwf Hr Hs. pose proof (ro_attempt _ _ (wf_run _ Hwf _ _ Hr)) as Hpos.
  destruct (wf_attempt _ Hwf _ _ (run_Attempt r) Hr) as (c & Hc & Hok); [lia|].
  assert (Hl : live r (run_Attempt r) = true) by (unfold live; by rewrite !bool_decide_eq_true_2).
  rewrite Hl in Hok. pose proof (ao_statuses _ _ Hok) as Hst. simpl in Hst.
  apply live_split in Hst as Hsp. destruct Hsp as (pre & j & post & -> & Hpre & Hj & Hpost).
  assert (Hjc : j ∈ pre ++ j :: post) by set_solver.
  apply (ch_elem _ _ _ _ Hc) in Hjc as (Hjj & Hjr & Hja). exists j. split_and!; try done.
  intros k j' Hk Hrid Hj'.
  destruct (wf_keyed _ Hwf _ _ Hk) as [Hkid _].
  assert (Ha' : active_job (job_Status j') = true) by (by destruct Hj' as [-> | ->]).
  assert (Hrj : db_runs db !! job_RunID j' = Some r) by (by rewrite Hrid).
  destruct (active_job_live _ Hwf _ _ _ Hk Ha' Hrj) as [_ Hatt].
  assert (Hin : j' ∈ pre ++ j :: post) by (apply (ch_elem _ _ _ _ Hc); by rewrite Hkid).
  apply elem_of_app in Hin as [Hin|[-> |Hin]%elem_of_cons]; [|done|].
  - pose proof (proj1 (Forall_forall _ _) Hpre _ Hin) as E. simpl in E. destruct Hj'; congruence.
  - pose proof (proj1 (Forall_forall _ _) Hpost _ Hin) as E. simpl in E. destruct Hj'; congruence.
Qed.

(** * The server as a state machine

    [Machine] has the operations on runs; here they are joined by the endpoints on
    projects and by the submissions that start runs from them. A step is one
    operation in some session; [sound] is kept by all of them. *)

(** When an operation may run: the session, what fails, and the database. *)
Definition Guard := Env → list (option Err) → DB → Prop.

Definition any_time : Guard := λ _ _ _, True.
Definition when_quiet : Guard := λ env _ db, quiet env db.

Section Server.
Context `{Collation} `{GoFmt} `{GoFloat} `{MapOrder} `{SpecLib} `{UrlLib} `{JwtLib}.

Inductive operation : ∀ {A}, Guard → M A → Prop :=
| op_claim config nodeID : operation when_quiet (Claim (buildJobClaimPayload config) nodeID)
| op_complete ev reg jobID header req : operation when_quiet (completeJobHandler ev reg jobID header req)
| op_cancel_run reg runID : operation any_time (cancelRunHandlerV1 reg runID)
| op_cancel_wave reg waveID : operation any_time (cancelWaveHandler reg waveID)
| op_restart Hash host sh ef gen reg runID req :
    FreshIds gen → operation any_time (restartRunHandler Hash host sh ef gen reg runID req)
| op_enroll a : operation any_time (CompleteBootstrapEnrollment a)
| op_launch Hash host sh ef resolve wave run gen reg migID req :
    FreshIds gen → operation any_time (createMigRunHandler Hash host sh ef resolve wave run gen reg migID req)
| op_submit Hash host sh ef resolve run gen named mig spec mr reg caller req :
    FreshIds gen →
    operation any_time (createSingleRepoRunHandler Hash host sh ef resolve run gen named mig spec mr reg caller req)
| op_create_mig m s req : operation any_time (createMigHandler m s req)
| op_set_spec s ref req : operation any_time (setMigSpecHandler s ref req)
| op_archive ref : operation any_time (archiveMigHandler ref)
| op_unarchive ref : operation any_time (unarchiveMigHandler ref)
| op_delete_mig ref : operation any_time (deleteMigHandler ref)
| op_add_repo n m url ref : operation any_time (addMigRepoHandler n m url ref)
| op_delete_repo m i : operation any_time (deleteMigRepoHandler m i)
| op_import fuel gen m ct read : operation any_time (bulkUpsertMigReposHandler fuel gen m ct read)
| op_create_token sha256 AddDate secret id caller req :
    operation any_time (createAPITokenHandler sha256 AddDate secret id caller req)
| op_revoke_token id : operation any_time (revokeAPITokenHandler id)
| op_touch_token a id ty : operation any_time (updateTokenLastUsed a id ty)
| op_create_bootstrap sha256 secret id caller n m :
    operation any_time (createBootstrapTokenHandler sha256 secret id caller n m)
| op_bootstrap AddDate csr_name sign secret authSecret wid ca authz csr :
    operation any_time (bootstrapCertificateHandler AddDate csr_name sign secret authSecret wid ca authz csr).

Inductive server_step (db db' : DB) : Prop :=
| server_runs {A} guard (m : M A) env faults r :
    operation guard m → guard env faults db → run_op m env db faults = (r, db') → server_step db db'
(** A recovery cycle, whichever of its statements fail, that strands no run: none
    it logged as not reconciled after cancelling its jobs. *)
| server_recovers t reg env faults c :
    countable_runs db → run_op (StaleJobRecoveryTask_Run t reg) env db faults = (inr c, db') →
    cy_unreconciled c = [] → server_step db db'.

Lemma payload_kept config run spec url job : kept (buildJobClaimPayload config run spec url job).
Proof. unfold buildJobClaimPayload, resolveClaimDetectedStack, ListJobsByRunAttempt. keep_all. Qed.

Lemma step_sound {A} (m : M A) env faults r db db' :
  step db db' → kept m → run_op m env db faults = (r, db') → sound db → sound db'.
Proof.
  intros Hst Hk E [Hwf Hp]. split; [by eapply step_wf|].
  eapply stays_run_op; [by apply kept_stays|done..].
Qed.

(** The operations of projects and tokens work through a few statements. *)
Ltac by_statements :=
  first [ apply archive_stays | apply unarchive_stays | apply deleteMig_stays | apply createMig_stays
        | apply setMigSpec_stays | apply addMigRepo_stays | apply deleteMigRepo_stays | apply bulkUpsert_stays
        | apply createMigRun_stays | apply createSingleRepoRun_stays | apply createAPIToken_stays
        | apply revokeAPIToken_stays | apply updateTokenLastUsed_stays ]; try apply _; try done.

Lemma preserved_sound {A} (m : M A) env faults r db db' :
  (∀ env, triple false env wf m (λ _, wf) (λ _, wf)) → kept m → run_op m env db faults = (r, db') → sound db → sound db'.
Proof.
  intros Hm Hk E [Hwf Hp]. split; [|eapply stays_run_op; [by apply kept_stays|done..]].
  pose proof (triple_run_op env _ m _ _ db faults r db' (Hm env) Hwf E). by destruct r.
Qed.

Lemma server_step_sound db db' : sound db → server_step db db' → sound db'.
Proof.
  intros Hs [A guard m env faults r Hop Hg E|t reg env faults c Hc E Hu];
    [|eapply step_sound; [by eapply step_recover|apply recovery_kept|exact E|done]]. destruct Hop;
    try (eapply (stays_run_op sound); [|exact E|exact Hs]; by_statements; fail).
  - eapply step_sound; [|exact (Claim_kept _ nodeID (payload_kept config))|exact E|done].
    eapply step_claim; [|exact Hg|exact E]. intros env'. apply build_reads_only.
  - eapply step_sound; [by eapply step_complete|apply completeJobHandler_kept|exact E|done].
  - eapply step_sound; [by eapply step_cancel_run|apply cancelRunHandler_kept|exact E|done].
  - eapply step_sound; [by eapply step_cancel_wave|apply cancelWaveHandler_kept|exact E|done].
  - eapply step_sound; [by eapply step_restart|apply restartRunHandler_kept|exact E|done].
  - eapply step_sound; [by eapply step_enroll|apply Enrollment_kept|exact E|done].
  - eapply preserved_sound; [intros; apply createBootstrapToken_wf|apply createBootstrapToken_kept|exact E|done].
  - eapply preserved_sound; [intros; apply bootstrapCertificate_wf|apply bootstrapCertificate_kept|exact E|done].
Qed.

(** No operation of the server brings a revoked token back. *)
Lemma server_step_revoked id db db' : token_revoked id db → server_step db db' → token_revoked id db'.
Proof.
  intros Hs [A guard m env faults r Hop _ E|t reg env faults c _ E _];
    (eapply (stays_run_op (token_revoked id)); [|exact E|exact Hs]); [|apply kept_revoked, recovery_kept].
  destruct Hop; try (by_statements; fail); apply kept_revoked;
    first [exact (Claim_kept _ nodeID (payload_kept config)) | apply completeJobHandler_kept | apply cancelRunHandler_kept
          | apply cancelWaveHandler_kept | apply restartRunHandler_kept | apply Enrollment_kept
          | apply createBootstrapToken_kept | apply bootstrapCertificate_kept].
Qed.

Lemma reachable_revoked id db db' : token_revoked id db → rtc server_step db db' → token_revoked id db'.
Proof. intros Hs. induction 1; [done|]. eauto using server_step_revoked. Qed.

Lemma reachable_sound db0 db : sound db0 → rtc server_step db0 db → sound db.
Proof. intros Hs. induction 1; [done|]. eauto using server_step_sound. Qed.

End Server.
