(* ===== verification/Sample.v ===== *)
(** * A concrete scenario

    One node, one repository, a spec of one step, run by the operations themselves:
    launch, claim and completion of the first gate. The databases along the way
    are what the later examples evaluate. *)

From stdpp Require Import base gmap sets list sorting strings pretty countable.
From S2P Require Import Prelude GoStrings Types Json JobMeta Spec Db Tx Queries JobChain.
From S2P Require Import Lifecycle Tokens Store Plan Auth Recovery Handlers Completion.
From S2P Require Import Claim Chains Invariant ClaimSafety CancelSafety LaunchSafety.
From S2P Require Import RestartSafety AuthSafety WaveStatus RecoverySafety CompletionSafety.
From S2P Require Import CompletionOutcome CompletionService ClaimService.
From S2P Require Import HandlerSafety Machine.
From Stdlib Require Import ZArith Lia Ascii.
Local Open Scope list_scope.

Definition sha_a : string := "aaaaaaaaaaaaaaaaaaaaaaaaaaaaaaaaaaaaaaaa".
Definition sha_b : string := "bbbbbbbbbbbbbbbbbbbbbbbbbbbbbbbbbbbbbbbb".

Definition env_at (now : Z) : Env := mkEnv now "t" now ∅.

(** A node with an open slot that has been heard of at time 0. *)
Definition a_node (id ip : string) : Node :=
  let n := new_node (mkCreateNodeParams id ("node-" +:+ id) ip None 1) 0 in
  {| node_ID := node_ID n; node_Name := node_Name n; node_IpAddress := node_IpAddress n;
     node_Version := None; node_Concurrency := 1; node_CpuTotalMillis := 0;
     node_CpuFreeMillis := 0; node_MemTotalBytes := 0; node_MemFreeBytes := 0;
     node_DiskTotalBytes := 0; node_DiskFreeBytes := 0; node_Drained := false;
     node_DrainRevision := 0; node_CertSerial := None; node_CertFingerprint := None;
     node_CertNotBefore := None; node_CertNotAfter := None; node_LastHeartbeat := Some 0%Z;
     node_CreatedAt := 0 |}.

Definition a_repo : Repo := mkRepo "repo1" "https://gitlab.example/x.git" 0.

Definition a_token : BootstrapToken := mkBootstrapToken "hash1" "tok1" (Some "n9") 0 None None None None None.

(** A library that accepts every document and identifier, and a spec of one step. *)
#[export] Instance a_lib : SpecLib := { schema_valid := λ _, true; ksuid_valid := λ _, true }.

Definition a_spec : json := JObj [("steps", JArr [JObj [("name", JStr "step"); ("image", JStr "img")]])].

Definition a_row : SpecRow := mkSpecRow "spec1" "" "" jempty "" None a_spec None 0.
Definition a_mig : Mig := mkMig "mig1" "m" (Some "spec1") None 0 None.

(** Before anything runs. *)
Definition seed : DB :=
  mkDB (<["n1" := a_node "n1" "10.0.0.1"]> (<["n2" := a_node "n2" "10.0.0.2"]> ∅))
    (<["repo1" := a_repo]> (<["repo2" := mkRepo "repo2" "https://gitlab.example/y.git" 0]> ∅))
    (<["spec1" := a_row]> ∅) (<["mig1" := a_mig]> ∅)
    (<["mr1" := mkMigRepo "mr1" "mig1" "repo1" "main" 0]> (<["mr2" := mkMigRepo "mr2" "mig1" "repo2" "main" 0]> ∅))
    ∅ ∅ ∅ [] [] ∅ (<["tok1" := a_token]> ∅) ∅.

Definition a_gen (k : nat) : string :=
  match k with
  | 0 => "job0" | 1 => "job1" | 2 => "job2" | 3 => "job3" | 4 => "job4" | 5 => "job5" | _ => "jobx"
  end.

Definition a_wave : CreateWaveParams := mkCreateWaveParams "wave1" "mig1" "spec1" None.
Definition a_plan : RunPlan :=
  mkRunPlan "run1" "repo1" "main" sha_a sha_a RawEmpty (default [] (planJobsFromSpec a_spec)).

Definition a_plan2 : RunPlan :=
  mkRunPlan "run2" "repo2" "main" sha_a sha_a RawEmpty (default [] (planJobsFromSpec a_spec)).

Definition after {A} (m : M A) (now : Z) (db : DB) : DB := (run_op m (env_at now) db []).2.

Definition launched : DB := after (CreateWaveWithRuns a_gen a_wave [a_plan]) 10 seed.
(** A wave of two runs. *)
Definition launched2 : DB := after (CreateWaveWithRuns a_gen a_wave [a_plan; a_plan2]) 10 seed.
Definition claimed : DB := after (ClaimJob "n1") 20 launched.

Definition report (job status sha : string) : completeJobRequest :=
  mkCompleteJobRequest status (Some 0%Z) RawEmpty sha.

Definition advanced : DB :=
  after (completeJobHandler false None "job0" "n1" (report "job0" "Success" sha_a)) 3000 claimed.

Example launched_statuses :
  (λ id, job_Status <$> db_jobs launched !! id) <$> ["job0"; "job1"; "job2"]
  = [Some JobStatusQueued; Some JobStatusCreated; Some JobStatusCreated].
Proof. vm_compute. reflexivity. Qed.

Example claimed_statuses :
  (λ id, job_Status <$> db_jobs claimed !! id) <$> ["job0"; "job1"; "job2"]
  = [Some JobStatusRunning; Some JobStatusCreated; Some JobStatusCreated].
Proof. vm_compute. reflexivity. Qed.

Example advanced_statuses :
  (λ id, job_Status <$> db_jobs advanced !! id) <$> ["job0"; "job1"; "job2"]
  = [Some JobStatusSuccess; Some JobStatusQueued; Some JobStatusCreated].
Proof. vm_compute. reflexivity. Qed.

(** ** The databases are well formed *)

#[export] Instance a_gen_fresh : FreshIds a_gen.
Proof. intros [|[|[|[|[|[|k]]]]]]; vm_compute; reflexivity. Qed.

Lemma seed_wf : wf seed.
Proof.
  split; simpl; unfold keyed, one_active; intros; simplify_map_eq; try done.
  repeat match goal with E : (<[_ := _]> _) !! _ = Some _ |- _ =>
    apply lookup_insert_Some in E as [[<- <-]|[_ E]]; [done|] end. by simplify_map_eq.
Qed.

Lemma op_wf {A} (m : M A) now db :
  wf db → (∀ env, triple false env wf m (λ _, wf) (λ _, wf)) → wf (after m now db).
Proof.
  intros Hwf Hm. unfold after. destruct (run_op m (env_at now) db []) as [r db'] eqn:E.
  pose proof (triple_run_op _ _ _ _ _ _ _ _ _ (Hm (env_at now)) Hwf E) as Hr. by destruct r.
Qed.

Lemma launched_wf : wf launched.
Proof.
  apply op_wf; [apply seed_wf|]. intros env. apply CreateWaveWithRuns_triple. apply a_gen_fresh.
Qed.

Lemma launched2_wf : wf launched2.
Proof.
  apply op_wf; [apply seed_wf|]. intros env. apply CreateWaveWithRuns_triple. apply a_gen_fresh.
Qed.

Lemma claimed_wf : wf claimed.
Proof. apply op_wf; [apply launched_wf|]. intros env. apply ClaimJob_triple. Qed.

Lemma nothing_locked now db : waiting_unlocked (env_at now) db.
Proof. intros i j _ _. set_solver. Qed.

Lemma small db : bool_decide (Z.of_nat (size (db_runs db)) < 2 ^ 31)%Z = true → countable_runs db.
Proof. by rewrite bool_decide_eq_true. Qed.

(** Run an operation of the scenario: [E] records the outcome, [v] its evaluated
    value. *)
Ltac run_sample m env db v :=
  let Hv := fresh "Hv" in
  assert (Hv : (run_op m env db []).1 = v) by (vm_compute; reflexivity);
  destruct (run_op m env db []) as [r db'] eqn:E; simpl in Hv; subst r.

(** * A token library for examples

    An instance of [JwtLib] that keeps its laws, with which concrete tokens can be
    issued and checked. *)

(** Claims and key in the clear, one digit per bit: enough to be a library whose
    tokens parse back, and only with their key. *)
Fixpoint bits_of (p : positive) : string :=
  match p with xH => "" | xO q => String "0"%char (bits_of q) | xI q => String "1"%char (bits_of q) end.

Fixpoint of_bits (s : string) : positive :=
  match s with
  | EmptyString => 1
  | String c s' => if decide (c = "0"%char) then xO (of_bits s') else xI (of_bits s')
  end.

Lemma of_bits_of p : of_bits (bits_of p) = p.
Proof. induction p; simpl; by rewrite ?IHp. Qed.

Definition claims_fields (c : TokenClaims) : string * string * string * option Z * option Z * string :=
  (tc_Role c, tc_TokenType c, tc_NodeID c, tc_ExpiresAt c, tc_IssuedAt c, tc_ID c).

Definition fields_claims (f : string * string * string * option Z * option Z * string) : TokenClaims :=
  let '(a, b, c, d, e, i) := f in mkTokenClaims a b c d e i.

Definition plain_sign (c : TokenClaims) (key : string) : string := bits_of (encode (claims_fields c, key)).

Definition plain_parse (tok : string) (keys : unit → option string) (now : Z) : option (TokenClaims * bool) :=
  '(f, key) ← decode (of_bits tok);
  k ← keys tt;
  if decide (k = key)
  then let c := fields_claims f in
       if match tc_ExpiresAt c with Some e => bool_decide (now < e)%Z | None => true end then Some (c, true) else None
  else None.

#[export] Instance plain_jwt : JwtLib :=
  { SigningMethod := unit; is_hmac := λ _, true; SigningMethodHS256 := tt; NewNumericDate := λ t, t;
    SignedString := λ _ c key, Some (plain_sign c key); ParseWithClaims := plain_parse }.

#[export] Instance plain_laws : JwtLaws.
Proof.
  split.
  - done.
  - intros t. simpl. lia.
  - done.
  - intros [] c key tok keys now [= <-] Hk He. simpl. unfold plain_parse, plain_sign. rewrite of_bits_of, decode_encode.
    cbn [mbind option_bind]. rewrite Hk. cbn [mbind option_bind]. rewrite decide_True by done.
    destruct c as [a b n [e|] i d]; simpl; [|done]. rewrite bool_decide_eq_true_2; [done|]. by apply He.
  - intros tok keys now now' c c' v v'. simpl. unfold plain_parse.
    destruct (decode (of_bits tok)) as [[f key]|]; [|done]. cbn [mbind option_bind].
    destruct (keys tt) as [k|]; [|done]. cbn [mbind option_bind]. destruct (decide (k = key)); [|done].
    intros E1 E2. repeat case_match; simplify_eq; done.
Qed.
