(* ===== verification/CompletionProps.v ===== *)
(** * Properties of job completion *)

From stdpp Require Import base gmap sets list sorting strings.
From S2P Require Import Prelude GoStrings Types Json JobMeta Db Tx Queries JobChain Lifecycle.
From S2P Require Import Tokens Store Recovery Completion Chains Invariant CancelSafety.
From S2P Require Import LaunchSafety RestartSafety WaveStatus CompletionSafety CompletionOutcome.
From S2P Require Import CompletionService Machine Sample.
From Stdlib Require Import ZArith Lia.
Local Open Scope list_scope.

Section Facts.
Context `{Collation} `{GoFmt}.
Context (env : Env) (db : DB) (Hwf : wf db) (Hquiet : quiet env db).
Context (input : completionInput) (Hterm : terminal_request_status (ci_Status input) = true).

(** An accepted report, with its job, the run and the chain. *)
Lemma accepted events reg faults reg' db' :
  run_op (Complete events reg input) env db faults = (inr reg', db') →
  ∃ job run ro db1, db_jobs db !! ci_JobID input = Some job ∧
    db_runs db !! job_RunID job = Some run ∧
    ResumeCount (run_Stats run) = jsp_ResumeCount (ci_StatsPayload input) ∧
    completion_post env db input job run ro db1 ∧
    db_jobs db' = db_jobs db1 ∧ db_runs db' = db_runs db1.
Proof using Hwf Hquiet Hterm.
  intros E. destruct Hquiet as [Hs Hl].
  pose proof (triple_run_op _ _ _ _ _ _ _ _ _ (Complete_triple env db Hwf Hs input Hterm Hl events reg) eq_refl E)
    as (job & run & ro & db1 & Hj & Hr & Hrc & Hpost & Hdb).
  exists job, run, ro, db1. split_and!; try done; by destruct Hdb as [-> |(r' & _ & _ & ->)].
Qed.

Section Chain.
Context (job : Job) (run : Run) (ro : option Run) (db1 : DB).
Context (Hjob : db_jobs db !! ci_JobID input = Some job).
Context (Hrun : db_runs db !! job_RunID job = Some run).
Context (Hpost : completion_post env db input job run ro db1).

Lemma settled_status :
  ∃ pre post m, chain_of (db_jobs db) (job_RunID job) (job_Attempt job) (pre ++ job :: post) ∧
    Forall (λ x, job_Status x = JobStatusCreated) post ∧
    completion_allowed input job post ∧
    db_jobs db1 = final_jobs env input job post m <$> db_jobs db ∧
    ∃ run', db_runs db1 !! job_RunID job = Some run' ∧
      if advances input post then run_Status run' = RunStatusRunning
      else IsTerminalRunStatus (run_Status run') = true ∧ is_Some (run_FinishedAt run').
Proof using Hwf Hterm Hjob Hrun Hpost.
  destruct Hpost as (pre & post & Hid & Hc & Hok & Hl & Hpre & Hcr & Hallow & m & G & _ & HG & (Hj & Hr & _) & _).
  exists pre, post, m. split_and!; try done.
  pose proof Hjob as Hjob'. rewrite <-Hid in Hjob'.
  pose proof (final_status_chain env db Hwf input job run pre post Hjob' Hrun Hc Hterm Hpre Hcr
    (attempt_jobs db1 (job_RunID job) (job_Attempt job)) m) as Hfs.
  specialize (Hfs ltac:(rewrite <-(final_chain env db input job pre post Hc m);
    apply (attempt_jobs_perm _ _ _ _ (keyed_fmap _ _ (stable_final env input job post m) (wf_keyed _ Hwf)));
      [apply chain_of_fmap; [apply stable_final|apply Hwf|done]|done])).
  rewrite Hr, lookup_fmap, Hrun. simpl. eexists. split; [done|].
  destruct (HG run) as (E1 & _ & _ & _ & E5 & E6 & _).
  destruct (final_status _) as [rs|]; simpl.
  - destruct Hfs as (-> & Hnr & Hnq). rewrite bool_decide_eq_true_2 by (rewrite E1; by apply (wf_run_key _ Hwf)).
    destruct rs; try done; simpl; eauto.
  - rewrite Hfs, E5. apply Hl.
Qed.

End Chain.

End Facts.

(** C3. A successful report of a job that has a successor, once accepted: the job
    is [Success] with the commit it produced, the successor is [Queued] and starts
    from that commit, which is a full commit id; the run is still [Running] and no
    other job row has changed. *)
Theorem completion_success_advances `{Collation} `{GoFmt} env db input events reg faults reg' db' job next :
  wf db → quiet env db → ci_Status input = JobStatusSuccess →
  db_jobs db !! ci_JobID input = Some job → job_NextID job = Some next →
  run_op (Complete events reg input) env db faults = (inr reg', db') →
  let sha := effective_sha input job in
  IsCanonicalFullCommitSHA sha = true ∧
  (∃ job', db_jobs db' !! ci_JobID input = Some job' ∧ job_Status job' = JobStatusSuccess ∧
     job_RepoShaOut job' = sha) ∧
  (∃ next', db_jobs db' !! next = Some next' ∧ job_Status next' = JobStatusQueued ∧
     job_RepoShaIn next' = sha) ∧
  (∃ run', db_runs db' !! job_RunID job = Some run' ∧ run_Status run' = RunStatusRunning) ∧
  (∀ i, i ≠ ci_JobID input → i ≠ next → db_jobs db' !! i = db_jobs db !! i).
Proof.
  intros Hwf Hq Hs Hjob Hnext E sha.
  assert (Hterm : terminal_request_status (ci_Status input) = true) by (by rewrite Hs).
  destruct (accepted env db Hwf Hq input Hterm _ _ _ _ _ E)
    as (j & run & ro & db1 & Hj & Hr & _ & Hpost & Hjobs & Hruns).
  assert (j = job) as -> by congruence.
  destruct (settled_status env db Hwf input Hterm job run ro db1 Hj Hr Hpost)
    as (pre & post & m & Hc & Hcr & [_ _ Hsha] & Hj1 & run' & Hrun' & Hst).
  destruct (wf_keyed _ Hwf _ _ Hj) as [Hid _].
  pose proof (next_of_job db job pre post Hc) as Hn. rewrite Hnext in Hn.
  assert (∃ y p, post = y :: p ∧ next = job_ID y) as (y & p & Hp & ->).
  { destruct post as [|y p]; [done|]. injection Hn as ->. eauto. }
  destruct (Hsha Hs) as [_ Hne]; [by rewrite Hp|].
  assert (Hcan : IsCanonicalFullCommitSHA sha = true) by (by apply sha_canonical).
  pose proof (final_post env db input job pre post Hc m) as Hfp.
  unfold final_tail, fed in Hfp. rewrite Hs, Hp in Hfp. simpl in Hfp. injection Hfp as Hfy Hfp.
  rewrite <-Hp in Hfy, Hfp.
  assert (Hyc : y ∈ pre ++ job :: post) by (rewrite Hp; set_solver).
  apply (ch_elem _ _ _ _ Hc) in Hyc as (Hyy & _ & _).
  rewrite Hjobs, Hj1, Hruns. split_and!; [done| | | |].
  - eexists. rewrite lookup_fmap, Hj. simpl. split; [done|].
    rewrite (final_job env db input job pre post Hc m). simpl. by rewrite (decide_False _ _ Hne).
  - eexists. rewrite lookup_fmap, Hyy. simpl. split; [done|]. rewrite Hfy. simpl. split; [done|].
    rewrite (decide_False _ _ Hne). unfold feed_row. by rewrite (decide_False _ _ Hne).
  - exists run'. split; [done|]. unfold advances in Hst.
    rewrite (bool_decide_eq_true_2 (ci_Status input = _)), (bool_decide_eq_true_2 (post ≠ [])) in Hst; [done|by rewrite Hp|done].
  - intros i Hi1 Hi2. rewrite lookup_fmap. destruct (db_jobs db !! i) as [x|] eqn:Ex; simpl; [|done].
    f_equal. destruct (wf_keyed _ Hwf _ _ Ex) as [Hxi _].
    apply (final_success_same env db input job pre post Hc m); [apply Hwf|done|congruence..].
Qed.

Definition success_input : completionInput :=
  mkCompletionInput "job0" "n1" JobStatusSuccess (Some 0%Z) zero_payload sha_a.

Lemma claimed_quiet now : quiet (env_at now) claimed.
Proof. split; [by apply small; vm_compute|apply nothing_locked]. Qed.

(** Witness of C3: the first gate of the scenario. *)
Lemma completion_success_advances_witness :
  ∃ reg' db' next', run_op (Complete false None success_input) (env_at 3000) claimed [] = (inr reg', db') ∧
    db_jobs db' !! "job1" = Some next' ∧ job_Status next' = JobStatusQueued.
Proof.
  run_sample (Complete false None success_input) (env_at 3000) claimed (inr (A := Err) (None : option Registry)).
  assert (Hj : ∃ job, db_jobs claimed !! ci_JobID success_input = Some job ∧ job_NextID job = Some "job1")
    by (eexists; split; vm_compute; reflexivity).
  destruct Hj as (job & Hjob & Hnext).
  destruct (completion_success_advances (env_at 3000) claimed success_input false None [] None db' job "job1"
    claimed_wf (claimed_quiet 3000) eq_refl Hjob Hnext E) as (_ & _ & (next' & Hn & Hq & _) & _).
  exists None, db', next'. split_and!; [reflexivity|exact Hn|exact Hq].
Defined.

(** C4. Any other accepted report leaves the attempt settled: a failed, erroneous
    or cancelled job, or a successful job without a successor, gets its status,
    every job of the attempt is terminal, the run has a terminal status and an end
    time, and the jobs of other attempts and runs have not changed. *)
Theorem completion_otherwise_settles `{Collation} `{GoFmt} env db input events reg faults reg' db' job :
  wf db → quiet env db → terminal_request_status (ci_Status input) = true →
  db_jobs db !! ci_JobID input = Some job →
  ci_Status input ≠ JobStatusSuccess ∨ job_NextID job = None →
  run_op (Complete events reg input) env db faults = (inr reg', db') →
  (∃ job', db_jobs db' !! ci_JobID input = Some job' ∧ job_Status job' = ci_Status input) ∧
  (∀ i j', db_jobs db' !! i = Some j' → job_RunID j' = job_RunID job → job_Attempt j' = job_Attempt job →
     terminal_job (job_Status j') = true) ∧
  (∃ run', db_runs db' !! job_RunID job = Some run' ∧ IsTerminalRunStatus (run_Status run') = true ∧
     is_Some (run_FinishedAt run')) ∧
  (∀ i j, db_jobs db !! i = Some j → job_RunID j ≠ job_RunID job ∨ job_Attempt j ≠ job_Attempt job →
     db_jobs db' !! i = Some j).
Proof.
  intros Hwf Hq Hterm Hjob Hor E.
  destruct (accepted env db Hwf Hq input Hterm _ _ _ _ _ E)
    as (j & run & ro & db1 & Hj & Hr & _ & Hpost & Hjobs & Hruns).
  assert (j = job) as -> by congruence.
  pose proof Hpost as (pre0 & post0 & Hid & _ & _ & Hl & _).
  destruct (completion_post_wf env db Hwf (proj1 Hq) input Hterm job run ro db1 Hj Hr Hpost) as [Hwf1 _].
  destruct (settled_status env db Hwf input Hterm job run ro db1 Hj Hr Hpost)
    as (pre & post & m & Hc & Hcr & _ & Hj1 & run' & Hrun' & Hst).
  assert (Hadv : advances input post = false).
  { unfold advances. pose proof (next_of_job db job pre post Hc) as Hn.
    destruct Hor as [Hs|Hno]; [by rewrite bool_decide_eq_false_2|].
    rewrite Hno in Hn. destruct post; [|done]. by rewrite andb_false_r. }
  rewrite Hadv in Hst. destruct Hst as [Ht Hfin]. rewrite Hjobs, Hruns. split_and!.
  - eexists. rewrite Hj1, lookup_fmap, Hj. simpl. split; [done|].
    by rewrite (final_job env db input job pre post Hc m).
  - intros i j' Hj' Hrid Hatt. unfold terminal_job. destruct (active_job (job_Status j')) eqn:Ea; [|done].
    assert (Hrj : db_runs db1 !! job_RunID j' = Some run') by (by rewrite Hrid).
    destruct (active_job_live _ Hwf1 _ _ _ Hj' Ea Hrj) as [Hrun1 _]. by rewrite Hrun1 in Ht.
  - eauto.
  - intros i x Hx Hne. rewrite Hj1, lookup_fmap, Hx. simpl. f_equal.
    destruct (wf_job_chain _ Hwf _ _ Hx) as (rx & d & k & _ & Hd & _ & Hk).
    pose proof (final_elsewhere env db input job pre post Hc m _ _ _ Hd Hne) as Hf.
    pose proof (f_equal (λ l, l !! k) Hf) as Hlk. simpl in Hlk. rewrite list_lookup_fmap, Hk in Hlk.
    by injection Hlk.
Qed.

Definition failure_input : completionInput :=
  mkCompletionInput "job0" "n1" JobStatusFail (Some 1%Z) zero_payload "".

Lemma failure_not_success : ci_Status failure_input ≠ JobStatusSuccess.
Proof. done. Qed.

(** Witness of C4: the first gate fails. *)
Lemma completion_otherwise_settles_witness :
  ∃ reg' db' run', run_op (Complete false None failure_input) (env_at 3000) claimed [] = (inr reg', db') ∧
    db_runs db' !! "run1" = Some run' ∧ IsTerminalRunStatus (run_Status run') = true.
Proof.
  run_sample (Complete false None failure_input) (env_at 3000) claimed (inr (A := Err) (None : option Registry)).
  assert (Hj : ∃ job, db_jobs claimed !! ci_JobID failure_input = Some job ∧ job_RunID job = "run1")
    by (eexists; split; vm_compute; reflexivity).
  destruct Hj as (job & Hjob & Hrid).
  destruct (completion_otherwise_settles (env_at 3000) claimed failure_input false None [] None db' job
    claimed_wf (claimed_quiet 3000) eq_refl Hjob (or_introl failure_not_success) E)
    as (_ & _ & (run' & Hr & Ht & _) & _).
  rewrite Hrid in Hr. exists None, db', run'. split_and!; [reflexivity|exact Hr|exact Ht].
Defined.

(** C5. A report is accepted only from the node that runs the job, while the job is
    running, in the run's current attempt and with the run's current resume count:
    a report of an earlier execution of the same job id is never applied. *)
Theorem completion_only_by_owner `{Collation} `{GoFmt} env db input events reg faults reg' db' :
  wf db → quiet env db → terminal_request_status (ci_Status input) = true →
  run_op (Complete events reg input) env db faults = (inr reg', db') →
  ∃ job run, db_jobs db !! ci_JobID input = Some job ∧ db_runs db !! job_RunID job = Some run ∧
    job_Status job = JobStatusRunning ∧ job_NodeID job = Some (ci_NodeID input) ∧
    run_Status run = RunStatusRunning ∧ job_Attempt job = run_Attempt run ∧
    ResumeCount (run_Stats run) = jsp_ResumeCount (ci_StatsPayload input).
Proof.
  intros Hwf Hq Hterm E.
  destruct (accepted env db Hwf Hq input Hterm _ _ _ _ _ E)
    as (job & run & ro & db1 & Hj & Hr & Hrc & (pre & post & _ & _ & _ & [Hl1 Hl2] & _ & _ & [H1 H2 _] & _) & _).
  exists job, run. done.
Qed.

(** Witness of C5. *)
Lemma completion_only_by_owner_witness :
  ∃ job, db_jobs claimed !! "job0" = Some job ∧ job_NodeID job = Some "n1".
Proof.
  run_sample (Complete false None failure_input) (env_at 3000) claimed (inr (A := Err) (None : option Registry)).
  destruct (completion_only_by_owner (env_at 3000) claimed failure_input false None [] None db'
    claimed_wf (claimed_quiet 3000) eq_refl E) as (job & run & Hj & _ & _ & Hn & _).
  exists job. split; [exact Hj|exact Hn].
Defined.

(** C6. A report that is answered with an error has changed nothing in the database,
    whichever of its statements failed. The log stream is another matter: the server
    has published nothing, or, when the report came from the node that runs the job in
    the run's current attempt and resume count and the failure came late in the
    transaction, it has already published the end of the job (resume, retention hint,
    done), which closes the job's stream although the job still runs. *)
Theorem completion_error_unchanged `{Collation} `{GoFmt} env db input events reg faults e db' :
  wf db → quiet env db → terminal_request_status (ci_Status input) = true →
  run_op (Complete events reg input) env db faults = (inl e, db') →
  db' = db ∧
  (hub_calls (Complete events reg input) env db faults = [] ∨
   hub_calls (Complete events reg input) env db faults = job_end input ∧ events = true ∧
   ∃ job run, db_jobs db' !! ci_JobID input = Some job ∧ db_runs db' !! job_RunID job = Some run ∧
     job_NodeID job = Some (ci_NodeID input) ∧ job_Status job = JobStatusRunning ∧
     job_Attempt job = run_Attempt run ∧ ResumeCount (run_Stats run) = jsp_ResumeCount (ci_StatsPayload input)).
Proof.
  intros Hwf [Hs Hl] Hterm E.
  pose proof (triple_run_op _ _ _ _ _ _ _ _ _ (Complete_triple env db Hwf Hs input Hterm Hl events reg) eq_refl E)
    as Hdb. simpl in Hdb. subst db'. split; [done|].
  rewrite (Complete_error_said events input reg env db faults e) by (by rewrite E).
  destruct (execution_said events input env db faults)
    as [->|(job & run & He & Hj & Hr & Hn & Hst & Hatt & Hrc & ->)]; [by left|right].
  split_and!; [done|done|]. exists job, run. done.
Qed.

(** A connection that breaks at the fifth statement, and one that breaks at the
    eighth, after the row has been written. *)
Definition broken : list (option Err) := [None; None; None; None; Some (ErrServer "conn")].
Definition broken_late : list (option Err) :=
  [None; None; None; None; None; None; None; Some (ErrServer "conn")].

(** Witness of C6: a report during which the connection breaks, before and after the
    end of the job has been published. *)
Lemma completion_error_unchanged_witness :
  (∃ e, run_op (Complete true None failure_input) (env_at 3000) claimed broken = (inl e, claimed)) ∧
  hub_calls (Complete true None failure_input) (env_at 3000) claimed broken = [] ∧
  (∃ e, run_op (Complete true None failure_input) (env_at 3000) claimed broken_late = (inl e, claimed)) ∧
  hub_calls (Complete true None failure_input) (env_at 3000) claimed broken_late = job_end failure_input.
Proof.
  assert (Hu : ∀ faults, match (run_op (Complete true None failure_input) (env_at 3000) claimed faults).1 with
    | inl _ => true | inr _ => false end = true →
    ∃ e, run_op (Complete true None failure_input) (env_at 3000) claimed faults = (inl e, claimed)).
  { intros faults Hv.
    destruct (run_op (Complete true None failure_input) (env_at 3000) claimed faults) as [[e|a] db'] eqn:E;
      [|discriminate Hv].
    exists e. rewrite (proj1 (completion_error_unchanged (env_at 3000) claimed failure_input true None faults e db'
      claimed_wf (claimed_quiet 3000) eq_refl E)). reflexivity. }
  split; [apply Hu; vm_compute; reflexivity|]. split; [vm_compute; reflexivity|].
  split; [apply Hu; vm_compute; reflexivity|]. vm_compute; reflexivity.
Defined.

(** A well-formed report of the node that runs the job is answered with 204
    when no statement fails: nothing in the completion path rejects it or gets
    stuck. With a successor the job needs a full input commit and an output. *)
Theorem completion_report_accepted `{Collation} `{GoFmt} env db jobID header req input events reg job run :
  wf db → validateCompletionRequest jobID header req = inr input →
  db_jobs db !! jobID = Some job → db_runs db !! job_RunID job = Some run →
  job_Status job = JobStatusRunning → job_NodeID job = Some (ci_NodeID input) →
  ResumeCount (run_Stats run) = jsp_ResumeCount (ci_StatsPayload input) →
  (∀ st, job_StartedAt job = Some st → (st ≤ env_now env)%Z) →
  (ci_Status input = JobStatusSuccess → has_next job = true →
     IsCanonicalFullCommitSHA (job_RepoShaIn job) = true ∧ effective_sha input job ≠ "") →
  ∃ reg' db', run_op (completeJobHandler events reg jobID header req) env db [] = (inr (204%Z, reg'), db').
Proof.
  intros Hwf Hv Hj Hr Hs Hn Hrc Hclock Hsha. destruct (validate_valid _ _ _ _ Hv) as (Hid & _ & Hin).
  rewrite <-Hid in Hj. by apply (completeJobHandler_total env db Hwf input Hin job run).
Qed.

(** Witness: the report of the first gate. *)
Lemma completion_report_accepted_witness :
  ∃ reg' db', run_op (completeJobHandler false None "job0" "n1" (report "job0" "Success" sha_a))
                (env_at 3000) claimed [] = (inr (204%Z, reg'), db').
Proof.
  assert (Hj : ∃ job run, db_jobs claimed !! "job0" = Some job ∧ db_runs claimed !! job_RunID job = Some run ∧
    job_Status job = JobStatusRunning ∧ job_NodeID job = Some "n1" ∧ ResumeCount (run_Stats run) = 0%Z ∧
    job_StartedAt job = Some 20%Z ∧ IsCanonicalFullCommitSHA (job_RepoShaIn job) = true).
  { eexists _, _. split; [vm_compute; reflexivity|]. split; [vm_compute; reflexivity|].
    split_and!; vm_compute; reflexivity. }
  destruct Hj as (job & run & Hj & Hr & Hs & Hn & Hrc & Hst & Hsha).
  apply (completion_report_accepted (env_at 3000) claimed "job0" "n1" (report "job0" "Success" sha_a)
    success_input false None job run claimed_wf).
  - vm_compute. reflexivity.
  - exact Hj.
  - exact Hr.
  - exact Hs.
  - exact Hn.
  - exact Hrc.
  - intros st Hst'. rewrite Hst in Hst'. injection Hst' as <-. vm_compute. discriminate.
  - intros _ _. split; [exact Hsha|vm_compute; discriminate].
Defined.
