(* ===== verification/MachineProps.v ===== *)
(** * Properties of reachable databases and of claims *)

From stdpp Require Import base gmap sets list sorting relations strings.
From S2P Require Import Prelude GoStrings Types Json JobMeta Db Tx Queries JobChain Lifecycle.
From S2P Require Import Tokens Store Plan Recovery Handlers Completion Claim Chains Invariant.
From S2P Require Import ClaimSafety CancelSafety LaunchSafety RestartSafety WaveStatus.
From S2P Require Import RecoverySafety CompletionSafety CompletionService ClaimService.
From S2P Require Import HandlerSafety Machine Sample.
From Stdlib Require Import ZArith Lia.
Local Open Scope list_scope.

(** ** The scenario as a path of the machine *)

Lemma op_step {A} (m : M A) now db :
  (∀ r db', run_op m (env_at now) db [] = (r, db') → step db db') → rtc step db (after m now db).
Proof.
  intros Hs. apply rtc_once. unfold after.
  destruct (run_op m (env_at now) db []) as [r db'] eqn:E. exact (Hs r db' eq_refl).
Qed.

Lemma launched_path : rtc step seed launched.
Proof. apply op_step. intros r db' E. exact (step_launch _ _ _ _ _ _ _ _ a_gen_fresh E). Qed.

(** A payload that echoes the repository's URL. *)
Definition echo_payload (run : Run) (spec : json) (url : string) (job : Job) : M (PayloadError + string) :=
  mret (inr url).

#[export] Instance echo_reader : Reader echo_payload.
Proof. intros env run spec url job I. by apply triple_ret. Qed.

Lemma launched_quiet now : quiet (env_at now) launched.
Proof. split; [by apply small; vm_compute|apply nothing_locked]. Qed.

(** The job is served by the claim service, and then completed. *)
Definition served : DB := after (Claim echo_payload "n1") 20 launched.
Definition finished_gate : DB :=
  after (completeJobHandler false None "job0" "n1" (report "job0" "Success" sha_a)) 3000 served.

Lemma served_quiet now : quiet (env_at now) served.
Proof. split; [by apply small; vm_compute|apply nothing_locked]. Qed.

Lemma finished_gate_path : rtc step seed finished_gate.
Proof.
  etransitivity; [exact launched_path|]. etransitivity.
  - apply (op_step (Claim echo_payload "n1") 20). intros r db' E.
    exact (step_claim _ _ _ _ _ _ _ _ _ (launched_quiet 20) E).
  - apply (op_step (completeJobHandler false None "job0" "n1" (report "job0" "Success" sha_a)) 3000).
    intros r db' E. exact (step_complete _ _ _ _ _ _ _ _ _ _ (served_quiet 3000) E).
Qed.

(** Whatever sequence of launches, claims, completions, cancellations,
    restarts, enrollments and recovery cycles the server runs, and whichever
    statements fail on the way, the database stays well formed, if no recovery cycle
    logs that it could not reconcile a run. *)
Theorem reachable_invariant `{Collation} `{GoFmt} db0 db : wf db0 → rtc step db0 db → wf db.
Proof. intros Hwf Hsteps. by eapply reachable_wf. Qed.

(** Witness. *)
Lemma reachable_invariant_witness : wf seed ∧ rtc step seed finished_gate ∧ wf finished_gate.
Proof.
  split; [exact seed_wf|]. split; [exact finished_gate_path|].
  exact (reachable_invariant seed finished_gate seed_wf finished_gate_path).
Defined.

(** C2. In every database reached by launches, claims, completions, cancellations,
    restarts, enrollments and recovery cycles, whichever statements fail, a running
    run has exactly one job that is queued or running, and it belongs to the run's
    current attempt: no run is stuck without work, and no run has two jobs at a time.
    The one step left out is a recovery cycle that logs that it could not write the
    status of a run whose jobs it had just cancelled; it strands that run
    (recovery_fault_strands_run). *)
Theorem running_run_has_one_current_job `{Collation} `{GoFmt} db0 db i r :
  wf db0 → rtc step db0 db → db_runs db !! i = Some r → run_Status r = RunStatusRunning →
  ∃ j, db_jobs db !! job_ID j = Some j ∧ job_RunID j = i ∧ job_Attempt j = run_Attempt r ∧
    (job_Status j = JobStatusQueued ∨ job_Status j = JobStatusRunning) ∧
    ∀ k j', db_jobs db !! k = Some j' → job_RunID j' = i →
      (job_Status j' = JobStatusQueued ∨ job_Status j' = JobStatusRunning) → j' = j.
Proof. intros Hwf Hsteps Hr Hs. apply wf_one_current; [|done|done]. by eapply reachable_wf. Qed.

(** Witness of C2: after the first gate it is the migration step. *)
Lemma running_run_has_one_current_job_witness :
  ∃ j, db_jobs finished_gate !! job_ID j = Some j ∧ job_RunID j = "run1" ∧
    (job_Status j = JobStatusQueued ∨ job_Status j = JobStatusRunning).
Proof.
  assert (Hr : ∃ r, db_runs finished_gate !! "run1" = Some r ∧ run_Status r = RunStatusRunning)
    by (eexists; split; vm_compute; reflexivity).
  destruct Hr as (r & Hr & Hs).
  destruct (running_run_has_one_current_job seed finished_gate "run1" r seed_wf finished_gate_path Hr Hs)
    as (j & Hj & Hrid & _ & Hst & _).
  exists j. split; [exact Hj|]. split; [exact Hrid|exact Hst].
Defined.

(** C9. In every reachable database a repository has at most one run that is not
    terminal. *)
Theorem one_active_run_per_repository `{Collation} `{GoFmt} db0 db i1 i2 r1 r2 :
  wf db0 → rtc step db0 db → db_runs db !! i1 = Some r1 → db_runs db !! i2 = Some r2 →
  run_RepoID r1 = run_RepoID r2 → IsTerminalRunStatus (run_Status r1) = false →
  IsTerminalRunStatus (run_Status r2) = false → i1 = i2.
Proof.
  rewrite !IsTerminalRunStatus_active, !negb_false_iff. intros Hwf Hsteps.
  apply (wf_one_active db). by eapply reachable_wf.
Qed.

(** Witness of C9. *)
Lemma one_active_run_per_repository_witness :
  ∃ r, db_runs finished_gate !! "run1" = Some r ∧
    ∀ i r', db_runs finished_gate !! i = Some r' → run_RepoID r' = run_RepoID r →
      IsTerminalRunStatus (run_Status r') = false → i = "run1".
Proof.
  assert (Hr : ∃ r, db_runs finished_gate !! "run1" = Some r ∧ IsTerminalRunStatus (run_Status r) = false)
    by (eexists; split; vm_compute; reflexivity).
  destruct Hr as (r & Hr & Hs). exists r. split; [exact Hr|]. intros i r' Hr' Hrepo Hs'.
  exact (one_active_run_per_repository seed finished_gate i "run1" r' r seed_wf finished_gate_path
    Hr' Hr Hrepo Hs' Hs).
Defined.

(** C10. In every reachable database all jobs of one attempt that have a node have
    the same node: the jobs of a run share one workspace. *)
Theorem one_node_per_attempt `{Collation} `{GoFmt} db0 db i1 i2 j1 j2 n1 n2 :
  wf db0 → rtc step db0 db → db_jobs db !! i1 = Some j1 → db_jobs db !! i2 = Some j2 →
  job_RunID j1 = job_RunID j2 → job_Attempt j1 = job_Attempt j2 →
  job_NodeID j1 = Some n1 → job_NodeID j2 = Some n2 → n1 = n2.
Proof.
  intros Hwf Hsteps H1 H2 Hr Ha. pose proof (reachable_wf _ _ Hwf Hsteps) as Hw.
  destruct (wf_job_chain _ Hw _ _ H1) as (r & c & k & _ & Hc & Hok & Hk).
  destruct (wf_keyed _ Hw _ _ H2) as [Hi2 _].
  apply (ao_affine _ _ Hok); [by eapply list_elem_of_lookup_2|].
  apply (ch_elem _ _ _ _ Hc). by rewrite Hi2.
Qed.

(** Witness of C10: the gate and the step that is claimed next. *)
Lemma one_node_per_attempt_witness :
  ∃ j1 j2, db_jobs (after (Claim echo_payload "n1") 4000 finished_gate) !! "job0" = Some j1 ∧
    db_jobs (after (Claim echo_payload "n1") 4000 finished_gate) !! "job1" = Some j2 ∧
    job_NodeID j1 = job_NodeID j2 ∧ job_NodeID j1 = Some "n1".
Proof.
  set (db := after (Claim echo_payload "n1") 4000 finished_gate).
  assert (Hq : quiet (env_at 4000) finished_gate).
  { split; [by apply small; vm_compute|apply nothing_locked]. }
  assert (Hpath : rtc step seed db).
  { etransitivity; [exact finished_gate_path|]. apply op_step. intros r db' E.
    exact (step_claim _ _ _ _ _ _ _ _ _ Hq E). }
  assert (Hj : ∃ j1 j2 n1 n2, db_jobs db !! "job0" = Some j1 ∧ db_jobs db !! "job1" = Some j2 ∧
    job_RunID j1 = job_RunID j2 ∧ job_Attempt j1 = job_Attempt j2 ∧
    job_NodeID j1 = Some n1 ∧ job_NodeID j2 = Some n2 ∧ n1 = "n1").
  { eexists _, _, _, _. split; [vm_compute; reflexivity|]. split; [vm_compute; reflexivity|].
    split_and!; reflexivity. }
  clearbody db. destruct Hj as (j1 & j2 & n1 & n2 & H1 & H2 & Hr & Ha & E1 & E2 & ->).
  exists j1, j2. split; [exact H1|]. split; [exact H2|]. split; [|exact E1].
  rewrite E1, E2. f_equal.
  exact (one_node_per_attempt seed db "job0" "job1" j1 j2 "n1" n2 seed_wf Hpath H1 H2 Hr Ha E1 E2).
Defined.

(** * Properties of recovery and of derived statuses *)

(** The cutoff of a cycle. *)
Definition cutoff_of (env : Env) (t : StaleJobRecoveryTask) : Z :=
  (env_clock env - srt_nodeStaleAfter t)%Z.

(** C34. A recovery cycle whose statements succeed terminates, keeps the database
    well formed and leaves no running job on a node that has been silent since the
    cutoff; the runs that had such a job are terminal, and every job and run
    without one is as it was. *)
Theorem recovery_cycle `{Collation} env t reg db :
  wf db → countable_runs db →
  ∃ c db', run_op (StaleJobRecoveryTask_Run t reg) env db [] = (inr c, db') ∧ wf db' ∧
    stale_rows db' (cutoff_of env t) = [] ∧
    (∀ i j, db_jobs db !! i = Some j → stale_running db (cutoff_of env t) j = true →
       ∃ r', db_runs db' !! job_RunID j = Some r' ∧ IsTerminalRunStatus (run_Status r') = true) ∧
    (∀ i r, db_runs db !! i = Some r →
       (∀ k j, db_jobs db !! k = Some j → stale_running db (cutoff_of env t) j = true → job_RunID j ≠ i) →
       db_runs db' !! i = Some r ∧
       ∀ k j, db_jobs db !! k = Some j → job_RunID j = i → db_jobs db' !! k = Some j).
Proof.
  intros Hwf Hs.
  destruct (total_run_op env _ _ _ db (Run_total env t reg db Hwf Hs) eq_refl) as (c & db' & E & Hwf' & _ & Hrec).
  fold (cutoff_of env t) in Hrec. set (cut := cutoff_of env t) in *.
  assert (Hkey : ∀ i, i ∈ st_RunID <$> stale_rows db cut ↔
    ∃ k j, db_jobs db !! k = Some j ∧ stale_running db cut j = true ∧ job_RunID j = i).
  { intros i. rewrite list_elem_of_fmap. split.
    - intros (s & -> & Hin). destruct (proj1 (stale_rows_elem db cut (st_RunID s) (st_Attempt s)))
        as (k & j & Hj & Hst & Hr & _); eauto 8.
    - intros (k & j & Hj & Hst & <-). destruct (proj2 (stale_rows_elem db cut (job_RunID j) (job_Attempt j)))
        as (s & Hin & Er & _); eauto 8. }
  exists c, db'. split_and!; [done|done|by eapply (recovered_no_stale env db)| |].
  - intros i j Hj Hst. destruct (wf_job_run _ Hwf _ _ Hj) as (r & Hr & _).
    destruct (rec_runs _ _ _ _ Hrec _ _ Hr) as (r' & Hr' & _ & _ & _ & Ht). exists r'. split; [done|].
    rewrite IsTerminalRunStatus_active, Ht; [done|]. apply Hkey. eauto.
  - intros i r Hr Hno. destruct (rec_runs _ _ _ _ Hrec _ _ Hr) as (r' & Hr' & _ & _ & Hu & _).
    rewrite Hu in Hr'; [|rewrite Hkey; naive_solver]. split; [done|]. intros k j Hj Hrid.
    rewrite (rec_jobs _ _ _ _ Hrec), lookup_fmap, Hj. simpl. unfold cancel_if.
    destruct (hit _ j) eqn:Eh; [|done]. exfalso. unfold hit in Eh.
    apply existsb_exists in Eh as (s & Hin%list_elem_of_In & Hs'). unfold active_of_attempt in Hs'.
    rewrite !andb_true_iff, !bool_decide_eq_true in Hs'. destruct Hs' as [[Hsr _] _].
    destruct (proj1 (Hkey (st_RunID s))) as (k' & j' & Hj' & Hst' & Hr2); [apply list_elem_of_fmap; eauto|].
    apply (Hno k' j' Hj' Hst'). congruence.
Qed.

(** The node of the scenario has been silent for two minutes. *)
Definition a_task : StaleJobRecoveryTask := NewStaleJobRecoveryTask false 0 0.
Definition two_minutes : Z := 120000000.

(** Witness of C34. *)
Lemma recovery_cycle_witness :
  ∃ c db' r', run_op (StaleJobRecoveryTask_Run a_task None) (env_at two_minutes) claimed [] = (inr c, db') ∧
    db_runs db' !! "run1" = Some r' ∧ IsTerminalRunStatus (run_Status r') = true.
Proof.
  assert (Hs : countable_runs claimed) by (apply small; vm_compute; reflexivity).
  assert (Hj : ∃ j, db_jobs claimed !! "job0" = Some j ∧ job_RunID j = "run1" ∧
    stale_running claimed (cutoff_of (env_at two_minutes) a_task) j = true)
    by (eexists; split; [vm_compute; reflexivity|split; vm_compute; reflexivity]).
  destruct Hj as (j & Hj & Hrid & Hst).
  destruct (recovery_cycle (env_at two_minutes) a_task None claimed claimed_wf Hs)
    as (c & db' & E & _ & _ & Ht & _).
  destruct (Ht "job0" j Hj Hst) as (r' & Hr' & Htr). rewrite Hrid in Hr'.
  exists c, db', r'. split; [exact E|]. split; [exact Hr'|exact Htr].
Defined.

(** The fifth statement of the cycle, the update of the run's status, fails. *)
Definition status_update_fails : list (option Err) := [None; None; None; None; Some (ErrServer "conn")].

(** The database such a cycle leaves. *)
Definition stranded : DB :=
  (run_op (StaleJobRecoveryTask_Run a_task None) (env_at two_minutes) claimed status_update_fails).2.

(** The recovery cycle is not atomic: when the connection breaks after the jobs
    of a stale attempt have been cancelled and before its run's status is written,
    the run stays [Running] although all its jobs are over, and no later cycle, with
    whatever cutoff, lists it again. The cycle logs the run as not reconciled. *)
Theorem recovery_fault_strands_run :
  wf claimed ∧
  (∃ c, (run_op (StaleJobRecoveryTask_Run a_task None) (env_at two_minutes) claimed status_update_fails).1
        = inr c ∧ cy_unreconciled c = ["run1"]) ∧
  (∃ r, db_runs stranded !! "run1" = Some r ∧ run_Status r = RunStatusRunning) ∧
  (∀ i j, db_jobs stranded !! i = Some j → job_RunID j = "run1" → terminal_job (job_Status j) = true) ∧
  (∀ cutoff, stale_rows stranded cutoff = []).
Proof.
  assert (Hb : forallb (λ j, terminal_job (job_Status j)) (rows (db_jobs stranded)) = true)
    by (vm_compute; reflexivity).
  assert (Hall : ∀ i j, db_jobs stranded !! i = Some j → terminal_job (job_Status j) = true).
  { exact (forallb_rows _ _ Hb). }
  split_and!; [apply claimed_wf|by eexists; split; vm_compute; reflexivity| | |].
  - eexists. split; vm_compute; reflexivity.
  - intros i j Hj _. exact (Hall i j Hj).
  - intros cut. exact (all_terminal_no_stale stranded cut Hall).
Qed.

(** With fewer than 2^31 runs, so that the 32-bit counters do not wrap, the
    counts of a wave call for finishing it exactly when the wave has a run and all
    its runs are terminal; the state then reported is failed if some run failed,
    else cancelled if some run was cancelled, else succeeded. *)
Theorem wave_finishes_iff_over db w :
  countable_runs db →
  (rce_ShouldFinish (EvaluateWaveCompletionFromRunCounts (count_rows db w)) = true ↔
     (∃ i r, db_runs db !! i = Some r ∧ run_WaveID r = w) ∧
     (∀ i r, db_runs db !! i = Some r → run_WaveID r = w → IsTerminalRunStatus (run_Status r) = true)) ∧
  (∀ s, rce_RunState (EvaluateWaveCompletionFromRunCounts (count_rows db w)) = Some s →
     let has st := ∃ i r, db_runs db !! i = Some r ∧ run_WaveID r = w ∧ run_Status r = st in
     (s = RunStateFailed ↔ has RunStatusFail) ∧
     (s = RunStateCancelled ↔ has RunStatusCancelled ∧ ¬ has RunStatusFail) ∧
     (s = RunStateSucceeded ↔ ¬ has RunStatusFail ∧ ¬ has RunStatusCancelled)).
Proof.
  intros Hs. destruct (wave_eval_spec db w Hs) as [Hiff Hstate]. split.
  - rewrite Hiff. unfold has_run. split.
    + intros [(i & r & Hi & Hw & _) Hno]. split; [eauto|]. intros k x Hx Hwx.
      rewrite IsTerminalRunStatus_active. destruct (active_run (run_Status x)) eqn:Ea; [|done].
      destruct Hno. eauto.
    + intros [(i & r & Hi & Hw) Hall]. split; [eauto 8|]. intros (k & x & Hx & Hwx & Ha).
      pose proof (Hall _ _ Hx Hwx) as Ht. by rewrite IsTerminalRunStatus_active, Ha in Ht.
  - intros s E.
    assert (Hf : rce_ShouldFinish (EvaluateWaveCompletionFromRunCounts (count_rows db w)) = true).
    { unfold EvaluateWaveCompletionFromRunCounts in *. by destruct (decide _). }
    rewrite (Hstate Hf) in E. injection E as <-.
    assert (Hp : ∀ st, (0 < count_of db w st)%Z ↔
      ∃ i r, db_runs db !! i = Some r ∧ run_WaveID r = w ∧ run_Status r = st).
    { intros st. rewrite count_of_pos. unfold has_run. by setoid_rewrite bool_decide_eq_true. }
    cbv zeta. rewrite <-!Hp.
    destruct (bool_decide_reflect (0 < count_of db w RunStatusFail)%Z) as [|];
      [|destruct (bool_decide_reflect (0 < count_of db w RunStatusCancelled)%Z) as [|]];
      split_and!; split; intros; try done; tauto.
Qed.

(** Witness: the wave of two runs is not over. *)
Lemma wave_finishes_iff_over_witness :
  countable_runs launched2 ∧
  rce_ShouldFinish (EvaluateWaveCompletionFromRunCounts (count_rows launched2 "wave1")) = false ∧
  ∃ i r, db_runs launched2 !! i = Some r ∧ run_WaveID r = "wave1".
Proof.
  assert (Hs : countable_runs launched2) by (apply small; vm_compute; reflexivity).
  split; [exact Hs|]. split.
  - destruct (rce_ShouldFinish _) eqn:Ef; [|reflexivity].
    apply (proj1 (wave_finishes_iff_over launched2 "wave1" Hs)) in Ef as [_ Hall].
    assert (Hr : ∃ r, db_runs launched2 !! "run1" = Some r ∧ run_WaveID r = "wave1" ∧
      IsTerminalRunStatus (run_Status r) = false) by (eexists; split_and!; vm_compute; reflexivity).
    destruct Hr as (r & Hr & Hw & Hn). rewrite (Hall "run1" r Hr Hw) in Hn. discriminate Hn.
  - exists "run1". eexists. split; vm_compute; reflexivity.
Defined.

(** The status of an attempt: it is decided exactly when the attempt has jobs
    and all of them are terminal, evaluation never errs, and the status is that of
    one of its jobs ([Fail] for a job in error). *)
Theorem run_attempt_evaluation jobs :
  ∃ ev, EvaluateRunAttemptTerminalStatus jobs = inr ev ∧
    (rare_ShouldUpdate ev = true ↔
       jobs ≠ [] ∧ Forall (λ j, terminal_job (job_Status j) = true) jobs) ∧
    (rare_ShouldUpdate ev = true → ∃ j rs, j ∈ jobs ∧
       rare_LastJob ev = Some j ∧ rare_Status ev = Some rs ∧
       run_status_of_job (job_Status j) = Some rs).
Proof. apply evaluate_attempt_spec. Qed.
