(* ===== verification/ClaimProps.v ===== *)
(** * Properties of claims: which job a node gets, and that it gets it alone *)

From stdpp Require Import base gmap sets list sorting strings.
From S2P Require Import Prelude GoStrings Types Json JobMeta Db Tx Queries JobChain Lifecycle.
From S2P Require Import Tokens Store Chains Invariant ClaimSafety Sample.
From Stdlib Require Import ZArith Lia.
Local Open Scope list_scope.

(** ** The claim order *)

Section Lex.
Context {A : Type} (lt le : relation A) `{!RelDecision lt}.
Context (Hasym : ∀ x y, lt x y → ¬ lt y x) (Hneg : ∀ x y z, ¬ lt x y → ¬ lt y z → ¬ lt x z).

Lemma lex_total : Total le → Total (lex lt le).
Proof using Type*.
  intros Ht x y. unfold lex. destruct (decide (lt x y)) as [|Hxy]; [by left; left|].
  destruct (decide (lt y x)) as [|Hyx]; [by right; left|]. destruct (Ht x y); [left|right]; auto.
Qed.

Lemma lex_trans : Transitive le → Transitive (lex lt le).
Proof using Type*.
  intros Htr x y z [Hxy|[Hyx Lxy]] [Hyz|[Hzy Lyz]].
  - left. destruct (decide (lt x z)) as [|Hxz]; [done|]. destruct (Hneg x z y Hxz (Hasym _ _ Hyz) Hxy).
  - left. destruct (decide (lt x z)) as [|Hxz]; [done|]. destruct (Hneg x z y Hxz Hzy Hxy).
  - left. destruct (decide (lt x z)) as [|Hxz]; [done|]. destruct (Hneg y x z Hyx Hxz Hyz).
  - right. split; [by apply (Hneg z y x)|by etransitivity].
Qed.

End Lex.

Section Order.
Context `{Collation}.

Lemma text_not_lt x y : ¬ text_lt x y ↔ coll_le y x.
Proof.
  unfold text_lt. split.
  - intros Hn. destruct (coll_le_total x y) as [Hle|Hle]; [|done].
    destruct (decide (x = y)) as [->|Hne]; [done|]. by destruct Hn.
  - intros Hle [Hxy Hne]. apply Hne. by apply (anti_symm coll_le).
Qed.

Lemma text_lt_asym x y : text_lt x y → ¬ text_lt y x.
Proof. intros [Hle _]. by apply text_not_lt. Qed.

Lemma text_lt_neg x y z : ¬ text_lt x y → ¬ text_lt y z → ¬ text_lt x z.
Proof. rewrite !text_not_lt. intros. by etransitivity. Qed.

Lemma by_attempt_id_order : Total by_attempt_id ∧ Transitive by_attempt_id.
Proof.
  split.
  - apply lex_total; [intros x y; apply _|simpl; intros x y; lia|simpl; intros x y z; lia|]. intros x y. apply coll_le_total.
  - apply lex_trans; [intros x y; apply _|simpl; intros x y; lia|simpl; intros x y z; lia|]. intros x y z H1 H2. unfold by_id in *. by etransitivity.
Qed.

#[export] Instance by_run_attempt_id_total : Total by_run_attempt_id.
Proof.
  apply lex_total; [intros x y; apply _|intros x y; apply text_lt_asym|intros x y z; apply text_lt_neg|].
  apply by_attempt_id_order.
Qed.

#[export] Instance by_run_attempt_id_trans : Transitive by_run_attempt_id.
Proof.
  apply lex_trans; [intros x y; apply _|intros x y; apply text_lt_asym|intros x y z; apply text_lt_neg|].
  apply by_attempt_id_order.
Qed.

(** The head of the candidates comes first among them. *)
Lemma claim_first locked db n j j2 :
  head (claim_candidates locked db n) = Some j → j2 ∈ claim_candidates locked db n →
  j2 = j ∨ by_run_attempt_id j j2.
Proof.
  unfold claim_candidates, select.
  set (l := merge_sort by_run_attempt_id (filter (λ x, claim_eligible db n x = true) (rows (db_jobs db)))).
  assert (Hs : StronglySorted by_run_attempt_id l) by (apply (StronglySorted_merge_sort by_run_attempt_id)).

  assert (Hf : StronglySorted by_run_attempt_id (filter (λ j, job_ID j ∉ locked) l)).
  { clear -Hs. induction Hs as [|x l Hs IH Hx]; [constructor|]. rewrite filter_cons.
    case_decide; [|done]. constructor; [done|].
    apply Forall_forall. intros y [_ Hy]%list_elem_of_filter. by apply (proj1 (Forall_forall _ _) Hx). }
  destruct (filter _ l) as [|x rest]; [done|]. intros [= ->] [-> |Hin]%elem_of_cons; [by left|].
  right. inversion Hf as [|? ? _ Hall]; subst. by apply (proj1 (Forall_forall _ _) Hall).
Qed.

End Order.

(** C17. A claim that succeeds gives the node a queued job of a running run of a
    started wave, bound to no other node, whose attempt no other node serves, and
    not locked by another claim; it is the first such job in the order run,
    attempt, id; the only change is that its row is now [Running] on that node,
    started now. *)
Theorem claim_exact `{Collation} env db faults nodeID j' db' :
  wf db → run_op (ClaimJob nodeID) env db faults = (inr j', db') →
  ∃ n j, db_nodes db !! nodeID = Some n ∧ db_jobs db !! job_ID j = Some j ∧
    eligible db n j ∧ job_ID j ∉ env_locked env ∧
    (∀ i j2, db_jobs db !! i = Some j2 → eligible db n j2 → job_ID j2 ∉ env_locked env →
       j2 = j ∨ by_run_attempt_id j j2) ∧
    j' = claim_row nodeID (env_now env) j ∧
    db' = set_db_jobs (<[job_ID j := j']> (db_jobs db)) db.
Proof.
  intros Hwf E. destruct (ClaimJob_outcome _ _ _ _ _ _ E) as (n & j & Hz & Hn & Hh & -> & ->).
  pose proof (wf_node_key _ Hwf _ _ Hn) as Hid. exists n, j.
  assert (Hin : j ∈ claim_candidates (env_locked env) db n).
  { destruct (claim_candidates _ _ _); [done|]. injection Hh as ->. left. }
  apply claim_candidates_spec in Hin as Hc. destruct Hc as (Hl & Hel & i & Hi).
  apply claim_eligible_spec in Hel as [Hne Hel].
  destruct (wf_keyed _ Hwf _ _ Hi) as [Hji _]. split_and!; try done; [by rewrite Hji| |by rewrite Hid].
  intros i2 j2 Hi2 Hel2 Hl2. apply (claim_first (env_locked env) db n); [done|].
  apply claim_candidates_spec. split_and!; [done|by apply claim_eligible_spec|eauto].
Qed.

(** Witness of C17: the first gate of the scenario. *)
Lemma claim_exact_witness :
  ∃ j' db', run_op (ClaimJob "n1") (env_at 20) launched [] = (inr j', db') ∧ job_ID j' = "job0" ∧
    job_NodeID j' = Some "n1" ∧ job_Status j' = JobStatusRunning.
Proof.
  assert (Hv : (job_ID <$> match (run_op (ClaimJob "n1") (env_at 20) launched []).1 with
    | inr j => Some j | inl _ => None end) = Some "job0") by (vm_compute; reflexivity).
  destruct (run_op (ClaimJob "n1") (env_at 20) launched []) as [[e|j'] db'] eqn:E; [discriminate Hv|].
  destruct (claim_exact (env_at 20) launched [] "n1" j' db' launched_wf E)
    as (n & j & _ & _ & _ & _ & _ & Hj' & _).
  exists j', db'. split; [reflexivity|]. split; [simpl in Hv; by injection Hv|].
  rewrite Hj'. split; reflexivity.
Defined.

(** Two claims in a row, by whatever nodes, never return the same job. *)
Theorem claims_distinct `{Collation} env1 env2 db faults1 faults2 n1 n2 j1 j2 db1 db2 :
  wf db → run_op (ClaimJob n1) env1 db faults1 = (inr j1, db1) →
  run_op (ClaimJob n2) env2 db1 faults2 = (inr j2, db2) → job_ID j1 ≠ job_ID j2.
Proof.
  intros Hwf E1 E2 Hid.
  destruct (ClaimJob_outcome _ _ _ _ _ _ E1) as (nd1 & x1 & _ & _ & _ & -> & ->).
  pose proof (ClaimJob_outcome _ _ _ _ _ _ E2) as (nd2 & x2 & _ & _ & Hh & -> & _).
  assert (Hin : x2 ∈ claim_candidates (env_locked env2) (set_db_jobs (<[job_ID x1 := claim_row (node_ID nd1) (env_now env1) x1]> (db_jobs db)) db) nd2).
  { destruct (claim_candidates _ _ _); [done|]. injection Hh as ->. left. }
  apply claim_candidates_spec in Hin as (_ & Hel & i & Hi). apply claim_eligible_spec in Hel as [_ Hel].
  simpl in Hid, Hi. pose proof (el_queued _ _ _ Hel) as Hq.
  apply lookup_insert_Some in Hi as [[_ <-]|[Hne Hi]]; [done|].
  destruct (wf_keyed _ Hwf _ _ Hi) as [Hxi _]. congruence.
Qed.

(** Witness: two nodes, two runs. *)
Lemma claims_distinct_witness :
  ∃ j1 j2 db1 db2, run_op (ClaimJob "n1") (env_at 20) launched2 [] = (inr j1, db1) ∧
    run_op (ClaimJob "n2") (env_at 21) db1 [] = (inr j2, db2) ∧ job_ID j1 ≠ job_ID j2.
Proof.
  assert (Hv : match (run_op (ClaimJob "n1") (env_at 20) launched2 []) with
    | (inr j, db) => match (run_op (ClaimJob "n2") (env_at 21) db []).1 with inr _ => true | inl _ => false end
    | _ => false end = true) by (vm_compute; reflexivity).
  destruct (run_op (ClaimJob "n1") (env_at 20) launched2 []) as [[e|j1] db1] eqn:E1; [discriminate Hv|].
  destruct (run_op (ClaimJob "n2") (env_at 21) db1 []) as [[e|j2] db2] eqn:E2; [discriminate Hv|].
  exists j1, j2, db1, db2. split; [reflexivity|]. split; [exact E2|].
  exact (claims_distinct (env_at 20) (env_at 21) launched2 [] [] "n1" "n2" j1 j2 db1 db2 launched2_wf E1 E2).
Defined.

(** Giving a claimed job back undoes the claim: for a run that has not been
    resumed, and a job that no node held before, the database is what it was. *)
Theorem claim_unclaim_roundtrip `{Collation} env1 env2 db faults nodeID j' db1 :
  wf db → run_op (ClaimJob nodeID) env1 db faults = (inr j', db1) →
  (∀ j, db_jobs db !! job_ID j' = Some j → job_NodeID j = None) →
  (∀ r, db_runs db !! job_RunID j' = Some r → sql_resume_count (run_Stats r) = Some 0%Z) →
  run_op (UnclaimJob (job_ID j') nodeID) env2 db1 [] = (inr tt, db).
Proof.
  intros Hwf E Hfree Hres.
  destruct (total_run_op env2 _ _ _ db1 (claim_unclaim_total env1 env2 db faults nodeID j' db1 Hwf E Hfree Hres) eq_refl)
    as ([] & d & -> & ->). done.
Qed.

(** Witness. *)
Lemma claim_unclaim_roundtrip_witness :
  ∃ j' db1, run_op (ClaimJob "n1") (env_at 20) launched [] = (inr j', db1) ∧
    run_op (UnclaimJob (job_ID j') "n1") (env_at 21) db1 [] = (inr tt, launched).
Proof.
  assert (Hv : (λ j, (job_ID j, job_RunID j)) <$> match (run_op (ClaimJob "n1") (env_at 20) launched []).1 with
    | inr j => Some j | inl _ => None end = Some ("job0", "run1")) by (vm_compute; reflexivity).
  assert (Hj : job_NodeID <$> db_jobs launched !! "job0" = Some None) by (vm_compute; reflexivity).
  assert (Hr : (λ r, sql_resume_count (run_Stats r)) <$> db_runs launched !! "run1" = Some (Some 0%Z))
    by (vm_compute; reflexivity).
  destruct (run_op (ClaimJob "n1") (env_at 20) launched []) as [[e|j'] db1] eqn:E; [discriminate Hv|].
  simpl in Hv. injection Hv as Hid Hrid. exists j', db1. split; [reflexivity|].
  apply (claim_unclaim_roundtrip (env_at 20) (env_at 21) launched [] "n1" j' db1 launched_wf E).
  - intros j Hjj. rewrite Hid in Hjj. rewrite Hjj in Hj. by injection Hj.
  - intros r Hrr. rewrite Hrid in Hrr. rewrite Hrr in Hr. by injection Hr.
Defined.
