(* ===== verification/StoreProps.v ===== *)
(** * Properties of the store's operations: restart, resume, cancellation, atomicity *)

From stdpp Require Import base gmap sets list sorting strings.
From S2P Require Import Prelude GoStrings Types Json JobMeta Db Tx Queries JobChain Lifecycle.
From S2P Require Import Spec Tokens Store Plan Recovery Handlers Completion Chains Invariant.
From S2P Require Import ClaimSafety CancelSafety LaunchSafety RestartSafety WaveStatus.
From S2P Require Import HandlerSafety Machine Sample.
From Stdlib Require Import ZArith Lia.
Local Open Scope list_scope.

(** ** Restart *)

Lemma chain_inserted_kept db0 js db i j :
  chain_inserted db0 js db → db_jobs db0 !! i = Some j → db_jobs db !! i = Some j.
Proof.
  intros (_ & Hfree & ->) Hi. simpl. apply lookup_union_Some_raw. right. split; [|done].
  apply not_elem_of_list_to_map. rewrite pairs_fst. intros (x & -> & Hx)%list_elem_of_fmap.
  rewrite (Hfree x Hx) in Hi. done.
Qed.

Section Restart.
Context `{Collation} (env : Env) (gen : nat → string) (arg : RestartRunParams) (db : DB) (Hwf : wf db).

Lemma restarted faults updated db' :
  run_op (RestartRun gen arg) env db faults = (inr updated, db') →
  ∃ run wave, restart_checked arg db run wave ∧ db_runs db' !! rr_RunID arg = Some updated ∧
    if rr_FromFailed arg then restart_resumed env arg db run wave db'
    else restart_fresh env gen arg db run wave db'.
Proof using Hwf.
  unfold RestartRun. destruct (negb _); [by unfold run_op, throw|]. intros E.
  exact (transaction_spec _ _ _ env db faults _ db' (RestartRun_body_triple env gen arg db Hwf) eq_refl E).
Qed.

End Restart.

(** A restart opens a new attempt: it is refused unless the run is terminal,
    at the expected attempt, with no active run of its repository; then the run is
    [Running] again at the next attempt, whose jobs are one chain with the planned
    names, the first queued on the run's source commit and the others waiting; no
    existing job row is touched. *)
Theorem restart_new_attempt `{Collation} env gen arg db faults updated db' :
  wf db → rr_FromFailed arg = false →
  run_op (RestartRun gen arg) env db faults = (inr updated, db') →
  ∃ run js, db_runs db !! rr_RunID arg = Some run ∧ IsTerminalRunStatus (run_Status run) = true ∧
    run_Attempt run = rr_ExpectedAttempt arg ∧
    (∀ i r, db_runs db !! i = Some r → run_RepoID r = run_RepoID run →
       IsTerminalRunStatus (run_Status r) = true) ∧
    db_runs db' !! rr_RunID arg = Some updated ∧ run_Status updated = RunStatusRunning ∧
    run_Attempt updated = (run_Attempt run + 1)%Z ∧
    chain_of (db_jobs db') (rr_RunID arg) (run_Attempt run + 1) js ∧
    job_Name <$> js = jp_Name <$> rr_Jobs arg ∧ live_shape (job_Status <$> js) ∧
    job_RepoShaIn <$> head js = Some (run_RepoSha0 run) ∧
    (∀ i j, db_jobs db !! i = Some j → db_jobs db' !! i = Some j).
Proof.
  intros Hwf Hmode E. destruct (restarted env gen arg db Hwf _ _ _ E) as (run & wave & [Hr Ha Ht Hw Hnc Hfree] & Hu & Hpost).
  rewrite Hmode in Hpost. destruct Hpost as (js & Hne & Hb & Hins).
  pose proof (wf_run_key _ Hwf _ _ Hr) as Hid. exists run, js.
  assert (Hupd : updated = next_attempt_row (rr_Stats arg) (env_now env) run).
  { destruct Hins as (_ & _ & ->). simpl in Hu. rewrite Hid, lookup_insert_eq in Hu. congruence. }
  subst updated. split_and!; try done.
  - intros i r Hi Hrepo. rewrite IsTerminalRunStatus_active.
    rewrite (active_repo_run_None db _ (wf_repo _ Hwf _ _ Hr) Hfree i r Hi Hrepo). done.
  - destruct Hins as (Hnd & Hfr & ->). simpl. apply chain_of_new.
    + intros i j Hj Hrid Hat. destruct (wf_job_run _ Hwf _ _ Hj) as (r & Hrr & Hle).
      rewrite Hrid, Hr in Hrr. injection Hrr as <-. lia.
    + intros j Hj. destruct (proj1 (Forall_forall _ _) (built_jobs _ _ _ _ Hb) _ Hj) as (E1 & E2 & _).
      split; [by apply Hfr|]. rewrite E1, E2. done.
    + by eapply built_linked.
    + done.
  - rewrite (built_names _ _ _ _ Hb), list_fmap_compose. by rewrite zip_gen_snd.
  - by eapply built_live.
  - destruct js as [|j js]; [done|]. simpl. by rewrite (built_sha_in _ _ _ _ Hb).
  - intros i j Hj. by eapply (chain_inserted_kept _ js).
Qed.

(** The failed run of the scenario. *)
Definition failed : DB :=
  after (completeJobHandler false None "job0" "n1" (report "job0" "Fail" "")) 3000 claimed.

Lemma failed_wf : wf failed.
Proof.
  unfold failed, after. destruct (run_op _ _ _ _) as [r db'] eqn:E.
  apply (preserving_step quiet _ (env_at 3000) claimed [] r db'); [apply claimed_wf| |exact E].
  split; [by apply small; vm_compute|apply nothing_locked].
Qed.

Definition restart_gen (k : nat) : string := match k with 0 => "r0" | 1 => "r1" | _ => "r2" end.

Definition restart_arg (fromFailed : bool) : RestartRunParams :=
  mkRestartRunParams fromFailed 0 "run1" 1 RawEmpty (default [] (planJobsFromSpec a_spec)).

(** Witness: the failed run starts over. *)
Lemma restart_new_attempt_witness :
  ∃ js db', job_Name <$> js = ["pre-gate"; "mig-0"; "post-gate"] ∧
    chain_of (db_jobs db') "run1" 2 js.
Proof.
  assert (Hv : match (run_op (RestartRun restart_gen (restart_arg false)) (env_at 5000) failed []).1 with
    | inr _ => true | inl _ => false end = true) by (vm_compute; reflexivity).
  destruct (run_op (RestartRun restart_gen (restart_arg false)) (env_at 5000) failed []) as [[e|u] db'] eqn:E;
    [discriminate Hv|].
  destruct (restart_new_attempt (env_at 5000) restart_gen (restart_arg false) failed [] u db' failed_wf eq_refl E)
    as (run & js & _ & _ & Ha & _ & _ & _ & _ & Hc & Hn & _).
  exists js, db'. split.
  - rewrite Hn. vm_compute. reflexivity.
  - rewrite Ha in Hc. exact Hc.
Defined.

(** A resume redoes the failed end of a chain: the run was failed or cancelled
    at the expected resume count, its chain is successes, one failed job with a node
    and a full input commit, then cancelled jobs that never started. The successes
    keep their rows; the failed job is queued again on its node and input commit;
    the others wait again without input; the run is running in the same attempt. *)
Theorem restart_resumes_suffix `{Collation} env gen arg db faults updated db' :
  wf db → rr_FromFailed arg = true →
  run_op (RestartRun gen arg) env db faults = (inr updated, db') →
  ∃ run pre f rest, db_runs db !! rr_RunID arg = Some run ∧
    (run_Status run = RunStatusFail ∨ run_Status run = RunStatusCancelled) ∧
    ResumeCount (run_Stats run) = rr_ExpectedResumeCount arg ∧
    chain_of (db_jobs db) (rr_RunID arg) (run_Attempt run) (pre ++ f :: rest) ∧
    resumable (pre ++ f :: rest) pre f rest ∧
    (∀ j, j ∈ pre → db_jobs db' !! job_ID j = Some j) ∧
    (∃ f', db_jobs db' !! job_ID f = Some f' ∧ job_Status f' = JobStatusQueued ∧
       job_NodeID f' = job_NodeID f ∧ job_RepoShaIn f' = job_RepoShaIn f ∧ job_StartedAt f' = None) ∧
    (∀ j, j ∈ rest → ∃ j', db_jobs db' !! job_ID j = Some j' ∧ job_Status j' = JobStatusCreated ∧
       job_RepoShaIn j' = "" ∧ job_RepoShaOut j' = "") ∧
    run_Status updated = RunStatusRunning ∧ run_Attempt updated = run_Attempt run.
Proof.
  intros Hwf Hmode E. destruct (restarted env gen arg db Hwf _ _ _ E) as (run & wave & [Hr Ha Ht Hw Hnc Hfree] & Hu & Hpost).
  rewrite Hmode in Hpost. destruct Hpost as (Hst & Hrc & c & pre & f & rest & R & Hc & Hres & HR & Hj & Hrs & _).
  pose proof (wf_run_key _ Hwf _ _ Hr) as Hid. pose proof (rs_split _ _ _ _ Hres) as Hsp.
  subst c. rewrite Hid in Hc. exists run, pre, f, rest.
  assert (Hat : ∀ x, x ∈ pre ++ f :: rest → db_jobs db' !! job_ID x = Some (R x)).
  { intros x Hx. apply (ch_elem _ _ _ _ Hc) in Hx as (Hx & _). by rewrite Hj, lookup_fmap, Hx. }
  assert (Hnd : NoDup (job_ID <$> (pre ++ f :: rest))) by apply Hc.
  rewrite fmap_app in Hnd. apply NoDup_app in Hnd as (_ & Hdis & _).
  split_and!; try done.
  - intros x Hx. rewrite Hat by set_solver. f_equal. apply (re_other _ _ _ HR).
    intros Hin. apply (Hdis (job_ID x)); [apply list_elem_of_fmap; eauto|done].
  - exists (R f). rewrite Hat by set_solver. split; [done|].
    destruct (re_at _ _ _ HR 0 f eq_refl) as (m & Hm). rewrite (Hm f eq_refl). done.
  - intros x Hx. exists (R x). rewrite Hat by set_solver. split; [done|].
    apply list_elem_of_lookup in Hx as [k Hk].
    destruct (re_at _ _ _ HR (S k) x Hk) as (m & Hm). rewrite (Hm x eq_refl).
    simpl. done.
  - rewrite Hrs, lookup_fmap, Hr in Hu. injection Hu as <-. unfold resumed_run.
    by rewrite bool_decide_eq_true_2.
  - rewrite Hrs, lookup_fmap, Hr in Hu. injection Hu as <-. unfold resumed_run.
    by case_bool_decide.
Qed.

(** Witness: the failed run goes on from its first gate. *)
Lemma restart_resumes_suffix_witness :
  ∃ u db' f f', run_op (RestartRun restart_gen (restart_arg true)) (env_at 5000) failed [] = (inr u, db') ∧
    (job_Status f = JobStatusFail ∨ job_Status f = JobStatusError) ∧
    db_jobs db' !! job_ID f = Some f' ∧ job_Status f' = JobStatusQueued ∧ job_NodeID f' = job_NodeID f.
Proof.
  assert (Hv : match (run_op (RestartRun restart_gen (restart_arg true)) (env_at 5000) failed []).1 with
    | inr _ => true | inl _ => false end = true) by (vm_compute; reflexivity).
  destruct (run_op (RestartRun restart_gen (restart_arg true)) (env_at 5000) failed []) as [[e|u] db'] eqn:E;
    [discriminate Hv|].
  destruct (restart_resumes_suffix (env_at 5000) restart_gen (restart_arg true) failed [] u db' failed_wf eq_refl E)
    as (run & pre & f & rest & _ & _ & _ & _ & Hres & _ & (f' & Hf' & Hq & Hn & _) & _).
  exists u, db', f, f'. split; [reflexivity|]. split; [exact (rs_failed _ _ _ _ Hres)|].
  split; [exact Hf'|]. split; [exact Hq|exact Hn].
Defined.

(** ** Atomicity *)

(** The store's multi-statement operations are all or nothing: whatever
    statement fails, and whatever the error, the database is unchanged. *)
Theorem store_operations_atomic `{Collation} env db faults :
  (∀ gen wave plans e db', run_op (CreateWaveWithRuns gen wave plans) env db faults = (inl e, db') → db' = db) ∧
  (∀ gen arg e db', run_op (RestartRun gen arg) env db faults = (inl e, db') → db' = db) ∧
  (∀ runID e db', run_op (CancelRun runID) env db faults = (inl e, db') → db' = db) ∧
  (∀ waveID e db', run_op (CancelWave waveID) env db faults = (inl e, db') → db' = db) ∧
  (∀ a e db', run_op (CompleteBootstrapEnrollment a) env db faults = (inl e, db') → db' = db) ∧
  (∀ A jobID count (f : Job → M A) e db',
     run_op (WithJobExecution jobID count f) env db faults = (inl e, db') → db' = db).
Proof.
  assert (Htx : ∀ {A} (m : M A) e db', run_op (transaction m) env db faults = (inl e, db') → db' = db).
  { intros A m e db'. unfold run_op, transaction, session. simpl.
    destruct (head faults) as [[?|]|]; [by intros [= _ <-]|..];
      (destruct (m _) as [[?|a] t]; [by intros [= _ <-]|]; destruct (tx_aborted t); [by intros [= _ <-]|];
       destruct (head (tx_faults t)) as [[?|]|]; by intros [= _ <-]). }
  assert (Hthrow : ∀ {A} e0 e db', run_op (throw (A := A) e0) env db faults = (inl e, db') → db' = db)
    by (by intros A e0 e db' [= _ <-]).
  split_and!; [| |intros ???; apply Htx|intros ???; apply Htx| |intros ?????; apply Htx].
  - intros gen wave [|? ?]; [apply Hthrow|apply Htx].
  - intros gen arg e db'. unfold RestartRun. destruct (negb _); [apply Hthrow|apply Htx].
  - intros a e db'. unfold CompleteBootstrapEnrollment. destruct (_ || _); [apply Hthrow|apply Htx].
Qed.

(** ** Cancellation *)

(** Cancelling a running run without faults: the answer is 200 with the
    cancelled run, its token is released, and exactly the run's row and its active
    jobs change: every active job of the run becomes [Cancelled]. *)
Theorem cancel_run_exact `{Collation} env db registry runID run :
  wf db → db_runs db !! runID = Some run → run_Status run = RunStatusRunning →
  ∃ run' db', run_op (cancelRunHandlerV1 registry runID) env db []
      = (inr (mkResponse 200 (Some run') (ReleaseRunsNil [runID] registry)), db') ∧
    db_runs db' !! runID = Some run' ∧ run_Status run' = RunStatusCancelled ∧
    (∀ i, i ≠ runID → db_runs db' !! i = db_runs db !! i) ∧
    (∀ i j, db_jobs db !! i = Some j → db_jobs db' !! i =
       Some (if bool_decide (job_RunID j = runID) && active_job (job_Status j)
             then cancel_row (env_now env) j else j)).
Proof.
  intros Hwf Hr Hs.
  destruct (total_run_op env _ _ _ db (cancelRunHandler_total env db registry runID run Hwf Hr Hs) eq_refl)
    as (rsp & db' & E & -> & run' & Hr' & Hs' & ->).
  exists run', (cancel_run_db runID (env_now env) db). split_and!; try done.
  - intros i Hne. simpl. rewrite lookup_fmap. destruct (db_runs db !! i) as [x|] eqn:Ex; [|done]. simpl.
    unfold cancels_run. rewrite (wf_run_key _ Hwf _ _ Ex), bool_decide_eq_false_2; done.
  - intros i j Hj. simpl. unfold update. by rewrite lookup_fmap, Hj.
Qed.

(** Witness. *)
Lemma cancel_run_exact_witness :
  ∃ run' db', run_op (cancelRunHandlerV1 None "run1") (env_at 30) claimed []
      = (inr (mkResponse 200 (Some run') None), db') ∧ run_Status run' = RunStatusCancelled.
Proof.
  assert (Hr : ∃ run, db_runs claimed !! "run1" = Some run ∧ run_Status run = RunStatusRunning)
    by (eexists; split; vm_compute; reflexivity).
  destruct Hr as (run & Hr & Hs).
  destruct (cancel_run_exact (env_at 30) claimed None "run1" run claimed_wf Hr Hs)
    as (run' & db' & E & _ & Hs' & _).
  exists run', db'. split; [exact E|exact Hs'].
Defined.

(** A committed wave cancellation leaves nothing active in the wave: the wave
    is terminal, and so is every run of it and every job of those runs; rows of
    other waves are untouched. *)
Theorem cancel_wave_exact `{Collation} env db faults waveID db' :
  wf db → run_op (CancelWave waveID) env db faults = (inr tt, db') →
  (∃ w, db_waves db' !! waveID = Some w ∧ IsTerminalWaveStatus (wave_Status w) = true) ∧
  (∀ i r, db_runs db' !! i = Some r → run_WaveID r = waveID → IsTerminalRunStatus (run_Status r) = true) ∧
  (∀ i j r, db_jobs db' !! i = Some j → db_runs db' !! job_RunID j = Some r → run_WaveID r = waveID →
     terminal_job (job_Status j) = true) ∧
  (∀ i r, db_runs db !! i = Some r → run_WaveID r ≠ waveID → db_runs db' !! i = Some r).
Proof.
  intros Hwf E.
  pose proof (transaction_spec _ _ _ env db faults _ db' (CancelWave_exact env db waveID
    ltac:(intros ??; apply (wf_run_key _ Hwf)) ltac:(intros ??; apply (wf_wave_key _ Hwf))) eq_refl E) as [[w Hw] ->].
  pose proof (cancel_wave_wf waveID (env_now env) db Hwf) as Hwf'.
  assert (Hruns : ∀ i r, db_runs (cancel_wave_db waveID (env_now env) db) !! i = Some r → run_WaveID r = waveID →
    IsTerminalRunStatus (run_Status r) = true).
  { intros i r. simpl. unfold update. rewrite lookup_fmap, fmap_Some. intros (x & Hx & ->) Hwid.
    unfold active_of_wave in *. destruct (_ && _) eqn:Eb; [done|].
    rewrite Hwid, bool_decide_eq_true_2, andb_true_l in Eb by done.
    by rewrite IsTerminalRunStatus_active, Eb. }
  split_and!.
  - simpl. rewrite lookup_fmap, Hw. eexists. split; [done|]. unfold cancels_wave.
    rewrite (wf_wave_key _ Hwf _ _ Hw), bool_decide_eq_true_2 by done. simpl.
    by destruct (IsTerminalWaveStatus (wave_Status w)) eqn:Et.
  - exact Hruns.
  - intros i j r Hj Hr Hwid. unfold terminal_job. destruct (active_job (job_Status j)) eqn:Ea; [|done].
    destruct (active_job_live _ Hwf' _ _ _ Hj Ea Hr) as [Hrs _].
    pose proof (Hruns _ _ Hr Hwid) as Ht. by rewrite Hrs in Ht.
  - intros i r Hr Hne. simpl. unfold update. rewrite lookup_fmap, Hr. simpl. unfold active_of_wave.
    by rewrite bool_decide_eq_false_2.
Qed.

(** Witness. *)
Lemma cancel_wave_exact_witness :
  ∃ db', run_op (CancelWave "wave1") (env_at 30) launched2 [] = (inr tt, db') ∧
    ∃ w, db_waves db' !! "wave1" = Some w ∧ IsTerminalWaveStatus (wave_Status w) = true.
Proof.
  run_sample (CancelWave "wave1") (env_at 30) launched2 (inr (A := Err) tt).
  exists db'. split; [reflexivity|].
  destruct (cancel_wave_exact (env_at 30) launched2 [] "wave1" db' launched2_wf E) as (Hw & _). exact Hw.
Defined.
