(* ===== verification/DataProps.v ===== *)
(** * Properties of chains, tokens, enrollment, planning and encodings *)

From stdpp Require Import base gmap sets list sorting strings pretty.
From S2P Require Import Prelude GoStrings Types Json JobMeta JobMetaCodec Db Tx Queries JobChain.
From S2P Require Import Hydra Spec Lifecycle Tokens Store Plan Recovery Handlers Completion.
From S2P Require Import Chains Invariant ClaimSafety CancelSafety LaunchSafety RestartSafety.
From S2P Require Import AuthSafety CompletionSafety HandlerSafety Machine Sample.
From Stdlib Require Import ZArith Lia.
Local Open Scope list_scope.

(** ** Job chains *)

(** C35. Reconstructing the order of an attempt's jobs loses and repeats none of
    them, whatever their pointers; when the rows are those of a chain, in any order
    of the result set, the chain itself comes out. *)
Theorem order_reconstructs_chain {T} (idOf : T → string) (nextOf : T → option string) items :
  NoDup (idOf <$> items) →
  Order idOf nextOf items ≡ₚ items ∧
  ∀ c, items ≡ₚ c → linked idOf nextOf c → Forall (λ x, IsZero (idOf x) = false) c →
    Order idOf nextOf items = c.
Proof.
  intros Hnd. split; [by apply Order_perm|]. intros c Hc Hl Hz.
  apply Order_chain; [done|done|by rewrite <-Hc|done].
Qed.

(** Witness of C35: three jobs listed out of order. *)
Lemma order_reconstructs_chain_witness :
  Order fst snd [("c", None); ("a", Some "b"); ("b", Some "c")]
  = [("a", Some "b"); ("b", Some "c"); ("c", None)].
Proof.
  apply (order_reconstructs_chain fst snd [("c", None); ("a", Some "b"); ("b", Some "c")]).
  - apply (bool_decide_eq_true_1 (NoDup ["c"; "a"; "b"])). vm_compute. reflexivity.
  - apply (bool_decide_eq_true_1 _). vm_compute. reflexivity.
  - intros [|[|[|k]]] x [= <-]; reflexivity.
  - repeat constructor.
Defined.

(** ** Ephemeral tokens *)

(** Registering a token for runs makes it available under its hash, moves
    exactly the named runs to that hash (a run that had another token leaves it),
    and keeps the registry consistent: a token is available exactly while some run
    is registered under its hash. *)
Theorem registry_register hash token runIDs r id0 :
  registry_ok r → trim_space hash ≠ "" → trim_space token ≠ "" →
  id0 ∈ runIDs → IsZero id0 = false →
  registry_ok (Register hash token runIDs r) ∧
  Token (Register hash token runIDs r) hash = Some (trim_space token) ∧
  (∀ id, rg_runHash (Register hash token runIDs r) !! id =
     if decide (id ∈ runIDs ∧ IsZero id = false) then Some (trim_space hash) else rg_runHash r !! id) ∧
  (∀ h, trim_space h = h → is_Some (Token (Register hash token runIDs r) h) ↔
     ∃ id, rg_runHash (Register hash token runIDs r) !! id = Some h).
Proof.
  intros Hr Hh Ht Hid Hz. pose proof (Register_ok _ _ _ _ Hr Hh Ht _ Hid Hz) as Hok.
  pose proof (Register_runHash _ _ _ _ Hr Hh Ht _ Hid Hz) as Hrh. split_and!; [done| |done|].
  - pose proof (Hrh id0) as H0. rewrite decide_True in H0 by done.
    apply (reg_linked _ Hok) in H0 as (e & He & _).
    unfold Token. rewrite decide_False, He by done.
    destruct (reg_nonblank _ Hok _ _ He) as (_ & _ & Htr & Hne).
    rewrite Htr, decide_False by done.
    rewrite (Register_fold _ _ _ _ Hh Ht _ Hid) in He. apply register_runs_token in He as (e0 & He0 & ->).
    simpl in He0. rewrite lookup_insert_eq in He0. by injection He0 as <-.
  - intros h Heq. by apply Token_available.
Qed.

(** Witness: a run is moved from one token to another. *)
Lemma registry_register_witness :
  Token (Register "h2" "t2" ["run1"] (Register "h1" "t1" ["run1"] NewRegistry)) "h2" = Some "t2".
Proof.
  destruct (registry_register "h1" "t1" ["run1"] NewRegistry "run1") as (Hok & _);
    [apply NewRegistry_ok|discriminate|discriminate|left|reflexivity|].
  destruct (registry_register "h2" "t2" ["run1"] (Register "h1" "t1" ["run1"] NewRegistry) "run1")
    as (_ & H & _); [exact Hok|discriminate|discriminate|left|reflexivity|]. exact H.
Defined.

(** Releasing runs forgets exactly them, keeps the registry consistent, and
    drops a token precisely when no run is left under its hash. *)
Theorem registry_release ids r h :
  registry_ok r → trim_space h = h →
  registry_ok (ReleaseRuns ids r) ∧
  (∀ id, rg_runHash (ReleaseRuns ids r) !! id = if decide (id ∈ ids) then None else rg_runHash r !! id) ∧
  (is_Some (Token (ReleaseRuns ids r) h) ↔ ∃ id, id ∉ ids ∧ rg_runHash r !! id = Some h).
Proof.
  intros Hr Hh. pose proof (ReleaseRuns_ok ids r Hr) as Hok. split_and!; [done| |].
  - intros id. by apply ReleaseRuns_runHash.
  - rewrite Token_available by done. setoid_rewrite ReleaseRuns_runHash; [|done].
    split; intros [id Hid]; exists id; destruct (decide (id ∈ ids)); naive_solver.
Qed.

(** Witness: the last run of a token takes it away. *)
Lemma registry_release_witness :
  rg_runHash (ReleaseRuns ["run1"] (Register "h1" "t1" ["run1"] NewRegistry)) !! "run1" = None ∧
  Token (Register "h1" "t1" ["run1"] NewRegistry) "h1" = Some "t1" ∧
  Token (ReleaseRuns ["run1"] (Register "h1" "t1" ["run1"] NewRegistry)) "h1" = None.
Proof.
  destruct (registry_release ["run1"] (Register "h1" "t1" ["run1"] NewRegistry) "h1") as (_ & Hh & _).
  - apply (Register_ok "h1" "t1" ["run1"] NewRegistry NewRegistry_ok ltac:(discriminate)
      ltac:(discriminate) "run1"); [left|reflexivity].
  - reflexivity.
  - split; [exact (Hh "run1")|]. split; vm_compute; reflexivity.
Defined.

(** A restart that is refused because the run is still active answers 409 and
    changes no row, yet the run's registration of its token is gone: the handler
    registers the new token first and releases the run when the restart fails. *)
Theorem restart_refused_drops_token `{Collation} `{GoFmt} `{SpecLib} env Hash host schemeAndHost EqualFold gen
    db reg runID run repo spec plans token hash tok stats fromFailed :
  wf db → db_runs db !! runID = Some run → run_Status run = RunStatusRunning →
  registry_ok reg → IsZero runID = false →
  db_repos db !! run_RepoID run = Some repo → db_specs db !! run_SpecID run = Some spec →
  planJobsFromSpec (sp_Spec spec) = Some plans →
  validateGitLabTokenRequestForRepos Hash host schemeAndHost EqualFold (Some token) [repo_Url repo]
    = Some (hash, tok) →
  trim_space hash ≠ "" → RunStatsWithMarker hash = Some stats →
  ∃ reg', run_op (restartRunHandler Hash host schemeAndHost EqualFold gen (Some reg) runID
                    (mkRunRestartRequest fromFailed (Some token))) env db []
          = (inr (mkResponse 409 None (Some reg')), db) ∧
          rg_runHash reg' !! runID = None.
Proof. intros. by eapply restart_active_drops_token. Qed.

(** A hash function with the right shape, and a host test that accepts the
    scenario's repository. *)
Definition a_hash (_ : string) : string :=
  "aaaaaaaaaaaaaaaaaaaaaaaaaaaaaaaaaaaaaaaaaaaaaaaaaaaaaaaaaaaaaaaa".
Definition a_host (_ : string) : string * string := ("https", "gitlab.example").
Definition a_registry : Registry := Register "old" "oldtoken" ["run1"] NewRegistry.

Lemma a_registry_ok : registry_ok a_registry.
Proof.
  apply (Register_ok "old" "oldtoken" ["run1"] NewRegistry NewRegistry_ok ltac:(discriminate)
    ltac:(discriminate) "run1"); [left|reflexivity].
Qed.

(** Witness: the token of the running run of the scenario is lost. *)
Lemma restart_refused_drops_token_witness :
  rg_runHash a_registry !! "run1" = Some "old" ∧
  ∃ reg', run_op (restartRunHandler a_hash "gitlab.example" a_host String.eqb a_gen (Some a_registry)
                    "run1" (mkRunRestartRequest false (Some "newtoken"))) (env_at 20) launched []
          = (inr (mkResponse 409 None (Some reg')), launched) ∧
          rg_runHash reg' !! "run1" = None.
Proof.
  split; [vm_compute; reflexivity|].
  assert (Hrow : ∃ run, db_runs launched !! "run1" = Some run ∧ run_Status run = RunStatusRunning ∧
    db_repos launched !! run_RepoID run = Some a_repo ∧ db_specs launched !! run_SpecID run = Some a_row)
    by (eexists; split; [vm_compute; reflexivity|split_and!; vm_compute; reflexivity]).
  destruct Hrow as (run & Hrun & Hst & Hrepo & Hspec).
  assert (Hpl : ∃ plans, planJobsFromSpec a_spec = Some plans) by (eexists; vm_compute; reflexivity).
  destruct Hpl as (plans & Hpl).
  apply (restart_refused_drops_token (env_at 20) a_hash "gitlab.example" a_host String.eqb a_gen
    launched a_registry "run1" run a_repo a_row plans "newtoken" (a_hash "newtoken") "newtoken"
    (RawJson (JObj [("metadata", JObj [(RunMetadataKey, JStr (a_hash "newtoken"))])])) false
    launched_wf Hrun Hst a_registry_ok eq_refl Hrepo Hspec Hpl); [vm_compute; reflexivity|discriminate|
    vm_compute; reflexivity].
Defined.

(** ** Enrollment *)

(** Enrollment is exact and single-use: it succeeds only with an unused,
    unrevoked token bound to a new node, and then enters that node with its
    certificate and marks the token used in one step; when it fails nothing has
    changed; and with a token that is used, revoked, unknown or bound to another
    node it always fails. *)
Theorem enrollment_exact env a db faults r db' :
  run_op (CompleteBootstrapEnrollment a) env db faults = (r, db') →
  match r with
  | inr _ => may_enroll a db ∧ db' = enrolled_db env a db ∧
             (bt_UsedAt <$> db_bootstrap_tokens db' !! be_TokenID a) = Some (Some (env_now env))
  | inl _ => db' = db
  end ∧
  ((∀ tok, db_bootstrap_tokens db !! be_TokenID a = Some tok →
      bt_UsedAt tok ≠ None ∨ bt_RevokedAt tok ≠ None ∨ bt_NodeID tok ≠ Some (be_NodeID a)) →
   ∃ e, r = inl e).
Proof.
  intros E. pose proof (triple_run_op _ _ _ _ _ _ _ _ _ (enroll_triple env a db) eq_refl E) as Hr.
  destruct r as [e|u]; [split; [exact Hr|eauto]|]. destruct Hr as [Hm ->].
  destruct (me_token _ _ Hm) as (tok & Htok & Hn & Hu & Hv). split.
  - split_and!; [done|done|]. simpl. by rewrite lookup_alter_eq, Htok.
  - intros Hbad. destruct (Hbad tok Htok) as [?|[?|?]]; done.
Qed.

(** The token of the scenario enrolls node n9. *)
Definition an_enrollment : CompleteBootstrapEnrollmentParams :=
  mkBootstrapParams "tok1" "n9" "serial" "fingerprint" 0 100.

(** Witness. *)
Lemma enrollment_exact_witness :
  ∃ db', run_op (CompleteBootstrapEnrollment an_enrollment) (env_at 5) seed [] = (inr tt, db') ∧
    db' = enrolled_db (env_at 5) an_enrollment seed.
Proof.
  run_sample (CompleteBootstrapEnrollment an_enrollment) (env_at 5) seed (inr tt : Err + unit).
  exists db'. split; [reflexivity|].
  exact (proj1 (proj2 (proj1 (enrollment_exact (env_at 5) an_enrollment seed [] (inr tt) db' E)))).
Defined.

(** Only one node can ever be enrolled this way: after one enrollment every
    other fails, whatever its token and node, because the placeholder address
    0.0.0.0 of the first node is unique in [nodes]. *)
Theorem second_enrollment_fails env a db faults db' :
  run_op (CompleteBootstrapEnrollment a) env db faults = (inr tt, db') →
  ∀ env' a' faults', ∃ e, run_op (CompleteBootstrapEnrollment a') env' db' faults' = (inl e, db').
Proof.
  intros E env' a' faults'.
  pose proof (triple_run_op _ _ _ _ _ _ _ _ _ (enroll_triple env a db) eq_refl E) as [_ ->].
  destruct (run_op (CompleteBootstrapEnrollment a') env' (enrolled_db env a db) faults') as [r db2] eqn:E2.
  pose proof (triple_run_op _ _ _ _ _ _ _ _ _ (enroll_triple env' a' (enrolled_db env a db)) eq_refl E2) as Hr.
  destruct r as [e|u]; [by rewrite Hr; eauto|]. destruct Hr as [Hm _]. exfalso.
  refine (me_addr _ _ Hm (be_NodeID a) (enrolled_node env a) _ eq_refl).
  simpl. by rewrite lookup_insert_eq.
Qed.

(** Witness: a second node with a valid token of its own is refused. *)
Definition seed2 : DB :=
  set_db_bootstrap_tokens (<["tok2" := mkBootstrapToken "hash2" "tok2" (Some "n8") 0 None None None None None]>
    (db_bootstrap_tokens seed)) seed.

Lemma second_enrollment_fails_witness :
  ∃ e db', run_op (CompleteBootstrapEnrollment an_enrollment) (env_at 5) seed2 [] = (inr tt, db') ∧
    run_op (CompleteBootstrapEnrollment (mkBootstrapParams "tok2" "n8" "s" "f" 0 100))
      (env_at 6) db' [] = (inl e, db').
Proof.
  run_sample (CompleteBootstrapEnrollment an_enrollment) (env_at 5) seed2 (inr tt : Err + unit).
  destruct (second_enrollment_fails (env_at 5) an_enrollment seed2 [] db' E (env_at 6)
    (mkBootstrapParams "tok2" "n8" "s" "f" 0 100) []) as [e He].
  exists e, db'. split; [reflexivity|exact He].
Defined.

(** ** Planning *)

(** An accepted spec is always planned: a pre-gate, one job per step, of which
    there is at least one, and a post-gate, the gates only when the build gate is not
    disabled; the names are distinct, so a resumed run finds the plan of each job
    by its name; and the metadata of every plan reads back as it was written, but for
    bytes of a step's name that are not UTF-8. *)
Theorem plan_shape `{GoFmt} `{SpecLib} j spec :
  ParseMigSpecJSON (RawJson j) = inr spec → (Z.of_nat (length (spec_Steps spec)) ≤ max_int64)%Z →
  ∃ plans, planJobsFromSpec j = Some plans ∧
    jp_JobType <$> plans =
      (if buildGateDisabled spec then [] else [JobTypePreGate])
      ++ replicate (length (spec_Steps spec)) JobTypeMig
      ++ (if buildGateDisabled spec then [] else [JobTypePostGate]) ∧
    spec_Steps spec ≠ [] ∧ NoDup (jp_Name <$> plans) ∧
    (∀ p, p ∈ plans → plan_named (jp_Name p) plans = Some p) ∧
    (∀ k p, plans !! k = Some p → ∃ d meta, drafts spec !! k = Some d ∧
       jp_Meta p = RawJson meta ∧ UnmarshalJobMeta meta = Some (clean_meta (draft_meta d)) ∧
       jmt_MigStepName (draft_meta d) = dr_stepName d).
Proof.
  intros Hp Hl. destruct (plan_spec j spec Hp) as (plans & Hpl & Hf).
  destruct (plan_names j spec plans Hp Hpl) as [Hn Ht].
  assert (Hnd : NoDup (jp_Name <$> plans)) by (rewrite Hn; apply drafts_names).
  assert (Hs : spec_Steps spec ≠ []) by (by apply parsed_ok in Hp as [? _]).
  exists plans. split_and!; [done| |done|done|intros p; by apply plan_named_spec|].
  { rewrite Ht, drafts_types. rewrite Nat.max_r; [done|]. destruct (spec_Steps spec); [done|simpl; lia]. }
  intros k p Hk. destruct (Forall2_lookup_r _ _ _ _ _ Hf Hk) as (d & Hd & Hpd).
  unfold plan_draft in Hpd. destruct (MarshalJobMeta (draft_meta d)) as [meta|] eqn:Em; [|done].
  injection Hpd as <-. exists d, meta. split_and!; [done|done| |apply draft_meta_step].
  eapply draft_meta_roundtrip; [|by eapply drafts_index|done].
  pose proof (drafts_ok spec) as Hok. rewrite Forall_lookup in Hok. by eapply Hok.
Qed.

(** Witness: a spec with two steps and gates. *)
Definition two_steps : json :=
  JObj [("steps", JArr [JObj [("name", JStr "one"); ("image", JStr "img1")]; JObj [("image", JStr "img2")]])].

Lemma plan_shape_witness :
  ∃ plans, planJobsFromSpec two_steps = Some plans ∧
    jp_JobType <$> plans = [JobTypePreGate; JobTypeMig; JobTypeMig; JobTypePostGate].
Proof.
  assert (Hp : ∃ spec, ParseMigSpecJSON (RawJson two_steps) = inr spec ∧ length (spec_Steps spec) = 2 ∧
    buildGateDisabled spec = false) by (eexists; split_and!; reflexivity).
  destruct Hp as (spec & Hp & Hlen & Hg).
  destruct (plan_shape two_steps spec Hp) as (plans & Hpl & Ht & _); [rewrite Hlen; done|].
  rewrite Hlen, Hg in Ht.
  exists plans. split; [exact Hpl|exact Ht].
Defined.

(** ** Encodings *)

(** C36. Job metadata survives its encoding and its column. What is decoded from the bytes
    written for valid metadata, and from what a [jsonb] column makes of them (its own
    order of keys), is that metadata, with every byte of a string that is not UTF-8
    replaced by U+FFFD and the digest and the releases trimmed; if all its strings are UTF-8 and those are
    trimmed, it is the metadata itself. Encoding fails only for metadata that does not
    validate or whose log digest is malformed. This holds for metadata whose integers
    fit the 64 bits of an [int], whose gate cycle name (which only the planner sets) is
    UTF-8, and which has no build metrics (nothing in the repository writes them; their
    numbers would come back as [float64]). A column refuses a document with a NUL
    character; this is about those it takes. *)
Theorem job_meta_roundtrip `{GoFmt} m :
  meta_ints m = true → no_metrics m → utf8_valid (jmt_GateCycleName m) = true →
  match MarshalJobMeta m with
  | Some j => UnmarshalJobMeta j = Some (norm_meta (clean_meta m)) ∧
              UnmarshalJobMeta (jsonb_of j) = Some (norm_meta (clean_meta m)) ∧
              (clean_meta m = m → norm_meta m = m → UnmarshalJobMeta (jsonb_of j) = Some m)
  | None => JobMeta_Validate m = false ∨
            ∃ g, jmt_GateMetadata m = Some g ∧ bg_LogDigest g ≠ "" ∧
                 is_sha256_digest (trim_space (bg_LogDigest g)) = false
  end.
Proof.
  intros Hi Hb Hu. destruct (MarshalJobMeta m) as [j|] eqn:E.
  - destruct (JobMeta_roundtrip m j Hi Hb Hu E) as [H1 H2]. split_and!; [done|done|]. intros Hc Hn. by rewrite H2, Hc, Hn.
  - unfold MarshalJobMeta, enc_JobMeta in E. destruct (JobMeta_Validate m); [right|by left].
    destruct (jmt_GateMetadata m) as [g|]; [|done]. exists g. split; [done|].
    unfold enc_BuildGateStageMetadata, enc_digest in E.
    destruct (decide (bg_LogDigest g = "")) as [|Hne]; [done|]. split; [done|].
    by destruct (is_sha256_digest _).
Qed.

(** Gate metadata with a finding, a failed check and a stack mismatch. *)
Definition a_gate_meta : JobMeta :=
  NewGateJobMeta (Some (mkBuildGateStageMetadata
    ("sha256:" +:+ a_hash "")
    [mkStaticCheckReport "java" "maven" false [mkStaticCheckFailure "" "A.java" 12 0 "error" "bad"]]
    "mvn verify" (Some (mkStackExpectation "java" "maven" " 17 ")) [mkLogFinding "" "error" "boom" "trace"]
    (Some (mkStackGateResult true None (Some (mkStackExpectation "java" "" "")) "" "mismatch" ""))
    "does not compile")).

(** Witness of C36: a finding with a byte that is not UTF-8. *)
Definition a_dirty_meta : JobMeta :=
  match jmt_GateMetadata a_gate_meta with
  | Some g => NewGateJobMeta (Some (mkBuildGateStageMetadata (bg_LogDigest g) (bg_StaticChecks g) (bg_ExecutedCommand g)
      (bg_Detected g) [mkLogFinding "" "error" ("boom" +:+ of_bytes [b 255]) ""] (bg_StackGate g) (bg_BugSummary g)))
  | None => a_gate_meta
  end.

Lemma job_meta_roundtrip_witness :
  ∃ j, MarshalJobMeta a_dirty_meta = Some j ∧ UnmarshalJobMeta (jsonb_of j) = Some (norm_meta (clean_meta a_dirty_meta)) ∧
    (g ← jmt_GateMetadata (clean_meta a_dirty_meta); lf_Message <$> head (bg_LogFindings g))
      = Some ("boom" +:+ of_bytes [b 239; b 191; b 189]).
Proof.
  pose proof (job_meta_roundtrip a_dirty_meta ltac:(vm_compute; reflexivity) ltac:(by intros ?) ltac:(vm_compute; reflexivity)) as H.
  assert (Hs : is_Some (MarshalJobMeta a_dirty_meta)) by (vm_compute; eexists; reflexivity).
  destruct (MarshalJobMeta a_dirty_meta) as [j|]; [|destruct Hs; discriminate].
  exists j. split; [reflexivity|]. split; [exact (proj1 (proj2 H))|vm_compute; reflexivity].
Defined.

(** The token marker written into a run's statistics reads back as the trimmed
    hash, and only 64 lower-case hexadecimal digits are ever written. *)
Theorem token_marker_roundtrip hash :
  match RunStatsWithMarker hash with
  | Some stats => HashFromRunStats stats = trim_space hash ∧
                  (trim_space hash ≠ "" → String.length (trim_space hash) = 64 ∧
                     forallb is_hex_lower (to_bytes (trim_space hash)) = true)
  | None => trim_space hash ≠ "" ∧ (String.length (trim_space hash) ≠ 64 ∨
                     forallb is_hex_lower (to_bytes (trim_space hash)) = false)
  end.
Proof.
  destruct (RunStatsWithMarker hash) as [stats|] eqn:E.
  - split; [by apply marker_roundtrip|]. intros Hne. unfold RunStatsWithMarker in E.
    rewrite decide_False in E by done.
    destruct (String.length _ =? 64)%nat eqn:El; [|done]. destruct (forallb _ _); [|done].
    by apply Nat.eqb_eq in El.
  - unfold RunStatsWithMarker in E. destruct (decide _) as [|Hne]; [done|]. split; [done|].
    destruct (String.length _ =? 64)%nat eqn:El; [|left; by apply Nat.eqb_neq].
    right. by destruct (forallb _ _).
Qed.

(** Normalising a commit SHA accepts exactly the texts that are forty
    hexadecimal digits once trimmed and lower-cased, gives a canonical SHA, and is
    the identity on canonical SHAs. *)
Theorem commit_sha_normal_form raw :
  match NormalizeFullCommitSHA raw with
  | Some n => IsCanonicalFullCommitSHA n = true ∧ NormalizeFullCommitSHA n = Some n ∧
              n = to_lower (trim_space raw)
  | None => ~ (String.length (to_lower (trim_space raw)) = 40 ∧
               forallb is_hex_lower (to_bytes (to_lower (trim_space raw))) = true)
  end ∧
  (IsCanonicalFullCommitSHA raw = true ↔ NormalizeFullCommitSHA raw = Some raw).
Proof.
  assert (Hiff : ∀ r, IsCanonicalFullCommitSHA r = true ↔ NormalizeFullCommitSHA r = Some r).
  { intros r. unfold IsCanonicalFullCommitSHA. destruct (NormalizeFullCommitSHA r) as [n|]; [|done].
    rewrite bool_decide_eq_true. split; [by intros ->|by intros [= ->]]. }
  split; [|apply Hiff]. destruct (NormalizeFullCommitSHA raw) as [n|] eqn:E.
  - apply normalize_sha_canonical in E as Hc. split_and!; [done|by apply Hiff|].
    unfold NormalizeFullCommitSHA in E. destruct (_ && _); [|done]. by injection E as <-.
  - unfold NormalizeFullCommitSHA in E. destruct (_ && _) eqn:Eb; [done|]. intros [Hl Hh].
    apply Nat.eqb_eq in Hl. by rewrite Hl, Hh in Eb.
Qed.

(** After a resume the run's resume count, which fences later completions, is
    the one the statement wrote, whatever the earlier statistics and the caller's
    statistics held. *)
Theorem resume_count_wins fs gs count now :
  canonical_key "resume_count" fs → unique_keys fs → canonical_key "resume_count" gs →
  in_int64 count = true →
  ResumeCount (jsonb_concat (jsonb_concat (JObj fs) (JObj gs)) (resume_stats count now)) = count.
Proof. apply resume_count_written. Qed.

(** Witness: the caller's statistics carry a stale count. *)
Lemma resume_count_wins_witness :
  ResumeCount (jsonb_concat (jsonb_concat (JObj [("resume_count", JInt 2)]) (JObj [("resume_count", JInt 9)]))
    (resume_stats 3 "now")) = 3%Z.
Proof.
  apply (resume_count_wins [("resume_count", JInt 2)] [("resume_count", JInt 9)] 3 "now").
  - repeat constructor.
  - repeat constructor. apply not_elem_of_nil.
  - repeat constructor.
  - reflexivity.
Defined.

(** The walk that cancels the jobs after a failure terminates on any pointers,
    cycles included: one round more than there are rows is enough, and more rounds
    would change nothing. *)
Theorem cancel_walk_terminates now (byID : gmap string Job) next k t :
  cancel_walk (S (size byID) + k) now byID ∅ next t = cancel_walk (S (size byID)) now byID ∅ next t.
Proof.
  apply cancel_walk_fuel. rewrite difference_empty_L, size_dom. lia.
Qed.
