(* ===== verification/SpecProps.v ===== *)
(** * Properties of specs, their files, and what a claim makes of them *)

From stdpp Require Import base gmap sets list sorting relations strings.
From S2P Require Import Prelude GoStrings Types Json JobMeta Hydra Spec Db Tx Queries JobChain.
From S2P Require Import Lifecycle Tokens Config ClaimSpec Store Plan Recovery Completion Claim Chains.
From S2P Require Import Claim Invariant ClaimSafety ClaimService Machine Sample.
From Stdlib Require Import ZArith Lia.
Local Open Scope list_scope.

(** ** Stored entries *)

(** An entry of a spec's file lists is accepted only when its destination, once
    cleaned, lies below the root of its kind: plain components, no parent
    directory, nothing outside [/in], [/out], [/tmp] or the home directory. A list
    is accepted exactly when all entries are and no two share a destination, and a
    canonical entry reads back as it was written. *)
Theorem stored_entries_stay_below_root k :
  (∀ s p, ParseStoredEntry k s = inr p →
     below_root k (pse_Dst p) ∧ path_clean (pse_Dst p) = pse_Dst p) ∧
  (∀ entries, ValidateHydraEntries k entries = None ↔
     ∃ ps, Forall2 (λ e p, ParseStoredEntry k e = inr p) entries ps ∧ NoDup (pse_Dst <$> ps)) ∧
  (∀ hash dst, IsHydraShortHash hash = true → below_root k dst → trim_space dst ≠ "" →
     let e := print_entry (mkParsedStoredEntry hash dst false) in
     read_only_suffix k e = false →
     ParseStoredEntry k e = inr (mkParsedStoredEntry hash dst (bool_decide (k = HydraFileIn)))).
Proof.
  split_and!.
  - intros s p Hp. pose proof (parsed_below_root k s p Hp) as Hb. split; [done|].
    by apply (below_clean k).
  - apply ValidateHydraEntries_ok.
  - intros. by apply parse_print.
Qed.

(** ** The spec of a claimed job *)

(** The spec a node receives is the run's spec with the job's identifier, the
    server's environment and the server's bundles merged in, and the spec always
    wins: a variable the spec sets keeps its value, another one comes from the
    overlay of the job type, then from the entry for that type of job, then from
    the entry for nodes; keys the merge does not own are untouched. In a mig job
    every step keeps its own files and gains those of the server whose destination
    is free, and a list of files that was valid stays valid. *)
Theorem claim_spec_merge `{GoFloat} h spec jobID t out :
  holder_ok h → mutateClaimSpec (holder_input h spec jobID t) = inr out →
  ∃ fs gs, parseSpecObjectStrict spec = Some fs ∧ out = JObj gs ∧
    obj_get "job_id" gs = Some (JStr jobID) ∧
    (∀ k, k ∉ ["job_id"; "envs"; "bundle_map"; "steps"] → obj_get k gs = obj_get k fs) ∧
    (∀ k, field_of "envs" gs k =
       match field_of "envs" fs k with Some v => Some v | None => JStr <$> server_env h t k end) ∧
    (ch_bundleMap h ≠ ∅ → ∀ hash, field_of "bundle_map" gs hash =
       match field_of "bundle_map" fs hash with
       | Some (JStr s) => Some (JStr s)
       | _ => JStr <$> ch_bundleMap h !! hash
       end) ∧
    (t ≠ JobTypeMig → obj_get "steps" gs = obj_get "steps" fs) ∧
    (t = JobTypeMig → ∀ steps n step k ss,
       obj_get "steps" fs = Some (JArr steps) → steps !! n = Some (JObj step) →
       k = HydraFileIn ∨ k = HydraFileOut →
       block_list k step = JStr <$> ss → ValidateHydraEntries k ss = None →
       let server := match k with HydraFileIn => hjc_In (the_overlay h t) | _ => hjc_Out (the_overlay h t) end in
       ∃ steps' step' added, obj_get "steps" gs = Some (JArr steps') ∧ length steps' = length steps ∧
         steps' !! n = Some (JObj step') ∧
         block_list k step' = JStr <$> (ss ++ added) ∧ added `sublist_of` server ∧
         ValidateHydraEntries k (ss ++ added) = None ∧
         Forall (λ s, ∃ p e p', ParseStoredEntry k s = inr p ∧ e ∈ ss ++ added ∧
                   ParseStoredEntry k e = inr p' ∧ pse_Dst p' = pse_Dst p) server).
Proof.
  intros Hok Hm. destruct (mutateClaimSpec_spec h spec jobID t out Hok Hm)
    as (fs & gs & Hp & -> & Hid & Hother & Henv & Hb & _ & Hgate & Hmig).
  exists fs, gs. split_and!; [done..|]. intros Ht steps n step k ss Hs Hn Hk Hbl Hv server.
  specialize (Hmig Ht). unfold steps_merged in Hmig. rewrite Hs in Hmig.
  destruct steps as [|s0 l]; [done|]. destruct Hmig as (steps' & Hmerge & Hgs).
  destruct (merge_steps_lookup _ _ _ _ Hmerge) as [Hlen Hl].
  destruct (lookup_lt_is_Some_2 steps' n) as [s' Hs'].
  { rewrite Hlen. by eapply lookup_lt_Some. }
  destruct (Hl n _ _ Hn Hs') as (step' & -> & Hst).
  destruct (merge_step_valid _ _ _ _ Hst) as [_ Hmv].
  destruct (Hmv k ss Hk Hbl Hv) as (added & Hb' & Hv' & Hsub & Hall).
  exists steps', step', added. split_and!; [done..|]. eapply Forall_impl; [exact Hall|].
  intros s (p & Hps & e & p' & ? & ? & ?). eauto 8.
Qed.

(** A server with an overlay for mig jobs, a variable for steps and nodes, and a
    bundle. *)
Definition some_config : ConfigHolder :=
  AddBundleMapping "abcdef0" "bundle1"
    (SetConfigIn "mig" [mkConfigInEntry "abcdef0:/in/ca.pem" "/in/ca.pem" "mig";
                        mkConfigInEntry "abcdef1:/in/own.txt" "/in/own.txt" "mig"]
      (SetGlobalEnvVar "TOKEN" (mkGlobalEnvVar "nodes" GlobalEnvTargetNodes false)
        (SetGlobalEnvVar "TOKEN" (mkGlobalEnvVar "steps" GlobalEnvTargetSteps true)
          (NewConfigHolder ∅)))).

Definition some_spec : json :=
  JObj [("envs", JObj [("OWN", JStr "1")]);
        ("steps", JArr [JObj [("image", JStr "img"); ("in", JArr [JStr "abcdef2:/in/own.txt"])]])].

Lemma some_config_ok : holder_ok some_config.
Proof.
  assert (H0 : holder_ok (NewConfigHolder ∅)) by (intros k l; simpl; by rewrite lookup_empty).
  apply (SetGlobalEnvVar_spec "TOKEN" (mkGlobalEnvVar "steps" GlobalEnvTargetSteps true)) in H0 as [H1 _].
  apply (SetGlobalEnvVar_spec "TOKEN" (mkGlobalEnvVar "nodes" GlobalEnvTargetNodes false)) in H1 as [H2 _].
  exact H2.
Qed.

(** Witness: the step keeps its own file, and gets the certificate. *)
Lemma claim_spec_merge_witness :
  ∃ gs, mutateClaimSpec (holder_input some_config some_spec "job1" JobTypeMig) = inr (JObj gs) ∧
    field_of "envs" gs "TOKEN" = Some (JStr "steps") ∧
    ∃ step', obj_get "steps" gs = Some (JArr [JObj step']) ∧
      block_list HydraFileIn step' = [JStr "abcdef2:/in/own.txt"; JStr "abcdef0:/in/ca.pem"].
Proof.
  destruct (mutateClaimSpec (holder_input some_config some_spec "job1" JobTypeMig)) as [e|out] eqn:E;
    [vm_compute in E; discriminate E|].
  destruct (claim_spec_merge some_config some_spec "job1" JobTypeMig out some_config_ok E)
    as (fs & gs & Hp & -> & _ & _ & Henv & _ & _ & _).
  vm_compute in Hp. injection Hp as <-. exists gs. split; [reflexivity|]. split; [rewrite Henv; reflexivity|].
  vm_compute in E. injection E as <-. eexists. split; reflexivity.
Defined.

(** C18. What a node receives from a claim is the job it now runs: the job is
    running on that node, the payload carries that job, its run with the current
    resume count, the repository and the merged spec, and the stack is the one
    detected by the nearest earlier gate of the attempt that detected one, in
    whatever order the server's maps are visited and whatever statements fail. *)
Theorem claim_payload_faithful `{Collation} `{GoFmt} `{GoFloat} `{MapOrder} env config db faults nodeID p db' :
  wf db → run_op (Claim (buildJobClaimPayload config) nodeID) env db faults = (inr (ClaimPayload p), db') →
  ∃ job run repo spec c k merged,
    db_jobs db' !! ncr_JobID p = Some job ∧ job_Status job = JobStatusRunning ∧
    job_NodeID job = Some nodeID ∧ db_runs db' !! ncr_RunID p = Some run ∧
    ncr_RunID p = job_RunID job ∧ ncr_ResumeCount p = ResumeCount (run_Stats run) ∧
    db_repos db' !! job_RepoID job = Some repo ∧ ncr_RepoURL p = repo_Url repo ∧
    db_specs db' !! run_SpecID run = Some spec ∧
    mutateClaimSpec (claim_input config (sp_Spec spec) job) = inr merged ∧ ncr_Spec p = merged ∧
    chain_of (db_jobs db') (job_RunID job) (job_Attempt job) c ∧ c !! k = Some job ∧
    ncr_DetectedStack p = head (omap gate_stack (reverse (take k c))).
Proof.
  intros Hwf Hrun.
  pose proof (triple_run_op _ _ _ _ _ _ _ _ _ (Claim_response env config nodeID) Hwf Hrun) as Hp. simpl in Hp.
  destruct Hp as (job & run & repo & spec & c & k & merged & (Hwf' & Hjob & Hst & Hnode) & Hr & Hrepo &
    Hspec & Hm & Hc & Hk & ->).
  exists job, run, repo, spec, c, k, merged. cbn [claim_response ncr_JobID ncr_RunID ncr_ResumeCount
    ncr_RepoURL ncr_Spec ncr_DetectedStack]. pose proof (wf_run_key _ Hwf' _ _ Hr) as Hid.
  split_and!; try done. by rewrite Hid.
Qed.

(** Witness of C18: the first job of the scenario. *)
Lemma claim_payload_faithful_witness :
  ∃ p db' job, run_op (Claim (buildJobClaimPayload None) "n1") (env_at 20) launched [] = (inr (ClaimPayload p), db') ∧
    db_jobs db' !! ncr_JobID p = Some job ∧ job_NodeID job = Some "n1".
Proof.
  assert (Hv : match (run_op (Claim (buildJobClaimPayload None) "n1") (env_at 20) launched []).1 with
    | inr (ClaimPayload _) => true | _ => false end = true) by (vm_compute; reflexivity).
  destruct (run_op (Claim (buildJobClaimPayload None) "n1") (env_at 20) launched []) as [r db'] eqn:E.
  simpl in Hv. destruct r as [e|[p| | |m]]; [discriminate Hv| |discriminate Hv..].
  destruct (claim_payload_faithful (env_at 20) None launched [] "n1" p db' launched_wf E)
    as (job & run & repo & spec & c & k & merged & Hj & _ & Hn & _).
  exists p, db', job. split; [reflexivity|]. split; [exact Hj|exact Hn].
Defined.

(** A job whose spec cannot be merged is never failed: every claim answers an
    internal error and leaves the database as it was, so that the job is handed out
    and taken back at every poll, however often nodes ask. *)
Theorem unbuildable_job_requeued `{Collation} `{GoFmt} `{GoFloat} `{MapOrder} config db nodeID node job run
    repo spec err envs :
  wf db → IsZero nodeID = false → db_nodes db !! nodeID = Some node →
  Forall (λ env, head (claim_candidates (env_locked env) db node) = Some job) envs →
  job_NodeID job = None → db_runs db !! job_RunID job = Some run →
  sql_resume_count (run_Stats run) = Some 0%Z →
  db_repos db !! job_RepoID job = Some repo → db_specs db !! run_SpecID run = Some spec →
  mutateClaimSpec (claim_input config (sp_Spec spec) job) = inl err →
  Forall (λ env, (run_op (Claim (buildJobClaimPayload config) nodeID) env db []).1 =
                   inr (claimInternalError "failed to build claim response")) envs ∧
  foldl (λ d env, (run_op (Claim (buildJobClaimPayload config) nodeID) env d []).2) db envs = db.
Proof.
  intros Hwf Hz Hn Hh Hfree Hr Hrc Hrepo Hspec Hm.
  assert (Hone : ∀ env, head (claim_candidates (env_locked env) db node) = Some job →
    run_op (Claim (buildJobClaimPayload config) nodeID) env db [] =
      (inr (claimInternalError "failed to build claim response"), db)).
  { intros env Henv. destruct (total_run_op env _ _ _ db (Claim_unbuildable env config db nodeID node job run repo
      spec err Hwf Hz Hn Henv Hfree Hr Hrc Hrepo Hspec Hm) eq_refl) as (? & ? & -> & -> & ->). done. }
  induction Hh as [|env envs Henv Hh IH]; [done|]. destruct IH as [IH1 IH2]. split.
  - constructor; [by rewrite (Hone env Henv)|done].
  - simpl. by rewrite (Hone env Henv).
Qed.

(** A configuration with two entries for one destination. *)
Definition colliding_config : ConfigHolder :=
  SetConfigIn "pre_gate" [mkConfigInEntry "abcdef0:/in/a" "/in/a" "pre_gate";
                          mkConfigInEntry "abcdef1:/in/a" "/in/a" "pre_gate"] (NewConfigHolder ∅).

(** Witness: the launched run's first gate, claimed three times. *)
Lemma unbuildable_job_requeued_witness :
  foldl (λ d env, (run_op (Claim (buildJobClaimPayload (Some colliding_config)) "n1") env d []).2)
    launched [env_at 20; env_at 21; env_at 22] = launched.
Proof.
  assert (Hrow : ∃ node job run, db_nodes launched !! "n1" = Some node ∧
    Forall (λ env, head (claim_candidates (env_locked env) launched node) = Some job)
      [env_at 20; env_at 21; env_at 22] ∧ job_NodeID job = None ∧
    db_runs launched !! job_RunID job = Some run ∧ sql_resume_count (run_Stats run) = Some 0%Z ∧
    db_repos launched !! job_RepoID job = Some a_repo ∧ db_specs launched !! run_SpecID run = Some a_row ∧
    mutateClaimSpec (claim_input (Some colliding_config) a_spec job) = inl (ClaimSpecCollision [("in", "/in/a")])).
  { eexists _, _, _. split; [vm_compute; reflexivity|].
    split; [repeat apply Forall_cons_2; [vm_compute; reflexivity..|apply Forall_nil_2]|].
    split; [vm_compute; reflexivity|]. split; [vm_compute; reflexivity|]. split_and!; vm_compute; reflexivity. }
  destruct Hrow as (node & job & run & Hn & Hh & Hf & Hr & Hrc & Hrepo & Hspec & Hm).
  apply (unbuildable_job_requeued (Some colliding_config) launched "n1" node job run a_repo a_row
    (ClaimSpecCollision [("in", "/in/a")]) [env_at 20; env_at 21; env_at 22] launched_wf eq_refl Hn Hh
    Hf Hr Hrc Hrepo Hspec Hm).
Defined.

(** ** The configuration of the server *)

(** C33. A put or a delete writes the table and then the memory of its key, or
    changes neither; served alone it keeps the two in step, and a request whose
    store call fails changes nothing. More generally, as long as no two requests for
    the same key and target overlap, memory and table agree whenever no request is
    in progress: what a claim merges into a spec is what is persisted. *)
Theorem config_memory_matches_table s0 y :
  in_step s0 →
  (∀ ok path body, let r := putGlobalEnvHandler ok path body s0 in
     settled path s0 r.2 ∧ in_step r.2 ∧ (r.2 = s0 ∨ r.1 = 200%Z ∧ ok = true)) ∧
  (∀ ok path target, let r := deleteGlobalEnvHandler ok path target s0 in
     settled path s0 r.2 ∧ in_step r.2 ∧ (r.2 = s0 ∨ r.1 = 204%Z ∧ ok = true)) ∧
  (rtc env_step_alone (mkEnvSys s0 []) y → sys_pending y = [] → in_step (sys_env y)).
Proof.
  intros Hs. split; [|split].
  - intros ok path body r. destruct (put_settled ok path body s0) as [H1 H2].
    split; [exact H1|split; [by eapply settled_in_step|exact H2]].
  - intros ok path target r. destruct (delete_settled ok path target s0) as [H1 H2].
    split; [exact H1|split; [by eapply settled_in_step|exact H2]].
  - apply env_alone_in_step, Hs.
Qed.

Definition fresh_env : EnvState := mkEnvState ∅ (NewConfigHolder ∅) ∅.

Lemma fresh_in_step : in_step fresh_env.
Proof.
  split; [intros k l; simpl; by rewrite lookup_empty|]. intros k t. unfold agrees, abstract, GetGlobalEnvEntries.
  simpl. by rewrite !lookup_empty.
Qed.

(** Witness of C33: a put and a delete of another key, interleaved. *)
Lemma config_memory_matches_table_witness :
  ∃ y, rtc env_step_alone (mkEnvSys fresh_env []) y ∧ sys_pending y = [] ∧ in_step (sys_env y) ∧
    abstract (es_holder (sys_env y)) "A" GlobalEnvTargetSteps = Some (mkGlobalEnvVar "1" GlobalEnvTargetSteps true).
Proof.
  set (p := PendingSet "A" (mkGlobalEnvVar "1" GlobalEnvTargetSteps true)).
  set (q := PendingDelete "B" GlobalEnvTargetSteps).
  set (s1 := table_write p fresh_env). set (s2 := table_write q s1). set (s3 := memory_write p s2).
  assert (Hr : rtc env_step_alone (mkEnvSys fresh_env []) (mkEnvSys (memory_write q s3) [])).
  { eapply rtc_l; [apply (alone_begin p); apply not_elem_of_nil|].
    eapply rtc_l; [apply (alone_begin q); by intros ?%list_elem_of_singleton|].
    eapply rtc_l; [apply (alone_finish p _ [q] [])|].
    eapply rtc_l; [apply (alone_finish q _ [] [])|]. apply rtc_refl. }
  exists (mkEnvSys (memory_write q s3) []). split; [exact Hr|]. split; [reflexivity|].
  split; [exact (proj2 (proj2 (config_memory_matches_table fresh_env _ fresh_in_step)) Hr eq_refl)|vm_compute; reflexivity].
Defined.

(** Two requests that overlap on one key and target can leave them apart for
    good: the table keeps the value written last, the memory the value published
    last, and no request is in progress. *)
Theorem config_race_diverges :
  ∃ y, rtc env_step (mkEnvSys fresh_env []) y ∧ sys_pending y = [] ∧
    es_table (sys_env y) !! ("A", GlobalEnvTargetSteps) = Some ("2", true) ∧
    gev_Value <$> abstract (es_holder (sys_env y)) "A" GlobalEnvTargetSteps = Some "1".
Proof.
  set (p := PendingSet "A" (mkGlobalEnvVar "1" GlobalEnvTargetSteps true)).
  set (q := PendingSet "A" (mkGlobalEnvVar "2" GlobalEnvTargetSteps true)).
  exists (mkEnvSys (memory_write p (memory_write q (table_write q (table_write p fresh_env)))) []).
  split; [|split_and!; [reflexivity|..]].
  - eapply rtc_l; [apply (env_begin p)|]. eapply rtc_l; [apply (env_begin q)|].
    eapply rtc_l; [apply (env_finish q _ [] [p])|]. eapply rtc_l; [apply (env_finish p _ [] [])|]. apply rtc_refl.
  - vm_compute. reflexivity.
  - vm_compute. reflexivity.
Qed.
