(* ===== verification/ProjectProps.v ===== *)
(** * Properties of projects and submissions *)

From stdpp Require Import base gmap sets list sorting relations strings pretty.
From S2P Require Import Prelude GoStrings Types Json JobMeta Hydra Spec Db Tx Queries JobChain Lifecycle.
From S2P Require Import Tokens Config ClaimSpec Store Plan Recovery Projects Handlers Submit.
From S2P Require Import Completion Claim Chains Frame Invariant LaunchSafety.
From S2P Require Import ProjectSafety SubmitExact ProjectExact WaveStatus Machine Sample.
From S2P Require Import Auth Sample.
From Stdlib Require Import ZArith Lia.
Local Open Scope list_scope.

(** ** The scenario's projects *)

(** A URL library that finds no credentials. *)
#[export] Instance a_url : UrlLib := { without_user := λ _, None }.

Definition run_id (k : nat) : string := "run-" +:+ pretty k.
Definition job_id (k : nat) : string := "job-" +:+ pretty k.

#[export] Instance job_id_fresh : FreshIds job_id.
Proof.
  intros k. apply bool_decide_eq_false, (trim_space_not_blank _ (b 106)); [left|vm_compute; reflexivity].
Qed.

Lemma run_id_fresh k : IsZero (run_id k) = false.
Proof. apply bool_decide_eq_false, (trim_space_not_blank _ (b 114)); [left|vm_compute; reflexivity]. Qed.

Definition a_commit (_ _ _ : string) : option string := Some sha_a.
Definition launch_all : CreateMigRunRequest := mkCreateMigRunRequest "all" [] None None.

(** Launch of the scenario's mig over all its repositories. *)
Definition a_launch : M (Response (Wave * list (Run * list Job))) :=
  createMigRunHandler id "" (λ _, ("", "")) String.eqb a_commit "wave1" run_id job_id None "mig1" launch_all.

Definition waved : DB := after a_launch 10 seed.

Lemma seed_sound : sound seed.
Proof.
  split; [exact seed_wf|].
  split; simpl; intros; repeat match goal with
    | E : _ !! _ = Some _ |- _ => progress rewrite ?fmap_empty, ?lookup_empty in E; try discriminate E
    | E : (<[_ := _]> _) !! _ = Some _ |- _ => apply lookup_insert_Some in E as [[<- <-]|[_ E]]
    end; try done; simplify_eq/=; eauto.
Qed.

(** ** The server *)

(** C1. Whatever sequence of operations the server runs (launches and submissions,
    claims, completions, cancellations, restarts, enrollments, recovery cycles, the
    endpoints that issue and revoke tokens, and every endpoint that creates, archives,
    deletes or re-specifies a project, edits or imports its repositories), and
    whichever statements fail on the way, the database stays sound: runs, jobs and
    waves satisfy their invariant, names, URLs and memberships stay unique, and every
    run and wave keeps its project, its spec and its member repository. Not covered,
    because it breaks the invariant, is a recovery cycle that logs that it could not
    write the status of a run whose jobs it had just cancelled: that run is stranded
    (recovery_fault_strands_run). Claims, completions and recovery cycles assume
    fewer than 2^31 runs; claims and completions also that no other transaction holds
    the row of a job that waits. *)
Theorem server_invariant `{Collation} `{GoFmt} `{GoFloat} `{MapOrder} `{SpecLib} `{UrlLib} `{JwtLib} db0 db :
  sound db0 → rtc server_step db0 db → sound db.
Proof. apply reachable_sound. Qed.

Lemma waved_path : rtc server_step seed waved.
Proof.
  apply rtc_once. unfold waved, after. destruct (run_op a_launch (env_at 10) seed []) as [r db'] eqn:E.
  exact (server_runs _ _ any_time a_launch (env_at 10) [] r (op_launch _ _ _ _ _ _ _ _ _ _ _ job_id_fresh) I E).
Qed.

Lemma waved_sound : sound waved.
Proof. exact (reachable_sound seed waved seed_sound waved_path). Qed.

(** Witness of C1: the scenario's mig launched over its two repositories. *)
Lemma server_invariant_witness :
  sound seed ∧ rtc server_step seed waved ∧ size (db_runs waved) = 2 ∧ sound waved.
Proof.
  split; [exact seed_sound|]. split; [exact waved_path|]. split; [vm_compute; reflexivity|].
  exact (server_invariant seed waved seed_sound waved_path).
Defined.

(** ** Launching a mig *)

(** C11. A launch that meets its conditions (an unarchived mig with a spec that plans,
    repositories selected of which none has an active run, an acceptable token, refs
    that resolve, fresh identifiers) answers 201 and adds exactly one run per
    selected repository, in their order: running at its first attempt, at the commit
    its ref resolved to, with the planned jobs chained and the first of them queued.
    Runs and jobs that were there stay as they are, the token is registered for the
    new runs, and the database stays sound. *)
Theorem mig_launch_exact `{Collation} `{UrlLib} `{GoFmt} `{SpecLib} env Hash host schemeAndHost EqualFold resolve
    newWaveID newRunID newJobID db registry migID req repos specID hash token stats jobs sha :
  sound db → FreshIds newJobID →
  launchable Hash host schemeAndHost EqualFold resolve newWaveID newRunID newJobID
    db migID req repos specID hash token stats jobs sha →
  let wave := mkCreateWaveParams newWaveID migID specID (cmq_CreatedBy req) in
  ∃ w rjs db',
    run_op (createMigRunHandler Hash host schemeAndHost EqualFold resolve newWaveID newRunID newJobID
              registry migID req) env db []
    = (inr (mkResponse 201 (Some (w, rjs)) (if decide (hash = "") then registry
             else RegisterNil hash token (newRunID <$> seq 0 (length repos)) registry)), db') ∧
    db_waves db' = <[newWaveID := w]> (db_waves db) ∧ w = new_wave wave (env_now env) ∧
    length rjs = length repos ∧
    (∀ k m, repos !! k = Some m → ∃ run js,
       rjs !! k = Some (run, js) ∧ run_started db' run js ∧ job_Name <$> js = jp_Name <$> jobs ∧
       run_ID run = newRunID k ∧ run_WaveID run = newWaveID ∧ run_MigID run = migID ∧ run_SpecID run = specID ∧
       run_RepoID run = mr_RepoID m ∧ run_RepoBaseRef run = mr_BaseRef m ∧
       run_SourceCommitSha run = sha m ∧ run_RepoSha0 run = sha m) ∧
    db_runs db ⊆ db_runs db' ∧ db_jobs db ⊆ db_jobs db' ∧
    (∀ i r, db_runs db' !! i = Some r → r ∈ rjs.*1 ∨ db_runs db !! i = Some r) ∧
    (∀ i j, db_jobs db' !! i = Some j → (∃ rj, rj ∈ rjs ∧ j ∈ rj.2) ∨ db_jobs db !! i = Some j) ∧
    sound db'.
Proof.
  intros Hs Hfresh Hl wave. pose proof (createMigRun_total Hash host schemeAndHost EqualFold resolve newWaveID
    newRunID newJobID env db registry migID req repos specID hash token stats jobs sha Hs Hl) as Ht.
  destruct (total_run_op _ _ _ _ db Ht eq_refl) as (x & db' & E & rjs & -> & Hrows & Hdb). clear Ht.
  rewrite launch_plans_ids in E. eexists _, rjs, db'. split; [exact E|].
  destruct (la_mig _ _ _ _ _ _ _ _ _ _ _ _ _ _ _ _ _ _ Hl) as (mig & spec & _ & _ & _ & _ & Hjobs).
  destruct (la_runs _ _ _ _ _ _ _ _ _ _ _ _ _ _ _ _ _ _ Hl) as [Hri Hrn].
  pose proof (la_jobs _ _ _ _ _ _ _ _ _ _ _ _ _ _ _ _ _ _ Hl) as Hj.
  set (db1 := set_db_waves (<[newWaveID := new_wave wave (env_now env)]> (db_waves db)) db) in *.
  destruct (launch_keeps newRunID newJobID env db1 wave repos sha stats jobs rjs Hrows Hrn Hj) as [Hk1 Hk2].
  assert (Hlen : length rjs = length repos).
  { rewrite <-(length_fmap fst), (launched_runs _ _ _ _ _ Hrows), length_fmap. unfold launch_plans. apply length_imap. }
  subst db'. split_and!; [apply add_runs_waves|done|done| |done|done|exact (add_runs_run_inv rjs db1)|exact (add_runs_job_inv rjs db1)|].
  - intros k m Hm. destruct (launch_rows newRunID newJobID env db1 wave repos sha stats jobs rjs k m) as (js & H1' & H2' & H3');
      try done; [|by eapply plan_ok|by eexists _, js]. destruct Hs as [Hwf _].
    intros i j Hj'. split; [by destruct (wf_keyed _ Hwf _ _ Hj')|].
    destruct (wf_job_run _ Hwf _ _ Hj') as (r & Hr & _). eauto.
  - eapply stays_run_op; [apply createMigRun_stays; try apply _; done|exact E|done].
Qed.

Lemma a_launchable :
  launchable id "" (λ _, ("", "")) String.eqb a_commit "wave1" run_id job_id
    seed "mig1" launch_all (repos_of_mig seed "mig1") "spec1" "" "" RawEmpty
    (default [] (planJobsFromSpec a_spec)) (λ _, sha_a).
Proof.
  split.
  - left.
  - discriminate.
  - exists a_mig, a_row. split_and!; [vm_compute; reflexivity..|].
    assert (Hp : ∃ plans, planJobsFromSpec a_spec = Some plans) by (eexists; vm_compute; reflexivity).
    destruct Hp as [plans Hp]. cbn [sp_Spec a_row]. rewrite Hp. reflexivity.
  - vm_compute. reflexivity.
  - vm_compute. discriminate.
  - intros m i r _ Hr. change (db_runs seed) with (∅ : gmap string Run) in Hr. by rewrite lookup_empty in Hr.
  - vm_compute. reflexivity.
  - vm_compute. reflexivity.
  - reflexivity.
  - apply lookup_empty.
  - split; [|intros k; apply lookup_empty]. intros k l E. apply (inj (String.append "run-")) in E. by apply (inj pretty) in E.
  - split; [|intros k; apply lookup_empty]. intros k l E. apply (inj (String.append "job-")) in E. by apply (inj pretty) in E.
Qed.

(** Witness of C11: the scenario's mig, over both repositories. *)
Lemma mig_launch_exact_witness : ∃ w rjs db',
  run_op a_launch (env_at 10) seed [] = (inr (mkResponse 201 (Some (w, rjs)) None), db') ∧ length rjs = 2.
Proof.
  destruct (mig_launch_exact (env_at 10) id "" (λ _, ("", "")) String.eqb a_commit "wave1" run_id job_id
    seed None "mig1" launch_all (repos_of_mig seed "mig1") "spec1" "" "" RawEmpty
    (default [] (planJobsFromSpec a_spec)) (λ _, sha_a) seed_sound job_id_fresh a_launchable)
    as (w & rjs & db' & E & _ & _ & Hl & _).
  exists w, rjs, db'. split; [exact E|]. rewrite Hl. vm_compute. reflexivity.
Defined.

(** C12. A submission that is refused leaves nothing behind that could run: whenever
    the launch of a mig does not answer 201 the database is untouched, and whenever
    the submission of a single repository does not, waves, runs, jobs and nodes are;
    in both cases the registry of tokens is consistent and holds the registrations
    it held before. *)
Theorem refused_submission_leaves_no_run `{Collation} `{UrlLib} `{GoFmt} `{SpecLib} env faults Hash host
    schemeAndHost EqualFold resolve newWaveID newRunID newJobID named newMigID newSpecID newMigRepoID
    db registry migID req caller sreq r1 db1 r2 db2 :
  (∀ g, registry = Some g → registry_ok g) →
  (∀ g k, registry = Some g → IsZero (newRunID k) = false ∧ rg_runHash g !! newRunID k = None) →
  run_op (createMigRunHandler Hash host schemeAndHost EqualFold resolve newWaveID newRunID newJobID
            registry migID req) env db faults = (inr r1, db1) →
  run_op (createSingleRepoRunHandler Hash host schemeAndHost EqualFold resolve newRunID newJobID
            named newMigID newSpecID newMigRepoID registry caller sreq) env db faults = (inr r2, db2) →
  (rsp_code r1 ≠ 201%Z → db1 = db ∧ same_tokens registry (rsp_registry r1)) ∧
  (rsp_code r2 ≠ 201%Z → run_tables db2 = run_tables db ∧ same_tokens registry (rsp_registry r2)).
Proof.
  intros Hok Hruns E1 E2. unfold run_op in E1, E2.
  pose proof (createMigRun_refuses Hash host schemeAndHost EqualFold resolve newWaveID newRunID newJobID
    registry Hok Hruns migID req (session env db faults)) as Hmig.
  pose proof (createSingleRepoRun_refuses Hash host schemeAndHost EqualFold resolve newRunID newJobID
    registry Hok Hruns named newMigID newSpecID newMigRepoID caller sreq (session env db faults)) as Hone.
  destruct (createMigRunHandler _ _ _ _ _ _ _ _ _ _ _ _) as [x1 t1]. injection E1 as -> <-.
  destruct (createSingleRepoRunHandler _ _ _ _ _ _ _ _ _ _ _ _ _ _ _) as [x2 t2]. injection E2 as -> <-. by split.
Qed.

Definition bad_submit : RunSubmitRequest := mkRunSubmitRequest "ftp://x" "main" "" RawEmpty "" false None.
Definition unnamed (_ : string) : SpecResolveError + runSubmissionSpec := inl SpecNotFound.

(** Witness of C12: an unknown mig, and a URL that is not allowed. *)
Lemma refused_submission_leaves_no_run_witness : ∃ r1 db1 r2 db2,
  run_op (createMigRunHandler id "" (λ _, ("", "")) String.eqb a_commit "wave1" run_id job_id
            (Some NewRegistry) "mig9" launch_all) (env_at 10) seed [] = (inr r1, db1) ∧
  run_op (createSingleRepoRunHandler id "" (λ _, ("", "")) String.eqb a_commit run_id job_id
            unnamed "migX" "specX" "mrX" (Some NewRegistry) (inr None) bad_submit) (env_at 10) seed [] = (inr r2, db2) ∧
  rsp_code r1 = 404%Z ∧ rsp_code r2 = 400%Z ∧
  db1 = seed ∧ same_tokens (Some NewRegistry) (rsp_registry r1) ∧ run_tables db2 = run_tables seed.
Proof.
  destruct (run_op (createMigRunHandler id "" (λ _, ("", "")) String.eqb a_commit "wave1" run_id job_id
    (Some NewRegistry) "mig9" launch_all) (env_at 10) seed []) as [r1 db1] eqn:E1.
  destruct (run_op (createSingleRepoRunHandler id "" (λ _, ("", "")) String.eqb a_commit run_id job_id
    unnamed "migX" "specX" "mrX" (Some NewRegistry) (inr None) bad_submit) (env_at 10) seed []) as [r2 db2] eqn:E2.
  assert (Hc1 : sum_map id rsp_code (run_op (createMigRunHandler id "" (λ _, ("", "")) String.eqb a_commit "wave1" run_id job_id
    (Some NewRegistry) "mig9" launch_all) (env_at 10) seed []).1 = inr 404%Z) by (vm_compute; reflexivity).
  assert (Hc2 : sum_map id rsp_code (run_op (createSingleRepoRunHandler id "" (λ _, ("", "")) String.eqb a_commit run_id job_id
    unnamed "migX" "specX" "mrX" (Some NewRegistry) (inr None) bad_submit) (env_at 10) seed []).1 = inr 400%Z)
    by (vm_compute; reflexivity).
  rewrite E1 in Hc1. rewrite E2 in Hc2. destruct r1 as [|r1], r2 as [|r2]; try discriminate.
  injection Hc1 as Hc1. injection Hc2 as Hc2.
  destruct (refused_submission_leaves_no_run (env_at 10) [] id "" (λ _, ("", "")) String.eqb a_commit "wave1" run_id
    job_id unnamed "migX" "specX" "mrX" seed (Some NewRegistry) "mig9" launch_all (inr None) bad_submit r1 db1 r2 db2)
    as [H1 H2]; [by intros g [= <-]; apply NewRegistry_ok| |exact E1|exact E2|].
  - intros g k [= <-]. split; [apply run_id_fresh|apply lookup_empty].
  - exists r1, db1, r2, db2. destruct H1 as [? ?]; [by rewrite Hc1|]. destruct H2 as [? ?]; [by rewrite Hc2|].
    split_and!; done.
Defined.

(** ** Archiving *)

(** Archiving succeeds exactly when the mig has no running run: with one it
    answers 409 and changes nothing; without one it answers 200, stamps the mig and
    nothing else, and from then on the mig cannot be launched, re-specified, given
    repositories or imported into. *)
Theorem archive_exact `{Collation} `{UrlLib} `{GoFmt} `{SpecLib} env db ref mig :
  sound db → scannable db → names_mig db ref mig → archived mig = false →
  let running := ∃ i r, db_runs db !! i = Some r ∧ run_MigID r = mig_ID mig ∧ run_Status r = RunStatusRunning in
  let mig' := set_archived (Some (env_now env)) mig in
  let db' := set_db_migs (<[mig_ID mig := mig']> (db_migs db)) db in
  (running → run_op (archiveMigHandler ref) env db [] = (inr (409%Z, None), db)) ∧
  (¬ running →
     run_op (archiveMigHandler ref) env db [] = (inr (200%Z, Some true), db') ∧ sound db' ∧
     (∀ env' Hash host sh ef resolve wave run job registry req, ∃ r,
        run_op (createMigRunHandler Hash host sh ef resolve wave run job registry (mig_ID mig) req) env' db' []
          = (inr r, db') ∧ rsp_code r ∈ [400%Z; 409%Z]) ∧
     (∀ env' specID req spec, ssr_Spec req ≠ RawEmpty → ParseMigSpecJSON (ssr_Spec req) = inr spec →
        run_op (setMigSpecHandler specID (mig_ID mig) req) env' db' [] = (inr (409%Z, None), db')) ∧
     (∀ env' newID url base, RepoURL_Validate (NormalizeRepoURL url) = true → GitRef_Validate base = true →
        run_op (addMigRepoHandler newID (mig_ID mig) url base) env' db' [] = (inr (409%Z, None), db')) ∧
     (∀ env' fuel gen ct read,
        run_op (bulkUpsertMigReposHandler fuel gen (mig_ID mig) ct read) env' db' [] = (inr (Some (409%Z, None)), db'))).
Proof.
  intros Hs Hscan Hm Ha running mig' db'.
  assert (Hrun : running ↔ mig_running db (mig_ID mig) = true).
  { unfold mig_running. rewrite existsb_rows. setoid_rewrite andb_true_iff. setoid_rewrite bool_decide_eq_true.
    split; intros (i & r & Hr & Hrm & Hst); exists i, r; split_and!; try done; [by rewrite Hst|].
    pose proof (ro_status _ _ (wf_run _ (proj1 Hs) _ _ Hr)). by destruct (run_Status r). }
  destruct (total_run_op _ _ _ _ db (archive_total env db Hs Hscan ref mig Hm) eq_refl) as (x & d & E & Hd).
  rewrite Ha in Hd. split; intros Hr.
  { apply Hrun in Hr. rewrite Hr in Hd. destruct Hd as [-> ->]. exact E. }
  destruct (mig_running db (mig_ID mig)); [by destruct Hr; apply Hrun|]. destruct Hd as [-> ->].
  assert (Hs' : sound db') by (eapply stays_run_op; [apply archive_stays; apply _|exact E|exact Hs]).
  assert (Hm' : db_migs db' !! mig_ID mig' = Some mig') by apply lookup_insert_eq.
  pose proof (proj2 Hs') as Hp'. split_and!; [exact E|done|..].
  - intros. destruct (total_run_op _ _ _ _ db' (createMigRun_archived env' db' mig' Hash host sh ef resolve wave run job
      registry req Hm' eq_refl) eq_refl) as (r & d & E' & Hc & _ & ->). by exists r.
  - intros. edestruct (total_run_op _ _ _ _ db' (setMigSpec_refused env' db' mig' Hp' Hm' eq_refl specID req spec
      ltac:(done) ltac:(done)) eq_refl) as (r & d & E' & -> & ->). exact E'.
  - intros. edestruct (total_run_op _ _ _ _ db' (addMigRepo_refused env' db' mig' Hm' eq_refl newID url base
      ltac:(done) ltac:(done)) eq_refl) as (r & d & E' & -> & ->). exact E'.
  - intros. edestruct (total_run_op _ _ _ _ db' (bulkUpsert_refused env' db' mig' Hm' eq_refl fuel gen ct read) eq_refl)
      as (r & d & E' & -> & ->). exact E'.
Qed.

(** Witness: the scenario's mig, by name, before and while it runs. *)
Lemma archive_exact_witness :
  (run_op (archiveMigHandler "m") (env_at 30) seed []).1 = inr (200%Z, Some true) ∧
  run_op (archiveMigHandler "m") (env_at 30) waved [] = (inr (409%Z, None), waved).
Proof.
  split.
  - destruct (archive_exact (env_at 30) seed "m" a_mig seed_sound) as [_ H]; [vm_compute; reflexivity| |reflexivity|].
    + split; [vm_compute; reflexivity|right; split; vm_compute; reflexivity].
    + destruct H as [E _]; [|by rewrite E]. intros (i & r & Hr & _).
      change (db_runs seed) with (∅ : gmap string Run) in Hr. by rewrite lookup_empty in Hr.
  - destruct (archive_exact (env_at 30) waved "m" a_mig waved_sound) as [H _];
      [vm_compute; reflexivity| |reflexivity|apply H; clear H].
    + split; [vm_compute; reflexivity|right; split; vm_compute; reflexivity].
    + assert (Hw : ∃ r, db_runs waved !! "run-0" = Some r ∧ run_MigID r = "mig1" ∧ run_Status r = RunStatusRunning)
        by (eexists; split; [vm_compute; reflexivity|split; vm_compute; reflexivity]).
      destruct Hw as (r & ?). by exists "run-0", r.
Defined.

(** *** Archived, and running again *)

Definition cancelled_both : DB :=
  after (cancelRunHandlerV1 None "run-1") 40 (after (cancelRunHandlerV1 None "run-0") 30 waved).
Definition shelved : DB := after (archiveMigHandler "mig1") 50 cancelled_both.
Definition a_restart : M (Response Run) :=
  restartRunHandler id "" (λ _, ("", "")) String.eqb (λ k, "again-" +:+ pretty k) None "run-0" (mkRunRestartRequest false None).
Definition revived : DB := after a_restart 60 shelved.

Lemma server_after {A} (m : M A) now db : operation any_time m → rtc server_step db (after m now db).
Proof.
  intros Hm. apply rtc_once. unfold after. destruct (run_op m (env_at now) db []) as [r db'] eqn:E.
  by eapply server_runs.
Qed.

Lemma again_fresh : FreshIds (λ k, "again-" +:+ pretty k).
Proof. intros k. apply bool_decide_eq_false, (trim_space_not_blank _ (b 97)); [left|vm_compute; reflexivity]. Qed.

(** Archiving is documented to prevent execution, but a restart does not look at
    the mig: there is a reachable database in which a mig is archived and one of its
    runs, restarted after that, is running. *)
Theorem archived_mig_runs_again :
  rtc server_step seed revived ∧
  (∃ mig, db_migs shelved !! "mig1" = Some mig ∧ archived mig = true) ∧
  (∀ i r, db_runs shelved !! i = Some r → run_Status r = RunStatusCancelled) ∧
  (∃ mig, db_migs revived !! "mig1" = Some mig ∧ archived mig = true) ∧
  (∃ r, db_runs revived !! "run-0" = Some r ∧ run_MigID r = "mig1" ∧ run_Status r = RunStatusRunning ∧
        run_Attempt r = 2%Z).
Proof.
  split_and!.
  - exact (rtc_trans _ _ _ waved_path
      (rtc_trans _ _ _ (server_after _ 30 waved (op_cancel_run None "run-0"))
      (rtc_trans _ _ _ (server_after _ 40 _ (op_cancel_run None "run-1"))
      (rtc_trans _ _ _ (server_after _ 50 _ (op_archive "mig1"))
         (server_after _ 60 _ (op_restart _ _ _ _ _ _ _ _ again_fresh)))))).
  - eexists. split; vm_compute; reflexivity.
  - assert (Hall : forallb (λ r, bool_decide (run_Status r = RunStatusCancelled)) (rows (db_runs shelved)) = true)
      by (vm_compute; reflexivity).
    revert Hall. generalize shelved. intros d Hall i r Hr.
    exact (bool_decide_eq_true_1 _ (forallb_rows _ _ Hall i r Hr)).
  - eexists. split; vm_compute; reflexivity.
  - eexists. split_and!; vm_compute; reflexivity.
Qed.

(** ** Import *)

(** C13. A bulk import of a readable file is a fold over its records: the
    repositories of the mig, seen as a map from URL to base ref, end as if every
    well-formed record had been bound in turn (a later record for the same URL
    wins); a record counts as created or updated as its URL was unbound or bound
    before it, and as failed, with its line and reason, when it is malformed; every
    record is counted once; and no other mig's map changes. The loop ends within one
    read per record and two more. *)
Theorem import_refines_map `{Collation} `{UrlLib} env db gen mig contentType read header rows fuel :
  sound db → db_migs db !! mig_ID mig = Some mig → archived mig = false → has_prefix contentType "text/csv" = true →
  (∀ k l, gen k = gen l → k = l) → (∀ k, unused_id db (gen k)) →
  read 0 = header → header_ok header = true →
  Forall (λ r, r ≠ CsvEOF) rows → (∀ k r, rows !! k = Some r → read (S k) = r) → read (S (length rows)) = CsvEOF →
  (length rows + 2 ≤ fuel)%nat →
  let result := import_fold 2 rows (ref_of db (mig_ID mig)) no_counts in
  ∃ db', run_op (bulkUpsertMigReposHandler fuel gen (mig_ID mig) contentType read) env db []
           = (inr (Some (200%Z, Some result.2)), db') ∧ sound db' ∧
    (∀ url, ref_of db' (mig_ID mig) url = result.1 url) ∧
    (∀ other url, other ≠ mig_ID mig → ref_of db' other url = ref_of db other url) ∧
    (ic_Created result.2 + ic_Updated result.2 + ic_Failed result.2 = Z.of_nat (length rows))%Z ∧
    Z.of_nat (length (ic_Errors result.2)) = ic_Failed result.2.
Proof.
  intros Hs Hm Ha Hct Hgen Hids Hhead Hh Hne Hread Hend Hfuel result.
  destruct fuel as [|fuel]; [lia|].
  assert (Ht : Tx.total env (λ d, d = db) (bulkUpsertMigReposHandler (S fuel) gen (mig_ID mig) contentType read)
    (λ x d, x = Some (200%Z, Some result.2) ∧ importing gen (mig_ID mig) db (1 + length rows) result.1 d)).
  { unfold bulkUpsertMigReposHandler. eapply total_then; [by apply getMigByID_total|]. cbn beta iota.
    rewrite Ha, Hct. cbn [negb import_loop]. rewrite Hhead.
    destruct header as [| |a c]; try discriminate Hh. rewrite Hh.
    eapply total_conseq; [apply (import_loop_total env gen (mig_ID mig) Hgen db read rows fuel 1 (ref_of db (mig_ID mig)) no_counts)|..];
      [by eauto|done|exact Hread|exact Hend|lia| |done].
    intros d ->. by split. }
  destruct (total_run_op _ _ _ _ db Ht eq_refl) as (x & db' & E & -> & []). exists db'.
  destruct (import_fold_counts 2 rows (ref_of db (mig_ID mig)) no_counts) as [Hc1 Hc2].
  fold result in Hc1, Hc2. cbn [no_counts ic_Created ic_Updated ic_Failed ic_Errors length] in Hc1, Hc2.
  split_and!; try done; lia.
Qed.

Definition a_file (k : nat) : CsvRead :=
  match k with
  | 0 => CsvRecord "repo_url" "base_ref"
  | 1 => CsvRecord "https://gitlab.example/new.git" "main"
  | 2 => CsvRecord "ftp://gitlab.example/z" "main"
  | 3 => CsvRecord " https://gitlab.example/new/ " "dev"
  | _ => CsvEOF
  end.

Definition row_id (k : nat) : string := "row-" +:+ pretty k.

(** Witness of C13: one repository created, refused and updated. *)
Lemma import_refines_map_witness : ∃ c db',
  run_op (bulkUpsertMigReposHandler 9 row_id "mig1" "text/csv" a_file) (env_at 10) seed []
    = (inr (Some (200%Z, Some c)), db') ∧
  (ic_Created c, ic_Updated c, ic_Failed c, ic_Errors c) = (1, 1, 1, [(3%nat, "invalid repo_url")])%Z ∧
  ref_of db' "mig1" "https://gitlab.example/new" = Some "dev".
Proof.
  destruct (import_refines_map (env_at 10) seed row_id a_mig "text/csv" a_file (a_file 0)
    [a_file 1; a_file 2; a_file 3] 9 seed_sound) as (db' & E & _ & Href & _).
  - vm_compute; reflexivity.
  - reflexivity.
  - vm_compute; reflexivity.
  - intros k l E. apply (inj (String.append "row-")) in E. by apply (inj pretty) in E.
  - intros k. split; vm_compute; reflexivity.
  - reflexivity.
  - vm_compute; reflexivity.
  - repeat constructor; discriminate.
  - intros [|[|[|k]]] r; [intros [= <-]; reflexivity..|]. intros E. discriminate E.
  - reflexivity.
  - simpl. lia.
  - eexists _, db'. split; [exact E|]. split; [vm_compute; reflexivity|].
    change "mig1" with (mig_ID a_mig). rewrite Href. vm_compute. reflexivity.
Defined.

(** An import whose reader fails for good, with an error that is not the end of
    the file, never answers: after a valid header no number of rounds of the loop is
    enough, in any session. *)
Theorem import_error_spins `{Collation} `{UrlLib} env db faults fuel gen mig contentType read :
  db_migs db !! mig_ID mig = Some mig → archived mig = false → has_prefix contentType "text/csv" = true →
  header_ok (read 0) = true → (∀ k, (1 ≤ k)%nat → read k = CsvErr) → head faults = None ∨ head faults = Some None →
  (run_op (bulkUpsertMigReposHandler fuel gen (mig_ID mig) contentType read) env db faults).1 = inr None.
Proof.
  intros Hm Ha Hct Hh Hread Hf. unfold run_op, bulkUpsertMigReposHandler, getMigByIDOrFail.
  unfold mbind, M_bind, attempt, GetMig, query_one, mbind, M_bind, stmt, session. simpl.
  assert (Hgo : ∀ t, (let (r, t') := (if archived mig then mret (Some (409%Z, None))
      else if negb (has_prefix contentType "text/csv") then mret (Some (400%Z, None))
      else import_loop fuel read gen (mig_ID mig) 0 false no_counts) t in (r, tx_db t')).1 = inr None).
  { intros t. rewrite Ha, Hct. destruct fuel as [|fuel]; [done|]. cbn [import_loop negb].
    destruct (read 0) as [| |x y] eqn:E; try discriminate Hh. rewrite Hh.
    pose proof (import_loop_spins gen (mig_ID mig) read fuel 1 no_counts t Hread) as Hs.
    by destruct (import_loop _ _ _ _ _ _ _ _) as [r t']. }
  destruct faults as [|[e|] fs]; simpl; [| |]; rewrite ?Hm; simpl; [apply Hgo|by destruct Hf|apply Hgo].
Qed.

(** Witness. *)
Lemma import_error_spins_witness :
  (run_op (bulkUpsertMigReposHandler 50 row_id "mig1" "text/csv"
     (λ k, match k with 0 => CsvRecord "repo_url" "base_ref" | _ => CsvErr end)) (env_at 10) seed []).1 = inr None.
Proof.
  apply (import_error_spins (env_at 10) seed [] 50 row_id a_mig "text/csv"); [vm_compute; reflexivity|reflexivity|
    vm_compute; reflexivity|vm_compute; reflexivity| |by left]. intros [|k] Hk; [lia|reflexivity].
Defined.
