(* ===== verification/AuthProps.v ===== *)
(** * Properties of authentication and tokens *)

From stdpp Require Import base gmap sets list sorting relations countable strings.
From S2P Require Import Prelude GoStrings Types Json JobMeta Hydra Spec Db Tx Queries JobChain Lifecycle.
From S2P Require Import Tokens Config ClaimSpec Store Plan Recovery Projects Handlers Submit.
From S2P Require Import Completion Claim Frame Invariant AuthSafety ProjectSafety Auth.
From S2P Require Import Machine Sample ProjectProps.
From Stdlib Require Import ZArith Lia.
Local Open Scope list_scope.

(** ** Access *)

(** A request as it reaches the middleware of a route. *)
Definition at_route (route : Route) (r : Request) : Request :=
  mkRequest (rq_Method r) (rq_Authorization r) (rq_auth_token r) (rt_QueryToken route) (rq_peer r).

(** The routes that need no credentials; every other one has a role that may use it. *)
Lemma routes_guarded route :
  route ∈ RegisterRoutes →
  (rt_Roles route = [] ↔ rt_Pattern route ∈ ["/health"; "GET /healthz"; "GET /readyz"]) ∧
  (rt_Roles route ≠ [] → ¬ (∀ role, role ∈ rt_Roles route → role = "")).
Proof.
  intros Hin.
  assert (Hall : Forall (λ rt, (rt_Roles rt = [] ↔ rt_Pattern rt ∈ ["/health"; "GET /healthz"; "GET /readyz"]) ∧
    (rt_Roles rt = [] ∨ Exists (λ role, role ≠ "") (rt_Roles rt))) RegisterRoutes).
  { apply (bool_decide_eq_true_1 _). vm_compute. reflexivity. }
  rewrite Forall_forall in Hall. destruct (Hall route Hin) as [H1 H2]. split; [done|]. intros Hne Hno.
  destruct H2 as [H2|H2]; [done|]. apply Exists_exists in H2 as (role & Hr & Hnz). by apply Hnz, Hno.
Qed.

Lemma handle_run `{JwtLib} a route r env db faults :
  secure a → honest faults → route ∈ RegisterRoutes → rt_Roles route ≠ [] →
  ∃ x, run_op (handle a route r) env db faults = (inr (Checked x), db) ∧
    (∀ id u, x = Served id u →
       caller a (env_clock env) db (at_route route r) = Some id ∧ permits (rt_Roles route) (id_Role id)) ∧
    (faults = [] → ∀ id, caller a (env_clock env) db (at_route route r) = Some id →
       permits (rt_Roles route) (id_Role id) → ∃ u, x = Served id u).
Proof.
  intros Hs Hh Hin Hne. destruct (Middleware_run a (rt_Roles route) (at_route route r) env db faults Hs Hh) as (x & E & H1 & H2).
  { by apply routes_guarded. }
  exists x. split; [|done]. unfold handle. rewrite decide_False by done. unfold run_op, mbind, M_bind in *.
  fold (at_route route r). destruct (Middleware _ _ _ _) as [y t]. by injection E as -> <-.
Qed.

(** C14. Of all routes of the server only the three health checks are open. On any other,
    whatever statements fail, a request reaches the handler only if its token (or its
    certificate) stands for a caller, valid, unexpired and not revoked, whose role may
    use the route (the route's own roles, and administrators wherever the control plane
    may); when nothing fails, each such request does. *)
Theorem access_exact `{JwtLib} a route r env db faults :
  secure a → honest faults → route ∈ RegisterRoutes →
  (rt_Roles route = [] ↔ rt_Pattern route ∈ ["/health"; "GET /healthz"; "GET /readyz"]) ∧
  (rt_Roles route ≠ [] →
   ∃ x, run_op (handle a route r) env db faults = (inr (Checked x), db) ∧
    (∀ id u, x = Served id u →
       caller a (env_clock env) db (at_route route r) = Some id ∧ permits (rt_Roles route) (id_Role id)) ∧
    (faults = [] → ∀ id, caller a (env_clock env) db (at_route route r) = Some id →
       permits (rt_Roles route) (id_Role id) → ∃ u, x = Served id u)).
Proof. intros Hs Hh Hin. split; [by apply routes_guarded|]. intros Hne. by apply handle_run. Qed.

Definition an_authorizer : Authorizer := mkAuthorizer false "" "secret" true.
Definition claim_route : Route := mkRoute "POST /v1/nodes/{id}/claim" [RoleWorker] false.
Definition worker_cert : Request := mkRequest "POST" "" "" false (Some (mkCertificate [] "node:n1" "7")).

Lemma access_exact_witness :
  ∃ u, run_op (handle an_authorizer claim_route worker_cert) (env_at 5) seed []
       = (inr (Checked (Served (mkIdentity "worker" "node:n1" "7" "") u)), seed).
Proof.
  destruct (access_exact an_authorizer claim_route worker_cert (env_at 5) seed []) as [_ Hx].
  - by split.
  - constructor.
  - apply (bool_decide_eq_true_1 _). vm_compute. reflexivity.
  - destruct Hx as (x & E & _ & Hin); [done|].
    destruct (Hin eq_refl (mkIdentity "worker" "node:n1" "7" "")) as [u ->].
    + vm_compute. reflexivity.
    + left. split; [left|done].
    + exists u. exact E.
Defined.

(** ** Issuing and revoking *)

(** An identifier the token endpoints read back unchanged from a path. *)
Definition path_id (id : string) : Prop := trim_space id = id ∧ id ≠ "".

(** A token that the API issues works for its role until it expires, on every route
    that role may use and no other; once it was revoked it never works again, whatever
    the server does afterwards and whatever fails. *)
Theorem token_lifecycle `{JwtLib} `{!JwtLaws} `{Collation} `{GoFmt} `{GoFloat} `{MapOrder} `{SpecLib} `{UrlLib}
    sha256 AddDate a tokenID cl req env db faults tok id db1 :
  forward AddDate → secure a → path_id tokenID →
  run_op (createAPITokenHandler sha256 AddDate (az_tokenSecret a) tokenID cl req) env db faults
    = (inr (200%Z, Some (tok, id)), db1) →
  (∃ expiresAt, (env_clock env < expiresAt)%Z ∧
     ∀ env1 db2 route r, (env_clock env1 < expiresAt)%Z → ¬ token_revoked id db2 → route ∈ RegisterRoutes →
       rt_Roles route ≠ [] → presented (at_route route r) = Some tok →
       ∃ x, run_op (handle a route r) env1 db2 [] = (inr (Checked x), db2) ∧
         ((∃ i u, x = Served i u ∧ id_Role i = NormalizeRole (ct_Role req)) ↔
          permits (rt_Roles route) (NormalizeRole (ct_Role req)))) ∧
  (∀ env1 faults1 db2, run_op (revokeAPITokenHandler id) env1 db1 faults1 = (inr 200%Z, db2) →
     ∀ db3 env2 faults2 route r, rtc server_step db2 db3 → honest faults2 → route ∈ RegisterRoutes →
       rt_Roles route ≠ [] → presented (at_route route r) = Some tok →
       ∃ x, run_op (handle a route r) env2 db3 faults2 = (inr (Checked x), db3) ∧ ∀ i u, x ≠ Served i u).
Proof.
  intros Hf Hs [Ht Hne] E. destruct (createAPIToken_issues _ _ _ _ _ _ _ _ _ _ _ _ Hf E) as
    (ex & Eg & Hex & -> & Hrole & row & Hrow & Hnr & _). split.
  - exists (NewNumericDate ex). split; [done|]. intros env1 db2 route r Hn Hr Hin Hroles Hp.
    pose proof (issued_caller _ _ _ _ _ a _ _ _ _ Eg eq_refl Hn Hp Hr) as Hc.
    destruct (handle_run a route r env1 db2 [] Hs ltac:(constructor) Hin Hroles) as (x & Ex & Hadm & Hall).
    exists x. split; [done|]. split.
    + intros (i & u & Hx & Hi). destruct (Hadm i u Hx) as [_ Hpm]. by rewrite Hi in Hpm.
    + intros Hpm. destruct (Hall eq_refl _ Hc Hpm) as [u Hu]. by exists (mkIdentity (NormalizeRole (ct_Role req)) tokenID "" tokenID), u.
  - intros env1 faults1 db2 Erev db3 env2 faults2 route r Hsteps Hh Hin Hroles Hp.
    assert (Hr2 : token_revoked tokenID db2).
    { eapply revokeAPIToken_revokes; [done|done| |exact Erev]. rewrite Hrow. exists row. apply lookup_insert_eq. }
    pose proof (reachable_revoked _ _ _ Hr2 Hsteps) as Hr3.
    pose proof (revoked_caller _ _ _ _ _ a _ (env_clock env2) _ _ _ Eg eq_refl Hex Hp Hr3) as Hc.
    destruct (handle_run a route r env2 db3 faults2 Hs Hh Hin Hroles) as (x & Ex & Hadm & _).
    exists x. split; [done|]. intros i u Hx. destruct (Hadm i u Hx) as [Hc' _]. by rewrite Hc in Hc'.
Qed.

(** A calendar of days and years of fixed length. *)
Definition plain_days (t y m d : Z) : Z := (t + (y * 365 + m * 30 + d) * 86400000000)%Z.

Definition a_request : CreateAPITokenRequest := mkCreateAPITokenRequest "admin" "" "" 30.
Definition issued : DB := after (createAPITokenHandler (λ s, s) plain_days "secret" "t-1" None a_request) 100 seed.
Definition token_1 : string := plain_sign (issued_claims RoleCLIAdmin (plain_days 100 0 0 30) "t-1" 100) "secret".
Definition with_token (tok : string) : Request := mkRequest "POST" ("Bearer " +:+ tok) "" false None.
Definition tokens_route : Route := mkRoute "POST /v1/tokens" [RoleCLIAdmin] false.

Lemma token_lifecycle_witness :
  (∃ i u, run_op (handle an_authorizer tokens_route (with_token token_1)) (env_at 100) issued []
          = (inr (Checked (Served i u)), issued)) ∧
  ∃ x, run_op (handle an_authorizer tokens_route (with_token token_1)) (env_at 400)
         (after (revokeAPITokenHandler "t-1") 300 issued) [] = (inr (Checked x), after (revokeAPITokenHandler "t-1") 300 issued) ∧
       ∀ i u, x ≠ Served i u.
Proof.
  assert (Hin : tokens_route ∈ RegisterRoutes) by (apply (bool_decide_eq_true_1 _); vm_compute; reflexivity).
  destruct (token_lifecycle (λ s, s) plain_days an_authorizer "t-1" None a_request (env_at 100) seed [] token_1 "t-1" issued)
    as [(ex & Hex & Hok) Hrev].
  - intros t y d Hy Hd Hyd. unfold plain_days. nia.
  - by split.
  - split; [vm_compute; reflexivity|done].
  - vm_compute. reflexivity.
  - split.
    + assert (Hun : ¬ token_revoked "t-1" issued).
      { intros Hr. apply (bool_decide_eq_true_2 _) in Hr. vm_compute in Hr. discriminate Hr. }
      destruct (Hok (env_at 100) issued tokens_route (with_token token_1)) as (x & Ex & Hx);
        [exact Hex|exact Hun|exact Hin|done|vm_compute; reflexivity|].
      destruct (proj2 Hx) as (i & u & -> & _); [left; split; [left|done]|].
      exists i, u. exact Ex.
    + apply (Hrev (env_at 300) [] (after (revokeAPITokenHandler "t-1") 300 issued));
        [vm_compute; reflexivity|constructor|constructor|exact Hin|done|vm_compute; reflexivity].
Defined.

(** ** Enrollment *)

Section Enroll.
Context `{JwtLib} `{!JwtLaws}.
Context (AddDate : Z → Z → Z → Z → Z) (csr_name : string → option string) (SignNodeCSR : string → Z → option IssuedCert).

Lemma used_row env a db : may_enroll a db →
  ∃ row, db_bootstrap_tokens (enrolled_db env a db) !! be_TokenID a = Some row ∧ is_Some (bt_UsedAt row) ∧ bt_RevokedAt row = None.
Proof using Type.
  intros Hm. destruct (me_token _ _ Hm) as (tok & Ht & _ & _ & Hr). exists (used_token env tok). simpl.
  rewrite lookup_alter_eq, Ht. split; [done|]. split; [by eexists|done].
Qed.

(** A certificate is only issued for a valid, unexpired, unused and unrevoked
    bootstrap token, to the node the token names: the request must be signed for that
    node, which did not exist and now does. The token has then been used: as long as
    its row says so, presenting it again is refused at any time, for any request and
    whatever fails, and changes nothing. *)
Theorem certificate_once secret authSecret wid ca authz csr env db faults cert wtok db' :
  run_op (bootstrapCertificateHandler AddDate csr_name SignNodeCSR secret authSecret wid ca authz csr) env db faults
    = (inr (200%Z, Some (cert, wtok)), db') →
  ∃ claims, vouched authz secret env claims ∧
    (∃ cn, csr_name csr = Some cn ∧ trim_space cn = "node:" +:+ tc_NodeID claims) ∧
    db_nodes db !! tc_NodeID claims = None ∧ is_Some (db_nodes db' !! tc_NodeID claims) ∧
    (∃ row, db_bootstrap_tokens db' !! tc_ID claims = Some row ∧ bt_NodeID row = Some (tc_NodeID claims) ∧ is_Some (bt_UsedAt row)) ∧
    ∀ db2 row env2 faults2 ca2 csr2 wid2, db_bootstrap_tokens db2 !! tc_ID claims = Some row → is_Some (bt_UsedAt row) →
      run_op (bootstrapCertificateHandler AddDate csr_name SignNodeCSR secret authSecret wid2 ca2 authz csr2) env2 db2 faults2
        = (inr (401%Z, None), db2).
Proof.
  intros E. destruct (bootstrapCertificate_grants _ _ _ _ _ _ _ _ _ _ _ _ _ _ _ E) as (claims & [Hv Hn _ _ Hm ->]).
  exists claims. split; [done|]. split; [|split; [exact (me_fresh _ _ Hm)|split; [|split]]].
  - unfold parseAndVerifyCSR in Hn. destruct (decide _); [done|]. destruct (csr_name csr) as [cn|]; [|done].
    exists cn. split; [done|]. by apply bool_decide_eq_true in Hn.
  - simpl. rewrite lookup_insert_eq. by eexists.
  - destruct (me_token _ _ Hm) as (tok & Ht & Hnode & _). exists (used_token env tok). simpl in *.
    rewrite lookup_alter_eq, Ht. split; [done|]. split; [done|by eexists].
  - intros db2 row env2 faults2 ca2 csr2 wid2 Hrow Hused. apply bootstrapCertificate_used. intros c Hc.
    assert (Hcc : c = claims).
    { pose proof (vo_claims _ _ _ _ Hv) as Hv0. unfold ValidateToken in Hv0, Hc.
      destruct (ParseWithClaims _ _ (env_clock env)) as [[c0 []]|] eqn:E0; [|done..].
      destruct (ParseWithClaims _ _ (env_clock env2)) as [[c1 []]|] eqn:E1; [|done..]. injection Hv0 as <-. injection Hc as <-.
      by eapply parse_claims. }
    subst c. split; [destruct (vo_fresh _ _ _ _ Hv) as (e & -> & _); by eexists|]. by exists row.
Qed.

(** Revocation does not reach the tokens of nodes. The bearer token a node receives
    with its certificate has no row: revoking it answers 200 and changes nothing, and
    until it expires the token is admitted on every route of workers. *)
Theorem worker_token_irrevocable a wid ca authz csr env db faults cert wtok db' :
  forward AddDate → secure a → path_id wid → db_api_tokens db !! wid = None →
  run_op (bootstrapCertificateHandler AddDate csr_name SignNodeCSR (az_tokenSecret a) (az_tokenSecret a) wid ca authz csr)
    env db faults = (inr (200%Z, Some (cert, wtok)), db') →
  ∀ env1, ∃ db2, run_op (revokeAPITokenHandler wid) env1 db' [] = (inr 200%Z, db2) ∧
    db_api_tokens db2 = db_api_tokens db' ∧
    ∀ env2 route r, (env_clock env2 < NewNumericDate (AddDate (env_clock env) 1 0 0))%Z → route ∈ RegisterRoutes →
      RoleWorker ∈ rt_Roles route → presented (at_route route r) = Some wtok →
      ∃ u, run_op (handle a route r) env2 db2 [] = (inr (Checked (Served (mkIdentity RoleWorker wid "" wid) u)), db2).
Proof.
  intros Hf Hs [Ht Hne] Hfresh E env1.
  destruct (bootstrapCertificate_grants _ _ _ _ _ _ _ _ _ _ _ _ _ _ _ E) as (claims & [Hv Hn _ Hw Hm ->]).
  assert (Hrow : db_api_tokens (enrolled_db env (enroll_params claims cert) db) !! wid = None) by done.
  destruct (revokeAPIToken_missing wid env1 _ Ht Hne Hrow) as (db2 & Erev & Hsame). exists db2. split; [done|]. split; [done|].
  intros env2 route r Hn2 Hin Hrole Hp. unfold issueWorkerToken in Hw. destruct (decide _); [done|].
  assert (Hnr : ¬ token_revoked wid db2).
  { unfold token_revoked. rewrite Hsame, Hrow. intros [? ?]. done. }
  pose proof (issued_caller _ _ _ _ _ a _ _ _ _ Hw eq_refl Hn2 Hp Hnr) as Hc.
  assert (Hroles : rt_Roles route ≠ []) by (intros E0; rewrite E0 in Hrole; by apply elem_of_nil in Hrole).
  destruct (handle_run a route r env2 db2 [] Hs ltac:(constructor) Hin Hroles) as (x & Ex & _ & Hall).
  destruct (Hall eq_refl _ Hc) as [u Hu]; [left; by split|]. exists u. by rewrite <-Hu.
Qed.

End Enroll.

Definition a_csr_name (csr : string) : option string := Some ("node:" +:+ csr).
Definition a_sign (csr : string) (now : Z) : option IssuedCert := Some (mkIssuedCert "pem" "1" "f" now (now + 1)).

(** The node [n9] enrolls with the token [tok1] of the scenario. *)
Definition boot_token : string :=
  plain_sign (mkTokenClaims RoleWorker TokenTypeBootstrap "n9" (Some 900000000%Z) (Some 0%Z) "tok1") "secret".
Definition enroll_op : M (Z * option (IssuedCert * string)) :=
  bootstrapCertificateHandler plain_days a_csr_name a_sign "secret" "secret" "w-1" (CALoaded "ca") ("Bearer " +:+ boot_token) "n9".
Definition enrolled : DB := after enroll_op 100 seed.
Definition worker_token : string :=
  plain_sign (issued_claims RoleWorker (plain_days 100 1 0 0) "w-1" 100) "secret".

Lemma enroll_op_run : run_op enroll_op (env_at 100) seed [] = (inr (200%Z, Some (mkIssuedCert "pem" "1" "f" 100 101, worker_token)), enrolled).
Proof. vm_compute. reflexivity. Qed.

Lemma certificate_once_witness :
  is_Some (db_nodes enrolled !! "n9") ∧
  run_op enroll_op (env_at 200) enrolled [] = (inr (401%Z, None), enrolled).
Proof.
  destruct (certificate_once plain_days a_csr_name a_sign "secret" "secret" "w-1" (CALoaded "ca") ("Bearer " +:+ boot_token) "n9"
    (env_at 100) seed [] _ _ _ enroll_op_run) as (claims & Hv & _ & _ & _ & (row & Hrow & _ & Hu) & Hagain).
  split; [vm_compute; by eexists|]. exact (Hagain enrolled row (env_at 200) [] (CALoaded "ca") "n9" "w-1" Hrow Hu).
Defined.

Lemma worker_token_irrevocable_witness :
  ∃ db2 u, run_op (revokeAPITokenHandler "w-1") (env_at 200) enrolled [] = (inr 200%Z, db2) ∧
    run_op (handle an_authorizer claim_route (with_token worker_token)) (env_at 300) db2 []
    = (inr (Checked (Served (mkIdentity RoleWorker "w-1" "" "w-1") u)), db2).
Proof.
  destruct (worker_token_irrevocable plain_days a_csr_name a_sign an_authorizer "w-1" (CALoaded "ca") ("Bearer " +:+ boot_token)
    "n9" (env_at 100) seed [] _ _ _ ltac:(intros t y d Hy Hd Hyd; unfold plain_days; nia) ltac:(by split)
    ltac:(split; [vm_compute; reflexivity|done]) ltac:(reflexivity) enroll_op_run (env_at 200)) as (db2 & Er & _ & Hadm).
  destruct (Hadm (env_at 300) claim_route (with_token worker_token)) as [u Hu].
  - vm_compute. reflexivity.
  - apply (bool_decide_eq_true_1 _). vm_compute. reflexivity.
  - left.
  - vm_compute. reflexivity.
  - exists db2, u. split; [exact Er|exact Hu].
Defined.
