(* ===== verification/Ring.v ===== *)
(** * The event history of a stream ([ring] of [internal/stream/hub.go])

    A fixed-capacity circular buffer. The theorems relate it to the bounded queue
    it implements: [push] appends and forgets the oldest event once the capacity is
    reached, [slice] lists the queue, [after] the part of it past an identifier. *)

From stdpp Require Import base list strings.
From S2P Require Import Prelude GoStrings Types.
From Stdlib Require Import ZArith Lia.
Local Open Scope nat_scope.
Local Open Scope list_scope.

(** [domaintypes.SSEEventType] *)
Inductive SSEEventType := SSEEventLog | SSEEventRetention | SSEEventRun | SSEEventStage | SSEEventDone.

#[export] Instance SSEEventType_eq_dec : EqDecision SSEEventType.
Proof. solve_decision. Defined.

Record Event := mkEvent { ev_ID : Z; ev_Type : SSEEventType; ev_Data : string }.

#[export] Instance Event_eq_dec : EqDecision Event.
Proof. solve_decision. Defined.

(** The slots of [make([]Event, capacity)]; no operation reads one that was not
    written. *)
Definition zero_event : Event := mkEvent 0 SSEEventLog "".

Record ring := mkRing { r_items : list Event; r_head : nat; r_len : nat; r_cap : nat }.

Definition newRing (capacity : Z) : ring :=
  let cap := if bool_decide (capacity ≤ 0)%Z then 1 else Z.to_nat capacity in
  mkRing (replicate cap zero_event) 0 0 cap.

(** [r.items[r.head] = evt] is in range: [r_head < length r_items] on every ring
    in use ([ring_ok]). *)
Definition push (evt : Event) (r : ring) : ring :=
  mkRing (<[r_head r := evt]> (r_items r)) ((r_head r + 1) mod r_cap r)
    (if r_len r <? r_cap r then r_len r + 1 else r_len r) (r_cap r).

(** [(r.head - r.len + r.cap) % r.cap]; [r_len ≤ r_cap], so nothing is truncated. *)
Definition oldest (r : ring) : nat := (r_head r + r_cap r - r_len r) mod r_cap r.

Definition slice (r : ring) : list Event :=
  if r_len r =? 0 then []
  else
    let start := oldest r in
    if start + r_len r <=? r_cap r then take (r_len r) (drop start (r_items r))
    else drop start (r_items r) ++ take (r_len r - (r_cap r - start)) (r_items r).

(** The loop of [after]: [n] rounds left, at index [idx]. *)
Fixpoint after_loop (r : ring) (since : Z) (n idx : nat) : list Event :=
  match n with
  | O => []
  | S n' =>
      let evt := default zero_event (r_items r !! idx) in
      (if bool_decide (since < ev_ID evt)%Z then [evt] else [])
      ++ after_loop r since n' ((idx + 1) mod r_cap r)
  end.

Definition after (since : Z) (r : ring) : list Event :=
  if r_len r =? 0 then []
  else if bool_decide (since ≤ 0)%Z then slice r
  else after_loop r since (r_len r) (oldest r).

(** ** The invariant and the queue *)

Record ring_ok (r : ring) : Prop := {
  ring_size : length (r_items r) = r_cap r;
  ring_head : r_head r < r_cap r;
  ring_len : r_len r ≤ r_cap r
}.

(** The queue the ring stands for. *)
Definition queue_push (cap : nat) (l : list Event) (e : Event) : list Event :=
  drop (length l + 1 - cap) (l ++ [e]).

(** Where element [i] of the queue is. *)
Definition slot (r : ring) (i : nat) : nat := (oldest r + i) mod r_cap r.

Lemma mod_once a c : c ≤ a < 2 * c → a mod c = a - c.
Proof. intros H. symmetry. apply (Nat.mod_unique a c 1); lia. Qed.

Section Facts.
Context (r : ring) (Hr : ring_ok r).

Lemma oldest_cases :
  (r_len r ≤ r_head r ∧ oldest r = r_head r - r_len r) ∨
  (r_head r < r_len r ∧ oldest r = r_head r + r_cap r - r_len r).
Proof using Hr.
  destruct Hr as [_ Hh Hl]. unfold oldest. destruct (decide (r_len r ≤ r_head r)).
  - left. split; [done|]. rewrite mod_once by lia. lia.
  - right. split; [lia|]. by rewrite Nat.mod_small by lia.
Qed.

Lemma oldest_lt : oldest r < r_cap r.
Proof using Hr. destruct Hr as [_ Hh _]. apply Nat.mod_upper_bound. lia. Qed.

Lemma slot_cases i : i < r_cap r →
  (oldest r + i < r_cap r ∧ slot r i = oldest r + i) ∨
  (r_cap r ≤ oldest r + i ∧ slot r i = oldest r + i - r_cap r).
Proof using Hr.
  intros Hi. pose proof oldest_lt. unfold slot. destruct (decide (oldest r + i < r_cap r)).
  - left. split; [done|]. by apply Nat.mod_small.
  - right. split; [lia|]. apply mod_once. lia.
Qed.

Lemma slice_length : length (slice r) = r_len r.
Proof using Hr.
  pose proof oldest_lt. destruct Hr as [Hs Hh Hl]. unfold slice. destruct (r_len r =? 0) eqn:E.
  { apply Nat.eqb_eq in E. by rewrite E. }
  destruct (_ <=? _) eqn:E2.
  - apply Nat.leb_le in E2. rewrite length_take, length_drop. lia.
  - apply Nat.leb_gt in E2. rewrite length_app, length_take, length_drop. lia.
Qed.

Lemma slice_lookup i : i < r_len r → slice r !! i = r_items r !! slot r i.
Proof using Hr.
  intros Hi. pose proof oldest_lt as Ho. destruct (slot_cases i) as [[Hc ->]|[Hc ->]];
    [destruct Hr; lia| |]; destruct Hr as [Hs Hh Hl]; unfold slice;
    destruct (r_len r =? 0) eqn:E; [apply Nat.eqb_eq in E; lia| |apply Nat.eqb_eq in E; lia|];
    destruct (_ <=? _) eqn:E2; [apply Nat.leb_le in E2|apply Nat.leb_gt in E2|
      apply Nat.leb_le in E2; lia|apply Nat.leb_gt in E2].
  - rewrite lookup_take_lt, lookup_drop by done. done.
  - rewrite lookup_app_l by (rewrite length_drop; lia). by rewrite lookup_drop.
  - rewrite lookup_app_r by (rewrite length_drop; lia). rewrite length_drop, Hs.
    rewrite lookup_take_lt by lia. f_equal. lia.
Qed.

End Facts.

Lemma newRing_ok capacity : ring_ok (newRing capacity) ∧ slice (newRing capacity) = [].
Proof.
  split; [|done]. unfold newRing. case_bool_decide; split; simpl; rewrite ?length_replicate; lia.
Qed.

Lemma push_ok e r : ring_ok r → ring_ok (push e r).
Proof.
  intros [Hs Hh Hl]. split; simpl.
  - by rewrite length_insert.
  - apply Nat.mod_upper_bound. lia.
  - destruct (_ <? _) eqn:E; [apply Nat.ltb_lt in E|]; lia.
Qed.

(** Pushing moves the window by one once the ring is full. *)
Lemma push_slot e r i : ring_ok r → i < r_len (push e r) →
  slot (push e r) i = slot r (i + (r_len r + 1 - r_len (push e r))).
Proof.
  intros Hr Hi. pose proof (push_ok e r Hr) as Hp.
  pose proof (oldest_cases r Hr) as Ho. pose proof (oldest_cases _ Hp) as Ho'.
  assert (Hk : i + (r_len r + 1 - r_len (push e r)) ≤ r_cap r).
  { destruct Hr, Hp. simpl in *. destruct (_ <? _) eqn:E; [apply Nat.ltb_lt in E|apply Nat.ltb_ge in E]; lia. }
  destruct Hr as [Hs Hh Hl]. unfold slot. set (o := oldest r) in *. set (o' := oldest (push e r)) in *.
  clearbody o o'. simpl in *.
  destruct (decide (r_head r + 1 = r_cap r)) as [Hw|Hw].
  - rewrite Hw, Nat.Div0.mod_same in Ho'.
    destruct (r_len r <? r_cap r) eqn:E; [apply Nat.ltb_lt in E|apply Nat.ltb_ge in E].
    + f_equal. lia.
    + assert (r_len r = r_cap r) as Hf by lia. rewrite Hf in *.
      replace (o + (i + (r_cap r + 1 - r_cap r))) with (o + 1 + i) by lia.
      assert (o' = 0 ∧ o + 1 = r_cap r) as [-> ->] by lia.
      rewrite <-(Nat.Div0.add_mod_idemp_l (r_cap r)), Nat.Div0.mod_same. done.
  - rewrite (Nat.mod_small (r_head r + 1)) in Ho' by lia.
    destruct (r_len r <? r_cap r) eqn:E; [apply Nat.ltb_lt in E|apply Nat.ltb_ge in E].
    + f_equal. lia.
    + assert (r_len r = r_cap r) as Hf by lia. rewrite Hf in *. f_equal. lia.
Qed.

Lemma push_slice e r : ring_ok r → slice (push e r) = queue_push (r_cap r) (slice r) e.
Proof.
  intros Hr. pose proof (push_ok e r Hr) as Hp. unfold queue_push.
  pose proof (slice_length r Hr) as Hl. rewrite Hl.
  assert (Hk : r_len r + 1 - r_cap r = r_len r + 1 - r_len (push e r)).
  { destruct Hr. simpl. destruct (_ <? _) eqn:E; [apply Nat.ltb_lt in E|apply Nat.ltb_ge in E]; lia. }
  rewrite Hk. apply list_eq_same_length with (r_len (push e r)).
  - by rewrite length_drop, length_app, Hl; simpl; destruct (_ <? _) eqn:E;
      [apply Nat.ltb_lt in E|apply Nat.ltb_ge in E]; lia.
  - by apply slice_length.
  - intros i x y Hi. rewrite slice_lookup by done. rewrite push_slot by done. rewrite lookup_drop.
    set (k := r_len r + 1 - r_len (push e r)) in *.
    assert (Hle : k + i ≤ r_len r).
    { unfold k. simpl in Hi |- *. destruct (_ <? _) eqn:E; [apply Nat.ltb_lt in E|apply Nat.ltb_ge in E]; lia. }
    replace (i + k) with (k + i) by lia. cbn [r_items push].
    destruct (decide (k + i = r_len r)) as [Heq|Hne].
    + rewrite lookup_app_r, Hl, Heq, Nat.sub_diag by lia.
      assert (slot r (r_len r) = r_head r) as ->.
      { unfold slot. pose proof (oldest_cases r Hr). destruct Hr as [Hs Hh Hl'].
        destruct (decide (r_len r ≤ r_head r)); [rewrite Nat.mod_small by lia|rewrite mod_once by lia]; lia. }
      rewrite list_lookup_insert_eq by (destruct Hr; lia). simpl. congruence.
    + rewrite lookup_app_l by lia. rewrite slice_lookup by (done || lia).
      rewrite list_lookup_insert_ne; [congruence|].
      intros Hs. pose proof (oldest_cases r Hr). destruct (slot_cases r Hr (k + i)); destruct Hr; lia.
Qed.

(** ** Reading from an identifier on *)

Lemma after_loop_spec r since n i : ring_ok r → i + n = r_len r →
  after_loop r since n (slot r i) = filter (λ e, (since < ev_ID e)%Z) (drop i (slice r)).
Proof.
  intros Hr. revert i; induction n as [|n IH]; intros i Hi; cbn [after_loop].
  { rewrite drop_ge by (rewrite slice_length by done; lia). done. }
  destruct (lookup_lt_is_Some_2 (slice r) i) as [x Hx]; [rewrite slice_length by done; lia|].
  rewrite (drop_S _ _ _ Hx). rewrite slice_lookup in Hx by (done || lia). rewrite Hx. simpl default.
  rewrite filter_cons.
  assert (Hs : (slot r i + 1) mod r_cap r = slot r (S i)).
  { unfold slot. rewrite Nat.Div0.add_mod_idemp_l. f_equal. lia. }
  rewrite Hs, IH by lia. destruct (decide (since < ev_ID x)%Z);
    [by rewrite bool_decide_eq_true_2|by rewrite bool_decide_eq_false_2].
Qed.

Lemma after_spec since r : ring_ok r →
  after since r = if bool_decide (since ≤ 0)%Z then slice r else filter (λ e, (since < ev_ID e)%Z) (slice r).
Proof.
  intros Hr. unfold after. destruct (r_len r =? 0) eqn:E.
  { unfold slice. rewrite E. by case_bool_decide. }
  case_bool_decide; [done|]. pose proof (after_loop_spec r since (r_len r) 0 Hr eq_refl) as Hl.
  rewrite drop_0 in Hl. rewrite <-Hl. unfold slot. rewrite Nat.add_0_r, Nat.mod_small by (by apply oldest_lt). done.
Qed.
