(* ===== verification/Stream.v ===== *)
(** * Event streams ([internal/stream/hub.go])

    A stream keeps a bounded history and a set of subscribers, each with a
    buffered channel. Channels are objects of a heap, a list indexed by allocation
    order, because a subscriber keeps reading its channel after the stream has
    forgotten it. [None] is a Go panic: the send on a closed channel.

    Two models share the primitives. The first half has the methods as functions,
    one call at a time. The second is a step relation over threads in which each
    critical section, each channel send and each channel close is one step, as the
    code releases the stream's mutex between them. *)

From stdpp Require Import base gmap sets list strings.
From S2P Require Import Prelude GoStrings Types Ring.
From Stdlib Require Import ZArith Lia.
Local Open Scope list_scope.

(** ** Channels *)

(** [ch_got] is what the consumer has received so far. *)
Record Chan := mkChan { ch_buf : list Event; ch_got : list Event; ch_cap : nat; ch_closed : bool }.

Abbreviation loc := nat (only parsing).

Definition newSubscriber (buffer : nat) : Chan := mkChan [] [] buffer false.

Definition close_chan (c : Chan) : Chan := mkChan (ch_buf c) (ch_got c) (ch_cap c) true.

(** [subscriber.send]: the [select] panics on a closed channel, enqueues when there
    is room, and otherwise closes the channel and reports [false]. *)
Definition send (evt : Event) (c : Chan) : option (Chan * bool) :=
  if ch_closed c then None
  else if bool_decide (length (ch_buf c) < ch_cap c)
  then Some (mkChan (ch_buf c ++ [evt]) (ch_got c) (ch_cap c) false, true)
  else Some (close_chan c, false).

(** The consumer takes the next buffered event. *)
Definition receive (c : Chan) : option Chan :=
  match ch_buf c with
  | [] => None
  | e :: b => Some (mkChan b (ch_got c ++ [e]) (ch_cap c) (ch_closed c))
  end.

(** ** Streams *)

Record Options := mkOptions { BufferSize : Z; HistorySize : Z }.

Definition normalize (o : Options) : Options :=
  let buffer := if bool_decide (BufferSize o ≤ 0)%Z then 32%Z else BufferSize o in
  let history := if bool_decide (HistorySize o ≤ 0)%Z then 256%Z else HistorySize o in
  mkOptions buffer (if bool_decide (history < buffer)%Z then buffer else history).

Record stream := mkStream {
  st_opts : Options;
  st_history : ring;
  st_subscribers : gmap Z loc;
  st_nextEventID : Z;
  st_nextSubID : Z;
  st_closed : bool;
  st_resumeCount : Z;
  st_resumeAttempt : Z
}.

Definition newStream (opts : Options) : stream :=
  mkStream opts (newRing (HistorySize opts)) ∅ 0 0 false 0 0.

Definition snapshot (s : stream) : list Event := slice (st_history s).

(** A stream and the heap of channels. *)
Record Sys := mkSys { sy_stream : stream; sy_chans : list Chan }.

Inductive StreamErr := ErrStreamClosed | ErrInvalidID | ErrInvalidSince | ErrContext | ErrMarshal.

(** *** Critical sections *)

(** The first one of [publish]: number the event, record it. The caller then walks
    the subscribers of the new state. The counter is a 64-bit integer. *)
Definition publish_locked (evt : Event) (s : stream) : Event * stream :=
  let id := wrap64 (st_nextEventID s + 1) in
  let evt := mkEvent id (ev_Type evt) (ev_Data evt) in
  (evt, mkStream (st_opts s) (push evt (st_history s)) (st_subscribers s) id (st_nextSubID s)
          (st_closed s) (st_resumeCount s) (st_resumeAttempt s)).

Definition set_subscribers (m : gmap Z loc) (s : stream) : stream :=
  mkStream (st_opts s) (st_history s) m (st_nextEventID s) (st_nextSubID s) (st_closed s)
    (st_resumeCount s) (st_resumeAttempt s).

(** The body of [drop]'s critical section: the channel to close, if the subscriber
    is still there. *)
Definition unlink (id : Z) (s : stream) : option loc * stream :=
  match st_subscribers s !! id with
  | Some l => (Some l, set_subscribers (delete id (st_subscribers s)) s)
  | None => (None, s)
  end.

(** The second critical section of [publish]: forget and close the subscribers that
    could not take the event. *)
Definition unlink_dropped (dropped : list Z) (sys : Sys) : Sys :=
  foldl (λ sys id,
    match st_subscribers (sy_stream sys) !! id with
    | Some l => mkSys (set_subscribers (delete id (st_subscribers (sy_stream sys))) (sy_stream sys))
                  (alter close_chan l (sy_chans sys))
    | None => sys
    end) sys dropped.

(** The critical section of [subscribe]: the history to replay, the subscriber's id
    (-1 on a closed stream) and the new channel. *)
Definition subscribe_locked (sinceID : Z) (sys : Sys) : Sys * Z * loc * list Event :=
  let s := sy_stream sys in
  let l := length (sy_chans sys) in
  let chans := sy_chans sys ++ [newSubscriber (Z.to_nat (BufferSize (st_opts s)))] in
  let history := after sinceID (st_history s) in
  if st_closed s then (mkSys s chans, (-1)%Z, l, history)
  else
    let id := st_nextSubID s in
    (mkSys (mkStream (st_opts s) (st_history s) (<[id := l]> (st_subscribers s)) (st_nextEventID s)
              (id + 1)%Z (st_closed s) (st_resumeCount s) (st_resumeAttempt s)) chans,
     id, l, history).

(** The critical section of [finish]. *)
Definition finish_locked (s : stream) : stream :=
  mkStream (st_opts s) (st_history s) ∅ (st_nextEventID s) (st_nextSubID s) true
    (st_resumeCount s) (st_resumeAttempt s).

(** [resume] is one critical section. *)
Definition resume (attempt count : Z) (s : stream) : stream :=
  if bool_decide (attempt < st_resumeAttempt s)%Z
     || (bool_decide (attempt = st_resumeAttempt s) && bool_decide (count ≤ st_resumeCount s)%Z)
  then s
  else mkStream (st_opts s) (newRing (HistorySize (st_opts s))) (st_subscribers s) (st_nextEventID s)
         (st_nextSubID s) false count attempt.

(** ** One call at a time *)

(** Deliver to the subscribers in [subs], collecting the ids that could not take
    the event. *)
Fixpoint send_all (evt : Event) (subs : list (Z * loc)) (chans : list Chan) (dropped : list Z) :
    option (list Chan * list Z) :=
  match subs with
  | [] => Some (chans, dropped)
  | (id, l) :: subs' =>
      match chans !! l with
      | None => None
      | Some c =>
          match send evt c with
          | None => None
          | Some (c', ok) => send_all evt subs' (<[l := c']> chans) (if ok then dropped else dropped ++ [id])
          end
      end
  end.

Definition publish (evt : Event) (sys : Sys) : option (StreamErr + unit * Sys) :=
  let s := sy_stream sys in
  if st_closed s then Some (inl ErrStreamClosed)
  else
    let '(evt, s') := publish_locked evt s in
    '(chans, dropped) ← send_all evt (map_to_list (st_subscribers s')) (sy_chans sys) [];
    Some (inr (tt, unlink_dropped dropped (mkSys s' chans))).

Definition drop_sub (id : Z) (sys : Sys) : Sys :=
  if bool_decide (id < 0)%Z then sys
  else
    let '(l, s') := unlink id (sy_stream sys) in
    mkSys s' (match l with Some l => alter close_chan l (sy_chans sys) | None => sy_chans sys end).

Definition finish (sys : Sys) : Sys :=
  if st_closed (sy_stream sys) then sys
  else mkSys (finish_locked (sy_stream sys))
         (foldl (λ chans l, alter close_chan l chans) (sy_chans sys)
            (map_to_list (st_subscribers (sy_stream sys))).*2).

(** The replay loop of [subscribeStream]. *)
Fixpoint replay (id : Z) (l : loc) (history : list Event) (sys : Sys) : option Sys :=
  match history with
  | [] => Some sys
  | evt :: history' =>
      match sy_chans sys !! l with
      | None => None
      | Some c =>
          match send evt c with
          | None => None
          | Some (c', ok) =>
              let sys' := mkSys (sy_stream sys) (<[l := c']> (sy_chans sys)) in
              if ok then replay id l history' sys'
              else Some (if bool_decide (0 ≤ id)%Z then drop_sub id sys' else sys')
          end
      end
  end.

(** The subscriber's id for [Cancel] (-1 when there is nothing to cancel) and its
    channel. *)
Definition subscribe (sinceID : Z) (sys : Sys) : option (Z * loc * Sys) :=
  let '(sys1, id, l, history) := subscribe_locked sinceID sys in
  sys2 ← replay id l history sys1;
  Some (if st_closed (sy_stream sys)
        then (id, l, mkSys (sy_stream sys2) (alter close_chan l (sy_chans sys2)))
        else (id, l, sys2)).

(** ** The hub *)

Record Hub := mkHub {
  hb_streams : gmap string stream; hb_jobStreams : gmap string stream;
  hb_opts : Options; hb_chans : list Chan
}.

Definition NewHub (opts : Options) : Hub := mkHub ∅ ∅ (normalize opts) [].

(** The two families of streams: run streams and job streams. *)
Inductive Family := RunStreams | JobStreams.

Definition family (f : Family) (h : Hub) : gmap string stream :=
  match f with RunStreams => hb_streams h | JobStreams => hb_jobStreams h end.

Definition set_family (f : Family) (m : gmap string stream) (h : Hub) : Hub :=
  match f with
  | RunStreams => mkHub m (hb_jobStreams h) (hb_opts h) (hb_chans h)
  | JobStreams => mkHub (hb_streams h) m (hb_opts h) (hb_chans h)
  end.

Definition getOrCreateStream (f : Family) (key : string) (h : Hub) : stream :=
  default (newStream (hb_opts h)) (family f h !! key).

(** Store a stream and the heap back. *)
Definition put (f : Family) (key : string) (sys : Sys) (h : Hub) : Hub :=
  let h' := set_family f (<[key := sy_stream sys]> (family f h)) h in
  mkHub (hb_streams h') (hb_jobStreams h') (hb_opts h') (sy_chans sys).

(** [Ensure] and [EnsureJob] *)
Definition EnsureStream (f : Family) (id : string) (h : Hub) : StreamErr + Hub :=
  if IsZero id then inl ErrInvalidID
  else
    let key := trim_space id in
    inr (set_family f (<[key := getOrCreateStream f key h]> (family f h)) h).

(** [publish] and [publishJob] with [publishStream]: [payload] is what
    [json.Marshal] gives, [ctxErr] whether the context is done. The event types the
    callers pass are all valid. On a closed stream the stream is still created. *)
Definition publishStream (f : Family) (id : string) (ctxErr : bool) (t : SSEEventType)
    (payload : option string) (h : Hub) : option ((StreamErr + unit) * Hub) :=
  if IsZero id then Some (inl ErrInvalidID, h)
  else
    let key := trim_space id in
    if ctxErr then Some (inl ErrContext, h)
    else
      let s := getOrCreateStream f key h in
      let h1 := put f key (mkSys s (hb_chans h)) h in
      match payload with
      | None => Some (inl ErrMarshal, h1)
      | Some data =>
          r ← publish (mkEvent 0 t data) (mkSys s (hb_chans h));
          Some (match r with
                | inl e => (inl e, h1)
                | inr (_, sys') => (inr tt, put f key sys' h1)
                end)
      end.

(** [PublishStatus] and [PublishJobStatus]: the terminal event, then [finish]. *)
Definition PublishStatusStream (f : Family) (id : string) (ctxErr : bool) (payload : option string)
    (h : Hub) : option ((StreamErr + unit) * Hub) :=
  '(r, h1) ← publishStream f id ctxErr SSEEventDone payload h;
  Some (match r with
        | inl e => (inl e, h1)
        | inr _ =>
            let key := trim_space id in
            (inr tt, put f key (finish (mkSys (getOrCreateStream f key h1) (hb_chans h1))) h1)
        end).

(** [Subscribe] and [SubscribeJob] *)
Definition SubscribeHub (f : Family) (id : string) (ctxErr : bool) (sinceID : Z) (h : Hub) :
    option ((StreamErr + Z * loc) * Hub) :=
  if IsZero id then Some (inl ErrInvalidID, h)
  else
    let key := trim_space id in
    if bool_decide (sinceID < 0)%Z then Some (inl ErrInvalidSince, h)
    else if ctxErr then Some (inl ErrContext, h)
    else
      '(sub, l, sys') ← subscribe sinceID (mkSys (getOrCreateStream f key h) (hb_chans h));
      Some (inr (sub, l), put f key sys' h).

(** [Snapshot] and [SnapshotJob] *)
Definition SnapshotHub (f : Family) (id : string) (h : Hub) : list Event :=
  if IsZero id then []
  else match family f h !! trim_space id with None => [] | Some s => snapshot s end.

(** [ResumeJob] (with attempt 0) and [ResumeRun] *)
Definition ResumeHub (f : Family) (id : string) (attempt count : Z) (h : Hub) : Hub :=
  if IsZero id || bool_decide (count ≤ 0)%Z then h
  else
    let key := trim_space id in
    put f key (mkSys (resume attempt count (getOrCreateStream f key h)) (hb_chans h)) h.

(** [Subscription.Cancel] *)
Definition CancelHub (f : Family) (key : string) (sub : Z) (h : Hub) : Hub :=
  match family f h !! key with
  | None => h
  | Some s => put f key (drop_sub sub (mkSys s (hb_chans h))) h
  end.

(** ** Threads

    What a goroutine inside one of the methods is about to do. *)
Inductive Thread :=
| TPublish (evt : Event) (andFinish : bool)
| TSend (evt : Event) (pending : list (Z * loc)) (dropped : list Z) (andFinish : bool)
| TFinish
| TSubscribe (sinceID : Z)
| TReplay (id : Z) (l : loc) (history : list Event) (closed : bool)
| TDrop (id : Z)
| TClose (ls : list loc)
| TResume (attempt count : Z)
| TDone.

(** Where a call starts. *)
Definition starting (t : Thread) : bool :=
  match t with
  | TPublish _ _ | TSubscribe _ | TDrop _ | TResume _ _ => true
  | _ => false
  end.

(** After [publish] returned nil: [PublishStatus] goes on to [finish]. *)
Definition published (andFinish : bool) : Thread := if andFinish then TFinish else TDone.

(** One step of one thread. The order in which [publish] and [finish] walk the
    subscribers is the iteration order of a Go map: any. *)
Inductive tstep : Sys → Thread → Sys → Thread → Prop :=
| step_publish_closed sys evt f :
    st_closed (sy_stream sys) = true → tstep sys (TPublish evt f) sys TDone
| step_publish sys evt f evt' s' subs :
    st_closed (sy_stream sys) = false → publish_locked evt (sy_stream sys) = (evt', s') →
    subs ≡ₚ map_to_list (st_subscribers s') →
    tstep sys (TPublish evt f) (mkSys s' (sy_chans sys)) (TSend evt' subs [] f)
| step_send s chans evt id l subs dropped f c c' ok :
    chans !! l = Some c → send evt c = Some (c', ok) →
    tstep (mkSys s chans) (TSend evt ((id, l) :: subs) dropped f)
      (mkSys s (<[l := c']> chans)) (TSend evt subs (if ok then dropped else dropped ++ [id]) f)
| step_sent sys evt dropped f :
    tstep sys (TSend evt [] dropped f) (unlink_dropped dropped sys) (published f)
| step_finish_closed sys :
    st_closed (sy_stream sys) = true → tstep sys TFinish sys TDone
| step_finish sys ls :
    st_closed (sy_stream sys) = false → ls ≡ₚ (map_to_list (st_subscribers (sy_stream sys))).*2 →
    tstep sys TFinish (mkSys (finish_locked (sy_stream sys)) (sy_chans sys)) (TClose ls)
| step_close s chans l ls :
    tstep (mkSys s chans) (TClose (l :: ls)) (mkSys s (alter close_chan l chans)) (TClose ls)
| step_subscribe sys since sys' id l history :
    subscribe_locked since sys = (sys', id, l, history) →
    tstep sys (TSubscribe since) sys' (TReplay id l history (st_closed (sy_stream sys)))
| step_replay s chans id l evt history closed c c' :
    chans !! l = Some c → send evt c = Some (c', true) →
    tstep (mkSys s chans) (TReplay id l (evt :: history) closed)
      (mkSys s (<[l := c']> chans)) (TReplay id l history closed)
| step_replay_full s chans id l evt history closed c c' :
    chans !! l = Some c → send evt c = Some (c', false) →
    tstep (mkSys s chans) (TReplay id l (evt :: history) closed)
      (mkSys s (<[l := c']> chans))
      (if bool_decide (0 ≤ id)%Z then TDrop id else if closed then TClose [l] else TDone)
| step_replayed sys id l closed :
    tstep sys (TReplay id l [] closed) sys (if closed then TClose [l] else TDone)
| step_drop_negative sys id :
    (id < 0)%Z → tstep sys (TDrop id) sys TDone
| step_drop s chans id l s' :
    (0 ≤ id)%Z → unlink id s = (l, s') →
    tstep (mkSys s chans) (TDrop id) (mkSys s' chans)
      (match l with Some l => TClose [l] | None => TDone end)
| step_resume s chans attempt count :
    tstep (mkSys s chans) (TResume attempt count) (mkSys (resume attempt count s) chans) TDone.

(** A thread that is about to send on a closed channel panics. *)
Definition about_to_send (t : Thread) : option loc :=
  match t with
  | TSend _ ((_, l) :: _) _ _ | TReplay _ l (_ :: _) _ => Some l
  | _ => None
  end.

Definition panics (sys : Sys) (t : Thread) : Prop :=
  ∃ l c, about_to_send t = Some l ∧ sy_chans sys !! l = Some c ∧ ch_closed c = true.

(** The event a step of a thread publishes, as the caller handed it in: the call was
    not refused. *)
Definition accepted (t t' : Thread) : list Event :=
  match t, t' with TPublish evt _, TSend _ _ _ _ => [evt] | _, _ => [] end.

(** Any number of goroutines; calls arrive at any time and consumers read. The list
    is what the step publishes. *)
Inductive world_step : Sys * list Thread → list Event → Sys * list Thread → Prop :=
| world_call sys ts t :
    starting t = true → world_step (sys, ts) [] (sys, ts ++ [t])
| world_thread sys sys' pre t t' post :
    tstep sys t sys' t' → world_step (sys, pre ++ t :: post) (accepted t t') (sys', pre ++ t' :: post)
| world_receive s chans ts l c c' :
    chans !! l = Some c → receive c = Some c' →
    world_step (mkSys s chans, ts) [] (mkSys s (<[l := c']> chans), ts).

(** The states reached from a new stream, with the events published on the way, in
    the order of their publication. *)
Inductive world_reachable (opts : Options) : list Event → Sys * list Thread → Prop :=
| world_new : world_reachable opts [] (mkSys (newStream opts) [], [])
| world_next log new w w' :
    world_reachable opts log w → world_step w new w' → world_reachable opts (log ++ new) w'.

(** What subscribers are given of the events published: each with its position as its
    id. *)
Definition stamp (i : nat) (evt : Event) : Event := mkEvent (Z.of_nat i + 1) (ev_Type evt) (ev_Data evt).

Definition stamped (log : list Event) : list Event := imap stamp log.
