(* ===== verification/Sse.v ===== *)
(** * Events on the wire ([internal/stream/http.go], [internal/server/handlers/events.go],
    [internal/domain/types/ids.go])

    The server writes the events of a stream as server-sent events. Here the frames
    it writes and the cursor it reads back, and, as the reference for what a client
    makes of them, the interpretation of an event stream that the HTML standard
    gives. *)

From stdpp Require Import base sets list strings.
From S2P Require Import Prelude GoStrings Types Ring.
From Stdlib Require Import ZArith Lia Ascii DecimalString DecimalN.
Local Open Scope list_scope.

(** ** Event identifiers *)

(** [strconv.FormatInt] of a non-negative number. *)
Definition format_nonneg (n : Z) : string := NilEmpty.string_of_uint (N.to_uint (Z.to_N n)).

Definition EventID_String (v : Z) : string :=
  if bool_decide (v < 0)%Z then "-" +:+ format_nonneg (- v) else format_nonneg v.

(** [strconv.ParseInt(s, 10, 64)] *)
Definition parse_digits (s : string) : option Z :=
  match s with
  | "" => None
  | _ => (λ d, Z.of_N (N.of_uint d)) <$> NilEmpty.uint_of_string s
  end.

Definition ParseInt64 (s : string) : option Z :=
  n ← (if has_prefix s "-" then Z.opp <$> parse_digits (trim_prefix s "-")
       else parse_digits (trim_prefix s "+"));
  if bool_decide (- 2 ^ 63 ≤ n < 2 ^ 63)%Z then Some n else None.

Definition EventID_UnmarshalText (text : string) : option Z :=
  let s := trim_space text in
  if decide (s = "") then None
  else n ← ParseInt64 s; if bool_decide (n < 0)%Z then None else Some n.

(** No header, or one that does not parse, is the cursor 0. *)
Definition parseLastEventID (header : string) : Z :=
  if decide (header = "") then 0%Z else default 0%Z (EventID_UnmarshalText header).

(** ** Frames *)

Definition SSEEventType_String (t : SSEEventType) : string :=
  match t with
  | SSEEventLog => "log" | SSEEventRetention => "retention" | SSEEventRun => "run"
  | SSEEventStage => "stage" | SSEEventDone => "done"
  end.

Definition newline : ascii := b 10.
Definition line (s : string) : string := s +:+ String newline "".

(** What [WriteEventFrame] writes. *)
Definition WriteEventFrame (evt : Event) : string :=
  (if bool_decide (0 < ev_ID evt)%Z then line ("id: " +:+ EventID_String (ev_ID evt)) else "")
  +:+ line ("event: " +:+ SSEEventType_String (ev_Type evt))
  +:+ (if decide (ev_Data evt = "") then line "data:"
       else foldr (λ l rest, line ("data: " +:+ l) +:+ rest) "" (split (ev_Data evt) newline))
  +:+ line "".

(** The loop of [ServeJob] (and of [ServeFiltered], with a filter): the events that
    arrive on the channel, up to the first [done] that is written. *)
Fixpoint serve (filter : Event → option Event) (events : list Event) : list Event :=
  match events with
  | [] => []
  | e :: rest =>
      match filter e with
      | None => serve filter rest
      | Some e' => if decide (ev_Type e' = SSEEventDone) then [e'] else e' :: serve filter rest
      end
  end.

(** The body of a response. *)
Definition response_body (events : list Event) : string :=
  line ":ok" +:+ line "" +:+ foldr (λ e rest, WriteEventFrame e +:+ rest) "" events.

(** ** The standard's reading of an event stream *)

(** An event as dispatched: its identifier is the last one the stream has set. *)
Record SseEvent := mkSseEvent { sse_LastEventID : string; sse_Type : string; sse_Data : string }.

Record Reader := mkReader {
  rd_data : list bytes;        (* the data buffer, as its lines *)
  rd_type : bytes;
  rd_id : bytes
}.

Definition colon : ascii := ":"%char.

(** A field name with its value, without the one space that may precede it. *)
Definition field (l : bytes) : bytes * bytes :=
  match cut_bytes colon l with
  | None => (l, [])
  | Some (name, v) => (name, match v with c :: v' => if decide (c = " "%char) then v' else v | [] => [] end)
  end.

Definition read_field (r : Reader) (name value : bytes) : Reader :=
  if decide (name = to_bytes "event") then mkReader (rd_data r) value (rd_id r)
  else if decide (name = to_bytes "data") then mkReader (rd_data r ++ [value]) (rd_type r) (rd_id r)
  else if decide (name = to_bytes "id") then
    if decide (b 0 ∈ value) then r else mkReader (rd_data r) (rd_type r) value
  else r.

(** An empty line dispatches the event unless its data buffer is empty; a line that
    starts with a colon is a comment. *)
Definition read_line (r : Reader) (l : bytes) : list SseEvent * Reader :=
  match l with
  | [] =>
      (match rd_data r with
       | [] => []
       | ls => [mkSseEvent (of_bytes (rd_id r)) (of_bytes (rd_type r)) (of_bytes (join_bytes newline ls))]
       end, mkReader [] [] (rd_id r))
  | c :: _ =>
      if decide (c = colon) then ([], r)
      else let '(name, v) := field l in ([], read_field r name v)
  end.

Fixpoint read_lines (r : Reader) (ls : list bytes) : list SseEvent :=
  match ls with
  | [] => []
  | l :: rest => let '(out, r') := read_line r l in out ++ read_lines r' rest
  end.

(** Lines end with a line feed, a carriage return, or both; what follows the last
    end of line is not a line. *)
Fixpoint stream_lines (cr : bool) (acc : bytes) (l : bytes) : list bytes :=
  match l with
  | [] => []
  | c :: rest =>
      if decide (c = newline) then (if cr then stream_lines false [] rest else reverse acc :: stream_lines false [] rest)
      else if decide (c = b 13) then reverse acc :: stream_lines true [] rest
      else stream_lines false (c :: acc) rest
  end.

Definition sse_standard (body : string) : list SseEvent :=
  read_lines (mkReader [] [] []) (stream_lines false [] (to_bytes body)).

(** ** Facts *)

(** *** Identifiers *)

Lemma uint_string_digits d : forallb is_hex_lower (to_bytes (NilEmpty.string_of_uint d)) = true.
Proof. induction d; simpl; [done|..]; by rewrite IHd. Qed.

Lemma format_nonneg_nonempty n : format_nonneg n ≠ "".
Proof.
  unfold format_nonneg. intros E. assert (Hd : N.to_uint (Z.to_N n) = Decimal.Nil).
  { by destruct (N.to_uint (Z.to_N n)). }
  destruct (Z.to_N n) as [|p]; [done|]. by apply DecimalPos.Unsigned.to_uint_nonnil in Hd.
Qed.

Lemma format_nonneg_first n : ∃ c rest, to_bytes (format_nonneg n) = c :: rest ∧ is_hex_lower c = true.
Proof.
  pose proof (uint_string_digits (N.to_uint (Z.to_N n))) as Hd. fold (format_nonneg n) in Hd.
  pose proof (format_nonneg_nonempty n). destruct (format_nonneg n) as [|c s]; [done|]. simpl in *.
  apply andb_true_iff in Hd as [Hd _]. eauto.
Qed.

Lemma strip_sign n p : is_hex_lower p = false →
  strip [p] (to_bytes (format_nonneg n)) = None.
Proof.
  intros Hp. destruct (format_nonneg_first n) as (c & rest & -> & Hc). simpl.
  rewrite decide_False; [done|]. intros ->. congruence.
Qed.

Lemma no_sign n :
  has_prefix (format_nonneg n) "-" = false ∧ trim_prefix (format_nonneg n) "+" = format_nonneg n.
Proof.
  unfold has_prefix, trim_prefix. change (to_bytes "-") with ["-"%char]. change (to_bytes "+") with ["+"%char].
  by rewrite !strip_sign.
Qed.

Lemma parse_format n : (0 ≤ n)%Z → parse_digits (format_nonneg n) = Some n.
Proof.
  intros Hn. unfold parse_digits. pose proof (format_nonneg_nonempty n) as Hne.
  destruct (format_nonneg n) as [|c s] eqn:E; [done|]. rewrite <-E. unfold format_nonneg.
  rewrite NilEmpty.usu. simpl. f_equal. rewrite Unsigned.of_to. by apply Z2N.id.
Qed.

Lemma event_id_roundtrip n : (0 ≤ n < 2 ^ 63)%Z → EventID_UnmarshalText (EventID_String n) = Some n.
Proof.
  intros Hn. unfold EventID_String. rewrite bool_decide_eq_false_2 by lia. unfold EventID_UnmarshalText.
  rewrite trim_space_hex by apply uint_string_digits. rewrite decide_False by apply format_nonneg_nonempty.
  unfold ParseInt64. destruct (no_sign n) as [-> ->]. rewrite parse_format by lia. simpl. rewrite bool_decide_eq_true_2 by lia. simpl.
  by rewrite bool_decide_eq_false_2 by lia.
Qed.

(** *** Lines *)

Definition unlines (ls : list bytes) : bytes := concat ((λ l, l ++ [newline]) <$> ls).

(** Text without an end of line. *)
Definition unbroken (l : bytes) : Prop := newline ∉ l ∧ b 13 ∉ l.

Lemma stream_lines_unbroken acc l rest :
  unbroken l → stream_lines false acc (l ++ newline :: rest) = (reverse acc ++ l) :: stream_lines false [] rest.
Proof.
  revert acc. induction l as [|c l IH]; intros acc [H1 H2]; simpl.
  { by rewrite app_nil_r. }
  apply not_elem_of_cons in H1 as [Hc1 H1], H2 as [Hc2 H2]. rewrite !decide_False by congruence.
  rewrite IH by done. by rewrite reverse_cons, <-app_assoc.
Qed.

Lemma stream_lines_unlines ls : Forall unbroken ls → stream_lines false [] (unlines ls) = ls.
Proof.
  induction 1 as [|l ls Hl Hls IH]; [done|]. unfold unlines in *. rewrite fmap_cons. cbn [concat].
  rewrite <-app_assoc. cbn [app]. rewrite stream_lines_unbroken by done. by rewrite IH.
Qed.

Lemma read_lines_app r ls ms :
  read_lines r (ls ++ ms) = read_lines r ls ++ read_lines (foldl (λ r l, (read_line r l).2) r ls) ms.
Proof.
  revert r. induction ls as [|l ls IH]; intros r; [done|]. cbn [read_lines app foldl].
  destruct (read_line r l) as [out r'] eqn:E. simpl. by rewrite IH, app_assoc.
Qed.

(** *** Frames *)

Definition frame_lines (e : Event) : list bytes :=
  (if bool_decide (0 < ev_ID e)%Z then [to_bytes ("id: " +:+ EventID_String (ev_ID e))] else [])
  ++ [to_bytes ("event: " +:+ SSEEventType_String (ev_Type e))]
  ++ (if decide (ev_Data e = "") then [to_bytes "data:"]
      else (λ l, to_bytes "data: " ++ l) <$> split_bytes newline (to_bytes (ev_Data e)))
  ++ [[]].

Lemma unlines_app ls ms : unlines (ls ++ ms) = unlines ls ++ unlines ms.
Proof. unfold unlines. by rewrite fmap_app, concat_app. Qed.

Lemma line_bytes s : to_bytes (line s) = to_bytes s ++ [newline].
Proof. unfold line. by rewrite to_bytes_app. Qed.

Lemma data_lines_bytes ws :
  to_bytes (foldr (λ l rest, line ("data: " +:+ l) +:+ rest) "" (of_bytes <$> ws))
  = unlines ((λ l, to_bytes "data: " ++ l) <$> ws).
Proof.
  induction ws as [|w ws IH]; [done|]. rewrite !fmap_cons. cbn [foldr]. rewrite to_bytes_app, line_bytes, IH.
  rewrite to_bytes_app, to_of. unfold unlines. rewrite fmap_cons. done.
Qed.

Lemma frame_bytes e : to_bytes (WriteEventFrame e) = unlines (frame_lines e).
Proof.
  unfold WriteEventFrame, frame_lines. rewrite !to_bytes_app, !unlines_app. f_equal; [|f_equal; [|f_equal]].
  - case_bool_decide; [|done]. rewrite line_bytes. unfold unlines. simpl. by rewrite app_nil_r.
  - rewrite line_bytes. unfold unlines. simpl. by rewrite app_nil_r.
  - destruct (decide _); [done|]. unfold split. apply data_lines_bytes.
Qed.

(** Reading the fields of a frame. *)
Lemma read_named r name v :
  colon ∉ name → name ≠ [] →
  read_line r (name ++ colon :: " "%char :: v) = ([], read_field r name v).
Proof.
  intros Hc Hne. destruct name as [|c name]; [done|]. unfold read_line. cbn [app].
  rewrite decide_False by (apply not_elem_of_cons in Hc; naive_solver).
  unfold field. change (c :: name ++ colon :: " "%char :: v) with ((c :: name) ++ colon :: " "%char :: v).
  by rewrite cut_app by done.
Qed.

Lemma read_data_lines r ws rest :
  read_lines r (((λ l, to_bytes "data: " ++ l) <$> ws) ++ rest)
  = read_lines (mkReader (rd_data r ++ ws) (rd_type r) (rd_id r)) rest.
Proof.
  revert r. induction ws as [|w ws IH]; intros r.
  { rewrite app_nil_r. by destruct r. }
  rewrite fmap_cons. cbn [app read_lines].
  change (to_bytes "data: " ++ w) with (to_bytes "data" ++ colon :: " "%char :: w).
  rewrite read_named by (apply (bool_decide_eq_true_1 _); vm_compute; reflexivity). cbn [app].
  rewrite IH. unfold read_field. rewrite decide_False by (vm_compute; discriminate). rewrite decide_True by done.
  cbn [rd_data rd_type rd_id]. by rewrite <-app_assoc.
Qed.

(** The event a frame stands for, [last] the identifier set before it. *)
Definition shown (last : bytes) (e : Event) : SseEvent :=
  mkSseEvent (if bool_decide (0 < ev_ID e)%Z then EventID_String (ev_ID e) else of_bytes last)
    (SSEEventType_String (ev_Type e)) (ev_Data e).

Lemma no_nul n : b 0 ∉ to_bytes (EventID_String n).
Proof.
  assert (Hd : ∀ m, b 0 ∉ to_bytes (format_nonneg m)).
  { intros m Hin. pose proof (uint_string_digits (N.to_uint (Z.to_N m))) as Hh.
    rewrite forallb_forall in Hh. apply list_elem_of_In, Hh in Hin. by vm_compute in Hin. }
  unfold EventID_String. case_bool_decide; [|apply Hd]. rewrite to_bytes_app. rewrite elem_of_app.
  intros [Hin|Hin]; [|by apply Hd in Hin]. apply list_elem_of_singleton in Hin. discriminate Hin.
Qed.

Lemma read_frame last e rest :
  read_lines (mkReader [] [] last) (frame_lines e ++ rest)
  = shown last e :: read_lines (mkReader [] [] (to_bytes (sse_LastEventID (shown last e)))) rest.
Proof.
  unfold frame_lines, shown. cbn [sse_LastEventID]. rewrite <-!app_assoc.
  set (r0 := mkReader [] [] (to_bytes (if bool_decide (0 < ev_ID e)%Z then EventID_String (ev_ID e) else of_bytes last))).
  assert (Hid : ∀ tail, read_lines (mkReader [] [] last) ((if bool_decide (0 < ev_ID e)%Z
    then [to_bytes ("id: " +:+ EventID_String (ev_ID e))] else []) ++ tail) = read_lines r0 tail).
  { intros tail. unfold r0. case_bool_decide; [|by rewrite to_of]. cbn [app read_lines].
    change (to_bytes ("id: " +:+ EventID_String (ev_ID e)))
      with (to_bytes "id" ++ colon :: " "%char :: to_bytes (EventID_String (ev_ID e))).
    rewrite read_named by (apply (bool_decide_eq_true_1 _); vm_compute; reflexivity). cbn [app].
    unfold read_field. rewrite !decide_False by (try apply no_nul; vm_compute; discriminate).
    rewrite decide_True by done. rewrite decide_False by apply no_nul. done. }
  rewrite Hid. cbn [app read_lines].
  change (to_bytes ("event: " +:+ SSEEventType_String (ev_Type e)))
    with (to_bytes "event" ++ colon :: " "%char :: to_bytes (SSEEventType_String (ev_Type e))).
  rewrite read_named by (apply (bool_decide_eq_true_1 _); vm_compute; reflexivity). cbn [app].
  unfold read_field at 1. rewrite decide_True by done. cbn [rd_data rd_id r0].
  destruct (decide (ev_Data e = "")) as [E|Hne].
  - rewrite E. cbn [app read_lines]. change (read_line _ (to_bytes "data:")) with
      (@nil SseEvent, mkReader [[]] (to_bytes (SSEEventType_String (ev_Type e))) (rd_id r0)).
    cbn. by rewrite !of_to.
  - rewrite read_data_lines. cbn [rd_data rd_type rd_id app read_lines read_line].
    pose proof (split_bytes_ne newline (to_bytes (ev_Data e))) as Hs. pose proof (join_split newline (to_bytes (ev_Data e))) as Hj.
    destruct (split_bytes newline (to_bytes (ev_Data e))) as [|w ws]; [done|]. rewrite Hj, !of_to. done.
Qed.

Fixpoint shown_all (last : bytes) (es : list Event) : list SseEvent :=
  match es with
  | [] => []
  | e :: rest => shown last e :: shown_all (to_bytes (sse_LastEventID (shown last e))) rest
  end.

Lemma read_frames last es :
  read_lines (mkReader [] [] last) (concat (frame_lines <$> es)) = shown_all last es.
Proof.
  revert last. induction es as [|e es IH]; intros last; [done|]. rewrite fmap_cons. cbn [concat shown_all].
  by rewrite read_frame, IH.
Qed.

(** Data as [json.Marshal] renders it has no raw control characters; a carriage
    return is the one that would break a frame. *)
Definition no_cr (e : Event) : Prop := b 13 ∉ to_bytes (ev_Data e).

Lemma unbroken_digits n : (0 ≤ n)%Z → unbroken (to_bytes (EventID_String n)).
Proof.
  intros Hn. unfold EventID_String. rewrite bool_decide_eq_false_2 by lia.
  pose proof (uint_string_digits (N.to_uint (Z.to_N n))) as Hh. rewrite forallb_forall in Hh.
  split; intros Hin; apply list_elem_of_In, Hh in Hin; by vm_compute in Hin.
Qed.

Lemma unbroken_app l m : unbroken l → unbroken m → unbroken (l ++ m).
Proof. intros [] []. split; rewrite elem_of_app; tauto. Qed.

Lemma unbroken_const l : bool_decide (newline ∉ l ∧ b 13 ∉ l) = true → unbroken l.
Proof. by intros H%bool_decide_eq_true_1. Qed.

Lemma split_elem c x l : x ∉ l → Forall (λ w, x ∉ w) (split_bytes c l).
Proof.
  induction l as [|y l IH]; simpl; intros Hx; [repeat constructor; apply not_elem_of_nil|].
  apply not_elem_of_cons in Hx as [Hy Hx]. specialize (IH Hx). case_decide; [constructor; [apply not_elem_of_nil|done]|].
  destruct (split_bytes c l); [repeat constructor; set_solver|]. apply Forall_cons in IH as [? ?].
  constructor; [set_solver|done].
Qed.

Lemma frame_unbroken e : no_cr e → Forall unbroken (frame_lines e).
Proof.
  intros Hcr. unfold frame_lines. rewrite !Forall_app. split_and!.
  - case_bool_decide; [|done]. constructor; [|done]. rewrite to_bytes_app.
    apply unbroken_app; [by apply unbroken_const|apply unbroken_digits; lia].
  - constructor; [|done]. rewrite to_bytes_app. apply unbroken_app; [by apply unbroken_const|].
    destruct (ev_Type e); by apply unbroken_const.
  - destruct (decide _); [constructor; [by apply unbroken_const|done]|]. apply Forall_fmap, Forall_forall. intros w Hw. simpl.
    pose proof (split_bytes_free newline (to_bytes (ev_Data e))) as H1.
    pose proof (split_elem newline (b 13) (to_bytes (ev_Data e)) Hcr) as H2.
    rewrite Forall_forall in H1, H2. apply (unbroken_app (to_bytes "data: ")); [by apply unbroken_const|].
    split; [by apply H1|by apply H2].
  - constructor; [|done]. split; apply not_elem_of_nil.
Qed.

Lemma response_bytes es :
  to_bytes (response_body es) = unlines (to_bytes ":ok" :: [] :: concat (frame_lines <$> es)).
Proof.
  unfold response_body. rewrite !to_bytes_app, !line_bytes.
  assert (Hf : to_bytes (foldr (λ e rest, WriteEventFrame e +:+ rest) "" es) = unlines (concat (frame_lines <$> es))).
  { induction es as [|e es IH]; [done|]. cbn [foldr]. rewrite to_bytes_app, frame_bytes, IH, fmap_cons. cbn [concat].
    by rewrite unlines_app. }
  rewrite Hf. reflexivity.
Qed.

(** What the standard reads from a response. *)
Lemma response_read es : Forall no_cr es → sse_standard (response_body es) = shown_all [] es.
Proof.
  intros Hes. unfold sse_standard. rewrite response_bytes, stream_lines_unlines.
  - rewrite <-(read_frames [] es). reflexivity.
  - apply Forall_cons. split; [by apply unbroken_const|]. apply Forall_cons. split; [split; apply not_elem_of_nil|].
    induction Hes as [|e es He _ IH]; [constructor|]. rewrite fmap_cons. cbn [concat]. apply Forall_app.
    split; [by apply frame_unbroken|done].
Qed.

Lemma shown_all_numbered last es : Forall (λ e, 0 < ev_ID e)%Z es → shown_all last es = shown [] <$> es.
Proof.
  intros Hes. revert last. induction Hes as [|e es He _ IH]; intros last; [done|]. cbn [shown_all]. rewrite fmap_cons, IH.
  f_equal. unfold shown. by rewrite bool_decide_eq_true_2.
Qed.

(** ** Responses cut short *)

Lemma stream_lines_prefix cr acc p t : p `prefix_of` t → stream_lines cr acc p `prefix_of` stream_lines cr acc t.
Proof.
  revert cr acc t. induction p as [|c p IH]; intros cr acc t Hp; [apply prefix_nil|].
  destruct t as [|d t]; [by apply prefix_nil_not in Hp|].
  pose proof (prefix_cons_inv_1 _ _ _ _ Hp) as <-. pose proof (prefix_cons_inv_2 _ _ _ _ Hp) as Hp'. cbn [stream_lines].
  destruct (decide _); [destruct cr; [by apply IH|by apply prefix_cons, IH]|].
  destruct (decide _); [by apply prefix_cons, IH|by apply IH].
Qed.

Lemma read_lines_prefix r ls ms : ls `prefix_of` ms → read_lines r ls `prefix_of` read_lines r ms.
Proof. intros [k ->]. rewrite read_lines_app. by apply prefix_app_r. Qed.

(** A connection that breaks at some byte shows a first part of the events. *)
Lemma response_cut es p :
  Forall no_cr es → p `prefix_of` to_bytes (response_body es) →
  ∃ n, sse_standard (of_bytes p) = take n (shown_all [] es).
Proof.
  intros Hes Hp. rewrite <-response_read by done.
  assert (Hpre : sse_standard (of_bytes p) `prefix_of` sse_standard (response_body es)).
  { unfold sse_standard. rewrite to_of. by apply read_lines_prefix, stream_lines_prefix. }
  destruct Hpre as [k ->]. exists (length (sse_standard (of_bytes p))). by rewrite take_app_length.
Qed.

(** The events a connection serves are the first ones of its channel. *)
Lemma serve_prefix es : serve Some es `prefix_of` es.
Proof.
  induction es as [|e es IH]; simpl; [apply prefix_nil|]. destruct (decide _).
  - by exists es.
  - by apply prefix_cons.
Qed.
