(* ===== verification/SseClient.v ===== *)
(** * The client of event streams ([internal/cli/stream/client.go],
    [internal/workflow/backoff/backoff.go])

    A client that follows a stream over connections that break: it remembers the
    identifier of the last event it was given, sends it when it connects again, and
    waits between attempts. What each connection turns out to be is an argument, a
    function of the cursor sent; the handler is a function on a state of its own. *)

From stdpp Require Import base list strings.
From S2P Require Import Prelude GoStrings Types Ring Sse.
From Stdlib Require Import ZArith Lia.
Local Open Scope list_scope.

(** ** Back-off *)

Definition millisecond : Z := 1000000.
Definition second : Z := (1000 * millisecond)%Z.

(** [Multiplier] is 2.0 in every policy. *)
Record Policy := mkPolicy {
  po_InitialInterval : Z; po_MaxInterval : Z; po_MaxElapsedTime : Z; po_MaxAttempts : Z
}.

Definition HeartbeatPolicy : Policy := mkPolicy (5 * second) (300 * second) 0 0.
Definition ClaimLoopPolicy : Policy := mkPolicy (250 * millisecond) (5 * second) 0 0.
Definition StatusUploaderPolicy : Policy := mkPolicy (100 * millisecond) (400 * millisecond) 0 4.
Definition CertificateBootstrapPolicy : Policy := mkPolicy second (16 * second) 0 5.
Definition SSEStreamPolicy : Policy := mkPolicy (250 * millisecond) (30 * second) 0 0.

(** [github.com/cenkalti/backoff/v5]: [next_backoff] is [None] for [backoff.Stop]. *)
Class BackoffLib := {
  ExponentialBackOff : Type;
  NewExponentialBackOff : Policy → ExponentialBackOff;
  next_backoff : ExponentialBackOff → option Z * ExponentialBackOff;
  reset_backoff : ExponentialBackOff → ExponentialBackOff
}.

Section Client.
Context `{BackoffLib}.

Record StatefulBackoff := mkStatefulBackoff {
  sb_eb : ExponentialBackOff; sb_policy : Policy; sb_current : Z; sb_started : bool
}.

Definition NewStatefulBackoff (policy : Policy) : StatefulBackoff :=
  mkStatefulBackoff (NewExponentialBackOff policy) policy 0 false.

Definition Apply (s : StatefulBackoff) : Z * StatefulBackoff :=
  match next_backoff (sb_eb s) with
  | (None, eb) =>
      ((if bool_decide (0 < sb_current s)%Z then sb_current s else po_MaxInterval (sb_policy s)),
       mkStatefulBackoff eb (sb_policy s) (sb_current s) (sb_started s))
  | (Some next, eb) => (next, mkStatefulBackoff eb (sb_policy s) next true)
  end.

Definition Reset (s : StatefulBackoff) : StatefulBackoff :=
  mkStatefulBackoff (reset_backoff (sb_eb s)) (sb_policy s) 0 false.

Definition GetDuration (s : StatefulBackoff) : Z :=
  if sb_started s then sb_current s else po_InitialInterval (sb_policy s).

(** ** One connection *)

(** How an attempt goes: the request cannot be built, or sent; another status than
    200; or a body with the events it yields, how reading it ended, and what was
    cancelled by then. *)
Inductive Conn :=
| ConnBuild
| ConnDo (cancelled : bool)
| ConnStatus (code : Z)
| ConnBody (events : list SseEvent) (readErr cancelled idle : bool).

Inductive ClientErr :=
| EBuild | EConnect | EStatus (code : Z) | ERead | EHandler | ECancelled | EIdle | ERetries.

(** What the handler answers for an event; [HDone] is [ErrDone]. *)
Inductive HandlerResult := HOk | HDone | HFail.

Record connectionResult := mkResult {
  cr_reconnect : bool; cr_err : option ClientErr; cr_sawEvent : bool; cr_lastEventID : Z
}.

Context {S : Type} (handler : SseEvent → S → HandlerResult * S).

(** The cursor after an event. *)
Definition next_cursor (e : SseEvent) (last : Z) : Z :=
  if decide (sse_LastEventID e = "") then last
  else match EventID_UnmarshalText (sse_LastEventID e) with Some id => id | None => last end.

(** The callback of [sse.Read], event by event; [None] when all were handled. *)
Fixpoint read_events (events : list SseEvent) (last : Z) (s : S) : option HandlerResult * Z * S :=
  match events with
  | [] => (None, last, s)
  | e :: rest =>
      let last' := next_cursor e last in
      match handler e s with
      | (HOk, s') => read_events rest last' s'
      | (r, s') => (Some r, last', s')
      end
  end.

Definition streamConnection (conn : Conn) (lastEventID : Z) (s : S) : connectionResult * S :=
  match conn with
  | ConnBuild => (mkResult false (Some EBuild) false lastEventID, s)
  | ConnDo true => (mkResult false (Some ECancelled) false lastEventID, s)
  | ConnDo false => (mkResult true (Some EConnect) false lastEventID, s)
  | ConnStatus code => (mkResult false (Some (EStatus code)) false lastEventID, s)
  | ConnBody events readErr cancelled idle =>
      let saw := negb (bool_decide (events = [])) in
      match read_events events lastEventID s with
      | (Some HFail, last, s') => (mkResult false (Some EHandler) saw last, s')
      | (Some _, last, s') => (mkResult false None saw last, s')
      | (None, last, s') =>
          (if cancelled then mkResult false (Some ECancelled) saw last
           else if idle then mkResult false (Some EIdle) saw last
           else mkResult true (if readErr then Some ERead else None) saw last, s')
      end
  end.

(** The header sent with a request: nothing for the cursor 0. *)
Definition cursor_header (lastEventID : Z) : string :=
  if bool_decide (0 < lastEventID)%Z then EventID_String lastEventID else "".

(** ** The loop *)

Record reconnectState := mkReconnectState { rs_sb : StatefulBackoff; rs_retries : Z; rs_maxRetries : Z }.

(** [backoffOrFail] up to the wait: the state for another attempt, unless the
    retries are used up. *)
Definition backoffOrFail (rs : reconnectState) : option (Z * reconnectState) :=
  if bool_decide (0 ≤ rs_maxRetries rs)%Z && bool_decide (rs_maxRetries rs ≤ rs_retries rs)%Z then None
  else let '(d, sb) := Apply (rs_sb rs) in
       Some (d, mkReconnectState sb (rs_retries rs + 1) (rs_maxRetries rs)).

(** What the world, in a state [x] of its own, does with the [k]-th attempt: the
    connection, given the header it carries; whether the caller's context is done
    after it, and after the wait. *)
Context {X : Type}.

Record World := mkWorld { w_conn : nat → string → X → Conn * X; w_done : nat → bool; w_wait_done : nat → bool }.

(** How the loop ended: the error it returned, the number of attempts, the cursor, the
    handler's state and the world's. *)
Record Ended := mkEnded {
  en_err : option ClientErr; en_attempts : nat; en_last : Z; en_state : S; en_world : X
}.

(** [None] is a loop that goes on after [rounds] attempts. *)
Fixpoint stream_loop (rounds : nat) (w : World) (k : nat) (rs : reconnectState) (last : Z) (s : S) (x : X) :
    option Ended :=
  match rounds with
  | O => None
  | Datatypes.S rounds' =>
      let '(conn, x') := w_conn w k (cursor_header last) x in
      let '(a, s') := streamConnection conn last s in
      let k' := Datatypes.S k in
      if negb (cr_reconnect a) then Some (mkEnded (cr_err a) k' (cr_lastEventID a) s' x')
      else if w_done w k then Some (mkEnded (Some ECancelled) k' (cr_lastEventID a) s' x')
      else
        let rs := if cr_sawEvent a then mkReconnectState (Reset (rs_sb rs)) 0 (rs_maxRetries rs) else rs in
        match backoffOrFail rs with
        | None => Some (mkEnded (Some ERetries) k' (cr_lastEventID a) s' x')
        | Some (d, rs') =>
            if bool_decide (0 < d)%Z && w_wait_done w k then Some (mkEnded (Some ECancelled) k' (cr_lastEventID a) s' x')
            else stream_loop rounds' w k' rs' (cr_lastEventID a) s' x'
        end
  end.

(** Where [Client.Stream] starts. *)
Definition stream_start (maxRetries : Z) : reconnectState :=
  let policy := if bool_decide (0 ≤ maxRetries)%Z
                then mkPolicy (po_InitialInterval SSEStreamPolicy) (po_MaxInterval SSEStreamPolicy)
                       (po_MaxElapsedTime SSEStreamPolicy) maxRetries
                else SSEStreamPolicy in
  mkReconnectState (NewStatefulBackoff policy) 0 maxRetries.

(** [Client.Stream], with an HTTP client and a handler. *)
Definition Stream (rounds : nat) (maxRetries : Z) (w : World) (s : S) (x : X) : option Ended :=
  stream_loop rounds w 0 (stream_start maxRetries) 0 s x.

(** ** Facts *)

(** An attempt that yields nothing and is worth another. *)
Definition fruitless (c : Conn) : Prop :=
  c = ConnDo false ∨ ∃ readErr, c = ConnBody [] readErr false false.

Lemma fruitless_result c last s :
  fruitless c → ∃ e, streamConnection c last s = (mkResult true e false last, s).
Proof using Type. intros [->|[readErr ->]]; eexists; done. Qed.

(** A world in which nothing comes from attempt [k] on. *)
Definition barren (w : World) (k : nat) : Prop :=
  ∀ i, (k ≤ i)%nat → (∀ h x, fruitless (w_conn w i h x).1) ∧ w_done w i = false ∧ w_wait_done w i = false.

(** The world after [n] more attempts with the same cursor. *)
Fixpoint world_after (w : World) (k n : nat) (h : string) (x : X) : X :=
  match n with
  | O => x
  | Datatypes.S n' => world_after w (Datatypes.S k) n' h (w_conn w k h x).2
  end.

Lemma stream_gives_up n w k rs last s x rounds :
  barren w k → (0 ≤ rs_maxRetries rs)%Z → Z.of_nat n = (rs_maxRetries rs - rs_retries rs)%Z → (n < rounds)%nat →
  stream_loop rounds w k rs last s x
  = Some (mkEnded (Some ERetries) (k + n + 1) last s (world_after w k (n + 1) (cursor_header last) x)).
Proof using Type.
  revert k rs x rounds. induction n as [|n IH]; intros k rs x rounds Hb Hm Hn Hr;
    (destruct rounds as [|rounds]; [lia|]); cbn [stream_loop Nat.add world_after];
    (destruct (Hb k) as (Hf & Hd & Hw); [lia|]); specialize (Hf (cursor_header last) x);
    destruct (w_conn w k (cursor_header last) x) as [conn x']; cbn [fst] in Hf; (destruct (fruitless_result _ last s Hf) as [e ->]);
    cbn [cr_reconnect negb cr_lastEventID cr_sawEvent snd]; rewrite Hd; unfold backoffOrFail;
    rewrite (bool_decide_eq_true_2 (0 ≤ rs_maxRetries rs)%Z) by done.
  - rewrite bool_decide_eq_true_2 by lia. cbn [andb]. do 2 f_equal. lia.
  - rewrite bool_decide_eq_false_2 by lia. cbn [andb]. destruct (Apply (rs_sb rs)) as [d sb]. rewrite Hw, andb_false_r.
    rewrite IH; [do 2 f_equal; lia| |done|simpl; lia|lia]. intros i Hi. apply Hb. lia.
Qed.

(** A loop that never gives up on its own keeps going. *)
Lemma stream_keeps_on w k rs last s x rounds :
  barren w k → (rs_maxRetries rs < 0)%Z → stream_loop rounds w k rs last s x = None.
Proof using Type.
  revert k rs x. induction rounds as [|rounds IH]; intros k rs x Hb Hm; [done|]. cbn [stream_loop].
  destruct (Hb k) as (Hf & Hd & Hw); [lia|]. specialize (Hf (cursor_header last) x).
  destruct (w_conn w k (cursor_header last) x) as [conn x']. cbn [fst] in Hf. destruct (fruitless_result _ last s Hf) as [e ->].
  cbn [cr_reconnect negb cr_lastEventID cr_sawEvent]. rewrite Hd. unfold backoffOrFail.
  rewrite (bool_decide_eq_false_2 (0 ≤ rs_maxRetries rs)%Z) by lia. cbn [andb].
  destruct (Apply (rs_sb rs)) as [d sb]. rewrite Hw, andb_false_r. apply IH; [|done]. intros i Hi. apply Hb. lia.
Qed.

(** A client still at it after some attempts, with what each of them brought: whether
    an event came. *)
Record Going := mkGoing {
  go_retry : reconnectState; go_last : Z; go_state : S; go_world : X; go_saw : list bool
}.

(** One attempt after which the loop goes on. *)
Definition goes_on (w : World) (k : nat) (g : Going) : option Going :=
  let '(conn, x') := w_conn w k (cursor_header (go_last g)) (go_world g) in
  let '(a, s') := streamConnection conn (go_last g) (go_state g) in
  if negb (cr_reconnect a) || w_done w k then None
  else
    let rs := if cr_sawEvent a then mkReconnectState (Reset (rs_sb (go_retry g))) 0 (rs_maxRetries (go_retry g))
              else go_retry g in
    '(d, rs') ← backoffOrFail rs;
    if bool_decide (0 < d)%Z && w_wait_done w k then None
    else Some (mkGoing rs' (cr_lastEventID a) s' x' (go_saw g ++ [cr_sawEvent a])).

Fixpoint still_going (n : nat) (w : World) (k : nat) (g : Going) : option Going :=
  match n with
  | O => Some g
  | Datatypes.S n' => g' ← goes_on w k g; still_going n' w (Datatypes.S k) g'
  end.

(** [Client.Stream] after [n] attempts, if it has not returned. *)
Definition after_attempts (n : nat) (maxRetries : Z) (w : World) (s : S) (x : X) : option Going :=
  still_going n w 0 (mkGoing (stream_start maxRetries) 0 s x []).

(** How many attempts count as retries: all of them, or those from the last one that
    brought an event on. *)
Definition since_event (saw : list bool) : nat :=
  foldl (λ (n : nat) (b : bool), if b then 1%nat else Datatypes.S n) 0%nat saw.

Lemma goes_on_loop w k g g' rounds :
  goes_on w k g = Some g' →
  stream_loop (Datatypes.S rounds) w k (go_retry g) (go_last g) (go_state g) (go_world g)
  = stream_loop rounds w (Datatypes.S k) (go_retry g') (go_last g') (go_state g') (go_world g').
Proof using Type.
  unfold goes_on. cbn [stream_loop]. destruct (w_conn w k _ _) as [conn x'].
  destruct (streamConnection conn _ _) as [a s']. destruct (negb (cr_reconnect a)); [done|].
  destruct (w_done w k); [done|]. cbn [orb]. destruct (backoffOrFail _) as [[d rs']|]; [|done]. cbn [mbind option_bind].
  destruct (_ && _); [done|]. by intros [= <-].
Qed.

Lemma still_going_loop n w k g g' rounds :
  still_going n w k g = Some g' →
  stream_loop (n + rounds) w k (go_retry g) (go_last g) (go_state g) (go_world g)
  = stream_loop rounds w (k + n) (go_retry g') (go_last g') (go_state g') (go_world g').
Proof using Type.
  revert k g. induction n as [|n IH]; intros k g; cbn [still_going Nat.add]; [intros [= <-]; by rewrite Nat.add_0_r|].
  destruct (goes_on w k g) as [g1|] eqn:E; [|done]. cbn [mbind option_bind]. intros Hg.
  rewrite (goes_on_loop _ _ _ _ _ E), (IH _ _ Hg). by rewrite Nat.add_succ_r.
Qed.

(** The retry counter of a loop that goes on. *)
Definition retry_ok (g : Going) : Prop :=
  rs_retries (go_retry g) = Z.of_nat (since_event (go_saw g)) ∧
  (0 ≤ rs_maxRetries (go_retry g) → rs_retries (go_retry g) ≤ rs_maxRetries (go_retry g))%Z.

Lemma goes_on_retry w k g g' :
  goes_on w k g = Some g' → retry_ok g → retry_ok g' ∧ rs_maxRetries (go_retry g') = rs_maxRetries (go_retry g).
Proof using Type.
  unfold goes_on, retry_ok. intros E [Hr Hm]. destruct (w_conn w k _ _) as [conn x'].
  destruct (streamConnection conn _ _) as [a s']. destruct (_ || _); [done|]. unfold backoffOrFail in E.
  destruct (_ && _) eqn:Ec; [done|]. destruct (Apply _) as [d sb]. cbn [mbind option_bind] in E.
  destruct (bool_decide (0 < d)%Z && _); [done|]. injection E as <-. cbn [go_retry go_saw rs_retries rs_maxRetries].
  unfold since_event. rewrite foldl_app. cbn [foldl]. fold (since_event (go_saw g)).
  apply andb_false_iff in Ec. rewrite !bool_decide_eq_false in Ec.
  destruct (cr_sawEvent a); cbn [rs_retries rs_maxRetries] in *; split_and!; lia.
Qed.

Lemma still_going_retry n w k g g' :
  still_going n w k g = Some g' → retry_ok g → retry_ok g' ∧ rs_maxRetries (go_retry g') = rs_maxRetries (go_retry g).
Proof using Type.
  revert k g. induction n as [|n IH]; intros k g; cbn [still_going]; [by intros [= <-]|].
  destruct (goes_on w k g) as [g1|] eqn:E; [|done]. cbn [mbind option_bind]. intros Hn Hg.
  destruct (goes_on_retry _ _ _ _ E Hg) as [Hg1 <-]. by eapply IH.
Qed.

Lemma after_attempts_retry n maxRetries w s x g :
  after_attempts n maxRetries w s x = Some g → retry_ok g ∧ rs_maxRetries (go_retry g) = maxRetries.
Proof using Type. intros E. apply (still_going_retry _ _ _ _ _ E). by split. Qed.

(** What each attempt preserves holds when the loop ends. *)
Lemma stream_loop_inv (P : Z → S → X → Prop) w rounds k rs last s x e :
  (∀ k last s x, P last s x → let '(conn, x') := w_conn w k (cursor_header last) x in
     let '(a, s') := streamConnection conn last s in P (cr_lastEventID a) s' x') →
  P last s x → stream_loop rounds w k rs last s x = Some e → P (en_last e) (en_state e) (en_world e).
Proof using Type.
  intros Hstep. revert k rs last s x. induction rounds as [|rounds IH]; intros k rs last s x HP; [done|]. cbn [stream_loop].
  specialize (Hstep k last s x HP). destruct (w_conn w k (cursor_header last) x) as [conn x'].
  destruct (streamConnection conn last s) as [a s']. destruct (negb (cr_reconnect a)); [by intros [= <-]|].
  destruct (w_done w k); [by intros [= <-]|]. destruct (backoffOrFail _) as [[d rs']|]; [|by intros [= <-]].
  destruct (_ && _); [by intros [= <-]|]. by apply IH.
Qed.

End Client.

(** ** Reading a response *)

(** [github.com/tmaxmax/go-sse]: the events [sse.Read] yields for the bytes received.
    The library documents that it reads event streams as the standard says; it stops
    at an event above the size limit. *)
Class SseLib := { sse_Read : string → list SseEvent }.

Definition reads_standard `{SseLib} : Prop := ∀ body, sse_Read body `prefix_of` sse_standard body.
