(* ===== verification/NodeReport.v ===== *)
(** * Reports of a node ([internal/nodeagent/job_reporting.go], [http.go],
      [crash_reconcile_running.go], [crash_reconcile_terminal.go],
      [internal/domain/types/runstats.go])

    When a job has ended, the node tells the server: the status, the exit code, the
    statistics and the commit it produced. A report is sent again while the server
    cannot be reached or answers with 5xx. A node that has crashed finds the containers
    of its jobs when it starts, and reports their end the same way.

    The network is a list of deliveries: what happens to each attempt. *)

From stdpp Require Import base gmap sets list sorting strings.
From S2P Require Import Prelude GoStrings Types Json JsonText JobMeta JobMetaCodec Db Tx Queries Lifecycle.
From S2P Require Import Tokens Store Recovery Completion Chains Invariant WaveStatus.
From S2P Require Import CompletionSafety CompletionOutcome CompletionService Machine SseClient.
From Stdlib Require Import ZArith Lia.
Local Open Scope list_scope.

(** ** Statistics *)

Record RunStatsTimings := mkTimings { tm_Hydration : Z; tm_Execution : Z; tm_Diff : Z; tm_Total : Z }.

(** The fields a builder has set; [rs_Gate] is the verdict and the duration. *)
Record RunStatsBuilder := mkRunStatsBuilder {
  rs_ExitCode : option Z;
  rs_DurationMs : option Z;
  rs_Error : option string;
  rs_ResumeCount : option Z;
  rs_Metadata : list (string * string);
  rs_Gate : option (bool * Z);
  rs_JobResources : option RunStatsJobResources;
  rs_JobMeta : option json;
  rs_Timings : option RunStatsTimings
}.

Definition enc_resources (r : RunStatsJobResources) : json :=
  JObj (opt_int "cpu_consumed_ns" (res_CPUConsumedNs r) ++ opt_int "disk_consumed_bytes" (res_DiskConsumedBytes r)
        ++ opt_int "mem_consumed_bytes" (res_MemConsumedBytes r)).

Definition enc_timings (t : RunStatsTimings) : json :=
  JObj (opt_int "hydration_duration_ms" (tm_Hydration t) ++ opt_int "execution_duration_ms" (tm_Execution t)
        ++ opt_int "diff_duration_ms" (tm_Diff t) ++ opt_int "total_duration_ms" (tm_Total t)).

Definition enc_gate (g : bool * Z) : json :=
  JObj [("passed", JBool g.1); ("duration_ms", JInt g.2);
        ("final_gate", JObj [("passed", JBool g.1); ("duration_ms", JInt g.2)])].

(** The statistics as an object. *)
Definition MustBuild (s : RunStatsBuilder) : list (string * json) :=
  opt_ptr JInt "exit_code" (rs_ExitCode s) ++ opt_ptr JInt "duration_ms" (rs_DurationMs s)
  ++ opt_ptr JStr "error" (rs_Error s) ++ opt_ptr JInt "resume_count" (rs_ResumeCount s)
  ++ omit (bool_decide (rs_Metadata s = [])) "metadata" (JObj ((λ kv, (kv.1, JStr kv.2)) <$> rs_Metadata s))
  ++ opt_ptr enc_gate "gate" (rs_Gate s) ++ opt_ptr enc_resources "job_resources" (rs_JobResources s)
  ++ opt_ptr id "job_meta" (rs_JobMeta s) ++ opt_ptr enc_timings "timings" (rs_Timings s).

(** ** The request *)

(** The body of [POST /v1/jobs/{id}/complete]. *)
Definition buildJobStatusPayload (status : string) (exitCode : option Z) (stats : list (string * json))
    (repoSHAOut : string) : completeJobRequest :=
  mkCompleteJobRequest status exitCode (RawJson (JObj stats)) repoSHAOut.

(** The body as it is sent: an object with its keys in order. *)
Definition body_json (req : completeJobRequest) : json :=
  JObj (opt_ptr JInt "exit_code" (req_ExitCode req) ++ opt_str "repo_sha_out" (req_RepoSHAOut req)
        ++ match req_Stats req with RawJson j => [("stats", j)] | _ => [] end ++ [("status", JStr (req_Status req))]).

Definition body_size (req : completeJobRequest) : N := N.of_nat (length (render (body_json req))).

(** The most the server reads of a body. *)
Definition DefaultMaxBodySize : N := 1048576.

(** A resumed run has its count of restarts among the statistics. *)
Definition uploadStatus (resumeCount : Z) (status : JobStatus) (exitCode : option Z) (stats : list (string * json))
    (repoSHAOut : string) : completeJobRequest :=
  buildJobStatusPayload (JobStatus_String status) exitCode
    (if (0 <? resumeCount)%Z then obj_set "resume_count" (JInt resumeCount) stats else stats) (trim_space repoSHAOut).

(** A failure before or around the container. *)
Definition uploadFailureStatus (resumeCount : Z) (e : GoErr) (text : string) (duration : Z) : completeJobRequest :=
  let status := JobStatusFromRunError e in
  uploadStatus resumeCount status (if decide (status = JobStatusError) then Some (-1)%Z else None)
    (MustBuild (mkRunStatsBuilder None (Some duration) (Some text) None [] None None None None)) "".

(** The end of a container: an error of the runtime, or its exit code. *)
Definition reportTerminalStatus (resumeCount : Z) (runErr : option GoErr) (exitCode : Z) (stats : list (string * json))
    (repoSHAOut : string) : completeJobRequest :=
  match runErr with
  | Some e =>
      let status := JobStatusFromRunError e in
      uploadStatus resumeCount status (if decide (status = JobStatusError) then Some (-1)%Z else None) stats repoSHAOut
  | None => uploadStatus resumeCount (JobStatusFromExitCode exitCode) (Some (wrap32 exitCode)) stats repoSHAOut
  end.

(** What [runMigContainerJob] reports: [repoSHA] is the commit of the workspace, or the
    error of computing it, which only matters after a success. *)
Definition mig_report (resumeCount : Z) (runErr : option (GoErr * string)) (exitCode : Z) (exitText : string)
    (repoSHA : GoErr * string + string) (resources : option RunStatsJobResources) (timings : RunStatsTimings)
    (duration : Z) : completeJobRequest :=
  let succeeded := bool_decide (runErr = None) && bool_decide (exitCode = 0%Z) in
  let runErr' := if succeeded then match repoSHA with inl e => Some e | inr _ => None end else runErr in
  let sha := if succeeded then match repoSHA with inl _ => "" | inr s => s end else "" in
  let text := match runErr' with
              | Some (_, t) => Some t
              | None => if decide (exitCode = 0)%Z then None else Some exitText
              end in
  reportTerminalStatus resumeCount (fst <$> runErr') exitCode
    (MustBuild (mkRunStatsBuilder (Some exitCode) (Some duration) text None [] None resources None (Some timings))) sha.

(** What [executeGateJob] reports once a gate has given a verdict. *)
Definition gate_report (resumeCount : Z) (passed : bool) (repoSHA : GoErr * string + string) (errorText : string)
    (resources : option RunStatsJobResources) (meta : option json) (duration : Z) : completeJobRequest :=
  let stats := MustBuild (mkRunStatsBuilder None (Some duration)
    (if passed then None else if decide (errorText = "") then None else Some errorText)
    None [] (Some (passed, duration)) resources meta None) in
  if passed then match repoSHA with
                 | inl _ => uploadStatus resumeCount JobStatusError (Some (-1)%Z) stats ""
                 | inr sha => uploadStatus resumeCount JobStatusSuccess (Some 0%Z) stats sha
                 end
  else uploadStatus resumeCount JobStatusFail (Some 1%Z) stats "".

(** ** Recovered containers *)

Record recoveredContainerTerminal := mkTerminal { rt_ExitCode : Z; rt_StartedAt : option Z; rt_FinishedAt : option Z }.

Definition safeExitCodeInt32 (exitCode : Z) : option Z := if in_int32 exitCode then Some exitCode else None.

(** The report about a recovered container, [None] when its exit code is out of range.
    Times are in milliseconds. *)
Definition uploadRecoveredTerminalStatus (containerID : string) (t : recoveredContainerTerminal) (resumeCount : Z) :
    option completeJobRequest :=
  exitCode ← safeExitCodeInt32 (rt_ExitCode t);
  let durationMs := match rt_StartedAt t, rt_FinishedAt t with
                    | Some s, Some f => if (s <? f)%Z then (f - s)%Z else 0%Z
                    | _, _ => 0%Z
                    end in
  Some (buildJobStatusPayload (JobStatus_String (JobStatusFromExitCode exitCode)) (Some exitCode)
    (MustBuild (mkRunStatsBuilder (Some exitCode) (Some durationMs) None
       (if (0 <? resumeCount)%Z then Some resumeCount else None)
       [("container_id", containerID); ("source", "startup_reconcile")] None None None None)) "").

(** The container could not be waited for. *)
Definition recovered_wait_failed (containerID text : string) (resumeCount : Z) : completeJobRequest :=
  buildJobStatusPayload (JobStatus_String JobStatusError) (Some (-1)%Z)
    (MustBuild (mkRunStatsBuilder (Some (-1)%Z) None (Some text)
       (if (0 <? resumeCount)%Z then Some resumeCount else None)
       [("container_id", containerID); ("source", "startup_reconcile")] None None None None)) "".

Definition waitAndUploadRecoveredContainer (containerID : string) (waited : string + recoveredContainerTerminal)
    (resumeCount : Z) : option completeJobRequest :=
  match waited with
  | inl text => Some (recovered_wait_failed containerID text resumeCount)
  | inr t => uploadRecoveredTerminalStatus containerID t resumeCount
  end.

(** ** Sending *)

Inductive postJSONRetryMode := postJSONRetryModeDefault | postJSONRetryModeStartupReconcile.

#[export] Instance retry_mode_eq_dec : EqDecision postJSONRetryMode.
Proof. solve_decision. Defined.

(** Success, and whether to try again. *)
Definition classifyPostJSONStatus (mode : postJSONRetryMode) (code : Z) : bool * bool :=
  if decide (code = 200 ∨ code = 204)%Z then (true, false)
  else if decide (mode = postJSONRetryModeStartupReconcile ∧ code = 409%Z) then (true, false)
  else if decide (500 ≤ code < 600)%Z then (false, true)
  else (false, false).

Inductive OpResult := OpOK | OpRetry | OpPermanent.

(** [backoff.Retry]: [ds] is what each attempt meets; it ends when the context does. *)
Fixpoint RunWithBackoff {D W} (policy : Policy) (op : D → W → OpResult * W) (attempt : Z) (ds : list D) (w : W) :
    bool * W :=
  match ds with
  | [] => (false, w)
  | d :: ds' =>
      match op d w with
      | (OpOK, w') => (true, w')
      | (OpPermanent, w') => (false, w')
      | (OpRetry, w') =>
          if (0 <? po_MaxAttempts policy)%Z && (po_MaxAttempts policy <=? attempt)%Z then (false, w')
          else RunWithBackoff policy op (attempt + 1) ds' w'
      end
  end.

(** [serve] is the server's part of an exchange. The request may not arrive, and the
    answer may not come back. *)
Inductive Delivery (D : Type) := NotArrived | Unanswered (d : D) | Answered (d : D).
Arguments NotArrived {_}.
Arguments Unanswered {_}.
Arguments Answered {_}.

Definition post_once {D W} (mode : postJSONRetryMode) (serve : D → W → Z * W) (d : Delivery D) (w : W) : OpResult * W :=
  match d with
  | NotArrived => (OpRetry, w)
  | Unanswered d => (OpRetry, (serve d w).2)
  | Answered d =>
      let '(code, w') := serve d w in
      (match classifyPostJSONStatus mode code with
       | (true, _) => OpOK
       | (false, true) => OpRetry
       | (false, false) => OpPermanent
       end, w')
  end.

Definition postJSONWithRetry {D W} (mode : postJSONRetryMode) (serve : D → W → Z * W) (ds : list (Delivery D)) (w : W) :
    bool * W :=
  RunWithBackoff StatusUploaderPolicy (post_once mode serve) 1 ds w.

Section Reporting.
Context `{Collation} `{GoFmt}.

(** One exchange with the endpoint, which reads the body and calls [completeJobHandler]: what time it is, which statements fail,
    and whether the server has an event service. *)
Record Exchange := mkExchange { ex_Env : Env; ex_Faults : list (option Err); ex_Events : bool }.

Definition World : Type := DB * option Registry.

Definition serve_complete (jobID header : string) (req : completeJobRequest) (x : Exchange) (w : World) : Z * World :=
  if (DefaultMaxBodySize <? body_size req)%N then (413%Z, w) else
  let '(r, db') := run_op (completeJobHandler (ex_Events x) w.2 jobID header req) (ex_Env x) w.1 (ex_Faults x) in
  match r with
  | inl _ => (500%Z, (db', w.2))
  | inr (code, reg') => (code, (db', reg'))
  end.

Definition uploadJobStatus (mode : postJSONRetryMode) (jobID header : string) (req : completeJobRequest)
    (ds : list (Delivery Exchange)) (w : World) : bool * World :=
  postJSONWithRetry mode (serve_complete jobID header req) ds w.

End Reporting.

(** * Facts about a node's reports

    The statistics a node builds are decoded by the server as they were meant; a report
    is refused or applied as a whole; a report that has been applied is refused from
    then on. *)

(** ** Statistics on both ends *)

Definition int64_opt (o : option Z) : bool := match o with Some z => in_int64 z | None => true end.

Definition resources_ok (r : RunStatsJobResources) : bool :=
  bool_decide (0 ≤ res_CPUConsumedNs r < 2 ^ 63)%Z && bool_decide (0 ≤ res_DiskConsumedBytes r < 2 ^ 63)%Z
  && bool_decide (0 ≤ res_MemConsumedBytes r < 2 ^ 63)%Z.

(** The statistics as the server reads them. *)
Definition payload_of (resume : Z) (s : RunStatsBuilder) : JobStatsPayload :=
  mkJobStatsPayload resume (rs_JobMeta s) (rs_Metadata s) (default 0%Z (rs_DurationMs s)) (default "" (rs_Error s))
    (rs_JobResources s).

Record stats_ok `{GoFmt} (s : RunStatsBuilder) : Prop := {
  so_duration : int64_opt (rs_DurationMs s) = true;
  so_resume : int64_opt (rs_ResumeCount s) = true;
  so_resources : match rs_JobResources s with Some r => resources_ok r | None => true end = true;
  so_meta : ValidateJobMeta (payload_of 0 s) = true
}.

Lemma natural_int64 z : (0 ≤ z < 2 ^ 63)%Z → in_int64 z = true.
Proof. intros Hz. unfold in_int64. apply bool_decide_eq_true. unfold min_int64, max_int64. lia. Qed.

Lemma resources_decode r : resources_ok r = true →
  dec_JobResources (enc_resources r) (mkJobResources 0 0 0) = Some r.
Proof.
  unfold resources_ok. rewrite !andb_true_iff, !bool_decide_eq_true. intros [[Hc Hd] Hm].
  unfold dec_JobResources, enc_resources.
  do 3 (rewrite ?dec_obj_app; erewrite dec_opt_int; [|reflexivity|reflexivity|by apply natural_int64]; cbn [mbind option_bind]).
  by destruct r.
Qed.

Lemma metadata_decode l m : dec_string_map (JObj ((λ kv, (kv.1, JStr kv.2)) <$> l)) m = Some (m ++ l).
Proof.
  revert m. induction l as [|[k v] l IH]; intros m; [cbn; by rewrite app_nil_r|].
  specialize (IH (m ++ [(k, v)])). cbn in IH |- *. rewrite IH. by rewrite <-app_assoc.
Qed.

Section Decoded.
Context {A : Type} (fields : list (string * Decoder A)).

(** A key the reader does not know, and an optional number or text it does. *)
Lemma dec_unknown {B} (enc : B → json) k o x : find_field fields k = None →
  dec_struct fields (JObj (opt_ptr enc k o)) x = Some x.
Proof. intros Hn. destruct o; [|done]. cbn. by rewrite Hn. Qed.

Lemma dec_ptr_int k get set o x : find_field fields k = Some (dec_field get set dec_int) → int64_opt o = true →
  dec_struct fields (JObj (opt_ptr JInt k o)) x = Some (match o with Some z => set z x | None => x end).
Proof. intros Hd Ho. destruct o as [z|]; [|done]. cbn. rewrite Hd. unfold dec_field. cbn in *. by rewrite Ho. Qed.

Lemma dec_ptr_str k get set o x : find_field fields k = Some (dec_field get set dec_string) →
  dec_struct fields (JObj (opt_ptr JStr k o)) x = Some (match o with Some z => set z x | None => x end).
Proof. intros Hd. destruct o as [z|]; [|done]. cbn. by rewrite Hd. Qed.

End Decoded.

Lemma enc_resources_object r : enc_resources r ≠ JNull.
Proof. done. Qed.

(** Go on to the next part of an object. *)
Ltac next_part := cbn [mbind option_bind]; rewrite ?dec_obj_app.

Lemma built_payload s : int64_opt (rs_DurationMs s) = true → int64_opt (rs_ResumeCount s) = true →
  match rs_JobResources s with Some r => resources_ok r | None => true end = true →
  dec_JobStatsPayload (JObj (MustBuild s)) zero_payload = Some (payload_of (default 0%Z (rs_ResumeCount s)) s).
Proof.
  intros Hd Hr Hres. unfold dec_JobStatsPayload, MustBuild. rewrite ?dec_obj_app.
  rewrite dec_unknown by reflexivity. next_part.
  erewrite dec_ptr_int; [|reflexivity|done]. next_part.
  erewrite dec_ptr_str; [|reflexivity]. next_part.
  erewrite dec_ptr_int; [|reflexivity|done]. next_part.
  erewrite (dec_omit _ (bool_decide (rs_Metadata s = [])) "metadata" _ _ _
    (mkJobStatsPayload (default 0%Z (rs_ResumeCount s)) None (rs_Metadata s) (default 0%Z (rs_DurationMs s)) (default "" (rs_Error s)) None));
    [|reflexivity| |].
  2: { rewrite bool_decide_eq_true. intros ->. by destruct (rs_ResumeCount s), (rs_Error s), (rs_DurationMs s). }
  2: { intros _. unfold dec_field. rewrite metadata_decode. by destruct (rs_ResumeCount s), (rs_Error s), (rs_DurationMs s). }
  next_part. rewrite dec_unknown by reflexivity. next_part.
  erewrite (dec_opt_ptr _ "job_resources" _ _ _ _ enc_resources id);
    [|reflexivity|reflexivity|reflexivity|apply enc_resources_object|].
  2: { intros r E. rewrite E in Hres. by apply resources_decode. }
  rewrite option_fmap_id. next_part.
  destruct (rs_JobMeta s) as [j|] eqn:Ej.
  - cbn [opt_ptr id]. erewrite dec_obj_one; [|reflexivity]. next_part. rewrite dec_unknown by reflexivity.
    unfold payload_of. by rewrite Ej.
  - cbn [opt_ptr]. rewrite dec_obj_nil. next_part. rewrite dec_unknown by reflexivity.
    unfold payload_of. by rewrite Ej.
Qed.

Section Read.
Context `{GoFmt}.

Lemma stats_read s : stats_ok s →
  decode_stats (RawJson (JObj (MustBuild s))) = inr (payload_of (default 0%Z (rs_ResumeCount s)) s).
Proof.
  intros [Hd Hr Hres Hm]. unfold decode_stats. rewrite built_payload by done.
  replace (ValidateJobMeta (payload_of _ s)) with true by (symmetry; exact Hm). cbn [negb].
  replace (ValidateJobResources _) with true; [done|]. unfold ValidateJobResources. cbn [payload_of jsp_JobResources].
  destruct (rs_JobResources s) as [r|]; [|done]. unfold resources_ok in Hres. symmetry.
  rewrite !andb_true_iff, !bool_decide_eq_true in *. lia.
Qed.

(** Without a count of its own, the statistics can be given one. *)
Lemma resume_appended s v : rs_ResumeCount s = None →
  obj_set "resume_count" v (MustBuild s) = MustBuild s ++ [("resume_count", v)].
Proof using Type.
  intros Hn. destruct (obj_set_split "resume_count" v (MustBuild s)) as [(pre & old & post & E & _)|[_ ->]]; [|done].
  assert (Hk : "resume_count" ∉ (MustBuild s).*1).
  { unfold MustBuild. rewrite Hn. rewrite !fmap_app, !not_elem_of_app. unfold opt_ptr, omit.
    split_and!; try case_match; cbn; first [by apply not_elem_of_nil | by rewrite list_elem_of_singleton]. }
  destruct Hk. rewrite E, fmap_app, elem_of_app. right. left.
Qed.

Lemma resumed_stats_read s resume : stats_ok s → rs_ResumeCount s = None → in_int64 resume = true → (0 ≤ resume)%Z →
  decode_stats (RawJson (JObj (if (0 <? resume)%Z then obj_set "resume_count" (JInt resume) (MustBuild s) else MustBuild s)))
  = inr (payload_of resume s).
Proof.
  intros Hs Hn Hi Hp. pose proof (stats_read s Hs) as Hr. rewrite Hn in Hr.
  destruct (0 <? resume)%Z eqn:E; [|apply Z.ltb_ge in E; replace resume with 0%Z by lia; exact Hr].
  unfold decode_stats in *. rewrite resume_appended by done. unfold dec_JobStatsPayload in *.
  rewrite dec_obj_app. destruct (dec_struct _ (JObj (MustBuild s)) zero_payload) as [p|]; [|done].
  cbn [mbind option_bind]. erewrite dec_obj_one; [|reflexivity]. unfold dec_field, dec_int. rewrite Hi. cbn [fmap option_fmap option_map].
  destruct (negb (ValidateJobMeta p)) eqn:Em; [done|]. destruct (negb (ValidateJobResources p)) eqn:Er; [done|].
  injection Hr as ->. unfold ValidateJobMeta, ValidateJobResources in *. cbn in Em, Er |- *. by rewrite Em, Er.
Qed.

Definition sha_ok (sha : string) : Prop := sha = "" ∨ IsCanonicalFullCommitSHA sha = true.

Lemma sha_trimmed sha : sha_ok sha → trim_space sha = sha.
Proof using Type. intros [->|Hc]; [done|]. apply trim_space_hex. by apply canonical_sha_spec in Hc as [_ ?]. Qed.

Lemma payload_validates jobID header node status exitCode stats p sha :
  terminal_request_status status = true → decode_stats (RawJson (JObj stats)) = inr p → sha_ok sha →
  parseNodeUUIDHeader header = Some node →
  validateCompletionRequest jobID header (buildJobStatusPayload (JobStatus_String status) exitCode stats sha)
  = inr (mkCompletionInput jobID node status exitCode p sha).
Proof.
  intros Hst Hp Hsha Hh. unfold validateCompletionRequest, buildJobStatusPayload.
  cbn [req_Status req_Stats req_RepoSHAOut req_ExitCode].
  assert (Hparse : trim_space (JobStatus_String status) ≠ "" ∧ ParseJobStatus (trim_space (JobStatus_String status)) = Some status)
    by (destruct status; [done..|done]).
  destruct Hparse as [Hne Hps]. rewrite decide_False, Hps, Hst by done. cbn [negb]. rewrite Hp, sha_trimmed, Hh by done.
  replace (negb (bool_decide (sha = "")) && negb (IsCanonicalFullCommitSHA sha)) with false; [done|].
  destruct Hsha as [->|Hc]; [done|]. rewrite Hc. by rewrite andb_false_r.
Qed.

(** A report is read as it was meant. *)
Lemma report_validates jobID header node resume status exitCode s sha :
  terminal_request_status status = true → stats_ok s → rs_ResumeCount s = None →
  in_int64 resume = true → (0 ≤ resume)%Z → sha_ok sha → parseNodeUUIDHeader header = Some node →
  validateCompletionRequest jobID header (uploadStatus resume status exitCode (MustBuild s) sha)
  = inr (mkCompletionInput jobID node status exitCode (payload_of resume s) sha).
Proof.
  intros Hst Hs Hn Hi Hp Hsha Hh. unfold uploadStatus. rewrite sha_trimmed by done.
  apply payload_validates; try done. by apply resumed_stats_read.
Qed.

End Read.

(** ** Once and for all *)

Section Once.
Context `{Collation} `{GoFmt} (jobID header : string) (req : completeJobRequest).

(** The report is accepted in [db], and leads to [db']. *)
Definition applied (db db' : DB) : Prop :=
  ∃ input x reg reg', validateCompletionRequest jobID header req = inr input ∧ env_locked (ex_Env x) = ∅ ∧
    run_op (Complete (ex_Events x) reg input) (ex_Env x) db (ex_Faults x) = (inr reg', db').

Definition over (db : DB) : Prop := ∃ job, db_jobs db !! jobID = Some job ∧ job_Status job ≠ JobStatusRunning.

Lemma unlocked_quiet env db : env_locked env = ∅ → countable_runs db → quiet env db.
Proof using Type. intros Hl Hc. split; [done|]. intros i j _ _. rewrite Hl. set_solver. Qed.

Lemma applied_over db db' : wf db → countable_runs db → applied db db' → wf db' ∧ countable_runs db' ∧ over db'.
Proof using Type.
  intros Hwf Hc (input & x & reg & reg' & Hv & Hl & E). destruct (validate_valid _ _ _ _ Hv) as (Hid & _ & [Hterm _ _]).
  destruct (unlocked_quiet _ _ Hl Hc) as [_ Hun].
  pose proof (triple_run_op _ _ _ _ _ _ _ _ _ (Complete_triple (ex_Env x) db Hwf Hc input Hterm Hun (ex_Events x) reg) eq_refl E)
    as (job & run & ro & db1 & Hj & Hr & _ & Hpost & Hdb).
  destruct (completion_post_wf (ex_Env x) db Hwf Hc input Hterm job run ro db1 Hj Hr Hpost) as [Hwf1 Hc1].
  assert (Hover : over db1).
  { destruct Hpost as (pre & post & Hid' & Hch & _ & _ & _ & _ & _ & m & G & _ & _ & (Hj1 & _) & _).
    exists (final_jobs (ex_Env x) input job post m job). rewrite Hj1, lookup_fmap. rewrite <-Hid, Hj. split; [done|].
    rewrite (final_job (ex_Env x) db input job pre post Hch m). cbn. by destruct (ci_Status input). }
  destruct Hdb as [-> |(r' & _ & Hwo & ->)]; [done|].
  split; [by apply finish_wave_wf|]. split; [exact Hc1|exact Hover].
Qed.

(** An exchange applies the report, or changes nothing. *)
Lemma serve_cases x w : wf w.1 → countable_runs w.1 → env_locked (ex_Env x) = ∅ →
  (serve_complete jobID header req x w).2.1 = w.1 ∨ applied w.1 (serve_complete jobID header req x w).2.1.
Proof using Type.
  intros Hwf Hc Hl. unfold serve_complete, completeJobHandler. destruct (_ <? _)%N; [by left|].
  destruct (validateCompletionRequest jobID header req) as [e|input] eqn:Hv; [by left|].
  destruct (validate_valid _ _ _ _ Hv) as (Hid & _ & [Hterm _ _]). destruct (unlocked_quiet _ _ Hl Hc) as [_ Hun].
  destruct (run_op (Complete (ex_Events x) w.2 input) (ex_Env x) w.1 (ex_Faults x)) as [r db'] eqn:E.
  assert (Hrun : (run_op (r ← attempt (Complete (ex_Events x) w.2 input);
      mret (match r with inl e => (completion_status e, w.2) | inr reg' => (204%Z, reg') end)) (ex_Env x) w.1 (ex_Faults x)).2 = db').
  { unfold run_op in *. unfold mbind, M_bind, attempt in *. destruct (Complete _ _ _ _) as [[e|reg'] t]; by injection E as _ <-. }
  destruct (run_op (r ← _; _) _ _ _) as [[e|[code reg1]] db1]; cbn [fst snd] in *; subst db1;
    (destruct r as [e'|reg'];
      [left; exact (triple_run_op _ _ _ _ _ _ _ _ _ (Complete_triple (ex_Env x) w.1 Hwf Hc input Hterm Hun (ex_Events x) w.2) eq_refl E)
      |right; by exists input, x, w.2, reg']).
Qed.

(** Once the job is over, the report changes nothing. *)
Lemma serve_over x w : wf w.1 → countable_runs w.1 → env_locked (ex_Env x) = ∅ → over w.1 →
  (serve_complete jobID header req x w).2.1 = w.1.
Proof using Type.
  intros Hwf Hc Hl (job & Hj & Hs). destruct (serve_cases x w Hwf Hc Hl) as [E|(input & y & reg & reg' & Hv & Hly & E)]; [done|].
  destruct (validate_valid _ _ _ _ Hv) as (Hid & _ & [Hterm _ _]). destruct (unlocked_quiet _ _ Hly Hc) as [_ Hun].
  pose proof (triple_run_op _ _ _ _ _ _ _ _ _ (Complete_triple (ex_Env y) w.1 Hwf Hc input Hterm Hun (ex_Events y) reg) eq_refl E)
    as (job' & run & ro & db1 & Hj' & _ & _ & (pre & post & _ & _ & _ & _ & _ & _ & [_ Hrun _] & _) & _).
  rewrite Hid in Hj'. congruence.
Qed.

Definition unlocked (d : Delivery Exchange) : Prop :=
  match d with NotArrived => True | Unanswered x | Answered x => env_locked (ex_Env x) = ∅ end.

Lemma post_once_world mode d w :
  (post_once mode (serve_complete jobID header req) d w).2
  = match d with NotArrived => w | Unanswered x | Answered x => (serve_complete jobID header req x w).2 end.
Proof using Type. destruct d as [|x|x]; cbn; [done..|]. by destruct (serve_complete jobID header req x w). Qed.

(** What the attempts may have done so far. *)
Definition at_most_once (db0 db : DB) : Prop := wf db ∧ countable_runs db ∧ (db = db0 ∨ applied db0 db ∧ over db).

Lemma post_once_keeps mode d w db0 : at_most_once db0 w.1 → unlocked d →
  at_most_once db0 (post_once mode (serve_complete jobID header req) d w).2.1.
Proof using Type.
  intros (Hwf & Hc & Hdb) Hd. rewrite post_once_world.
  assert (Hx : ∀ x, env_locked (ex_Env x) = ∅ → at_most_once db0 (serve_complete jobID header req x w).2.1).
  { intros x Hl. destruct Hdb as [<-|[Ha Ho]].
    - destruct (serve_cases x w Hwf Hc Hl) as [->|Ha]; [split; [done|]; split; [done|by left]|].
      destruct (applied_over _ _ Hwf Hc Ha) as (Hwf' & Hc' & Ho). split; [done|]. split; [done|]. by right.
    - rewrite serve_over by done. split; [done|]. split; [done|]. by right. }
  destruct d as [|x|x]; [done|by apply Hx..].
Qed.

Lemma retries_once policy mode ds attempt w db0 : at_most_once db0 w.1 → Forall unlocked ds →
  at_most_once db0 (RunWithBackoff policy (post_once mode (serve_complete jobID header req)) attempt ds w).2.1.
Proof using Type.
  intros Hw Hds. revert attempt w Hw. induction Hds as [|d ds Hd _ IH]; intros attempt w Hw; [done|]. cbn [RunWithBackoff].
  pose proof (post_once_keeps mode d w db0 Hw Hd) as Hk.
  destruct (post_once mode (serve_complete jobID header req) d w) as [[] w']; [done| |done].
  destruct (_ && _); [done|by apply IH].
Qed.

End Once.

(** ** The reports of executions *)

Section Sound.
Context `{GoFmt}.

(** The reports of an execution of a job whose run has been resumed [resume] times,
    with the metadata they carry: any metadata for a gate, none otherwise. Durations and
    resources are 64-bit counts, and a commit that is reported is one that git printed. *)
Inductive node_report (resume : Z) : option json → completeJobRequest → Prop :=
| NrFailure e text duration : in_int64 duration = true → node_report resume None (uploadFailureStatus resume e text duration)
| NrMig runErr exitCode exitText repoSHA resources timings duration :
    in_int64 duration = true → match resources with Some r => resources_ok r | None => true end = true →
    (∀ sha, repoSHA = inr sha → IsCanonicalFullCommitSHA sha = true) →
    node_report resume None (mig_report resume runErr exitCode exitText repoSHA resources timings duration)
| NrGate passed repoSHA errorText resources meta duration :
    in_int64 duration = true → match resources with Some r => resources_ok r | None => true end = true →
    (∀ sha, repoSHA = inr sha → IsCanonicalFullCommitSHA sha = true) →
    node_report resume meta (gate_report resume passed repoSHA errorText resources meta duration).

(** The server's check of the metadata in a report. *)
Definition meta_accepted (meta : option json) : bool := ValidateJobMeta (mkJobStatsPayload 0 meta [] 0 "" None).

(** A report that will be understood, and has a commit when it reports a success. *)
Definition sound_report (resume : Z) (req : completeJobRequest) : Prop :=
  ∃ status exitCode s sha, req = uploadStatus resume status exitCode (MustBuild s) sha ∧
    terminal_request_status status = true ∧ stats_ok s ∧ rs_ResumeCount s = None ∧ sha_ok sha ∧
    (status = JobStatusSuccess → IsCanonicalFullCommitSHA sha = true).

(** A report without a commit, of anything but a success. *)
Lemma sound_failure resume status exitCode s :
  terminal_request_status status = true → status ≠ JobStatusSuccess → stats_ok s → rs_ResumeCount s = None →
  sound_report resume (uploadStatus resume status exitCode (MustBuild s) "").
Proof using Type. intros Ht Hne Hs Hn. exists status, exitCode, s, "". split_and!; try done. by left. Qed.

Lemma sound_run_error resume e exitCode s : stats_ok s → rs_ResumeCount s = None →
  sound_report resume (uploadStatus resume (JobStatusFromRunError e) exitCode (MustBuild s) "").
Proof using Type. intros Hs Hn. unfold JobStatusFromRunError. by apply sound_failure; [destruct (is_ctx_error e)..| |]. Qed.

Lemma sound_success resume exitCode s sha : stats_ok s → rs_ResumeCount s = None → IsCanonicalFullCommitSHA sha = true →
  sound_report resume (uploadStatus resume JobStatusSuccess exitCode (MustBuild s) sha).
Proof using Type. intros Hs Hn Hc. exists JobStatusSuccess, exitCode, s, sha. split_and!; try done. by right. Qed.

Lemma mig_report_sound resume runErr exitCode exitText repoSHA resources timings duration :
  in_int64 duration = true → match resources with Some r => resources_ok r | None => true end = true →
  (∀ sha, repoSHA = inr sha → IsCanonicalFullCommitSHA sha = true) →
  sound_report resume (mig_report resume runErr exitCode exitText repoSHA resources timings duration).
Proof using Type.
  intros Hd Hres Hsha. unfold mig_report, reportTerminalStatus.
  destruct (bool_decide (runErr = None) && bool_decide (exitCode = 0%Z)) eqn:Es.
  - apply andb_true_iff in Es as [->%bool_decide_eq_true ->%bool_decide_eq_true].
    destruct repoSHA as [[e t]|sha]; [by apply sound_run_error|]. apply sound_success; [done..|by apply Hsha].
  - destruct runErr as [[e t]|]; [by apply sound_run_error|]. cbn [fmap option_fmap option_map].
    unfold JobStatusFromExitCode. rewrite (decide_False (P := exitCode = 0%Z)) by (intros ->; done).
    by apply sound_failure; [destruct (decide (exitCode = 1%Z))..| |].
Qed.

Lemma gate_report_sound resume passed repoSHA errorText resources meta duration :
  in_int64 duration = true → match resources with Some r => resources_ok r | None => true end = true →
  meta_accepted meta = true → (∀ sha, repoSHA = inr sha → IsCanonicalFullCommitSHA sha = true) →
  sound_report resume (gate_report resume passed repoSHA errorText resources meta duration).
Proof using Type.
  intros Hd Hres Hmeta Hsha. unfold gate_report. set (s := mkRunStatsBuilder _ _ _ _ _ _ _ _ _).
  assert (Hs : stats_ok s).
  { by split. }
  destruct passed; [destruct repoSHA as [e|sha]|].
  - by apply sound_failure.
  - apply sound_success; [done..|by apply Hsha].
  - by apply sound_failure.
Qed.

Lemma node_report_sound resume meta req : node_report resume meta req → meta_accepted meta = true → sound_report resume req.
Proof using Type.
  intros Hr Hm. destruct Hr; [|by apply mig_report_sound|by apply gate_report_sound]. by apply sound_run_error.
Qed.

Lemma sound_validates resume req jobID header node :
  sound_report resume req → in_int64 resume = true → (0 ≤ resume)%Z → parseNodeUUIDHeader header = Some node →
  ∃ input, validateCompletionRequest jobID header req = inr input ∧ ci_JobID input = jobID ∧ ci_NodeID input = node ∧
    jsp_ResumeCount (ci_StatsPayload input) = resume ∧
    (ci_Status input = JobStatusSuccess → IsCanonicalFullCommitSHA (ci_RepoSHAOut input) = true).
Proof using Type.
  intros (status & exitCode & s & sha & -> & Hst & Hs & Hn & Hsha & Hsucc) Hi Hp Hh.
  eexists. split; [by apply report_validates|]. done.
Qed.

End Sound.
