(* ===== verification/GateImage.v ===== *)
(** * Images of build gates ([internal/workflow/contracts/image_template.go],
      [build_gate_image_rule.go], [internal/workflow/step/build_gate_image_resolver.go])

    A build gate runs in an image chosen by rules: those of a catalog file and those of the
    migration. A rule selects stacks by language, tool and release and names an image, a
    template over the stack and the environment of the node. The environment ([LookupEnv]),
    the catalog file and the YAML library that reads it are parameters. *)

From stdpp Require Import base gmap sets list sorting pretty strings.
From S2P Require Import Prelude GoStrings Types Json JobMeta Db Hydra Spec Claim.
From Stdlib Require Import ZArith Lia Ascii.
Local Open Scope list_scope.

(** ** Templates *)

(** [regexp.ReplaceAllStringFunc]: the text before, between and after matches is kept.
    [match_at] is the match at a place, if there is one, and what follows it. *)
Fixpoint pieces {A} (match_at : bytes → option (A * bytes)) (n : nat) (l : bytes) : list (ascii + A) :=
  match n with
  | 0 => []
  | S n' =>
      match match_at l with
      | Some (x, rest) => inr x :: pieces match_at n' rest
      | None => match l with [] => [] | c :: l' => inl c :: pieces match_at n' l' end
      end
  end.

Definition find_all {A} (match_at : bytes → option (A * bytes)) (s : string) : list (ascii + A) :=
  pieces match_at (length (to_bytes s)) (to_bytes s).

(** [\$\{stack\.([^}]+)\}], with what the group matches. *)
Definition stack_placeholder (l : bytes) : option (string * bytes) :=
  rest ← strip (to_bytes "${stack.") l;
  '(key, rest') ← cut_bytes "}"%char rest;
  match key with [] => None | _ => Some (of_bytes key, rest') end.

Definition name_first (c : ascii) : bool := byte_in 65 90 c || byte_in 97 122 c || bool_decide (c = "_"%char).
Definition name_char (c : ascii) : bool := name_first c || byte_in 48 57 c.

(** [[A-Za-z_][A-Za-z0-9_]*], as long as possible. *)
Fixpoint take_name (l : bytes) : bytes * bytes :=
  match l with
  | c :: l' => if name_char c then let '(name, rest) := take_name l' in (c :: name, rest) else ([], l)
  | [] => ([], [])
  end.

Definition name_at (l : bytes) : option (string * bytes) :=
  match l with
  | c :: _ => if name_first c then Some (of_bytes (take_name l).1, (take_name l).2) else None
  | [] => None
  end.

(** [\$\{name\}] or [\$name], with the name. *)
Definition env_placeholder (l : bytes) : option (string * bytes) :=
  match strip (to_bytes "${") l ≫= name_at with
  | Some (name, rest) => (λ rest', (name, rest')) <$> strip (to_bytes "}") rest
  | None => strip (to_bytes "$") l ≫= name_at
  end.

(** The text with every match replaced. *)
Definition replaced {A} (f : A → string) (ps : list (ascii + A)) : string :=
  of_bytes (ps ≫= λ p, match p with inl c => [c] | inr x => to_bytes (f x) end).

Definition placeholders {A} (ps : list (ascii + A)) : list A := omap (λ p, match p with inl _ => None | inr x => Some x end) ps.

(** [strings.Join(keys, ", ")] of the sorted keys of a set. *)
Definition joinSortedKeys (values : gset string) : string :=
  match merge_sort String.le (elements values) with
  | [] => ""
  | k :: ks => foldl (λ acc x, acc +:+ ", " +:+ x) k ks
  end.

Inductive StackKey := KeyUnknown | KeyMissing | KeyValue (v : string).

#[export] Instance StackKey_eq_dec : EqDecision StackKey.
Proof. solve_decision. Defined.

(** What a stack placeholder stands for. *)
Definition stack_key (stack : option StackExpectation) (raw : string) : StackKey :=
  let key := trim_space raw in
  let pick f := let v := from_option f "" stack in if decide (trim_space v = "") then KeyMissing else KeyValue v in
  if decide (key = "language") then pick se_Language
  else if decide (key = "release") then pick se_Release
  else if decide (key = "tool") then pick se_Tool
  else KeyUnknown.

Definition stack_value (stack : option StackExpectation) (raw : string) : string :=
  match stack_key stack raw with KeyValue v => v | _ => "" end.

(** The placeholders with a given outcome. *)
Definition keys_with (stack : option StackExpectation) (k : StackKey) (raws : list string) : gset string :=
  list_to_set ((λ raw, "stack." +:+ trim_space raw) <$>
    filter (λ raw, stack_key stack raw = k) raws).

Section Templates.
Context (lookup : string → option string).

(** An error message, or the expanded text. *)
Definition expandImageTemplateWithLookup (image : string) (stack0 : option StackExpectation) : string + string :=
  let stack := stack0 ≫= NormalizeStackExpectation in
  let ps := find_all stack_placeholder image in
  let unknown := keys_with stack KeyUnknown (placeholders ps) in
  let missing := keys_with stack KeyMissing (placeholders ps) in
  if decide (unknown ≠ ∅) then inl ("unknown stack placeholders: " +:+ joinSortedKeys unknown)
  else if decide (missing ≠ ∅) then inl ("unresolved stack placeholders: " +:+ joinSortedKeys missing)
  else
    let qs := find_all env_placeholder (replaced (stack_value stack) ps) in
    let missingEnv : gset string := list_to_set (filter (λ n, lookup n = None) (placeholders qs)) in
    if decide (missingEnv ≠ ∅) then inl ("unresolved environment variables: " +:+ joinSortedKeys missingEnv)
    else inr (replaced (λ n, default "" (lookup n)) qs).

End Templates.

(** ** The catalog and the rules *)

Record rawCatalogEntry := mkRawCatalogEntry { rce_Lang : string; rce_Tool : string; rce_Image : string; rce_Release : option json }.

(** A catalog file: missing, unreadable, not YAML, or its entries. *)
Inductive CatalogFile := CatalogMissing | CatalogUnreadable (err : string) | CatalogInvalid (err : string) | Catalog (gates : list rawCatalogEntry).

Fixpoint contains_bytes (sub l : bytes) : bool :=
  bool_decide (is_Some (strip sub l)) || match l with [] => false | _ :: l' => contains_bytes sub l' end.

(** [strings.Contains] *)
Definition contains (s sub : string) : bool := contains_bytes (to_bytes sub) (to_bytes s).

Inductive ImageError := ErrImageMapping (msg : string) | ErrImageRuleMatch (msg : string).

Definition ImageError_text (e : ImageError) : string :=
  match e with
  | ErrImageMapping msg => "build gate image mapping: " +:+ msg
  | ErrImageRuleMatch msg => "build gate image rule match: " +:+ msg
  end.

Class GateHost := { host_env : string → option string; read_catalog : string → CatalogFile }.

Section Rules.
Context `{GoFmt} `{GateHost}.

Definition ExpandImageTemplate (image : string) (stack : option StackExpectation) : string + string :=
  expandImageTemplateWithLookup host_env image stack.

(** [ParseReleaseValue] of what the YAML library makes of a scalar: integers that fit are
    [int], then [uint64], which is refused, then [float64]. *)
Definition catalog_release (j : json) : string + string :=
  match j with
  | JStr s => inr (trim_space s)
  | JInt z => if in_int64 z then inr (pretty z) else if decide (0 ≤ z < 2 ^ 64)%Z then inl "uint64" else inr (fmt_g j)
  | JNumber _ => inr (fmt_g j)
  | JBool _ => inl "bool"
  | JArr _ => inl "[]interface {}"
  | JObj _ => inl "map[string]interface {}"
  | JNull => inl "<nil>"
  end.

Definition toRule (prefix : string) (e : rawCatalogEntry) : string + BuildGateImageRule :=
  let lang := trim_space (rce_Lang e) in
  if decide (lang = "") then inl (prefix +:+ ".lang: required")
  else match (match rce_Release e with None => inr "" | Some j => catalog_release j end) with
       | inl got => inl (prefix +:+ ".release: expected string or number, got " +:+ got)
       | inr release =>
           let image := trim_space (rce_Image e) in
           if decide (image = "") then inl (prefix +:+ ".image: required")
           else inr (mkBuildGateImageRule (mkStackExpectation lang (trim_space (rce_Tool e)) (trim_space release)) image)
       end.

Fixpoint to_rules (i : nat) (l : list rawCatalogEntry) : string + list BuildGateImageRule :=
  match l with
  | [] => inr []
  | e :: l' =>
      match toRule ("gates[" +:+ pretty i +:+ "]") e with
      | inl err => inl err
      | inr r => match to_rules (S i) l' with inl err => inl err | inr rs => inr (r :: rs) end
      end
  end.

Definition loadCatalogFile (path : string) (required : bool) : string + list BuildGateImageRule :=
  match read_catalog path with
  | CatalogMissing => if required then inl ("gates catalog file required but not found: " +:+ path) else inr []
  | CatalogUnreadable err => inl ("read gates catalog file: " +:+ err)
  | CatalogInvalid err => inl ("parse gates catalog file: " +:+ err)
  | Catalog gates =>
      match to_rules 0 gates with inl err => inl ("gates catalog file " +:+ path +:+ ": " +:+ err) | inr rs => inr rs end
  end.

Definition unresolved_stack : string := "unresolved stack placeholders:".

(** A rule whose image needs more of the stack than the rule states keeps its template. *)
Definition normalize_rule (r : BuildGateImageRule) : string + BuildGateImageRule :=
  match ExpandImageTemplate (igr_Image r) (Some (igr_Stack r)) with
  | inr expanded => inr (mkBuildGateImageRule (igr_Stack r) (trim_space expanded))
  | inl err => if contains err unresolved_stack then inr (mkBuildGateImageRule (igr_Stack r) (trim_space (igr_Image r))) else inl err
  end.

Fixpoint normalize_rules (i : nat) (prefix : string) (l : list BuildGateImageRule) : string + list BuildGateImageRule :=
  match l with
  | [] => inr []
  | r :: l' =>
      match normalize_rule r with
      | inl err => inl (prefix +:+ "[" +:+ pretty i +:+ "].image: " +:+ err)
      | inr r' => match normalize_rules (S i) prefix l' with inl err => inl err | inr l'' => inr (r' :: l'') end
      end
  end.

Definition normalizeImageRules (rules : list BuildGateImageRule) (prefix : string) : string + list BuildGateImageRule :=
  normalize_rules 0 prefix rules.

Definition ImageRuleError_text (prefix : string) (e : ImageRuleError) : string :=
  let at_rule i := prefix +:+ "[" +:+ pretty i +:+ "]" in
  match e with
  | RuleLanguageRequired i => at_rule i +:+ ".stack.language: required"
  | RuleImageRequired i => at_rule i +:+ ".image: required"
  | RuleDuplicate i key => at_rule i +:+ ": duplicate selector " +:+ fmt_q key
  end.

(** The rules of one source, expanded and checked. *)
Definition source_rules (rules : list BuildGateImageRule) (prefix what : string) : string + list BuildGateImageRule :=
  match rules with
  | [] => inr []
  | _ =>
      match normalizeImageRules rules prefix with
      | inl err => inl (what +:+ ": " +:+ err)
      | inr rules' =>
          match BuildGateImageMapping_Validate rules' with
          | Some e => inl (what +:+ ": " +:+ ImageRuleError_text prefix e)
          | None => inr rules'
          end
      end
  end.

Definition newImageResolver (defaultPath : string) (migOverride : list BuildGateImageRule) (required : bool) :
    string + list BuildGateImageRule :=
  let fromFile :=
    if decide (defaultPath = "") then inr []
    else match loadCatalogFile defaultPath required with
         | inl err => inl err
         | inr fileRules => source_rules fileRules "default_catalog" "default gates catalog"
         end in
  match fromFile with
  | inl err => inl err
  | inr rules =>
      match source_rules migOverride "mig_override" "mig override" with
      | inl err => inl err
      | inr overrides => inr (rules ++ overrides)
      end
  end.

Definition stack_text (e : StackExpectation) : string := se_Language e +:+ ":" +:+ se_Release e +:+ ":" +:+ se_Tool e.

Definition max_specificity (matches : list BuildGateImageRule) : nat :=
  foldl (λ m r, if decide (m < Specificity r) then Specificity r else m) 0 matches.

(** The last of the matches with the given specificity. *)
Definition last_with (s : nat) (matches : list BuildGateImageRule) : option BuildGateImageRule :=
  snd <$> list_find (λ r, Specificity r = s) (reverse matches).

Definition Resolve (rules : list BuildGateImageRule) (exp : StackExpectation) : string + string :=
  match rules with
  | [] => inl ("no image mapping rules available for stack " +:+ stack_text exp)
  | _ =>
      match filter (λ r, Matches r exp = true) rules with
      | [] => inl ("no image rule matches stack " +:+ stack_text exp)
      | matches =>
          match last_with (max_specificity matches) matches with
          | None => inl ("internal error: no match found at specificity " +:+ pretty (max_specificity matches))
          | Some r =>
              match ExpandImageTemplate (igr_Image r) (Some exp) with
              | inl err => inl ("resolve image template: " +:+ err)
              | inr expanded => inr (trim_space expanded)
              end
          end
      end
  end.

Definition resolveImageForExpectation (mappingPath : string) (overrides : list BuildGateImageRule) (exp : StackExpectation) (required : bool) :
    ImageError + string :=
  match newImageResolver mappingPath overrides required with
  | inl err => inl (ErrImageMapping err)
  | inr rules => match Resolve rules exp with inl err => inl (ErrImageRuleMatch err) | inr image => inr image end
  end.

(** [None] is an error. *)
Definition resolveExpectedRuntimeImageForStackGate (mappingPath : string) (overrides : list BuildGateImageRule) (expect : option StackExpectation) :
    option string :=
  exp ← expect;
  if decide (trim_space (se_Release exp) = "") then None
  else match resolveImageForExpectation mappingPath overrides exp true with inl _ => None | inr image => Some image end.

End Rules.
