(* ===== verification/GatePlan.v ===== *)
(** * Plans of build gates ([internal/workflow/step/gate_plan_resolver.go],
      [gate_plan_stack_context.go], [stack_match.go], [internal/workflow/contracts/stack_match.go])

    Before a gate runs it settles which stack the workspace has, and so in which image it
    runs: what a stack gate expects, what the detection finds, or what the spec configures,
    depending on the mode. When that fails the gate ends with metadata that says why, and in
    some cases with an error. The detection itself reads the files of a checkout and is a
    parameter: what [Detect] and [DetectTool] return for the workspace. *)

From stdpp Require Import base gmap sets list strings.
From S2P Require Import Prelude GoStrings Types Json JobMeta Db Hydra Spec Claim GateImage.
From Stdlib Require Import ZArith Lia Ascii.
Local Open Scope list_scope.

Record EvidenceItem := mkEvidence { evi_Path : string; evi_Key : string; evi_Value : string }.

Record Observation := mkObservation { ob_Language : string; ob_Tool : string; ob_Release : option string; ob_Evidence : list EvidenceItem }.

(** An error of the detection: any, or one with evidence. *)
Inductive DetectErr := PlainError (msg : string) | DetectionError (reason msg : string) (evidence : list EvidenceItem).

Definition DetectErr_text (e : DetectErr) : string := match e with PlainError m | DetectionError _ m _ => m end.

(** What the two detections return for the workspace. *)
Record Workspace := mkWorkspace {
  ws_Detect : option Observation * option DetectErr;
  ws_DetectTool : option Observation * option DetectErr
}.

(** What of a [StepGateSpec] the plan depends on. *)
Record StepGateSpec := mkStepGateSpec {
  gs_Enabled : bool; gs_Env : gmap string string; gs_ImageOverrides : list BuildGateImageRule;
  gs_StackDetect : option BuildGateStackConfig; gs_RepoURL : string; gs_RepoID : string; gs_Ref : string;
  gs_StackGate : option StackGatePhaseSpec
}.

Record gateExecutionPlan := mkPlan {
  gp_image : string; gp_language : string; gp_tool : string; gp_release : string; gp_stackGate : option StackGateResult
}.

Record gateStackContext := mkStackContext {
  gc_expectation : StackExpectation; gc_language : string; gc_tool : string; gc_release : string; gc_stackGate : option StackGateResult
}.

(** The end of a gate without a run. The image is that of the metadata, too. *)
Record gateExecutionTerminal := mkGateTerminal {
  gt_meta : BuildGateStageMetadata; gt_err : option string; gt_reportRuntimeImage : bool; gt_runtimeImage : string
}.

(** ** Matching *)

Definition fold_trim (s : string) : string := trim_space (to_lower s).

Definition StackFieldsMatch (lang tool release wantLang wantTool wantRelease : string) : bool :=
  (bool_decide (wantLang = "") || bool_decide (fold_trim lang = fold_trim wantLang))
  && (bool_decide (wantTool = "") || bool_decide (fold_trim tool = fold_trim wantTool))
  && (bool_decide (wantRelease = "") || bool_decide (trim_space release = trim_space wantRelease)).

Definition observationToStackExpectation (obs : option Observation) : option StackExpectation :=
  o ← obs; NormalizeStackExpectation (mkStackExpectation (ob_Language o) (ob_Tool o) (default "" (ob_Release o))).

Record stackMatchOptions := mkMatchOptions { smo_includeEvidence : bool; smo_requireDetectedTool : bool }.

Definition join_texts (sep : string) (l : list string) : string :=
  match l with [] => "" | x :: l' => foldl (λ acc y, acc +:+ sep +:+ y) x l' end.

Section Plan.
Context `{GoFmt} `{GateHost}.

Definition evidence_line (e : EvidenceItem) : string := evi_Path e +:+ ": " +:+ evi_Key e +:+ " = " +:+ fmt_q (evi_Value e).

Definition nl : string := String "010"%char "".

Definition formatEvidenceForLog (l : list EvidenceItem) : string := join_texts nl (evidence_line <$> l).

Definition expected_text (what want got : string) : string :=
  what +:+ ": expected " +:+ fmt_q want +:+ ", detected " +:+ fmt_q got.

(** Whether the stack matches, and why not. *)
Definition matchStackWithOptions (obs : option Observation) (expect : option StackExpectation) (opts : stackMatchOptions) : bool * string :=
  match expect, obs with
  | None, _ => (true, "")
  | Some _, None => (false, "stack mismatch: detected stack is unavailable")
  | Some e, Some o =>
      let languageMismatch := negb (bool_decide (se_Language e = "")) && negb (StackFieldsMatch (ob_Language o) "" "" (se_Language e) "" "") in
      let toolMismatch :=
        if smo_requireDetectedTool opts && bool_decide (trim_space (ob_Tool o) = "") then false
        else negb (bool_decide (se_Tool e = "")) && negb (StackFieldsMatch "" (ob_Tool o) "" "" (se_Tool e) "") in
      let releaseMismatch :=
        negb (bool_decide (se_Release e = ""))
        && (bool_decide (ob_Release o = None) || negb (StackFieldsMatch "" "" (default "" (ob_Release o)) "" "" (se_Release e))) in
      if negb languageMismatch && negb toolMismatch && negb releaseMismatch then (true, "")
      else
        let mismatches :=
          (if languageMismatch then [expected_text "language" (se_Language e) (ob_Language o)] else [])
          ++ (if toolMismatch then [expected_text "tool" (se_Tool e) (ob_Tool o)] else [])
          ++ (if releaseMismatch then [expected_text "release" (se_Release e) (default "<nil>" (ob_Release o))] else []) in
        let msg := "stack mismatch: " +:+ join_texts "; " mismatches in
        (false, if smo_includeEvidence opts && negb (bool_decide (length (ob_Evidence o) = 0))
                then msg +:+ nl +:+ "evidence:" +:+ foldr (λ ev rest, nl +:+ "  - " +:+ evidence_line ev +:+ rest) "" (ob_Evidence o)
                else msg)
  end.

Definition matchStack (obs : option Observation) (expect : option StackExpectation) : bool * string :=
  matchStackWithOptions obs expect (mkMatchOptions true false).

(** ** Failures *)

Definition gateFailureMetadata (language tool code message evidence : string) (sg : option StackGateResult) : BuildGateStageMetadata :=
  mkBuildGateStageMetadata "" [mkStaticCheckReport language tool false []] "" None [mkLogFinding code "error" message evidence] sg "".

Definition gateInternalError (code message : string) : string :=
  let code := trim_space code in
  let message := trim_space message in
  if decide (code = "") then message else if decide (message = "") then code else code +:+ ": " +:+ message.

Definition gateFailureTerminal (language tool code message evidence : string) (err : option string) (runtimeImage : string) : gateExecutionTerminal :=
  let runtimeImage := trim_space runtimeImage in
  mkGateTerminal (gateFailureMetadata language tool code message evidence None) err (negb (bool_decide (runtimeImage = ""))) runtimeImage.

(** The callers all give a result. *)
Definition stackGateFailureTerminal (sg : StackGateResult) (language code message evidence result runtimeImage : string) (err : option string) :
    gateExecutionTerminal :=
  let runtimeImage := trim_space runtimeImage in
  let '(res, reason) := if decide (result = "") then (sg_Result sg, sg_Reason sg) else (result, message) in
  let image := if decide (runtimeImage = "") then sg_RuntimeImage sg else runtimeImage in
  mkGateTerminal
    (gateFailureMetadata language "stack-gate" code message evidence
       (Some (mkStackGateResult (sg_Enabled sg) (sg_Expected sg) (sg_Detected sg) image res reason)))
    err true runtimeImage.

Definition gateStackConfigTerminal (msg : string) : gateExecutionTerminal :=
  let code := "BUILD_GATE_STACK_CONFIG_INVALID" in
  gateFailureTerminal "" "stackdetect" code msg "" (Some (gateInternalError code msg)) "".

Definition stackDetectionFailureTerminal (detectErr : option DetectErr) (incompleteMsg : string) : gateExecutionTerminal :=
  let '(msg, evidence) :=
    match detectErr with
    | None => (incompleteMsg, "")
    | Some (PlainError m) => (m, "")
    | Some (DetectionError _ m ev) => (m, formatEvidenceForLog ev)
    end in
  let code := "BUILD_GATE_STACK_DETECT_FAILED" in
  gateFailureTerminal "" "stackdetect" code msg evidence (Some (gateInternalError code msg)) "".

Definition imageResolutionTerminal (c : gateStackContext) (err : ImageError) : gateExecutionTerminal :=
  match gc_stackGate c with
  | Some sg =>
      let '(code, prefix) := match err with
                             | ErrImageRuleMatch _ => ("STACK_GATE_NO_IMAGE_RULE", "no matching image rule")
                             | ErrImageMapping _ => ("STACK_GATE_IMAGE_MAPPING_ERROR", "image mapping error")
                             end in
      stackGateFailureTerminal sg (gc_language c) code (prefix +:+ ": " +:+ ImageError_text err) "" "unknown" "" None
  | None =>
      let code := match err with ErrImageRuleMatch _ => "BUILD_GATE_NO_IMAGE_RULE" | ErrImageMapping _ => "BUILD_GATE_IMAGE_MAPPING_ERROR" end in
      gateFailureTerminal (gc_language c) (gc_tool c) code (ImageError_text err) "" (Some (gateInternalError code (ImageError_text err))) ""
  end.

Definition resolveStackGateRuntimeImageForTerminal (mappingPath : string) (overrides : list BuildGateImageRule) (expect : StackExpectation) : string :=
  trim_space (default "" (resolveExpectedRuntimeImageForStackGate mappingPath overrides (Some expect))).

(** ** The stack of a gate *)

Definition stackDetectMode (cfg : option BuildGateStackConfig) : string :=
  match cfg with None => "" | Some c => trim_space (bsc_Mode c) end.

Definition configuredStackExpectation (cfg : option BuildGateStackConfig) : option StackExpectation :=
  c ← cfg; NormalizeStackExpectation (mkStackExpectation (trim_space (bsc_Language c)) (trim_space (bsc_Tool c)) (trim_space (bsc_Release c))).

Definition stackExpectationComplete (exp : option StackExpectation) : bool :=
  match exp with
  | None => false
  | Some e => negb (blank (se_Language e)) && negb (blank (se_Tool e)) && negb (blank (se_Release e))
  end.

Definition observationComplete (obs : option Observation) : bool := stackExpectationComplete (observationToStackExpectation obs).

(** A context without a stack gate. *)
Definition detected_context (e : StackExpectation) : gateStackContext :=
  mkStackContext e (se_Language e) (se_Tool e) (se_Release e) None.

Definition stack_gate_mode (spec : StepGateSpec) : option StackExpectation :=
  phase ← gs_StackGate spec; if sgp_Enabled phase then sgp_Expect phase else None.

Definition useForcedStackDetect (spec : StepGateSpec) : bool :=
  bool_decide (stack_gate_mode spec = None) && bool_decide (stackDetectMode (gs_StackDetect spec) = "forced").

Definition resolveStackGateContext (spec : StepGateSpec) (expect : StackExpectation) (obs : option Observation) (detectErr : option DetectErr)
    (mappingPath : string) : gateStackContext + gateExecutionTerminal :=
  let expectation := NormalizeStackExpectation expect in
  let sg detected := mkStackGateResult true expectation detected "" "" "" in
  match expectation with
  | None =>
      inr (stackGateFailureTerminal (sg None) "" "STACK_GATE_INVALID_EXPECTATION" "stack gate expectation is empty" "" "unknown" "" None)
  | Some e =>
      match detectErr with
      | Some de =>
          let evidence := match de with DetectionError _ _ ev => formatEvidenceForLog ev | PlainError _ => "" end in
          inr (stackGateFailureTerminal (sg None) (se_Language e) "STACK_GATE_UNKNOWN" (DetectErr_text de) evidence "unknown"
                 (resolveStackGateRuntimeImageForTerminal mappingPath (gs_ImageOverrides spec) e) None)
      | None =>
          let result := sg (observationToStackExpectation obs) in
          match matchStack obs (Some e) with
          | (false, reason) =>
              inr (stackGateFailureTerminal result (se_Language e) "STACK_GATE_MISMATCH" reason
                     (formatEvidenceForLog (from_option ob_Evidence [] obs)) "mismatch"
                     (resolveStackGateRuntimeImageForTerminal mappingPath (gs_ImageOverrides spec) e) None)
          | (true, _) =>
              let language := if decide (se_Language e = "") then from_option (λ o, trim_space (ob_Language o)) "" obs else se_Language e in
              let tool := from_option (λ o, trim_space (ob_Tool o)) "" obs in
              if decide (se_Release e = "")
              then inr (stackGateFailureTerminal result language "STACK_GATE_INVALID_EXPECTATION"
                          "stack gate expectation missing release; cannot resolve runtime image" "" "unknown" "" None)
              else inl (mkStackContext e language tool (se_Release e)
                          (Some (mkStackGateResult true expectation (sg_Detected result) "" "pass" "")))
          end
      end
  end.

Definition resolveForcedStackDetectToolContext (ws : Workspace) (expected : StackExpectation) : gateStackContext + gateExecutionTerminal :=
  let incomplete := inr (stackDetectionFailureTerminal None "stack tool detection produced incomplete result; language and tool are required") in
  match ws_DetectTool ws with
  | (_, Some e) => inr (stackDetectionFailureTerminal (Some e) "stack tool detection failed")
  | (None, None) => incomplete
  | (Some obs, None) =>
      if blank (ob_Language obs) || blank (ob_Tool obs) then incomplete
      else
        let got := trim_space (ob_Language obs) in
        let want := trim_space (se_Language expected) in
        if decide (got ≠ want)
        then inr (gateFailureTerminal want "stackdetect" "BUILD_GATE_STACK_MISMATCH"
                    ("language mismatch: detected " +:+ got +:+ ", expected " +:+ want) (formatEvidenceForLog (ob_Evidence obs)) None "")
        else match NormalizeStackExpectation (mkStackExpectation (trim_space (se_Language expected)) (trim_space (ob_Tool obs)) (trim_space (se_Release expected))) with
             | None => inr (gateStackConfigTerminal "forced build gate stack mode requires language and release")
             | Some e => inl (detected_context e)
             end
  end.

Definition resolveForcedStackDetectContext (ws : Workspace) (cfg : option BuildGateStackConfig) : gateStackContext + gateExecutionTerminal :=
  let invalid := inr (gateStackConfigTerminal "forced build gate stack mode requires language and release") in
  match configuredStackExpectation cfg with
  | None => invalid
  | Some expected =>
      if blank (se_Language expected) || blank (se_Release expected) then invalid
      else if blank (se_Tool expected) then resolveForcedStackDetectToolContext ws expected
      else match NormalizeStackExpectation expected with None => invalid | Some e => inl (detected_context e) end
  end.

Definition resolveStrictStackDetectContext (cfg : option BuildGateStackConfig) (obs : option Observation) (detectErr : option DetectErr) :
    gateStackContext + gateExecutionTerminal :=
  let incomplete := "stack detection produced incomplete result; language, tool, and release are required" in
  match configuredStackExpectation cfg with
  | None => inr (gateStackConfigTerminal "strict build gate stack mode requires language, tool, or release")
  | Some expected =>
      if StackExpectation_IsEmpty expected
      then inr (gateStackConfigTerminal "strict build gate stack mode requires language, tool, or release")
      else if bool_decide (is_Some detectErr) || negb (observationComplete obs) then inr (stackDetectionFailureTerminal detectErr incomplete)
      else match matchStackWithOptions obs (Some expected) (mkMatchOptions false false) with
           | (false, reason) =>
               inr (gateFailureTerminal (se_Language expected) "stackdetect" "BUILD_GATE_STACK_MISMATCH" reason
                      (formatEvidenceForLog (from_option ob_Evidence [] obs)) None "")
           | (true, _) =>
               match observationToStackExpectation obs ≫= NormalizeStackExpectation with
               | None => inr (stackDetectionFailureTerminal None incomplete)
               | Some e => inl (detected_context e)
               end
           end
  end.

Definition resolveFallbackStackDetectContext (cfg : option BuildGateStackConfig) (obs : option Observation) (detectErr : option DetectErr) :
    gateStackContext + gateExecutionTerminal :=
  let expected := configuredStackExpectation cfg in
  let invalid := inr (gateStackConfigTerminal "build gate stack mode requires language, tool, and release") in
  if negb (stackExpectationComplete expected) then invalid
  else if bool_decide (is_Some detectErr) || negb (observationComplete obs)
  then match expected ≫= NormalizeStackExpectation with None => invalid | Some e => inl (detected_context e) end
  else match observationToStackExpectation obs ≫= NormalizeStackExpectation with
       | None => inr (stackDetectionFailureTerminal None "stack detection produced incomplete result; language, tool, and release are required")
       | Some e => inl (detected_context e)
       end.

Definition resolveDetectedStackContext (ws : Workspace) (spec : StepGateSpec) (obs : option Observation) (detectErr : option DetectErr) :
    gateStackContext + gateExecutionTerminal :=
  let incomplete := "stack detection produced incomplete result; language and release are required" in
  let mode := stackDetectMode (gs_StackDetect spec) in
  if decide (mode = "forced") then resolveForcedStackDetectContext ws (gs_StackDetect spec)
  else if decide (mode = "strict") then resolveStrictStackDetectContext (gs_StackDetect spec) obs detectErr
  else if decide (mode = "fallback") then resolveFallbackStackDetectContext (gs_StackDetect spec) obs detectErr
  else match observationToStackExpectation obs with
       | None => inr (stackDetectionFailureTerminal detectErr incomplete)
       | Some exp =>
           if bool_decide (is_Some detectErr) || blank (se_Language exp) || blank (se_Release exp)
           then inr (stackDetectionFailureTerminal detectErr incomplete)
           else
             let language := trim_space (se_Language exp) in
             let tool := from_option (λ o, trim_space (ob_Tool o)) "" obs in
             match NormalizeStackExpectation exp with
             | None => inr (stackDetectionFailureTerminal None incomplete)
             | Some e =>
                 inl (mkStackContext e (if decide (language = "") then se_Language e else language)
                        (if decide (tool = "") then se_Tool e else tool) (se_Release e) None)
             end
       end.

Definition resolveGateStackContext (ws : Workspace) (spec : StepGateSpec) (obs : option Observation) (detectErr : option DetectErr)
    (mappingPath : string) : gateStackContext + gateExecutionTerminal :=
  match stack_gate_mode spec with
  | Some expect => resolveStackGateContext spec expect obs detectErr mappingPath
  | None => resolveDetectedStackContext ws spec obs detectErr
  end.

Definition set_runtime_image (image : string) (sg : StackGateResult) : StackGateResult :=
  mkStackGateResult (sg_Enabled sg) (sg_Expected sg) (sg_Detected sg) image (sg_Result sg) (sg_Reason sg).

Definition resolveGateExecutionPlan (ws : Workspace) (spec : StepGateSpec) (mappingPath : string) : gateExecutionPlan + gateExecutionTerminal :=
  match (if useForcedStackDetect spec then resolveForcedStackDetectContext ws (gs_StackDetect spec)
         else resolveGateStackContext ws spec (ws_Detect ws).1 (ws_Detect ws).2 mappingPath) with
  | inr terminal => inr terminal
  | inl c =>
      match resolveImageForExpectation mappingPath (gs_ImageOverrides spec) (gc_expectation c) true with
      | inl err => inr (imageResolutionTerminal c err)
      | inr image => inl (mkPlan image (gc_language c) (gc_tool c) (gc_release c) (set_runtime_image image <$> gc_stackGate c))
      end
  end.

End Plan.
