(* ===== verification/GateRun.v ===== *)
(** * Runs of build gates ([internal/workflow/step/gate_docker.go], [gate_docker_metadata.go],
      [internal/nodeagent/gate_job.go], [gate_metadata_helpers.go], [container_failure_error.go])

    A gate runs the image of its plan on the workspace and turns the exit code and the
    output into metadata; the node reports them to the server. What happens to the container,
    the files around it and its resource usage are parameters of a run. *)

From stdpp Require Import base gmap sets list pretty strings.
From S2P Require Import Prelude GoStrings Types Json JsonText JobMeta Db Lifecycle Hydra Spec Claim.
From S2P Require Import Completion NodeReport GateImage GatePlan.
From Stdlib Require Import ZArith Lia Ascii.
Local Open Scope list_scope.

(** ** Metadata of a run *)

Definition maxLogBytes : N := 10485760.

Definition capGateLogBytes (logs : bytes) : bytes :=
  if (maxLogBytes <? N.of_nat (length logs))%N then take (N.to_nat maxLogBytes) logs else logs.

(** ** Texts of errors *)

(** [strings.Fields]: the text between white space. *)
Fixpoint fields_rounds (n : nat) (word l : bytes) : list bytes :=
  let flush rest := match word with [] => rest | _ => word :: rest end in
  match n with
  | O => flush []
  | S n' =>
      match strip_any space_runes l with
      | Some l' => flush (fields_rounds n' [] l')
      | None => match l with [] => flush [] | c :: l' => fields_rounds n' (word ++ [c]) l' end
      end
  end.

Definition normalizedErrorText (text : string) : string :=
  join_texts " " (of_bytes <$> fields_rounds (length (to_bytes text)) [] (to_bytes text)).

Definition maxDerivedJobErrorText : nat := 2048.

Definition boundedErrorText (text : string) : string := of_bytes (take maxDerivedJobErrorText (to_bytes (trim_space text))).

Definition line_feed : ascii := "010"%char.

(** The first line with the marker. *)
Definition errorLineContaining (text marker : string) : string :=
  match list_find (λ line, contains line marker = true) (split text line_feed) with
  | Some (_, line) => normalizedErrorText line
  | None => ""
  end.

Definition nonExecutableGradlewErrorPrefix : string := "Non-executable gradlew:".

(** The first of some texts that is not empty. *)
Definition first_text (l : list string) : string := from_option snd "" (list_find (λ s, s ≠ "") l).

Definition gateFailureErrorFromMetadata (meta : BuildGateStageMetadata) (logsText : string) : string :=
  boundedErrorText (first_text
    (((λ f, errorLineContaining (lf_Message f) nonExecutableGradlewErrorPrefix) <$> bg_LogFindings meta)
     ++ [errorLineContaining logsText nonExecutableGradlewErrorPrefix]
     ++ ((λ f, normalizedErrorText (lf_Message f)) <$> bg_LogFindings meta)
     ++ (normalizedErrorText <$> split logsText line_feed))).

(** ** A run *)

Section Run.
Context `{GoFmt} `{GateHost} (sha256_hex : bytes → string).

Definition sha256Digest (b : bytes) : string := "sha256:" +:+ sha256_hex b.

(** The metadata, and the logs that stay on the node. *)
Definition gateExecutionMetadata (language tool release : string) (exitCode : Z) (logs : bytes) : BuildGateStageMetadata * string :=
  let passed := bool_decide (exitCode = 0%Z) in
  let text := of_bytes (capGateLogBytes logs) in
  let msg := if decide (text = "") then tool +:+ " build failed (exit " +:+ pretty exitCode +:+ ")" else text in
  (mkBuildGateStageMetadata (sha256Digest (capGateLogBytes logs)) [mkStaticCheckReport language tool passed []] ""
     (Some (mkStackExpectation (trim_space language) (trim_space tool) (trim_space release)))
     (if passed then [] else [mkLogFinding "" "error" msg ""]) None "",
   text).

Definition set_stack_gate (sg : option StackGateResult) (m : BuildGateStageMetadata) : BuildGateStageMetadata :=
  mkBuildGateStageMetadata (bg_LogDigest m) (bg_StaticChecks m) (bg_ExecutedCommand m) (bg_Detected m) (bg_LogFindings m)
    (match sg with Some _ => sg | None => bg_StackGate m end) (bg_BugSummary m).

(** An error with its text. *)
Definition Failure : Type := GoErr * string.

(** What becomes of the container: an error of preparing, starting or waiting for it, or
    its exit code and its output. *)
Definition Container : Type := Failure + Z * bytes.

(** Metadata with the logs, and an error; the gate may have neither. *)
Definition Execute (ctxErr : option Failure) (runtime : bool) (ws : Workspace) (spec : StepGateSpec) (mappingPath : string) (c : Container) :
    option (BuildGateStageMetadata * string) * option Failure :=
  match ctxErr with
  | Some e => (None, Some e)
  | None =>
      if negb (gs_Enabled spec) then (None, None)
      else if negb runtime then (None, Some (OtherError, "build gate runtime unavailable"))
      else match resolveGateExecutionPlan ws spec mappingPath with
           | inr terminal => (Some (gt_meta terminal, ""), (λ t, (OtherError, t)) <$> gt_err terminal)
           | inl plan =>
               match c with
               | inl e => (None, Some e)
               | inr (exitCode, logs) =>
                   let '(meta, text) := gateExecutionMetadata (gp_language plan) (gp_tool plan) (gp_release plan) exitCode logs in
                   (Some (set_stack_gate (gp_stackGate plan) meta, text), None)
               end
           end
  end.

Definition no_gate : BuildGateStageMetadata := mkBuildGateStageMetadata "" [mkStaticCheckReport "" "none" true []] "" None [] None "".

Definition runGate (ctxErr : option Failure) (runtime : bool) (ws : Workspace) (spec : StepGateSpec) (mappingPath : string) (c : Container) :
    option (BuildGateStageMetadata * string) * option Failure :=
  if negb (gs_Enabled spec) then (Some (no_gate, ""), None) else Execute ctxErr runtime ws spec mappingPath c.

Definition gateResultPassed (m : BuildGateStageMetadata) : bool :=
  match bg_StaticChecks m with [] => false | r :: _ => scr_Passed r end.

(** [errors.Join] *)
Definition join_errors (a b : option Failure) : option Failure :=
  match a, b with
  | Some (e1, t1), Some (e2, t2) => Some (if is_ctx_error e1 then e1 else e2, t1 +:+ nl +:+ t2)
  | Some e, None | None, Some e => Some e
  | None, None => None
  end.

(** [json.Marshal] of the metadata, which does not validate it: the document before it
    is written. The server finds its [json_clean] in the request, and takes that exactly
    when it would take this ([gate_meta_read_clean]). *)
Definition gate_meta_json (m : BuildGateStageMetadata) : option json :=
  d ← enc_BuildGateStageMetadata m; Some (JObj [("kind", JStr JobKindGate); ("gate", d)]).

(** The report of [executeGateJob] once the gate has ended; [outcomeErr] is the error of
    keeping its output files, [repoSHA] the commit of the workspace or the error of computing it. *)
Definition executeGateJob_report (resumeCount : Z) (gate : option (BuildGateStageMetadata * string) * option Failure) (outcomeErr : option Failure)
    (repoSHA : Failure + string) (resources : option RunStatsJobResources) (duration : Z) : completeJobRequest :=
  match gate.1, join_errors gate.2 outcomeErr with
  | _, Some (e, text) => uploadFailureStatus resumeCount e text duration
  | None, None => uploadFailureStatus resumeCount OtherError "gate returned nil result with nil error" duration
  | Some (meta, logsText), None =>
      gate_report resumeCount (gateResultPassed meta) repoSHA (gateFailureErrorFromMetadata meta logsText) resources (gate_meta_json meta) duration
  end.

End Run.
