(* ===== verification/GateSafety.v ===== *)
(** * Facts about build gates

    Which rule an image comes from, which stack a gate settles on, and what its metadata
    looks like. *)

From stdpp Require Import base gmap sets list sorting pretty strings.
From S2P Require Import Prelude GoStrings Types Json JsonText JobMeta JobMetaCodec Db Lifecycle Hydra Spec Claim.
From S2P Require Import Completion NodeReport GateImage GatePlan GateRun.
From Stdlib Require Import ZArith Lia Ascii.
Local Open Scope list_scope.

(** ** The rule of an image *)

#[export] Instance StackExpectation_eq_dec : EqDecision StackExpectation.
Proof. solve_decision. Defined.
#[export] Instance BuildGateImageRule_eq_dec : EqDecision BuildGateImageRule.
Proof. solve_decision. Defined.

(** What the file and the migration give: the rule of an image is the most specific match;
    when both have one, the migration's. No two rules of a source compete. *)
Definition chosen (cat ov : list BuildGateImageRule) (exp : StackExpectation) (r : BuildGateImageRule) : Prop :=
  Matches r exp = true ∧
  ((r ∈ ov ∧ (∀ q, q ∈ ov → Matches q exp = true → q = r ∨ Specificity q < Specificity r) ∧
    (∀ q, q ∈ cat → Matches q exp = true → Specificity q ≤ Specificity r)) ∨
   (r ∈ cat ∧ (∀ q, q ∈ cat → Matches q exp = true → q = r ∨ Specificity q < Specificity r) ∧
    (∀ q, q ∈ ov → Matches q exp = true → Specificity q < Specificity r)))%nat.

Lemma chosen_unique cat ov exp r r' : chosen cat ov exp r → chosen cat ov exp r' → r = r'.
Proof.
  intros [Hm [(Hr & Hov & Hcat)|(Hr & Hcat & Hov)]] [Hm' [(Hr' & Hov' & Hcat')|(Hr' & Hcat' & Hov')]].
  - destruct (Hov' r Hr Hm) as [|H1]; [done|]. destruct (Hov r' Hr' Hm') as [|H2]; [done|lia].
  - specialize (Hcat r' Hr' Hm'). specialize (Hov' r Hr Hm). lia.
  - specialize (Hcat' r Hr Hm). specialize (Hov r' Hr' Hm'). lia.
  - destruct (Hcat' r Hr Hm) as [|H1]; [done|]. destruct (Hcat r' Hr' Hm') as [|H2]; [done|lia].
Qed.

Lemma Specificity_pos r : (1 ≤ Specificity r)%nat.
Proof. unfold Specificity. repeat case_match; lia. Qed.

(** Matches of one stack with the same specificity select the same stacks. *)
Lemma matches_same_key q r exp : Matches q exp = true → Matches r exp = true → Specificity q = Specificity r → SelectorKey q = SelectorKey r.
Proof.
  unfold Matches. rewrite !andb_true_iff, !orb_true_iff, !bool_decide_eq_true. intros [[Hl Hq1] Hq2] [[Hl' Hr1] Hr2] Hs.
  assert (Ht : se_Tool (igr_Stack q) = "" ↔ se_Tool (igr_Stack r) = "") by (unfold Specificity in Hs; repeat case_bool_decide; done).
  assert (Hr : se_Release (igr_Stack q) = "" ↔ se_Release (igr_Stack r) = "") by (unfold Specificity in Hs; repeat case_bool_decide; done).
  assert (se_Tool (igr_Stack q) = se_Tool (igr_Stack r)) as Et by (destruct Hq2, Hr2; intuition congruence).
  assert (se_Release (igr_Stack q) = se_Release (igr_Stack r)) as Er by (destruct Hq1, Hr1; intuition congruence).
  unfold SelectorKey. by rewrite Hl, Hl', Et, Er.
Qed.

Lemma nodup_key rules q r : NoDup (SelectorKey <$> rules) → q ∈ rules → r ∈ rules → SelectorKey q = SelectorKey r → q = r.
Proof.
  intros Hn [i Hi]%list_elem_of_lookup [j Hj]%list_elem_of_lookup E.
  assert (i = j) as ->; [|congruence]. eapply (NoDup_lookup _ _ _ (SelectorKey q) Hn); rewrite list_lookup_fmap; [by rewrite Hi|by rewrite Hj, E].
Qed.

Lemma max_fold l m : (m ≤ foldl (λ m r, if decide (m < Specificity r) then Specificity r else m) m l)%nat ∧
  (∀ r, r ∈ l → Specificity r ≤ foldl (λ m r, if decide (m < Specificity r) then Specificity r else m) m l)%nat ∧
  (foldl (λ m r, if decide (m < Specificity r) then Specificity r else m) m l = m ∨
   ∃ r, r ∈ l ∧ Specificity r = foldl (λ m r, if decide (m < Specificity r) then Specificity r else m) m l)%nat.
Proof.
  revert m. induction l as [|x l IH]; intros m; cbn [foldl].
  { split_and!; [done|by intros r ?%not_elem_of_nil|by left]. }
  destruct (IH (if decide (m < Specificity x)%nat then Specificity x else m)) as (H1 & H2 & H3).
  destruct (decide (m < Specificity x)%nat).
  - split_and!; [lia| |].
    + intros r [->|Hr]%elem_of_cons; [done|by apply H2].
    + right. destruct H3 as [->|(r & Hr & E)]; [exists x; split; [left|done]|exists r; split; [by right|done]].
  - split_and!; [done| |].
    + intros r [->|Hr]%elem_of_cons; [lia|by apply H2].
    + destruct H3 as [H3|(r & Hr & E)]; [by left|right; exists r; split; [by right|done]].
Qed.

Lemma last_with_spec s l : (∃ r, r ∈ l ∧ Specificity r = s) →
  ∃ pre r post, last_with s l = Some r ∧ l = pre ++ r :: post ∧ Specificity r = s ∧ Forall (λ q, Specificity q ≠ s) post.
Proof.
  intros (r0 & Hr0 & Hs0). unfold last_with. destruct (list_find (λ r, Specificity r = s) (reverse l)) as [[i r]|] eqn:E.
  - apply list_find_Some in E as (Hi & Hs & Hlt). cbn [fmap option_fmap option_map snd].
    pose proof (take_drop_middle _ _ _ Hi) as Hd. apply (f_equal reverse) in Hd.
    rewrite reverse_involutive, reverse_app, reverse_cons, <-app_assoc in Hd. cbn [app] in Hd.
    exists (reverse (drop (S i) (reverse l))), r, (reverse (take i (reverse l))). split; [done|]. split; [done|]. split; [done|].
    apply Forall_forall. intros q Hq. rewrite elem_of_reverse in Hq. apply list_elem_of_lookup in Hq as [j Hj].
    apply lookup_take_Some in Hj as [Hj Hji]. by apply (Hlt j q).
  - apply list_find_None in E. rewrite Forall_forall in E. destruct (E r0); [by rewrite elem_of_reverse|done].
Qed.

Lemma filter_split {A} (P : A → Prop) `{!∀ x, Decision (P x)} l a x c :
  filter P l = a ++ x :: c → ∃ pre post, l = pre ++ x :: post ∧ filter P pre = a ∧ filter P post = c.
Proof.
  revert a. induction l as [|y l IH]; intros a E; [by destruct a|].
  rewrite filter_cons in E. destruct (decide (P y)) as [Hy|Hy].
  - destruct a as [|z a]; cbn in E; injection E as -> E.
    + exists [], l. by split_and!.
    + destruct (IH a E) as (pre & post & -> & Ha & Hc). exists (z :: pre), post. split_and!; [done| |done].
      rewrite filter_cons_True by done. by rewrite Ha.
  - destruct (IH a E) as (pre & post & -> & Ha & Hc). exists (y :: pre), post. split_and!; [done| |done]. by rewrite filter_cons_False.
Qed.

(** The rule [Resolve] takes when some rule matches. *)
Lemma resolved_rule cat ov exp r0 :
  NoDup (SelectorKey <$> cat) → NoDup (SelectorKey <$> ov) → r0 ∈ cat ++ ov → Matches r0 exp = true →
  let matches := filter (λ r, Matches r exp = true) (cat ++ ov) in
  ∃ r, last_with (max_specificity matches) matches = Some r ∧ chosen cat ov exp r.
Proof.
  intros Hnc Hno Hr0 Hm0 matches. destruct (max_fold matches 0) as (_ & Hle & Hat). fold (max_specificity matches) in Hle, Hat.
  assert (Hin0 : r0 ∈ matches) by (by apply list_elem_of_filter).
  destruct (last_with_spec (max_specificity matches) matches) as (a & r & c & Hl & Hsplit & Hs & Hc).
  { destruct Hat as [E|(r & Hr & E)]; [|by exists r]. specialize (Hle r0 Hin0). pose proof (Specificity_pos r0). lia. }
  exists r. split; [done|]. assert (Hr : r ∈ matches) by (rewrite Hsplit; set_solver). apply list_elem_of_filter in Hr as [Hm Hr].
  assert (Hmax : ∀ q, q ∈ cat ++ ov → Matches q exp = true → (Specificity q ≤ Specificity r)%nat).
  { intros q Hq Hqm. rewrite Hs. apply Hle. by apply list_elem_of_filter. }
  assert (Htie : ∀ src q, NoDup (SelectorKey <$> src) → (∀ x, x ∈ src → x ∈ cat ++ ov) → r ∈ src → q ∈ src → Matches q exp = true →
    q = r ∨ (Specificity q < Specificity r)%nat).
  { intros src q Hn Hsub Hrs Hq Hqm. destruct (decide (Specificity q = Specificity r)) as [E|Hne].
    - left. apply (nodup_key src); [done..|]. by apply (matches_same_key q r exp).
    - right. specialize (Hmax q (Hsub q Hq) Hqm). lia. }
  destruct (filter_split _ _ _ _ _ Hsplit) as (pre & post & E & _ & Hpost). split; [done|].
  assert (Hless : ∀ q, q ∈ post → Matches q exp = true → (Specificity q < Specificity r)%nat).
  { intros q Hq Hqm. rewrite Forall_forall in Hc. specialize (Hc q). rewrite <-Hpost, list_elem_of_filter in Hc. specialize (Hc (conj Hqm Hq)).
    specialize (Hmax q ltac:(rewrite E; set_solver) Hqm). rewrite Hs in *. lia. }
  apply elem_of_app in Hr as [Hrc|Hro]; [|left; split_and!; [done| |]].
  - destruct (decide (r ∈ ov)) as [Hro|Hro]; [left; split_and!; [done| |]|right; split_and!; [done| |]].
    + intros q Hq. apply (Htie ov q Hno); [set_solver|done|done].
    + intros q Hq. apply Hmax. set_solver.
    + intros q Hq. apply (Htie cat q Hnc); [set_solver|done|done].
    + intros q Hq. apply Hless. apply app_eq_inv in E as [(k & -> & Hk)|(k & -> & Hk)].
      * destruct k as [|y k]; cbn in Hk; [exfalso; apply Hro; rewrite <-Hk; left|]. injection Hk as -> ->. set_solver.
      * exfalso. apply Hro. rewrite Hk. set_solver.
  - intros q Hq. apply (Htie ov q Hno); [set_solver|done|done].
  - intros q Hq. apply Hmax. set_solver.
Qed.

(** ** The rules of a resolver *)

Section Rules.
Context `{GoFmt} `{GateHost}.

Lemma normalize_rules_stacks i prefix l l' : normalize_rules i prefix l = inr l' → igr_Stack <$> l' = igr_Stack <$> l.
Proof using Type.
  revert i l'. induction l as [|r l IH]; intros i l'; cbn [normalize_rules]; [by intros [= <-]|].
  destruct (normalize_rule r) as [?|r'] eqn:Er; [done|]. destruct (normalize_rules (S i) prefix l) as [?|l''] eqn:El; [done|].
  intros [= <-]. cbn. f_equal; [|by eapply IH]. unfold normalize_rule in Er. repeat case_match; by simplify_eq.
Qed.

Lemma source_rules_ok rules prefix what l :
  source_rules rules prefix what = inr l → NoDup (SelectorKey <$> l) ∧ igr_Stack <$> l = igr_Stack <$> rules.
Proof using Type.
  unfold source_rules. destruct rules as [|r rules]; [intros [= <-]; split; [constructor|done]|].
  destruct (normalizeImageRules (r :: rules) prefix) as [?|l'] eqn:En; [done|].
  destruct (BuildGateImageMapping_Validate l') eqn:Ev; [done|]. intros [= <-].
  split; [by apply validate_rules_None in Ev as [_ ?]|by eapply normalize_rules_stacks].
Qed.

Lemma newImageResolver_ok path ov required rules : newImageResolver path ov required = inr rules →
  ∃ cat ov', rules = cat ++ ov' ∧ NoDup (SelectorKey <$> cat) ∧ NoDup (SelectorKey <$> ov') ∧ igr_Stack <$> ov' = igr_Stack <$> ov.
Proof using Type.
  unfold newImageResolver. intros E.
  destruct (if decide (path = "") then _ else _) as [?|cat] eqn:Ef; [done|].
  destruct (source_rules ov _ _) as [?|ov'] eqn:Eo; [done|]. injection E as <-.
  apply source_rules_ok in Eo as [Hno Hs]. exists cat, ov'. split_and!; try done.
  case_decide; [injection Ef as <-; constructor|]. destruct (loadCatalogFile path required) as [?|fr]; [done|].
  by apply source_rules_ok in Ef as [? _].
Qed.

Lemma newImageResolver_sources path ov required rules : newImageResolver path ov required = inr rules →
  ∃ cat ov', rules = cat ++ ov' ∧ newImageResolver path [] required = inr cat ∧
    source_rules ov "mig_override" "mig override" = inr ov'.
Proof using Type.
  unfold newImageResolver. intros E. destruct (if decide (path = "") then _ else _) as [?|cat]; [done|].
  destruct (source_rules ov _ _) as [?|ov'] eqn:Eo; [done|]. injection E as <-. exists cat, ov'. cbn. by rewrite app_nil_r.
Qed.

Lemma Resolve_spec cat ov exp : NoDup (SelectorKey <$> cat) → NoDup (SelectorKey <$> ov) →
  match Resolve (cat ++ ov) exp with
  | inr image => ∃ r expanded, chosen cat ov exp r ∧ ExpandImageTemplate (igr_Image r) (Some exp) = inr expanded ∧ image = trim_space expanded
  | inl _ => (∀ r, r ∈ cat ++ ov → Matches r exp = false) ∨
      ∃ r err, chosen cat ov exp r ∧ ExpandImageTemplate (igr_Image r) (Some exp) = inl err
  end.
Proof using Type.
  intros Hc Ho. pose proof (λ r0, resolved_rule cat ov exp r0 Hc Ho) as Hr. unfold Resolve. cbn zeta in Hr.
  destruct (cat ++ ov) as [|r1 rules] eqn:Erules; [left; by intros r ?%not_elem_of_nil|]. rewrite <-Erules in *.
  destruct (filter (λ r, Matches r exp = true) (cat ++ ov)) as [|m ms] eqn:Em.
  - left. intros r Hin. apply not_true_is_false. intros Hm.
    assert (r ∈ filter (λ r, Matches r exp = true) (cat ++ ov)) as Hf by (by apply list_elem_of_filter). rewrite Em in Hf. by apply not_elem_of_nil in Hf.
  - assert (m ∈ filter (λ r, Matches r exp = true) (cat ++ ov)) as [Hm Hin]%list_elem_of_filter by (rewrite Em; left).
    destruct (Hr m Hin Hm) as (r & -> & Hch).
    destruct (ExpandImageTemplate (igr_Image r) (Some exp)) as [err|expanded] eqn:Ee; [right; by exists r, err|by exists r, expanded].
Qed.

End Rules.

(** ** The stack of a gate *)

(** An observation agrees with an expectation in every field the expectation states. *)
Definition agrees (o : Observation) (e : StackExpectation) : Prop :=
  (se_Language e = "" ∨ fold_trim (ob_Language o) = fold_trim (se_Language e)) ∧
  (se_Tool e = "" ∨ fold_trim (ob_Tool o) = fold_trim (se_Tool e)) ∧
  (se_Release e = "" ∨ ∃ r, ob_Release o = Some r ∧ trim_space r = trim_space (se_Release e)).

(** The stack a gate settles on. *)
Inductive settled (spec : StepGateSpec) (ws : Workspace) : StackExpectation → Prop :=
| SettledGate x e o :
    (* a stack gate: what it expects, which the workspace must have *)
    stack_gate_mode spec = Some x → NormalizeStackExpectation x = Some e → ws_Detect ws = (Some o, None) → agrees o e → se_Release e ≠ "" →
    settled spec ws e
| SettledForced e :
    stack_gate_mode spec = None → stackDetectMode (gs_StackDetect spec) = "forced" →
    configuredStackExpectation (gs_StackDetect spec) = Some e → se_Language e ≠ "" → se_Tool e ≠ "" → se_Release e ≠ "" →
    settled spec ws e
| SettledForcedTool c o :
    (* the tool is left to the detection *)
    stack_gate_mode spec = None → stackDetectMode (gs_StackDetect spec) = "forced" →
    configuredStackExpectation (gs_StackDetect spec) = Some c → se_Language c ≠ "" → se_Tool c = "" → se_Release c ≠ "" →
    ws_DetectTool ws = (Some o, None) → trim_space (ob_Language o) = se_Language c → trim_space (ob_Tool o) ≠ "" →
    settled spec ws (mkStackExpectation (se_Language c) (trim_space (ob_Tool o)) (se_Release c))
| SettledStrict c o e :
    stack_gate_mode spec = None → stackDetectMode (gs_StackDetect spec) = "strict" →
    configuredStackExpectation (gs_StackDetect spec) = Some c → ws_Detect ws = (Some o, None) →
    observationToStackExpectation (Some o) = Some e → stackExpectationComplete (Some e) = true → agrees o c →
    settled spec ws e
| SettledFallbackDetected c o e :
    stack_gate_mode spec = None → stackDetectMode (gs_StackDetect spec) = "fallback" →
    configuredStackExpectation (gs_StackDetect spec) = Some c → stackExpectationComplete (Some c) = true →
    ws_Detect ws = (Some o, None) → observationToStackExpectation (Some o) = Some e → stackExpectationComplete (Some e) = true →
    settled spec ws e
| SettledFallbackConfigured c :
    stack_gate_mode spec = None → stackDetectMode (gs_StackDetect spec) = "fallback" →
    configuredStackExpectation (gs_StackDetect spec) = Some c → stackExpectationComplete (Some c) = true →
    is_Some (ws_Detect ws).2 ∨ observationComplete (ws_Detect ws).1 = false →
    settled spec ws c
| SettledDetected o e :
    stack_gate_mode spec = None → stackDetectMode (gs_StackDetect spec) ∉ ["forced"; "strict"; "fallback"] →
    ws_Detect ws = (Some o, None) → observationToStackExpectation (Some o) = Some e → se_Language e ≠ "" → se_Release e ≠ "" →
    settled spec ws e.

(** *** Normal expectations *)

Lemma blank_spec s : blank s = true ↔ trim_space s = "".
Proof. apply bool_decide_eq_true. Qed.

Record normal (e : StackExpectation) : Prop := {
  nm_language : trim_space (se_Language e) = se_Language e;
  nm_tool : trim_space (se_Tool e) = se_Tool e;
  nm_release : trim_space (se_Release e) = se_Release e;
  nm_some : ¬ (se_Language e = "" ∧ se_Tool e = "" ∧ se_Release e = "")
}.

Lemma normalize_normal x e : NormalizeStackExpectation x = Some e → normal e.
Proof. unfold NormalizeStackExpectation. case_decide as Hd; [done|]. intros [= <-]. split; cbn; [apply trim_space_idem..|exact Hd]. Qed.

Lemma normal_id e : normal e → NormalizeStackExpectation e = Some e.
Proof.
  intros [H1 H2 H3 H4]. unfold NormalizeStackExpectation. rewrite H1, H2, H3. cbn. rewrite decide_False by done. by destruct e.
Qed.

Lemma normal_language e : normal e → blank (se_Language e) = bool_decide (se_Language e = "").
Proof. intros [H1 _ _ _]. unfold blank. by rewrite H1. Qed.
Lemma normal_tool e : normal e → blank (se_Tool e) = bool_decide (se_Tool e = "").
Proof. intros [_ H2 _ _]. unfold blank. by rewrite H2. Qed.
Lemma normal_release e : normal e → blank (se_Release e) = bool_decide (se_Release e = "").
Proof. intros [_ _ H3 _]. unfold blank. by rewrite H3. Qed.

Lemma configured_normal cfg e : configuredStackExpectation cfg = Some e → normal e.
Proof. unfold configuredStackExpectation. destruct cfg; [|done]. cbn. apply normalize_normal. Qed.

Lemma observed_normal obs e : observationToStackExpectation obs = Some e → normal e.
Proof. unfold observationToStackExpectation. destruct obs; [|done]. cbn. apply normalize_normal. Qed.

Lemma complete_spec e : normal e → stackExpectationComplete (Some e) = true ↔ se_Language e ≠ "" ∧ se_Tool e ≠ "" ∧ se_Release e ≠ "".
Proof.
  intros Hn. unfold stackExpectationComplete. rewrite normal_language, normal_tool, normal_release by done.
  rewrite !andb_true_iff, !negb_true_iff, !bool_decide_eq_false. tauto.
Qed.

Section Plan.
Context `{GoFmt} `{GateHost}.

Lemma match_agrees o e evidence : (matchStackWithOptions (Some o) (Some e) (mkMatchOptions evidence false)).1 = true ↔ agrees o e.
Proof using Type.
  unfold matchStackWithOptions, agrees. cbn [smo_requireDetectedTool smo_includeEvidence andb].
  match goal with |- context [if ?c then (true, "") else _] => assert (Hif : ∀ (x : string), (if c then (true, "") else (false, x)).1 = c) by (by destruct c); rewrite Hif end.
  rewrite !andb_true_iff, !negb_true_iff, !andb_false_iff, !negb_false_iff, !bool_decide_eq_true, orb_false_iff, negb_false_iff, bool_decide_eq_false.
  unfold StackFieldsMatch. rewrite !(bool_decide_eq_true_2 ("" = "")) by done. cbn [orb andb].
  rewrite ?andb_true_r, !orb_true_iff, !bool_decide_eq_true.
  destruct (ob_Release o) as [r|]; cbn [default]; naive_solver.
Qed.

Lemma stack_gate_context spec x obs err path e :
  (∃ c, resolveStackGateContext spec x obs err path = inl c ∧ gc_expectation c = e) ↔
  ∃ o, NormalizeStackExpectation x = Some e ∧ obs = Some o ∧ err = None ∧ agrees o e ∧ se_Release e ≠ "".
Proof using Type.
  unfold resolveStackGateContext. destruct (NormalizeStackExpectation x) as [e'|] eqn:En; [|naive_solver].
  destruct err as [de|]; [naive_solver|]. unfold matchStack.
  destruct obs as [o|]; [|cbn; naive_solver].
  pose proof (match_agrees o e' true) as Hm. destruct (matchStackWithOptions _ _ _) as [[] reason]; cbn [fst] in Hm.
  - destruct (decide (se_Release e' = "")) as [Hr|Hr]; [naive_solver|].
    split; [intros (c & [= <-] & <-); cbn; exists o; naive_solver|]. intros (o' & [= <-] & _). eexists. by split.
  - split; [by intros (c & ? & _)|]. intros (o' & [= <-] & [= <-] & _ & Ha & _). by apply Hm in Ha.
Qed.

Lemma forced_context ws cfg e :
  (∃ c, resolveForcedStackDetectContext ws cfg = inl c ∧ gc_expectation c = e) ↔
  ∃ x, configuredStackExpectation cfg = Some x ∧ se_Language x ≠ "" ∧ se_Release x ≠ "" ∧
    (se_Tool x ≠ "" ∧ e = x ∨
     se_Tool x = "" ∧ ∃ o, ws_DetectTool ws = (Some o, None) ∧ trim_space (ob_Language o) = se_Language x ∧ trim_space (ob_Tool o) ≠ "" ∧
       e = mkStackExpectation (se_Language x) (trim_space (ob_Tool o)) (se_Release x)).
Proof using Type.
  unfold resolveForcedStackDetectContext. destruct (configuredStackExpectation cfg) as [x|] eqn:Ex; [|naive_solver].
  pose proof (configured_normal _ _ Ex) as Hn. rewrite normal_language, normal_tool, normal_release by done.
  destruct (bool_decide_reflect (se_Language x = "")) as [HL|HL]; [naive_solver|].
  destruct (bool_decide_reflect (se_Release x = "")) as [HR|HR]; [naive_solver|]. cbn [orb].
  destruct (bool_decide_reflect (se_Tool x = "")) as [HT|HT].
  - unfold resolveForcedStackDetectToolContext. destruct (ws_DetectTool ws) as [[o|] [er|]]; [naive_solver| |naive_solver|naive_solver].
    unfold blank. rewrite (nm_language _ Hn), (nm_release _ Hn).
    destruct (bool_decide_reflect (trim_space (ob_Language o) = "")) as [HoL|HoL]; cbn [orb].
    { split; [by intros (c & ? & _)|]. intros (x' & [= <-] & _ & _ & [[? _]|(_ & o' & [= <-] & ? & _)]); congruence. }
    destruct (bool_decide_reflect (trim_space (ob_Tool o) = "")) as [HoT|HoT]; cbn [orb].
    { split; [by intros (c & ? & _)|]. intros (x' & [= <-] & _ & _ & [[? _]|(_ & o' & [= <-] & _ & ? & _)]); congruence. }
    destruct (decide (trim_space (ob_Language o) ≠ se_Language x)) as [Hne|Heq].
    { split; [by intros (c & ? & _)|]. intros (x' & [= <-] & _ & _ & [[? _]|(_ & o' & [= <-] & ? & _)]); congruence. }
    apply dec_stable in Heq.
    rewrite (normal_id (mkStackExpectation (se_Language x) (trim_space (ob_Tool o)) (se_Release x))).
    + split; [intros (c & [= <-] & <-); cbn; exists x; naive_solver|]. intros (x' & [= <-] & _ & _ & [[? _]|(_ & o' & [= <-] & _ & _ & ->)]); [done|]. eexists. by split.
    + split; cbn; [apply Hn|apply trim_space_idem|apply Hn|tauto].
  - rewrite (normal_id x Hn). split; [intros (c & [= <-] & <-); cbn; exists x; naive_solver|].
    intros (x' & [= <-] & _ & _ & [[_ ->]|[? _]]); [|done]. eexists. by split.
Qed.

Lemma observed_complete obs : observationComplete obs = true ↔
  ∃ o e, obs = Some o ∧ observationToStackExpectation (Some o) = Some e ∧ stackExpectationComplete (Some e) = true.
Proof using Type.
  unfold observationComplete. destruct obs as [o|]; [|cbn; naive_solver].
  destruct (observationToStackExpectation (Some o)) as [e|] eqn:E; [|cbn; naive_solver]. naive_solver.
Qed.

Lemma strict_context cfg obs err e :
  (∃ c, resolveStrictStackDetectContext cfg obs err = inl c ∧ gc_expectation c = e) ↔
  ∃ x o, configuredStackExpectation cfg = Some x ∧ obs = Some o ∧ err = None ∧
    observationToStackExpectation (Some o) = Some e ∧ stackExpectationComplete (Some e) = true ∧ agrees o x.
Proof using Type.
  unfold resolveStrictStackDetectContext. destruct (configuredStackExpectation cfg) as [x|] eqn:Ex; [|naive_solver].
  assert (StackExpectation_IsEmpty x = false) as ->.
  { apply not_true_is_false. unfold StackExpectation_IsEmpty. rewrite !andb_true_iff, !bool_decide_eq_true.
    pose proof (nm_some _ (configured_normal _ _ Ex)). tauto. }
  destruct err as [de|]; [naive_solver|]. cbn [bool_decide orb].
  destruct (bool_decide_reflect (is_Some (@None DetectErr))) as [[? ?]|_]; [done|]. cbn [orb].
  destruct (observationComplete obs) eqn:Ec; cbn [negb].
  - apply observed_complete in Ec as (o & e' & -> & He & Hc). rewrite He. cbn [mbind option_bind].
    rewrite (normal_id e' (observed_normal _ _ He)). pose proof (match_agrees o x false) as Hm.
    destruct (matchStackWithOptions _ _ _) as [[] reason]; cbn [fst] in Hm; [|naive_solver].
    split; [intros (c & [= <-] & <-); cbn; exists x, o; naive_solver|]. intros (x' & o' & [= <-] & [= <-] & _ & Ho & _). rewrite He in Ho.
    injection Ho as ->. eexists. by split.
  - split; [by intros (c & ? & _)|]. intros (x' & o & _ & -> & _ & He & Hc & _).
    assert (observationComplete (Some o) = true) by (apply observed_complete; eauto). congruence.
Qed.

Lemma fallback_context cfg obs err e :
  (∃ c, resolveFallbackStackDetectContext cfg obs err = inl c ∧ gc_expectation c = e) ↔
  ∃ x, configuredStackExpectation cfg = Some x ∧ stackExpectationComplete (Some x) = true ∧
    ((is_Some err ∨ observationComplete obs = false) ∧ e = x ∨
     ∃ o, obs = Some o ∧ err = None ∧ observationToStackExpectation (Some o) = Some e ∧ stackExpectationComplete (Some e) = true).
Proof using Type.
  unfold resolveFallbackStackDetectContext. destruct (configuredStackExpectation cfg) as [x|] eqn:Ex; [|cbn; naive_solver].
  destruct (stackExpectationComplete (Some x)) eqn:Hc; cbn [negb mbind option_bind].
  2: { split; [by intros (c & ? & _)|]. intros (x' & [= <-] & ? & _). congruence. }
  rewrite (normal_id x (configured_normal _ _ Ex)).
  destruct (bool_decide_reflect (is_Some err)) as [He|He]; cbn [orb].
  - split; [intros (c & [= <-] & <-); cbn; naive_solver|]. destruct He as [d ->].
    intros (x' & [= <-] & _ & [[_ ->]|(o & _ & ? & _)]); [|done]. eexists. by split.
  - destruct err; [by destruct He|]. destruct (observationComplete obs) eqn:Eo; cbn [negb].
    + apply observed_complete in Eo as (o & e' & -> & Heo & Hco). rewrite Heo. cbn [mbind option_bind].
      rewrite (normal_id e' (observed_normal _ _ Heo)).
      split; [intros (c & [= <-] & <-); cbn; naive_solver|].
      intros (x' & [= <-] & _ & [[[[? ?]|?] _]|(o' & [= <-] & _ & Ho & _)]); [done|done|]. rewrite Heo in Ho. injection Ho as ->. eexists. by split.
    + split; [intros (c & [= <-] & <-); cbn; naive_solver|].
      intros (x' & [= <-] & _ & [[_ ->]|(o & -> & _ & Ho & Hco)]); [eexists; by split|].
      assert (observationComplete (Some o) = true) by (apply observed_complete; eauto). congruence.
Qed.

Lemma plain_context ws spec obs err e :
  stackDetectMode (gs_StackDetect spec) ∉ ["forced"; "strict"; "fallback"] →
  (∃ c, resolveDetectedStackContext ws spec obs err = inl c ∧ gc_expectation c = e) ↔
  ∃ o, obs = Some o ∧ err = None ∧ observationToStackExpectation (Some o) = Some e ∧ se_Language e ≠ "" ∧ se_Release e ≠ "".
Proof using Type.
  intros Hmode. unfold resolveDetectedStackContext. rewrite !decide_False by set_solver.
  destruct (observationToStackExpectation obs) as [x|] eqn:Ex.
  2: { split; [by intros (c & ? & _)|]. intros (o & -> & _ & ? & _). congruence. }
  destruct obs as [o|]; [|done]. pose proof (observed_normal _ _ Ex) as Hn. rewrite normal_language, normal_release by done.
  destruct (bool_decide_reflect (is_Some err)) as [[d ->]|He]; cbn [orb]; [naive_solver|]. destruct err; [by destruct He|].
  destruct (bool_decide_reflect (se_Language x = "")) as [HL|HL]; cbn [orb].
  { split; [by intros (c & ? & _)|]. intros (o' & [= <-] & _ & Ho & ? & _). rewrite Ex in Ho. by injection Ho as ->. }
  destruct (bool_decide_reflect (se_Release x = "")) as [HR|HR]; cbn [orb].
  { split; [by intros (c & ? & _)|]. intros (o' & [= <-] & _ & Ho & _ & ?). rewrite Ex in Ho. by injection Ho as ->. }
  rewrite (normal_id x Hn). split; [intros (c & [= <-] & <-); cbn; exists o; naive_solver|].
  intros (o' & [= <-] & _ & Ho & _). rewrite Ex in Ho. injection Ho as ->. eexists. by split.
Qed.

(** What [resolveGateExecutionPlan] does before it looks for an image. *)
Definition settle (ws : Workspace) (spec : StepGateSpec) (path : string) : gateStackContext + gateExecutionTerminal :=
  if useForcedStackDetect spec then resolveForcedStackDetectContext ws (gs_StackDetect spec)
  else resolveGateStackContext ws spec (ws_Detect ws).1 (ws_Detect ws).2 path.

Ltac other_mode :=
  exfalso; match goal with Hn : stackDetectMode _ ∉ _, E : stackDetectMode _ = _ |- _ =>
    apply Hn; rewrite E; repeat first [left; reflexivity|right] end.

Lemma settle_spec ws spec path e : (∃ c, settle ws spec path = inl c ∧ gc_expectation c = e) ↔ settled spec ws e.
Proof using Type.
  unfold settle, useForcedStackDetect, resolveGateStackContext. destruct (stack_gate_mode spec) as [x|] eqn:Em; cbn [bool_decide andb].
  { rewrite bool_decide_eq_false_2 by done. cbn [andb]. rewrite stack_gate_context. split.
    - intros (o & Hx & Ho & He & Ha & Hr). eapply SettledGate; [exact Em|exact Hx| |exact Ha|exact Hr].
      by rewrite (surjective_pairing (ws_Detect ws)), Ho, He.
    - destruct 1; try congruence. match goal with H : ws_Detect ws = _ |- _ => rewrite H end. exists o. split_and!; try done; congruence. }
  rewrite bool_decide_eq_true_2 by done. cbn [andb].
  assert (Hforced : stackDetectMode (gs_StackDetect spec) = "forced" →
    ((∃ c, resolveForcedStackDetectContext ws (gs_StackDetect spec) = inl c ∧ gc_expectation c = e) ↔ settled spec ws e)).
  { intros Hf. rewrite forced_context. split.
    - intros (x & Hx & HL & HR & [[HT ->]|(HT & o & Ho & HoL & HoT & ->)]); [by eapply SettledForced|by eapply SettledForcedTool].
    - destruct 1; try congruence; try other_mode; (eexists; split_and!; [eassumption..|]); [by left|right; eauto 10]. }
  destruct (bool_decide_reflect (stackDetectMode (gs_StackDetect spec) = "forced")) as [Hf|Hf]; [by apply Hforced|].
  destruct (decide (stackDetectMode (gs_StackDetect spec) = "strict")) as [Hs|Hs].
  { unfold resolveDetectedStackContext. rewrite decide_False, decide_True by done. rewrite strict_context. split.
    - intros (x & o & Hx & Ho & He & Hoe & Hc & Ha). eapply SettledStrict; try done. by rewrite (surjective_pairing (ws_Detect ws)), Ho, He.
    - destruct 1; try congruence; try other_mode. match goal with H : ws_Detect ws = _ |- _ => rewrite H end. eauto 10. }
  destruct (decide (stackDetectMode (gs_StackDetect spec) = "fallback")) as [Hb|Hb].
  { unfold resolveDetectedStackContext. rewrite !decide_False, decide_True by done. rewrite fallback_context. split.
    - intros (x & Hx & Hc & [[He ->]|(o & Ho & He & Hoe & Hoc)]); [by eapply SettledFallbackConfigured|].
      eapply SettledFallbackDetected; try done. by rewrite (surjective_pairing (ws_Detect ws)), Ho, He.
    - destruct 1; try congruence; try other_mode; [|eauto 10]. match goal with H : ws_Detect ws = _ |- _ => rewrite H end. cbn [fst snd]. eauto 10. }
  assert (Hnone : stackDetectMode (gs_StackDetect spec) ∉ ["forced"; "strict"; "fallback"]) by set_solver.
  rewrite (plain_context _ _ _ _ _ Hnone). split.
  - intros (o & Ho & He & Hoe & HL & HR). eapply SettledDetected; try done. by rewrite (surjective_pairing (ws_Detect ws)), Ho, He.
  - destruct 1; try congruence. match goal with H : ws_Detect ws = _ |- _ => rewrite H end. eauto 10.
Qed.

End Plan.

(** ** Metadata on the wire *)

Section Wire.
Context `{GoFmt}.

(** The server reads the metadata back, and takes it when it is valid. *)
Lemma gate_meta_read m j : forallb (λ r, forallb failure_ints (scr_Failures r)) (bg_StaticChecks m) = true → gate_meta_json m = Some j →
  UnmarshalJobMeta j = if BuildGateStageMetadata_Validate m then Some (norm_meta (NewGateJobMeta (Some m))) else None.
Proof using Type.
  intros Hi. unfold gate_meta_json. destruct (enc_BuildGateStageMetadata m) as [d|] eqn:Ed; [|done]. intros [= <-].
  assert (Hd : d ≠ JNull) by (unfold enc_BuildGateStageMetadata in Ed; by destruct (if decide _ then _ else _); simplify_eq/=).
  assert (Hdec : dec_JobMeta (JObj [("kind", JStr JobKindGate); ("gate", d)]) (mkJobMeta "" None None "" None "")
    = Some (norm_meta (NewGateJobMeta (Some m)))).
  { unfold dec_JobMeta. erewrite dec_cons_str; [|reflexivity]. erewrite dec_obj_one; [|reflexivity]. unfold dec_field. cbn [jmt_GateMetadata].
    by rewrite dec_ptr_some, (bg_roundtrip m d Hi Ed). }
  unfold UnmarshalJobMeta. rewrite Hdec. cbn [mbind option_bind]. rewrite bool_decide_eq_false_2 by done. rewrite norm_valid.
  unfold JobMeta_Validate. cbn [NewGateJobMeta jmt_Kind jmt_GateMetadata jmt_Build jmt_MigStepIndex jmt_GateCycleName].
  rewrite !(bool_decide_eq_true_2 (_ = _)) by done. cbn [andb orb]. unfold JobKind_Valid.
  rewrite !(bool_decide_eq_true_2 (JobKindGate = JobKindGate)) by done. rewrite orb_true_r. cbn [orb andb].
  by destruct (BuildGateStageMetadata_Validate m).
Qed.

(** So it does from the text of the request, where bytes that are not UTF-8 are
    replaced: that changes no verdict. *)
Lemma gate_meta_read_clean m j : forallb (λ r, forallb failure_ints (scr_Failures r)) (bg_StaticChecks m) = true → gate_meta_json m = Some j →
  UnmarshalJobMeta (json_clean j)
  = if BuildGateStageMetadata_Validate m then Some (norm_meta (NewGateJobMeta (Some (clean_bg m)))) else None.
Proof using Type.
  intros Hi Hj. rewrite <-(clean_bg_valid m). apply gate_meta_read; [by rewrite <-Hi; apply clean_checks_ints|].
  unfold gate_meta_json in *. destruct (enc_BuildGateStageMetadata m) as [d|] eqn:Ed; [|done]. injection Hj as <-.
  rewrite (clean_enc_bg m d Ed). reflexivity.
Qed.

(** Statistics with metadata the server does not take. *)
Lemma invalid_meta_refused jobID header resume status exitCode s sha j :
  terminal_request_status status = true → rs_JobMeta s = Some j → j ≠ JNull → j ≠ JObj [] → UnmarshalJobMeta j = None →
  int64_opt (rs_DurationMs s) = true → rs_ResumeCount s = None → in_int64 resume = true →
  match rs_JobResources s with Some r => resources_ok r | None => true end = true →
  ∃ e, validateCompletionRequest jobID header (uploadStatus resume status exitCode (MustBuild s) sha) = inl e.
Proof using Type.
  intros Hst Hj Hn1 Hn2 Hu Hd Hr Hi Hres. unfold validateCompletionRequest, uploadStatus, buildJobStatusPayload. cbn [req_Status req_Stats].
  assert (Hparse : trim_space (JobStatus_String status) ≠ "" ∧ ParseJobStatus (trim_space (JobStatus_String status)) = Some status)
    by (destruct status; [done..|done]).
  destruct Hparse as [Hne Hps]. rewrite decide_False, Hps, Hst by done. cbn [negb].
  assert (Hdec : ∀ p, jsp_JobMeta p = Some j → ValidateJobMeta p = false).
  { intros p Hp. unfold ValidateJobMeta. rewrite Hp. destruct j as [| | | | |l|[|? ?]]; try done; by rewrite Hu. }
  pose proof (built_payload s Hd ltac:(by rewrite Hr) Hres) as Hb.
  assert (Hds : ∃ e, decode_stats (RawJson (JObj (if (0 <? resume)%Z then obj_set "resume_count" (JInt resume) (MustBuild s) else MustBuild s))) = inl e).
  { destruct (0 <? resume)%Z; [rewrite resume_appended by done|].
    - unfold decode_stats, dec_JobStatsPayload in *. rewrite dec_obj_app, Hb. cbn [mbind option_bind].
      erewrite dec_obj_one; [|reflexivity]. unfold dec_field, dec_int. rewrite Hi. cbn [fmap option_fmap option_map].
      rewrite Hdec; [by eexists|]. cbn. exact Hj.
    - unfold decode_stats. rewrite Hb, Hdec; [by eexists|exact Hj]. }
  destruct Hds as [e ->]. by exists e.
Qed.

(** A gate's report with metadata the server does not take. *)
Lemma unaccepted_refused jobID header resume meta req :
  node_report resume meta req → meta_accepted meta = false → in_int64 resume = true →
  ∃ e, validateCompletionRequest jobID header req = inl e.
Proof using Type.
  intros [| |passed repoSHA errorText resources m duration Hd Hres _] Hm Hi; [done|done|].
  destruct m as [j|]; [|done]. unfold gate_report. destruct passed; [destruct repoSHA|];
    (eapply (invalid_meta_refused _ _ _ _ _ _ _ j); try done; [by intros ->|by intros ->|];
     unfold meta_accepted, ValidateJobMeta in Hm; cbn in Hm; by repeat case_match).
Qed.

(** A request that does not validate is refused whatever happens to it. *)
Lemma invalid_refused `{Collation} mode jobID header req ds w :
  (DefaultMaxBodySize < body_size req)%N ∨ (∃ e, validateCompletionRequest jobID header req = inl e) →
  uploadJobStatus mode jobID header req ds w = (false, w).
Proof using Type.
  intros Hbad.
  assert (Hx : ∀ x, ∃ code, (code = 400 ∨ code = 413)%Z ∧ serve_complete jobID header req x w = (code, w)).
  { intros x. unfold serve_complete. destruct (N.ltb_spec DefaultMaxBodySize (body_size req)) as [Hl|Hge]; [exists 413%Z; by auto|].
    destruct Hbad as [Hl|[e He]]; [lia|]. exists 400%Z. split; [auto|]. unfold completeJobHandler. rewrite He. by destruct w. }
  unfold uploadJobStatus, postJSONWithRetry. generalize 1%Z. induction ds as [|d ds IH]; intros attempt; [done|].
  cbn [RunWithBackoff]. destruct d as [|x|x]; cbn [post_once]; [|destruct (Hx x) as (code & Hc & ->)..].
  - destruct (_ && _); [done|apply IH].
  - destruct (_ && _); [done|apply IH].
  - by destruct Hc as [-> | ->], mode.
Qed.

End Wire.

(** ** Sizes of texts *)

Lemma escape_length c : (1 ≤ length (escape c))%nat.
Proof. destruct c as [[] [] [] [] [] [] [] []]; apply Nat.leb_le; vm_compute; reflexivity. Qed.

Lemma quote_longer l : (length l ≤ length (quote l))%nat.
Proof.
  unfold quote. induction l as [l IH] using (induction_ltof1 _ length). destruct l as [|c l1]; [done|].
  assert (Hstep : ∀ r l', length l' < S (length l1) → length (c :: l1) = length r.2 + length l' →
    length r.2 ≤ length (quote_rune r) →
    length (c :: l1) ≤ length (concat (quote_rune <$> (r :: runes l')))).
  { intros r l' Hl Hlen Hq. cbn [fmap list_fmap concat]. rewrite length_app, Hlen.
    specialize (IH l' ltac:(unfold ltof; simpl; lia)). lia. }
  pose proof (escape_length c) as He. cbn [runes].
  repeat first
    [ case_match; subst
    | apply Hstep; [simpl; lia|simpl; lia|cbn [quote_rune snd length]; repeat case_decide; first [exact He|cbn; lia]]
    | cbn; lia ].
Qed.

Lemma join_longer c w ws : w ∈ ws → (length w ≤ length (join_bytes c ws))%nat.
Proof.
  induction ws as [|x ws IH]; [by intros ?%not_elem_of_nil|]. intros [->|Hw]%elem_of_cons; cbn [join_bytes]; destruct ws as [|y ws].
  - done.
  - rewrite length_app. lia.
  - by apply not_elem_of_nil in Hw.
  - specialize (IH Hw). rewrite length_app. cbn [length]. lia.
Qed.

Lemma render_element v l : v ∈ l → (length (render v) ≤ length (render (JArr l)))%nat.
Proof.
  intros Hv. cbn [render]. cbn [length]. rewrite length_app.
  enough (length (render v) ≤ length (join_bytes "," ((fix go (l : list json) : list bytes := match l with [] => [] | v :: l' => render v :: go l' end) l)))%nat by lia.
  apply join_longer. induction l as [|x l IH]; [by apply not_elem_of_nil in Hv|]. apply elem_of_cons in Hv as [->|Hv]; [left|right; by apply IH].
Qed.

Lemma render_field k v fs : (k, v) ∈ fs → (length (render v) ≤ length (render (JObj fs)))%nat.
Proof.
  intros Hv. cbn [render]. cbn [length]. rewrite length_app.
  assert (Hin : (quoted k ++ ":"%char :: render v) ∈ ((fix go (l : list (string * json)) : list bytes :=
    match l with [] => [] | (k, v) :: l' => (quoted k ++ ":"%char :: render v) :: go l' end) fs)).
  { induction fs as [|[k' v'] fs IH]; [by apply not_elem_of_nil in Hv|]. apply elem_of_cons in Hv as [[= <- <-]|Hv]; [left|right; by apply IH]. }
  pose proof (join_longer ","%char _ _ Hin) as Hl. rewrite length_app in Hl. cbn [length] in Hl. lia.
Qed.

(** ** Valid metadata *)

Definition visible (c : ascii) : bool := forallb (λ p, bool_decide (c ∉ p)) space_runes.

Lemma visible_first c s : visible c = true → blank (String c s) = false.
Proof. intros Hc. apply bool_decide_eq_false. eapply trim_space_not_blank; [|exact Hc]. left. Qed.

(** What the detection gives names its language and its tool; its errors say something. *)
Record telling (ws : Workspace) : Prop := {
  te_observation : ∀ o, (ws_Detect ws).1 = Some o ∨ (ws_DetectTool ws).1 = Some o → blank (ob_Language o) = false ∧ blank (ob_Tool o) = false;
  te_error : ∀ e, (ws_Detect ws).2 = Some e ∨ (ws_DetectTool ws).2 = Some e → blank (DetectErr_text e) = false
}.

Section Valid.
Context `{GoFmt} `{GateHost}.

Lemma failure_valid language tool code message evidence sg :
  blank tool = false → blank message = false → match sg with None => true | Some r => StackGateResult_Validate r end = true →
  BuildGateStageMetadata_Validate (gateFailureMetadata language tool code message evidence sg) = true.
Proof using Type.
  intros Ht Hm Hs. unfold BuildGateStageMetadata_Validate, gateFailureMetadata.
  cbn [bg_Detected bg_StaticChecks bg_LogFindings bg_StackGate bg_BugSummary forallb].
  unfold BuildGateStaticCheckReport_Validate, BuildGateLogFinding_Validate. cbn [scr_Tool scr_Failures lf_Message lf_Severity forallb].
  rewrite Ht, Hm, (visible_first "e" "rror") by (vm_compute; reflexivity). cbn [negb andb]. rewrite Hs. cbn [andb].
  by rewrite bool_decide_eq_true_2.
Qed.

Lemma stack_gate_failure_valid sg language code message evidence result image err :
  blank message = false → result ∈ ["pass"; "mismatch"; "unknown"] →
  BuildGateStageMetadata_Validate (gt_meta (stackGateFailureTerminal sg language code message evidence result image err)) = true.
Proof using Type.
  intros Hm Hr. unfold stackGateFailureTerminal. rewrite decide_False by (intros ->; set_solver). cbn [gt_meta].
  apply failure_valid; [by apply visible_first; vm_compute|done|]. unfold StackGateResult_Validate. cbn [sg_Enabled sg_Result].
  rewrite bool_decide_eq_true_2 by done. apply orb_true_r.
Qed.

Lemma mismatch_visible obs e opts reason : matchStackWithOptions obs e opts = (false, reason) → blank reason = false.
Proof using Type.
  unfold matchStackWithOptions. destruct e as [e|]; [|done]. destruct obs as [o|]; [|intros [= <-]; by apply visible_first; vm_compute].
  destruct (negb _ && negb _ && negb _); [done|]. intros [= <-].
  match goal with |- blank (if ?c then _ else _) = _ => destruct c end; by apply visible_first; vm_compute.
Qed.

Lemma detection_failure_err d m : gt_err (stackDetectionFailureTerminal d m) ≠ None.
Proof using Type. by destruct d as [[]|]. Qed.

(** A gate that ends early without an error has valid metadata. *)
Lemma settle_terminal_valid ws spec path t : telling ws → settle ws spec path = inr t → gt_err t = None →
  BuildGateStageMetadata_Validate (gt_meta t) = true.
Proof using Type.
  intros [_ Herr] E Hok. unfold settle in E. destruct (useForcedStackDetect spec).
  { unfold resolveForcedStackDetectContext, resolveForcedStackDetectToolContext in E. cbn zeta in E.
    repeat case_match; simplify_eq; try discriminate Hok; try (by apply detection_failure_err in Hok).
    apply failure_valid; [by apply visible_first; vm_compute|by apply visible_first; vm_compute|done]. }
  unfold resolveGateStackContext in E. destruct (stack_gate_mode spec) as [x|].
  { unfold resolveStackGateContext in E. destruct (NormalizeStackExpectation x) as [e|].
    2: { injection E as <-. apply stack_gate_failure_valid; [by apply visible_first; vm_compute|set_solver]. }
    destruct (ws_Detect ws).2 as [de|] eqn:Ed.
    { injection E as <-. apply stack_gate_failure_valid; [apply Herr; by left|set_solver]. }
    destruct (matchStack (ws_Detect ws).1 (Some e)) as [[] reason] eqn:Hmatch.
    - case_decide; [|done]. injection E as <-. apply stack_gate_failure_valid; [by apply visible_first; vm_compute|set_solver].
    - injection E as <-. apply stack_gate_failure_valid; [exact (mismatch_visible _ _ _ _ Hmatch)|set_solver]. }
  unfold resolveDetectedStackContext, resolveForcedStackDetectContext, resolveForcedStackDetectToolContext, resolveStrictStackDetectContext,
    resolveFallbackStackDetectContext in E. cbn zeta in E.
  repeat case_match; simplify_eq; try discriminate Hok; try (by apply detection_failure_err in Hok).
  all: apply failure_valid; [by apply visible_first; vm_compute| |done].
  all: first [by apply visible_first; vm_compute|by eapply mismatch_visible].
Qed.

(** The metadata of every early end. *)
Definition a_failure (t : gateExecutionTerminal) : Prop :=
  ∃ language tool code message evidence sg, gt_meta t = gateFailureMetadata language tool code message evidence sg.

Lemma gate_failure language tool code message evidence err image : a_failure (gateFailureTerminal language tool code message evidence err image).
Proof using Type. by repeat eexists. Qed.
Lemma stack_gate_failure sg language code message evidence result image err :
  a_failure (stackGateFailureTerminal sg language code message evidence result image err).
Proof using Type. unfold stackGateFailureTerminal. destruct (decide (result = "")); by repeat eexists. Qed.
Lemma detection_failure d m : a_failure (stackDetectionFailureTerminal d m).
Proof using Type. destruct d as [[]|]; by repeat eexists. Qed.
Lemma config_failure m : a_failure (gateStackConfigTerminal m).
Proof using Type. by repeat eexists. Qed.
#[local] Hint Resolve gate_failure stack_gate_failure detection_failure config_failure : core.

Lemma settle_terminal_failure ws spec path t : settle ws spec path = inr t → a_failure t.
Proof using Type.
  unfold settle, resolveGateStackContext, resolveStackGateContext, resolveDetectedStackContext, resolveForcedStackDetectContext,
    resolveForcedStackDetectToolContext, resolveStrictStackDetectContext, resolveFallbackStackDetectContext. cbn zeta.
  intros E. repeat case_match; simplify_eq; auto.
Qed.

Lemma image_terminal_valid c err : gt_err (imageResolutionTerminal c err) = None →
  BuildGateStageMetadata_Validate (gt_meta (imageResolutionTerminal c err)) = true.
Proof using Type.
  unfold imageResolutionTerminal. destruct (gc_stackGate c) as [sg|]; [|done]. intros _.
  destruct err; (apply stack_gate_failure_valid; [by apply visible_first; vm_compute|set_solver]).
Qed.

Lemma blank_trim s : blank (trim_space s) = blank s.
Proof using Type. unfold blank. by rewrite trim_space_idem. Qed.

(** A context of a stack gate that passed, or of none. *)
Record context_ok (c : gateStackContext) : Prop := {
  co_language : blank (gc_language c) = false;
  co_tool : blank (gc_tool c) = false;
  co_gate : match gc_stackGate c with Some sg => StackGateResult_Validate sg | None => true end = true
}.

Lemma detected_ok e : normal e → se_Language e ≠ "" → se_Tool e ≠ "" → context_ok (detected_context e).
Proof using Type.
  intros Hn HL HT. split; cbn; [rewrite normal_language by done|rewrite normal_tool by done|done]; by rewrite bool_decide_eq_false_2.
Qed.

Lemma observed_fields o e : observationToStackExpectation (Some o) = Some e → se_Language e = trim_space (ob_Language o) ∧ se_Tool e = trim_space (ob_Tool o).
Proof using Type. unfold observationToStackExpectation, NormalizeStackExpectation. cbn. case_decide; [done|]. by intros [= <-]. Qed.

(** Without a stack gate a context is its expectation. *)
Lemma settle_shape ws spec path c : stack_gate_mode spec = None → settle ws spec path = inl c → c = detected_context (gc_expectation c).
Proof using Type.
  intros Hnone E. unfold settle, resolveGateStackContext in E. rewrite Hnone in E.
  assert (Hforced : resolveForcedStackDetectContext ws (gs_StackDetect spec) = inl c → c = detected_context (gc_expectation c)).
  { unfold resolveForcedStackDetectContext, resolveForcedStackDetectToolContext. cbn zeta. intros E'. repeat case_match; by simplify_eq. }
  destruct (useForcedStackDetect spec); [by apply Hforced|]. unfold resolveDetectedStackContext in E.
  destruct (decide _); [by apply Hforced|]. destruct (decide _).
  { unfold resolveStrictStackDetectContext in E. cbn zeta in E. repeat case_match; by simplify_eq. }
  destruct (decide _).
  { unfold resolveFallbackStackDetectContext in E. cbn zeta in E. repeat case_match; by simplify_eq. }
  destruct (observationToStackExpectation (ws_Detect ws).1) as [x|] eqn:Ex; [|done].
  destruct (_ || _ || _) eqn:Eb; [done|]. apply orb_false_iff in Eb as [[_ Eb]%orb_false_iff _].
  pose proof (observed_normal _ _ Ex) as Hn. rewrite (normal_id x Hn) in E. injection E as <-. cbn [gc_expectation].
  unfold detected_context. f_equal.
  - rewrite (nm_language _ Hn). clear. destruct (decide (se_Language x = "")); reflexivity.
  - destruct (ws_Detect ws).1 as [o|]; [|done]. destruct (observed_fields _ _ Ex) as [_ HT]. cbn. rewrite <-HT. clear. destruct (decide (se_Tool x = "")); reflexivity.
Qed.

Lemma settle_context_ok ws spec path c : telling ws → settle ws spec path = inl c → context_ok c.
Proof using Type.
  intros [Hobs _] E. assert (Hs : settled spec ws (gc_expectation c)) by (apply (settle_spec _ _ path); eauto).
  assert (Hcomplete : ∀ e, normal e → stackExpectationComplete (Some e) = true → context_ok (detected_context e)).
  { intros e Hn Hc. apply complete_spec in Hc as (? & ? & ?); [by apply detected_ok|done]. }
  destruct (stack_gate_mode spec) as [x|] eqn:Em.
  { unfold settle, useForcedStackDetect, resolveGateStackContext in E. rewrite Em in E. rewrite bool_decide_eq_false_2 in E by done.
    inversion Hs as [x' e o Hx He Ho Ha Hr| | | | | |]; subst; try congruence. rewrite Ho in E, Hobs. cbn [fst snd andb] in E, Hobs.
    destruct (Hobs o (or_introl eq_refl)) as [HoL HoT]. unfold resolveStackGateContext in E. repeat case_match; simplify_eq.
    all: split; cbn; rewrite ?blank_trim; try done.
    all: match goal with H : NormalizeStackExpectation _ = Some ?e, Hne : se_Language ?e ≠ "" |- _ =>
           rewrite (normal_language _ (normalize_normal _ _ H)); by apply bool_decide_eq_false end. }
  rewrite (settle_shape _ _ _ _ Em E). inversion Hs as [| e Hm Hf Hx HL HT HR | x o Hm Hf Hx HL HT HR Ho HoL HoT | x o e Hm Hf Hx Ho He Hc Ha
    | x o e Hm Hf Hx Hc Ho He Hec | x Hm Hf Hx Hc Hd | o e Hm Hf Ho He HL HR]; try congruence.
  - apply detected_ok; [by eapply configured_normal|done|done].
  - pose proof (configured_normal _ _ Hx) as Hn. apply detected_ok; [split; cbn; [apply Hn|apply trim_space_idem|apply Hn|tauto]|done|done].
  - apply Hcomplete; [by eapply observed_normal|done].
  - apply Hcomplete; [by eapply observed_normal|done].
  - apply Hcomplete; [by eapply configured_normal|done].
  - apply detected_ok; [by eapply observed_normal|done|]. rewrite Ho in Hobs. destruct (Hobs o (or_introl eq_refl)) as [_ HT].
    destruct (observed_fields _ _ He) as [_ ->]. by apply bool_decide_eq_false in HT.
Qed.

End Valid.
