(* ===== verification/NodeClaim.v ===== *)
(** * What a node makes of a claim, and of the containers it finds
      ([internal/nodeagent/claimer_loop.go], [manifest.go], [crash_reconcile.go],
      [execution.go], [container_job.go])

    The node checks the spec of a claimed job once more, derives the stack expectations
    of steps from each other, and picks the step of the job. When it starts it looks for
    containers of earlier executions. *)

From stdpp Require Import base gmap sets list sorting strings.
From S2P Require Import Prelude GoStrings Types Json JobMeta Db Hydra Spec Claim Sse.
From Stdlib Require Import ZArith Lia.
Local Open Scope list_scope.

(** ** Stack gates of successive steps *)

Definition StackExpectation_Equal (x y : StackExpectation) : bool :=
  bool_decide (se_Language x = se_Language y) && bool_decide (se_Tool x = se_Tool y)
  && bool_decide (se_Release x = se_Release y).

Definition set_stack (g : StackGateSpec) (s : MigStep) : MigStep :=
  mkMigStep (step_Name s) (step_Image s) (step_Command s) (step_Envs s) (step_MountDockerSocket s) (step_Files s) (Some g).

(** The outbound gate of a step, when it is enabled. *)
Definition enabled_outbound (s : MigStep) : option StackGatePhaseSpec :=
  g ← step_Stack s; out ← sgs_Outbound g; if sgp_Enabled out then Some out else None.

(** A step after the one before it; [None] when their gates disagree. *)
Definition chain_step (prev curr : MigStep) : option MigStep :=
  match enabled_outbound prev with
  | None => Some curr
  | Some out =>
      let inbound := mkStackGatePhaseSpec (sgp_Enabled out) (sgp_Expect out) in
      match step_Stack curr with
      | None => Some (set_stack (mkStackGateSpec (Some inbound) None) curr)
      | Some g =>
          match sgs_Inbound g with
          | None => Some (set_stack (mkStackGateSpec (Some inbound) (sgs_Outbound g)) curr)
          | Some own =>
              if sgp_Enabled own && sgp_Enabled out
              then match sgp_Expect own, sgp_Expect out with
                   | Some x, Some y => if StackExpectation_Equal x y then Some curr else None
                   | _, _ => Some curr
                   end
              else Some curr
          end
      end
  end.

Fixpoint chain_steps (prev : MigStep) (l : list MigStep) : option (list MigStep) :=
  match l with
  | [] => Some []
  | s :: l' => s' ← chain_step prev s; rest ← chain_steps s' l'; Some (s' :: rest)
  end.

Definition validateAndDeriveStackGateChaining (steps : list MigStep) : option (list MigStep) :=
  match steps with [] => Some [] | s :: l => cons s <$> chain_steps s l end.

(** ** Chains of stack gates *)

(** The expectations of two successive steps contradict each other. *)
Definition gates_conflict (prev curr : MigStep) : bool :=
  match enabled_outbound prev, step_Stack curr ≫= sgs_Inbound with
  | Some out, Some own =>
      sgp_Enabled own && match sgp_Expect own, sgp_Expect out with
                         | Some x, Some y => negb (StackExpectation_Equal x y)
                         | _, _ => false
                         end
  | _, _ => false
  end.

(** [s'] is [s], or [s] with the outbound gate [out] of the step before as its inbound gate. *)
Definition derived (prev s s' : MigStep) : Prop :=
  s' = s ∨ ∃ out, enabled_outbound prev = Some out ∧ step_Stack s ≫= sgs_Inbound = None ∧
    s' = set_stack (mkStackGateSpec (Some out) (step_Stack s ≫= sgs_Outbound)) s.

(** What the outbound gate of a step promises, the next step expects. *)
Definition agree (prev curr : MigStep) : Prop :=
  ∀ out, enabled_outbound prev = Some out →
    ∃ own, step_Stack curr ≫= sgs_Inbound = Some own ∧
      (sgp_Enabled own = true → ∀ x y, sgp_Expect own = Some x → sgp_Expect out = Some y → x = y).

Lemma StackExpectation_Equal_eq x y : StackExpectation_Equal x y = true ↔ x = y.
Proof.
  unfold StackExpectation_Equal. rewrite !andb_true_iff, !bool_decide_eq_true.
  destruct x, y; cbn. split; [by intros [[-> ->] ->]|by intros [= -> -> ->]].
Qed.

Lemma enabled_outbound_on s out : enabled_outbound s = Some out → sgp_Enabled out = true.
Proof.
  unfold enabled_outbound. destruct (step_Stack s) as [g|]; [cbn|done]. destruct (sgs_Outbound g) as [o|]; [cbn|done].
  destruct (sgp_Enabled o) eqn:E; [by intros [= <-]|done].
Qed.

Lemma chain_step_spec prev s :
  match chain_step prev s with
  | None => gates_conflict prev s = true
  | Some s' => gates_conflict prev s = false ∧ derived prev s s' ∧ agree prev s'
  end.
Proof.
  unfold chain_step, gates_conflict, agree, derived.
  destruct (enabled_outbound prev) as [out|] eqn:Eo; [|by split_and!; auto].
  pose proof (enabled_outbound_on _ _ Eo) as Hon.
  assert (Hout : mkStackGatePhaseSpec (sgp_Enabled out) (sgp_Expect out) = out) by (by destruct out). rewrite Hout.
  destruct (step_Stack s) as [g|] eqn:Es; cbn [mbind option_bind].
  2: { split_and!; [done|right; by exists out|]. intros o [= <-]. exists out. split; [done|]. intros _ x y -> [= ->]. done. }
  destruct (sgs_Inbound g) as [own|] eqn:Ei.
  2: { split_and!; [done|right; by exists out|]. intros o [= <-]. exists out. split; [done|]. intros _ x y -> [= ->]. done. }
  rewrite Hon, andb_true_r. destruct (sgp_Enabled own) eqn:Eown; cbn [andb].
  2: { split_and!; [done|by left|]. intros o [= <-]. exists own. rewrite Es. cbn. split; [done|]. by rewrite Eown. }
  destruct (sgp_Expect own) as [x|] eqn:Ex, (sgp_Expect out) as [y|] eqn:Ey.
  1: destruct (StackExpectation_Equal x y) eqn:Exy; [apply StackExpectation_Equal_eq in Exy as ->|done].
  all: split_and!; [done|by left|].
  all: intros o [= <-]; exists own; rewrite Es; cbn; (split; [done|]); intros _ x' y'; rewrite Ex, Ey; congruence.
Qed.

Lemma derived_outbound prev s s' : derived prev s s' → enabled_outbound s' = enabled_outbound s.
Proof.
  intros [->|(out & _ & _ & ->)]; [done|]. unfold enabled_outbound, set_stack. cbn. by destruct (step_Stack s).
Qed.

(** Chaining a step that agrees already changes nothing. *)
Lemma chain_step_agree prev s : agree prev s → chain_step prev s = Some s.
Proof.
  unfold agree, chain_step. destruct (enabled_outbound prev) as [out|]; [|done]. intros Ha.
  destruct (Ha out eq_refl) as (own & Hown & Heq). destruct (step_Stack s) as [g|]; [|done]. cbn in Hown. rewrite Hown.
  destruct (sgp_Enabled own); [|done]. cbn [andb]. destruct (sgp_Enabled out); [|done].
  destruct (sgp_Expect own) as [x|], (sgp_Expect out) as [y|]; try done.
  by rewrite (proj2 (StackExpectation_Equal_eq x y) (Heq eq_refl _ _ eq_refl eq_refl)).
Qed.

(** A relation between the successive elements of a list. *)
Definition adjacent {A} (R : A → A → Prop) (l : list A) : Prop := ∀ i x y, l !! i = Some x → l !! S i = Some y → R x y.

Lemma adjacent_cons {A} (R : A → A → Prop) x y l : adjacent R (x :: y :: l) ↔ R x y ∧ adjacent R (y :: l).
Proof.
  split; [intros Ha; split; [by apply (Ha 0)|intros i; apply (Ha (S i))]|]. intros [Hxy Ha] [|i] a b; [|apply Ha].
  cbn. congruence.
Qed.

Lemma adjacent_single {A} (R : A → A → Prop) x : adjacent R [x].
Proof. by intros [|i] a b. Qed.

(** Two successive steps contradict each other. *)
Definition contradictory (l : list MigStep) : Prop :=
  ∃ i x y, l !! i = Some x ∧ l !! S i = Some y ∧ gates_conflict x y = true.

Lemma contradictory_cons x l : contradictory l → contradictory (x :: l).
Proof. intros (i & a & b & Ha & Hb & Hc). by exists (S i), a, b. Qed.

Lemma chain_steps_spec p p' l : enabled_outbound p' = enabled_outbound p →
  match chain_steps p' l with
  | None => contradictory (p :: l)
  | Some l' => adjacent (λ x y, gates_conflict x y = false) (p :: l) ∧ adjacent agree (p' :: l') ∧
      Forall2 (λ s s', ∃ q, derived q s s') l l' ∧ chain_steps p' l' = Some l'
  end.
Proof.
  revert p p'. induction l as [|s l IH]; intros p p' Ho; cbn [chain_steps].
  { split_and!; try apply adjacent_single; by constructor. }
  assert (Hc : gates_conflict p' s = gates_conflict p s) by (unfold gates_conflict; by rewrite Ho).
  pose proof (chain_step_spec p' s) as Hs. destruct (chain_step p' s) as [s'|]; cbn [mbind option_bind].
  2: { exists 0, p, s. by rewrite <-Hc. }
  destruct Hs as (Hno & Hd & Hag). specialize (IH s s' (derived_outbound _ _ _ Hd)).
  destruct (chain_steps s' l) as [l'|] eqn:El; cbn [mbind option_bind].
  - destruct IH as (Hadj & Hagr & Hf & Hid). split_and!.
    + apply adjacent_cons. split; [by rewrite <-Hc|done].
    + by apply adjacent_cons.
    + constructor; [by eexists|done].
    + cbn [chain_steps]. rewrite (chain_step_agree _ _ Hag). cbn. by rewrite Hid.
  - by apply contradictory_cons.
Qed.

Lemma chaining_spec steps :
  match validateAndDeriveStackGateChaining steps with
  | None => contradictory steps
  | Some l => adjacent (λ x y, gates_conflict x y = false) steps ∧ adjacent agree l ∧
      Forall2 (λ s s', ∃ q, derived q s s') steps l ∧ validateAndDeriveStackGateChaining l = Some l
  end.
Proof.
  destruct steps as [|s l]; cbn [validateAndDeriveStackGateChaining].
  { split_and!; [by intros [|i]|by intros [|i]|constructor|done]. }
  pose proof (chain_steps_spec s s l eq_refl) as Hs. destruct (chain_steps s l) as [l'|]; cbn; [|done].
  destruct Hs as (Ha & Hg & Hf & Hid). split_and!; [done|done| |by rewrite Hid].
  constructor; [exists s; by left|done].
Qed.

(** ** The answer to a claim *)

Record StartRunRequest := mkStartRunRequest {
  sr_ResumeCount : Z; sr_RunID : string; sr_JobID : string; sr_RepoID : string; sr_RepoURL : string;
  sr_BaseRef : string; sr_CommitSHA : string; sr_RepoSHAIn : string; sr_JobType : string;
  sr_NextID : option string; sr_JobName : string; sr_MigContext : option Z;
  sr_DetectedStack : option StackExpectation; sr_MigSpec : option MigSpec; sr_Env : gmap string string;
  sr_ServerURL : string
}.

(** The error, if any. *)
Definition validateStartRunRequest (req : StartRunRequest) : option string :=
  if IsZero (sr_RunID req) then Some "run_id is required"
  else if IsZero (sr_JobID req) then Some "job_id is required"
  else if IsZero (sr_JobType req) then Some "job_type is required"
  else match validate (sr_JobType req) : option JobType with
       | None => Some "job_type invalid"
       | Some _ => if decide (trim_space (sr_RepoURL req) = "") then Some "repo_url is required" else None
       end.

(** No answer, or a status with a body; a body that cannot be decoded is [None]. *)
Inductive ClaimReply := ClaimNoReply | ClaimStatus (code : Z) (body : option NodeClaimResponse).

(** No work; an error, with whether a job had been claimed; a job to start. *)
Inductive ClaimOutcome := NoWork | ClaimFailed (claimed : bool) | StartJob (req : StartRunRequest).

Section Claim.
Context `{GoFmt} `{SpecLib}.

Definition set_steps (l : list MigStep) (s : MigSpec) : MigSpec :=
  mkMigSpec (spec_JobID s) (spec_APIVersion s) (spec_Name s) (spec_Description s) l (spec_Envs s)
    (spec_BuildGate s) (spec_BundleMap s).

Definition parseSpec (spec : raw) : option (option MigSpec) :=
  match spec with
  | RawEmpty => Some None
  | _ => match ParseMigSpecJSON spec with inl _ => None | inr s => Some (Some s) end
  end.

Definition claimAndExecute (serverURL : string) (reply : ClaimReply) : ClaimOutcome :=
  match reply with
  | ClaimNoReply => ClaimFailed false
  | ClaimStatus code body =>
      if decide (code = 204)%Z then NoWork
      else if decide (code ≠ 200)%Z then ClaimFailed false
      else match body with
           | None => ClaimFailed false
           | Some claim =>
               match parseSpec (RawJson (ncr_Spec claim)) with
               | None => ClaimFailed true
               | Some spec =>
                   match (match spec with
                          | None => Some None
                          | Some s => (λ l, Some (set_steps l s)) <$> validateAndDeriveStackGateChaining (spec_Steps s)
                          end) with
                   | None => ClaimFailed true
                   | Some spec' =>
                       StartJob (mkStartRunRequest (ncr_ResumeCount claim) (ncr_RunID claim) (ncr_JobID claim)
                         (ncr_RepoID claim) (ncr_RepoURL claim) (ncr_BaseRef claim) (ncr_CommitSHA claim)
                         (ncr_RepoSHAIn claim) (JobType_String (ncr_JobType claim)) (ncr_NextID claim) (ncr_JobName claim)
                         (ncr_MigContext claim) (ncr_DetectedStack claim) spec' ∅ serverURL)
                   end
               end
           end
  end.

End Claim.

(** ** The step of a job *)

Definition migStepIndexFromJobName (jobName : string) (stepsLen : Z) : option Z :=
  let name := trim_space jobName in
  if decide (stepsLen ≤ 1)%Z then Some 0%Z
  else if negb (has_prefix name "mig-") then None
  else idx ← ParseInt64 (trim_prefix name "mig-");
       if decide (idx < 0 ∨ stepsLen ≤ idx)%Z then None else Some idx.

(** The index [executeMigJob] works with, or an error. *)
Definition mig_step_index (req : StartRunRequest) : option Z :=
  match sr_MigSpec req with
  | None => Some 0%Z
  | Some spec =>
      let len := Z.of_nat (length (spec_Steps spec)) in
      if decide (len = 0)%Z then Some 0%Z
      else idx ← (match sr_MigContext req with Some i => Some i | None => migStepIndexFromJobName (sr_JobName req) len end);
           if decide (idx < 0 ∨ len ≤ idx)%Z then None else Some idx
  end.

(** ** Containers of earlier executions *)

Definition LabelRunID : string := "com.ploy.run_id".
Definition LabelJobID : string := "com.ploy.job_id".
Definition LabelResumeCount : string := "com.ploy.resume_count".
Definition LabelJobResource : string := "com.ploy.job_resource".

Record recoveredContainer := mkRecovered { rc_ResumeCount : Z; rc_ContainerID : string; rc_RunID : string; rc_JobID : string }.

Definition ployContainerIdentity (labels : gmap string string) : option (string * string) :=
  let runID := trim_space (default "" (labels !! LabelRunID)) in
  let jobID := trim_space (default "" (labels !! LabelJobID)) in
  if IsZero runID || IsZero jobID then None else Some (runID, jobID).

Definition isTerminalContainerStatus (status : string) : bool :=
  bool_decide (to_lower (trim_space status) ∈ ["exited"; "dead"]).

(** The state of a container; [cst_FinishedAt] is its timestamp, when there is one. *)
Record ContainerState := mkContainerState { cst_Running : bool; cst_Status : string; cst_FinishedAt : option Z }.

Record startupCrashSnapshot := mkSnapshot { sn_Running : list recoveredContainer; sn_RecentTerminal : list recoveredContainer }.

(** What becomes of one container: an error, or whether it runs, ended lately, or neither. *)
Inductive Found := FoundError | FoundRunning (c : recoveredContainer) | FoundTerminal (c : recoveredContainer) | FoundNothing.

Section Discover.
(** [ContainerInspect]: [None] is an error, [Some None] no state. *)
Context (inspect : string → option (option ContainerState)).

Definition resume_label (labels : gmap string string) : option Z :=
  let raw := default "" (labels !! LabelResumeCount) in
  if decide (raw = "") then Some 0%Z
  else n ← ParseInt64 raw; if decide (n < 0)%Z then None else Some n.

Definition discover_one (cutoff : Z) (c : string * gmap string string) : Found :=
  let '(id, labels) := c in
  if decide (labels !! LabelJobResource = Some "true") then FoundNothing
  else match ployContainerIdentity labels with
       | None => FoundNothing
       | Some (runID, jobID) =>
           match resume_label labels with
           | None => FoundError
           | Some count =>
               match inspect id with
               | None => FoundError
               | Some None => FoundNothing
               | Some (Some st) =>
                   let rec := mkRecovered count id runID jobID in
                   if cst_Running st then FoundRunning rec
                   else if negb (isTerminalContainerStatus (cst_Status st)) then FoundNothing
                   else match cst_FinishedAt st with
                        | None => FoundNothing
                        | Some t => if decide (t < cutoff)%Z then FoundNothing else FoundTerminal rec
                        end
               end
           end
       end.

Fixpoint discover_all (cutoff : Z) (l : list (string * gmap string string)) : option startupCrashSnapshot :=
  match l with
  | [] => Some (mkSnapshot [] [])
  | c :: l' =>
      match discover_one cutoff c with
      | FoundError => None
      | FoundNothing => discover_all cutoff l'
      | FoundRunning r => (λ s, mkSnapshot (r :: sn_Running s) (sn_RecentTerminal s)) <$> discover_all cutoff l'
      | FoundTerminal r => (λ s, mkSnapshot (sn_Running s) (r :: sn_RecentTerminal s)) <$> discover_all cutoff l'
      end
  end.

Definition by_container : relation recoveredContainer := λ x y, str_ltb (rc_ContainerID y) (rc_ContainerID x) = false.

#[export] Instance by_container_dec : RelDecision by_container.
Proof. intros x y. unfold by_container. apply _. Defined.

(** [listed] is [None] when the containers cannot be listed; times are in microseconds. *)
Definition Discover (now window : Z) (listed : option (list (string * gmap string string))) : option startupCrashSnapshot :=
  let window' := if decide (0 < window)%Z then window else 120000000%Z in
  items ← listed;
  s ← discover_all (now - window') items;
  Some (mkSnapshot (merge_sort by_container (sn_Running s)) (merge_sort by_container (sn_RecentTerminal s))).

End Discover.
