(* ===== verification/NodeManifest.v ===== *)
(** * Manifests of jobs ([internal/nodeagent/manifest.go], [stack_runtime_env.go], [gate_job.go],
      [internal/workflow/contracts/step_manifest.go], [envutil.go])

    A node turns a request into a manifest: the image, the command, the environment and the
    files of the container, and the gate that goes with it. *)

From stdpp Require Import base gmap sets list strings.
From S2P Require Import Prelude GoStrings Types Json JobMeta Db Hydra Spec Claim.
From S2P Require Import NodeClaim GateImage GatePlan.
From Stdlib Require Import ZArith Lia.
Local Open Scope list_scope.

(** ** Environments *)

Definition CopyEnv (env : gmap string string) : gmap string string := env.

Definition MergeEnv (base override : gmap string string) : gmap string string := override ∪ base.

Definition PLOYStackLanguageEnv : string := "PLOY_STACK_LANGUAGE".
Definition PLOYStackToolEnv : string := "PLOY_STACK_TOOL".
Definition PLOYStackReleaseEnv : string := "PLOY_STACK_RELEASE".

Definition set_unless_empty (k v : string) (env : gmap string string) : gmap string string :=
  if decide (v = "") then env else <[k := v]> env.

Definition injectStackTupleEnv (env : gmap string string) (exp : option StackExpectation) : gmap string string :=
  match exp ≫= NormalizeStackExpectation with
  | None => env
  | Some e => set_unless_empty PLOYStackReleaseEnv (se_Release e) (set_unless_empty PLOYStackToolEnv (se_Tool e)
                (set_unless_empty PLOYStackLanguageEnv (se_Language e) env))
  end.

Definition injectNodeOwnedRepoEnv (env : gmap string string) (req : StartRunRequest) : gmap string string :=
  <["PLOY_REPO_SOURCE_SHA" := trim_space (sr_CommitSHA req)]> (<["PLOY_REPO_REF" := trim_space (sr_BaseRef req)]>
    (<["PLOY_REPO_URL" := trim_space (sr_RepoURL req)]> env)).

Definition injectNodeOwnedMigEnv (env : gmap string string) (req : StartRunRequest) : gmap string string :=
  set_unless_empty "PLOY_SERVER_URL" (trim_space (sr_ServerURL req)) env.

(** ** Stacks *)

Definition StackExpectationFromMigStack (stack : string) : option StackExpectation :=
  if decide (stack = "java-maven") then Some (mkStackExpectation "java" "maven" "")
  else if decide (stack = "java-gradle") then Some (mkStackExpectation "java" "gradle" "")
  else if decide (stack = "java") then Some (mkStackExpectation "java" "java" "")
  else None.

Definition stackExpectationForRequest (req : StartRunRequest) (fallback : string) : option StackExpectation :=
  match sr_DetectedStack req ≫= NormalizeStackExpectation with
  | Some e => Some e
  | None => StackExpectationFromMigStack fallback ≫= NormalizeStackExpectation
  end.

(** [strings.EqualFold] of an ASCII word. *)
Definition migStackFromExpectation (exp : option StackExpectation) : string :=
  match exp ≫= NormalizeStackExpectation with
  | None => MigStackUnknown
  | Some e => if decide (fold_key (se_Language e) = "java") then ToolToMigStack (se_Tool e) else MigStackUnknown
  end.

Definition resolveManifestStack (req : StartRunRequest) (fallback : string) : string :=
  let stack := migStackFromExpectation (sr_DetectedStack req) in
  if decide (stack = MigStackUnknown) then fallback else stack.

(** ** Manifests *)

Record RepoMaterialization := mkRepoMaterialization { rm_URL : string; rm_BaseRef : string; rm_Commit : string }.

(** The one input of a job is the checkout of its repository, mounted at [/workspace]. *)
Record StepManifest := mkStepManifest {
  man_ID : string; man_Name : string; man_Image : string; man_Command : list string; man_WorkingDir : string;
  man_Envs : gmap string string; man_Repo : RepoMaterialization; man_Gate : StepGateSpec;
  man_MountDockerSocket : bool; man_OptJobID : option string;
  man_Files : HydraFileKind → list string; man_BundleMap : gmap string string
}.

Definition defaultImage : string := "ubuntu:latest".

Section Manifest.
Context `{GateHost}.

(** [inl] is an error; its text stops where the source quotes the stack that has no image. *)
Definition resolveImage (img : JobImage) (stack : string) (stackExp : option StackExpectation) (label : string) : string + string :=
  if JobImage_IsEmpty img then inl (label +:+ ": image required")
  else match ResolveImage img stack with
       | None => inl (label +:+ " image resolution")
       | Some resolved =>
           match ExpandImageTemplate resolved stackExp with
           | inl err => inl (label +:+ " image template expansion: " +:+ err)
           | inr expanded =>
               let resolved := trim_space expanded in
               if decide (resolved = "") then inl (label +:+ ": image required") else inr resolved
           end
       end.

Definition manifest_image (step : option MigStep) (stack : string) (stackExp : option StackExpectation) (useMigrationCommand : bool) : string + string :=
  match step with
  | Some s => if useMigrationCommand && negb (JobImage_IsEmpty (step_Image s)) then resolveImage (step_Image s) stack stackExp "step" else inr defaultImage
  | None => inr defaultImage
  end.

Definition manifest_env (req : StartRunRequest) (step : option MigStep) (stackExp : option StackExpectation) : gmap string string :=
  let env := CopyEnv (sr_Env req) in
  let env := match sr_MigSpec req with Some spec => MergeEnv env (spec_Envs spec) | None => env end in
  let env := match step with Some s => MergeEnv env (step_Envs s) | None => env end in
  <["PLOY_JOB_ID" := sr_JobID req]> (injectNodeOwnedMigEnv (injectNodeOwnedRepoEnv (injectStackTupleEnv env stackExp) req) req).

Definition gate_ref (req : StartRunRequest) : string :=
  if decide (trim_space (sr_CommitSHA req) = "") then trim_space (sr_BaseRef req) else trim_space (sr_CommitSHA req).

Definition buildManifest (req : StartRunRequest) (step : option MigStep) (stack : string) (stackGate : option StackGatePhaseSpec)
    (useMigrationCommand : bool) : string + StepManifest :=
  if IsZero (sr_RunID req) then inl "run_id required"
  else if IsZero (sr_JobID req) then inl "job_id required"
  else if blank (sr_RepoURL req) then inl "repo_url required"
  else
    let stackExp := stackExpectationForRequest req stack in
    match manifest_image step stack stackExp useMigrationCommand with
    | inl err => inl err
    | inr image =>
        let command := match step with Some s => if useMigrationCommand then CommandSpec_ToSlice (step_Command s) else [] | None => [] end in
        let env := manifest_env req step stackExp in
        let gate := match sr_MigSpec req ≫= spec_BuildGate with Some bg => (negb (bgc_Disabled bg), bgc_Images bg) | None => (true, []) end in
        inr (mkStepManifest (sr_JobID req) ("Run " +:+ sr_RunID req) image
               (if bool_decide (command = []) && bool_decide (image = defaultImage) then ["/bin/sh"; "-c"; "echo 'Build gate placeholder'"] else command)
               "/workspace" env (mkRepoMaterialization (sr_RepoURL req) (sr_BaseRef req) (sr_CommitSHA req))
               (mkStepGateSpec gate.1 env gate.2 None (trim_space (sr_RepoURL req)) (sr_RepoID req) (gate_ref req) stackGate)
               (from_option step_MountDockerSocket false step)
               (sr_MigSpec req ≫= λ spec, if IsZero (spec_JobID spec) then None else Some (spec_JobID spec))
               (from_option step_Files (λ _, []) step) (from_option spec_BundleMap ∅ (sr_MigSpec req)))
    end.

Definition buildMigManifest (req : StartRunRequest) (stepIndex : Z) (stack : string) : string + StepManifest :=
  match sr_MigSpec req with
  | None => buildManifest req None stack None true
  | Some spec =>
      if decide (stepIndex < 0 ∨ Z.of_nat (length (spec_Steps spec)) ≤ stepIndex)%Z then inl "step index out of range"
      else buildManifest req (spec_Steps spec !! Z.to_nat stepIndex) stack None true
  end.

Definition buildGateManifest (req : StartRunRequest) (stackGate : option StackGatePhaseSpec) : string + StepManifest :=
  let step := match sr_MigSpec req with Some spec => match spec_Steps spec with [s] => Some s | _ => None end | None => None end in
  buildManifest req step MigStackUnknown stackGate false.

End Manifest.

(** ** The gate of a job *)

Definition stackGatePhaseForJob (steps : list MigStep) (jobType : JobType) : option StackGatePhaseSpec :=
  phase ← (match jobType with
           | JobTypePreGate => s ← head steps; g ← step_Stack s; sgs_Inbound g
           | JobTypePostGate => s ← last steps; g ← step_Stack s; sgs_Outbound g
           | JobTypeMig => None
           end);
  if sgp_Enabled phase then Some phase else None.

Definition set_stack_detect (cfg : BuildGateStackConfig) (g : StepGateSpec) : StepGateSpec :=
  mkStepGateSpec (gs_Enabled g) (gs_Env g) (gs_ImageOverrides g) (Some cfg) (gs_RepoURL g) (gs_RepoID g) (gs_Ref g) (gs_StackGate g).

Definition ApplyBuildGatePhaseToGateSpec (g : StepGateSpec) (phase : option BuildGatePhaseConfig) : StepGateSpec :=
  match phase ≫= bpc_Stack with
  | Some cfg => if decide (bsc_Mode cfg = "") then g else set_stack_detect cfg g
  | None => g
  end.

(** The gate of the manifest, with the policy of its phase. *)
Definition applyGatePhaseOverrides (g : StepGateSpec) (req : StartRunRequest) (jobType : JobType) : StepGateSpec :=
  match sr_MigSpec req ≫= spec_BuildGate with
  | None => g
  | Some bg =>
      match jobType with
      | JobTypePreGate => ApplyBuildGatePhaseToGateSpec g (bgc_Pre bg)
      | JobTypePostGate => ApplyBuildGatePhaseToGateSpec g (bgc_Post bg)
      | JobTypeMig => g
      end
  end.

(** What [executeGateJob] runs: the gate of a job, or an error. *)
Definition gate_of_job `{GateHost} (req : StartRunRequest) (jobType : JobType) : string + StepGateSpec :=
  match buildGateManifest req (stackGatePhaseForJob (from_option spec_Steps [] (sr_MigSpec req)) jobType) with
  | inl err => inl err
  | inr man => inr (applyGatePhaseOverrides (man_Gate man) req jobType)
  end.

(** ** Facts *)

(** The keys a node sets itself: those of the stack, and all of them. *)
Definition node_stack (stackExp : option StackExpectation) : list (string * string) :=
  match stackExp ≫= NormalizeStackExpectation with
  | None => []
  | Some e => (if decide (se_Release e = "") then [] else [(PLOYStackReleaseEnv, se_Release e)])
                ++ (if decide (se_Tool e = "") then [] else [(PLOYStackToolEnv, se_Tool e)])
                ++ (if decide (se_Language e = "") then [] else [(PLOYStackLanguageEnv, se_Language e)])
  end.

Definition node_owned (req : StartRunRequest) (stackExp : option StackExpectation) : list (string * string) :=
  ("PLOY_JOB_ID", sr_JobID req)
  :: (if decide (trim_space (sr_ServerURL req) = "") then [] else [("PLOY_SERVER_URL", trim_space (sr_ServerURL req))])
  ++ ("PLOY_REPO_SOURCE_SHA", trim_space (sr_CommitSHA req)) :: ("PLOY_REPO_REF", trim_space (sr_BaseRef req))
  :: ("PLOY_REPO_URL", trim_space (sr_RepoURL req)) :: node_stack stackExp.

(** A value of the job: the node's, or else the step's, the spec's, the request's. *)
Definition env_value (req : StartRunRequest) (step : option MigStep) (stackExp : option StackExpectation) (k : string) : option string :=
  match (list_to_map (node_owned req stackExp) : gmap string string) !! k with
  | Some v => Some v
  | None => match step ≫= λ s, step_Envs s !! k with
            | Some v => Some v
            | None => match sr_MigSpec req ≫= λ spec, spec_Envs spec !! k with
                      | Some v => Some v
                      | None => sr_Env req !! k
                      end
            end
  end.

(** Putting a variable on top of the node's own keeps the rest below. *)
Lemma own_insert k v l (base : gmap string string) :
  <[k := v]> (list_to_map l ∪ base) = list_to_map ((k, v) :: l) ∪ base.
Proof. by rewrite list_to_map_cons, insert_union_l. Qed.

Lemma own_set k v l (base : gmap string string) :
  set_unless_empty k v (list_to_map l ∪ base) = list_to_map ((if decide (v = "") then [] else [(k, v)]) ++ l) ∪ base.
Proof. unfold set_unless_empty. case_decide; [done|apply own_insert]. Qed.

Lemma own_stack stackExp (base : gmap string string) :
  injectStackTupleEnv base stackExp = list_to_map (node_stack stackExp) ∪ base.
Proof.
  unfold injectStackTupleEnv, node_stack. destruct (stackExp ≫= NormalizeStackExpectation) as [e|];
    [|by rewrite list_to_map_nil, (left_id_L ∅ (∪))].
  replace base with (list_to_map [] ∪ base) at 1 by (by rewrite list_to_map_nil, (left_id_L ∅ (∪))).
  by rewrite !own_set, app_nil_r.
Qed.

Lemma manifest_env_value req step stackExp k : manifest_env req step stackExp !! k = env_value req step stackExp k.
Proof.
  unfold manifest_env, env_value, node_owned, injectNodeOwnedMigEnv, injectNodeOwnedRepoEnv.
  rewrite own_stack, !own_insert, own_set, own_insert, lookup_union.
  set (own := list_to_map _ !! k). clearbody own. unfold MergeEnv, CopyEnv.
  destruct own as [w|], step as [st|], (sr_MigSpec req) as [spec|]; cbn [mbind option_bind]; rewrite ?lookup_union;
    repeat match goal with |- context [?m !! k] => destruct (m !! k) end; done.
Qed.

(** What a manifest holds when one is built. *)
Lemma buildManifest_shape `{GateHost} req step stack sg mig man :
  buildManifest req step stack sg mig = inr man →
  manifest_image step stack (stackExpectationForRequest req stack) mig = inr (man_Image man) ∧
  man_Envs man = manifest_env req step (stackExpectationForRequest req stack) ∧
  gs_Env (man_Gate man) = man_Envs man ∧ gs_StackGate (man_Gate man) = sg.
Proof.
  unfold buildManifest. intros Hb.
  destruct (IsZero (sr_RunID req)), (IsZero (sr_JobID req)), (blank (sr_RepoURL req)); try discriminate.
  destruct (manifest_image _ _ _ _) as [e|image] eqn:Hi; [discriminate|]. by injection Hb as <-.
Qed.

Lemma manifest_image_named `{GateHost} step stack exp mig image :
  manifest_image step stack exp mig = inr image → image ≠ "".
Proof.
  unfold manifest_image, resolveImage. intros Hm. repeat (case_match; simplify_eq; try done).
Qed.
