(* ===== verification/Compose.v ===== *)
(** * Composition of specs from files ([internal/speccompiler/includes.go],
      [repository_source.go], the paths of [refs.go])

    A spec may be written in several YAML files: a scalar tagged [!include] stands for
    another file or a part of it, and a key [<<] merges mappings into the one that has it,
    deeply. Local paths in an included part are relative to the file that declares them and
    are rewritten to be relative to the spec that includes it.

    Files are what the YAML library makes of them: trees. An alias carries the node it
    names. In the program it shares the node with its anchor, which comes first in the
    document and is composed before it; composing a composed node changes nothing
    ([resolve_free], [expand_expands], [expand_expanded]). A document with an anchor that
    contains an alias to itself, on which the program does not end, is no tree. Styles, comments, and tags of sequences and mappings
    have no effect here and are left out. *)

From stdpp Require Import base gmap sets list strings.
From S2P Require Import Prelude GoStrings Types Json JobMeta Hydra Sse GateImage.
From Stdlib Require Import ZArith Lia Ascii.
Local Open Scope list_scope.

(** ** Paths ([path/filepath]) *)

Definition is_rooted (l : bytes) : bool := bool_decide (head l = Some slash).

(** What [Clean] keeps of a path, first component first. *)
Definition clean_parts (l : bytes) : list bytes := reverse (foldl (clean_step (is_rooted l)) [] (split_bytes slash l)).

(** [filepath.Join] of two elements. *)
Definition join_path (base p : string) : string :=
  if decide (base = "") then if decide (p = "") then "" else path_clean p
  else if decide (p = "") then path_clean base
  else path_clean (base +:+ "/" +:+ p).

(** Split before the last occurrence of a byte. *)
Definition cut_last (c : ascii) (l : bytes) : option (bytes * bytes) :=
  (λ p, (reverse p.2, reverse p.1)) <$> cut_bytes c (reverse l).

(** [filepath.Dir] *)
Definition dir (p : string) : string :=
  match cut_last slash (to_bytes p) with
  | Some (front, _) => path_clean (of_bytes (front ++ [slash]))
  | None => "."
  end.

Fixpoint strip_common (xs ys : list bytes) : list bytes * list bytes :=
  match xs, ys with
  | x :: xs', y :: ys' => if decide (x = y) then strip_common xs' ys' else (xs, ys)
  | _, _ => (xs, ys)
  end.

Definition dotdot : bytes := to_bytes "..".

(** [filepath.Rel], [None] where it is an error. *)
Definition rel_path (base targ : string) : option string :=
  let b := to_bytes base in
  let t := to_bytes targ in
  if decide (is_rooted b = is_rooted t ∧ clean_parts b = clean_parts t) then Some "."
  else if bool_decide (is_rooted b ≠ is_rooted t) then None
  else
    let '(up, down) := strip_common (clean_parts b) (clean_parts t) in
    if decide (head up = Some dotdot) then None
    else Some (of_bytes (join_bytes slash (replicate (length up) dotdot ++ down))).

Definition is_abs (p : string) : bool := is_rooted (to_bytes p).

(** ** Paths of a repository *)

(** The path below the root of the checkout, which is absolute. *)
Definition relative (root path : string) : option string :=
  rel ← rel_path root path;
  if bool_decide (rel = "..") || has_prefix rel "../" then None else Some rel.

Definition resolve (root path baseDir : string) : option string :=
  let raw := trim_space path in
  if decide (raw = "") then None
  else if is_abs raw then None
  else if bool_decide (raw = "~") || has_prefix raw "~/" then None
  else if contains raw "$" then None
  else
    let base := if blank baseDir then root else baseDir in
    let candidate := path_clean (join_path base raw) in
    match relative root candidate with None => None | Some _ => Some candidate end.

(** ** Rebasing of local paths *)

Definition rebaseLocalSourcePath (sourcePath outputBaseDir path : string) : string :=
  let resolved := path_clean (join_path (dir sourcePath) path) in
  default resolved (rel_path outputBaseDir resolved).

Definition normalizeLocalSourcePath (sourcePath outputBaseDir raw : string) : string :=
  let trimmed := trim_space raw in
  if bool_decide (trimmed = "") || has_prefix trimmed "$" || has_prefix trimmed "~/" || is_abs trimmed then trimmed
  else if contains trimmed (of_bytes ["010"%char]) || contains trimmed (of_bytes ["013"%char]) then trimmed
  else rebaseLocalSourcePath sourcePath outputBaseDir trimmed.

Definition rebaseMountEntrySource (kind : HydraFileKind) (entry sourcePath outputBaseDir : string) : string :=
  let body0 := trim_space entry in
  if decide (body0 = "") then entry
  else
    let '(body, suffix) :=
      if bool_decide (kind = HydraFileHome) && has_suffix body0 ":ro" then (trim_suffix body0 ":ro", ":ro") else (body0, "") in
    let hashed := match cut body colon with Some (h, _) => negb (bool_decide (h = "")) && IsHydraShortHash h | None => false end in
    if hashed then entry
    else match cut_last colon (to_bytes body) with
         | Some (src, dst) =>
             match src with
             | [] => entry
             | _ => normalizeLocalSourcePath sourcePath outputBaseDir (trim_space (of_bytes src)) +:+ ":" +:+ of_bytes dst +:+ suffix
             end
         | None => entry
         end.

(** ** Facts on paths *)

Lemma clean_parts_bytes l : clean_bytes l =
  if is_rooted l then slash :: join_bytes slash (clean_parts l)
  else if decide (join_bytes slash (clean_parts l) = []) then to_bytes "." else join_bytes slash (clean_parts l).
Proof. done. Qed.

Lemma strip_common_app xs ys : let '(up, down) := strip_common xs ys in ∃ pre, xs = pre ++ up ∧ ys = pre ++ down.
Proof.
  revert ys. induction xs as [|x xs IH]; intros [|y ys]; cbn [strip_common]; try (by exists []).
  case_decide as E; [|by exists []]. subst y. specialize (IH ys). destruct (strip_common xs ys) as [up down].
  destruct IH as (pre & -> & ->). by exists (x :: pre).
Qed.

(** The parts of a rooted path are plain. *)
Definition part (w : bytes) : Prop := plain w ∧ slash ∉ w.

Lemma rooted_fold_plain ws st : Forall (λ w, slash ∉ w) ws → Forall part st → Forall part (foldl (clean_step true) st ws).
Proof.
  intros Hw. revert st. induction Hw as [|w ws Hs _ IH]; intros st Hst; [done|]. cbn [foldl]. apply IH. unfold clean_step.
  case_decide as H1; [done|]. case_decide as H2.
  - destruct Hst as [|p st [(? & ? & Hp) ?] Hst]; [constructor|]. by rewrite decide_False by done.
  - constructor; [|done]. split; [|done]. unfold plain. tauto.
Qed.

Lemma rooted_parts l : is_rooted l = true → Forall part (clean_parts l).
Proof.
  intros Hr. unfold clean_parts. rewrite Hr. apply Forall_reverse. apply rooted_fold_plain; [apply split_bytes_free|constructor].
Qed.

(** Plain components are pushed, [..] pops. *)
Lemma fold_parts rooted ws st : Forall part ws → foldl (clean_step rooted) st ws = reverse ws ++ st.
Proof.
  intros Hw. revert st. induction Hw as [|w ws [(H1 & H2 & H3) _] _ IH]; intros st; [done|]. cbn [foldl]. rewrite IH. unfold clean_step.
  rewrite decide_False by tauto. rewrite decide_False by done. by rewrite reverse_cons, <-app_assoc.
Qed.

Lemma fold_up ws st : Forall part ws → foldl (clean_step true) (ws ++ st) (replicate (length ws) dotdot) = st.
Proof.
  intros Hw. induction Hw as [|w ws [(_ & _ & H3) _] _ IH]; [done|]. cbn [length replicate foldl app]. unfold clean_step at 2.
  rewrite decide_False by (intros [?|?]; done). rewrite decide_True by done. by rewrite decide_False.
Qed.

Definition parts (p : string) : list bytes := clean_parts (to_bytes p).

(** An absolute path with given parts. *)
Definition rooted_path (ws : list bytes) : string := of_bytes (slash :: join_bytes slash ws).

Lemma clean_rooted_path p : is_abs p = true → path_clean p = rooted_path (parts p).
Proof. intros Hr. unfold path_clean, rooted_path. rewrite clean_parts_bytes. unfold is_abs in Hr. by rewrite Hr. Qed.

Lemma abs_rooted_path ws : is_abs (rooted_path ws) = true.
Proof. unfold is_abs, rooted_path. by rewrite to_of. Qed.

Lemma parts_rooted_path ws : Forall part ws → parts (rooted_path ws) = ws.
Proof.
  intros Hw. pose proof (abs_rooted_path ws) as Ha. unfold is_abs in Ha. unfold parts, clean_parts. rewrite Ha. unfold rooted_path. rewrite to_of.
  change (slash :: join_bytes slash ws) with ([] ++ slash :: join_bytes slash ws). rewrite split_app by apply not_elem_of_nil. cbn [foldl].
  assert (E : clean_step true [] [] = []) by done. rewrite E. destruct ws as [|w ws]; [done|].
  rewrite split_join; [|done|eapply Forall_impl; [exact Hw|by intros ? [? ?]]]. by rewrite fold_parts, app_nil_r, reverse_involutive.
Qed.

Lemma abs_parts p : is_abs p = true → Forall part (parts p).
Proof. apply rooted_parts. Qed.

Lemma parts_clean p : is_abs p = true → parts (path_clean p) = parts p ∧ is_abs (path_clean p) = true.
Proof. intros Ha. rewrite clean_rooted_path by done. split; [by apply parts_rooted_path, abs_parts|apply abs_rooted_path]. Qed.

Lemma split_concat c l1 l2 : split_bytes c (l1 ++ c :: l2) = split_bytes c l1 ++ split_bytes c l2.
Proof.
  induction l1 as [|x l1 IH]; cbn [app split_bytes]; [by rewrite decide_True|]. case_decide; [by rewrite IH|]. rewrite IH.
  pose proof (split_bytes_ne c l1). by destruct (split_bytes c l1).
Qed.

(** Walking along a path from a directory. *)
Definition walk (base : list bytes) (p : string) : list bytes := reverse (foldl (clean_step true) (reverse base) (split_bytes slash (to_bytes p))).

Lemma walk_parts base p : Forall part base → Forall part (walk base p).
Proof. intros Hb. apply Forall_reverse, rooted_fold_plain; [apply split_bytes_free|by apply Forall_reverse]. Qed.

Lemma join_walk base p : is_abs base = true → p ≠ "" → parts (join_path base p) = walk (parts base) p ∧ is_abs (join_path base p) = true.
Proof.
  intros Ha Hp. unfold join_path. rewrite decide_False by (by intros ->). rewrite decide_False by done.
  assert (Hr : is_abs (base +:+ "/" +:+ p) = true).
  { unfold is_abs, is_rooted in *. apply bool_decide_eq_true in Ha. apply bool_decide_eq_true. rewrite to_bytes_app. by destruct (to_bytes base). }
  destruct (parts_clean _ Hr) as [-> ->]. split; [|done]. unfold parts, walk, clean_parts. unfold is_abs in *. rewrite Hr, Ha.
  rewrite reverse_involutive, !to_bytes_app. change (to_bytes "/" ++ to_bytes p) with (slash :: to_bytes p). by rewrite split_concat, foldl_app.
Qed.

(** A relative path leads from the base to the target. *)
Lemma rel_walk base targ r : is_abs base = true → is_abs targ = true → rel_path base targ = Some r → walk (parts base) r = parts targ ∧ r ≠ "".
Proof.
  intros Hb Ht. unfold rel_path. unfold is_abs in *. rewrite Hb, Ht. fold (parts base). fold (parts targ).
  destruct (decide (true = true ∧ parts base = parts targ)) as [[_ E]|Hne].
  - intros [= <-]. rewrite <-E. split; [|done]. unfold walk.
    change (split_bytes slash (to_bytes ".")) with [to_bytes "."]. cbn [foldl]. unfold clean_step. rewrite decide_True by auto. by rewrite reverse_involutive.
  - cbn [bool_decide]. rewrite bool_decide_eq_false_2 by tauto. pose proof (strip_common_app (parts base) (parts targ)) as Hs.
    destruct (strip_common (parts base) (parts targ)) as [up down]. destruct Hs as (pre & Eb & Et). case_decide; [done|]. intros [= <-].
    assert (Hpb : Forall part (parts base)) by (by apply rooted_parts). assert (Hpt : Forall part (parts targ)) by (by apply rooted_parts).
    rewrite Eb, Forall_app in Hpb. rewrite Et, Forall_app in Hpt.
    assert (Hl : replicate (length up) dotdot ++ down ≠ []) by (intros E; apply app_eq_nil in E as [E ->]; destruct up; [|done]; rewrite Eb, Et in Hne; naive_solver).
    assert (Hf : Forall (λ w, slash ∉ w) (replicate (length up) dotdot ++ down)).
    { apply Forall_app. split; [apply Forall_replicate; by apply (bool_decide_unpack _)|]. eapply Forall_impl; [apply Hpt|by intros ? [? ?]]. }
    unfold walk. rewrite to_of, split_join by done. rewrite foldl_app, Eb, reverse_app, <-(length_reverse up), fold_up by (apply Forall_reverse; tauto).
    rewrite fold_parts by tauto. rewrite reverse_app, !reverse_involutive, Et. split; [done|].
    intros E. apply (f_equal to_bytes) in E. rewrite to_of, ?length_reverse in E. pose proof (split_join slash _ Hl Hf) as Hsj. rewrite E in Hsj. cbn in Hsj.
    destruct up as [|u up]; [|done]. cbn in Hsj. rewrite <-Hsj in Hpt. destruct Hpt as [_ Hd]. inversion Hd as [|? ? [(Hn & _) _] _]. done.
Qed.

Lemma cut_last_Some c l f b : cut_last c l = Some (f, b) → l = f ++ c :: b.
Proof.
  unfold cut_last. destruct (cut_bytes c (reverse l)) as [[x y]|] eqn:E; [|done]. intros [= <- <-]. apply cut_Some in E as [E _].
  apply (f_equal reverse) in E. rewrite reverse_involutive in E. by rewrite E, reverse_app, reverse_cons, <-app_assoc.
Qed.

Lemma dir_abs p : is_abs p = true → is_abs (dir p) = true.
Proof.
  intros Ha. unfold dir. destruct (cut_last slash (to_bytes p)) as [[f b]|] eqn:E.
  - apply cut_last_Some in E. apply parts_clean. unfold is_abs, is_rooted in *. rewrite to_of. rewrite E in Ha. by destruct f.
  - exfalso. unfold is_abs, is_rooted in Ha. apply bool_decide_eq_true in Ha. unfold cut_last in E. apply fmap_None, cut_None in E.
    apply E, elem_of_reverse. destruct (to_bytes p); [done|]. injection Ha as ->. left.
Qed.

Lemma rel_total base targ : is_abs base = true → is_abs targ = true → is_Some (rel_path base targ).
Proof.
  intros Hb Ht. unfold rel_path. unfold is_abs in *. rewrite Hb, Ht. case_decide; [by eexists|]. rewrite bool_decide_eq_false_2 by tauto.
  pose proof (strip_common_app (clean_parts (to_bytes base)) (clean_parts (to_bytes targ))) as Hs.
  destruct (strip_common _ _) as [up down]. destruct Hs as (pre & Eb & _). case_decide as Hu; [|by eexists].
  pose proof (rooted_parts _ Hb) as Hp. rewrite Eb in Hp. apply Forall_app in Hp as [_ Hp]. destruct Hp as [|u up' [(_ & _ & Hd) _] _]; [done|].
  by injection Hu.
Qed.

(** Rebasing keeps the file a path names. *)
Lemma rebase_same_file source out p : is_abs source = true → is_abs out = true → p ≠ "" →
  path_clean (join_path out (rebaseLocalSourcePath source out p)) = path_clean (join_path (dir source) p).
Proof.
  intros Hs Ho Hp. unfold rebaseLocalSourcePath. apply dir_abs in Hs. destruct (join_walk _ p Hs Hp) as [Ew Ea].
  destruct (parts_clean _ Ea) as [Ec Eca]. destruct (rel_total out _ Ho Eca) as [r E].
  rewrite E. cbn [default from_option id]. apply rel_walk in E as [E Hr]; [|done..]. destruct (join_walk out r Ho Hr) as [Ew' Ea'].
  rewrite (clean_rooted_path (join_path out r)), (clean_rooted_path (join_path (dir source) p)) by done. by rewrite Ew', E, Ec.
Qed.

(** What is resolved lies below the root. *)
Lemma relative_below root p r : is_abs root = true → is_abs p = true → relative root p = Some r → parts root `prefix_of` parts p.
Proof.
  intros Hr Hp. unfold relative. destruct (rel_path root p) as [x|] eqn:E; [|done]. cbn [mbind option_bind].
  destruct (bool_decide (x = "..") || has_prefix x "../") eqn:Hx; [done|]. intros _. revert E.
  unfold rel_path. unfold is_abs in *. rewrite Hr, Hp. fold (parts root). fold (parts p). destruct (decide (true = true ∧ parts root = parts p)) as [[_ ->]|Hd]; [done|].
  rewrite bool_decide_eq_false_2 by tauto. pose proof (strip_common_app (parts root) (parts p)) as Hs.
  destruct (strip_common (parts root) (parts p)) as [up down]. destruct Hs as (pre & Eb & Et). destruct (decide (head up = Some dotdot)); [done|]. intros [= <-].
  destruct up as [|u up]; [rewrite Eb, app_nil_r, Et; by apply prefix_app_r|]. exfalso. apply orb_false_iff in Hx as [H1 H2].
  cbn [length replicate app] in H1, H2. apply bool_decide_eq_false in H1. destruct (replicate (length up) dotdot ++ down) as [|w ws]; [by apply H1|].
  apply Bool.not_true_iff_false in H2. apply H2, has_prefix_spec. rewrite to_of. eexists. cbn [join_bytes app]. done.
Qed.

(** ** Documents *)

Inductive ynode :=
| YScalar (tag value : string)
| YSeq (l : list ynode)
| YMap (l : list (ynode * ynode))
| YAlias (anchor : string) (target : ynode).

(** [Value] of a node: empty for sequences and mappings, the name of the anchor for an alias. *)
Definition node_value (n : ynode) : string :=
  match n with YScalar _ v => v | YAlias a _ => a | _ => "" end.

Definition is_scalar (n : ynode) : bool := match n with YScalar _ _ => true | _ => false end.

Definition derefAlias (n : ynode) : ynode := match n with YAlias _ t => t | _ => n end.

Section YInd.
Context (P : ynode → Prop) (Hs : ∀ t v, P (YScalar t v)) (Hq : ∀ l, Forall P l → P (YSeq l)).
Context (Hm : ∀ l, Forall (λ kv, P kv.1 ∧ P kv.2) l → P (YMap l)) (Ha : ∀ a t, P t → P (YAlias a t)).

Fixpoint ynode_nested (n : ynode) : P n :=
  match n with
  | YScalar t v => Hs t v
  | YSeq l => Hq l ((fix go l : Forall P l := match l with [] => Forall_nil_2 _ | x :: l' => Forall_cons_2 _ _ _ (ynode_nested x) (go l') end) l)
  | YMap l => Hm l ((fix go l : Forall (λ kv, P kv.1 ∧ P kv.2) l :=
      match l with [] => Forall_nil_2 _ | (k, v) :: l' => Forall_cons_2 _ (k, v) _ (conj (ynode_nested k) (ynode_nested v)) (go l') end) l)
  | YAlias a t => Ha a t (ynode_nested t)
  end.
End YInd.

(** A file as the two parsers see it: as JSON and as a document of YAML. *)
Record SpecFile := mkSpecFile { sf_json : option json; sf_yaml : option ynode }.

(** A [Source]: what a reference written in a directory names, the files, the directories. *)
Record Source := mkSource {
  src_ResolveReference : string → string → option string;
  src_files : gmap string SpecFile;
  src_dirs : gset string
}.

Inductive IncludeError :=
| IncEmptyPath | IncUnresolved (path : string) | IncFragment | IncPointer (pointer : string)
| IncUnread (file : string) | IncCycle (cycle : list string) | IncMerge | IncFuel.

(** ** Includes *)

Definition hash_sign : ascii := "#"%char.

Definition parseIncludeRef (src : Source) (sourcePath raw : string) : IncludeError + string * string :=
  let value := trim_space raw in
  if decide (value = "") then inl IncEmptyPath
  else
    let '(pathPart, pointer) := match cut value hash_sign with Some (p, q) => (trim_space p, trim_space q) | None => (value, "") end in
    if decide (pathPart = "") then inl IncEmptyPath
    else match src_ResolveReference src pathPart (dir sourcePath) with
         | None => inl (IncUnresolved pathPart)
         | Some file => if negb (bool_decide (pointer = "")) && negb (has_prefix pointer "/") then inl IncFragment else inr (file, pointer)
         end.

(** [strings.ReplaceAll] *)
Definition replace_all (s old new : string) : string :=
  replaced (λ _ : unit, new) (find_all (λ l, (λ rest, ((), rest)) <$> strip (to_bytes old) l) s).

Definition decodePointerPart (value : string) : string := replace_all (replace_all value "~1" "/") "~0" "~".

Definition has_key (key : string) (kv : ynode * ynode) : bool := is_scalar kv.1 && bool_decide (node_value kv.1 = key).

Definition pointerStep (n : ynode) (token : string) : option ynode :=
  match n with
  | YMap l => snd <$> head (filter (λ kv, has_key token kv = true) l)
  | YSeq l => i ← ParseInt64 token; if decide (i < 0)%Z then None else l !! Z.to_nat i
  | _ => None
  end.

Definition selectNode (root : ynode) (pointer : string) : option ynode :=
  if decide (pointer = "") then Some root
  else foldl (λ cur p, cur ≫= λ n, pointerStep n (decodePointerPart p)) (Some root) (split (trim_prefix pointer "/") slash).

(** The part of the stack from the first occurrence of the target, and the target. *)
Definition includeCycle (stack : list string) (target : string) : option (list string) :=
  (λ x, drop x.1 stack ++ [target]) <$> list_find (eq target) stack.

(** *** Local paths of an included part *)

Definition on_scalar (f : string → string) (n : ynode) : ynode :=
  match n with YScalar t v => YScalar t (f v) | YAlias a (YScalar t v) => YAlias a (YScalar t (f v)) | _ => n end.

Definition normalizeMountEntries (kind : HydraFileKind) (sourcePath out : string) (n : ynode) : ynode :=
  let f := fmap (on_scalar (λ v, rebaseMountEntrySource kind v sourcePath out)) in
  match n with YSeq l => YSeq (f l) | YAlias a (YSeq l) => YAlias a (YSeq (f l)) | _ => n end.

Definition ref_value (sourcePath out value : string) : string :=
  let raw := trim_space value in
  match cut_last colon (to_bytes raw) with
  | Some ((_ :: _) as p, q) =>
      let pathPart := trim_space (of_bytes p) in
      let stepName := trim_space (of_bytes q) in
      if bool_decide (pathPart = "") || bool_decide (stepName = "") || is_abs pathPart then value
      else rebaseLocalSourcePath sourcePath out pathPart +:+ ":" +:+ stepName
  | _ => value
  end.

Definition normalizeRefEntry (sourcePath out : string) (n : ynode) : ynode := on_scalar (ref_value sourcePath out) n.

(** The value of a key, its own parts normalised already. *)
Definition normalize_value (sourcePath out : string) (key value : ynode) : ynode :=
  match key with
  | YScalar _ k =>
      let v := match head (filter (λ kind, HydraFileKind_String kind = k) HydraFileKinds) with
               | Some kind => normalizeMountEntries kind sourcePath out value
               | None => value
               end in
      if decide (k = "ref") then normalizeRefEntry sourcePath out v else v
  | _ => value
  end.

Fixpoint normalizeIncludedLocalPaths (sourcePath out : string) (n : ynode) : ynode :=
  match n with
  | YScalar _ _ => n
  | YSeq l => YSeq (normalizeIncludedLocalPaths sourcePath out <$> l)
  | YMap l => YMap ((λ kv, (kv.1, normalize_value sourcePath out kv.1 (normalizeIncludedLocalPaths sourcePath out kv.2))) <$> l)
  | YAlias a t => YAlias a (normalizeIncludedLocalPaths sourcePath out t)
  end.

(** *** Replacement of includes *)

Definition target_id (file pointer : string) : string := if decide (pointer = "") then file else file +:+ "#" +:+ pointer.

(** The document of a file. The spec itself is kept under its own path and changes while its
    includes are replaced: [current] is what it is at the time. *)
Definition loadYAMLFromCache (src : Source) (rootPath : string) (current : ynode) (file : string) : IncludeError + ynode :=
  if decide (file = rootPath) then inr current
  else match src_files src !! file ≫= sf_yaml with Some y => inr y | None => inl (IncUnread file) end.

(** The children of a node in order, each with the ones before it already replaced. *)
Definition each {A} (f : (A → ynode) → A → IncludeError + A) (whole : list A → ynode) : list A → list A → IncludeError + list A :=
  fix go done todo :=
    match todo with
    | [] => inr []
    | x :: todo' =>
        match f (λ y, whole (done ++ y :: todo')) x with
        | inl e => inl e
        | inr x' => match go (done ++ [x']) todo' with inl e => inl e | inr l => inr (x' :: l) end
        end
    end.

(** What an include stands for: the part with its paths rebased, the file it is in, its name. *)
Definition included (src : Source) (rootPath sourcePath : string) (stack : list string) (current : ynode) (value : string) :
    IncludeError + ynode * string * string :=
  match parseIncludeRef src sourcePath value with
  | inl e => inl e
  | inr (file, pointer) =>
      match includeCycle stack (target_id file pointer) with
      | Some cycle => inl (IncCycle cycle)
      | None =>
          match loadYAMLFromCache src rootPath current file with
          | inl e => inl e
          | inr root =>
              match selectNode root pointer with
              | None => inl (IncPointer pointer)
              | Some selected => inr (normalizeIncludedLocalPaths file (dir rootPath) selected, file, target_id file pointer)
              end
          end
      end
  end.

(** [n] bounds the depth of includes within includes; [context y] is the spec when the node
    at hand is replaced by [y]. *)
Fixpoint resolveIncludes (src : Source) (rootPath : string) (n : nat) (sourcePath : string) (stack : list string)
    (context : ynode → ynode) (node : ynode) {struct n} : IncludeError + ynode :=
  (fix go context node {struct node} :=
     match node with
     | YScalar tag value =>
         if decide (tag = "!include") then
           match included src rootPath sourcePath stack (context node) value with
           | inl e => inl e
           | inr (replacement, file, id) =>
               match n with
               | 0 => inl IncFuel
               | S n' => resolveIncludes src rootPath n' file (stack ++ [id]) (λ _, context node) replacement
               end
           end
         else inr node
     | YAlias a t => match go (λ y, context (YAlias a y)) t with inl e => inl e | inr t' => inr (YAlias a t') end
     | YSeq l => match each go (λ l', context (YSeq l')) [] l with inl e => inl e | inr l' => inr (YSeq l') end
     | YMap l =>
         match each (λ ctx kv, match go (λ k, ctx (k, kv.2)) kv.1 with
                               | inl e => inl e
                               | inr k => match go (λ v, ctx (k, v)) kv.2 with inl e => inl e | inr v => inr (k, v) end
                               end) (λ l', context (YMap l')) [] l with
         | inl e => inl e
         | inr l' => inr (YMap l')
         end
     end) context node.

(** ** Merge keys *)

Definition merge_key : string := "<<".

(** The value at a key of a mapping, the first one that has it. *)
Definition find_key (key : string) (l : list (ynode * ynode)) : option ynode := snd <$> head (filter (λ kv, has_key key kv = true) l).

(** The value at the first occurrence of a key replaced. *)
Fixpoint put_key (key : string) (v : ynode) (l : list (ynode * ynode)) : list (ynode * ynode) :=
  match l with
  | [] => []
  | kv :: l' => if has_key key kv then (kv.1, v) :: l' else kv :: put_key key v l'
  end.

Definition str_key (key : string) : ynode := YScalar "!!str" key.

Definition map_of (n : ynode) : option (list (ynode * ynode)) := match derefAlias n with YMap l => Some l | _ => None end.

(** [setOrDeepMergeKey] and, for a mapping, [mergeMappingInto]. *)
Fixpoint setOrDeepMergeKey (dst : list (ynode * ynode)) (key : string) (overlay : ynode) {struct overlay} : list (ynode * ynode) :=
  let into := fix into (src dst : list (ynode * ynode)) : list (ynode * ynode) :=
    match src with [] => dst | kv :: src' => into src' (setOrDeepMergeKey dst (node_value kv.1) kv.2) end in
  match find_key key dst with
  | None => dst ++ [(str_key key, overlay)]
  | Some existing =>
      put_key key (match overlay, map_of existing with
                   | YMap src, Some base => YMap (into src base)
                   | YAlias _ (YMap src), Some base => YMap (into src base)
                   | _, _ => overlay
                   end) dst
  end.

Definition mergeMappingInto (dst src : list (ynode * ynode)) : list (ynode * ynode) :=
  foldl (λ acc kv, setOrDeepMergeKey acc (node_value kv.1) kv.2) dst src.

Definition collectMergeSources (n : ynode) : option (list (list (ynode * ynode))) :=
  match derefAlias n with
  | YMap l => Some [l]
  | YSeq l => mapM map_of l
  | _ => None
  end.

(** One entry of a mapping, its parts expanded already. *)
Definition merge_entry (acc : option (list (ynode * ynode))) (kv : ynode * ynode) : option (list (ynode * ynode)) :=
  merged ← acc;
  if has_key merge_key kv
  then sources ← collectMergeSources kv.2; Some (foldl mergeMappingInto merged sources)
  else Some (setOrDeepMergeKey merged (node_value kv.1) kv.2).

Fixpoint expandDeepMergeKeys (n : ynode) : option ynode :=
  match n with
  | YScalar _ _ => Some n
  | YAlias a t => YAlias a <$> expandDeepMergeKeys t
  | YSeq l => YSeq <$> mapM expandDeepMergeKeys l
  | YMap l =>
      l' ← mapM (λ kv, k ← expandDeepMergeKeys kv.1; v ← expandDeepMergeKeys kv.2; Some (k, v)) l;
      YMap <$> foldl merge_entry (Some []) l'
  end.

(** ** The whole composition *)

(** The includes of a document. *)
Fixpoint include_values (n : ynode) : list string :=
  match n with
  | YScalar tag v => if decide (tag = "!include") then [v] else []
  | YSeq l => l ≫= include_values
  | YMap l => l ≫= λ kv, include_values kv.1 ++ include_values kv.2
  | YAlias _ t => include_values t
  end.

(** What an include of a file may have become by rebasing. *)
Definition variants (out file value : string) : list string :=
  value :: ref_value file out value :: ((λ k, rebaseMountEntrySource k value file out) <$> HydraFileKinds).

Definition doc_targets (src : Source) (out file : string) (doc : ynode) : list string :=
  include_values doc ≫= λ v, variants out file v ≫= λ w,
    match parseIncludeRef src file w with inr (f, p) => [target_id f p] | inl _ => [] end.

(** All that can be included. *)
Definition all_targets (src : Source) (rootPath : string) (root : ynode) : list string :=
  doc_targets src (dir rootPath) rootPath root
  ++ (map_to_list (src_files src) ≫= λ fd, from_option (doc_targets src (dir rootPath) fd.1) [] (sf_yaml fd.2)).

(** A chain of includes never repeats, so it is no longer than the list of targets. *)
Definition composeSpecYAML (src : Source) (rootPath : string) (root : ynode) : IncludeError + ynode :=
  match resolveIncludes src rootPath (length (all_targets src rootPath root)) rootPath [rootPath] id root with
  | inl e => inl e
  | inr n => match expandDeepMergeKeys n with Some n' => inr n' | None => inl IncMerge end
  end.

(** ** Facts on includes *)

Section Resolve.
Context (src : Source) (rootPath : string).

Lemma resolve_scalar n sp stack ctx tag v :
  resolveIncludes src rootPath n sp stack ctx (YScalar tag v) =
  if decide (tag = "!include") then
    match included src rootPath sp stack (ctx (YScalar tag v)) v with
    | inl e => inl e
    | inr (r, file, id) =>
        match n with 0 => inl IncFuel | S n' => resolveIncludes src rootPath n' file (stack ++ [id]) (λ _, ctx (YScalar tag v)) r end
    end
  else inr (YScalar tag v).
Proof. by destruct n. Qed.

Lemma resolve_alias n sp stack ctx a t :
  resolveIncludes src rootPath n sp stack ctx (YAlias a t) =
  match resolveIncludes src rootPath n sp stack (λ y, ctx (YAlias a y)) t with inl e => inl e | inr t' => inr (YAlias a t') end.
Proof. by destruct n. Qed.

Lemma resolve_seq n sp stack ctx l :
  resolveIncludes src rootPath n sp stack ctx (YSeq l) =
  match each (resolveIncludes src rootPath n sp stack) (λ l', ctx (YSeq l')) [] l with inl e => inl e | inr l' => inr (YSeq l') end.
Proof. by destruct n. Qed.

Definition resolve_pair n sp stack (ctx : ynode * ynode → ynode) (kv : ynode * ynode) : IncludeError + ynode * ynode :=
  match resolveIncludes src rootPath n sp stack (λ k, ctx (k, kv.2)) kv.1 with
  | inl e => inl e
  | inr k => match resolveIncludes src rootPath n sp stack (λ v, ctx (k, v)) kv.2 with inl e => inl e | inr v => inr (k, v) end
  end.

Lemma resolve_map n sp stack ctx l :
  resolveIncludes src rootPath n sp stack ctx (YMap l) =
  match each (resolve_pair n sp stack) (λ l', ctx (YMap l')) [] l with inl e => inl e | inr l' => inr (YMap l') end.
Proof. by destruct n. Qed.

Lemma each_cons {A} (f : (A → ynode) → A → IncludeError + A) whole done x todo :
  each f whole done (x :: todo) =
  match f (λ y, whole (done ++ y :: todo)) x with
  | inl e => inl e
  | inr x' => match each f whole (done ++ [x']) todo with inl e => inl e | inr l => inr (x' :: l) end
  end.
Proof. done. Qed.

(** [each] with a property of the elements that the ones done have and that is kept. *)
Lemma each_spec {A} (vals : A → list string) (f : (A → ynode) → A → IncludeError + A) whole V done todo :
  Forall (λ x, ∀ ctx, (∀ y, vals y ⊆ vals x → include_values (ctx y) ⊆ V) →
    match f ctx x with inl e => e ≠ IncFuel | inr x' => vals x' = [] end) todo →
  Forall (λ x, vals x = []) done →
  (∀ l, (l ≫= vals) ⊆ (todo ≫= vals) → include_values (whole l) ⊆ V) →
  match each f whole done todo with inl e => e ≠ IncFuel | inr l => Forall (λ x, vals x = []) l end.
Proof.
  intros Hf. revert done. induction Hf as [|x todo Hx _ IH]; intros done Hd Hw; [constructor|]. rewrite each_cons.
  assert (Hdone : ∀ r, ((done ++ r) ≫= vals) = (r ≫= vals)) by (intros r; rewrite bind_app; clear -Hd; induction Hd as [|? ? E _ IHd]; cbn; [done|by rewrite E]).
  specialize (Hx (λ y, whole (done ++ y :: todo))). destruct (f _ x) as [e|x'].
  - apply Hx. intros y Hy. apply Hw. rewrite Hdone. cbn. set_solver.
  - assert (Hx' : vals x' = []) by (apply Hx; intros y Hy; apply Hw; rewrite Hdone; cbn; set_solver).
    specialize (IH (done ++ [x'])). destruct (each f whole (done ++ [x']) todo) as [e|l].
    + apply IH; [apply Forall_app; split; [done|by constructor]|]. intros l Hl. apply Hw. cbn. set_solver.
    + constructor; [done|]. apply IH; [apply Forall_app; split; [done|by constructor]|]. intros l' Hl. apply Hw. cbn. set_solver.
Qed.

(** *** Where the includes of a part come from *)

Lemma elem_include_seq v l : v ∈ include_values (YSeq l) ↔ ∃ x, x ∈ l ∧ v ∈ include_values x.
Proof. cbn [include_values]. rewrite list_elem_of_bind. naive_solver. Qed.

Lemma elem_include_map v l : v ∈ include_values (YMap l) ↔ ∃ kv, kv ∈ l ∧ v ∈ include_values kv.1 ++ include_values kv.2.
Proof. cbn [include_values]. rewrite list_elem_of_bind. naive_solver. Qed.

Lemma on_scalar_values f v n : v ∈ include_values (on_scalar f n) → ∃ u, u ∈ include_values n ∧ (v = u ∨ v = f u).
Proof.
  destruct n as [t w|l|l|a [t w|l|l|b m]]; cbn [on_scalar]; intros Hv; try (by exists v; auto);
    cbn [include_values] in *; case_decide; set_solver.
Qed.

(** A scalar is not changed by the recursion; anything else not by its place. *)
Lemma normalized_or_kept f file out n :
  normalizeIncludedLocalPaths file out n = n ∨
  on_scalar f (normalizeIncludedLocalPaths file out n) = normalizeIncludedLocalPaths file out n.
Proof. destruct n as [| | |a [| | |]]; cbn; auto. Qed.

(** Each include of [n'] is one of [n], rebased at most once. *)
Definition changes_once (file out : string) (n n' : ynode) : Prop :=
  ∀ v, v ∈ include_values n' → ∃ u, u ∈ include_values n ∧ v ∈ variants out file u.

Lemma on_scalar_once f file out n : (∀ v, f v ∈ variants out file v) →
  changes_once file out n (normalizeIncludedLocalPaths file out n) → changes_once file out n (on_scalar f (normalizeIncludedLocalPaths file out n)).
Proof.
  intros Hf Hn v Hv. destruct (normalized_or_kept f file out n) as [E|E]; rewrite E in Hv; [|by apply Hn].
  apply on_scalar_values in Hv as (u & Hu & [->| ->]); exists u; split; try done. left.
Qed.

Lemma mount_variant k file out v : rebaseMountEntrySource k v file out ∈ variants out file v.
Proof. unfold variants. do 2 right. apply list_elem_of_fmap. exists k. split; [done|]. destruct k; cbn; set_solver. Qed.

Lemma ref_variant file out v : ref_value file out v ∈ variants out file v.
Proof. right. left. Qed.

Lemma mount_seq_once k file out l :
  Forall (λ n, changes_once file out n (normalizeIncludedLocalPaths file out n)) l →
  changes_once file out (YSeq l) (normalizeMountEntries k file out (normalizeIncludedLocalPaths file out (YSeq l))).
Proof.
  intros Hl v Hv. cbn [normalizeIncludedLocalPaths normalizeMountEntries] in Hv. apply elem_include_seq in Hv as (x & Hx & Hv).
  apply list_elem_of_fmap in Hx as (y & -> & Hy). apply list_elem_of_fmap in Hy as (z & -> & Hz). rewrite Forall_forall in Hl. specialize (Hl z Hz).
  apply (on_scalar_once _ file out z (mount_variant k file out) Hl) in Hv as (u & Hu & Hv). exists u. split; [|done]. apply elem_include_seq. eauto.
Qed.

(** The place of a part: nothing, an entry of files, or a reference. *)
Definition placed (file out : string) (g : ynode → ynode) : Prop :=
  g = id ∨ (∃ k, g = normalizeMountEntries k file out) ∨ g = normalizeRefEntry file out.

Lemma value_placed file out key : placed file out (normalize_value file out key).
Proof.
  unfold placed, normalize_value. destruct key as [t k| | |]; [|by left..].
  destruct (decide (k = "ref")) as [->|Hk]; [right; right; done|].
  destruct (head (filter (λ kind, HydraFileKind_String kind = k) HydraFileKinds)) as [kind|]; [|by left]. right. left. by exists kind.
Qed.

(** By the place of the part: as it is, and as an entry of files. *)
Definition once (file out : string) (n : ynode) : Prop :=
  changes_once file out n (normalizeIncludedLocalPaths file out n) ∧
  ∀ k, changes_once file out n (normalizeMountEntries k file out (normalizeIncludedLocalPaths file out n)).

Lemma once_placed file out n g : placed file out g → once file out n → changes_once file out n (g (normalizeIncludedLocalPaths file out n)).
Proof. intros [->|[[k ->]| ->]] [H1 H2]; [done|apply H2|]. apply on_scalar_once; [apply ref_variant|done]. Qed.

Lemma once_seq file out l : Forall (once file out) l → once file out (YSeq l).
Proof.
  intros IH. split; [|intros k; apply mount_seq_once; eapply Forall_impl; [exact IH|by intros ? [? _]]].
  intros v (x & Hx & Hv)%elem_include_seq. cbn in Hx. apply list_elem_of_fmap in Hx as (y & -> & Hy).
  rewrite Forall_forall in IH. destruct (proj1 (IH y Hy) v Hv) as (u & Hu & Hvu). exists u. split; [|done]. apply elem_include_seq. eauto.
Qed.

Lemma once_map file out l : Forall (λ kv, once file out kv.1 ∧ once file out kv.2) l → once file out (YMap l).
Proof.
  intros IH. assert (H1 : changes_once file out (YMap l) (normalizeIncludedLocalPaths file out (YMap l))); [|by split].
  intros v (x & Hx & Hv)%elem_include_map. cbn in Hx. apply list_elem_of_fmap in Hx as (kv & -> & Hy). rewrite Forall_forall in IH.
  destruct (IH kv Hy) as [_ Hval]. cbn in Hv. apply elem_of_app in Hv as [Hv|Hv].
  - exists v. split; [apply elem_include_map; exists kv; split; [done|set_solver]|left].
  - apply (once_placed file out kv.2 _ (value_placed file out kv.1) Hval) in Hv as (u & Hu & Hvu). exists u. split; [|done].
    apply elem_include_map. exists kv. split; [done|set_solver].
Qed.

Lemma once_alias file out a t : once file out t → once file out (YAlias a t).
Proof.
  intros [H1 H2]. split; [exact H1|]. intros k v Hv. cbn [normalizeIncludedLocalPaths] in Hv. specialize (H2 k v).
  destruct (normalizeIncludedLocalPaths file out t) as [| | |] eqn:E; cbn [normalizeMountEntries] in Hv, H2; first [by apply H2|by apply H1].
Qed.

Lemma normalized_once file out n : once file out n.
Proof.
  induction n using ynode_nested; [|by apply once_seq|by apply once_map|by apply once_alias].
  split; [|intros k]; intros u Hu; exists u; (split; [done|left]).
Qed.

Lemma pointerStep_values n token m : pointerStep n token = Some m → include_values m ⊆ include_values n.
Proof.
  destruct n as [|l|l|]; cbn [pointerStep]; try done.
  - destruct (ParseInt64 token) as [z|]; [|done]. cbn [mbind option_bind]. case_decide; [done|]. intros Hm v Hv.
    apply elem_include_seq. exists m. split; [by eapply list_elem_of_lookup_2|done].
  - intros Hm v Hv. apply fmap_Some in Hm as (kv & Hh & ->). apply elem_include_map. exists kv. split; [|set_solver].
    assert (Hin : kv ∈ filter (λ kv, has_key token kv = true) l) by (destruct (filter _ l); [done|]; injection Hh as ->; left).
    by apply list_elem_of_filter in Hin as [_ Hin].
Qed.

Lemma select_values root pointer m : selectNode root pointer = Some m → include_values m ⊆ include_values root.
Proof.
  unfold selectNode. case_decide; [by intros [= ->]|]. generalize (split (trim_prefix pointer "/") slash). intros ps. clear.
  revert root. induction ps as [|p ps IH]; intros root; cbn [foldl]; [by intros [= ->]|]. cbn [mbind option_bind].
  destruct (pointerStep root (decodePointerPart p)) as [n|] eqn:E.
  - intros Hm. apply IH in Hm. apply pointerStep_values in E. set_solver.
  - intros Hm. exfalso. revert Hm. clear. induction ps as [|q ps IH]; cbn [foldl]; [done|exact IH].
Qed.

(** *** Termination *)

Context (root : ynode).

Lemma variants_targets file doc u v f p :
  doc_targets src (dir rootPath) file doc ⊆ all_targets src rootPath root →
  u ∈ include_values doc → v ∈ variants (dir rootPath) file u → parseIncludeRef src file v = inr (f, p) →
  target_id f p ∈ all_targets src rootPath root.
Proof.
  intros Hd Hu Hv Hp. apply Hd. unfold doc_targets. apply list_elem_of_bind. exists u. split; [|done].
  apply list_elem_of_bind. exists v. split; [|done]. rewrite Hp. left.
Qed.

(** What is included has only known targets. *)
Lemma included_targets sp stack current value r file id :
  include_values current ⊆ include_values root →
  included src rootPath sp stack current value = inr (r, file, id) →
  id ∉ stack ∧ (∃ p, parseIncludeRef src sp value = inr (file, p) ∧ id = target_id file p) ∧
  ∀ v f p, v ∈ include_values r → parseIncludeRef src file v = inr (f, p) → target_id f p ∈ all_targets src rootPath root.
Proof.
  intros Hcur. unfold included. destruct (parseIncludeRef src sp value) as [?|[f0 ptr]] eqn:Ep; [done|].
  destruct (includeCycle stack (target_id f0 ptr)) as [?|] eqn:Ec; [done|].
  destruct (loadYAMLFromCache src rootPath current f0) as [?|doc] eqn:El; [done|].
  destruct (selectNode doc ptr) as [sel|] eqn:Es; [|done]. intros [= <- <- <-]. split_and!.
  - intros Hin. unfold includeCycle in Ec. apply fmap_None, list_find_None in Ec. rewrite Forall_forall in Ec. by apply (Ec _ Hin).
  - by exists ptr.
  - intros v f p Hv Hp. destruct (proj1 (normalized_once f0 (dir rootPath) sel) v Hv) as (u & Hu & Hvu).
    apply (select_values _ _ _ Es) in Hu. unfold loadYAMLFromCache in El. destruct (decide (f0 = rootPath)) as [->|Hf].
    + injection El as <-. apply Hcur in Hu. eapply variants_targets; [|exact Hu|exact Hvu|exact Hp]. intros t Ht. unfold all_targets. apply elem_of_app. by left.
    + destruct (src_files src !! f0) as [sf|] eqn:Ef; [|done]. cbn in El. destruct (sf_yaml sf) as [y|] eqn:Ey; [|done]. injection El as <-.
      eapply variants_targets; [|exact Hu|exact Hvu|exact Hp]. intros t Ht. unfold all_targets. apply elem_of_app. right.
      apply list_elem_of_bind. exists (f0, sf). split; [cbn; by rewrite Ey|by apply elem_of_map_to_list].
Qed.

Lemma bind_nil {A} (vals : A → list string) l : Forall (λ x, vals x = []) l → l ≫= vals = [].
Proof. induction 1 as [|x l E _ IH]; cbn; [done|]. rewrite E. exact IH. Qed.

(** A key and its value, one after the other. *)
Lemma pair_ends n sp stack k v V (ctx' : ynode * ynode → ynode) :
  (∀ y, include_values y.1 ++ include_values y.2 ⊆ include_values k ++ include_values v → include_values (ctx' y) ⊆ V) →
  (∀ c, (∀ y, include_values y ⊆ include_values k → include_values (c y) ⊆ V) →
    match resolveIncludes src rootPath n sp stack c k with inl e => e ≠ IncFuel | inr k' => include_values k' = [] end) →
  (∀ c, (∀ y, include_values y ⊆ include_values v → include_values (c y) ⊆ V) →
    match resolveIncludes src rootPath n sp stack c v with inl e => e ≠ IncFuel | inr v' => include_values v' = [] end) →
  match resolve_pair n sp stack ctx' (k, v) with inl e => e ≠ IncFuel | inr kv => include_values kv.1 ++ include_values kv.2 = [] end.
Proof.
  intros Hc Hk Hv. unfold resolve_pair. cbn [fst snd]. specialize (Hk (λ y, ctx' (y, v))).
  destruct (resolveIncludes src rootPath n sp stack (λ y, ctx' (y, v)) k) as [e|k']; [apply Hk; intros y Hy; apply Hc; cbn; set_solver|].
  assert (Ek : include_values k' = []) by (apply Hk; intros y Hy; apply Hc; cbn; set_solver). specialize (Hv (λ y, ctx' (k', y))).
  destruct (resolveIncludes src rootPath n sp stack (λ y, ctx' (k', y)) v) as [e|v']; [|cbn; rewrite Ek]; apply Hv; intros y Hy; apply Hc; cbn; rewrite Ek; set_solver.
Qed.

(** Replacing ends, and leaves no include. *)
Lemma resolve_ends n : ∀ node sp stack ctx,
  (∀ v f p, v ∈ include_values node → parseIncludeRef src sp v = inr (f, p) → target_id f p ∈ all_targets src rootPath root) →
  (∀ y, include_values y ⊆ include_values node → include_values (ctx y) ⊆ include_values root) →
  NoDup stack → stack ⊆ rootPath :: all_targets src rootPath root → S (length (all_targets src rootPath root)) ≤ n + length stack →
  match resolveIncludes src rootPath n sp stack ctx node with inl e => e ≠ IncFuel | inr n' => include_values n' = [] end.
Proof.
  induction n as [n IHn] using lt_wf_ind. intros node sp stack.
  induction node as [t v|l IH|l IH|a t IH] using ynode_nested; intros ctx Ht Hc Hnd Hsub Hlen.
  - rewrite resolve_scalar. destruct (decide (t = "!include")) as [->|Hti]; [|cbn; by rewrite decide_False].
    assert (Hcur : include_values (ctx (YScalar "!include" v)) ⊆ include_values root) by (by apply Hc).
    destruct (included _ _ _ _ _ _) as [e|[[r file] id]] eqn:Ei.
    + unfold included in Ei. repeat (case_match; simplify_eq; try done); unfold parseIncludeRef, loadYAMLFromCache in *; repeat (case_match; simplify_eq; try done).
    + apply included_targets in Ei as (Hni & (p & Hp & ->) & Hr); [|done].
      assert (Hin : target_id file p ∈ all_targets src rootPath root) by (eapply Ht; [cbn; by left|done]).
      assert (Hnd' : NoDup (stack ++ [target_id file p])) by (apply NoDup_app; split_and!; [done|intros x Hx Hy; apply list_elem_of_singleton in Hy; by subst|apply NoDup_singleton]).
      assert (Hsub' : stack ++ [target_id file p] ⊆ rootPath :: all_targets src rootPath root).
      { intros x [Hx|Hx%list_elem_of_singleton]%elem_of_app; [by apply Hsub|subst x; by right]. }
      assert (Hle : length (stack ++ [target_id file p]) ≤ S (length (all_targets src rootPath root))).
      { apply (submseteq_length _ (rootPath :: all_targets src rootPath root)), NoDup_submseteq; [done|]. intros x Hx. by apply Hsub'. }
      rewrite length_app in Hle. cbn in Hle. destruct n as [|n]; [lia|]. apply (IHn n); [lia|exact Hr|by intros _ _|done|done|rewrite length_app; cbn; lia].
  - rewrite resolve_seq. assert (He := each_spec include_values (resolveIncludes src rootPath n sp stack) (λ l', ctx (YSeq l')) (include_values root) [] l).
    enough (Hm : match each (resolveIncludes src rootPath n sp stack) (λ l', ctx (YSeq l')) [] l with
      inl e => e ≠ IncFuel | inr l' => Forall (λ x, include_values x = []) l' end) by (destruct (each _ _ _ _); [done|by apply bind_nil]).
    apply He; [|constructor|intros l0 Hl0; by apply Hc]. rewrite Forall_forall in IH |- *. intros x Hx ctx' Hctx'. apply IH; try done.
    intros v f p Hv. apply Ht. apply elem_include_seq. eauto.
  - rewrite resolve_map. set (vals := λ kv : ynode * ynode, include_values kv.1 ++ include_values kv.2).
    assert (He := each_spec vals (resolve_pair n sp stack) (λ l', ctx (YMap l')) (include_values root) [] l).
    enough (Hm : match each (resolve_pair n sp stack) (λ l', ctx (YMap l')) [] l with
      inl e => e ≠ IncFuel | inr l' => Forall (λ x, vals x = []) l' end) by (destruct (each _ _ _ _); [done|by apply bind_nil]).
    apply He; [|constructor|intros l0 Hl0; by apply Hc]. rewrite Forall_forall in IH |- *. intros [k v] Hx ctx' Hctx'. destruct (IH _ Hx) as [IHk IHv].
    apply (pair_ends n sp stack k v (include_values root)); [exact Hctx'|..]; intros c Hcc; [apply IHk|apply IHv]; try done; intros w f p Hw; apply Ht, elem_include_map; exists (k, v); (split; [done|]);
      cbn; apply elem_of_app; auto.
  - rewrite resolve_alias. specialize (IH (λ y, ctx (YAlias a y)) Ht). destruct (resolveIncludes _ _ _ _ _ _ t); (apply IH; [intros ? ?; by apply Hc|done..]).
Qed.

End Resolve.

(** ** What composition means

    Replacement without the check for cycles and without a bound: [unfolds] when it ends,
    [leads] for a chain of includes it goes through on the way. *)

(** What an include stands for, whatever has been included before. *)
Definition fetch (src : Source) (rootPath sourcePath : string) (current : ynode) (value : string) : option (ynode * string * string) :=
  match included src rootPath sourcePath [] current value with inr x => Some x | inl _ => None end.

Section Unfolding.
Context (src : Source) (rootPath : string).

Inductive unfolds : string → (ynode → ynode) → ynode → ynode → Prop :=
| unfolds_scalar sp ctx tag v : tag ≠ "!include" → unfolds sp ctx (YScalar tag v) (YScalar tag v)
| unfolds_include sp ctx v r file id n :
    fetch src rootPath sp (ctx (YScalar "!include" v)) v = Some (r, file, id) →
    unfolds file (λ _, ctx (YScalar "!include" v)) r n → unfolds sp ctx (YScalar "!include" v) n
| unfolds_alias sp ctx a t t' : unfolds sp (λ y, ctx (YAlias a y)) t t' → unfolds sp ctx (YAlias a t) (YAlias a t')
| unfolds_seq sp ctx l l' : unfolds_items sp (λ x, ctx (YSeq x)) [] l l' → unfolds sp ctx (YSeq l) (YSeq l')
| unfolds_map sp ctx l l' : unfolds_pairs sp (λ x, ctx (YMap x)) [] l l' → unfolds sp ctx (YMap l) (YMap l')
with unfolds_items : string → (list ynode → ynode) → list ynode → list ynode → list ynode → Prop :=
| items_nil sp whole front : unfolds_items sp whole front [] []
| items_cons sp whole front x x' rest rest' :
    unfolds sp (λ y, whole (front ++ y :: rest)) x x' → unfolds_items sp whole (front ++ [x']) rest rest' →
    unfolds_items sp whole front (x :: rest) (x' :: rest')
with unfolds_pairs : string → (list (ynode * ynode) → ynode) → list (ynode * ynode) → list (ynode * ynode) → list (ynode * ynode) → Prop :=
| pairs_nil sp whole front : unfolds_pairs sp whole front [] []
| pairs_cons sp whole front k k' v v' rest rest' :
    unfolds sp (λ y, whole (front ++ (y, v) :: rest)) k k' → unfolds sp (λ y, whole (front ++ (k', y) :: rest)) v v' →
    unfolds_pairs sp whole (front ++ [(k', v')]) rest rest' → unfolds_pairs sp whole front ((k, v) :: rest) ((k', v') :: rest').

Inductive leads : string → (ynode → ynode) → ynode → list string → Prop :=
| leads_to sp ctx v file pointer :
    parseIncludeRef src sp v = inr (file, pointer) → leads sp ctx (YScalar "!include" v) [target_id file pointer]
| leads_through sp ctx v r file id path :
    fetch src rootPath sp (ctx (YScalar "!include" v)) v = Some (r, file, id) →
    leads file (λ _, ctx (YScalar "!include" v)) r path → leads sp ctx (YScalar "!include" v) (id :: path)
| leads_alias sp ctx a t path : leads sp (λ y, ctx (YAlias a y)) t path → leads sp ctx (YAlias a t) path
| leads_seq sp ctx l path : leads_items sp (λ x, ctx (YSeq x)) [] l path → leads sp ctx (YSeq l) path
| leads_map sp ctx l path : leads_pairs sp (λ x, ctx (YMap x)) [] l path → leads sp ctx (YMap l) path
with leads_items : string → (list ynode → ynode) → list ynode → list ynode → list string → Prop :=
| leads_item sp whole front x rest path :
    leads sp (λ y, whole (front ++ y :: rest)) x path → leads_items sp whole front (x :: rest) path
| leads_items_later sp whole front x x' rest path :
    unfolds sp (λ y, whole (front ++ y :: rest)) x x' → leads_items sp whole (front ++ [x']) rest path →
    leads_items sp whole front (x :: rest) path
with leads_pairs : string → (list (ynode * ynode) → ynode) → list (ynode * ynode) → list (ynode * ynode) → list string → Prop :=
| leads_key sp whole front k v rest path :
    leads sp (λ y, whole (front ++ (y, v) :: rest)) k path → leads_pairs sp whole front ((k, v) :: rest) path
| leads_value sp whole front k k' v rest path :
    unfolds sp (λ y, whole (front ++ (y, v) :: rest)) k k' → leads sp (λ y, whole (front ++ (k', y) :: rest)) v path →
    leads_pairs sp whole front ((k, v) :: rest) path
| leads_pairs_later sp whole front k k' v v' rest path :
    unfolds sp (λ y, whole (front ++ (y, v) :: rest)) k k' → unfolds sp (λ y, whole (front ++ (k', y) :: rest)) v v' →
    leads_pairs sp whole (front ++ [(k', v')]) rest path → leads_pairs sp whole front ((k, v) :: rest) path.

Scheme unfolds_mut := Minimality for unfolds Sort Prop
  with items_mut := Minimality for unfolds_items Sort Prop
  with pairs_mut := Minimality for unfolds_pairs Sort Prop.
Combined Scheme unfolds_ind3 from unfolds_mut, items_mut, pairs_mut.

Scheme leads_mut := Minimality for leads Sort Prop
  with leads_items_mut := Minimality for leads_items Sort Prop
  with leads_pairs_mut := Minimality for leads_pairs Sort Prop.
Combined Scheme leads_ind3 from leads_mut, leads_items_mut, leads_pairs_mut.

Lemma included_fetch sp stack current v :
  included src rootPath sp stack current v =
  match parseIncludeRef src sp v with
  | inl e => inl e
  | inr (file, pointer) =>
      match includeCycle stack (target_id file pointer) with
      | Some cycle => inl (IncCycle cycle)
      | None => included src rootPath sp [] current v
      end
  end.
Proof using Type. unfold included. destruct (parseIncludeRef src sp v) as [?|[file pointer]]; [done|]. by destruct (includeCycle stack _). Qed.

Lemma included_inr sp stack current v r file id :
  included src rootPath sp stack current v = inr (r, file, id) →
  fetch src rootPath sp current v = Some (r, file, id) ∧ id ∉ stack ∧ ∃ pointer, parseIncludeRef src sp v = inr (file, pointer) ∧ id = target_id file pointer.
Proof using Type.
  intros E. unfold fetch. rewrite included_fetch in E. destruct (parseIncludeRef src sp v) as [?|[f p]] eqn:Ep; [done|].
  destruct (includeCycle stack (target_id f p)) as [?|] eqn:Ec; [done|]. rewrite E. split; [done|].
  unfold included in E. rewrite Ep in E. cbn in E. repeat case_match; simplify_eq. split; [|eauto].
  intros Hin. unfold includeCycle in Ec. apply fmap_None, list_find_None in Ec. rewrite Forall_forall in Ec. by apply (Ec _ Hin).
Qed.

(** *** A composition that ends is an unfolding *)

Lemma each_items n sp stack whole l :
  (∀ x, x ∈ l → ∀ ctx x', resolveIncludes src rootPath n sp stack ctx x = inr x' → unfolds sp ctx x x') →
  ∀ front l', each (resolveIncludes src rootPath n sp stack) whole front l = inr l' → unfolds_items sp whole front l l'.
Proof using Type.
  induction l as [|x l IH]; intros Hl front l' E; [injection E as <-; constructor|]. rewrite each_cons in E.
  destruct (resolveIncludes _ _ _ _ _ _ x) as [?|x'] eqn:Ex; [done|]. destruct (each _ _ _ l) as [?|rest] eqn:Er; [done|].
  injection E as <-. constructor; [apply Hl; [left|done]|]. apply IH; [|done]. intros y Hy. apply Hl. by right.
Qed.

Lemma each_pairs n sp stack whole l :
  (∀ kv, kv ∈ l → (∀ ctx k', resolveIncludes src rootPath n sp stack ctx kv.1 = inr k' → unfolds sp ctx kv.1 k') ∧
    (∀ ctx v', resolveIncludes src rootPath n sp stack ctx kv.2 = inr v' → unfolds sp ctx kv.2 v')) →
  ∀ front l', each (resolve_pair src rootPath n sp stack) whole front l = inr l' → unfolds_pairs sp whole front l l'.
Proof using Type.
  induction l as [|[k v] l IH]; intros Hl front l' E; [injection E as <-; constructor|]. rewrite each_cons in E.
  unfold resolve_pair at 1 in E. cbn [fst snd] in E. destruct (resolveIncludes _ _ _ _ _ _ k) as [?|k'] eqn:Ek; [done|].
  destruct (resolveIncludes _ _ _ _ _ _ v) as [?|v'] eqn:Ev; [done|]. destruct (each _ _ _ l) as [?|rest] eqn:Er; [done|].
  injection E as <-. destruct (Hl (k, v)) as [Hk Hv]; [left|]. constructor; [by apply Hk|by apply Hv|].
  apply IH; [|done]. intros y Hy. apply Hl. by right.
Qed.

Lemma resolve_unfolds n : ∀ node sp stack ctx n', resolveIncludes src rootPath n sp stack ctx node = inr n' → unfolds sp ctx node n'.
Proof using Type.
  induction n as [n IHn] using lt_wf_ind. intros node sp stack.
  induction node as [t v|l IH|l IH|a t IH] using ynode_nested; intros ctx n' E.
  - rewrite resolve_scalar in E. case_decide as Ht; [subst t|injection E as <-; by constructor].
    destruct (included _ _ _ _ _ _) as [?|[[r file] id]] eqn:Ei; [done|]. destruct n as [|n]; [done|].
    apply included_inr in Ei as (Hf & _). econstructor; [exact Hf|]. exact (IHn n ltac:(lia) _ _ _ _ _ E).
  - rewrite resolve_seq in E. destruct (each _ _ _ l) as [?|l'] eqn:El; [done|]. injection E as <-. constructor.
    eapply each_items; [|exact El]. rewrite Forall_forall in IH. intros x Hx ctx' x'. by apply IH.
  - rewrite resolve_map in E. destruct (each _ _ _ l) as [?|l'] eqn:El; [done|]. injection E as <-. constructor.
    eapply each_pairs; [|exact El]. rewrite Forall_forall in IH. intros kv Hkv. destruct (IH kv Hkv) as [Hk Hv].
    split; intros ctx' x'; [apply Hk|apply Hv].
  - rewrite resolve_alias in E. destruct (resolveIncludes _ _ _ _ _ _ t) as [?|t'] eqn:Et; [done|]. injection E as <-. constructor. by apply IH.
Qed.

Lemma unfolds_unique :
  (∀ sp ctx n a, unfolds sp ctx n a → ∀ b, unfolds sp ctx n b → a = b) ∧
  (∀ sp whole front l a, unfolds_items sp whole front l a → ∀ b, unfolds_items sp whole front l b → a = b) ∧
  (∀ sp whole front l a, unfolds_pairs sp whole front l a → ∀ b, unfolds_pairs sp whole front l b → a = b).
Proof using Type.
  apply unfolds_ind3.
  - intros sp ctx tag v Ht b Hb. inversion Hb; subst; [done|congruence].
  - intros sp ctx v r file id n Hf _ IH b Hb. inversion Hb as [|? ? ? r' file' id' ? Hf' Hu| | |]; subst; [congruence|].
    rewrite Hf in Hf'. injection Hf' as <- <- <-. by apply IH.
  - intros sp ctx a t t' _ IH b Hb. inversion Hb; subst. f_equal. by apply IH.
  - intros sp ctx l l' _ IH b Hb. inversion Hb; subst. f_equal. by apply IH.
  - intros sp ctx l l' _ IH b Hb. inversion Hb; subst. f_equal. by apply IH.
  - intros sp whole front b Hb. by inversion Hb.
  - intros sp whole front x x' rest rest' _ IHx _ IHr b Hb. inversion Hb as [|? ? ? ? y ? ? Hy Hr]; subst.
    apply IHx in Hy as <-. f_equal. by apply IHr.
  - intros sp whole front b Hb. by inversion Hb.
  - intros sp whole front k k' v v' rest rest' _ IHk _ IHv _ IHr b Hb. inversion Hb as [|? ? ? ? k2 ? v2 ? ? Hk Hv Hr]; subst.
    apply IHk in Hk as <-. apply IHv in Hv as <-. f_equal. by apply IHr.
Qed.

(** *** A chain that comes back is an error *)

(** The cycle that is reported is a chain of includes that comes back. *)
Definition comes_back (stack : list string) (cycle path : list string) (t : string) : Prop :=
  includeCycle (stack ++ path) t = Some cycle.

Lemma each_items_cycle n sp stack whole cycle l :
  (∀ x, x ∈ l → ∀ ctx, resolveIncludes src rootPath n sp stack ctx x = inl (IncCycle cycle) →
     ∃ path t, leads sp ctx x (path ++ [t]) ∧ comes_back stack cycle path t) →
  ∀ front, each (resolveIncludes src rootPath n sp stack) whole front l = inl (IncCycle cycle) →
  ∃ path t, leads_items sp whole front l (path ++ [t]) ∧ comes_back stack cycle path t.
Proof using Type.
  induction l as [|x l IH]; intros Hl front E; [done|]. rewrite each_cons in E.
  destruct (resolveIncludes _ _ _ _ _ _ x) as [e|x'] eqn:Ex.
  - injection E as ->. destruct (Hl x ltac:(left) _ Ex) as (path & t & Hp & Hc). exists path, t. split; [by constructor|done].
  - destruct (each _ _ _ l) as [e|rest] eqn:Er; [injection E as ->|done].
    destruct (IH (λ y Hy, Hl y ltac:(by right)) _ Er) as (path & t & Hp & Hc). exists path, t. split; [|done].
    eapply leads_items_later; [by eapply resolve_unfolds|exact Hp].
Qed.

Lemma each_pairs_cycle n sp stack whole cycle l :
  (∀ kv, kv ∈ l →
    (∀ ctx, resolveIncludes src rootPath n sp stack ctx kv.1 = inl (IncCycle cycle) → ∃ path t, leads sp ctx kv.1 (path ++ [t]) ∧ comes_back stack cycle path t) ∧
    (∀ ctx, resolveIncludes src rootPath n sp stack ctx kv.2 = inl (IncCycle cycle) → ∃ path t, leads sp ctx kv.2 (path ++ [t]) ∧ comes_back stack cycle path t)) →
  ∀ front, each (resolve_pair src rootPath n sp stack) whole front l = inl (IncCycle cycle) →
  ∃ path t, leads_pairs sp whole front l (path ++ [t]) ∧ comes_back stack cycle path t.
Proof using Type.
  induction l as [|[k v] l IH]; intros Hl front E; [done|]. rewrite each_cons in E. unfold resolve_pair at 1 in E. cbn [fst snd] in E.
  destruct (Hl (k, v)) as [Hk Hv]; [left|]. cbn [fst snd] in *. destruct (resolveIncludes _ _ _ _ _ _ k) as [e|k'] eqn:Ek.
  { injection E as ->. destruct (Hk _ Ek) as (path & t & Hp & Hc). exists path, t. split; [by constructor|done]. }
  apply resolve_unfolds in Ek. destruct (resolveIncludes _ _ _ _ _ _ v) as [e|v'] eqn:Ev.
  { injection E as ->. destruct (Hv _ Ev) as (path & t & Hp & Hc). exists path, t. split; [by eapply leads_value|done]. }
  apply resolve_unfolds in Ev. destruct (each _ _ _ l) as [e|rest] eqn:Er; [injection E as ->|done].
  destruct (IH (λ y Hy, Hl y ltac:(by right)) _ Er) as (path & t & Hp & Hc). exists path, t. split; [by eapply leads_pairs_later|done].
Qed.

Lemma resolve_cycle n cycle : ∀ node sp stack ctx,
  resolveIncludes src rootPath n sp stack ctx node = inl (IncCycle cycle) →
  ∃ path t, leads sp ctx node (path ++ [t]) ∧ comes_back stack cycle path t.
Proof using Type.
  induction n as [n IHn] using lt_wf_ind. intros node sp stack.
  induction node as [t v|l IH|l IH|a t IH] using ynode_nested; intros ctx E.
  - rewrite resolve_scalar in E. case_decide as Ht; [subst t|done].
    destruct (included _ _ _ _ _ _) as [e|[[r file] id]] eqn:Ei.
    + injection E as ->. rewrite included_fetch in Ei. destruct (parseIncludeRef src sp v) as [?|[f p]] eqn:Ep.
      { simplify_eq. unfold parseIncludeRef in Ep. by repeat (case_match; simplify_eq). }
      destruct (includeCycle stack (target_id f p)) as [c|] eqn:Ec.
      * injection Ei as ->. exists [], (target_id f p). split; [by constructor|]. unfold comes_back. by rewrite app_nil_r.
      * unfold included in Ei. rewrite Ep in Ei. cbn in Ei. unfold loadYAMLFromCache in Ei. by repeat (case_match; simplify_eq).
    + destruct n as [|n]; [done|]. destruct (IHn n ltac:(lia) _ _ _ _ E) as (path & t & Hp & Hc).
      apply included_inr in Ei as (Hf & _). exists (id :: path), t. split; [by eapply leads_through|].
      unfold comes_back in *. by rewrite <-app_assoc in Hc.
  - rewrite resolve_seq in E. destruct (each _ _ _ l) as [e|l'] eqn:El; [injection E as ->|done].
    destruct (each_items_cycle n sp stack _ cycle l (proj1 (Forall_forall _ _) IH) _ El) as (path & t & Hp & Hc).
    exists path, t. split; [by constructor|done].
  - rewrite resolve_map in E. destruct (each _ _ _ l) as [e|l'] eqn:El; [injection E as ->|done].
    destruct (each_pairs_cycle n sp stack _ cycle l (proj1 (Forall_forall _ _) IH) _ El) as (path & t & Hp & Hc).
    exists path, t. split; [by constructor|done].
  - rewrite resolve_alias in E. destruct (resolveIncludes _ _ _ _ _ _ t) as [e|t'] eqn:Et; [injection E as ->|done].
    destruct (IH _ Et) as (path & x & Hp & Hc). exists path, x. split; [by constructor|done].
Qed.

(** Where a composition ends, no chain of includes comes back. *)
Lemma leads_fresh :
  (∀ sp ctx node path, leads sp ctx node path → ∀ n stack n', NoDup stack →
     resolveIncludes src rootPath n sp stack ctx node = inr n' → NoDup (stack ++ path)) ∧
  (∀ sp whole front l path, leads_items sp whole front l path → ∀ n stack l', NoDup stack →
     each (resolveIncludes src rootPath n sp stack) whole front l = inr l' → NoDup (stack ++ path)) ∧
  (∀ sp whole front l path, leads_pairs sp whole front l path → ∀ n stack l', NoDup stack →
     each (resolve_pair src rootPath n sp stack) whole front l = inr l' → NoDup (stack ++ path)).
Proof using Type.
  destruct unfolds_unique as (Huniq & _ & _).
  assert (Hsame : ∀ n sp stack ctx x y x', unfolds sp ctx x x' → resolveIncludes src rootPath n sp stack ctx x = inr y → y = x').
  { intros n sp stack ctx x y x' Hx Hy. apply resolve_unfolds in Hy. by eapply Huniq. }
  assert (Hpush : ∀ (stack : list string) id, NoDup stack → id ∉ stack → NoDup (stack ++ [id])).
  { intros stack id Hs Hi. apply NoDup_app. split_and!; [done|by intros x Hx ->%list_elem_of_singleton|apply NoDup_singleton]. }
  apply leads_ind3.
  - intros sp ctx v file pointer Hp n stack n' Hs E. rewrite resolve_scalar, decide_True in E by done.
    destruct (included _ _ _ _ _ _) as [?|[[r f] id]] eqn:Ei; [done|]. apply included_inr in Ei as (_ & Hi & p & Hp' & ->).
    rewrite Hp in Hp'. injection Hp' as <- <-. by apply Hpush.
  - intros sp ctx v r file id path Hf _ IH n stack n' Hs E. rewrite resolve_scalar, decide_True in E by done.
    destruct (included _ _ _ _ _ _) as [?|[[r' f'] id']] eqn:Ei; [done|]. apply included_inr in Ei as (Hf' & Hi & _).
    rewrite Hf in Hf'. injection Hf' as <- <- <-. destruct n as [|n]; [done|].
    specialize (IH n (stack ++ [id]) n' (Hpush _ _ Hs Hi) E). by rewrite <-app_assoc in IH.
  - intros sp ctx a t path _ IH n stack n' Hs E. rewrite resolve_alias in E.
    destruct (resolveIncludes _ _ _ _ _ _ t) as [?|t'] eqn:Et; [done|]. by eapply IH.
  - intros sp ctx l path _ IH n stack n' Hs E. rewrite resolve_seq in E. destruct (each _ _ _ l) as [?|l'] eqn:El; [done|]. by eapply IH.
  - intros sp ctx l path _ IH n stack n' Hs E. rewrite resolve_map in E. destruct (each _ _ _ l) as [?|l'] eqn:El; [done|]. by eapply IH.
  - intros sp whole front x rest path _ IH n stack l' Hs E. rewrite each_cons in E.
    destruct (resolveIncludes _ _ _ _ _ _ x) as [?|x'] eqn:Ex; [done|]. by eapply IH.
  - intros sp whole front x x' rest path Hx _ IH n stack l' Hs E. rewrite each_cons in E.
    destruct (resolveIncludes _ _ _ _ _ _ x) as [?|y] eqn:Ex; [done|]. apply (Hsame _ _ _ _ _ _ _ Hx) in Ex as ->.
    destruct (each _ _ _ rest) as [?|l''] eqn:Er; [done|]. by eapply IH.
  - intros sp whole front k v rest path _ IH n stack l' Hs E. rewrite each_cons in E. unfold resolve_pair at 1 in E. cbn [fst snd] in E.
    destruct (resolveIncludes _ _ _ _ _ _ k) as [?|k'] eqn:Ek; [done|]. by eapply IH.
  - intros sp whole front k k' v rest path Hk _ IH n stack l' Hs E. rewrite each_cons in E. unfold resolve_pair at 1 in E. cbn [fst snd] in E.
    destruct (resolveIncludes _ _ _ _ _ _ k) as [?|y] eqn:Ek; [done|]. apply (Hsame _ _ _ _ _ _ _ Hk) in Ek as ->.
    destruct (resolveIncludes _ _ _ _ _ _ v) as [?|v'] eqn:Ev; [done|]. by eapply IH.
  - intros sp whole front k k' v v' rest path Hk Hv _ IH n stack l' Hs E. rewrite each_cons in E. unfold resolve_pair at 1 in E. cbn [fst snd] in E.
    destruct (resolveIncludes _ _ _ _ _ _ k) as [?|y] eqn:Ek; [done|]. apply (Hsame _ _ _ _ _ _ _ Hk) in Ek as ->.
    destruct (resolveIncludes _ _ _ _ _ _ v) as [?|z] eqn:Ev; [done|]. apply (Hsame _ _ _ _ _ _ _ Hv) in Ev as ->.
    destruct (each _ _ _ rest) as [?|l''] eqn:Er; [done|]. by eapply IH.
Qed.

End Unfolding.

(** A document without includes stays as it is. *)
Lemma each_same {A} (f : (A → ynode) → A → IncludeError + A) whole front todo :
  Forall (λ x, ∀ ctx, f ctx x = inr x) todo → each f whole front todo = inr todo.
Proof. intros Hf. revert front. induction Hf as [|x todo Hx _ IH]; intros front; [done|]. by rewrite each_cons, Hx, IH. Qed.

Lemma bind_nil_inv {A} (vals : A → list string) l x : l ≫= vals = [] → x ∈ l → vals x = [].
Proof. intros E Hx. apply list_elem_of_split in Hx as (l1 & l2 & ->). rewrite bind_app in E. cbn in E. by apply app_eq_nil in E as [_ [? _]%app_eq_nil]. Qed.

Lemma resolve_free src rootPath n sp stack node : include_values node = [] → ∀ ctx, resolveIncludes src rootPath n sp stack ctx node = inr node.
Proof.
  induction node as [t v|l IH|l IH|a t IH] using ynode_nested; intros Hv ctx.
  - rewrite resolve_scalar. cbn in Hv. by case_decide.
  - rewrite resolve_seq, each_same; [done|]. rewrite Forall_forall in IH |- *. intros x Hx. apply IH; [done|]. by eapply bind_nil_inv.
  - rewrite resolve_map, each_same; [done|]. rewrite Forall_forall in IH |- *. intros [k v] Hx ctx'. destruct (IH _ Hx) as [IHk IHv].
    pose proof (bind_nil_inv _ _ _ Hv Hx) as E. apply app_eq_nil in E as [Ek Ev]. unfold resolve_pair. cbn. by rewrite IHk, IHv.
  - rewrite resolve_alias. by rewrite IH.
Qed.

(** ** Facts on merging *)

(** The value of a key when another one is laid over it. *)
Definition overlaid (old : option ynode) (v : ynode) : ynode :=
  match map_of v, old ≫= map_of with Some src, Some base => YMap (mergeMappingInto base src) | _, _ => v end.

Lemma set_unfold dst key v :
  setOrDeepMergeKey dst key v =
  match find_key key dst with
  | None => dst ++ [(str_key key, v)]
  | Some existing => put_key key (overlaid (Some existing) v) dst
  end.
Proof.
  assert (Hinto : ∀ src base, (fix into (src dst : list (ynode * ynode)) : list (ynode * ynode) :=
    match src with [] => dst | kv :: src' => into src' (setOrDeepMergeKey dst (node_value kv.1) kv.2) end) src base = mergeMappingInto base src).
  { intros src. induction src as [|kv src IH]; intros base; [done|]. by rewrite IH. }
  destruct v as [t w|l|l|a [t w|l|l|b m]]; cbn [setOrDeepMergeKey]; destruct (find_key key dst) as [ex|]; try done; unfold overlaid; cbn [mbind option_bind];
    destruct (map_of ex) as [base|]; cbn [map_of derefAlias]; try done; by rewrite Hinto.
Qed.

Lemma find_key_cons k kv l : find_key k (kv :: l) = if has_key k kv then Some kv.2 else find_key k l.
Proof.
  unfold find_key. destruct (has_key k kv) eqn:E; [by rewrite filter_cons_True|]. rewrite filter_cons_False; [done|by rewrite E].
Qed.

Lemma has_key_other k k' kv : has_key k' kv = true → k ≠ k' → has_key k kv = false.
Proof. unfold has_key. intros [_ E%bool_decide_eq_true]%andb_true_iff Hk. apply andb_false_iff. right. apply bool_decide_eq_false. congruence. Qed.

Lemma find_put k k' v l : find_key k (put_key k' v l) = if decide (k = k') then (λ _, v) <$> find_key k l else find_key k l.
Proof.
  induction l as [|kv l IH]; cbn [put_key]; [by case_decide|]. destruct (has_key k' kv) eqn:E; rewrite !find_key_cons.
  - destruct (decide (k = k')) as [->|Hk].
    + unfold has_key in *. cbn [fst]. by rewrite E.
    + pose proof (has_key_other k k' kv E Hk) as Hf. unfold has_key in *. cbn [fst]. by rewrite Hf.
  - rewrite IH. destruct (decide (k = k')) as [->|Hk]; [by rewrite E|done].
Qed.

Lemma find_app k l1 l2 : find_key k (l1 ++ l2) = match find_key k l1 with Some v => Some v | None => find_key k l2 end.
Proof. induction l1 as [|kv l1 IH]; [done|]. cbn [app]. rewrite !find_key_cons. by destruct (has_key k kv). Qed.

(** Setting a key changes that key only. *)
Lemma find_set k dst key v : find_key k (setOrDeepMergeKey dst key v) = if decide (k = key) then Some (overlaid (find_key k dst) v) else find_key k dst.
Proof.
  rewrite set_unfold. destruct (find_key key dst) as [ex|] eqn:E.
  - rewrite find_put. case_decide as Hk; [|done]. subst key. by rewrite E.
  - rewrite find_app, find_key_cons. unfold has_key at 1. cbn. case_decide as Hk.
    + subst key. rewrite E, bool_decide_eq_true_2 by done. unfold overlaid. cbn. by destruct (map_of v).
    + rewrite bool_decide_eq_false_2 by congruence. by destruct (find_key k dst).
Qed.

(** The values a mapping gives to a key, in order. *)
Definition values_at (k : string) (l : list (ynode * ynode)) : list ynode := snd <$> filter (λ kv, node_value kv.1 = k) l.

Definition laid (old : option ynode) (vs : list ynode) : option ynode := foldl (λ o v, Some (overlaid o v)) old vs.

Lemma find_merge k dst src : find_key k (mergeMappingInto dst src) = laid (find_key k dst) (values_at k src).
Proof.
  revert dst. induction src as [|kv src IH]; intros dst; [done|]. unfold mergeMappingInto in *. cbn [foldl]. rewrite IH, find_set. unfold values_at.
  case_decide as E; [rewrite filter_cons_True by done|rewrite filter_cons_False by done]; done.
Qed.

(** What an entry of a mapping gives to a key. *)
Definition contributed (k : string) (kv : ynode * ynode) : list ynode :=
  if has_key merge_key kv then from_option (λ ss, ss ≫= values_at k) [] (collectMergeSources kv.2)
  else if decide (node_value kv.1 = k) then [kv.2] else [].

Lemma find_sources k dst ss : find_key k (foldl mergeMappingInto dst ss) = laid (find_key k dst) (ss ≫= values_at k).
Proof.
  revert dst. induction ss as [|s ss IH]; intros dst; [done|]. cbn [foldl]. rewrite IH, find_merge. unfold laid. by rewrite <-foldl_app.
Qed.

Lemma merge_entry_None l : foldl merge_entry None l = None.
Proof. by induction l. Qed.

Definition mergeable (kv : ynode * ynode) : Prop := has_key merge_key kv = true → is_Some (collectMergeSources kv.2).

(** Merging fails only on values that are not mappings. *)
Lemma entries_merge l : ∀ acc, is_Some (foldl merge_entry (Some acc) l) ↔ Forall mergeable l.
Proof.
  induction l as [|kv l IH]; intros acc; [by split|]. rewrite Forall_cons, <-(IH acc). cbn [foldl].
  change (merge_entry (Some acc) kv) with (if has_key merge_key kv
    then collectMergeSources kv.2 ≫= λ ss, Some (foldl mergeMappingInto acc ss) else Some (setOrDeepMergeKey acc (node_value kv.1) kv.2)).
  unfold mergeable. destruct (has_key merge_key kv).
  - destruct (collectMergeSources kv.2) as [ss|]; cbn [mbind option_bind].
    + rewrite !IH. naive_solver.
    + rewrite merge_entry_None. split; [by intros [? ?]|]. intros [Hs _]. by destruct (Hs eq_refl).
  - rewrite !IH. naive_solver.
Qed.

(** A mapping is the overlay of its entries in their order. *)
Lemma find_entries k l : ∀ acc merged, foldl merge_entry (Some acc) l = Some merged →
  find_key k merged = laid (find_key k acc) (l ≫= contributed k).
Proof.
  induction l as [|kv l IH]; intros acc merged; cbn [foldl]; [by intros [= ->]|].
  change (merge_entry (Some acc) kv) with (if has_key merge_key kv
    then collectMergeSources kv.2 ≫= λ ss, Some (foldl mergeMappingInto acc ss) else Some (setOrDeepMergeKey acc (node_value kv.1) kv.2)).
  change ((kv :: l) ≫= contributed k) with (contributed k kv ++ (l ≫= contributed k)). unfold laid. rewrite foldl_app. unfold contributed at 1.
  destruct (has_key merge_key kv).
  - destruct (collectMergeSources kv.2) as [ss|]; cbn [mbind option_bind]; [|by rewrite merge_entry_None]. intros Hm. apply IH in Hm. rewrite Hm, find_sources. done.
  - intros Hm. apply IH in Hm. rewrite Hm, find_set. case_decide as E1; case_decide as E2; try done; congruence.
Qed.

(** *** Expanded documents *)

Inductive expanded : ynode → Prop :=
| ExScalar t v : expanded (YScalar t v)
| ExSeq l : Forall expanded l → expanded (YSeq l)
| ExMap l : NoDup (node_value <$> l.*1) → Forall (λ kv, kv.1 = str_key (node_value kv.1) ∧ node_value kv.1 ≠ merge_key ∧ expanded kv.2) l → expanded (YMap l)
| ExAlias a t : expanded t → expanded (YAlias a t).

Definition wf_map (l : list (ynode * ynode)) : Prop :=
  NoDup (node_value <$> l.*1) ∧ Forall (λ kv, kv.1 = str_key (node_value kv.1) ∧ node_value kv.1 ≠ merge_key ∧ expanded kv.2) l.

Lemma expanded_map l : expanded (YMap l) ↔ wf_map l.
Proof. split; [by inversion 1|intros []; by constructor]. Qed.

Lemma map_of_expanded n l : expanded n → map_of n = Some l → wf_map l.
Proof.
  intros Hn Hm. apply expanded_map. destruct Hn as [| | |a t Ht]; cbn in Hm; try done; [injection Hm as <-; by constructor|].
  destruct t; [done..|by injection Hm as <-|done].
Qed.

Lemma find_key_wf k l : wf_map l →
  match find_key k l with Some v => expanded v | None => k ∉ node_value <$> l.*1 end.
Proof.
  intros [_ Hl]. induction Hl as [|kv l (E & _ & He) _ IH]; [apply not_elem_of_nil|]. rewrite find_key_cons. unfold has_key. rewrite E. cbn.
  case_bool_decide as Hk; [done|]. destruct (find_key k l); [done|]. apply not_elem_of_cons. split; [congruence|done].
Qed.

Lemma put_key_wf k v l : wf_map l → expanded v → wf_map (put_key k v l).
Proof.
  intros [Hn Hl] Hv. assert (Hk : (put_key k v l).*1 = l.*1).
  { clear. induction l as [|kv l IH]; cbn [put_key]; [done|]. destruct (has_key k kv); cbn; [done|by rewrite IH]. }
  split; [by rewrite Hk|]. clear Hk Hn. induction Hl as [|kv l (E & Hm & He) Hl IH]; cbn [put_key]; [constructor|].
  destruct (has_key k kv); constructor; auto.
Qed.

(** Merging what is under [v] keeps mappings well formed. *)
Definition merges_wf (v : ynode) : Prop := ∀ base src, map_of v = Some src → wf_map base → wf_map src → wf_map (mergeMappingInto base src).

Lemma set_wf v dst key : merges_wf v → wf_map dst → key ≠ merge_key → expanded v → wf_map (setOrDeepMergeKey dst key v).
Proof.
  intros Hm Hd Hk He. rewrite set_unfold. pose proof (find_key_wf key dst Hd) as Hf. destruct (find_key key dst) as [ex|].
  - apply put_key_wf; [done|]. unfold overlaid. destruct (map_of v) as [src|] eqn:Ev; [|done]. cbn. destruct (map_of ex) as [base|] eqn:Eb; [|done].
    apply expanded_map. apply Hm; [done|by apply (map_of_expanded ex)|by apply (map_of_expanded v)].
  - destruct Hd as [Hn Hl]. split.
    + rewrite fmap_app, fmap_app. cbn. apply NoDup_app. split_and!; [done|intros x Hx Hy; apply list_elem_of_singleton in Hy; by subst|apply NoDup_singleton].
    + apply Forall_app. split; [done|]. by repeat constructor.
Qed.

Lemma merge_wf src : Forall (λ kv, merges_wf kv.2) src → ∀ base, wf_map base → wf_map src → wf_map (mergeMappingInto base src).
Proof.
  intros IH. induction IH as [|kv src Hkv _ IHs]; intros base Hb [Hn Hs]; [done|]. apply Forall_cons in Hs as [(E & Hm & He) Hs].
  apply NoDup_cons in Hn as [_ Hn]. apply IHs; [by apply set_wf|by split].
Qed.

Lemma all_merges_wf v : merges_wf v.
Proof.
  induction v as [t v|l IH|l IH|a t IH] using ynode_nested; intros base src Hm Hb Hs; try done.
  - injection Hm as <-. apply merge_wf; [|done..]. eapply Forall_impl; [exact IH|]. by intros ? [_ ?].
  - apply (IH base src); try done. by destruct t.
Qed.

Lemma wf_nil : wf_map [].
Proof. split; constructor. Qed.

(** The keys of a document are scalars. *)
Inductive scalar_keys : ynode → Prop :=
| SkScalar t v : scalar_keys (YScalar t v)
| SkSeq l : Forall scalar_keys l → scalar_keys (YSeq l)
| SkMap l : Forall (λ kv, is_scalar kv.1 = true ∧ scalar_keys kv.2) l → scalar_keys (YMap l)
| SkAlias a t : scalar_keys t → scalar_keys (YAlias a t).

Lemma sources_wf n ss : expanded n → collectMergeSources n = Some ss → Forall wf_map ss.
Proof.
  intros Hn Hc. assert (Hd : expanded (derefAlias n)) by (destruct Hn; [by constructor..|done]). unfold collectMergeSources in Hc.
  destruct (derefAlias n) as [|l|l|] eqn:E; try done.
  - apply mapM_Some_1 in Hc. inversion Hd as [|? Hl| |]; subst. clear -Hc Hl. induction Hc as [|x s l ss Hx _ IH]; [constructor|].
    apply Forall_cons in Hl as [Hx' Hl]. constructor; [by apply (map_of_expanded x)|by apply IH].
  - injection Hc as <-. constructor; [by apply expanded_map|constructor].
Qed.

Lemma entries_wf l : Forall (λ kv, is_scalar kv.1 = true ∧ expanded kv.2) l → ∀ acc merged, wf_map acc → foldl merge_entry (Some acc) l = Some merged → wf_map merged.
Proof.
  induction 1 as [|kv l [Hk He] _ IH]; intros acc merged Ha; cbn [foldl]; [by intros [= ->]|].
  change (merge_entry (Some acc) kv) with (if has_key merge_key kv
    then collectMergeSources kv.2 ≫= λ ss, Some (foldl mergeMappingInto acc ss) else Some (setOrDeepMergeKey acc (node_value kv.1) kv.2)).
  destruct (has_key merge_key kv) eqn:Em.
  - destruct (collectMergeSources kv.2) as [ss|] eqn:Ec; cbn [mbind option_bind]; [|by rewrite merge_entry_None]. apply IH.
    pose proof (sources_wf _ _ He Ec) as Hs. clear -Ha Hs. revert acc Ha. induction Hs as [|s ss Hs _ IH]; intros acc Ha; [done|]. cbn. apply IH.
    apply merge_wf; [|done..]. apply Forall_forall. intros kv _. apply all_merges_wf.
  - apply IH. apply set_wf; [apply all_merges_wf|done| |done]. unfold has_key in Em. rewrite Hk in Em. cbn in Em. by apply bool_decide_eq_false in Em.
Qed.

Lemma expand_expands n : scalar_keys n → ∀ n', expandDeepMergeKeys n = Some n' → expanded n'.
Proof.
  induction n as [t v|l IH|l IH|a t IH] using ynode_nested; intros Hk n' Hn; cbn [expandDeepMergeKeys] in Hn.
  - injection Hn as <-. constructor.
  - apply fmap_Some in Hn as (l' & Hl & ->). apply mapM_Some_1 in Hl. inversion Hk as [|? Hkl| |]; subst. constructor. clear Hk.
    induction Hl as [|x y l l' Hx _ IHl]; [constructor|]. apply Forall_cons in IH as [IHx IH]. apply Forall_cons in Hkl as [Hkx Hkl]. constructor; auto.
  - inversion Hk as [| |? Hkl|]; subst. apply bind_Some in Hn as (l' & Hl & Hn). apply fmap_Some in Hn as (merged & Hm & ->). apply mapM_Some_1 in Hl.
    apply expanded_map. apply (entries_wf l' ) with (acc := []); [|apply wf_nil|done]. clear Hm Hk.
    induction Hl as [|kv kv' l l' Hx _ IHl]; [constructor|]. apply Forall_cons in IH as [[_ IHx] IH]. apply Forall_cons in Hkl as [[Hs Hkx] Hkl].
    constructor; [|auto]. apply bind_Some in Hx as (k & Ek & Hx). apply bind_Some in Hx as (v & Ev & [= <-]). cbn. split; [|auto].
    destruct (kv.1); try done. by injection Ek as <-.
  - apply fmap_Some in Hn as (t' & Ht & ->). inversion Hk; subst. constructor. auto.
Qed.

(** An expanded document stays as it is. *)
Lemma entries_append l : ∀ acc, wf_map (acc ++ l) → foldl merge_entry (Some acc) l = Some (acc ++ l).
Proof.
  induction l as [|kv l IH]; intros acc Ha; [by rewrite app_nil_r|]. cbn [foldl]. destruct Ha as [Hn Hl]. pose proof Hl as Hl'.
  apply Forall_app in Hl as [Hla Hl]. apply Forall_cons in Hl as [(E & Hm & He) Hl].
  assert (Hk : has_key merge_key kv = false) by (unfold has_key; rewrite E; cbn; by apply bool_decide_eq_false).
  change (merge_entry (Some acc) kv) with (if has_key merge_key kv
    then collectMergeSources kv.2 ≫= λ ss, Some (foldl mergeMappingInto acc ss) else Some (setOrDeepMergeKey acc (node_value kv.1) kv.2)).
  rewrite Hk, set_unfold. assert (Hna : NoDup (node_value <$> acc.*1) ∧ node_value kv.1 ∉ node_value <$> acc.*1).
  { rewrite fmap_app, fmap_app in Hn. apply NoDup_app in Hn as (Ha & Hd & _). split; [done|]. intros Hin. apply (Hd _ Hin). left. }
  destruct Hna as [Hna Hni]. pose proof (find_key_wf (node_value kv.1) acc (conj Hna Hla)) as Hf.
  destruct (find_key (node_value kv.1) acc) as [v|] eqn:Ef.
  - exfalso. apply Hni. clear -Ef. induction acc as [|x acc IH]; [done|]. rewrite find_key_cons in Ef. destruct (has_key (node_value kv.1) x) eqn:Eh.
    + unfold has_key in Eh. apply andb_true_iff in Eh as [_ Eh%bool_decide_eq_true]. cbn. rewrite Eh. left.
    + right. by apply IH.
  - rewrite <-E. replace (kv.1, kv.2) with kv by (by destruct kv). rewrite IH; [by rewrite <-app_assoc|]. rewrite <-app_assoc. by split.
Qed.

Lemma expand_expanded n : expanded n → expandDeepMergeKeys n = Some n.
Proof.
  induction n as [t v|l IH|l IH|a t IH] using ynode_nested; intros He; cbn [expandDeepMergeKeys].
  - done.
  - inversion He as [|? Hl| |]; subst. replace (mapM expandDeepMergeKeys l) with (Some l); [done|]. symmetry. apply mapM_Some_2.
    clear He. induction Hl as [|x l Hx _ IHl]; [constructor|]. apply Forall_cons in IH as [IHx IH]. constructor; auto.
  - apply expanded_map in He. replace (mapM _ l) with (Some l); [cbn; by rewrite (entries_append l [])|]. symmetry. apply mapM_Some_2.
    destruct He as [_ Hl]. induction Hl as [|kv l (E & _ & Hx) _ IHl]; [constructor|]. apply Forall_cons in IH as [[_ IHx] IH]. constructor; [|auto].
    destruct kv as [k v]. cbn in *. rewrite IHx by done. rewrite E. done.
  - inversion He; subst. by rewrite IH.
Qed.

(** *** Merging adds no includes *)

Definition in_map (v : string) (l : list (ynode * ynode)) : Prop := v ∈ include_values (YMap l).

Lemma in_map_cons v kv l : in_map v (kv :: l) ↔ v ∈ include_values kv.1 ∨ v ∈ include_values kv.2 ∨ in_map v l.
Proof. unfold in_map. change (include_values (YMap (kv :: l))) with ((include_values kv.1 ++ include_values kv.2) ++ include_values (YMap l)). rewrite !elem_of_app. tauto. Qed.

Lemma in_map_app v l1 l2 : in_map v (l1 ++ l2) ↔ in_map v l1 ∨ in_map v l2.
Proof. unfold in_map. cbn [include_values]. by rewrite bind_app, elem_of_app. Qed.

Lemma put_values k x l v : in_map v (put_key k x l) → in_map v l ∨ v ∈ include_values x.
Proof.
  induction l as [|kv l IH]; cbn [put_key]; [by left|]. destruct (has_key k kv); rewrite !in_map_cons; cbn [fst snd]; tauto.
Qed.

Lemma map_of_values n l v : map_of n = Some l → in_map v l → v ∈ include_values n.
Proof. destruct n as [| | |a [| | |]]; cbn; intros [= <-]; done. Qed.

Lemma find_values k l x v : find_key k l = Some x → v ∈ include_values x → in_map v l.
Proof.
  induction l as [|kv l IH]; [done|]. rewrite find_key_cons, in_map_cons. destruct (has_key k kv); [intros [= ->]; tauto|]. intros Hf Hv. right. right. by apply IH.
Qed.

Definition merges_in (x : ynode) : Prop := ∀ base src v, map_of x = Some src → in_map v (mergeMappingInto base src) → in_map v base ∨ in_map v src.

Lemma set_values x dst key v : merges_in x → in_map v (setOrDeepMergeKey dst key x) → in_map v dst ∨ v ∈ include_values x.
Proof.
  intros Hm. rewrite set_unfold. destruct (find_key key dst) as [ex|] eqn:Ef.
  - intros [Hv|Hv]%put_values; [by left|]. unfold overlaid in Hv. destruct (map_of x) as [src|] eqn:Ex; [|by right]. cbn in Hv.
    destruct (map_of ex) as [base|] eqn:Eb; [|by right]. destruct (Hm base src v Ex Hv) as [H1|H1].
    + left. eapply find_values; [exact Ef|]. by eapply map_of_values.
    + right. by eapply map_of_values.
  - rewrite in_map_app, in_map_cons. cbn [fst snd]. intros [?|[H1|[?|H1]]]; [by left|by apply elem_of_nil in H1|by right|by apply elem_of_nil in H1].
Qed.

Lemma merge_values src : Forall (λ kv, merges_in kv.2) src → ∀ base v, in_map v (mergeMappingInto base src) → in_map v base ∨ in_map v src.
Proof.
  induction 1 as [|kv src Hkv _ IH]; intros base v; [by left|]. intros Hv. apply IH in Hv as [Hv|Hv]; [|right; apply in_map_cons; tauto].
  apply set_values in Hv as [?|?]; [by left|right; apply in_map_cons; tauto|done].
Qed.

Lemma all_merges_in x : merges_in x.
Proof.
  induction x as [t w|l IH|l IH|a t IH] using ynode_nested; intros base src v Hm; try done.
  - injection Hm as <-. apply merge_values. eapply Forall_impl; [exact IH|]. by intros ? [_ ?].
  - apply (IH base src v). by destruct t.
Qed.

Lemma source_values n ss s v : collectMergeSources n = Some ss → s ∈ ss → in_map v s → v ∈ include_values n.
Proof.
  intros Hc Hs Hv. assert (Hd : v ∈ include_values (derefAlias n) → v ∈ include_values n) by (by destruct n). apply Hd. clear Hd.
  unfold collectMergeSources in Hc. destruct (derefAlias n) as [|l|l|]; try done.
  - apply mapM_Some_1 in Hc. apply elem_include_seq. apply list_elem_of_lookup in Hs as [i Hi]. destruct (Forall2_lookup_r _ _ _ _ _ Hc Hi) as (x & Hx & Ex).
    exists x. split; [by eapply list_elem_of_lookup_2|]. by eapply map_of_values.
  - injection Hc as <-. apply list_elem_of_singleton in Hs as ->. done.
Qed.

Lemma entries_values l : ∀ acc merged v, foldl merge_entry (Some acc) l = Some merged → in_map v merged → in_map v acc ∨ in_map v l.
Proof.
  induction l as [|kv l IH]; intros acc merged v; cbn [foldl]; [intros [= ->]; by left|].
  change (merge_entry (Some acc) kv) with (if has_key merge_key kv
    then collectMergeSources kv.2 ≫= λ ss, Some (foldl mergeMappingInto acc ss) else Some (setOrDeepMergeKey acc (node_value kv.1) kv.2)).
  rewrite in_map_cons. destruct (has_key merge_key kv).
  - destruct (collectMergeSources kv.2) as [ss|] eqn:Ec; cbn [mbind option_bind]; [|by rewrite merge_entry_None]. intros Hm Hv.
    destruct (IH _ _ _ Hm Hv) as [H1|H1]; [|tauto].
    assert (Hss : ∀ acc, in_map v (foldl mergeMappingInto acc ss) → in_map v acc ∨ ∃ s, s ∈ ss ∧ in_map v s).
    { clear. induction ss as [|s ss IH]; intros acc; cbn [foldl]; [by left|]. intros [Hv|(s' & Hs' & Hv)]%IH; [|right; exists s'; split; [by right|done]].
      apply merge_values in Hv as [?|?]; [by left|right; exists s; split; [left|done]|]. apply Forall_forall. intros ? _. apply all_merges_in. }
    apply Hss in H1 as [H1|(s & Hs & H1)]; [by left|]. right. right. left. by eapply source_values.
  - intros Hm Hv. destruct (IH _ _ _ Hm Hv) as [H1|H1]; [|tauto]. apply set_values in H1; [tauto|apply all_merges_in].
Qed.

Lemma expand_values n : ∀ n' v, expandDeepMergeKeys n = Some n' → v ∈ include_values n' → v ∈ include_values n.
Proof.
  induction n as [t w|l IH|l IH|a t IH] using ynode_nested; intros n' v Hn Hv; cbn [expandDeepMergeKeys] in Hn.
  - by injection Hn as <-.
  - apply fmap_Some in Hn as (l' & Hl & ->). apply mapM_Some_1 in Hl. apply elem_include_seq in Hv as (x & Hx & Hv). apply elem_include_seq.
    apply list_elem_of_lookup in Hx as [i Hi]. destruct (Forall2_lookup_r _ _ _ _ _ Hl Hi) as (y & Hy & Ey). exists y. split; [by eapply list_elem_of_lookup_2|].
    rewrite Forall_lookup in IH. by eapply IH.
  - apply bind_Some in Hn as (l' & Hl & Hn). apply fmap_Some in Hn as (merged & Hm & ->). apply mapM_Some_1 in Hl.
    destruct (entries_values l' [] merged v Hm Hv) as [H1|H1]; [by apply elem_of_nil in H1|]. apply elem_include_map in H1 as (kv' & Hin & H1).
    apply elem_include_map. apply list_elem_of_lookup in Hin as [i Hi]. destruct (Forall2_lookup_r _ _ _ _ _ Hl Hi) as (kv & Hkv & E).
    exists kv. split; [by eapply list_elem_of_lookup_2|]. rewrite Forall_lookup in IH. destruct (IH _ _ Hkv) as [IHk IHv].
    apply bind_Some in E as (k & Ek & E). apply bind_Some in E as (x & Ex & [= <-]). cbn in H1. apply elem_of_app in H1 as [H1|H1]; apply elem_of_app; eauto.
  - apply fmap_Some in Hn as (t' & Ht & ->). by eapply IH.
Qed.
