(* ===== verification/SpecCompiler.v ===== *)
(** * The spec compiler ([internal/speccompiler/compiler.go], [refs.go], [overrides.go],
      [internal/server/handlers/runs_submit_spec.go])

    An authored spec becomes the spec of a run: it is composed from its files, steps that
    refer to steps of other specs are replaced by them, one step may be selected, values of
    the environment and of the caller are put in, and the result is validated. Specs are
    objects of JSON while they are compiled; a Go map is a list of fields with distinct keys.
    The decoding of composed YAML is a parameter, and so are the file records, whose
    compilation reads and uploads files. *)

From stdpp Require Import base gmap sets list strings.
From S2P Require Import Prelude GoStrings Types Json JsonText JobMeta Hydra Spec Claim Sse GateImage Compose.
From Stdlib Require Import ZArith Lia Ascii.
Local Open Scope list_scope.

Abbreviation fields := (list (string * json)).

Inductive CompileError :=
| CeWrapper (i : nat) | CeRefRequired (i : nat) | CeRefSyntax | CeRefCycle (cycle : list string) | CeUnread (path : string)
| CeParse | CeCompose (e : IncludeError) | CeStep (name : string) | CeEnvs | CeMissing (names : string) | CeStack (i : nat) | CeImage (i : nat) (err : string)
| CeGate | CeOverride | CeShape | CeRecords | CeInvalid (e : SpecError) | CeFuel.

(** Results that may be errors. *)
#[export] Instance compile_ret : MRet (sum CompileError) := λ A x, inr x.
#[export] Instance compile_bind : MBind (sum CompileError) := λ A B f r, match r with inl e => inl e | inr x => f x end.
#[export] Instance compile_fmap : FMap (sum CompileError) := λ A B f r, match r with inl e => inl e | inr x => inr (f x) end.

Definition required {A} (e : CompileError) (o : option A) : CompileError + A := match o with Some x => inr x | None => inl e end.

(** A loop over a list with indices, up to the first error. *)
Fixpoint traverse {A B} (f : nat → A → CompileError + B) (i : nat) (l : list A) : CompileError + list B :=
  match l with
  | [] => inr []
  | x :: l' => y ← f i x; ys ← traverse f (S i) l'; inr (y :: ys)
  end.

Definition steps_of (spec : fields) : option (list json) := match obj_get "steps" spec with Some (JArr l) => Some l | _ => None end.

Class YamlLib := { yaml_map : ynode → option fields }.

(** ** Parsing *)

Definition composeSpecRootPath (specBaseDir : string) : string := join_path (trim_space specBaseDir) ".root-spec.yaml".

Section Parse.
Context `{YamlLib} (src : Source).

Definition parseSpecInputToMap (file : SpecFile) (specBaseDir : string) : CompileError + fields :=
  match sf_json file with
  | Some (JObj fs) => inr fs
  | Some JNull => inl CeParse
  | _ =>
      match sf_yaml file with
      | None => inl CeParse
      | Some doc =>
          match composeSpecYAML src (composeSpecRootPath specBaseDir) doc with
          | inl e => inl (CeCompose e)
          | inr composed => required CeParse (yaml_map composed)
          end
      end
  end.

(** ** Steps *)

(** All steps have distinct names. *)
Fixpoint named_steps (i : nat) (seen : gmap string fields) (l : list json) : option (gmap string fields) :=
  match l with
  | [] => Some seen
  | JObj step :: l' =>
      match obj_get "name" step with
      | Some (JStr raw) =>
          let name := trim_space raw in
          if decide (name = "") then None
          else match seen !! name with Some _ => None | None => named_steps (S i) (<[name := step]> seen) l' end
      | _ => None
      end
  | _ :: _ => None
  end.

Definition selectNamedStep (spec : fields) (stepName : string) : CompileError + fields :=
  required (CeStep stepName) (steps ← steps_of spec; byName ← named_steps 0 ∅ steps; byName !! stepName).

Definition selectStepInPlace (spec : fields) (stepSelector : string) : CompileError + fields :=
  let selector := trim_space stepSelector in
  if decide (selector = "") then inr spec
  else step ← selectNamedStep spec selector; inr (obj_set "steps" (JArr [JObj step]) spec).

Definition normalizeStepMountList (kind : HydraFileKind) (sourcePath out : string) (step : fields) : fields :=
  match obj_get (HydraFileKind_String kind) step with
  | Some (JArr l) =>
      obj_set (HydraFileKind_String kind)
        (JArr ((λ e, match e with JStr s => JStr (rebaseMountEntrySource kind s sourcePath out) | _ => e end) <$> l)) step
  | _ => step
  end.

Definition normalizeStepLocalPaths (step : fields) (sourcePath out : string) : fields :=
  foldl (λ st kind, normalizeStepMountList kind sourcePath out st) step HydraFileKinds.

(** ** References to steps *)

Definition parseSpecStepRef (rawRef sourcePath : string) : CompileError + string * string :=
  let ref := trim_space rawRef in
  match cut_last colon (to_bytes ref) with
  | None => inl CeRefSyntax
  | Some (p, q) =>
      let pathPart := trim_space (of_bytes p) in
      let stepName := trim_space (of_bytes q) in
      if decide (pathPart = "" ∨ stepName = "") then inl CeRefSyntax
      else
        let exists_ f := bool_decide (f ∈ src_dirs src ∨ is_Some (src_files src !! f)) in
        match src_ResolveReference src pathPart (dir sourcePath) with
        | None => inl CeRefSyntax
        | Some specPath =>
            if negb (exists_ specPath) then inl (CeUnread specPath)
            else if decide (specPath ∈ src_dirs src)
            then let specPath := join_path specPath "mig.yaml" in
                 if exists_ specPath then inr (specPath, stepName) else inl (CeUnread specPath)
            else inr (specPath, stepName)
        end
  end.

Definition ref_id (specPath stepName : string) : string := specPath +:+ ":" +:+ stepName.

(** [specRefStack.with] *)
Definition with_ref (ids : list string) (id : string) : CompileError + list string :=
  match list_find (eq id) ids with
  | Some (i, _) => inl (CeRefCycle (drop i ids ++ [id]))
  | None => inr (ids ++ [id])
  end.

Definition wrapper_key (kv : string * json) : bool := bool_decide (kv.1 = "ref" ∨ kv.1 = "envs" ∨ kv.1 = "image").

Definition is_string (kv : string * json) : bool := match kv.2 with JStr _ => true | _ => false end.

Definition applyRefStepEnvOverlay (imported wrapper : fields) : CompileError + fields :=
  match obj_get "envs" wrapper with
  | None => inr imported
  | Some (JObj overlay) =>
      importedEnvs ← match obj_get "envs" imported with None => inr [] | Some (JObj fs) => inr fs | Some _ => inl CeEnvs end;
      if negb (forallb is_string overlay) then inl CeEnvs
      else
        let merged := foldl (λ acc kv, obj_set kv.1 kv.2 acc) importedEnvs overlay in
        inr (match merged with [] => imported | _ => obj_set "envs" (JObj merged) imported end)
  | Some _ => inl CeEnvs
  end.

Definition applyRefStepImageOverride (imported wrapper : fields) : fields :=
  match obj_get "image" wrapper with Some image => obj_set "image" image imported | None => imported end.

(** A step with its reference replaced; [load] finds the step that is referred to. *)
Definition expand_step (load : string → CompileError + fields) (i : nat) (raw : json) : CompileError + json :=
  match raw with
  | JObj step =>
      match obj_get "ref" step with
      | None => inr raw
      | Some refRaw =>
          if negb (forallb wrapper_key step) then inl (CeWrapper i)
          else match refRaw with
               | JStr ref =>
                   if blank ref then inl (CeRefRequired i)
                   else imported ← load ref;
                        imported ← applyRefStepEnvOverlay imported step;
                        inr (JObj (applyRefStepImageOverride imported step))
               | _ => inl (CeRefRequired i)
               end
      end
  | _ => inr raw
  end.

Definition expand_steps (load : string → CompileError + fields) (spec : fields) : CompileError + fields :=
  match steps_of spec with
  | None => inr spec
  | Some steps => steps' ← traverse (expand_step load) 0 steps; inr (obj_set "steps" (JArr steps') spec)
  end.

(** [loadReferencedStep]; [n] bounds the depth of references within references. *)
Fixpoint loadReferencedStep (n : nat) (out : string) (sourcePath : string) (stack : list string) (rawRef : string) : CompileError + fields :=
  '(refSpecPath, stepName) ← parseSpecStepRef rawRef sourcePath;
  nextStack ← with_ref stack (ref_id refSpecPath stepName);
  match n with
  | 0 => inl CeFuel
  | S n' =>
      file ← required (CeUnread refSpecPath) (src_files src !! refSpecPath);
      spec ← parseSpecInputToMap file (dir refSpecPath);
      spec ← expand_steps (loadReferencedStep n' out refSpecPath nextStack) spec;
      step ← selectNamedStep spec stepName;
      inr (normalizeStepLocalPaths step refSpecPath out)
  end.

(** The references of a spec. *)
Definition ref_values (spec : fields) : list string :=
  default [] (steps_of spec) ≫= λ raw, match raw with JObj step => match obj_get "ref" step with Some (JStr r) => [r] | _ => [] end | _ => [] end.

Definition spec_refs (sourcePath : string) (spec : fields) : list string :=
  ref_values spec ≫= λ r, match parseSpecStepRef r sourcePath with inr (p, s) => [ref_id p s] | inl _ => [] end.

(** All steps that can be referred to. *)
Definition all_refs (sourcePath : string) (spec : fields) : list string :=
  spec_refs sourcePath spec
  ++ (map_to_list (src_files src) ≫= λ fd, match parseSpecInputToMap fd.2 (dir fd.1) with inr s => spec_refs fd.1 s | inl _ => [] end).

(** A chain of references never repeats. *)
Definition expandSpecRefsInPlace (spec : fields) (sourcePath : string) : CompileError + fields :=
  expand_steps (loadReferencedStep (length (all_refs sourcePath spec)) (dir sourcePath) sourcePath []) spec.

End Parse.

(** ** The environment *)

(** [snapshotNamedSpecEnvironment] *)
Definition snapshotNamedSpecEnvironment (allowlist : list string) (env : string → option string) (name : string) : option string :=
  if decide (name ∈ allowlist) then env name else None.

Section Env.
Context `{GoFmt} `{GateHost} (lookupEnv : string → option string).

Definition expandSpecEnvValue (raw : string) : CompileError + string :=
  if negb (contains raw "$") then inr raw
  else
    let qs := find_all env_placeholder raw in
    let missing : gset string := list_to_set (filter (λ n, lookupEnv n = None) (placeholders qs)) in
    if decide (missing ≠ ∅) then inl (CeMissing (joinSortedKeys missing))
    else inr (replaced (λ n, default "" (lookupEnv n)) qs).

(** The values of an object that are strings expanded; [strict] refuses others. *)
Definition expand_fields (strict : bool) (fs : fields) : CompileError + fields :=
  traverse (λ _ kv, match kv.2 with
                    | JStr s => v ← expandSpecEnvValue s; inr (kv.1, JStr v)
                    | _ => if strict then inl CeEnvs else inr kv
                    end) 0 fs.

Definition resolveEnvsInPlace (spec : fields) : CompileError + fields :=
  match obj_get "envs" spec with
  | Some (JObj envs) => envs' ← expand_fields true envs; inr (obj_set "envs" (JObj envs') spec)
  | _ => inr spec
  end.

Definition resolveImageInSection (section : fields) : CompileError + fields :=
  match obj_get "image" section with
  | Some (JStr image) => v ← expandSpecEnvValue image; inr (obj_set "image" (JStr v) section)
  | Some (JObj byStack) => m ← expand_fields false byStack; inr (obj_set "image" (JObj m) section)
  | _ => inr section
  end.

(** A field of the stack of a rule: absent or [null], a string, or an error. *)
Definition stack_field (stack : fields) (key : string) (read : json → option string) : option string :=
  match obj_get key stack with None | Some JNull => Some "" | Some v => read v end.

Definition json_string (j : json) : option string := match j with JStr s => Some s | _ => None end.

Definition stackExpectationFromBuildGateRule (rule : fields) (i : nat) : CompileError + option StackExpectation :=
  match obj_get "stack" rule with
  | None | Some JNull => inr None
  | Some (JObj stack) =>
      required (CeStack i)
        (language ← stack_field stack "language" json_string;
         tool ← stack_field stack "tool" json_string;
         release ← stack_field stack "release" ParseReleaseValue;
         Some (Some (mkStackExpectation (trim_space language) (trim_space tool) (trim_space release))))
  | Some _ => inl (CeStack i)
  end.

(** The image of a rule is expanded in the environment of the process. *)
Definition resolve_rule (i : nat) (item : json) : CompileError + json :=
  match item with
  | JObj rule =>
      match obj_get "image" rule with
      | Some (JStr image) =>
          stackExp ← stackExpectationFromBuildGateRule rule i;
          match ExpandImageTemplate image stackExp with
          | inl err => inl (CeImage i err)
          | inr expanded => inr (JObj (obj_set "image" (JStr expanded) rule))
          end
      | _ => inr item
      end
  | _ => inr item
  end.

Definition resolveBuildGateImageRulesInPlace (buildGate : fields) : CompileError + fields :=
  match obj_get "images" buildGate with
  | Some (JArr images) => images' ← traverse resolve_rule 0 images; inr (obj_set "images" (JArr images') buildGate)
  | _ => inr buildGate
  end.

(** A function on the steps that are objects. *)
Definition on_steps (f : fields → CompileError + fields) (spec : fields) : CompileError + fields :=
  match steps_of spec with
  | None => inr spec
  | Some steps =>
      steps' ← traverse (λ _ s, match s with JObj step => JObj <$> f step | _ => inr s end) 0 steps;
      inr (obj_set "steps" (JArr steps') spec)
  end.

Definition resolveImageEnvInPlace (spec : fields) : CompileError + fields :=
  spec ← on_steps resolveImageInSection spec;
  match obj_get "build_gate" spec with
  | None => inr spec
  | Some (JObj bg) => bg' ← resolveBuildGateImageRulesInPlace bg; inr (obj_set "build_gate" (JObj bg') spec)
  | Some _ => inl CeGate
  end.

Definition preprocessMigsSpecInPlace (spec : fields) : CompileError + fields :=
  spec ← resolveImageEnvInPlace spec;
  spec ← resolveEnvsInPlace spec;
  on_steps resolveEnvsInPlace spec.

End Env.

(** ** Overrides *)

Definition splitStepEnvAssignment (raw : string) : CompileError + string * string :=
  match cut raw "="%char with
  | None => inl CeOverride
  | Some (k, v) => let key := trim_space k in if decide (key = "") then inl CeOverride else inr (key, v)
  end.

Definition stepEnvMap (step : fields) : CompileError + fields :=
  match obj_get "envs" step with None | Some JNull => inr [] | Some (JObj envs) => inr envs | Some _ => inl CeOverride end.

(** The name a step is known by, if it has one. *)
Definition step_name (step : fields) : string :=
  match obj_get "name" step with Some (JStr raw) => trim_space raw | _ => "" end.

Fixpoint set_assignments (envs : fields) (assignments : list string) : CompileError + fields :=
  match assignments with
  | [] => inr envs
  | a :: rest => '(k, v) ← splitStepEnvAssignment a; set_assignments (obj_set k (JStr v) envs) rest
  end.

Definition override_step (assignments : list string) (step : fields) : CompileError + fields :=
  envs ← stepEnvMap step; envs ← set_assignments envs assignments; inr (obj_set "envs" (JObj envs) step).

(** The steps, all of them objects, with the names distinct where there are any. *)
Definition override_targets (spec : fields) : CompileError + list fields :=
  steps ← required CeOverride (steps_of spec);
  objs ← required CeOverride (mapM (λ s, match s with JObj step => Some step | _ => None end) steps);
  if bool_decide (NoDup (filter (λ n, n ≠ "") (step_name <$> objs))) then inr objs else inl CeOverride.

(** The overrides are by step name. *)
Definition apply_overrides (overrides : gmap string (list string)) (steps : list fields) : CompileError + list fields :=
  if negb (forallb (λ o, negb (bool_decide (o.1 = "")) && bool_decide (o.1 ∈ step_name <$> steps)) (map_to_list overrides))
  then inl CeOverride
  else traverse (λ _ step, match (if decide (step_name step = "") then None else overrides !! step_name step) with
                           | Some assignments => override_step assignments step
                           | None => inr step
                           end) 0 steps.

Definition applyStepEnvOverridesInPlace (spec : fields) (overrides : gmap string (list string)) : CompileError + fields :=
  if decide (overrides = ∅) then inr spec
  else
    steps ← override_targets spec;
    steps' ← apply_overrides overrides steps;
    inr (obj_set "steps" (JArr (JObj <$> steps')) spec).

(** Gates forced to a stack. *)
Definition objectField (parent : fields) (field : string) : CompileError + fields :=
  match obj_get field parent with None | Some JNull => inr [] | Some (JObj o) => inr o | Some _ => inl CeOverride end.

Definition applyBuildGateForcedPhaseOverride (phaseName : string) (stack : BuildGateStackConfig) (buildGate : fields) : CompileError + fields :=
  phase ← objectField buildGate phaseName;
  let base := [("mode", JStr "forced"); ("language", JStr (bsc_Language stack)); ("release", JStr (bsc_Release stack))] in
  let stackMap := if blank (bsc_Tool stack) then base else base ++ [("tool", JStr (bsc_Tool stack))] in
  inr (obj_set phaseName (JObj (obj_set "stack" (JObj stackMap) phase)) buildGate).

Definition ApplyBuildGateForcedOverrides `{GoFmt} `{SpecLib} (spec : fields) (pre post : option BuildGateStackConfig) : CompileError + json :=
  buildGate ← objectField spec "build_gate";
  let buildGate := obj_set "disabled" (JBool false) buildGate in
  buildGate ← match pre with Some c => applyBuildGateForcedPhaseOverride "pre" c buildGate | None => inr buildGate end;
  buildGate ← match post with Some c => applyBuildGateForcedPhaseOverride "post" c buildGate | None => inr buildGate end;
  let mutated := JObj (obj_set "build_gate" (JObj buildGate) spec) in
  match ParseMigSpecJSON (RawJson mutated) with inl e => inl (CeInvalid e) | inr _ => inr mutated end.

(** ** Compilation *)

Record Overrides := mkOverrides { ov_Envs : list string; ov_StepEnvs : gmap string (list string); ov_Image : string; ov_Command : string }.

(** One assignment of the caller: without [=] the value is empty, without a key it is skipped. *)
Definition env_override (envs : fields) (kv0 : string) : fields :=
  let kv := trim_space kv0 in
  if decide (kv = "") then envs
  else
    let '(k, v) := match cut kv "="%char with Some (k, v) => (trim_space k, v) | None => (kv, "") end in
    if decide (k = "") then envs else obj_set k (JStr v) envs.

Definition override_envs (overrides : list string) (spec : fields) : fields :=
  match overrides with
  | [] => spec
  | _ =>
      let existing := match obj_get "envs" spec with Some (JObj envs) => filter (λ kv, is_string kv = true) envs | _ => [] end in
      match foldl env_override existing overrides with [] => spec | envs => obj_set "envs" (JObj envs) spec end
  end.

(** A command that is an array of strings is passed as one. *)
Definition command_value (command : string) : json :=
  if has_prefix command "[" && has_suffix command "]" then
    match parse (to_bytes command) with
    | Some (JArr ((_ :: _) as l)) =>
        match mapM (λ j, match j with JStr s => Some (JStr s) | JNull => Some (JStr "") | _ => None end) l with
        | Some l' => JArr l'
        | None => JStr command
        end
    | _ => JStr command
    end
  else JStr command.

(** Image and command of the caller, for a spec of one step or none. *)
Definition override_step0 (o : Overrides) (spec : fields) : fields :=
  let steps := default [] (steps_of spec) in
  if bool_decide (1 < length steps) || (bool_decide (ov_Image o = "") && bool_decide (ov_Command o = "")) then spec
  else
    let step0 := match steps with [JObj m] => m | _ => [] end in
    let step0 := if decide (ov_Image o = "") then step0 else obj_set "image" (JStr (ov_Image o)) step0 in
    let step0 := if decide (ov_Command o = "") then step0 else obj_set "command" (command_value (ov_Command o)) step0 in
    obj_set "steps" (JArr [JObj step0]) spec.

Section Build.
Context `{GoFmt} `{SpecLib} `{GateHost} `{YamlLib} (src : Source) (lookupEnv : string → option string).
(** The overlay of the caller, and the compilation of local files below a directory. *)
Context (applyOverlay : fields → CompileError + fields) (records : string → fields → CompileError + fields).

Definition validateSpecShape (spec : fields) : CompileError + unit := if schema_valid (JObj spec) then inr () else inl CeShape.

(** The text of a spec is kept as its value. [specFile] is the path of the file, if any. *)
Definition BuildSelected (specFile : option string) (stepSelector : string) (o : Overrides) : CompileError + option json :=
  '(specMap, specBaseDir, sourcePath) ←
    match specFile with
    | Some path =>
        file ← required (CeUnread path) (src_files src !! path);
        spec ← parseSpecInputToMap src file (dir path);
        inr (spec, dir path, path)
    | None => inr ([], "", composeSpecRootPath "")
    end;
  specMap ← expandSpecRefsInPlace src specMap sourcePath;
  specMap ← selectStepInPlace specMap stepSelector;
  specMap ← applyStepEnvOverridesInPlace specMap (ov_StepEnvs o);
  specMap ← preprocessMigsSpecInPlace lookupEnv specMap;
  specMap ← applyOverlay specMap;
  let hasOverrides := negb (bool_decide (ov_Envs o = []) && bool_decide (ov_StepEnvs o = ∅) && bool_decide (ov_Image o = "") && bool_decide (ov_Command o = "")) in
  if bool_decide (specMap = []) && negb hasOverrides then inr None
  else
    _ ← (if bool_decide (is_Some (obj_get "steps" specMap)) || negb hasOverrides then validateSpecShape specMap else inr ());
    let specMap := override_step0 o (override_envs (ov_Envs o) specMap) in
    if decide (specMap = []) then inr None
    else
      _ ← validateSpecShape specMap;
      specMap ← records specBaseDir specMap;
      match ParseMigSpecJSON (RawJson (JObj specMap)) with
      | inl e => inl (CeInvalid e)
      | inr _ => inr (Some (JObj specMap))
      end.

End Build.

(** A spec of a repository, compiled by the server ([resolveRunSubmissionSpec]). *)
Definition compile_named `{GoFmt} `{SpecLib} `{GateHost} `{YamlLib} (src : Source) (allowlist : list string)
    (records : string → fields → CompileError + fields) (path : string) (stepEnvs : gmap string (list string)) : CompileError + option json :=
  BuildSelected src (snapshotNamedSpecEnvironment allowlist host_env) inr records (Some path) "" (mkOverrides [] stepEnvs "" "").

(** ** Facts *)

(** A loop fails with an error of one of its rounds, or all rounds succeed. *)
Lemma traverse_spec {A B} (f : nat → A → CompileError + B) (P : A → B → Prop) l : ∀ i,
  (∀ j x, x ∈ l → match f j x with inl e => e ≠ CeFuel | inr y => P x y end) →
  match traverse f i l with inl e => e ≠ CeFuel | inr ys => Forall2 P l ys end.
Proof.
  induction l as [|x l IH]; intros i Hf; cbn [traverse]; [constructor|]. cbn [mbind compile_bind]. pose proof (Hf i x (list_elem_of_here _ _)) as Hx.
  unfold mbind, compile_bind. destruct (f i x) as [e|y]; [done|]. specialize (IH (S i)).
  assert (Hl : ∀ j z, z ∈ l → match f j z with inl e => e ≠ CeFuel | inr y => P z y end) by (intros j z Hz; apply Hf; by right).
  specialize (IH Hl). destruct (traverse f (S i) l) as [e|ys]; [done|by constructor].
Qed.

Definition ref_free (step : json) : Prop := match step with JObj fs => obj_get "ref" fs = None | _ => True end.

(** The steps of a spec refer to no others. *)
Definition refs_gone (spec : fields) : Prop := ∀ steps, steps_of spec = Some steps → Forall ref_free steps.

Lemma set_other k v k' fs : k ≠ k' → obj_get k (obj_set k' v fs) = obj_get k fs.
Proof. intros Hk. rewrite obj_get_set. by case_decide. Qed.

Lemma overlay_ref imported wrapper r : applyRefStepEnvOverlay imported wrapper = inr r → obj_get "ref" imported = None → obj_get "ref" r = None.
Proof.
  unfold applyRefStepEnvOverlay. intros Hr Hi. unfold mbind, compile_bind in Hr. repeat (case_match; simplify_eq; try done); by rewrite set_other.
Qed.

Lemma image_ref imported wrapper : obj_get "ref" imported = None → obj_get "ref" (applyRefStepImageOverride imported wrapper) = None.
Proof. unfold applyRefStepImageOverride. intros Hi. destruct (obj_get "image" wrapper); [by rewrite set_other|done]. Qed.

(** What a step becomes when its reference is replaced. *)
Lemma expand_step_spec load i raw :
  (∀ r step, raw = JObj step → obj_get "ref" step = Some (JStr r) → match load r with inl e => e ≠ CeFuel | inr fs => obj_get "ref" fs = None end) →
  match expand_step load i raw with inl e => e ≠ CeFuel | inr y => ref_free y end.
Proof.
  intros Hl. destruct raw as [| | | | | |step]; try done. cbn [expand_step]. destruct (obj_get "ref" step) as [r|] eqn:Er; [|done].
  destruct (negb (forallb wrapper_key step)); [done|]. destruct r as [| | | |r| |]; try done. destruct (blank r); [done|].
  specialize (Hl r step eq_refl Er). unfold mbind, compile_bind. destruct (load r) as [e|imported]; [done|].
  destruct (applyRefStepEnvOverlay imported step) as [e|imported'] eqn:Eo.
  - intros ->. unfold applyRefStepEnvOverlay, mbind, compile_bind in Eo. repeat (case_match; simplify_eq; try done).
  - cbn [ref_free]. apply image_ref. by eapply overlay_ref.
Qed.

Lemma expand_steps_spec load spec :
  (∀ r, r ∈ ref_values spec → match load r with inl e => e ≠ CeFuel | inr fs => obj_get "ref" fs = None end) →
  match expand_steps load spec with inl e => e ≠ CeFuel | inr spec' => refs_gone spec' end.
Proof.
  intros Hl. unfold expand_steps. destruct (steps_of spec) as [steps|] eqn:Es; [|intros steps Hs; congruence].
  pose proof (traverse_spec (expand_step load) (λ _ y, ref_free y) steps 0) as Ht. unfold mbind, compile_bind.
  assert (Hs : ∀ j x, x ∈ steps → match expand_step load j x with inl e => e ≠ CeFuel | inr y => ref_free y end).
  { intros j x Hx. apply expand_step_spec. intros r step -> Hr. apply Hl. unfold ref_values. rewrite Es. cbn. apply list_elem_of_bind.
    exists (JObj step). split; [|done]. rewrite Hr. left. }
  specialize (Ht Hs). destruct (traverse (expand_step load) 0 steps) as [e|ys]; [done|]. intros steps' Hs'. unfold steps_of in Hs'.
  rewrite obj_get_set in Hs'. case_decide; [|done]. injection Hs' as <-. clear -Ht. induction Ht; constructor; auto.
Qed.

Lemma normalized_ref kind sp out step : obj_get "ref" (normalizeStepMountList kind sp out step) = obj_get "ref" step.
Proof. unfold normalizeStepMountList. destruct (obj_get _ step) as [[| | | | |l|]|]; try done. rewrite set_other; [done|]. by destruct kind. Qed.

Lemma normalized_step_ref step sp out : obj_get "ref" (normalizeStepLocalPaths step sp out) = obj_get "ref" step.
Proof.
  unfold normalizeStepLocalPaths. generalize HydraFileKinds. intros ks. revert step. induction ks as [|k ks IH]; intros step; [done|].
  cbn [foldl]. by rewrite IH, normalized_ref.
Qed.

Lemma named_steps_in i seen l m name step :
  named_steps i seen l = Some m → m !! name = Some step → seen !! name = Some step ∨ JObj step ∈ l.
Proof.
  revert i seen. induction l as [|x l IH]; intros i seen; cbn [named_steps]; [intros [= ->]; by left|].
  destruct x as [| | | | | |fs]; try done. destruct (obj_get "name" fs) as [[| | | |raw| |]|]; try done. case_decide; [done|].
  destruct (seen !! trim_space raw) eqn:E; [done|]. intros Hm Hs. destruct (IH _ _ Hm Hs) as [H1|H1]; [|right; by right].
  apply lookup_insert_Some in H1 as [[_ <-]|[_ H1]]; [right; left|by left].
Qed.

Lemma selected_in spec name step : selectNamedStep spec name = inr step → ∃ steps, steps_of spec = Some steps ∧ JObj step ∈ steps.
Proof.
  unfold selectNamedStep. destruct (steps_of spec) as [steps|]; [|done]. cbn [mbind option_bind]. destruct (named_steps 0 ∅ steps) as [m|] eqn:E; [|done].
  cbn [mbind option_bind]. destruct (m !! name) as [fs|] eqn:Em; [|done]. intros [= ->]. exists steps. split; [done|].
  by destruct (named_steps_in _ _ _ _ _ _ E Em).
Qed.

Section Refs.
Context `{YamlLib} (src : Source) (sourcePath0 : string) (spec0 : fields).

Lemma parse_not_fuel file base e : parseSpecInputToMap src file base = inl e → e ≠ CeFuel.
Proof. unfold parseSpecInputToMap, required. repeat (case_match; simplify_eq; try done); by intros [= <-]. Qed.

Lemma parse_ref_not_fuel r sp e : parseSpecStepRef src r sp = inl e → e ≠ CeFuel.
Proof. unfold parseSpecStepRef. repeat (case_match; simplify_eq; try done); by intros [= <-]. Qed.

Lemma file_refs path file spec r p s :
  src_files src !! path = Some file → parseSpecInputToMap src file (dir path) = inr spec → r ∈ ref_values spec →
  parseSpecStepRef src r path = inr (p, s) → ref_id p s ∈ all_refs src sourcePath0 spec0.
Proof.
  intros Hf Hp Hr Hs. unfold all_refs. apply elem_of_app. right. apply list_elem_of_bind. exists (path, file). split; [|by apply elem_of_map_to_list].
  cbn. rewrite Hp. unfold spec_refs. apply list_elem_of_bind. exists r. split; [|done]. rewrite Hs. left.
Qed.

(** Loading a step ends, and the step refers to no other. *)
Lemma load_ends n : ∀ out sp stack r,
  (∀ p s, parseSpecStepRef src r sp = inr (p, s) → ref_id p s ∈ all_refs src sourcePath0 spec0) →
  NoDup stack → stack ⊆ all_refs src sourcePath0 spec0 → length (all_refs src sourcePath0 spec0) ≤ n + length stack →
  match loadReferencedStep src n out sp stack r with inl e => e ≠ CeFuel | inr fs => obj_get "ref" fs = None end.
Proof.
  induction n as [|n IH]; intros out sp stack r Hr Hnd Hsub Hlen; cbn [loadReferencedStep]; unfold mbind, compile_bind.
  all: destruct (parseSpecStepRef src r sp) as [e|[p s]] eqn:Ep; [by eapply parse_ref_not_fuel|].
  all: unfold with_ref; destruct (list_find (eq (ref_id p s)) stack) as [[i x]|] eqn:Ef; [done|].
  all: apply list_find_None in Ef; specialize (Hr p s eq_refl).
  all: assert (Hnd' : NoDup (stack ++ [ref_id p s])) by (apply NoDup_app; split_and!;
    [done|intros x Hx Hy; apply list_elem_of_singleton in Hy; subst x; rewrite Forall_forall in Ef; by apply (Ef _ Hx)|apply NoDup_singleton]).
  all: assert (Hsub' : stack ++ [ref_id p s] ⊆ all_refs src sourcePath0 spec0) by
    (intros x [Hx|Hx%list_elem_of_singleton]%elem_of_app; [by apply Hsub|by subst x]).
  all: assert (Hle : length (stack ++ [ref_id p s]) ≤ length (all_refs src sourcePath0 spec0)) by
    (apply submseteq_length, NoDup_submseteq; [done|]; intros x Hx; by apply Hsub').
  all: rewrite length_app in Hle; cbn in Hle.
  { lia. }
  destruct (src_files src !! p) as [file|] eqn:Eff; [|done]. cbn [required]. destruct (parseSpecInputToMap src file (dir p)) as [e|spec] eqn:Es; [by eapply parse_not_fuel|].
  pose proof (expand_steps_spec (loadReferencedStep src n out p (stack ++ [ref_id p s])) spec) as Hx.
  destruct (expand_steps (loadReferencedStep src n out p (stack ++ [ref_id p s])) spec) as [e|spec'].
  - apply Hx. intros r' Hr'. apply IH; [|done|done|rewrite length_app; cbn; lia]. intros p' s' Hp'. by eapply file_refs.
  - destruct (selectNamedStep spec' s) as [e|step] eqn:Esel; [unfold selectNamedStep, required in Esel; by destruct (_ ≫= _); simplify_eq|].
    rewrite normalized_step_ref. destruct (selected_in _ _ _ Esel) as (steps & Hst & Hin).
    assert (Hg : refs_gone spec') by (apply Hx; intros r' Hr'; apply IH; [intros p' s' Hp'; by eapply file_refs|done|done|rewrite length_app; cbn; lia]).
    specialize (Hg steps Hst). rewrite Forall_forall in Hg. by apply (Hg _ Hin).
Qed.

End Refs.
