(* ===== verification/NodeSlots.v ===== *)
(** * Slots, locks and job directories of a node ([internal/nodeagent/controller.go],
      [claimer_loop.go], [handlers.go], [execution.go], [maintenance.go],
      [crash_reconcile_running.go], [job_runtime_cleanup.go])

    A node runs up to a configured number of jobs at a time. Whoever wants to run one (the
    claim loop, a request, the monitor of a container found at start) takes a slot: a permit
    of the semaphore and a shared lock on a file that the maintenance of the host locks
    exclusively. An execution owns its slot until it ends. When a node is idle it sweeps away
    directories that executions have left behind.

    Goroutines are threads; [thread_step] is one of their steps: what happens inside a
    critical section, or one operation on a channel, a file lock or a directory. [mu] is held
    over several steps only by a sweep. Any number of claim loops, requests and monitors may
    exist at a time. Reports, logs and Docker resources are not part of the state. *)

From stdpp Require Import base gmap sets list strings.
From S2P Require Import Prelude GoStrings Types Spec Db NodeClaim.
From Stdlib Require Import ZArith Lia.
Local Open Scope list_scope.

(** Contexts are numbers, 0 is the agent's. An execution's own context is derived from
    that of the caller. *)
Record Execution := mkExecution { ex_Req : StartRunRequest; ex_Ctx : nat; ex_Parent : nat }.

Record jobContext := mkJobContext { jc_runID : string; jc_ctx : nat }.

(** Who takes a slot. *)
Inductive Client := ForClaim | ForRequest (req : StartRunRequest) (ctx : nat) | ForMonitor.

(** What follows the release of a slot. *)
Inductive Next := ThenEnd | ThenSweep | ThenCancel (x : Execution).

(** A job's directories, by run and job. *)
Definition JobDir : Type := string * string.
Definition job_dir (x : Execution) : JobDir := (sr_RunID (ex_Req x), sr_JobID (ex_Req x)).

Inductive Goroutine :=
| Acquiring (k : Client)              (* AcquireSlot, before the semaphore exists *)
| Waiting (k : Client)                (* for a permit *)
| Locking (k : Client)                (* for the maintenance lock *)
| HoldingSlot (k : Client)
| Starting (k : Client) (req : StartRunRequest)
| Returned (k : Client)               (* the slot belongs to the execution *)
| Preparing (x : Execution)           (* executeRun: the directories *)
| Working (x : Execution)
| Cleaning (x : Execution)
| Forgetting (x : Execution)
| Unlocking (n : Next)                (* ReleaseSlot *)
| Returning (n : Next)
| Cancelling (x : Execution)
| SweepEnter                          (* sweepAbandonedRuntimeIfIdle of the claim manager *)
| SweepLock                           (* its maintenance lock *)
| SweepLockAgain                      (* that of the controller *)
| SweepMutex
| SweepIdle
| SweepList
| SweepCheck (l : list JobDir)
| SweepDelete (l : list JobDir)       (* holds mu *)
| SweepLeave
| SweepUnlock (k : nat)
| Ended.

Record Agent := mkAgent {
  ag_concurrency : Z;
  ag_sem : option (nat * nat);        (* capacity and length of jobSem *)
  ag_jobs : gmap string jobContext;
  ag_mu : option nat;                 (* the thread that holds it over steps *)
  ag_sweepMu : option nat;
  ag_shared : nat;                    (* shared maintenance locks *)
  ag_exclusive : bool;                (* the host is in maintenance *)
  ag_nextCtx : nat;
  ag_cancelled : gset nat;
  ag_dirs : gset JobDir;              (* jobs with runtime directories *)
  ag_threads : list Goroutine
}.

Definition new_agent (concurrency : Z) (dirs : gset JobDir) : Agent :=
  mkAgent concurrency None ∅ None None 0 false 1 ∅ dirs [].

Definition set_sem v a := mkAgent (ag_concurrency a) v (ag_jobs a) (ag_mu a) (ag_sweepMu a) (ag_shared a) (ag_exclusive a) (ag_nextCtx a) (ag_cancelled a) (ag_dirs a) (ag_threads a).
Definition set_jobs v a := mkAgent (ag_concurrency a) (ag_sem a) v (ag_mu a) (ag_sweepMu a) (ag_shared a) (ag_exclusive a) (ag_nextCtx a) (ag_cancelled a) (ag_dirs a) (ag_threads a).
Definition set_mu v a := mkAgent (ag_concurrency a) (ag_sem a) (ag_jobs a) v (ag_sweepMu a) (ag_shared a) (ag_exclusive a) (ag_nextCtx a) (ag_cancelled a) (ag_dirs a) (ag_threads a).
Definition set_sweepMu v a := mkAgent (ag_concurrency a) (ag_sem a) (ag_jobs a) (ag_mu a) v (ag_shared a) (ag_exclusive a) (ag_nextCtx a) (ag_cancelled a) (ag_dirs a) (ag_threads a).
Definition set_shared v a := mkAgent (ag_concurrency a) (ag_sem a) (ag_jobs a) (ag_mu a) (ag_sweepMu a) v (ag_exclusive a) (ag_nextCtx a) (ag_cancelled a) (ag_dirs a) (ag_threads a).
Definition set_exclusive v a := mkAgent (ag_concurrency a) (ag_sem a) (ag_jobs a) (ag_mu a) (ag_sweepMu a) (ag_shared a) v (ag_nextCtx a) (ag_cancelled a) (ag_dirs a) (ag_threads a).
Definition set_nextCtx v a := mkAgent (ag_concurrency a) (ag_sem a) (ag_jobs a) (ag_mu a) (ag_sweepMu a) (ag_shared a) (ag_exclusive a) v (ag_cancelled a) (ag_dirs a) (ag_threads a).
Definition set_cancelled v a := mkAgent (ag_concurrency a) (ag_sem a) (ag_jobs a) (ag_mu a) (ag_sweepMu a) (ag_shared a) (ag_exclusive a) (ag_nextCtx a) v (ag_dirs a) (ag_threads a).
Definition set_dirs v a := mkAgent (ag_concurrency a) (ag_sem a) (ag_jobs a) (ag_mu a) (ag_sweepMu a) (ag_shared a) (ag_exclusive a) (ag_nextCtx a) (ag_cancelled a) v (ag_threads a).
Definition set_threads v a := mkAgent (ag_concurrency a) (ag_sem a) (ag_jobs a) (ag_mu a) (ag_sweepMu a) (ag_shared a) (ag_exclusive a) (ag_nextCtx a) (ag_cancelled a) (ag_dirs a) v.

Definition become (t : nat) (p : Goroutine) (a : Agent) : Agent := set_threads (<[t := p]> (ag_threads a)) a.

(** ** The controller *)

Definition MaxConcurrency : Z := 64.

Definition slot_capacity (concurrency : Z) : nat := Z.to_nat (Z.min (Z.max 1 concurrency) MaxConcurrency).

Definition initJobSem (a : Agent) : Agent :=
  match ag_sem a with Some _ => a | None => set_sem (Some (slot_capacity (ag_concurrency a), 0)) a end.

(** Sending to and receiving from the semaphore; [None] blocks. *)
Definition sem_send (a : Agent) : option Agent :=
  match ag_sem a with
  | Some (cap, len) => if decide (len < cap) then Some (set_sem (Some (cap, S len)) a) else None
  | None => None
  end.

Definition sem_receive (a : Agent) : option Agent :=
  match ag_sem a with Some (cap, S len) => Some (set_sem (Some (cap, len)) a) | _ => None end.

(** [acquireMaintenanceActivity]: [None] while the host is in maintenance. *)
Definition lock_shared (a : Agent) : option Agent :=
  if ag_exclusive a then None else Some (set_shared (S (ag_shared a)) a).

Definition unlock_shared (a : Agent) : Agent := set_shared (pred (ag_shared a)) a.

(** The execution's thread, or an error. *)
Definition StartRun (req : StartRunRequest) (parent : nat) (a : Agent) : option Agent :=
  match ag_jobs a !! sr_JobID req with
  | Some _ => None
  | None =>
      let ctx := ag_nextCtx a in
      let a1 := set_nextCtx (S ctx) (set_jobs (<[sr_JobID req := mkJobContext (sr_RunID req) ctx]> (ag_jobs a)) a) in
      Some (set_threads (ag_threads a ++ [Preparing (mkExecution req ctx parent)]) a1)
  end.

(** Whether a job of the run was found. *)
Definition StopRun (runID : string) (a : Agent) : Agent * bool :=
  let stopped := filter (λ kv : string * jobContext, jc_runID kv.2 = runID) (ag_jobs a) in
  (set_cancelled (list_to_set (jc_ctx <$> (map_to_list stopped).*2) ∪ ag_cancelled a)
     (set_jobs (ag_jobs a ∖ stopped) a),
   bool_decide (stopped ≠ ∅)).

Definition nodeIsIdle (a : Agent) : bool :=
  bool_decide (ag_jobs a = ∅) && match ag_sem a with Some (_, S _) => false | _ => true end.

Definition isTerminalRuntimeStatus (s : JobStatus) : bool :=
  match s with JobStatusSuccess | JobStatusFail | JobStatusError | JobStatusCancelled => true | _ => false end.

(** [status] is what the server answers, [None] for an error. *)
Definition terminalRuntimeCandidates (status : string → option string) (l : list JobDir) : list JobDir :=
  filter (λ d, from_option isTerminalRuntimeStatus false (status d.2 ≫= ParseJobStatus) = true) l.

(** ** Steps *)

(** What a step depends on besides the state. *)
Inductive Choice :=
| Proceed
| Refuse                                   (* an error, a timeout or the end of a context *)
| Partly                                   (* an error after some of the work *)
| Claimed (o : ClaimOutcome)               (* what claimAndExecute makes of the server's answer *)
| Statuses (status : string → option string).

Definition free_mu (a : Agent) : bool := match ag_mu a with None => true | Some _ => false end.

Definition client_ctx (k : Client) : nat := match k with ForRequest _ ctx => ctx | _ => 0 end.

Definition next_thread (n : Next) : Goroutine :=
  match n with ThenEnd => Ended | ThenSweep => SweepEnter | ThenCancel x => Cancelling x end.

Definition AcquireSlot_step (t : nat) (p : Goroutine) (c : Choice) (a : Agent) : option Agent :=
  match p, c with
  | Acquiring k, Proceed => if free_mu a then Some (become t (Waiting k) (initJobSem a)) else None
  | Waiting k, Proceed => a' ← sem_send a; Some (become t (Locking k) a')
  | Waiting k, Refuse => Some (become t Ended a)
  | Locking k, Proceed => a' ← lock_shared a; Some (become t (HoldingSlot k) a')
  | Locking k, Refuse => Some (become t (Returning ThenEnd) a)
  | _, _ => None
  end.

Definition ReleaseSlot_step (t : nat) (p : Goroutine) (c : Choice) (a : Agent) : option Agent :=
  match p, c with
  | Unlocking n, Proceed => Some (become t (Returning n) (unlock_shared a))
  | Returning n, Proceed => a' ← sem_receive a; Some (become t (next_thread n) a')
  | _, _ => None
  end.

(** With a slot: a job to start, no work, or an error. *)
Definition claimAndExecute_step (t : nat) (c : Choice) (a : Agent) : option Agent :=
  match c with
  | Claimed (StartJob req) => Some (become t (Starting ForClaim req) a)
  | Claimed NoWork => Some (become t (Unlocking ThenSweep) a)
  | Claimed (ClaimFailed _) => Some (become t (Unlocking ThenEnd) a)
  | _ => None
  end.

Definition handleRunStart_step (t : nat) (req : StartRunRequest) (ctx : nat) (c : Choice) (a : Agent) : option Agent :=
  match c with Proceed => Some (become t (Starting (ForRequest req ctx) req) a) | _ => None end.

(** The container is over. *)
Definition monitor_step (t : nat) (c : Choice) (a : Agent) : option Agent :=
  match c with Proceed => Some (become t (Unlocking ThenSweep) a) | _ => None end.

(** The caller of [StartRun] keeps the slot when it fails. *)
Definition StartRun_step (t : nat) (k : Client) (req : StartRunRequest) (c : Choice) (a : Agent) : option Agent :=
  match c with
  | Proceed =>
      if free_mu a
      then match StartRun req (client_ctx k) a with
           | None => Some (become t (Unlocking ThenEnd) a)
           | Some a' => Some (become t (Returned k) a')
           end
      else None
  | _ => None
  end.

(** The context of a request ends with its handler. *)
Definition return_step (t : nat) (k : Client) (c : Choice) (a : Agent) : option Agent :=
  match c with
  | Proceed => Some (become t Ended (match k with
                                     | ForRequest _ ctx => set_cancelled ({[ctx]} ∪ ag_cancelled a) a
                                     | _ => a
                                     end))
  | _ => None
  end.

Definition slot_step (t : nat) (p : Goroutine) (c : Choice) (a : Agent) : option Agent :=
  match p with
  | HoldingSlot ForClaim => claimAndExecute_step t c a
  | HoldingSlot (ForRequest req ctx) => handleRunStart_step t req ctx c a
  | HoldingSlot ForMonitor => monitor_step t c a
  | Starting k req => StartRun_step t k req c a
  | Returned k => return_step t k c a
  | Unlocking _ | Returning _ => ReleaseSlot_step t p c a
  | _ => AcquireSlot_step t p c a
  end.

(** [executeRun]; the deferred calls run whatever happens. *)
Definition executeRun_step (t : nat) (p : Goroutine) (c : Choice) (a : Agent) : option Agent :=
  match p, c with
  | Preparing x, Proceed => Some (become t (Working x) (set_dirs ({[job_dir x]} ∪ ag_dirs a) a))
  | Preparing x, Partly => Some (become t (Cleaning x) (set_dirs ({[job_dir x]} ∪ ag_dirs a) a))
  | Preparing x, Refuse => Some (become t (Cleaning x) a)
  | Working x, Proceed => Some (become t (Cleaning x) a)
  | Cleaning x, Proceed => Some (become t (Forgetting x) (set_dirs (ag_dirs a ∖ {[job_dir x]}) a))
  | Cleaning x, Refuse => Some (become t (Forgetting x) a)
  | Forgetting x, Proceed =>
      if free_mu a
      then Some (become t (Unlocking (ThenCancel x)) (set_jobs (delete (sr_JobID (ex_Req x)) (ag_jobs a)) a))
      else None
  | Cancelling x, Proceed => Some (become t Ended (set_cancelled ({[ex_Ctx x]} ∪ ag_cancelled a) a))
  | _, _ => None
  end.

Definition sweep_step (t : nat) (p : Goroutine) (c : Choice) (a : Agent) : option Agent :=
  match p, c with
  | SweepEnter, Proceed => if free_mu a then Some (become t (if nodeIsIdle a then SweepLock else Ended) a) else None
  | SweepLock, Proceed => a' ← lock_shared a; Some (become t SweepLockAgain a')
  | SweepLock, Refuse => Some (become t Ended a)
  | SweepLockAgain, Proceed => a' ← lock_shared a; Some (become t SweepMutex a')
  | SweepLockAgain, Refuse => Some (become t (SweepUnlock 1) a)
  | SweepMutex, Proceed =>
      match ag_sweepMu a with None => Some (become t SweepIdle (set_sweepMu (Some t) a)) | Some _ => None end
  | SweepIdle, Proceed => if free_mu a then Some (become t (if nodeIsIdle a then SweepList else SweepLeave) a) else None
  | SweepList, Refuse => Some (become t SweepLeave a)
  | SweepList, Statuses status =>
      Some (match terminalRuntimeCandidates status (elements (ag_dirs a)) with
            | [] => become t SweepLeave a
            | l => become t (SweepCheck l) a
            end)
  | SweepCheck l, Proceed =>
      if free_mu a
      then Some (if nodeIsIdle a then become t (SweepDelete l) (set_mu (Some t) a) else become t SweepLeave a)
      else None
  | SweepDelete (d :: l), Proceed => Some (become t (SweepDelete l) (set_dirs (ag_dirs a ∖ {[d]}) a))
  | SweepDelete (d :: l), Refuse => Some (become t (SweepDelete l) a)
  | SweepDelete [], Proceed => Some (become t SweepLeave (set_mu None a))
  | SweepLeave, Proceed => Some (become t (SweepUnlock 2) (set_sweepMu None a))
  | SweepUnlock (S k), Proceed => Some (become t (SweepUnlock k) (unlock_shared a))
  | SweepUnlock 0, Proceed => Some (become t Ended a)
  | _, _ => None
  end.

Definition thread_step (t : nat) (c : Choice) (a : Agent) : option Agent :=
  p ← ag_threads a !! t;
  match p with
  | Preparing _ | Working _ | Cleaning _ | Forgetting _ | Cancelling _ => executeRun_step t p c a
  | SweepEnter | SweepLock | SweepLockAgain | SweepMutex | SweepIdle | SweepList | SweepCheck _ | SweepDelete _
  | SweepLeave | SweepUnlock _ => sweep_step t p c a
  | _ => slot_step t p c a
  end.

(** What can happen to a node. *)
Inductive Happening :=
| Step (t : nat) (c : Choice)
| Tick                              (* a round of the claim loop *)
| Request (req : StartRunRequest)   (* POST /v1/run/start *)
| Recovered                         (* a running container found at start *)
| Stop (runID : string)             (* POST /v1/run/stop *)
| RemoteCancel (t : nat)            (* the server has cancelled the job of an execution *)
| Shutdown
| HostLock
| HostUnlock.

Definition spawn (k : Client) (a : Agent) : Agent := set_threads (ag_threads a ++ [Acquiring k]) a.

Definition happens (h : Happening) (a : Agent) : option Agent :=
  match h with
  | Step t c => thread_step t c a
  | Tick => Some (spawn ForClaim a)
  | Request req =>
      match validateStartRunRequest req with
      | Some _ => None
      | None => Some (spawn (ForRequest req (ag_nextCtx a)) (set_nextCtx (S (ag_nextCtx a)) a))
      end
  | Recovered => Some (spawn ForMonitor a)
  | Stop runID => if free_mu a then Some (StopRun runID a).1 else None
  | RemoteCancel t =>
      match ag_threads a !! t with
      | Some (Preparing x) | Some (Working x) => Some (set_cancelled ({[ex_Ctx x]} ∪ ag_cancelled a) a)
      | _ => None
      end
  | Shutdown => Some (set_cancelled ({[0]} ∪ ag_cancelled a) a)
  | HostLock => if decide (ag_shared a = 0 ∧ ag_exclusive a = false) then Some (set_exclusive true a) else None
  | HostUnlock => Some (set_exclusive false a)
  end.

(** The states a node gets to when only [allowed] things happen. *)
Inductive agent_reachable (allowed : Happening → Prop) (concurrency : Z) : Agent → Prop :=
| AgentStart dirs : agent_reachable allowed concurrency (new_agent concurrency dirs)
| AgentMore a h a' : agent_reachable allowed concurrency a → allowed h → happens h a = Some a' →
    agent_reachable allowed concurrency a'.

(** A history. *)
Fixpoint history (hs : list Happening) (a : Agent) : option Agent :=
  match hs with [] => Some a | h :: hs' => a' ← happens h a; history hs' a' end.

(** * What the slots of a node guarantee

    The invariant counts: permits and shared locks are exactly those the threads hold, and
    while a sweep deletes directories no execution is under way. *)

(** ** What threads hold *)

Definition permits (p : Goroutine) : nat :=
  match p with
  | Locking _ | HoldingSlot _ | Starting _ _ | Preparing _ | Working _ | Cleaning _ | Forgetting _ | Unlocking _
  | Returning _ => 1
  | _ => 0
  end.

Definition locks (p : Goroutine) : nat :=
  match p with
  | HoldingSlot _ | Starting _ _ | Preparing _ | Working _ | Cleaning _ | Forgetting _ | Unlocking _ | SweepLockAgain => 1
  | SweepMutex | SweepIdle | SweepList | SweepCheck _ | SweepDelete _ | SweepLeave => 2
  | SweepUnlock k => k
  | _ => 0
  end.

(** An execution between its start and the removal of its entry. *)
Definition executing (p : Goroutine) : nat :=
  match p with Preparing _ | Working _ | Cleaning _ | Forgetting _ => 1 | _ => 0 end.

Definition deleting (p : Goroutine) : Prop := match p with SweepDelete _ => True | _ => False end.

#[export] Instance deleting_dec p : Decision (deleting p).
Proof. destruct p; simpl; apply _. Defined.

Fixpoint sum_of {A} (f : A → nat) (l : list A) : nat := match l with [] => 0 | x :: l' => f x + sum_of f l' end.

Definition total (f : Goroutine → nat) (a : Agent) : nat := sum_of f (ag_threads a).

Lemma sum_insert {A} (f : A → nat) (l : list A) i x y : l !! i = Some x →
  sum_of f (<[i := y]> l) + f x = sum_of f l + f y.
Proof.
  revert i. induction l as [|z l IH]; intros [|i] Hi; [done..| |].
  - injection Hi as ->. change (f y + sum_of f l + f x = f x + sum_of f l + f y). lia.
  - specialize (IH i Hi). change (f z + sum_of f (<[i := y]> l) + f x = f z + sum_of f l + f y). lia.
Qed.

Lemma sum_app {A} (f : A → nat) (l k : list A) : sum_of f (l ++ k) = sum_of f l + sum_of f k.
Proof. induction l as [|x l IH]; cbn; [done|lia]. Qed.

Lemma sum_elem {A} (f : A → nat) (l : list A) i x : l !! i = Some x → f x ≤ sum_of f l.
Proof. revert i. induction l as [|z l IH]; intros [|i]; cbn; [done..| |]; [intros [= ->]; lia|]. intros Hi. specialize (IH i Hi). lia. Qed.

Lemma sum_le {A} (f g : A → nat) (l : list A) : (∀ x, f x ≤ g x) → sum_of f l ≤ sum_of g l.
Proof. intros Hfg. induction l as [|x l IH]; cbn; [done|]. specialize (Hfg x). lia. Qed.

Lemma total_become f a b t p q : ag_threads a !! t = Some p → ag_threads b = ag_threads a →
  total f (become t q b) + f p = total f a + f q.
Proof. intros Ht E. unfold total, become. cbn [ag_threads set_threads]. rewrite E. by apply sum_insert. Qed.

Lemma total_spawned f a b t p q r : ag_threads a !! t = Some p → ag_threads b = ag_threads a ++ [r] →
  total f (become t q b) + f p = total f a + f q + f r.
Proof.
  intros Ht E. unfold total, become. cbn [ag_threads set_threads]. rewrite E.
  pose proof (sum_insert f (ag_threads a ++ [r]) t p q) as Hs. rewrite lookup_app_l in Hs by (by eapply lookup_lt_Some).
  specialize (Hs Ht). rewrite sum_app in Hs. cbn in Hs. lia.
Qed.

(** ** The invariant *)

Record agent_inv (concurrency : Z) (a : Agent) : Prop := {
  ai_concurrency : ag_concurrency a = concurrency;
  ai_sem : match ag_sem a with
           | Some (cap, len) => cap = slot_capacity concurrency ∧ len = total permits a ∧ len ≤ cap
           | None => total permits a = 0
           end;
  ai_shared : ag_shared a = total locks a;
  ai_exclusive : ag_exclusive a = true → ag_shared a = 0;
  ai_mu : ∀ t p, ag_threads a !! t = Some p → deleting p → ag_mu a = Some t;
  ai_sweep : ag_mu a ≠ None → total executing a = 0
}.

Lemma agent_start concurrency dirs : agent_inv concurrency (new_agent concurrency dirs).
Proof. split; try done. Qed.

Lemma executing_permits p : executing p ≤ permits p.
Proof. destruct p; cbn; lia. Qed.

(** An idle node executes nothing. *)
Lemma idle_none c a : agent_inv c a → nodeIsIdle a = true → total executing a = 0.
Proof.
  intros [_ Hs _ _ _ _]. unfold nodeIsIdle. rewrite andb_true_iff. intros [_ Hi].
  pose proof (sum_le executing permits (ag_threads a) executing_permits) as Hle. unfold total in *.
  destruct (ag_sem a) as [[cap [|len]]|]; [|done|]; lia.
Qed.

(** One thread goes from [p] to [q], and the rest of the state from [a] to [b]. *)
Lemma inv_become c a b t p q :
  agent_inv c a → ag_threads a !! t = Some p → ag_threads b = ag_threads a → ag_concurrency b = ag_concurrency a →
  match ag_sem b with
  | Some (cap, len) => cap = slot_capacity c ∧ len + permits p = total permits a + permits q ∧ len ≤ cap
  | None => total permits a + permits q = permits p
  end →
  ag_shared b + locks p = total locks a + locks q →
  (ag_exclusive b = true → ag_shared b = 0) →
  (deleting q → ag_mu b = Some t) →
  (ag_mu b = ag_mu a ∨ ag_mu a = None ∨ ag_mu a = Some t) →
  (ag_mu b ≠ None → total executing a + executing q = executing p) →
  agent_inv c (become t q b).
Proof.
  intros [Hc Hs Hsh Hex Hmu Hsw] Ht Hth Hcb Hsem Hshb Hexb Hq Hother Hswb. pose proof (λ f, total_become f a b t p q Ht Hth) as Htot.
  split.
  - cbn. congruence.
  - specialize (Htot permits). cbn [become set_threads ag_sem]. destruct (ag_sem b) as [[cap len]|]; [|lia]. split_and!; lia.
  - specialize (Htot locks). cbn [become set_threads ag_shared]. lia.
  - exact Hexb.
  - cbn [become set_threads ag_threads ag_mu]. rewrite Hth. intros t' p' Hl Hd.
    destruct (decide (t' = t)) as [->|Hne].
    + rewrite list_lookup_insert_eq in Hl by (by eapply lookup_lt_Some). injection Hl as <-. by apply Hq.
    + rewrite list_lookup_insert_ne in Hl by done. specialize (Hmu t' p' Hl Hd). destruct Hother as [->|[E|E]]; congruence.
  - specialize (Htot executing). cbn [become set_threads ag_mu]. intros Hm. specialize (Hswb Hm). lia.
Qed.

(** Break a step down to the state it leads to. *)
Ltac step_cases E :=
  repeat (first [discriminate E | progress simplify_option_eq | case_match; try discriminate E ]).

Lemma free_none a : free_mu a = true → ag_mu a = None.
Proof. unfold free_mu. by destruct (ag_mu a). Qed.

Ltac settle_step :=
  repeat match goal with
  | H : free_mu _ = true |- _ => apply free_none in H
  | H : ?x = ?x |- _ => clear H
  end;
  cbn [become set_threads set_sem set_shared set_jobs set_mu set_sweepMu set_dirs set_cancelled set_nextCtx set_exclusive
       unlock_shared ag_sem ag_shared ag_mu ag_exclusive ag_threads ag_concurrency next_thread permits locks executing deleting] in *;
  repeat match goal with E : ag_sem ?a = _ |- context [ag_sem ?a] => rewrite E end;
  first [ done | lia | intuition (try done; try lia; try congruence) ].

Ltac slot_cbn E :=
  cbn [slot_step AcquireSlot_step ReleaseSlot_step claimAndExecute_step handleRunStart_step monitor_step StartRun_step
       return_step] in E.

(** The facts a step starts from. *)
Ltac begin_step Hi Ht :=
  pose proof Hi as [Hc Hs Hsh Hex Hmu Hsw];
  pose proof (sum_elem permits _ _ _ Ht : permits _ ≤ total permits _) as Hpp;
  pose proof (sum_elem locks _ _ _ Ht : locks _ ≤ total locks _) as Hll;
  pose proof (sum_elem executing _ _ _ Ht : executing _ ≤ total executing _) as Hee.

Ltac go Hi Ht :=
  eapply (inv_become _ _ _ _ _ _ Hi Ht); solve [settle_step].

(** The slot goes from the caller to the execution. *)
Lemma start_inv c a b t k req parent : agent_inv c a → ag_threads a !! t = Some (Starting k req) → ag_mu a = None →
  StartRun req parent a = Some b → agent_inv c (become t (Returned k) b).
Proof.
  intros [Hc Hs Hsh Hex Hmu Hsw] Ht Hfree E. unfold StartRun in E. destruct (ag_jobs a !! sr_JobID req); [discriminate E|].
  set (x := Preparing _) in E. injection E as <-. set (b := set_threads _ _).
  pose proof (λ f, total_spawned f a b t _ (Returned k) x Ht eq_refl) as Htot. split.
  - exact Hc.
  - specialize (Htot permits). cbn [permits x] in Htot. change (ag_sem (become t (Returned k) b)) with (ag_sem a).
    destruct (ag_sem a) as [[cap len]|]; [|lia]. split_and!; lia.
  - specialize (Htot locks). cbn [locks x] in Htot. change (ag_shared (become t (Returned k) b)) with (ag_shared a). lia.
  - exact Hex.
  - intros t' p' Hl Hd. assert (Hin : p' ∈ ag_threads (become t (Returned k) b)) by (by eapply list_elem_of_lookup_2).
    apply list_elem_of_lookup_1 in Hin as (i & Hi). exfalso.
    change (ag_threads (become t (Returned k) b)) with (<[t := Returned k]> (ag_threads a ++ [x])) in Hl.
    destruct (decide (t' = t)) as [->|Hne].
    + rewrite list_lookup_insert_eq in Hl; [by injection Hl as <-|]. rewrite length_app. apply lookup_lt_Some in Ht. lia.
    + rewrite list_lookup_insert_ne in Hl by done. apply lookup_app_Some in Hl as [Hl|[_ Hl]].
      * specialize (Hmu t' p' Hl Hd). congruence.
      * apply list_lookup_singleton_Some in Hl as [_ <-]. done.
  - intros Hm. by destruct Hm.
Qed.

Lemma slot_step_inv c a t p ch a' :
  agent_inv c a → ag_threads a !! t = Some p → slot_step t p ch a = Some a' → agent_inv c a'.
Proof.
  intros Hi Ht E. begin_step Hi Ht.
  destruct (ag_sem a) as [[cap len]|] eqn:Es;
    (destruct p as [k|k|k|k|k req|k| | | | |n|n| | | | | | | | | | | |]; slot_cbn E; try discriminate E;
     destruct ch as [| | |[| |?]|]; slot_cbn E; try discriminate E; try (injection E as <-; go Hi Ht)).
  all: try (destruct (free_mu a) eqn:Hf; [|discriminate E]).
  all: try (unfold initJobSem in E; rewrite Es in E; injection E as <-; go Hi Ht).
  all: try (unfold sem_send in E; rewrite Es in E; try discriminate E; destruct (decide (len < cap)); [|discriminate E]; injection E as <-; go Hi Ht).
  all: try (unfold lock_shared in E; destruct (ag_exclusive a) eqn:Ex; [discriminate E|]; injection E as <-; go Hi Ht).
  all: try (destruct k; slot_cbn E; try discriminate E; injection E as <-; go Hi Ht).
  all: try (unfold sem_receive in E; rewrite Es in E; try discriminate E; destruct len; [discriminate E|]; injection E as <-; destruct n; go Hi Ht).
  all: try (apply free_none in Hf; destruct (StartRun req (client_ctx k) a) eqn:Est; injection E as <-;
            [by eapply start_inv|go Hi Ht]).
  all: unfold sem_send, sem_receive in E; rewrite Es in E; discriminate E.
Qed.

Lemma execute_step_inv c a t p ch a' :
  agent_inv c a → ag_threads a !! t = Some p → executeRun_step t p ch a = Some a' → agent_inv c a'.
Proof.
  intros Hi Ht E. begin_step Hi Ht.
  destruct (ag_sem a) as [[cap len]|] eqn:Es;
    (destruct p; cbn [executeRun_step] in E; try discriminate E; destruct ch; slot_cbn E; try discriminate E; try (injection E as <-; go Hi Ht)).
  all: destruct (free_mu a) eqn:Hf; [|discriminate E]; injection E as <-; go Hi Ht.
Qed.

Lemma sweep_step_inv c a t p ch a' :
  agent_inv c a → ag_threads a !! t = Some p → sweep_step t p ch a = Some a' → agent_inv c a'.
Proof.
  intros Hi Ht E. begin_step Hi Ht. pose proof (idle_none c a Hi) as Hidle.
  destruct (ag_sem a) as [[cap len]|] eqn:Es;
    (destruct p as [| | | | | | | | | | | | | | | | | | |l|l| |k|]; cbn [sweep_step] in E; try discriminate E; destruct ch; slot_cbn E; try discriminate E; try (injection E as <-; go Hi Ht)).
  all: try (destruct l as [|d l]; try discriminate E; injection E as <-; pose proof (Hmu t _ Ht I) as Hme; go Hi Ht).
  all: try (destruct k; slot_cbn E; try discriminate E; injection E as <-; go Hi Ht).
  all: try (unfold lock_shared in E; destruct (ag_exclusive a) eqn:Ex; [discriminate E|]; injection E as <-; go Hi Ht).
  all: try (destruct (ag_sweepMu a); [discriminate E|]; injection E as <-; go Hi Ht).
  all: try (destruct (terminalRuntimeCandidates _ _); injection E as <-; go Hi Ht).
  all: try (destruct (free_mu a) eqn:Hf; [|discriminate E]; destruct (nodeIsIdle a); injection E as <-; try specialize (Hidle eq_refl); go Hi Ht).
Qed.

Lemma thread_step_inv c a t ch a' : agent_inv c a → thread_step t ch a = Some a' → agent_inv c a'.
Proof.
  intros Hi. unfold thread_step. destruct (ag_threads a !! t) as [p|] eqn:Ht; [|done]. cbn [mbind option_bind].
  destruct p; intros E; first [by eapply slot_step_inv|by eapply execute_step_inv|by eapply sweep_step_inv].
Qed.

(** Changes that no thread can see. *)
Lemma inv_same c a b : agent_inv c a → ag_threads b = ag_threads a → ag_concurrency b = ag_concurrency a →
  ag_sem b = ag_sem a → ag_shared b = ag_shared a → ag_mu b = ag_mu a → (ag_exclusive b = true → ag_shared a = 0) → agent_inv c b.
Proof.
  intros [Hc Hs Hsh Hex Hmu Hsw] Ht Hcb Hsb Hshb Hmb Hexb. unfold total in *.
  split; unfold total; rewrite ?Ht, ?Hcb, ?Hsb, ?Hshb, ?Hmb; done.
Qed.

Lemma spawn_inv c a k : agent_inv c a → agent_inv c (spawn k a).
Proof.
  intros [Hc Hs Hsh Hex Hmu Hsw]. unfold total in *.
  split; unfold total; cbn [spawn set_threads ag_concurrency ag_sem ag_shared ag_mu ag_threads ag_exclusive];
    rewrite ?sum_app; cbn [sum_of permits locks executing]; rewrite ?Nat.add_0_r; try done.
  intros t p [Ht|[_ Ht]]%lookup_app_Some Hd; [by eapply Hmu|]. apply list_lookup_singleton_Some in Ht as [_ <-]. done.
Qed.

Lemma happens_inv c a h a' : agent_inv c a → happens h a = Some a' → agent_inv c a'.
Proof.
  intros Hi E. pose proof Hi as [Hc Hs Hsh Hex Hmu Hsw]. destruct h as [t ch| |req| |runID|t| | |]; cbn [happens] in E.
  - by eapply thread_step_inv.
  - injection E as <-. by apply spawn_inv.
  - destruct (validateStartRunRequest req); [discriminate E|]. injection E as <-. apply spawn_inv. by eapply (inv_same c a).
  - injection E as <-. by apply spawn_inv.
  - destruct (free_mu a); [|discriminate E]. injection E as <-. by eapply (inv_same c a).
  - destruct (ag_threads a !! t) as [[]|]; try discriminate E; injection E as <-; by eapply (inv_same c a).
  - injection E as <-. by eapply (inv_same c a).
  - destruct (decide (ag_shared a = 0 ∧ ag_exclusive a = false)) as [[Hz _]|]; [|discriminate E]. injection E as <-.
    by eapply (inv_same c a).
  - injection E as <-. by eapply (inv_same c a).
Qed.

Lemma agent_reachable_inv allowed c a : agent_reachable allowed c a → agent_inv c a.
Proof. induction 1 as [dirs|a h a' _ IH _ E]; [apply agent_start|by eapply happens_inv]. Qed.

(** ** One execution per job *)

Definition exec_of (p : Goroutine) : option Execution :=
  match p with Preparing x | Working x | Cleaning x | Forgetting x => Some x | _ => None end.

Definition job_of (x : Execution) : string := sr_JobID (ex_Req x).

Record jobs_inv (a : Agent) : Prop := {
  ji_entry : ∀ t p x, ag_threads a !! t = Some p → exec_of p = Some x →
    ag_jobs a !! job_of x = Some (mkJobContext (sr_RunID (ex_Req x)) (ex_Ctx x));
  ji_thread : ∀ j jc, ag_jobs a !! j = Some jc →
    ∃ t p x, ag_threads a !! t = Some p ∧ exec_of p = Some x ∧ job_of x = j;
  ji_one : ∀ t t' p p' x x', ag_threads a !! t = Some p → ag_threads a !! t' = Some p' →
    exec_of p = Some x → exec_of p' = Some x' → job_of x = job_of x' → t = t';
  ji_dirs : ∀ t x, ag_threads a !! t = Some (Working x) → job_dir x ∈ ag_dirs a
}.

Lemma jobs_start c dirs : jobs_inv (new_agent c dirs).
Proof. split; cbn; intros; by simplify_map_eq. Qed.

(** The other threads of a state in which one has moved. *)
Lemma become_lookup a t q t' p' : t < length (ag_threads a) → ag_threads (become t q a) !! t' = Some p' →
  (t' = t ∧ p' = q) ∨ (t' ≠ t ∧ ag_threads a !! t' = Some p').
Proof.
  intros Hlt. cbn [become set_threads ag_threads]. destruct (decide (t' = t)) as [->|Hne].
  - rewrite list_lookup_insert_eq by done. intros [= <-]. by left.
  - rewrite list_lookup_insert_ne by done. by right.
Qed.

Lemma become_at a t q : t < length (ag_threads a) → ag_threads (become t q a) !! t = Some q.
Proof. intros Hlt. cbn. by apply list_lookup_insert_eq. Qed.

Lemma become_ne a t q t' : t' ≠ t → ag_threads (become t q a) !! t' = ag_threads a !! t'.
Proof. intros Hne. cbn. by apply list_lookup_insert_ne. Qed.

(** A thread moves on without starting or ending an execution. *)
Lemma jobs_become a b t p q :
  jobs_inv a → ag_threads a !! t = Some p → ag_threads b = ag_threads a → ag_jobs b = ag_jobs a → exec_of p = exec_of q →
  (∀ x, q = Working x → job_dir x ∈ ag_dirs b) →
  (∀ t' x, t' ≠ t → ag_threads a !! t' = Some (Working x) → job_dir x ∈ ag_dirs b) →
  jobs_inv (become t q b).
Proof.
  intros [He Ht1 Ho Hd] Ht Hth Hj Hx Hq Hother.
  assert (Hlt : t < length (ag_threads b)) by (rewrite Hth; by eapply lookup_lt_Some).
  assert (Hback : ∀ t' p' x, ag_threads (become t q b) !! t' = Some p' → exec_of p' = Some x →
    ∃ p0, ag_threads a !! t' = Some p0 ∧ exec_of p0 = Some x).
  { intros t' p' x Hl Hp. apply become_lookup in Hl as [[-> ->]|[_ Hl]]; [exists p; by rewrite Hx|exists p'; by rewrite <-Hth|done]. }
  split.
  - intros t' p' x Hl Hp. destruct (Hback t' p' x Hl Hp) as (p0 & Hl0 & Hp0). cbn. rewrite Hj. by eapply He.
  - intros j jc Hl. cbn in Hl. rewrite Hj in Hl. destruct (Ht1 j jc Hl) as (t' & p' & x & Hl' & Hp & Hjx).
    destruct (decide (t' = t)) as [->|Hne].
    + exists t, q, x. split; [by apply become_at|]. split; [congruence|done].
    + exists t', p', x. split; [by rewrite become_ne, Hth|done].
  - intros t1 t2 p1 p2 x1 x2 Hl1 Hl2 Hp1 Hp2 E.
    destruct (Hback t1 p1 x1 Hl1 Hp1) as (p1' & Ha1 & Hb1), (Hback t2 p2 x2 Hl2 Hp2) as (p2' & Ha2 & Hb2). by eapply (Ho t1 t2 p1' p2' x1 x2).
  - intros t' x Hl. apply become_lookup in Hl as [[-> E]|[Hne Hl]]; [by apply Hq|rewrite Hth in Hl; by eapply Hother|done].
Qed.

(** A new execution. *)
Lemma jobs_started a b t k req parent : jobs_inv a → ag_threads a !! t = Some (Starting k req) →
  StartRun req parent a = Some b → jobs_inv (become t (Returned k) b).
Proof.
  intros [He Ht1 Ho Hd] Ht E. unfold StartRun in E. destruct (ag_jobs a !! sr_JobID req) eqn:Hfresh; [discriminate E|].
  set (x := mkExecution req (ag_nextCtx a) parent) in E. injection E as <-. set (b := set_threads _ _).
  assert (Hlt : t < length (ag_threads b)) by (cbn; rewrite length_app; apply lookup_lt_Some in Ht; lia).
  assert (Hcases : ∀ t' p' y, ag_threads (become t (Returned k) b) !! t' = Some p' → exec_of p' = Some y →
    (ag_threads a !! t' = Some p' ∧ job_of y ≠ sr_JobID req) ∨ (t' = length (ag_threads a) ∧ y = x ∧ p' = Preparing x)).
  { intros t' p' y Hl Hp. apply become_lookup in Hl as [[_ ->]|[_ Hl]]; [done| |done].
    cbn in Hl. apply lookup_app_Some in Hl as [Hl|[Hge Hl]].
    - left. split; [done|]. intros Hj. specialize (He t' p' y Hl Hp). unfold job_of in *. rewrite Hj in He. congruence.
    - apply list_lookup_singleton_Some in Hl as [Hi <-]. right. injection Hp as <-. split; [lia|done]. }
  assert (Hnew : ag_threads (become t (Returned k) b) !! length (ag_threads a) = Some (Preparing x)).
  { rewrite become_ne by (apply lookup_lt_Some in Ht; lia). cbn. by rewrite lookup_app_r, Nat.sub_diag. }
  split.
  - intros t' p' y Hl Hp. destruct (Hcases t' p' y Hl Hp) as [[Hl' Hne]|(-> & -> & _)]; cbn.
    + rewrite lookup_insert_ne by done. by eapply He.
    + by rewrite lookup_insert_eq.
  - intros j jc Hl. cbn in Hl. apply lookup_insert_Some in Hl as [[<- _]|[Hne Hl]]; [by eexists _, _, x|].
    destruct (Ht1 j jc Hl) as (t' & p' & y & Hl' & Hp & Hj). exists t', p', y. split; [|done].
    rewrite become_ne by (intros ->; rewrite Ht in Hl'; by simplify_eq). cbn. rewrite lookup_app_l; [done|by eapply lookup_lt_Some].
  - intros t1 t2 p1 p2 x1 x2 Hl1 Hl2 Hp1 Hp2 E.
    destruct (Hcases t1 p1 x1 Hl1 Hp1) as [[Ha1 Hn1]|(-> & -> & _)], (Hcases t2 p2 x2 Hl2 Hp2) as [[Ha2 Hn2]|(-> & -> & _)];
      [by eapply (Ho t1 t2 p1 p2 x1 x2)|by destruct Hn1|by destruct Hn2|done].
  - intros t' y Hl. destruct (Hcases t' _ y Hl eq_refl) as [[Hl' _]|(_ & _ & [=])]. by eapply Hd.
Qed.

(** The end of an execution. *)
Lemma jobs_forgotten a t x n : jobs_inv a → ag_threads a !! t = Some (Forgetting x) →
  jobs_inv (become t (Unlocking n) (set_jobs (delete (job_of x) (ag_jobs a)) a)).
Proof.
  intros [He Ht1 Ho Hd] Ht. set (b := set_jobs _ a).
  assert (Hlt : t < length (ag_threads b)) by (by eapply lookup_lt_Some).
  assert (Hcases : ∀ t' p' y, ag_threads (become t (Unlocking n) b) !! t' = Some p' → exec_of p' = Some y →
    t' ≠ t ∧ ag_threads a !! t' = Some p' ∧ job_of y ≠ job_of x).
  { intros t' p' y Hl Hp. apply become_lookup in Hl as [[_ ->]|[Hne Hl]]; [done| |done].
    split; [done|]. split; [done|]. intros E. apply Hne. by eapply (Ho t' t p' (Forgetting x) y x). }
  split.
  - intros t' p' y Hl Hp. destruct (Hcases t' p' y Hl Hp) as (_ & Hl' & Hne). cbn. rewrite lookup_delete_ne by done. by eapply He.
  - intros j jc Hl. cbn in Hl. apply lookup_delete_Some in Hl as [Hne Hl].
    destruct (Ht1 j jc Hl) as (t' & p' & y & Hl' & Hp & Hj). exists t', p', y. split; [|done].
    rewrite become_ne; [done|]. intros ->. rewrite Ht in Hl'. injection Hl' as <-. injection Hp as <-. by apply Hne.
  - intros t1 t2 p1 p2 x1 x2 Hl1 Hl2 Hp1 Hp2 E.
    destruct (Hcases t1 p1 x1 Hl1 Hp1) as (_ & Ha1 & _), (Hcases t2 p2 x2 Hl2 Hp2) as (_ & Ha2 & _).
    by eapply (Ho t1 t2 p1 p2 x1 x2).
  - intros t' y Hl. destruct (Hcases t' _ y Hl eq_refl) as (_ & Hl' & _). by eapply Hd.
Qed.

(** A step of a thread that neither starts nor ends an execution, nor touches directories. *)
Ltac jobs_move Hj Ht :=
  eapply (jobs_become _ _ _ _ _ Hj Ht); [done|done|done|by intros ? [=]|intros ? ? _; by apply (ji_dirs _ Hj)].

Lemma slot_step_jobs a t p ch a' :
  jobs_inv a → ag_threads a !! t = Some p → slot_step t p ch a = Some a' → jobs_inv a'.
Proof.
  intros Hj Ht E.
  destruct p as [k|k|k|k|k req|k| | | | |n|n| | | | | | | | | | | |]; slot_cbn E; try discriminate E;
    destruct ch as [| | |[| |?]|]; slot_cbn E; try discriminate E; try (injection E as <-; jobs_move Hj Ht).
  all: try (destruct k; slot_cbn E; try discriminate E; injection E as <-; jobs_move Hj Ht).
  - destruct (free_mu a); [|discriminate E]. injection E as <-. unfold initJobSem. destruct (ag_sem a); jobs_move Hj Ht.
  - unfold sem_send in E. destruct (ag_sem a) as [[cap len]|]; [|discriminate E].
    destruct (decide (len < cap)); [|discriminate E]. injection E as <-. jobs_move Hj Ht.
  - unfold lock_shared in E. destruct (ag_exclusive a); [discriminate E|]. injection E as <-. jobs_move Hj Ht.
  - destruct (free_mu a); [|discriminate E]. destruct (StartRun req (client_ctx k) a) eqn:Es; injection E as <-;
      [by eapply jobs_started|jobs_move Hj Ht].
  - unfold sem_receive in E. destruct (ag_sem a) as [[cap [|len]]|]; try discriminate E. injection E as <-.
    destruct n; jobs_move Hj Ht.
Qed.

Lemma execute_step_jobs a t p ch a' :
  jobs_inv a → ag_threads a !! t = Some p → executeRun_step t p ch a = Some a' → jobs_inv a'.
Proof.
  intros Hj Ht E. destruct p as [| | | | | |x|x|x|x| | |x| | | | | | | | | | |]; cbn [executeRun_step] in E; try discriminate E;
    destruct ch; slot_cbn E; try discriminate E; try (injection E as <-; jobs_move Hj Ht).
  - injection E as <-. eapply (jobs_become _ _ _ _ _ Hj Ht); [done..| |]; [intros y [= <-]; cbn; set_solver|].
    intros t' y _ Hl. cbn. apply (ji_dirs _ Hj) in Hl. set_solver.
  - injection E as <-. eapply (jobs_become _ _ _ _ _ Hj Ht); [done..|by intros ? [=]|].
    intros t' y _ Hl. cbn. apply (ji_dirs _ Hj) in Hl. set_solver.
  - injection E as <-. eapply (jobs_become _ _ _ _ _ Hj Ht); [done..|by intros ? [=]|].
    intros t' y Hne Hl. cbn. pose proof (ji_dirs _ Hj _ _ Hl) as Hin. apply elem_of_difference. split; [done|].
    intros Heq%elem_of_singleton. apply Hne. eapply (ji_one _ Hj t' t _ _ y x Hl Ht eq_refl eq_refl).
    unfold job_dir in Heq. by injection Heq.
  - destruct (free_mu a); [|discriminate E]. injection E as <-. by apply jobs_forgotten.
Qed.

Lemma executing_none a t p x : total executing a = 0 → ag_threads a !! t = Some p → exec_of p = Some x → False.
Proof.
  intros Hz Ht Hx. pose proof (sum_elem executing _ _ _ Ht) as Hle. unfold total in Hz. rewrite Hz in Hle.
  destruct p; cbn in *; try discriminate Hx; lia.
Qed.

Lemma sweep_step_jobs c a t p ch a' :
  agent_inv c a → jobs_inv a → ag_threads a !! t = Some p → sweep_step t p ch a = Some a' → jobs_inv a'.
Proof.
  intros Hi Hj Ht E.
  destruct p as [| | | | | | | | | | | | | | | | | | |l|l| |k|]; cbn [sweep_step] in E; try discriminate E;
    destruct ch; slot_cbn E; try discriminate E; try (injection E as <-; jobs_move Hj Ht).
  all: try (destruct (free_mu a); [|discriminate E]; destruct (nodeIsIdle a); injection E as <-; jobs_move Hj Ht).
  all: try (unfold lock_shared in E; destruct (ag_exclusive a); [discriminate E|]; injection E as <-; jobs_move Hj Ht).
  all: try (destruct l; discriminate E). all: try (destruct k; discriminate E).
  - destruct (ag_sweepMu a); [discriminate E|]. injection E as <-. jobs_move Hj Ht.
  - destruct (terminalRuntimeCandidates _ _); injection E as <-; jobs_move Hj Ht.
  - destruct l as [|d l]; injection E as <-; [jobs_move Hj Ht|].
    eapply (jobs_become _ _ _ _ _ Hj Ht); [done..|by intros ? [=]|]. intros t' y _ Hl. exfalso.
    eapply (executing_none a t' (Working y) y); [|done|done]. apply (ai_sweep c a Hi). by rewrite (ai_mu c a Hi t _ Ht I).
  - destruct l as [|d l]; [discriminate E|]. injection E as <-. jobs_move Hj Ht.
  - destruct k; injection E as <-; jobs_move Hj Ht.
Qed.

(** Changes that leave threads, entries and directories alone. *)
Lemma jobs_same a b : jobs_inv a → ag_threads b = ag_threads a → ag_jobs b = ag_jobs a → ag_dirs b = ag_dirs a → jobs_inv b.
Proof. intros [He Ht1 Ho Hd] Ht Hj Hdir. split; rewrite ?Ht, ?Hj, ?Hdir; done. Qed.

Lemma spawn_jobs a k : jobs_inv a → jobs_inv (spawn k a).
Proof.
  intros [He Ht1 Ho Hd].
  assert (Hback : ∀ t p x, ag_threads (spawn k a) !! t = Some p → exec_of p = Some x → ag_threads a !! t = Some p).
  { intros t p x [Ht|[_ Ht]]%lookup_app_Some Hx; [done|]. apply list_lookup_singleton_Some in Ht as [_ <-]. done. }
  split.
  - intros t p x Ht Hx. eapply (He t p x); [by eapply Hback|done].
  - intros j jc Hl. destruct (Ht1 j jc Hl) as (t & p & x & Ht & Hx). exists t, p, x. split; [|done].
    cbn. rewrite lookup_app_l; [done|by eapply lookup_lt_Some].
  - intros t1 t2 p1 p2 x1 x2 Hl1 Hl2 Hp1 Hp2. eapply (Ho t1 t2 p1 p2 x1 x2); [by eapply Hback|by eapply Hback|done..].
  - intros t x Ht. eapply (Hd t x), (Hback t _ x); done.
Qed.

(** Nobody asks the node to stop a run. *)
Definition no_stop (h : Happening) : Prop := match h with Stop _ => False | _ => True end.

Lemma happens_jobs c a h a' : agent_inv c a → jobs_inv a → no_stop h → happens h a = Some a' → jobs_inv a'.
Proof.
  intros Hi Hj Hn E. destruct h as [t ch| |req| |runID|t| | |]; cbn [happens] in E.
  - unfold thread_step in E. destruct (ag_threads a !! t) as [p|] eqn:Ht; [|discriminate E]. cbn [mbind option_bind] in E.
    destruct p; first [by eapply slot_step_jobs|by eapply execute_step_jobs|by eapply sweep_step_jobs].
  - injection E as <-. by apply spawn_jobs.
  - destruct (validateStartRunRequest req); [discriminate E|]. injection E as <-. apply spawn_jobs. by eapply jobs_same.
  - injection E as <-. by apply spawn_jobs.
  - done.
  - destruct (ag_threads a !! t) as [[]|]; try discriminate E; injection E as <-; by eapply jobs_same.
  - injection E as <-. by eapply jobs_same.
  - destruct (decide _); [|discriminate E]. injection E as <-. by eapply jobs_same.
  - injection E as <-. by eapply jobs_same.
Qed.

Lemma agent_reachable_jobs c a : agent_reachable no_stop c a → jobs_inv a.
Proof.
  induction 1 as [dirs|a h a' Hr IH Hn E]; [apply jobs_start|]. eapply happens_jobs; [by eapply agent_reachable_inv|done..].
Qed.

(** ** Executions started by a request *)

Definition ctx_done (a : Agent) (x : Execution) : Prop := ex_Ctx x ∈ ag_cancelled a ∨ ex_Parent x ∈ ag_cancelled a.

(** The handler of the request is still there, or its context is cancelled. *)
Definition attended (a : Agent) (ctx : nat) : Prop :=
  ctx ∈ ag_cancelled a ∨ ∃ t req, ag_threads a !! t = Some (Returned (ForRequest req ctx)).

Definition requests_inv (a : Agent) : Prop :=
  ∀ t p x, ag_threads a !! t = Some p → exec_of p = Some x → ex_Parent x ≠ 0 → attended a (ex_Parent x).

Lemma attended_become a b t p q ctx : ag_threads a !! t = Some p → ag_threads b = ag_threads a →
  ag_cancelled a ⊆ ag_cancelled b → (∀ req c, p = Returned (ForRequest req c) → c ∈ ag_cancelled b) →
  attended a ctx → attended (become t q b) ctx.
Proof.
  intros Ht Hth Hc Hp [Hin|(t' & req & Hl)]; [left; cbn; set_solver|]. destruct (decide (t' = t)) as [->|Hne].
  - left. cbn. rewrite Ht in Hl. injection Hl as ->. by eapply Hp.
  - right. exists t', req. by rewrite become_ne, Hth.
Qed.

Lemma requests_become a b t p q : requests_inv a → ag_threads a !! t = Some p → ag_threads b = ag_threads a →
  ag_cancelled a ⊆ ag_cancelled b → (∀ req c, p = Returned (ForRequest req c) → c ∈ ag_cancelled b) →
  (∀ x, exec_of q = Some x → exec_of p = Some x) → requests_inv (become t q b).
Proof.
  intros Hi Ht Hth Hc Hp Hx t' p' x Hl Hpx Hne. eapply (attended_become a b t p q); [done..|].
  apply become_lookup in Hl as [[-> ->]|[_ Hl]]; [|rewrite Hth in Hl|rewrite Hth; by eapply lookup_lt_Some].
  - apply Hx in Hpx. by eapply Hi.
  - by eapply Hi.
Qed.

Lemma requests_started a b t k req : requests_inv a → ag_threads a !! t = Some (Starting k req) →
  StartRun req (client_ctx k) a = Some b → requests_inv (become t (Returned k) b).
Proof.
  intros Hi Ht E. unfold StartRun in E. destruct (ag_jobs a !! sr_JobID req); [discriminate E|]. injection E as <-. set (b := set_threads _ _).
  assert (Hlt : t < length (ag_threads b)) by (cbn; rewrite length_app; apply lookup_lt_Some in Ht; lia).
  intros t' p' x Hl Hpx Hne. apply become_lookup in Hl as [[-> ->]|[Ht' Hl]]; [done| |done].
  cbn in Hl. apply lookup_app_Some in Hl as [Hl|[_ Hl]].
  - destruct (Hi t' p' x Hl Hpx Hne) as [Hin|(t2 & req2 & Hl2)]; [by left|]. right. exists t2, req2.
    rewrite become_ne by (intros ->; rewrite Ht in Hl2; discriminate Hl2). cbn. rewrite lookup_app_l; [done|by eapply lookup_lt_Some].
  - apply list_lookup_singleton_Some in Hl as [_ <-]. injection Hpx as <-. cbn in Hne |- *.
    destruct k as [|req' ctx|]; [done| |done]. right. exists t, req'. by apply become_at.
Qed.

Ltac request_move Hi Ht :=
  eapply (requests_become _ _ _ _ _ Hi Ht); [done|first [done|cbn; set_solver]|intros ? ? [=]; cbn; set_solver|cbn; intros ?; first [done|congruence]].

Lemma thread_step_requests a t ch a' : requests_inv a → thread_step t ch a = Some a' → requests_inv a'.
Proof.
  intros Hi E. unfold thread_step in E. destruct (ag_threads a !! t) as [p|] eqn:Ht; [|discriminate E]. cbn [mbind option_bind] in E.
  destruct p as [k|k|k|k|k req|k|x|x|x|x|n|n|x| | | | | | |l|l| |k|]; slot_cbn E; cbn [executeRun_step sweep_step] in E; try discriminate E;
    destruct ch as [| | |[| |?]|]; slot_cbn E; try discriminate E; try (injection E as <-; request_move Hi Ht).
  all: try (destruct k; slot_cbn E; try discriminate E; injection E as <-; request_move Hi Ht).
  all: try (destruct l; try discriminate E; injection E as <-; request_move Hi Ht).
  all: try (unfold lock_shared in E; destruct (ag_exclusive a); [discriminate E|]; injection E as <-; request_move Hi Ht).
  all: try (destruct (ag_sweepMu a); [discriminate E|]; injection E as <-; request_move Hi Ht).
  all: try (destruct (terminalRuntimeCandidates _ _); injection E as <-; request_move Hi Ht).
  - destruct (free_mu a); [|discriminate E]. injection E as <-. unfold initJobSem. destruct (ag_sem a); request_move Hi Ht.
  - unfold sem_send in E. destruct (ag_sem a) as [[cap len]|]; [|discriminate E].
    destruct (decide (len < cap)); [|discriminate E]. injection E as <-. request_move Hi Ht.
  - destruct (free_mu a); [|discriminate E]. destruct (StartRun req (client_ctx k) a) eqn:Es; injection E as <-;
      [by eapply requests_started|request_move Hi Ht].
  - destruct (free_mu a); [|discriminate E]. injection E as <-. request_move Hi Ht.
  - unfold sem_receive in E. destruct (ag_sem a) as [[cap [|len]]|]; try discriminate E. injection E as <-.
    destruct n; request_move Hi Ht.
  - destruct (free_mu a); [|discriminate E]. destruct (nodeIsIdle a); injection E as <-; request_move Hi Ht.
  - destruct (free_mu a); [|discriminate E]. destruct (nodeIsIdle a); injection E as <-; request_move Hi Ht.
  - destruct (free_mu a); [|discriminate E]. destruct (nodeIsIdle a); injection E as <-; request_move Hi Ht.
Qed.

Lemma requests_same a b ts : requests_inv a → ag_threads b = ag_threads a ++ ts → Forall (λ p, exec_of p = None) ts →
  ag_cancelled a ⊆ ag_cancelled b → requests_inv b.
Proof.
  intros Hi Ht Hts Hc t p x Hl Hx Hne. rewrite Ht in Hl. apply lookup_app_Some in Hl as [Hl|[_ Hl]].
  - destruct (Hi t p x Hl Hx Hne) as [Hin|(t' & req & Hl')]; [left; set_solver|]. right. exists t', req.
    rewrite Ht, lookup_app_l; [done|by eapply lookup_lt_Some].
  - pose proof (proj1 (Forall_lookup _ _) Hts _ _ Hl) as Hn. cbn in Hn. congruence.
Qed.

Lemma agent_reachable_requests allowed c a : agent_reachable allowed c a → requests_inv a.
Proof.
  induction 1 as [dirs|a h a' _ IH _ E]; [by intros t p x Hl|].
  destruct h as [t ch| |req| |runID|t| | |]; cbn [happens] in E.
  - by eapply thread_step_requests.
  - injection E as <-. eapply (requests_same a _ [Acquiring ForClaim]); [done|done|by repeat constructor|done].
  - destruct (validateStartRunRequest req); [discriminate E|]. injection E as <-.
    eapply (requests_same a _ [Acquiring (ForRequest req (ag_nextCtx a))]); [done|done|by repeat constructor|done].
  - injection E as <-. eapply (requests_same a _ [Acquiring ForMonitor]); [done|done|by repeat constructor|done].
  - destruct (free_mu a); [|discriminate E]. injection E as <-.
    eapply (requests_same a _ []); [done|by rewrite app_nil_r|constructor|cbn; set_solver].
  - destruct (ag_threads a !! t) as [[]|]; try discriminate E; injection E as <-;
      (eapply (requests_same a _ []); [done|by rewrite app_nil_r|constructor|cbn; set_solver]).
  - injection E as <-. eapply (requests_same a _ []); [done|by rewrite app_nil_r|constructor|cbn; set_solver].
  - destruct (decide _); [|discriminate E]. injection E as <-. eapply (requests_same a _ []); [done|by rewrite app_nil_r|constructor|done].
  - injection E as <-. eapply (requests_same a _ []); [done|by rewrite app_nil_r|constructor|done].
Qed.
