(* ===== verification/StreamSafety.v ===== *)
(** * What event streams guarantee

    First the invariant of a stream and its heap of channels under every
    interleaving of calls, with the traffic argument that no channel is given an
    event twice. Then the exact effect of each method when it runs alone, and that
    calls run one at a time never panic. *)

From stdpp Require Import base gmap sets list sorting strings.
From S2P Require Import Prelude GoStrings Types Ring Stream.
From Stdlib Require Import ZArith Lia.
Local Open Scope list_scope.

Record sys_ok (sys : Sys) : Prop := {
  so_ring : ring_ok (st_history (sy_stream sys));
  so_cap : r_cap (st_history (sy_stream sys)) = r_cap (newRing (HistorySize (st_opts (sy_stream sys))));
  so_sorted : StronglySorted Z.lt (ev_ID <$> snapshot (sy_stream sys));
  so_bound : Forall (λ e, 0 < ev_ID e ≤ st_nextEventID (sy_stream sys))%Z (snapshot (sy_stream sys));
  so_next : (0 ≤ st_nextEventID (sy_stream sys) ∧ 0 ≤ st_nextSubID (sy_stream sys))%Z;
  so_sub : ∀ id l, st_subscribers (sy_stream sys) !! id = Some l →
             (0 ≤ id < st_nextSubID (sy_stream sys))%Z ∧ l < length (sy_chans sys);
  so_inj : ∀ id id' l, st_subscribers (sy_stream sys) !! id = Some l →
             st_subscribers (sy_stream sys) !! id' = Some l → id = id';
  so_closed : st_closed (sy_stream sys) = true → st_subscribers (sy_stream sys) = ∅;
  so_buf : Forall (λ c, length (ch_buf c) ≤ ch_cap c) (sy_chans sys)
}.

(** ** Ids in the history *)

Lemma sorted_nodup (l : list Z) : StronglySorted Z.lt l → NoDup l.
Proof.
  induction 1 as [|x l _ IH Hx]; constructor; [|done]. intros Hin.
  rewrite Forall_forall in Hx. specialize (Hx x Hin). lia.
Qed.

Lemma sorted_drop (l : list Z) k : StronglySorted Z.lt l → StronglySorted Z.lt (drop k l).
Proof. rewrite <-(take_drop k l) at 1. apply StronglySorted_app_1_r. Qed.

Lemma queue_push_fmap cap l e : ev_ID <$> queue_push cap l e = drop (length l + 1 - cap) ((ev_ID <$> l) ++ [ev_ID e]).
Proof. unfold queue_push. by rewrite fmap_drop, fmap_app. Qed.

Lemma after_sub since r : ring_ok r → after since r `sublist_of` slice r.
Proof. intros Hr. rewrite after_spec by done. case_bool_decide; [done|apply sublist_filter]. Qed.

(** ** Heap updates that keep the invariant *)

Lemma sys_ok_chans s chans chans' :
  sys_ok (mkSys s chans) → length chans ≤ length chans' →
  Forall (λ c, length (ch_buf c) ≤ ch_cap c) chans' → sys_ok (mkSys s chans').
Proof.
  intros [H1 H2 H3 H4 H5 H6 H7 H8 H9] Hl Hb. split; simpl in *; try done.
  intros id l Hi. destruct (H6 id l Hi). split; [done|lia].
Qed.

Lemma Forall_alter_same {A} (P : A → Prop) (f : A → A) l i :
  (∀ x, P x → P (f x)) → Forall P l → Forall P (alter f i l).
Proof. intros Hf Hl. apply Forall_alter; [done|]. intros x _ Hx. by apply Hf. Qed.

Lemma close_ok s chans l : sys_ok (mkSys s chans) → sys_ok (mkSys s (alter close_chan l chans)).
Proof.
  intros Hok. eapply sys_ok_chans; [done|by rewrite length_alter|].
  apply Forall_alter_same; [done|apply (so_buf _ Hok)].
Qed.

Lemma send_ok s chans l evt c c' ok : sys_ok (mkSys s chans) → chans !! l = Some c →
  send evt c = Some (c', ok) → sys_ok (mkSys s (<[l := c']> chans)).
Proof.
  intros Hok Hc Hs. eapply sys_ok_chans; [done|by rewrite length_insert|].
  pose proof (so_buf _ Hok) as Hb. simpl in Hb. apply Forall_insert; [done|].
  unfold send in Hs. destruct (ch_closed c); [done|]. case_bool_decide; simplify_eq/=.
  - rewrite length_app. simpl. lia.
  - rewrite Forall_lookup in Hb. by apply (Hb l).
Qed.

Lemma unlink_ok s chans id l s' : sys_ok (mkSys s chans) → unlink id s = (l, s') → sys_ok (mkSys s' chans).
Proof.
  intros [H1 H2 H3 H4 H5 H6 H7 H8 H9]. unfold unlink. simpl in *.
  destruct (st_subscribers s !! id) as [l'|] eqn:E; intros [= <- <-]; [|by split].
  split; simpl; try done.
  - intros id' l2 [_ Hi]%lookup_delete_Some. by apply H6.
  - intros i1 i2 l2 [_ Ha]%lookup_delete_Some [_ Hb]%lookup_delete_Some. by eapply H7.
  - intros Hc. by rewrite H8, delete_empty.
Qed.

Lemma unlink_dropped_ok dropped sys : sys_ok sys → sys_ok (unlink_dropped dropped sys).
Proof.
  unfold unlink_dropped. revert sys; induction dropped as [|id dropped IH]; intros [s chans] Hok; [done|].
  cbn [foldl sy_stream sy_chans]. apply IH. pose proof (unlink_ok s chans id) as Hu. unfold unlink in Hu.
  destruct (st_subscribers s !! id) as [l|]; [|done]. apply close_ok. by eapply Hu.
Qed.

(** The counter has room for one more event. *)
Definition countable (s : stream) : Prop := (st_nextEventID s < 2 ^ 63 - 1)%Z.

Lemma next_in s : (0 ≤ st_nextEventID s)%Z → countable s → wrap64 (st_nextEventID s + 1) = (st_nextEventID s + 1)%Z.
Proof. unfold countable. intros H0 Hs. apply wrap64_in. lia. Qed.

Lemma publish_ok evt s chans evt' s' : sys_ok (mkSys s chans) → countable s → st_closed s = false →
  publish_locked evt s = (evt', s') → sys_ok (mkSys s' chans).
Proof.
  intros [H1 H2 H3 H4 H5 H6 H7 H8 H9] Hn Hc Hp. simpl in *. unfold publish_locked in Hp.
  rewrite next_in in Hp by (done || lia). injection Hp as <- <-. simpl in *. unfold snapshot in *.
  split; simpl; try done; [by apply push_ok| | |lia].
  all: unfold snapshot; simpl; rewrite ?push_slice by done.
  - rewrite queue_push_fmap. apply sorted_drop. apply StronglySorted_app. split_and!; [|done|].
    + intros x y (e & -> & He)%list_elem_of_fmap ->%list_elem_of_singleton. simpl.
      rewrite Forall_forall in H4. specialize (H4 e He). lia.
    + apply SSorted_cons; [apply SSorted_nil|done].
  - unfold queue_push. apply Forall_drop, Forall_app. split.
    + eapply Forall_impl; [exact H4|]. simpl. lia.
    + repeat constructor; simpl; lia.
Qed.

Lemma fresh_history_ok s chans c : sys_ok (mkSys s chans) →
  sys_ok (mkSys (mkStream (st_opts s) (newRing (HistorySize (st_opts s))) (st_subscribers s)
    (st_nextEventID s) (st_nextSubID s) false (c.1) (c.2)) chans).
Proof.
  intros [H1 H2 H3 H4 H5 H6 H7 H8 H9]. destruct (newRing_ok (HistorySize (st_opts s))) as [Hr Hs].
  split; simpl in *; try done; unfold snapshot; simpl; rewrite ?Hs; try done; apply SSorted_nil.
Qed.

Lemma resume_ok attempt count s chans : sys_ok (mkSys s chans) → sys_ok (mkSys (resume attempt count s) chans).
Proof.
  intros Hok. unfold resume. destruct (_ || _); [done|]. apply (fresh_history_ok s chans (count, attempt) Hok).
Qed.

Lemma finish_ok s chans : sys_ok (mkSys s chans) → sys_ok (mkSys (finish_locked s) chans).
Proof.
  intros [H1 H2 H3 H4 H5 H6 H7 H8 H9]. by split; simpl in *.
Qed.

Lemma subscribe_ok since sys sys' id l history : sys_ok sys →
  subscribe_locked since sys = (sys', id, l, history) → sys_ok sys'.
Proof.
  destruct sys as [s chans]. intros Hok. pose proof Hok as [H1 H2 H3 H4 H5 H6 H7 H8 H9]. simpl in *.
  unfold subscribe_locked. simpl.
  assert (Hb : Forall (λ c, length (ch_buf c) ≤ ch_cap c)
    (chans ++ [newSubscriber (Z.to_nat (BufferSize (st_opts s)))])).
  { apply Forall_app. split; [done|]. repeat constructor. simpl. lia. }
  destruct (st_closed s) eqn:Ec; intros [= <- <- <- <-].
  { eapply sys_ok_chans; [done|rewrite length_app; lia|done]. }
  split; simpl; try done; [lia| |].
  - intros id l Hi. rewrite length_app. simpl.
    apply lookup_insert_Some in Hi as [[<- <-]|[_ Hi]]; [lia|]. destruct (H6 id l Hi). lia.
  - intros i1 i2 l Hi1 Hi2.
    apply lookup_insert_Some in Hi1 as [[<- <-]|[_ Hi1]]; apply lookup_insert_Some in Hi2 as [[<- E]|[_ Hi2]];
      [done|apply H6 in Hi2; lia|apply H6 in Hi1; lia|by eapply H7].
Qed.

(** What is about to be published can be numbered. *)
Definition numberable (sys : Sys) (new : list Event) : Prop := new ≠ [] → countable (sy_stream sys).

Lemma tstep_ok sys t sys' t' : tstep sys t sys' t' → numberable sys (accepted t t') → sys_ok sys → sys_ok sys'.
Proof.
  intros Hstep Hn Hok.
  destruct Hstep as [| [s chans] | | | | [s chans] | | | | | | | |]; simpl in *;
    eauto using publish_ok, send_ok, unlink_dropped_ok, finish_ok, close_ok, subscribe_ok, unlink_ok, resume_ok.
Qed.

Lemma newStream_ok opts : sys_ok (mkSys (newStream opts) []).
Proof.
  destruct (newRing_ok (HistorySize opts)) as [Hr Hs].
  split; simpl; try done; unfold snapshot; simpl; rewrite ?Hs; try done; apply SSorted_nil.
Qed.

(** ** Traffic

    For each channel: the ids its consumer received or will find in the buffer, and
    the ids that threads are still going to send to it. *)

Definition ids_of (chans : list Chan) (l : loc) : list Z :=
  match chans !! l with Some c => ev_ID <$> (ch_got c ++ ch_buf c) | None => [] end.

Definition inflight (l : loc) (t : Thread) : list Z :=
  match t with
  | TSend evt pending _ _ => (λ _, ev_ID evt) <$> filter (λ p, p.2 = l) pending
  | TReplay _ l' history _ => if decide (l' = l) then ev_ID <$> history else []
  | _ => []
  end.

Definition own (l : loc) (sys : Sys) (t : Thread) : list Z := ids_of (sy_chans sys) l ++ inflight l t.

Definition traffic (l : loc) (w : Sys * list Thread) : list Z :=
  ids_of (sy_chans w.1) l ++ concat (inflight l <$> w.2).

(** What a step does to the traffic of a channel: nothing new, one new event for a
    channel that exists, or a replay to a channel just made. *)
Inductive flow (sys sys' : Sys) (l : loc) (before after : list Z) : Prop :=
| flow_less : after ⊆+ before → flow sys sys' l before after
| flow_event n : l < length (sy_chans sys) → after ≡ₚ n :: before →
    (st_nextEventID (sy_stream sys) < n ≤ st_nextEventID (sy_stream sys'))%Z → flow sys sys' l before after
| flow_replay : l = length (sy_chans sys) → l < length (sy_chans sys') → NoDup after →
    Forall (λ i, i ≤ st_nextEventID (sy_stream sys'))%Z after → flow sys sys' l before after.

Lemma ids_insert chans l l' c : l < length chans →
  ids_of (<[l := c]> chans) l' = if decide (l = l') then ev_ID <$> (ch_got c ++ ch_buf c) else ids_of chans l'.
Proof.
  intros Hl. unfold ids_of. destruct (decide (l = l')) as [->|Hne].
  - by rewrite list_lookup_insert_eq.
  - by rewrite list_lookup_insert_ne.
Qed.

Lemma ids_close chans l l' : ids_of (alter close_chan l chans) l' = ids_of chans l'.
Proof.
  unfold ids_of. destruct (decide (l = l')) as [->|Hne].
  - rewrite list_lookup_alter_eq. by destruct (chans !! l').
  - by rewrite list_lookup_alter_ne.
Qed.

Lemma ids_unlink dropped sys l : ids_of (sy_chans (unlink_dropped dropped sys)) l = ids_of (sy_chans sys) l.
Proof.
  unfold unlink_dropped. revert sys; induction dropped as [|id dropped IH]; intros [s chans]; [done|].
  cbn [foldl sy_stream sy_chans]. rewrite IH. destruct (st_subscribers s !! id); [apply ids_close|done].
Qed.

Lemma length_unlink dropped sys : length (sy_chans (unlink_dropped dropped sys)) = length (sy_chans sys).
Proof.
  unfold unlink_dropped. revert sys; induction dropped as [|id dropped IH]; intros [s chans]; [done|].
  cbn [foldl sy_stream sy_chans]. rewrite IH. destruct (st_subscribers s !! id); [apply length_alter|done].
Qed.

Lemma next_unlink dropped sys :
  st_nextEventID (sy_stream (unlink_dropped dropped sys)) = st_nextEventID (sy_stream sys).
Proof.
  unfold unlink_dropped. revert sys; induction dropped as [|id dropped IH]; intros [s chans]; [done|].
  cbn [foldl sy_stream sy_chans]. rewrite IH. by destruct (st_subscribers s !! id).
Qed.

(** A send moves an id from the thread to the channel, or loses it. *)
Lemma send_moves chans l l' evt c c' ok rest :
  chans !! l = Some c → send evt c = Some (c', ok) →
  ids_of (<[l := c']> chans) l' ++ rest ⊆+ ids_of chans l' ++ (if decide (l = l') then ev_ID evt :: rest else rest).
Proof.
  intros Hc Hs. rewrite ids_insert by (by eapply lookup_lt_Some).
  destruct (decide (l = l')) as [<-|Hne]; [|done].
  unfold ids_of. rewrite Hc. unfold send in Hs. destruct (ch_closed c); [done|].
  case_bool_decide; simplify_eq/=.
  - rewrite app_assoc, (fmap_app _ _ [evt]). simpl. by rewrite <-app_assoc.
  - apply submseteq_app; [done|]. by apply submseteq_cons.
Qed.

Lemma subscribers_once (m : gmap Z loc) subs l :
  (∀ id id' l, m !! id = Some l → m !! id' = Some l → id = id') → subs ≡ₚ map_to_list m →
  filter (λ p, p.2 = l) subs = [] ∨ ∃ id, m !! id = Some l ∧ filter (λ p, p.2 = l) subs = [(id, l)].
Proof.
  intros Hinj Hp.
  assert (Hin : ∀ p, p ∈ filter (λ p, p.2 = l) subs → m !! p.1 = Some l).
  { intros [i l'] [<- Hi]%list_elem_of_filter. rewrite Hp in Hi. by apply elem_of_map_to_list in Hi. }
  assert (Hnd : NoDup (filter (λ p, p.2 = l) subs)).
  { apply NoDup_filter. rewrite Hp. apply NoDup_map_to_list. }
  destruct (filter (λ p, p.2 = l) subs) as [|[i l1] [|[j l2] rest]] eqn:E; [by left| |].
  - right. exists i. assert (Hi : (i, l1) ∈ filter (λ p, p.2 = l) subs) by (rewrite E; left).
    apply list_elem_of_filter in Hi as [Hl _]. simpl in Hl. subst. split; [|done]. apply (Hin (i, l)). left.
  - exfalso. assert (Hi : (i, l1) ∈ filter (λ p, p.2 = l) subs) by (rewrite E; left).
    assert (Hj : (j, l2) ∈ filter (λ p, p.2 = l) subs) by (rewrite E; right; left).
    apply list_elem_of_filter in Hi as [Hl1 _]. apply list_elem_of_filter in Hj as [Hl2 _]. simpl in *. subst l1 l2.
    assert (i = j) as ->. { apply (Hinj i j l); [apply (Hin (i, l)); left|apply (Hin (j, l)); right; left]. }
    apply NoDup_cons in Hnd as [Hn _]. apply Hn. left.
Qed.

Lemma tstep_flow sys t sys' t' l : sys_ok sys → numberable sys (accepted t t') → tstep sys t sys' t' →
  flow sys sys' l (own l sys t) (own l sys' t').
Proof.
  intros Hok Hnum Hstep. unfold own.
  destruct Hstep as [|[s chans] evt f evt' s' subs Hc Hp Hperm|s chans evt id l0 subs dropped f c c' ok Hc Hs
    |sys evt dropped f| |[s chans] ls Hc Hp|s chans l0 ls|[s chans] since sys' id l0 history Hsub
    |s chans id l0 evt history closed c c' Hc Hs|s chans id l0 evt history closed c c' Hc Hs|sys id l0 closed| |
    s chans id l0 s' Hid Hu|]; simpl in *.
  - by apply flow_less.
  - unfold publish_locked in Hp. rewrite next_in in Hp by (by apply Hnum || apply (so_next _ Hok)).
    injection Hp as <- <-. simpl in *. destruct (subscribers_once _ _ l (so_inj _ Hok) Hperm) as [->|(id & Hi & ->)].
    + by apply flow_less.
    + eapply flow_event with (n := (st_nextEventID s + 1)%Z); simpl; [by eapply so_sub in Hi as [_ ?]| |lia].
      rewrite app_nil_r. symmetry. apply Permutation_cons_append.
  - apply flow_less. pose proof (send_moves chans l0 l evt c c' ok
      ((λ _, ev_ID evt) <$> filter (λ p, p.2 = l) subs) Hc Hs) as Hm.
    rewrite filter_cons. simpl. destruct (decide (l0 = l)); exact Hm.
  - apply flow_less. rewrite ids_unlink. by destruct f.
  - by apply flow_less.
  - by apply flow_less.
  - apply flow_less. by rewrite ids_close.
  - unfold subscribe_locked in Hsub. simpl in Hsub.
    assert (Hids : ∀ o, ids_of (chans ++ [newSubscriber o]) l = ids_of chans l).
    { intros o. unfold ids_of. destruct (decide (l < length chans)).
      - by rewrite lookup_app_l.
      - rewrite lookup_app_r, (lookup_ge_None_2 chans) by lia.
        destruct (l - length chans) as [|k]; [done|by destruct k]. }
    assert (Hl0 : l0 = length chans ∧ sy_chans sys' = chans ++ [newSubscriber (Z.to_nat (BufferSize (st_opts s)))] ∧
      history = after since (st_history s) ∧ st_nextEventID (sy_stream sys') = st_nextEventID s).
    { by destruct (st_closed s); injection Hsub as <- <- <- <-. }
    destruct Hl0 as (-> & Hch & -> & Hn). clear Hsub. rewrite Hch, Hids.
    destruct (decide (length chans = l)) as [<-|Hne]; [|by apply flow_less].
    apply flow_replay; simpl; [done|rewrite Hch, length_app; simpl; lia| |].
    all: unfold ids_of; rewrite (lookup_ge_None_2 chans) by lia; simpl;
      pose proof (after_sub since (st_history s) (so_ring _ Hok)) as Hsl.
    + eapply sublist_NoDup; [apply sorted_nodup, (so_sorted _ Hok)|]. by apply fmap_sublist.
    + rewrite Hn. apply Forall_fmap. pose proof (so_bound _ Hok) as Hb. unfold snapshot in Hb.
      rewrite Forall_forall in *. intros e He. simpl. apply Hb. by eapply elem_of_sublist.
  - apply flow_less. pose proof (send_moves chans l0 l evt c c' true
      (if decide (l0 = l) then ev_ID <$> history else []) Hc Hs) as Hm.
    by destruct (decide (l0 = l)).
  - apply flow_less. pose proof (send_moves chans l0 l evt c c' false [] Hc Hs) as Hm.
    assert (Hi : inflight l (if bool_decide (0 ≤ id)%Z then TDrop id else if closed then TClose [l0] else TDone) = []).
    { by destruct (bool_decide _), closed. }
    rewrite Hi. etrans; [exact Hm|]. apply submseteq_app; [done|]. destruct (decide (l0 = l)); [|done].
    simpl. apply submseteq_skip, submseteq_nil_l.
  - apply flow_less. destruct closed; simpl; destruct (decide (l0 = l)); done.
  - by apply flow_less.
  - apply flow_less. by destruct l0.
  - by apply flow_less.
Qed.

(** ** Every interleaving *)

Record world_inv (w : Sys * list Thread) : Prop := {
  wi_sys : sys_ok w.1;
  wi_once : ∀ l, NoDup (traffic l w);
  wi_past : ∀ l, Forall (λ i, i ≤ st_nextEventID (sy_stream w.1))%Z (traffic l w);
  wi_fresh : ∀ l, length (sy_chans w.1) ≤ l → traffic l w = []
}.

Lemma traffic_split sys pre t post l :
  traffic l (sys, pre ++ t :: post) ≡ₚ own l sys t ++ (concat (inflight l <$> pre) ++ concat (inflight l <$> post)).
Proof.
  unfold traffic, own. simpl. rewrite fmap_app, concat_app. simpl.
  rewrite <-app_assoc. apply Permutation_app_head. apply Permutation_app_swap_app.
Qed.

Lemma submseteq_NoDup {A} (l k : list A) : l ⊆+ k → NoDup k → NoDup l.
Proof. intros [k' ->]%submseteq_Permutation. by intros [? _]%NoDup_app. Qed.

Lemma submseteq_Forall {A} (P : A → Prop) (l k : list A) : l ⊆+ k → Forall P k → Forall P l.
Proof. intros [k' ->]%submseteq_Permutation. by intros [? _]%Forall_app. Qed.

(** A step of a thread never shortens the heap or lowers the event counter. *)
Lemma tstep_grows sys t sys' t' : sys_ok sys → numberable sys (accepted t t') → tstep sys t sys' t' →
  length (sy_chans sys) ≤ length (sy_chans sys') ∧
  (st_nextEventID (sy_stream sys) ≤ st_nextEventID (sy_stream sys'))%Z.
Proof.
  intros Hok Hnum Hstep. destruct Hstep as [|? ? ? ? ? ? ? Hp ?| | | | | |[s chans] ? ? ? ? ? Hsub| | | | |
    s chans ? ? ? ? Hu|]; simpl;
    rewrite ?length_insert, ?length_alter, ?length_unlink, ?next_unlink; try done.
  - unfold publish_locked in Hp. rewrite next_in in Hp by (by apply Hnum || apply (so_next _ Hok)).
    injection Hp as <- <-. simpl. lia.
  - unfold subscribe_locked in Hsub. simpl in Hsub.
    destruct (st_closed s); injection Hsub as <- <- <- <-; simpl; rewrite length_app; lia.
  - unfold unlink in Hu. by destruct (st_subscribers s !! _); injection Hu as <- <-.
  - unfold resume. by destruct (_ || _).
Qed.

Lemma flow_world sys sys' l before after rest :
  flow sys sys' l before after → length (sy_chans sys) ≤ length (sy_chans sys') →
  (st_nextEventID (sy_stream sys) ≤ st_nextEventID (sy_stream sys'))%Z →
  NoDup (before ++ rest) → Forall (λ i, i ≤ st_nextEventID (sy_stream sys))%Z (before ++ rest) →
  (length (sy_chans sys) ≤ l → before ++ rest = []) →
  NoDup (after ++ rest) ∧ Forall (λ i, i ≤ st_nextEventID (sy_stream sys'))%Z (after ++ rest) ∧
  (length (sy_chans sys') ≤ l → after ++ rest = []).
Proof.
  intros Hf Hlen Hnext Hnd Hle Hfresh. destruct Hf as [Hs|n Hl Hp Hn|Hl Hl' Hna Hla].
  - assert (Hs' : after ++ rest ⊆+ before ++ rest) by (by apply submseteq_app).
    split_and!; [by eapply submseteq_NoDup| |].
    + eapply submseteq_Forall; [done|]. eapply Forall_impl; [done|]. simpl. lia.
    + intros H. rewrite Hfresh in Hs' by lia. by apply submseteq_nil_r in Hs'.
  - split_and!; [rewrite Hp; simpl|rewrite Hp; simpl|].
    + constructor; [|done]. intros Hin. rewrite Forall_forall in Hle. specialize (Hle n Hin). simpl in Hle. lia.
    + constructor; [lia|]. eapply Forall_impl; [done|]. simpl. lia.
    + lia.
  - rewrite Hfresh in Hnd by lia. assert (before ++ rest = []) as [-> ->]%app_nil by (apply Hfresh; lia).
    rewrite app_nil_r. split_and!; [done|done|lia].
Qed.

Lemma world_step_inv w new w' : world_step w new w' → numberable w.1 new → world_inv w → world_inv w'.
Proof.
  intros Hstep Hnum [Hok Ho Hp Hf].
  destruct Hstep as [sys ts t Hst|sys sys' pre t t' post Ht|s chans ts l c c' Hc Hr].
  - assert (Htr : ∀ l, traffic l (sys, ts ++ [t]) = traffic l (sys, ts)).
    { intros l. unfold traffic. simpl. rewrite fmap_app, concat_app. simpl.
      assert (inflight l t = []) as -> by (by destruct t). by rewrite !app_nil_r. }
    split; simpl; [done|..]; intros l; rewrite Htr; [apply Ho|apply Hp|apply Hf].
  - simpl in *. destruct (tstep_grows _ _ _ _ Hok Hnum Ht) as [Hg1 Hg2].
    assert (Hw : ∀ l, let rest := concat (inflight l <$> pre) ++ concat (inflight l <$> post) in
      NoDup (own l sys' t' ++ rest) ∧ Forall (λ i, i ≤ st_nextEventID (sy_stream sys'))%Z (own l sys' t' ++ rest) ∧
      (length (sy_chans sys') ≤ l → own l sys' t' ++ rest = [])).
    { intros l rest. apply (flow_world sys sys' l (own l sys t));
        [by apply tstep_flow|done|done|unfold rest; rewrite <-traffic_split; apply Ho|
         unfold rest; rewrite <-traffic_split; apply Hp|].
      intros Hl. apply Permutation_nil_r. unfold rest. rewrite <-traffic_split. by rewrite Hf. }
    split; simpl; [by eapply tstep_ok|..]; intros l; rewrite ?traffic_split; try apply Hw.
    intros Hl. apply Permutation_nil_r. rewrite traffic_split. destruct (Hw l) as (_ & _ & Hn). by rewrite Hn.
  - assert (Hids : ∀ l', ids_of (<[l := c']> chans) l' = ids_of chans l').
    { intros l'. rewrite ids_insert by (by eapply lookup_lt_Some). destruct (decide (l = l')) as [<-|]; [|done].
      unfold ids_of. rewrite Hc. unfold receive in Hr. destruct (ch_buf c) as [|e b]; [done|].
      injection Hr as <-. simpl. by rewrite <-app_assoc. }
    assert (Htr : ∀ l', traffic l' (mkSys s (<[l := c']> chans), ts) = traffic l' (mkSys s chans, ts))
      by (intros l'; unfold traffic; simpl; by rewrite Hids).
    split; simpl in *; [|intros l'; rewrite Htr, ?length_insert; auto..].
    eapply sys_ok_chans; [done|by rewrite length_insert|]. apply Forall_insert; [apply (so_buf _ Hok)|].
    pose proof (so_buf _ Hok) as Hb. simpl in Hb. rewrite Forall_lookup in Hb. specialize (Hb l c Hc).
    unfold receive in Hr. destruct (ch_buf c); [done|]. injection Hr as <-. simpl in *. lia.
Qed.

(** ** What is delivered was published *)

(** The events a thread still carries. *)
Definition carried (t : Thread) : list Event :=
  match t with TSend evt _ _ _ => [evt] | TReplay _ _ history _ => history | _ => [] end.

(** The history is the end of what was published, and channels and threads hold
    published events only. *)
Record published_inv (log : list Event) (w : Sys * list Thread) : Prop := {
  pi_next : st_nextEventID (sy_stream w.1) = Z.of_nat (length log);
  pi_history : snapshot (sy_stream w.1) `suffix_of` stamped log;
  pi_chans : Forall (λ c, Forall (.∈ stamped log) (ch_got c ++ ch_buf c)) (sy_chans w.1);
  pi_threads : Forall (λ t, Forall (.∈ stamped log) (carried t)) w.2
}.

Lemma stamped_app log new : stamped (log ++ new) = stamped log ++ imap (λ i, stamp (length log + i)) new.
Proof. apply imap_app. Qed.

Lemma stamped_more log new es : Forall (.∈ stamped log) es → Forall (.∈ stamped (log ++ new)) es.
Proof. intros H. eapply Forall_impl; [exact H|]. intros e He. rewrite stamped_app, elem_of_app. by left. Qed.

Lemma close_carried P chans l :
  Forall (λ c, Forall P (ch_got c ++ ch_buf c)) chans →
  Forall (λ c, Forall P (ch_got c ++ ch_buf c)) (alter close_chan l chans).
Proof. by apply Forall_alter_same. Qed.

Lemma unlink_carried P dropped sys :
  Forall (λ c, Forall P (ch_got c ++ ch_buf c)) (sy_chans sys) →
  Forall (λ c, Forall P (ch_got c ++ ch_buf c)) (sy_chans (unlink_dropped dropped sys)) ∧
  snapshot (sy_stream (unlink_dropped dropped sys)) = snapshot (sy_stream sys).
Proof.
  unfold unlink_dropped. revert sys; induction dropped as [|id dropped IH]; intros [s chans] H; [done|].
  cbn [foldl sy_stream sy_chans]. destruct (st_subscribers s !! id) as [l|]; [|by apply IH].
  destruct (IH (mkSys (set_subscribers (delete id (st_subscribers s)) s) (alter close_chan l chans))) as [H1 H2];
    [by apply close_carried|]. split; [exact H1|by rewrite H2].
Qed.

Lemma send_carried P chans l evt c c' ok :
  P evt → chans !! l = Some c → send evt c = Some (c', ok) →
  Forall (λ c, Forall P (ch_got c ++ ch_buf c)) chans →
  Forall (λ c, Forall P (ch_got c ++ ch_buf c)) (<[l := c']> chans).
Proof.
  intros He Hc Hs H. apply Forall_insert; [done|]. rewrite Forall_lookup in H. specialize (H l c Hc). simpl in H.
  unfold send in Hs. destruct (ch_closed c); [done|]. case_bool_decide; simplify_eq/=; [|done].
  rewrite app_assoc. apply Forall_app. by split; [|constructor].
Qed.

Lemma suffix_drop {A} k (l : list A) : drop k l `suffix_of` l.
Proof. exists (take k l). by rewrite take_drop. Qed.

(** The part of the invariant one thread's step is about. *)
Lemma tstep_published log sys t sys' t' :
  sys_ok sys → numberable sys (accepted t t') → tstep sys t sys' t' →
  published_inv log (sys, [t]) → published_inv (log ++ accepted t t') (sys', [t']).
Proof.
  intros Hok Hnum Hstep [Hn Hh Hc Ht]. simpl in *. rewrite Forall_singleton in Ht.
  destruct Hstep as [|[s chans] evt f evt' s' subs Hcl Hp Hperm|s chans evt id l0 subs dropped f c c' ok Hl Hs
    |sys evt dropped f| |[s chans] ls Hcl Hp|s chans l0 ls|[s chans] since sys' id l0 history Hsub
    |s chans id l0 evt history closed c c' Hl Hs|s chans id l0 evt history closed c c' Hl Hs|sys id l0 closed| |
    s chans id l0 s' Hid Hu|s chans attempt count]; simpl in *; rewrite ?app_nil_r.
  - split; simpl; [done..|by repeat constructor].
  - unfold publish_locked in Hp. rewrite next_in in Hp by (by apply Hnum || apply (so_next _ Hok)).
    injection Hp as <- <-. simpl in *. rewrite Hn.
    assert (Hst : stamped (log ++ [evt]) = stamped log ++ [mkEvent (Z.of_nat (length log) + 1) (ev_Type evt) (ev_Data evt)]).
    { rewrite stamped_app. simpl. unfold stamp. simpl. by rewrite Nat.add_0_r. }
    split; simpl.
    + rewrite length_app. simpl. lia.
    + unfold snapshot in *. simpl. rewrite push_slice by apply (so_ring _ Hok). rewrite Hst. unfold queue_push.
      etransitivity; [apply suffix_drop|]. destruct Hh as [k ->]. exists k. by rewrite app_assoc.
    + eapply Forall_impl; [exact Hc|]. intros c. apply stamped_more.
    + repeat constructor. rewrite Hst, elem_of_app. right. left.
  - rewrite Forall_singleton in Ht. split; simpl; [done|done| |by repeat constructor]. by eapply send_carried.
  - destruct (unlink_carried (.∈ stamped log) dropped sys Hc) as [Hc' Hs'].
    split; simpl; [by rewrite next_unlink|by rewrite Hs'|done|]. destruct f; by repeat constructor.
  - split; simpl; [done..|by repeat constructor].
  - split; simpl; [done..|by repeat constructor].
  - split; simpl; [done|done|by apply close_carried|by repeat constructor].
  - assert (Hl0 : sy_chans sys' = chans ++ [newSubscriber (Z.to_nat (BufferSize (st_opts s)))] ∧
      history = after since (st_history s) ∧ st_nextEventID (sy_stream sys') = st_nextEventID s ∧
      snapshot (sy_stream sys') = snapshot s).
    { unfold subscribe_locked in Hsub. simpl in Hsub. by destruct (st_closed s); injection Hsub as <- <- <- <-. }
    destruct Hl0 as (Hch & -> & Hn' & Hs'). split; simpl; [by rewrite Hn'|by rewrite Hs'| |].
    + rewrite Hch. apply Forall_app. split; [done|]. by repeat constructor.
    + apply Forall_singleton. apply Forall_forall. intros e He. destruct Hh as [k ->]. rewrite elem_of_app. right.
      eapply elem_of_sublist; [exact He|]. apply after_sub, (so_ring _ Hok).
  - apply Forall_cons in Ht as [He Ht]. split; simpl; [done|done| |by apply Forall_singleton]. by eapply send_carried.
  - apply Forall_cons in Ht as [He Ht]. split; simpl; [done|done|by eapply send_carried|].
    apply Forall_singleton. by repeat case_match.
  - split; simpl; [done..|]. apply Forall_singleton. by destruct closed.
  - split; simpl; [done..|by repeat constructor].
  - unfold unlink in Hu. split; simpl; [|..|].
    all: destruct (st_subscribers s !! id); injection Hu as <- <-; simpl; by repeat constructor.
  - unfold resume. destruct (_ || _); split; simpl; try done; try (by repeat constructor).
    unfold snapshot. simpl. rewrite (proj2 (newRing_ok _)). apply suffix_nil.
Qed.

Lemma world_step_published log w new w' :
  world_inv w → numberable w.1 new → world_step w new w' → published_inv log w → published_inv (log ++ new) w'.
Proof.
  intros [Hok _ _ _] Hnum Hstep [Hn Hh Hc Ht].
  destruct Hstep as [sys ts t Hst|sys sys' pre t t' post Hstep|s chans ts l c c' Hl Hr]; simpl in *.
  - rewrite app_nil_r. split; simpl; [done..|]. apply Forall_app. split; [done|]. apply Forall_singleton. by destruct t.
  - apply Forall_app in Ht as [Hpre [Ht Hpost]%Forall_cons].
    destruct (tstep_published log sys t sys' t') as [Hn' Hh' Hc' Ht'];
      [done..|split; simpl; [done..|by apply Forall_singleton]|]. simpl in *. rewrite Forall_singleton in Ht'.
    split; simpl; [done..|]. apply Forall_app. split; [|constructor; [done|]];
      (eapply Forall_impl; [eassumption|]; intros x; apply stamped_more).
  - rewrite app_nil_r. split; simpl; [done|done| |done]. apply Forall_insert; [done|].
    rewrite Forall_lookup in Hc. specialize (Hc l c Hl). simpl in Hc. unfold receive in Hr.
    destruct (ch_buf c) as [|e b]; [done|]. injection Hr as <-. simpl. by rewrite <-app_assoc.
Qed.

Lemma world_reachable_inv opts log w :
  world_reachable opts log w → (Z.of_nat (length log) < 2 ^ 63)%Z → world_inv w ∧ published_inv log w.
Proof.
  induction 1 as [|log new w w' _ IH Hs]; intros Hlen.
  - split; [|split; simpl; [done|unfold snapshot; simpl; by rewrite (proj2 (newRing_ok _))|constructor|constructor]].
    split; simpl; [apply newStream_ok|intros l; unfold traffic, ids_of; simpl; constructor..|done].
  - rewrite length_app in Hlen. destruct IH as [Hi Hp]; [lia|].
    assert (Hnum : numberable w.1 new).
    { intros Hne. unfold countable. rewrite (pi_next _ _ Hp). destruct new; [done|]. simpl in Hlen. lia. }
    split; [by eapply world_step_inv|by eapply world_step_published].
Qed.
