(* ===== verification/StreamCalls.v ===== *)
(** * Streams whose calls do not overlap

    The exact effect of [publish], [subscribe], [drop] and [finish] when each call
    runs alone, and what a whole sequence of calls guarantees: no panic, and every
    consumer sees consecutive event ids. *)

From stdpp Require Import base gmap sets list sorting strings.
From S2P Require Import Prelude GoStrings Types Ring Stream StreamSafety.
From Stdlib Require Import ZArith Lia.
Local Open Scope list_scope.

(** Registered subscribers have open channels. *)
Definition open_ok (sys : Sys) : Prop := ∀ id l, st_subscribers (sy_stream sys) !! id = Some l →
  ∃ c, sy_chans sys !! l = Some c ∧ ch_closed c = false.

Definition registered (s : stream) (l : loc) : Prop := ∃ id, st_subscribers s !! id = Some l.

#[export] Instance registered_dec s l : Decision (registered s l).
Proof.
  destruct (decide (l ∈ (map_to_list (st_subscribers s)).*2)) as [Hl|Hl]; [left|right].
  - apply list_elem_of_fmap in Hl as ([i l'] & -> & Hi%elem_of_map_to_list). by exists i.
  - intros [i Hi]. apply Hl, list_elem_of_fmap. exists (i, l). split; [done|]. by apply elem_of_map_to_list.
Defined.

Definition room (c : Chan) : bool := bool_decide (length (ch_buf c) < ch_cap c).

(** What [send] does to an open channel. *)
Definition deliver (e : Event) (c : Chan) : Chan :=
  if room c then mkChan (ch_buf c ++ [e]) (ch_got c) (ch_cap c) false else close_chan c.

Lemma send_open e c : ch_closed c = false → send e c = Some (deliver e c, room c).
Proof. intros Hc. unfold send, deliver, room. rewrite Hc. by case_bool_decide. Qed.

(** ** Delivery *)

Lemma filter_ext_in {A} (P Q : A → Prop) `{!∀ x, Decision (P x), !∀ x, Decision (Q x)} (l : list A) :
  (∀ x, x ∈ l → P x ↔ Q x) → filter P l = filter Q l.
Proof.
  induction l as [|x l IH]; intros Hpq; [done|]. rewrite !filter_cons, IH by (intros; apply Hpq; by right).
  destruct (Hpq x) as [H1 H2]; [left|]. destruct (decide (P x)), (decide (Q x)); naive_solver.
Qed.

Lemma decide_cons_ne {A B} `{EqDecision A} (x y : A) l (a b : B) : x ≠ y →
  (if decide (x ∈ l) then a else b) = (if decide (x ∈ y :: l) then a else b).
Proof.
  intros Hne. destruct (decide (x ∈ l)) as [Hi|Hi];
    [by rewrite decide_True by (by right)|by rewrite decide_False by (by rewrite not_elem_of_cons)].
Qed.

Lemma send_all_spec e subs chans dropped :
  NoDup subs.*2 → (∀ id l, (id, l) ∈ subs → ∃ c, chans !! l = Some c ∧ ch_closed c = false) →
  ∃ chans', send_all e subs chans dropped =
    Some (chans', dropped ++ (filter (λ p, (default true (room <$> chans !! p.2)) = false) subs).*1) ∧
    length chans' = length chans ∧
    ∀ l, chans' !! l = (if decide (l ∈ subs.*2) then deliver e else id) <$> chans !! l.
Proof.
  revert chans dropped; induction subs as [|[id l] subs IH]; intros chans dropped Hnd Hopen.
  { exists chans. simpl. rewrite app_nil_r. split_and!; [done|done|].
    intros l. by destruct (chans !! l). }
  simpl in Hnd. apply NoDup_cons in Hnd as [Hl Hnd].
  destruct (Hopen id l) as (c & Hc & Hcl); [left|].
  assert (Hsame : ∀ i l', (i, l') ∈ subs → <[l := deliver e c]> chans !! l' = chans !! l').
  { intros i l' Hin. apply list_lookup_insert_ne. intros ->. apply Hl. apply list_elem_of_fmap. by exists (i, l'). }
  destruct (IH (<[l := deliver e c]> chans) (if room c then dropped else dropped ++ [id]))
    as (chans' & Hs & Hlen & Hlook); [done| |].
  { intros i l' Hin. rewrite (Hsame i) by done. apply (Hopen i). by right. }
  exists chans'. cbn [send_all]. rewrite Hc, (send_open e c Hcl), Hs. split_and!.
  - do 2 f_equal. rewrite (filter_cons _ (id, l)). cbn [snd]. rewrite Hc. simpl default.
    assert (Hf : filter (λ p, default true (room <$> <[l := deliver e c]> chans !! p.2) = false) subs
      = filter (λ p, default true (room <$> chans !! p.2) = false) subs).
    { apply filter_ext_in. intros [i l'] Hin. cbn [snd]. by rewrite (Hsame i l' Hin). }
    rewrite Hf. destruct (room c); simpl; [done|]. by rewrite <-app_assoc.
  - by rewrite Hlen, length_insert.
  - intros l'. rewrite Hlook. simpl. destruct (decide (l' = l)) as [->|Hne].
    + rewrite list_lookup_insert_eq by (by eapply lookup_lt_Some). rewrite Hc.
      rewrite decide_False, decide_True by (done || left). done.
    + rewrite list_lookup_insert_ne by done. f_equal.
      by apply decide_cons_ne.
Qed.

(** Forgetting subscribers whose channels are closed touches no channel. *)
Lemma unlink_dropped_spec dropped s chans :
  (∀ id l, id ∈ dropped → st_subscribers s !! id = Some l → ∃ c, chans !! l = Some c ∧ ch_closed c = true) →
  ∃ m, unlink_dropped dropped (mkSys s chans) = mkSys (set_subscribers m s) chans ∧
    ∀ id, m !! id = if decide (id ∈ dropped) then None else st_subscribers s !! id.
Proof.
  unfold unlink_dropped. revert s; induction dropped as [|id dropped IH]; intros s Hc.
  { exists (st_subscribers s). split; [by destruct s|]. intros id. by rewrite decide_False by set_solver. }
  cbn [foldl sy_stream sy_chans]. destruct (st_subscribers s !! id) as [l|] eqn:E.
  - destruct (Hc id l) as (c & Hl & Hcl); [left|done|].
    assert (alter close_chan l chans = chans) as ->.
    { apply list_eq. intros k. destruct (decide (k = l)) as [->|Hk].
      - rewrite list_lookup_alter_eq, Hl. simpl. unfold close_chan. destruct c; simpl in *. by subst.
      - by rewrite list_lookup_alter_ne. }
    destruct (IH (set_subscribers (delete id (st_subscribers s)) s)) as (m & Hm & Hlook).
    { intros i l' Hi Hl'. simpl in Hl'. apply lookup_delete_Some in Hl' as [_ Hl']. apply (Hc i); [by right|done]. }
    exists m. split; [done|]. intros i. rewrite Hlook. simpl. destruct (decide (i = id)) as [->|Hne].
    + rewrite lookup_delete_eq. rewrite (decide_True (P := id ∈ id :: dropped)) by left. by destruct (decide _).
    + rewrite lookup_delete_ne by done. by apply decide_cons_ne.
  - destruct (IH s) as (m & Hm & Hlook); [intros i l' Hi; apply Hc; by right|].
    exists m. split; [done|]. intros i. rewrite Hlook.
    destruct (decide (i = id)) as [->|Hne]; [rewrite E; by destruct (decide (id ∈ dropped)), (decide (id ∈ id :: dropped))|].
    by apply decide_cons_ne.
Qed.

(** ** Publishing *)

Definition numbered (evt : Event) (s : stream) : Event :=
  mkEvent (wrap64 (st_nextEventID s + 1)) (ev_Type evt) (ev_Data evt).

(** The state after an event was published to open subscribers. *)
Record published_to (evt : Event) (sys sys' : Sys) : Prop := {
  pt_history : snapshot (sy_stream sys') =
    queue_push (r_cap (st_history (sy_stream sys))) (snapshot (sy_stream sys)) (numbered evt (sy_stream sys));
  pt_next : st_nextEventID (sy_stream sys') = wrap64 (st_nextEventID (sy_stream sys) + 1);
  pt_open : st_closed (sy_stream sys') = false;
  pt_length : length (sy_chans sys') = length (sy_chans sys);
  pt_registered : ∀ l c, registered (sy_stream sys) l → sy_chans sys !! l = Some c →
    sy_chans sys' !! l = Some (deliver (numbered evt (sy_stream sys)) c);
  pt_other : ∀ l, ¬ registered (sy_stream sys) l → sy_chans sys' !! l = sy_chans sys !! l;
  pt_subs : ∀ id l, st_subscribers (sy_stream sys') !! id = Some l ↔
    st_subscribers (sy_stream sys) !! id = Some l ∧ ∃ c, sy_chans sys !! l = Some c ∧ room c = true
}.

Lemma subscribers_locs (m : gmap Z loc) :
  (∀ id id' l, m !! id = Some l → m !! id' = Some l → id = id') → NoDup (map_to_list m).*2.
Proof.
  intros Hinj. apply NoDup_fmap_2_strong; [|apply NoDup_map_to_list].
  intros [i l] [i' l'] Hx%elem_of_map_to_list Hy%elem_of_map_to_list. simpl. intros ->.
  f_equal. by eapply Hinj.
Qed.

Lemma publish_spec evt sys : sys_ok sys → open_ok sys → st_closed (sy_stream sys) = false →
  ∃ sys', publish evt sys = Some (inr (tt, sys')) ∧ published_to evt sys sys'.
Proof.
  destruct sys as [s chans]. intros Hok Hopen Hc. unfold publish. simpl in *. rewrite Hc.
  set (e := mkEvent _ _ _). set (s' := mkStream _ _ _ _ _ _ _ _).
  destruct (send_all_spec e (map_to_list (st_subscribers s)) chans []) as (chans' & Hs & Hlen & Hlook).
  { apply subscribers_locs, (so_inj _ Hok). }
  { intros id l Hin%elem_of_map_to_list. by apply (Hopen id). }
  rewrite Hs. simpl. set (dropped := (filter _ _).*1) in *.
  assert (Hreg : ∀ l, l ∈ (map_to_list (st_subscribers s)).*2 ↔ registered s l).
  { intros l. rewrite list_elem_of_fmap. unfold registered. split.
    - intros ([i l'] & -> & Hi%elem_of_map_to_list). eauto.
    - intros [i Hi]. exists (i, l). split; [done|]. by apply elem_of_map_to_list. }
  assert (Hdrop : ∀ id l, st_subscribers s !! id = Some l →
    id ∈ dropped ↔ ∃ c, chans !! l = Some c ∧ room c = false).
  { intros id l Hi. unfold dropped. rewrite list_elem_of_fmap. split.
    - intros ([i l'] & -> & [Hr Hin]%list_elem_of_filter). simpl in *. apply elem_of_map_to_list in Hin.
      assert (l' = l) as -> by congruence. destruct (chans !! l) as [c|]; [eauto|done].
    - intros (c & Hcl & Hr). exists (id, l). split; [done|]. apply list_elem_of_filter. simpl.
      rewrite Hcl. split; [done|]. by apply elem_of_map_to_list. }
  destruct (unlink_dropped_spec dropped s' chans') as (m & Hm & Hml).
  { intros id l Hin Hi. simpl in Hi. apply (Hdrop id l Hi) in Hin as (c & Hcl & Hr).
    exists (deliver e c). rewrite Hlook, decide_True, Hcl by (apply Hreg; by exists id).
    split; [done|]. unfold deliver. by rewrite Hr. }
  rewrite Hm. eexists. split; [done|]. split; simpl.
  - unfold snapshot. simpl. by apply push_slice, (so_ring _ Hok).
  - done.
  - done.
  - done.
  - intros l c Hl Hcl. rewrite Hlook, decide_True, Hcl by (by apply Hreg). done.
  - intros l Hl. rewrite Hlook, decide_False by (by rewrite Hreg). by rewrite option_fmap_id.
  - intros id l. rewrite Hml. simpl. destruct (st_subscribers s !! id) as [l'|] eqn:Ei.
    + destruct (Hopen id l' Ei) as (c & Hcl & _). specialize (Hdrop id l' Ei).
      destruct (decide (id ∈ dropped)) as [Hd|Hd].
      * apply Hdrop in Hd as (c' & Hc' & Hr). naive_solver congruence.
      * split; [|naive_solver]. intros [= ->]. split; [done|]. exists c. split; [done|].
        destruct (room c) eqn:Er; [done|]. destruct Hd. apply Hdrop. eauto.
    + destruct (decide _); naive_solver.
Qed.

(** ** Subscribing *)

(** The channel a replay of [h] leaves: what fits, closed when not all fits. *)
Definition replayed (h : list Event) (c : Chan) : Chan :=
  mkChan (ch_buf c ++ take (ch_cap c - length (ch_buf c)) h) (ch_got c) (ch_cap c)
    (bool_decide (ch_cap c < length (ch_buf c) + length h)).

(** Whether the stream still knows the subscriber after the replay. *)
Definition overflows (h : list Event) (c : Chan) : bool :=
  bool_decide (ch_cap c < length (ch_buf c) + length h).

Lemma drop_sub_closed id l s chans c :
  st_subscribers s !! id = Some l → (0 ≤ id)%Z → chans !! l = Some c → ch_closed c = true →
  drop_sub id (mkSys s chans) = mkSys (set_subscribers (delete id (st_subscribers s)) s) chans.
Proof.
  intros Hi Hid Hc Hcl. unfold drop_sub, unlink. rewrite bool_decide_eq_false_2 by lia. simpl. rewrite Hi. f_equal.
  apply list_eq. intros k. destruct (decide (k = l)) as [->|Hk].
  - rewrite list_lookup_alter_eq, Hc. simpl. unfold close_chan. destruct c; simpl in *. by subst.
  - by rewrite list_lookup_alter_ne.
Qed.

Lemma replay_spec id l h s chans c :
  chans !! l = Some c → ch_closed c = false → length (ch_buf c) ≤ ch_cap c →
  ((0 ≤ id)%Z → st_subscribers s !! id = Some l) →
  replay id l h (mkSys s chans) = Some (mkSys
    (if bool_decide (0 ≤ id)%Z && overflows h c then set_subscribers (delete id (st_subscribers s)) s else s)
    (<[l := replayed h c]> chans)).
Proof.
  revert chans c; induction h as [|e h IH]; intros chans c Hc Hcl Hle Hid; cbn [replay sy_chans sy_stream].
  - unfold overflows, replayed. simpl. rewrite take_nil, app_nil_r, Nat.add_0_r.
    rewrite (bool_decide_eq_false_2 (ch_cap c < length (ch_buf c))) by lia.
    rewrite andb_false_r. do 2 f_equal. symmetry. apply list_insert_id. rewrite Hc. destruct c; simpl in *. by subst.
  - rewrite Hc, (send_open e c Hcl). unfold deliver, room.
    destruct (decide (length (ch_buf c) < ch_cap c)) as [Hr|Hr].
    + rewrite bool_decide_eq_true_2 by done. cbn [sy_chans sy_stream].
      rewrite (IH _ (mkChan (ch_buf c ++ [e]) (ch_got c) (ch_cap c) false));
        [|by rewrite list_lookup_insert_eq by (by eapply lookup_lt_Some)|done|simpl; rewrite length_app; simpl; lia|done].
      unfold overflows, replayed. cbn [ch_buf ch_got ch_cap]. rewrite list_insert_insert_eq, !length_app. simpl.
      replace (length (ch_buf c) + 1 + length h) with (length (ch_buf c) + S (length h)) by lia.
      do 4 f_equal. rewrite <-app_assoc. f_equal. simpl.
      by replace (ch_cap c - length (ch_buf c)) with (S (ch_cap c - (length (ch_buf c) + 1))) by lia.
    + rewrite bool_decide_eq_false_2 by done. cbn [sy_chans sy_stream].
      assert (Ho : overflows (e :: h) c = true) by (apply bool_decide_eq_true; simpl; lia).
      assert (Hrep : replayed (e :: h) c = close_chan c).
      { unfold replayed, close_chan. f_equal; [|exact Ho].
        replace (ch_cap c - length (ch_buf c)) with 0 by lia. by rewrite app_nil_r. }
      rewrite Ho, Hrep, andb_true_r. f_equal. case_bool_decide as Hz; [|done].
      apply (drop_sub_closed _ l _ _ (close_chan c)); [by apply Hid|done| |done].
      by rewrite list_lookup_insert_eq by (by eapply lookup_lt_Some).
Qed.

(** The stream and the heap after a subscription. *)
Definition subscribed (sinceID : Z) (sys : Sys) : Sys :=
  let s := sy_stream sys in
  let h := after sinceID (st_history s) in
  let c := newSubscriber (Z.to_nat (BufferSize (st_opts s))) in
  let chan := replayed h c in
  if st_closed s then mkSys s (sy_chans sys ++ [close_chan chan])
  else mkSys (mkStream (st_opts s) (st_history s)
                (if overflows h c then delete (st_nextSubID s) (st_subscribers s)
                 else <[st_nextSubID s := length (sy_chans sys)]> (st_subscribers s))
                (st_nextEventID s) (st_nextSubID s + 1) false (st_resumeCount s) (st_resumeAttempt s))
         (sy_chans sys ++ [chan]).

Lemma insert_last {A} (l : list A) (x y : A) : <[length l := y]> (l ++ [x]) = l ++ [y].
Proof. rewrite insert_app_r_alt by done. by rewrite Nat.sub_diag. Qed.

Lemma alter_last {A} (f : A → A) (l : list A) (x : A) : alter f (length l) (l ++ [x]) = l ++ [f x].
Proof. rewrite alter_app_r_alt by done. by rewrite Nat.sub_diag. Qed.

Lemma subscribe_spec since sys : sys_ok sys →
  subscribe since sys = Some (if st_closed (sy_stream sys) then (-1)%Z else st_nextSubID (sy_stream sys),
    length (sy_chans sys), subscribed since sys).
Proof.
  destruct sys as [s chans]. intros Hok. unfold subscribe, subscribe_locked, subscribed. simpl.
  set (h := after since (st_history s)). set (c := newSubscriber _).
  assert (Hl : (chans ++ [c]) !! length chans = Some c) by (by rewrite lookup_app_r, Nat.sub_diag by lia).
  destruct (st_closed s) eqn:Ec.
  - rewrite (replay_spec _ _ _ _ _ c) by (done || simpl; lia). simpl.
    by rewrite insert_last, alter_last.
  - pose proof (so_next _ Hok) as [_ Hn]. simpl in Hn.
    rewrite (replay_spec _ _ _ _ _ c); [|done|done|simpl; lia|intros _; simpl; by rewrite lookup_insert_eq].
    rewrite bool_decide_eq_true_2 by done. simpl. rewrite insert_last. do 2 f_equal.
    destruct (overflows h c); [|done]. unfold set_subscribers. simpl. by rewrite delete_insert_eq.
Qed.

(** ** A call that runs alone is one schedule of its thread *)

Definition alone (a b : Sys * Thread) : Prop := tstep a.1 a.2 b.1 b.2 ∧ numberable a.1 (accepted a.2 b.2).

Lemma alone_ok a b : rtc alone a b → sys_ok a.1 → sys_ok b.1.
Proof. induction 1 as [|a b c [Hab Hn] _ IH]; [done|]. intros Ha. apply IH. by eapply tstep_ok. Qed.

Lemma alone_l sys t sys' t' z :
  tstep sys t sys' t' → accepted t t' = [] → rtc alone (sys', t') z → rtc alone (sys, t) z.
Proof. intros H1 Ha H2. eapply rtc_l with (y := (sys', t')); [split; [done|intros Hne; by destruct Hne]|done]. Qed.

Lemma alone_1 sys t sys' t' : tstep sys t sys' t' → accepted t t' = [] → rtc alone (sys, t) (sys', t').
Proof. intros H1 Ha. eapply alone_l; [done..|apply rtc_refl]. Qed.

Lemma send_all_steps e subs s chans d chans' d' f :
  send_all e subs chans d = Some (chans', d') →
  rtc alone (mkSys s chans, TSend e subs d f) (mkSys s chans', TSend e [] d' f).
Proof.
  revert chans d; induction subs as [|[id l] subs IH]; intros chans d; cbn [send_all].
  { intros [= -> ->]. apply rtc_refl. }
  destruct (chans !! l) as [c|] eqn:Hc; [|done]. destruct (send e c) as [[c' ok]|] eqn:Hs; [|done].
  intros Hr. eapply alone_l; [by eapply step_send|done|by apply IH].
Qed.

Lemma publish_steps evt sys sys' f : countable (sy_stream sys) → publish evt sys = Some (inr (tt, sys')) →
  rtc alone (sys, TPublish evt f) (sys', published f).
Proof.
  destruct sys as [s chans]. intros Hn. unfold publish. simpl. destruct (st_closed s) eqn:Ec; [done|].
  destruct (send_all _ _ _ _) as [[chans' d]|] eqn:Hs; [|done]. simpl. intros [= <-].
  eapply rtc_l with (y := (_, _)); [split; [by eapply step_publish|by intros _]|]. simpl.
  rewrite <-Ec. etrans; [by eapply send_all_steps|]. apply alone_1; [apply step_sent|done].
Qed.

Lemma close_steps s chans ls :
  rtc alone (mkSys s chans, TClose ls) (mkSys s (foldl (λ chans l, alter close_chan l chans) chans ls), TClose []).
Proof.
  revert chans; induction ls as [|l ls IH]; intros chans; [apply rtc_refl|].
  eapply alone_l; [apply step_close|done|]. apply IH.
Qed.

Lemma finish_steps sys : ∃ t, rtc alone (sys, TFinish) (finish sys, t).
Proof.
  destruct sys as [s chans]. unfold finish. simpl. destruct (st_closed s) eqn:Ec.
  - exists TDone. apply alone_1; [by apply step_finish_closed|done].
  - exists (TClose []). eapply alone_l; [by apply step_finish|done|]. apply close_steps.
Qed.

Lemma drop_steps id sys : ∃ t, rtc alone (sys, TDrop id) (drop_sub id sys, t).
Proof.
  destruct sys as [s chans]. unfold drop_sub. simpl. case_bool_decide as Hid.
  - exists TDone. apply alone_1; [by apply step_drop_negative|done].
  - destruct (unlink id s) as [l s'] eqn:E.
    exists (match l with Some _ => TClose [] | None => TDone end).
    eapply alone_l; [eapply step_drop; [lia|done]|done|]. destruct l as [l|]; [|apply rtc_refl].
    apply (close_steps _ _ [l]).
Qed.

Lemma replay_steps id l h closed sys sys' : replay id l h sys = Some sys' → (closed = true → id = (-1)%Z) →
  ∃ t, rtc alone (sys, TReplay id l h closed)
    (if closed then mkSys (sy_stream sys') (alter close_chan l (sy_chans sys')) else sys', t).
Proof.
  revert sys; induction h as [|e h IH]; intros [s chans] Hr Hid; cbn [replay sy_chans sy_stream] in Hr.
  - injection Hr as <-. exists (if closed then TClose [] else TDone). eapply alone_l; [apply step_replayed|done|].
    destruct closed; [apply (close_steps _ _ [l])|apply rtc_refl].
  - destruct (chans !! l) as [c|] eqn:Hc; [|done]. destruct (send e c) as [[c' [|]]|] eqn:Hs; [| |done].
    + destruct (IH _ Hr Hid) as [t Ht]. exists t. eapply alone_l; [by eapply step_replay|done|done].
    + injection Hr as <-. case_bool_decide as Hz.
      * destruct closed; [by rewrite Hid in Hz by done|].
        destruct (drop_steps id (mkSys s (<[l := c']> chans))) as [t Ht]. exists t.
        eapply alone_l; [by eapply step_replay_full|done|]. by rewrite bool_decide_eq_true_2.
      * exists (if closed then TClose [] else TDone). eapply alone_l; [by eapply step_replay_full|done|]. rewrite bool_decide_eq_false_2 by done. simpl.
        destruct closed; [apply (close_steps _ _ [l])|apply rtc_refl].
Qed.

Lemma subscribe_steps since sys id l sys' : subscribe since sys = Some (id, l, sys') →
  ∃ t, rtc alone (sys, TSubscribe since) (sys', t).
Proof.
  unfold subscribe. destruct (subscribe_locked since sys) as [[[sys1 id1] l1] h] eqn:E. intros Hs.
  destruct (replay id1 l1 h sys1) as [sys2|] eqn:Er; [|done]. simpl in Hs.
  destruct (replay_steps _ _ _ (st_closed (sy_stream sys)) _ _ Er) as [t Ht].
  { unfold subscribe_locked in E. intros Hc. rewrite Hc in E. by injection E as <- <- <- <-. }
  exists t. eapply alone_l; [by eapply step_subscribe|done|]. destruct (st_closed (sy_stream sys)); by simplify_eq.
Qed.

(** ** Consecutive ids *)

(** The ids count up to [n]. *)
Definition ends_at (n : Z) (ids : list Z) : Prop :=
  ∀ i x, ids !! i = Some x → (x + Z.of_nat (length ids) = n + 1 + Z.of_nat i)%Z.

Definition consecutive (ids : list Z) : Prop := ∃ n, ends_at n ids.

Lemma ends_at_nil n : ends_at n [].
Proof. done. Qed.

Lemma ends_at_snoc n ids : ends_at n ids → ends_at (n + 1) (ids ++ [(n + 1)%Z]).
Proof.
  intros H i x. rewrite length_app. simpl. intros [Hi|[Hl Hx]]%lookup_app_Some.
  - specialize (H i x Hi). lia.
  - apply list_lookup_singleton_Some in Hx as [Hx ->]. lia.
Qed.

Lemma ends_at_drop n k ids : ends_at n ids → ends_at n (drop k ids).
Proof.
  intros H i x Hi. rewrite lookup_drop in Hi. specialize (H _ _ Hi). rewrite length_drop.
  apply lookup_lt_Some in Hi. lia.
Qed.

Lemma consecutive_take n k ids : ends_at n ids → consecutive (take k ids).
Proof.
  intros H. exists (n - Z.of_nat (length ids - k))%Z. intros i x [Hi Hk]%lookup_take_Some.
  specialize (H _ _ Hi). rewrite length_take. apply lookup_lt_Some in Hi. lia.
Qed.

Lemma filter_sorted since h : StronglySorted Z.lt (ev_ID <$> h) →
  ∃ k, filter (λ e, (since < ev_ID e)%Z) h = drop k h.
Proof.
  induction h as [|e h IH]; intros Hs; [by exists 0|]. simpl in Hs.
  apply StronglySorted_inv in Hs as [Hs Hall]. rewrite filter_cons. destruct (decide (since < ev_ID e)%Z) as [He|He].
  - exists 0. simpl. f_equal. clear IH. rewrite Forall_fmap in Hall.
    induction h as [|e' h IH]; [done|]. apply Forall_cons in Hall as [H1 H2].
    rewrite filter_cons, decide_True by (simpl in *; lia). f_equal. apply IH; [|done].
    simpl in Hs. by apply StronglySorted_inv in Hs as [? _].
  - destruct (IH Hs) as [k Hk]. by exists (S k).
Qed.

Lemma after_drop since r : ring_ok r → StronglySorted Z.lt (ev_ID <$> slice r) →
  ∃ k, after since r = drop k (slice r).
Proof.
  intros Hr Hs. rewrite after_spec by done. case_bool_decide; [by exists 0|]. by apply filter_sorted.
Qed.

(** ** Sequences of calls *)

Inductive Call :=
| CPublish (evt : Event)
| CPublishStatus (evt : Event)
| CSubscribe (sinceID : Z)
| CCancel (id : Z)
| CResume (attempt count : Z)
| CReceive (l : loc).

(** [None] is a panic; a refused call leaves the state alone. *)
Definition run_call (sys : Sys) (call : Call) : option Sys :=
  match call with
  | CPublish evt =>
      r ← publish evt sys; Some (match r with inl _ => sys | inr (_, sys') => sys' end)
  | CPublishStatus evt =>
      r ← publish evt sys; Some (match r with inl _ => sys | inr (_, sys') => finish sys' end)
  | CSubscribe since => '(_, _, sys') ← subscribe since sys; Some sys'
  | CCancel id => Some (drop_sub id sys)
  | CResume attempt count => Some (mkSys (resume attempt count (sy_stream sys)) (sy_chans sys))
  | CReceive l =>
      Some (match sy_chans sys !! l with
            | Some c => match receive c with
                        | Some c' => mkSys (sy_stream sys) (<[l := c']> (sy_chans sys))
                        | None => sys
                        end
            | None => sys
            end)
  end.

Fixpoint run_calls (sys : Sys) (calls : list Call) : option Sys :=
  match calls with
  | [] => Some sys
  | c :: calls' => sys' ← run_call sys c; run_calls sys' calls'
  end.

(** The events a call publishes. *)
Definition call_log (sys : Sys) (call : Call) : list Event :=
  match call with
  | CPublish evt | CPublishStatus evt =>
      if st_closed (sy_stream sys) then [] else [numbered evt (sy_stream sys)]
  | _ => []
  end.

Record calls_inv (sys : Sys) : Prop := {
  ci_ok : sys_ok sys;
  ci_open : open_ok sys;
  ci_history : ends_at (st_nextEventID (sy_stream sys)) (ev_ID <$> snapshot (sy_stream sys));
  ci_registered : ∀ l, registered (sy_stream sys) l →
    ends_at (st_nextEventID (sy_stream sys)) (ids_of (sy_chans sys) l);
  ci_chans : ∀ l, consecutive (ids_of (sy_chans sys) l)
}.

(** A state with the same traffic and no new subscribers. *)
Lemma calls_inv_shrink sys sys' :
  calls_inv sys → sys_ok sys' → open_ok sys' →
  st_nextEventID (sy_stream sys') = st_nextEventID (sy_stream sys) →
  (snapshot (sy_stream sys') = snapshot (sy_stream sys) ∨ snapshot (sy_stream sys') = []) →
  (∀ id l, st_subscribers (sy_stream sys') !! id = Some l → st_subscribers (sy_stream sys) !! id = Some l) →
  (∀ l, ids_of (sy_chans sys') l = ids_of (sy_chans sys) l) → calls_inv sys'.
Proof.
  intros [Hok Ho Hh Hr Hc] Hok' Ho' Hn Hs Hsub Hids. split; [done|done|..]; rewrite ?Hn.
  - destruct Hs as [-> | ->]; [done|apply ends_at_nil].
  - intros l [id Hl]. rewrite Hids. apply Hr. exists id. by apply Hsub.
  - intros l. rewrite Hids. apply Hc.
Qed.

Lemma deliver_ids e c : ev_ID <$> (ch_got (deliver e c) ++ ch_buf (deliver e c)) =
  (ev_ID <$> (ch_got c ++ ch_buf c)) ++ (if room c then [ev_ID e] else []).
Proof.
  unfold deliver. destruct (room c); simpl; rewrite ?app_nil_r; [|done].
  by rewrite app_assoc, (fmap_app _ _ [e]).
Qed.

Lemma publish_calls evt sys sys' :
  calls_inv sys → countable (sy_stream sys) → publish evt sys = Some (inr (tt, sys')) → calls_inv sys'.
Proof.
  intros [Hok Ho Hh Hr Hc] Hnum Hp.
  assert (Hcl : st_closed (sy_stream sys) = false).
  { unfold publish in Hp. by destruct (st_closed (sy_stream sys)). }
  destruct (publish_spec evt sys Hok Ho Hcl) as (sys2 & Hp2 & Hto). rewrite Hp in Hp2. injection Hp2 as <-.
  pose proof (alone_ok _ _ (publish_steps evt sys sys' false Hnum Hp) Hok) as Hok'. simpl in Hok'.
  destruct Hto as [Hhist Hn _ Hlen Hreg Hoth Hsubs]. unfold numbered in Hhist, Hreg.
  rewrite next_in in Hhist, Hn, Hreg by (done || apply (so_next _ Hok)).
  assert (Hids : ∀ l, ∃ c, registered (sy_stream sys) l → sy_chans sys !! l = Some c ∧ ch_closed c = false ∧
    ids_of (sy_chans sys') l = ids_of (sy_chans sys) l ++ (if room c then [st_nextEventID (sy_stream sys) + 1]%Z else [])).
  { intros l. destruct (sy_chans sys !! l) as [c|] eqn:E; [|exists (newSubscriber 0); intros [id Hid];
      destruct (Ho id l Hid) as (? & ? & _); congruence].
    exists c. intros Hl. pose proof Hl as [id Hid]. destruct (Ho id l Hid) as (c' & Hc' & Hcl').
    rewrite E in Hc'. injection Hc' as <-. split_and!; [done|done|].
    unfold ids_of. rewrite (Hreg l c Hl E), E, deliver_ids. done. }
  assert (Hkeep : ∀ l, ¬ registered (sy_stream sys) l → ids_of (sy_chans sys') l = ids_of (sy_chans sys) l)
    by (intros l Hl; unfold ids_of; by rewrite Hoth).
  split; [done|..].
  - intros id l Hl. apply Hsubs in Hl as (Hid & c & Hcc & Hroom). eexists (deliver _ c).
    split; [apply Hreg; [by exists id|done]|]. unfold deliver. by rewrite Hroom.
  - rewrite Hn, Hhist, queue_push_fmap. by apply ends_at_drop, ends_at_snoc.
  - intros l [id Hl]. apply Hsubs in Hl as (Hid & c & Hcc & Hroom).
    destruct (Hids l) as (c' & Hx). destruct Hx as (Hc' & _ & ->); [by exists id|].
    rewrite Hcc in Hc'. injection Hc' as <-. rewrite Hroom, Hn. apply ends_at_snoc, Hr. by exists id.
  - intros l. destruct (decide (registered (sy_stream sys) l)) as [Hl|Hl]; [|rewrite Hkeep by done; apply Hc].
    destruct (Hids l) as (c' & Hx). destruct (Hx Hl) as (_ & _ & ->). destruct (room c').
    + eexists. by apply ends_at_snoc, Hr.
    + rewrite app_nil_r. apply Hc.
Qed.

Lemma ids_close_all ls chans l : ids_of (foldl (λ chans l, alter close_chan l chans) chans ls) l = ids_of chans l.
Proof. revert chans; induction ls as [|l' ls IH]; intros chans; simpl; [done|]. by rewrite IH, ids_close. Qed.

Lemma finish_calls sys : calls_inv sys → calls_inv (finish sys).
Proof.
  intros Hi. destruct (finish_steps sys) as [t Ht].
  pose proof (alone_ok _ _ Ht (ci_ok _ Hi)) as Hok. simpl in Hok. destruct sys as [s chans].
  unfold finish in *. simpl in *. destruct (st_closed s); [done|].
  apply (calls_inv_shrink _ _ Hi); simpl; [done|by intros id l|done|by left|by intros id l|].
  intros l. apply ids_close_all.
Qed.

Lemma drop_calls id sys : calls_inv sys → calls_inv (drop_sub id sys).
Proof.
  intros Hi. destruct (drop_steps id sys) as [t Ht].
  pose proof (alone_ok _ _ Ht (ci_ok _ Hi)) as Hok. simpl in Hok. destruct sys as [s chans].
  unfold drop_sub, unlink in *. simpl in *. case_bool_decide; [done|].
  destruct (st_subscribers s !! id) as [l0|] eqn:E; [|done].
  apply (calls_inv_shrink _ _ Hi); simpl; [done| |done|by left|by intros i l [_ ?]%lookup_delete_Some|].
  - intros i l Hl. simpl in Hl. apply lookup_delete_Some in Hl as [Hne Hl]. simpl.
    destruct (ci_open _ Hi i l Hl) as (c & Hc & Hcl). exists c. split; [|done].
    rewrite list_lookup_alter_ne; [done|]. intros ->. apply Hne. by eapply (so_inj _ (ci_ok _ Hi)).
  - intros l. apply ids_close.
Qed.

Lemma resume_calls attempt count sys :
  calls_inv sys → calls_inv (mkSys (resume attempt count (sy_stream sys)) (sy_chans sys)).
Proof.
  intros Hi. destruct sys as [s chans]. pose proof (resume_ok attempt count s chans (ci_ok _ Hi)) as Hok. simpl.
  unfold resume in *. destruct (_ || _); [done|].
  apply (calls_inv_shrink _ _ Hi); simpl; [done|apply (ci_open _ Hi)|done| |done|done].
  right. unfold snapshot. simpl. apply newRing_ok.
Qed.

Lemma receive_calls l c c' sys : calls_inv sys → sy_chans sys !! l = Some c → receive c = Some c' →
  calls_inv (mkSys (sy_stream sys) (<[l := c']> (sy_chans sys))).
Proof.
  intros Hi Hc Hr. destruct sys as [s chans]. simpl in *.
  assert (Hc' : ch_closed c' = ch_closed c ∧ ch_got c' ++ ch_buf c' = ch_got c ++ ch_buf c ∧
    length (ch_buf c') ≤ length (ch_buf c) ∧ ch_cap c' = ch_cap c).
  { unfold receive in Hr. destruct (ch_buf c); [done|]. injection Hr as <-. simpl. rewrite <-app_assoc. split_and!; auto. }
  destruct Hc' as (Hcl & Hids & Hlen & Hcap).
  apply (calls_inv_shrink _ _ Hi); simpl; [| |done|by left|done|].
  - eapply sys_ok_chans; [apply (ci_ok _ Hi)|by rewrite length_insert|].
    pose proof (so_buf _ (ci_ok _ Hi)) as Hb. simpl in Hb. apply Forall_insert; [done|].
    rewrite Forall_lookup in Hb. specialize (Hb l c Hc). simpl in Hb. lia.
  - intros id l' Hl'. simpl in *. destruct (ci_open _ Hi id l' Hl') as (c0 & Hc0 & Hcl0). simpl in Hc0.
    destruct (decide (l = l')) as [<-|Hne].
    + exists c'. rewrite list_lookup_insert_eq by (by eapply lookup_lt_Some). split; [done|]. congruence.
    + exists c0. by rewrite list_lookup_insert_ne.
  - intros l'. rewrite ids_insert by (by eapply lookup_lt_Some). destruct (decide (l = l')) as [<-|]; [|done].
    unfold ids_of. by rewrite Hc, Hids.
Qed.

Lemma ids_snoc chans c l : ids_of (chans ++ [c]) l =
  if decide (l = length chans) then ev_ID <$> (ch_got c ++ ch_buf c) else ids_of chans l.
Proof.
  unfold ids_of. destruct (decide (l = length chans)) as [->|Hne].
  - by rewrite lookup_app_r, Nat.sub_diag by done.
  - destruct (decide (l < length chans)); [by rewrite lookup_app_l|].
    rewrite lookup_app_r, (lookup_ge_None_2 chans) by lia.
    by destruct (l - length chans) as [|[|k]] eqn:E; [lia| |].
Qed.

Lemma subscribe_calls since sys : calls_inv sys → calls_inv (subscribed since sys).
Proof.
  intros Hi. pose proof (subscribe_spec since sys (ci_ok _ Hi)) as Hs.
  destruct (subscribe_steps _ _ _ _ _ Hs) as [t Ht].
  pose proof (alone_ok _ _ Ht (ci_ok _ Hi)) as Hok. simpl in Hok. clear Ht Hs.
  destruct sys as [s chans]. destruct Hi as [Hok0 Ho Hh Hr Hc]. unfold subscribed in *. simpl in *.
  destruct (after_drop since (st_history s) (so_ring _ Hok0) (so_sorted _ Hok0)) as [k Hk].
  set (h := after since (st_history s)) in *. set (c := newSubscriber _) in *.
  assert (Hnew : ends_at (st_nextEventID s) (ev_ID <$> h)).
  { rewrite Hk, fmap_drop. by apply ends_at_drop. }
  assert (Hrep : consecutive (ev_ID <$> (ch_got (replayed h c) ++ ch_buf (replayed h c)))).
  { simpl. rewrite fmap_take. by eapply consecutive_take. }
  assert (Hfit : overflows h c = false → ev_ID <$> (ch_got (replayed h c) ++ ch_buf (replayed h c)) = ev_ID <$> h).
  { unfold overflows. simpl. rewrite bool_decide_eq_false. intros Hle. f_equal. apply take_ge. lia. }
  assert (Hsubl : ∀ id l, st_subscribers s !! id = Some l → l ≠ length chans).
  { intros id l Hl ->. apply (so_sub _ Hok0) in Hl as [_ Hl]. simpl in Hl. lia. }
  destruct (st_closed s) eqn:Ec.
  - pose proof (so_closed _ Hok0 Ec) as He. simpl in He.
    split; simpl; [done|by intros id l; simpl; rewrite He|done|intros l [id Hl]; by rewrite He in Hl|].
    intros l. rewrite ids_snoc. destruct (decide _); [|apply Hc]. exact Hrep.
  - split; simpl; [done| |done| |].
    + intros id l Hl. simpl in *. destruct (overflows h c) eqn:Eo.
      * apply lookup_delete_Some in Hl as [_ Hl]. destruct (Ho id l Hl) as (c0 & Hc0 & Hcl). simpl in Hc0. exists c0.
        split; [|done]. rewrite lookup_app_l; [done|]. by eapply lookup_lt_Some.
      * apply lookup_insert_Some in Hl as [[<- <-]|[_ Hl]].
        { exists (replayed h c). rewrite lookup_app_r, Nat.sub_diag by done. split; [done|exact Eo]. }
        destruct (Ho id l Hl) as (c0 & Hc0 & Hcl). simpl in Hc0. exists c0.
        split; [|done]. rewrite lookup_app_l; [done|]. by eapply lookup_lt_Some.
    + intros l [id Hl]. simpl in Hl. rewrite ids_snoc. destruct (overflows h c) eqn:Eo.
      * apply lookup_delete_Some in Hl as [_ Hl]. rewrite decide_False by (by eapply Hsubl). apply Hr. by exists id.
      * apply lookup_insert_Some in Hl as [[<- <-]|[_ Hl]].
        { rewrite decide_True by done. by rewrite Hfit. }
        rewrite decide_False by (by eapply Hsubl). apply Hr. by exists id.
    + intros l. rewrite ids_snoc. destruct (decide _); [exact Hrep|apply Hc].
Qed.

(** No sequence of calls panics, and the invariant holds throughout. *)
Lemma run_call_inv sys call : calls_inv sys → numberable sys (call_log sys call) → ∃ sys', run_call sys call = Some sys' ∧ calls_inv sys'.
Proof.
  intros Hi Hnum. destruct call as [evt|evt|since|id|attempt count|l]; cbn [run_call call_log] in *.
  1,2: destruct (st_closed (sy_stream sys)) eqn:Ec.
  1,3: exists sys; split; [|done]; unfold publish; by rewrite Ec.
  1,2: destruct (publish_spec evt sys (ci_ok _ Hi) (ci_open _ Hi) Ec) as (sys' & Hp & _); rewrite Hp; simpl;
    pose proof (publish_calls evt sys sys' Hi (Hnum ltac:(done)) Hp) as Hi'.
  - by exists sys'.
  - exists (finish sys'). split; [done|]. by apply finish_calls.
  - rewrite (subscribe_spec since sys (ci_ok _ Hi)). eexists. split; [done|]. by apply subscribe_calls.
  - eexists. split; [done|]. by apply drop_calls.
  - eexists. split; [done|]. by apply resume_calls.
  - eexists. split; [done|]. destruct (sy_chans sys !! l) as [c|] eqn:Ec; [|done].
    destruct (receive c) as [c'|] eqn:Er; [|done]. by eapply receive_calls.
Qed.

Lemma newStream_calls opts : calls_inv (mkSys (newStream opts) []).
Proof.
  split; [apply newStream_ok|by intros id l|..].
  - change (ends_at 0 (ev_ID <$> slice (newRing (HistorySize opts)))).
    rewrite (proj2 (newRing_ok _)). apply ends_at_nil.
  - by intros l [id Hl].
  - intros l. exists 0%Z. apply ends_at_nil.
Qed.

Lemma finish_next sys : st_nextEventID (sy_stream (finish sys)) = st_nextEventID (sy_stream sys).
Proof. unfold finish. by destruct (st_closed _). Qed.

(** A call uses at most one id. *)
Lemma run_call_next sys call sys' : calls_inv sys → countable (sy_stream sys) → run_call sys call = Some sys' →
  (st_nextEventID (sy_stream sys') ≤ st_nextEventID (sy_stream sys) + 1)%Z.
Proof.
  intros Hi Hn. destruct call as [evt|evt|since|id|attempt count|l]; cbn [run_call].
  1,2: destruct (st_closed (sy_stream sys)) eqn:Ec;
    [unfold publish; rewrite Ec; intros [= <-]; lia|
     destruct (publish_spec evt sys (ci_ok _ Hi) (ci_open _ Hi) Ec) as (sys1 & -> & Hto); intros [= <-];
     pose proof (pt_next _ _ _ Hto) as Hx; rewrite next_in in Hx by (done || apply (so_next _ (ci_ok _ Hi)));
     rewrite ?finish_next; lia].
  - rewrite (subscribe_spec since sys (ci_ok _ Hi)). intros [= <-]. unfold subscribed. destruct (st_closed _); simpl; lia.
  - intros [= <-]. unfold drop_sub, unlink. case_bool_decide; [lia|]. destruct (_ !! id); simpl; lia.
  - intros [= <-]. unfold resume. simpl. destruct (_ || _); simpl; lia.
  - intros [= <-]. repeat case_match; simpl; lia.
Qed.

Lemma run_calls_inv calls sys :
  calls_inv sys → (st_nextEventID (sy_stream sys) + Z.of_nat (length calls) < 2 ^ 63)%Z →
  ∃ sys', run_calls sys calls = Some sys' ∧ calls_inv sys'.
Proof.
  revert sys; induction calls as [|c calls IH]; intros sys Hi Hn; [by exists sys|]. cbn [length] in Hn.
  assert (Hc : countable (sy_stream sys)) by (unfold countable; lia).
  destruct (run_call_inv sys c Hi (λ _, Hc)) as (sys1 & E & Hi1).
  pose proof (run_call_next sys c sys1 Hi Hc E). destruct (IH _ Hi1) as (sys2 & E2 & Hi2); [lia|].
  exists sys2. cbn [run_calls]. rewrite E. done.
Qed.
