(* ===== verification/StreamClient.v ===== *)
(** * A client that reconnects, against the server's stream

    The server's side of a connection is a subscription whose events are written as
    frames; the client's side reads frames, remembers the last identifier, and sends
    it with its next connection. Connections may break at any byte, and between and
    during them the server serves any other calls. *)

From stdpp Require Import base gmap sets list sorting relations strings.
From S2P Require Import Prelude GoStrings Types Ring Stream Sse SseClient StreamSafety StreamCalls.
From Stdlib Require Import ZArith Lia.
Local Open Scope list_scope.

(** ** What a call does to one channel *)

Definition next_id (sys : Sys) : Z := st_nextEventID (sy_stream sys).

(** What a channel has been given so far. *)
Definition chan_events (sys : Sys) (l : loc) : list Event :=
  match sy_chans sys !! l with Some c => ch_got c ++ ch_buf c | None => [] end.

Lemma chan_events_ids sys l : ev_ID <$> chan_events sys l = ids_of (sy_chans sys) l.
Proof. unfold chan_events, ids_of. by destruct (sy_chans sys !! l). Qed.

(** A channel stays as it is, or is given the event just published; only in the
    latter case does its subscription survive a publication. *)
Record channel_step (l : loc) (log : list Event) (sys sys' : Sys) : Prop := {
  cs_length : length (sy_chans sys) ≤ length (sy_chans sys');
  cs_next : next_id sys' = (next_id sys + Z.of_nat (length log))%Z;
  cs_registered : registered (sy_stream sys') l → registered (sy_stream sys) l;
  cs_events : (chan_events sys' l = chan_events sys l ∧ (registered (sy_stream sys') l → log = [])) ∨
              (registered (sy_stream sys) l ∧ log ≠ [] ∧ chan_events sys' l = chan_events sys l ++ log);
  cs_history : ∀ e, e ∈ snapshot (sy_stream sys') → e ∈ snapshot (sy_stream sys) ∨ e ∈ log
}.

Lemma channel_step_same l sys sys' :
  length (sy_chans sys) ≤ length (sy_chans sys') → next_id sys' = next_id sys →
  (registered (sy_stream sys') l → registered (sy_stream sys) l) → chan_events sys' l = chan_events sys l →
  (∀ e, e ∈ snapshot (sy_stream sys') → e ∈ snapshot (sy_stream sys)) → channel_step l [] sys sys'.
Proof. intros H1 H2 H3 H4 H5. split; [done|simpl; lia|done|left; auto|auto]. Qed.

Lemma channel_step_then l log sys sys1 sys2 :
  channel_step l log sys sys1 → channel_step l [] sys1 sys2 → channel_step l log sys sys2.
Proof.
  intros [H1 H2 H3 H4 H5] [G1 G2 G3 G4 G5]. simpl in G2. split; [lia|lia|auto| |].
  - destruct G4 as [[-> _]|(_ & ? & _)]; [|done]. destruct H4 as [[? ?]|(? & ? & ?)]; [left|right]; auto.
  - intros e He. apply G5 in He as [He|He]; [auto|by apply elem_of_nil in He].
Qed.

Lemma elem_drop {A} k (l : list A) x : x ∈ drop k l → x ∈ l.
Proof. intros Hx. rewrite <-(take_drop k l), elem_of_app. by right. Qed.

Lemma elem_take {A} k (l : list A) x : x ∈ take k l → x ∈ l.
Proof. intros Hx. rewrite <-(take_drop k l), elem_of_app. by left. Qed.

Lemma publish_channel evt sys sys' l :
  published_to evt sys sys' → calls_inv sys → countable (sy_stream sys) →
  channel_step l [numbered evt (sy_stream sys)] sys sys'.
Proof.
  intros [Hh Hn _ Hlen Hreg Hoth Hsubs] [Hok Ho _ _ _] Hnum. rewrite next_in in Hn by (done || apply (so_next _ Hok)).
  assert (Hr : registered (sy_stream sys') l →
    registered (sy_stream sys) l ∧ ∃ c, sy_chans sys !! l = Some c ∧ room c = true).
  { intros [id Hid]. apply Hsubs in Hid as [Hid Hc]. split; [by exists id|done]. }
  split; [lia|done|intros H; by apply Hr| |].
  - destruct (decide (registered (sy_stream sys) l)) as [Hl|Hl].
    + pose proof Hl as [id Hid]. destruct (Ho id l Hid) as (c & Hc & _). pose proof (Hreg l c Hl Hc) as Hc'.
      unfold chan_events. rewrite Hc', Hc. unfold deliver. destruct (room c) eqn:Er; simpl.
      * right. split_and!; [done|done|]. by rewrite app_assoc.
      * left. split; [done|]. intros (_ & c0 & Hc0 & Hroom)%Hr. congruence.
    + left. unfold chan_events. rewrite Hoth by done. split; [done|]. by intros [? _]%Hr.
  - intros e. rewrite Hh. intros He%elem_drop. apply elem_of_app in He as [He|He]; [by left|by right].
Qed.

Lemma close_events s s' chans l0 l :
  chan_events (mkSys s' (alter close_chan l0 chans)) l = chan_events (mkSys s chans) l.
Proof.
  unfold chan_events. simpl. destruct (decide (l0 = l)) as [->|Hne]; [|by rewrite list_lookup_alter_ne].
  rewrite list_lookup_alter_eq. by destruct (chans !! l).
Qed.

Lemma close_all_events s s' chans ls l :
  chan_events (mkSys s' (foldl (λ chans l, alter close_chan l chans) chans ls)) l = chan_events (mkSys s chans) l.
Proof.
  revert chans. induction ls as [|l0 ls IH]; intros chans; [done|]. cbn [foldl]. rewrite IH. apply close_events.
Qed.

Lemma length_close_all chans ls : length (foldl (λ chans l, alter close_chan l chans) chans ls) = length chans.
Proof. revert chans. induction ls as [|l ls IH]; intros chans; [done|]. cbn [foldl]. by rewrite IH, length_alter. Qed.

Lemma finish_channel sys l : channel_step l [] sys (finish sys).
Proof.
  destruct sys as [s chans]. unfold finish. simpl. destruct (st_closed s); [by apply channel_step_same|].
  apply channel_step_same; simpl; [by rewrite length_close_all|done|by intros [id Hid]|apply close_all_events|done].
Qed.

Lemma drop_channel id sys l : channel_step l [] sys (drop_sub id sys).
Proof.
  destruct sys as [s chans]. unfold drop_sub, unlink. simpl. case_bool_decide; [by apply channel_step_same|].
  destruct (st_subscribers s !! id) as [l0|]; [|by apply channel_step_same].
  apply channel_step_same; simpl; [by rewrite length_alter|done| |apply close_events|done].
  intros [i Hi]. simpl in Hi. apply lookup_delete_Some in Hi as [_ Hi]. by exists i.
Qed.

Lemma resume_channel attempt count sys l :
  channel_step l [] sys (mkSys (resume attempt count (sy_stream sys)) (sy_chans sys)).
Proof.
  destruct sys as [s chans]. unfold resume. simpl. destruct (_ || _); [by apply channel_step_same|].
  apply channel_step_same; simpl; try done. intros e. unfold snapshot. simpl.
  rewrite (proj2 (newRing_ok _)). by intros ?%elem_of_nil.
Qed.

Lemma subscribe_channel since sys l :
  sys_ok sys → l < length (sy_chans sys) → channel_step l [] sys (subscribed since sys).
Proof.
  intros Hok Hl. destruct sys as [s chans]. unfold subscribed. simpl in *.
  assert (Hev : ∀ s' c, chan_events (mkSys s' (chans ++ [c])) l = chan_events (mkSys s chans) l).
  { intros s' c. unfold chan_events. simpl. by rewrite lookup_app_l. }
  destruct (st_closed s).
  - apply channel_step_same; simpl; [rewrite length_app; lia|done|done|apply Hev|done].
  - apply channel_step_same; simpl; [rewrite length_app; lia|done| |apply Hev|done].
    intros [id Hid]. simpl in Hid. destruct (overflows _ _).
    + apply lookup_delete_Some in Hid as [_ Hid]. by exists id.
    + apply lookup_insert_Some in Hid as [[_ <-]|[_ Hid]]; [lia|by exists id].
Qed.

Lemma receive_channel sys l0 c c' l :
  sy_chans sys !! l0 = Some c → receive c = Some c' →
  channel_step l [] sys (mkSys (sy_stream sys) (<[l0 := c']> (sy_chans sys))).
Proof.
  intros Hc Hr. apply channel_step_same; simpl; [by rewrite length_insert|done|done| |done].
  unfold chan_events. simpl. destruct (decide (l0 = l)) as [->|Hne]; [|by rewrite list_lookup_insert_ne].
  rewrite list_lookup_insert_eq by (by eapply lookup_lt_Some). rewrite Hc. unfold receive in Hr.
  destruct (ch_buf c); [done|]. injection Hr as <-. simpl. by rewrite <-app_assoc.
Qed.

Lemma call_channel sys call sys' l :
  calls_inv sys → numberable sys (call_log sys call) → run_call sys call = Some sys' →
  l < length (sy_chans sys) ∨ (∀ since, call ≠ CSubscribe since) →
  channel_step l (call_log sys call) sys sys'.
Proof.
  intros Hi Hnum E Hl. assert (Hpub : ∀ evt, countable (sy_stream sys) → st_closed (sy_stream sys) = false →
    ∃ sys1, publish evt sys = Some (inr (tt, sys1)) ∧ channel_step l [numbered evt (sy_stream sys)] sys sys1).
  { intros evt Hcount Hc. destruct (publish_spec evt sys (ci_ok _ Hi) (ci_open _ Hi) Hc) as (sys1 & Ep & Hto).
    exists sys1. split; [done|]. by apply publish_channel. }
  assert (Hcl : ∀ evt, st_closed (sy_stream sys) = true → publish evt sys = Some (inl ErrStreamClosed)).
  { intros evt Hc. unfold publish. by rewrite Hc. }
  destruct call as [evt|evt|since|id|attempt count|l0]; cbn [run_call call_log] in *.
  1,2: destruct (st_closed (sy_stream sys)) eqn:Ec;
    [rewrite (Hcl evt eq_refl) in E; injection E as <-; by apply channel_step_same|
     destruct (Hpub evt (Hnum ltac:(done)) eq_refl) as (sys1 & Ep & Hs); rewrite Ep in E; injection E as <-].
  - done.
  - eapply channel_step_then; [exact Hs|apply finish_channel].
  - rewrite (subscribe_spec since sys (ci_ok _ Hi)) in E. injection E as <-.
    apply subscribe_channel; [apply Hi|]. destruct Hl as [?|Hl]; [done|by destruct (Hl since)].
  - injection E as <-. apply drop_channel.
  - injection E as <-. apply resume_channel.
  - injection E as <-. destruct (sy_chans sys !! l0) as [c|] eqn:Ec; [|by apply channel_step_same].
    destruct (receive c) as [c'|] eqn:Er; [by eapply receive_channel|by apply channel_step_same].
Qed.

(** ** The log of everything published *)

Record log_inv (sys : Sys) (log : list Event) : Prop := {
  li_next : next_id sys = Z.of_nat (length log);
  li_ids : ∀ i e, log !! i = Some e → ev_ID e = (Z.of_nat i + 1)%Z;
  li_history : ∀ e, e ∈ snapshot (sy_stream sys) → e ∈ log;
  li_chans : ∀ l e, e ∈ chan_events sys l → e ∈ log
}.

(** An event of the log is found by its identifier. *)
Lemma log_lookup sys log e :
  log_inv sys log → e ∈ log → (0 < ev_ID e)%Z ∧ log !! Z.to_nat (ev_ID e - 1) = Some e.
Proof.
  intros Hl (i & Hi)%list_elem_of_lookup. rewrite (li_ids _ _ Hl _ _ Hi). split; [lia|].
  by replace (Z.to_nat (Z.of_nat i + 1 - 1)) with i by lia.
Qed.

Lemma chan_events_none sys l : length (sy_chans sys) ≤ l → chan_events sys l = [].
Proof. intros Hl. unfold chan_events. by rewrite lookup_ge_None_2. Qed.

Lemma replay_events since sys e :
  sys_ok sys → e ∈ chan_events (subscribed since sys) (length (sy_chans sys)) →
  e ∈ after since (st_history (sy_stream sys)).
Proof.
  intros Hok. destruct sys as [s chans]. unfold chan_events, subscribed. simpl.
  destruct (st_closed s); simpl; rewrite lookup_app_r, Nat.sub_diag by done; simpl;
    apply elem_take.
Qed.

Lemma new_channel_events sys call sys' l e :
  calls_inv sys → run_call sys call = Some sys' → length (sy_chans sys) ≤ l → e ∈ chan_events sys' l →
  e ∈ snapshot (sy_stream sys).
Proof.
  intros Hi E Hl He.
  assert (Hnone : length (sy_chans sys') = length (sy_chans sys) → e ∈ snapshot (sy_stream sys)).
  { intros Hlen. rewrite chan_events_none in He by lia. by apply elem_of_nil in He. }
  destruct call as [evt|evt|since|id|attempt count|l0]; cbn [run_call] in E.
  1,2: destruct (st_closed (sy_stream sys)) eqn:Ec;
    [unfold publish in E; rewrite Ec in E; injection E as <-; by apply Hnone|
     destruct (publish_spec evt sys (ci_ok _ Hi) (ci_open _ Hi) Ec) as (sys1 & Ep & Hto); rewrite Ep in E;
     injection E as <-; pose proof (pt_length _ _ _ Hto) as Hlen].
  - by apply Hnone.
  - apply Hnone. rewrite <-Hlen. unfold finish.
    destruct (st_closed (sy_stream sys1)); [done|]. simpl. apply length_close_all.
  - rewrite (subscribe_spec since sys (ci_ok _ Hi)) in E. injection E as <-.
    destruct (decide (l = length (sy_chans sys))) as [->|Hne].
    + apply replay_events in He; [|apply Hi]. destruct (after_drop since (st_history (sy_stream sys))) as [k Hk];
        [apply (so_ring _ (ci_ok _ Hi))|apply (so_sorted _ (ci_ok _ Hi))|]. rewrite Hk in He. by apply elem_drop in He.
    + rewrite chan_events_none in He; [by apply elem_of_nil in He|]. unfold subscribed.
      destruct (st_closed _); simpl; rewrite length_app; simpl; lia.
  - injection E as <-. apply Hnone. unfold drop_sub, unlink. case_bool_decide; [done|].
    destruct (st_subscribers _ !! id); simpl; [by rewrite length_alter|done].
  - injection E as <-. by apply Hnone.
  - injection E as <-. apply Hnone. repeat case_match; simpl; by rewrite ?length_insert.
Qed.

Lemma call_log_step sys call sys' :
  calls_inv sys → numberable sys (call_log sys call) → run_call sys call = Some sys' →
  length (sy_chans sys) ≤ length (sy_chans sys') ∧
  next_id sys' = (next_id sys + Z.of_nat (length (call_log sys call)))%Z ∧
  ∀ e, e ∈ snapshot (sy_stream sys') → e ∈ snapshot (sy_stream sys) ∨ e ∈ call_log sys call.
Proof.
  intros Hi Hnum E. assert (Hns : (∀ since, call ≠ CSubscribe since) ∨ ∃ since, call = CSubscribe since)
    by (destruct call; naive_solver).
  destruct Hns as [Hns|[since ->]].
  { destruct (call_channel _ _ _ 0 Hi Hnum E (or_intror Hns)). auto. }
  cbn [run_call] in E. rewrite (subscribe_spec since sys (ci_ok _ Hi)) in E. injection E as <-.
  unfold next_id, subscribed. destruct (st_closed (sy_stream sys)); simpl; rewrite length_app; split_and!; auto; lia.
Qed.

Lemma call_log_ids sys call e :
  calls_inv sys → numberable sys (call_log sys call) → e ∈ call_log sys call →
  call_log sys call = [e] ∧ ev_ID e = (next_id sys + 1)%Z.
Proof.
  intros Hi. unfold call_log. destruct call as [evt|evt| | | |]; try by intros _ ?%elem_of_nil.
  all: destruct (st_closed _); [by intros _ ?%elem_of_nil|]; intros Hnum ->%list_elem_of_singleton; split; [done|].
  all: apply next_in; [apply (so_next _ (ci_ok _ Hi))|by apply Hnum].
Qed.

(** A log that fits the counter leaves room for what it is about to take. *)
Lemma log_room sys log new :
  log_inv sys log → (Z.of_nat (length (log ++ new)) < 2 ^ 63)%Z → numberable sys new.
Proof.
  intros Hl Hlen Hne. unfold countable. fold (next_id sys). rewrite (li_next _ _ Hl).
  rewrite length_app in Hlen. destruct new; [done|]. simpl in Hlen. lia.
Qed.

Lemma log_call sys call sys' log :
  calls_inv sys → log_inv sys log → (Z.of_nat (length (log ++ call_log sys call)) < 2 ^ 63)%Z →
  run_call sys call = Some sys' → log_inv sys' (log ++ call_log sys call).
Proof.
  intros Hi Hlog Hfit E. pose proof (log_room _ _ _ Hlog Hfit) as Hnum. destruct Hlog as [L1 L2 L3 L4].
  destruct (call_log_step _ _ _ Hi Hnum E) as (Hlen & Hn & Hh). split.
  - rewrite Hn, L1, length_app. lia.
  - intros i e [Hi'|[Hge Hi']]%lookup_app_Some; [by apply L2|].
    destruct (call_log_ids sys call e Hi Hnum) as [Hc He]; [by eapply list_elem_of_lookup_2|]. rewrite Hc in Hi'.
    apply list_lookup_singleton_Some in Hi' as [Hz _]. rewrite He, L1. lia.
  - intros e He. rewrite elem_of_app. apply Hh in He as [He|He]; auto.
  - intros l e He. rewrite elem_of_app. destruct (decide (l < length (sy_chans sys))) as [Hl|Hl].
    + destruct (cs_events _ _ _ _ (call_channel _ _ _ l Hi Hnum E (or_introl Hl))) as [[Ev _]|(_ & _ & Ev)]; rewrite Ev in He;
        [left; by eapply L4|]. apply elem_of_app in He as [He|He]; [left; by eapply L4|by right].
    + left. apply L3. eapply new_channel_events; [done..| |done]. lia.
Qed.

(** Calls in a row, with what they publish. *)
Fixpoint run_logged (sys : Sys) (calls : list Call) : option (Sys * list Event) :=
  match calls with
  | [] => Some (sys, [])
  | c :: rest =>
      sys' ← run_call sys c; '(sys'', log) ← run_logged sys' rest; Some (sys'', call_log sys c ++ log)
  end.

Lemma run_logged_inv calls sys sys' new log :
  calls_inv sys → log_inv sys log → (Z.of_nat (length (log ++ new)) < 2 ^ 63)%Z →
  run_logged sys calls = Some (sys', new) → calls_inv sys' ∧ log_inv sys' (log ++ new).
Proof.
  revert sys log new. induction calls as [|c calls IH]; intros sys log new Hi Hl Hfit; cbn [run_logged].
  { intros [= <- <-]. by rewrite app_nil_r. }
  destruct (run_call sys c) as [sys1|] eqn:E; [|done]. simpl.
  destruct (run_logged sys1 calls) as [[sys2 new2]|] eqn:E2; [|done]. intros [= <- <-].
  rewrite app_assoc in Hfit |- *. rewrite length_app in Hfit.
  assert (Hfit1 : (Z.of_nat (length (log ++ call_log sys c)) < 2 ^ 63)%Z) by lia.
  destruct (run_call_inv sys c Hi (log_room _ _ _ Hl Hfit1)) as (sys1' & E' & Hi1). rewrite E in E'. injection E' as <-.
  eapply IH; [done|by apply log_call|by rewrite length_app|done].
Qed.

(** ** A subscription over time *)

(** The channel [l] of a subscription from [since] on. *)
Record tracked (since : Z) (l : loc) (sys : Sys) : Prop := {
  tr_here : l < length (sy_chans sys);
  tr_since : (since ≤ next_id sys)%Z;
  tr_above : Forall (λ e, since < ev_ID e)%Z (chan_events sys l)
}.

(** The subscription has missed nothing: its events count up from [since], and reach
    the latest one as long as it is registered. *)
Record gapless (since : Z) (l : loc) (sys : Sys) : Prop := {
  ga_ids : ev_ID <$> chan_events sys l = seqZ (since + 1) (Z.of_nat (length (chan_events sys l)));
  ga_latest : registered (sy_stream sys) l → next_id sys = (since + Z.of_nat (length (chan_events sys l)))%Z
}.

Lemma call_tracked since l sys call sys' :
  calls_inv sys → numberable sys (call_log sys call) → run_call sys call = Some sys' →
  tracked since l sys → tracked since l sys'.
Proof.
  intros Hi Hnum E [H1 H2 H3]. destruct (call_channel _ _ _ l Hi Hnum E (or_introl H1)) as [C1 C2 C3 C4 C5].
  split; [lia|lia|]. destruct C4 as [[-> _]|(_ & _ & ->)]; [done|]. apply Forall_app. split; [done|].
  apply Forall_forall. intros e He. apply call_log_ids in He as [_ He]; [lia|done..].
Qed.

Lemma call_gapless since l sys call sys' :
  calls_inv sys → numberable sys (call_log sys call) → run_call sys call = Some sys' →
  tracked since l sys → gapless since l sys → gapless since l sys'.
Proof.
  intros Hi Hnum E [H1 H2 H3] [G1 G2]. destruct (call_channel _ _ _ l Hi Hnum E (or_introl H1)) as [C1 C2 C3 C4 C5].
  destruct C4 as [[Ev Hl]|(Hr & Hne & Ev)].
  - split; rewrite Ev; [done|]. intros Hr. rewrite C2, (Hl Hr), (G2 (C3 Hr)). simpl. lia.
  - assert (Hone : ∃ e, call_log sys call = [e] ∧ ev_ID e = (next_id sys + 1)%Z).
    { destruct (call_log sys call) as [|e log] eqn:El; [done|].
      destruct (call_log_ids sys call e Hi) as [Hc He]; [by rewrite El|rewrite El; left|]. exists e. split; [congruence|done]. }
    destruct Hone as (e & El & He). rewrite El in *. split; rewrite Ev, length_app; simpl.
    + rewrite fmap_app, G1. simpl. rewrite He, (G2 Hr). rewrite Nat2Z.inj_add, seqZ_app by lia. f_equal.
      rewrite seqZ_cons by lia. change (Z.of_nat 1) with 1%Z. rewrite seqZ_nil by lia. f_equal. lia.
    + intros _. rewrite C2, (G2 Hr). simpl. lia.
Qed.

Lemma run_tracked since l calls sys sys' log new :
  calls_inv sys → log_inv sys log → (Z.of_nat (length (log ++ new)) < 2 ^ 63)%Z →
  run_logged sys calls = Some (sys', new) → tracked since l sys →
  tracked since l sys' ∧ (gapless since l sys → gapless since l sys').
Proof.
  revert sys log new. induction calls as [|c calls IH]; intros sys log new Hi Hl Hfit; cbn [run_logged].
  { intros [= <- <-] Ht. auto. }
  destruct (run_call sys c) as [sys1|] eqn:E; [|done]. simpl.
  destruct (run_logged sys1 calls) as [[sys2 new2]|] eqn:E2; [|done]. intros [= <- <-] Ht.
  rewrite app_assoc in Hfit. assert (Hfit1 : (Z.of_nat (length (log ++ call_log sys c)) < 2 ^ 63)%Z)
    by (rewrite length_app in Hfit; lia).
  pose proof (log_room _ _ _ Hl Hfit1) as Hnum.
  destruct (run_call_inv sys c Hi Hnum) as (sys1' & E' & Hi1). rewrite E in E'. injection E' as <-.
  destruct (IH sys1 _ new2 Hi1 (log_call _ _ _ _ Hi Hl Hfit1 E) Hfit E2) as [H1 H2];
    [exact (call_tracked _ _ _ _ _ Hi Hnum E Ht)|].
  split; [done|]. intros Hg. apply H2. exact (call_gapless _ _ _ _ _ Hi Hnum E Ht Hg).
Qed.

Lemma ends_at_seqZ n ids : ends_at n ids → ids = seqZ (n - Z.of_nat (length ids) + 1) (Z.of_nat (length ids)).
Proof.
  intros He. apply list_eq. intros i. destruct (ids !! i) as [x|] eqn:E.
  - pose proof (lookup_lt_Some _ _ _ E). rewrite lookup_seqZ_lt by lia. specialize (He _ _ E). f_equal. lia.
  - apply lookup_ge_None in E. rewrite lookup_seqZ_ge by lia. done.
Qed.

(** The history still holds what follows [since]. *)
Definition reaches_back (since : Z) (sys : Sys) : Prop :=
  since = next_id sys ∨ (since + 1)%Z ∈ ev_ID <$> snapshot (sy_stream sys).

Lemma after_above since sys : sys_ok sys → Forall (λ e, since < ev_ID e)%Z (after since (st_history (sy_stream sys))).
Proof.
  intros Hok. rewrite after_spec by apply (so_ring _ Hok). case_bool_decide as Hs.
  - eapply Forall_impl; [apply (so_bound _ Hok)|]. simpl. lia.
  - apply Forall_forall. by intros e [He _]%list_elem_of_filter.
Qed.

Lemma after_reaches since sys :
  calls_inv sys → (0 ≤ since)%Z → reaches_back since sys →
  ev_ID <$> after since (st_history (sy_stream sys)) = seqZ (since + 1) (next_id sys - since).
Proof.
  intros Hi H0 Hb. pose proof (ci_ok _ Hi) as Hok. pose proof (after_above since sys Hok) as Ha.
  destruct (after_drop since (st_history (sy_stream sys)) (so_ring _ Hok) (so_sorted _ Hok)) as [k Hk].
  assert (He : ends_at (next_id sys) (ev_ID <$> after since (st_history (sy_stream sys)))).
  { rewrite Hk, fmap_drop. apply ends_at_drop. apply Hi. }
  set (h := after since (st_history (sy_stream sys))) in *. pose proof (ends_at_seqZ _ _ He) as Hs. rewrite length_fmap in Hs.
  assert (Hlen : Z.of_nat (length h) = Z.max 0 (next_id sys - since)).
  { destruct Hb as [Hb|Hb].
    - rewrite Hb, Z.sub_diag. destruct h as [|e h'] eqn:Eh; [done|]. exfalso.
      apply Forall_cons in Ha as [Ha _]. assert (Hin : e ∈ snapshot (sy_stream sys)).
      { apply (elem_drop k). change (drop k (snapshot (sy_stream sys))) with (drop k (slice (st_history (sy_stream sys)))).
        rewrite <-Hk. left. }
      pose proof (so_bound _ Hok) as Hbd. rewrite Forall_forall in Hbd. specialize (Hbd e Hin). unfold next_id in *. lia.
    - assert (Hin : (since + 1)%Z ∈ ev_ID <$> h).
      { apply list_elem_of_fmap in Hb as (e & Ee & Hin). apply list_elem_of_fmap. exists e. split; [done|]. unfold h.
        rewrite after_spec by apply (so_ring _ Hok). case_bool_decide; [done|]. apply list_elem_of_filter. split; [lia|done]. }
      rewrite Hs in Hin. apply elem_of_seqZ in Hin.
      assert (Hfirst : (since < next_id sys - Z.of_nat (length h) + 1)%Z); [|lia].
      destruct h as [|e h']; [simpl in Hin; lia|]. apply Forall_cons in Ha as [Ha _].
      rewrite fmap_cons in Hs. simpl length in Hs. rewrite seqZ_cons in Hs by lia. injection Hs as Hs _. simpl length. lia. }
  destruct (decide (since ≤ next_id sys)%Z) as [Hle|Hgt].
  - rewrite Hs. f_equal; lia.
  - rewrite seqZ_nil by lia. destruct h; [done|]. simpl in Hlen. lia.
Qed.

Lemma subscribed_events since sys :
  chan_events (subscribed since sys) (length (sy_chans sys))
  = take (Z.to_nat (BufferSize (st_opts (sy_stream sys)))) (after since (st_history (sy_stream sys))).
Proof.
  destruct sys as [s chans]. unfold chan_events, subscribed. simpl.
  destruct (st_closed s); simpl; rewrite lookup_app_r, Nat.sub_diag by done; simpl; by rewrite Nat.sub_0_r.
Qed.

Lemma subscribed_next since sys : next_id (subscribed since sys) = next_id sys.
Proof. unfold next_id, subscribed. by destruct (st_closed _). Qed.

Lemma subscribed_here since sys : length (sy_chans (subscribed since sys)) = S (length (sy_chans sys)).
Proof. unfold subscribed. destruct (st_closed _); simpl; rewrite length_app; simpl; lia. Qed.

Lemma subscribed_tracked since sys :
  calls_inv sys → (since ≤ next_id sys)%Z → tracked since (length (sy_chans sys)) (subscribed since sys).
Proof.
  intros Hi Hs. split; [rewrite subscribed_here; lia|by rewrite subscribed_next|].
  rewrite subscribed_events. apply Forall_forall. intros e He%elem_take.
  pose proof (after_above since sys (ci_ok _ Hi)) as Ha. rewrite Forall_forall in Ha. by apply Ha.
Qed.

(** A subscriber the stream keeps was given all of the replay. *)
Lemma subscribed_registered since sys :
  sys_ok sys → registered (sy_stream (subscribed since sys)) (length (sy_chans sys)) →
  length (after since (st_history (sy_stream sys))) ≤ Z.to_nat (BufferSize (st_opts (sy_stream sys))).
Proof.
  intros Hok. destruct sys as [s chans]. unfold subscribed. simpl. destruct (st_closed s) eqn:Ec.
  { pose proof (so_closed _ Hok Ec) as He. simpl in He. intros [id Hid]. simpl in Hid. by rewrite He in Hid. }
  intros [id Hid]. simpl in Hid. destruct (overflows _ _) eqn:Eo.
  - apply lookup_delete_Some in Hid as [_ Hid]. apply (so_sub _ Hok) in Hid as [_ Hid]. simpl in Hid. lia.
  - unfold overflows in Eo. simpl in Eo. apply bool_decide_eq_false in Eo. lia.
Qed.

Lemma subscribed_gapless since sys :
  calls_inv sys → (0 ≤ since ≤ next_id sys)%Z → reaches_back since sys →
  gapless since (length (sy_chans sys)) (subscribed since sys).
Proof.
  intros Hi Hs Hb. pose proof (after_reaches since sys Hi ltac:(lia) Hb) as Ha.
  pose proof (f_equal length Ha) as Hlen. rewrite length_fmap, length_seqZ in Hlen. split.
  - rewrite subscribed_events, fmap_take, Ha, length_take. set (cap := Z.to_nat _). apply list_eq. intros i.
    destruct (decide (i < cap)) as [Hi1|Hi1]; [rewrite lookup_take_lt by done|rewrite lookup_take_ge by lia].
    + destruct (decide (Z.of_nat i < next_id sys - since)%Z).
      * rewrite !lookup_seqZ_lt by lia. done.
      * rewrite !lookup_seqZ_ge by lia. done.
    + rewrite lookup_seqZ_ge by lia. done.
  - intros Hr%subscribed_registered; [|apply Hi]. rewrite subscribed_next, subscribed_events, take_ge by done.
    unfold next_id in *. lia.
Qed.

(** ** Sessions *)

(** The server's stream, with everything it has published. *)
Record Server := mkServer { sv_sys : Sys; sv_log : list Event }.

Section Sessions.
Context `{SseLib}.

(** Whether the job's log endpoint, [getJobLogsHandler], goes to
    [serveJobWithBackfill]: a connection without a cursor to a server that has a blob
    store ([blobs]). All others are served by [ServeJob]. *)
Definition backfilled (blobs : bool) (sinceID : Z) : bool := bool_decide (sinceID = 0)%Z && blobs.

(** One connection with the header [h] to the job's log endpoint: the server goes on
    for a while, accepts the subscription at the cursor of the header, serves it among
    other calls, and the client reads the response, cut at any byte; or no response
    with a body comes of it. What a backfilled response holds is left open: any
    events. [R] is what is known of the cursor and the stream when the subscription
    starts. *)
Inductive connects (blobs : bool) (R : Z → Sys → Prop) (x : Server) (h : string) : Conn → Server → Prop :=
| connects_none calls sys new conn :
    run_logged (sv_sys x) calls = Some (sys, new) → (∀ es b1 b2 b3, conn ≠ ConnBody es b1 b2 b3) →
    connects blobs R x h conn (mkServer sys (sv_log x ++ new))
| connects_backfill calls sys new conn :
    backfilled blobs (parseLastEventID h) = true → run_logged (sv_sys x) calls = Some (sys, new) →
    connects blobs R x h conn (mkServer sys (sv_log x ++ new))
| connects_body calls1 sys1 new1 id l sys2 calls2 sys3 new2 c body readErr cancelled idle :
    backfilled blobs (parseLastEventID h) = false →
    run_logged (sv_sys x) calls1 = Some (sys1, new1) → R (parseLastEventID h) sys1 →
    subscribe (parseLastEventID h) sys1 = Some (id, l, sys2) →
    run_logged sys2 calls2 = Some (sys3, new2) → sy_chans sys3 !! l = Some c →
    body `prefix_of` to_bytes (response_body (serve Some (ch_got c))) →
    connects blobs R x h (ConnBody (sse_Read (of_bytes body)) readErr cancelled idle)
      (mkServer sys3 (sv_log x ++ new1 ++ new2)).

(** The handler keeps what it is given, whatever it answers. *)
Context (answer : SseEvent → list SseEvent → HandlerResult).

Definition recorder (e : SseEvent) (s : list SseEvent) : HandlerResult * list SseEvent := (answer e s, s ++ [e]).

(** The server and the client that follows it: its cursor and what its handler was
    given. *)
Record Follow := mkFollow { fo_server : Server; fo_last : Z; fo_handled : list SseEvent }.

Definition fo_sys (F : Follow) : Sys := sv_sys (fo_server F).
Definition fo_log (F : Follow) : list Event := sv_log (fo_server F).

(** A stream that has served no call yet. *)
Definition fresh_server (opts : Options) : Server := mkServer (mkSys (newStream opts) []) [].

(** One attempt of the client. *)
Inductive session (blobs : bool) (R : Z → Sys → Prop) (F : Follow) : Follow → Prop :=
| session_intro conn x r handled :
    connects blobs R (fo_server F) (cursor_header (fo_last F)) conn x →
    streamConnection recorder conn (fo_last F) (fo_handled F) = (r, handled) →
    session blobs R F (mkFollow x (cr_lastEventID r) handled).

(** Events that can be written as frames and numbered in 63 bits. *)
Definition writable (log : list Event) : Prop := Forall no_cr log ∧ (Z.of_nat (length log) < 2 ^ 63)%Z.

Lemma writable_app log new : writable (log ++ new) → writable log.
Proof. intros [H1 H2]. apply Forall_app in H1 as [? _]. rewrite length_app in H2. split; [done|lia]. Qed.

Definition last_id (last : Z) (es : list Event) : Z := default last (ev_ID <$> list.last es).

Lemma last_id_cons last e es : last_id last (e :: es) = last_id (ev_ID e) es.
Proof. unfold last_id. rewrite last_cons. by destruct (list.last es). Qed.

Lemma last_id_app last es fs : last_id last (es ++ fs) = last_id (last_id last es) fs.
Proof. unfold last_id. rewrite last_app. by destruct (list.last fs). Qed.

(** The client's cursor follows what it reads, up to the event at which the handler
    stops it. *)
Lemma client_reads es last s :
  Forall (λ e, 0 < ev_ID e < 2 ^ 63)%Z es →
  ∃ n a, read_events recorder (shown [] <$> es) last s = (a, last_id last (take n es), s ++ (shown [] <$> take n es)).
Proof using Type.
  intros Hes. revert last s. induction Hes as [|e es He _ IH]; intros last s.
  { exists 0, None. by rewrite app_nil_r. }
  rewrite fmap_cons. cbn [read_events].
  assert (Hc : next_cursor (shown [] e) last = ev_ID e).
  { unfold next_cursor, shown. cbn [sse_LastEventID]. rewrite (bool_decide_eq_true_2 (0 < ev_ID e)%Z) by lia.
    rewrite event_id_roundtrip by lia. rewrite decide_False; [done|]. unfold EventID_String.
    rewrite bool_decide_eq_false_2 by lia. apply format_nonneg_nonempty. }
  rewrite Hc. change (recorder (shown [] e) s) with (answer (shown [] e) s, s ++ [shown [] e]).
  destruct (answer (shown [] e) s); [|by exists 1; eexists..].
  destruct (IH (ev_ID e) (s ++ [shown [] e])) as (n & a & ->). exists (S n), a.
  cbn [take]. by rewrite last_id_cons, fmap_cons, <-app_assoc.
Qed.

(** The header carries the cursor. *)
Lemma header_roundtrip last : (0 ≤ last < 2 ^ 63)%Z → parseLastEventID (cursor_header last) = last.
Proof.
  intros Hl. unfold cursor_header. case_bool_decide as Hp; [|unfold parseLastEventID; rewrite decide_True by done; lia].
  unfold parseLastEventID. rewrite event_id_roundtrip by lia. rewrite decide_False; [done|].
  unfold EventID_String. rewrite bool_decide_eq_false_2 by lia. apply format_nonneg_nonempty.
Qed.

(** What a connection is for the stream: more calls, and a first part of the events
    of the subscription's channel. *)
Lemma connects_adds blobs R x h conn x' last :
  reads_standard → backfilled blobs last = false → calls_inv (sv_sys x) → log_inv (sv_sys x) (sv_log x) → (0 ≤ last ≤ next_id (sv_sys x))%Z →
  h = cursor_header last → connects blobs R x h conn x' → writable (sv_log x') →
  calls_inv (sv_sys x') ∧ log_inv (sv_sys x') (sv_log x') ∧ (∃ new, sv_log x' = sv_log x ++ new) ∧
  ((∀ es b1 b2 b3, conn ≠ ConnBody es b1 b2 b3) ∨
   ∃ es b1 b2 b3 l sys1, conn = ConnBody (shown [] <$> es) b1 b2 b3 ∧ R last sys1 ∧
     es `prefix_of` chan_events (sv_sys x') l ∧ tracked last l (sv_sys x') ∧
     (reaches_back last sys1 → gapless last l (sv_sys x'))).
Proof using Type.
  intros Hstd Hbf Hi Hl Hlast -> Hconn Hw.
  assert (Hhdr : ∀ new, writable (sv_log x ++ new) → parseLastEventID (cursor_header last) = last).
  { intros new [_ Hw1]. apply header_roundtrip. rewrite (li_next _ _ Hl) in Hlast. rewrite length_app in Hw1. lia. }
  destruct Hconn as [calls sys new conn E Hne|calls sys new conn Hb E
    |calls1 sys1 new1 id l sys2 calls2 sys3 new2 c body readErr cancelled idle _ E1 HR Es E2 Hc Hb]; cbn [sv_sys sv_log] in *.
  { destruct (run_logged_inv _ _ _ _ _ Hi Hl (proj2 Hw) E) as [Hi1 Hl1]. split_and!; eauto. }
  { rewrite (Hhdr _ Hw) in Hb. congruence. }
  assert (Hfit : (Z.of_nat (length ((sv_log x ++ new1) ++ new2)) < 2 ^ 63)%Z) by (rewrite <-app_assoc; apply Hw).
  assert (Hfit1 : (Z.of_nat (length (sv_log x ++ new1)) < 2 ^ 63)%Z) by (rewrite (length_app (_ ++ _)) in Hfit; lia).
  destruct (run_logged_inv _ _ _ _ _ Hi Hl Hfit1 E1) as [Hi1 Hl1].
  rewrite (Hhdr _ Hw) in Es, HR.
  rewrite (subscribe_spec _ _ (ci_ok _ Hi1)) in Es. injection Es as <- <- <-.
  pose proof (subscribe_calls last sys1 Hi1) as Hi2.
  assert (Hl2 : log_inv (subscribed last sys1) (sv_log x ++ new1)).
  { pose proof (log_call sys1 (CSubscribe last) (subscribed last sys1) _ Hi1 Hl1) as Hlog. cbn [run_call call_log] in Hlog.
    rewrite (subscribe_spec _ _ (ci_ok _ Hi1)), app_nil_r in Hlog. by apply Hlog. }
  destruct (run_logged_inv _ _ _ _ _ Hi2 Hl2 Hfit E2) as [Hi3 Hl3]. rewrite <-app_assoc in Hl3.
  assert (Hle : (last ≤ next_id sys1)%Z).
  { rewrite (li_next _ _ Hl1), length_app. rewrite (li_next _ _ Hl) in Hlast. lia. }
  destruct (run_tracked _ _ _ _ _ _ _ Hi2 Hl2 Hfit E2 (subscribed_tracked _ _ Hi1 Hle)) as [Htr Hga].
  assert (Hevs : chan_events sys3 (length (sy_chans sys1)) = ch_got c ++ ch_buf c) by (unfold chan_events; by rewrite Hc).
  assert (Hserve : Forall no_cr (serve Some (ch_got c)) ∧ Forall (λ e, 0 < ev_ID e)%Z (serve Some (ch_got c))).
  { assert (Hin : ∀ e, e ∈ serve Some (ch_got c) → no_cr e ∧ (0 < ev_ID e)%Z);
      [|by split; apply Forall_forall; intros e He; apply Hin].
    intros e He. destruct (serve_prefix (ch_got c)) as [k Hk]. assert (Hlog : e ∈ sv_log x ++ new1 ++ new2).
    { eapply (li_chans _ _ Hl3 (length (sy_chans sys1))). rewrite Hevs, Hk, !elem_of_app. auto. }
    destruct Hw as [Hcr _]. rewrite Forall_forall in Hcr. split; [by apply Hcr|]. by apply (log_lookup _ _ _ Hl3). }
  destruct Hserve as [Hcr Hpos]. destruct (response_cut _ body Hcr Hb) as [n Hn].
  rewrite shown_all_numbered, <-fmap_take in Hn by done. pose proof (Hstd (of_bytes body)) as Hpre. rewrite Hn in Hpre.
  assert (Hm : sse_Read (of_bytes body) = shown [] <$> take (length (sse_Read (of_bytes body))) (take n (serve Some (ch_got c)))).
  { rewrite fmap_take. destruct Hpre as [k Hk]. rewrite Hk. by rewrite take_app_length. }
  clear Hpre. rewrite take_take in Hm.
  split; [done|]. split; [done|]. split; [by eexists|]. right. do 4 eexists. exists (length (sy_chans sys1)), sys1.
  split; [by rewrite Hm|]. split_and!; try done.
  - rewrite Hevs. etransitivity; [apply prefix_take|]. etransitivity; [apply serve_prefix|]. by eexists.
  - intros Hr. apply Hga, subscribed_gapless; [done|lia|done].
Qed.

(** What an attempt adds to what the client has handled. *)
Lemma session_adds blobs R F F' :
  reads_standard → backfilled blobs (fo_last F) = false → calls_inv (fo_sys F) → log_inv (fo_sys F) (fo_log F) → (0 ≤ fo_last F ≤ next_id (fo_sys F))%Z →
  session blobs R F F' → writable (fo_log F') →
  calls_inv (fo_sys F') ∧ log_inv (fo_sys F') (fo_log F') ∧ (∃ new, fo_log F' = fo_log F ++ new) ∧
  ∃ es, fo_handled F' = fo_handled F ++ (shown [] <$> es) ∧ fo_last F' = last_id (fo_last F) es ∧
    (es = [] ∨ ∃ l sys1, R (fo_last F) sys1 ∧ es `prefix_of` chan_events (fo_sys F') l ∧ tracked (fo_last F) l (fo_sys F') ∧
      (reaches_back (fo_last F) sys1 → gapless (fo_last F) l (fo_sys F'))).
Proof using Type.
  intros Hstd Hbf Hi Hl Hlast [conn x r handled Hconn Er] Hw. unfold fo_log, fo_sys in *. cbn [fo_server fo_last fo_handled] in *.
  destruct (connects_adds _ _ _ _ _ _ _ Hstd Hbf Hi Hl Hlast eq_refl Hconn Hw) as (Hi' & Hl' & Hnew & Hcase).
  split; [done|]. split; [done|]. split; [done|]. destruct Hcase as [Hno|(es & b1 & b2 & b3 & l & sys1 & -> & HR & Hpre & Htr & Hga)].
  { exists []. rewrite app_nil_r. destruct conn as [|[]| |es b1 b2 b3]; [..|by destruct (Hno es b1 b2 b3)];
      injection Er as <- <-; split_and!; auto. }
  assert (Hids : Forall (λ e, 0 < ev_ID e < 2 ^ 63)%Z es).
  { apply Forall_forall. intros e He. assert (Hin : e ∈ sv_log x).
    { apply (li_chans _ _ Hl' l). destruct Hpre as [k ->]. rewrite elem_of_app. by left. }
    destruct (log_lookup _ _ _ Hl' Hin) as [Hp Hat]. apply lookup_lt_Some in Hat. destruct Hw. lia. }
  cbn [streamConnection] in Er. destruct (client_reads es (fo_last F) (fo_handled F) Hids) as (n & a & En). rewrite En in Er.
  exists (take n es). assert (Hr : cr_lastEventID r = last_id (fo_last F) (take n es) ∧ handled = fo_handled F ++ (shown [] <$> take n es)).
  { destruct a as [[]|]; try destruct b2; try destruct b3; injection Er as <- <-; auto. }
  destruct Hr as [-> ->]. split; [done|]. split; [done|]. right. exists l, sys1. split_and!; try done.
  etransitivity; [apply prefix_take|done].
Qed.

(** ** Any number of connections *)

(** The client started at the cursor [since], its handler having been given [before];
    the events [hs] are what it has handled after that. *)
Record follows (since : Z) (before : list SseEvent) (F : Follow) (hs : list Event) : Prop := {
  fw_calls : calls_inv (fo_sys F);
  fw_log : log_inv (fo_sys F) (fo_log F);
  fw_last : fo_last F = last_id since hs ∧ (0 ≤ since ≤ fo_last F)%Z ∧ (fo_last F ≤ next_id (fo_sys F))%Z;
  fw_handled : fo_handled F = before ++ (shown [] <$> hs);
  fw_published : ∀ e, e ∈ hs → e ∈ fo_log F;
  fw_sorted : StronglySorted Z.lt (ev_ID <$> hs);
  fw_below : Forall (λ e, ev_ID e ≤ fo_last F)%Z hs
}.

(** A new stream has published nothing. *)
Lemma fresh_log opts : log_inv (mkSys (newStream opts) []) [].
Proof using Type.
  split; [done|by intros i e Hi|..].
  - intros e. unfold snapshot. simpl. rewrite (proj2 (newRing_ok _)). by intros ?%elem_of_nil.
  - intros l e. rewrite chan_events_none by (simpl; lia). by intros ?%elem_of_nil.
Qed.

(** A client may start at any cursor of a stream that has served any calls. *)
Lemma start_follows opts calls sys log since before :
  run_logged (mkSys (newStream opts) []) calls = Some (sys, log) → (0 ≤ since ≤ Z.of_nat (length log))%Z →
  (Z.of_nat (length log) < 2 ^ 63)%Z → follows since before (mkFollow (mkServer sys log) since before) [].
Proof using Type.
  intros E Hs Hlen. destruct (run_logged_inv calls _ _ log [] (newStream_calls opts) (fresh_log opts) Hlen E) as [Hi Hl].
  split; unfold fo_sys, fo_log; simpl; [done|done| |by rewrite app_nil_r|by intros e ?%elem_of_nil|constructor|constructor].
  rewrite (li_next _ _ Hl). simpl. unfold last_id. simpl. split_and!; lia.
Qed.

Lemma seqZ_sorted a n : StronglySorted Z.lt (seqZ a n).
Proof.
  assert (Hk : ∀ k a, StronglySorted Z.lt (seqZ a (Z.of_nat k))).
  { intros k. induction k as [|k IH]; intros c; [rewrite seqZ_nil by lia; constructor|].
    rewrite seqZ_cons by lia. replace (Z.pred (Z.of_nat (S k))) with (Z.of_nat k) by lia. constructor; [apply IH|].
    apply Forall_forall. intros x Hx%elem_of_seqZ. lia. }
  destruct (decide (0 ≤ n)%Z); [|rewrite seqZ_nil by lia; constructor]. rewrite <-(Z2Nat.id n) by done. apply Hk.
Qed.

Lemma consecutive_sorted ids : consecutive ids → StronglySorted Z.lt ids.
Proof. intros [n Hn]. rewrite (ends_at_seqZ _ _ Hn). apply seqZ_sorted. Qed.

Lemma sorted_prefix (l m : list Z) : l `prefix_of` m → StronglySorted Z.lt m → StronglySorted Z.lt l.
Proof. intros [k ->] Hs. by apply StronglySorted_app in Hs as (_ & ? & _). Qed.

Lemma last_id_bounds last es :
  StronglySorted Z.lt (ev_ID <$> es) → Forall (λ e, last < ev_ID e)%Z es →
  (last ≤ last_id last es)%Z ∧ Forall (λ e, ev_ID e ≤ last_id last es)%Z es.
Proof.
  revert last. induction es as [|e es IH]; intros last Hs Ha; [split; [unfold last_id; simpl; lia|constructor]|].
  rewrite fmap_cons in Hs. apply StronglySorted_inv in Hs as [Hs Hall]. apply Forall_cons in Ha as [Ha _].
  rewrite Forall_fmap in Hall. rewrite last_id_cons. destruct (IH (ev_ID e) Hs Hall) as [H1 H2].
  split; [lia|]. constructor; [lia|done].
Qed.

Lemma session_follows blobs R since before F F' hs :
  reads_standard → backfilled blobs since = false → follows since before F hs → session blobs R F F' →
  writable (fo_log F') →
  ∃ es, follows since before F' (hs ++ es) ∧
    ((∀ last sys, R last sys → reaches_back last sys) → ev_ID <$> es = seqZ (fo_last F + 1) (Z.of_nat (length es))).
Proof using Type.
  intros Hstd Hbf [Hi Hl (Hlast & Hsince & Hb) Hh Hp Hs Hbel] Hsess Hw.
  assert (Hbf' : backfilled blobs (fo_last F) = false).
  { unfold backfilled in *. destruct blobs; [|by rewrite andb_false_r]. rewrite andb_true_r in *.
    apply bool_decide_eq_false in Hbf. apply bool_decide_eq_false. lia. }
  destruct (session_adds _ _ _ _ Hstd Hbf' Hi Hl ltac:(lia) Hsess Hw) as (Hi' & Hl' & [new Hnew] & es & Hh' & Hlast' & Hcase).
  exists es. assert (Hnext : (next_id (fo_sys F) ≤ next_id (fo_sys F'))%Z).
  { rewrite (li_next _ _ Hl), (li_next _ _ Hl'), Hnew, length_app. lia. }
  destruct Hcase as [-> |(l & sys1 & HR & Hpre & Htr & Hga)].
  { cbn in Hh', Hlast'. rewrite app_nil_r in Hh'. rewrite app_nil_r. split; [|done].
    split; rewrite ?Hh', ?Hlast'; try done; [split_and!; [done|lia..]|].
    intros e He. rewrite Hnew, elem_of_app. left. by apply Hp. }
  assert (Hes : StronglySorted Z.lt (ev_ID <$> es)).
  { destruct Hpre as [k Hk]. eapply sorted_prefix; [|apply consecutive_sorted, (ci_chans _ Hi' l)].
    rewrite <-chan_events_ids, Hk, fmap_app. by eexists. }
  assert (Habove : Forall (λ e, fo_last F < ev_ID e)%Z es).
  { destruct Hpre as [k Hk]. pose proof (tr_above _ _ _ Htr) as Ha. rewrite Hk in Ha. by apply Forall_app in Ha as [? _]. }
  assert (Hin : ∀ e, e ∈ es → e ∈ fo_log F').
  { intros e He. apply (li_chans _ _ Hl' l). destruct Hpre as [k ->]. rewrite elem_of_app. by left. }
  destruct (last_id_bounds (fo_last F) es Hes Habove) as [Hge Hle]. rewrite <-Hlast' in Hge, Hle. split; [split|].
  - done.
  - done.
  - rewrite last_id_app, <-Hlast. split; [done|]. split; [lia|]. rewrite Hlast'. unfold last_id.
    destruct (list.last es) as [e|] eqn:El; [|simpl; lia].
    simpl. apply last_Some_elem_of in El. destruct (log_lookup _ _ _ Hl' (Hin e El)) as [_ Hat].
    apply lookup_lt_Some in Hat. rewrite (li_next _ _ Hl'). lia.
  - by rewrite Hh', Hh, fmap_app, app_assoc.
  - intros e [He|He]%elem_of_app; [rewrite Hnew, elem_of_app; left; by apply Hp|by apply Hin].
  - rewrite fmap_app. apply StronglySorted_app. split_and!; [|done|done].
    intros x y (a & -> & Ha)%list_elem_of_fmap (c & -> & Hc)%list_elem_of_fmap.
    rewrite Forall_forall in Hbel, Habove. specialize (Hbel a Ha). specialize (Habove c Hc). simpl in *. lia.
  - apply Forall_app. split; [|done]. eapply Forall_impl; [exact Hbel|]. simpl. lia.
  - intros Hback. destruct (Hga (Hback _ _ HR)) as [Hids _]. destruct Hpre as [k Hk]. rewrite Hk, fmap_app in Hids.
    rewrite length_app, Nat2Z.inj_add, seqZ_app in Hids by lia. apply app_inj_1 in Hids as [Hids _]; [done|].
    rewrite length_fmap, length_seqZ. lia.
Qed.

(** The log only grows along sessions. *)
Lemma connects_grows blobs R x h conn x' : connects blobs R x h conn x' → sv_log x `prefix_of` sv_log x'.
Proof using Type. intros [????? ?| |]; simpl; by eexists. Qed.

Lemma session_grows blobs R F F' : session blobs R F F' → fo_log F `prefix_of` fo_log F'.
Proof using Type. intros [conn x r handled Hc _]. unfold fo_log. simpl. by eapply connects_grows. Qed.

Lemma sessions_grow blobs R F F' : rtc (session blobs R) F F' → fo_log F `prefix_of` fo_log F'.
Proof using Type. induction 1 as [|F F1 F' Hs _ IH]; [done|]. etransitivity; [by eapply session_grows|done]. Qed.

Lemma writable_prefix log log' : log `prefix_of` log' → writable log' → writable log.
Proof using Type. intros [k ->]. apply writable_app. Qed.

Lemma last_id_seqZ a es : ev_ID <$> es = seqZ (a + 1) (Z.of_nat (length es)) → last_id a es = (a + Z.of_nat (length es))%Z.
Proof using Type.
  revert a. induction es as [|e es IH]; intros a; [unfold last_id; simpl; lia|]. rewrite fmap_cons. cbn [length].
  rewrite seqZ_cons by lia. intros [= He Hes]. rewrite last_id_cons, He, IH; [lia|]. rewrite Hes. f_equal; lia.
Qed.

(** Any number of sessions. *)
Lemma sessions_follow blobs R since before F0 F hs0 :
  reads_standard → backfilled blobs since = false → follows since before F0 hs0 → rtc (session blobs R) F0 F →
  writable (fo_log F) →
  ∃ es, follows since before F (hs0 ++ es) ∧
    ((∀ last sys, R last sys → reaches_back last sys) → ev_ID <$> es = seqZ (fo_last F0 + 1) (Z.of_nat (length es)) ∧
       fo_last F = (fo_last F0 + Z.of_nat (length es))%Z).
Proof using Type.
  intros Hstd Hbf H0 Hrtc. pattern F. refine (rtc_ind_r _ F0 _ _ F Hrtc); [intros Hw|intros F1 F' H1 Hsess IH Hw].
  { exists []. rewrite app_nil_r. split; [done|]. simpl. split; [done|lia]. }
  destruct IH as (es & Hf & Hga).
  { eapply writable_prefix; [by eapply session_grows|done]. }
  destruct (session_follows _ _ _ _ _ _ _ Hstd Hbf Hf Hsess Hw) as (fs & Hf' & Hga'). exists (es ++ fs).
  rewrite app_assoc. split; [done|]. intros Hb. destruct (Hga Hb) as [H2 H3]. specialize (Hga' Hb).
  rewrite fmap_app, H2, Hga', H3, length_app, Nat2Z.inj_add, seqZ_app by lia. split; [f_equal; f_equal; lia|].
  destruct (fw_last _ _ _ _ Hf') as [-> _]. rewrite last_id_app. destruct (fw_last _ _ _ _ Hf) as [<- _]. rewrite H3.
  rewrite H3 in Hga'. rewrite (last_id_seqZ _ _ Hga'). lia.
Qed.

(** What was handled without a gap is the part of the log after the first cursor. *)
Lemma follows_prefix n before F hs :
  follows (Z.of_nat n) before F hs → ev_ID <$> hs = seqZ (Z.of_nat n + 1) (Z.of_nat (length hs)) →
  hs = take (length hs) (drop n (fo_log F)).
Proof using Type.
  intros Hf Hids. apply list_eq. intros i. destruct (hs !! i) as [e|] eqn:E.
  - pose proof (lookup_lt_Some _ _ _ E) as Hlt. rewrite lookup_take_lt, lookup_drop by done.
    destruct (log_lookup _ _ e (fw_log _ _ _ _ Hf)) as [_ Hat]; [by eapply (fw_published _ _ _ _ Hf), list_elem_of_lookup_2|].
    assert (Hid : ev_ID e = (Z.of_nat n + 1 + Z.of_nat i)%Z).
    { assert (Hl : (ev_ID <$> hs) !! i = Some (ev_ID e)) by (by rewrite list_lookup_fmap, E).
      rewrite Hids, lookup_seqZ_lt in Hl by lia. by injection Hl as <-. }
    rewrite Hid in Hat. by replace (Z.to_nat (Z.of_nat n + 1 + Z.of_nat i - 1)) with (n + i) in Hat by lia.
  - apply lookup_ge_None in E. by rewrite lookup_take_ge.
Qed.

End Sessions.
