(* ===== verification/StreamProps.v ===== *)
(** * Properties of event streams *)

From stdpp Require Import base gmap sets list sorting strings.
From S2P Require Import Prelude GoStrings Types Ring Stream StreamSafety StreamCalls.
From Stdlib Require Import ZArith Lia.
Local Open Scope list_scope.

Lemma queue_push_drop cap (es : list Event) e : 0 < cap →
  queue_push cap (drop (length es - cap) es) e = drop (length (es ++ [e]) - cap) (es ++ [e]).
Proof.
  intros Hpos. unfold queue_push. rewrite length_drop, length_app. simpl.
  destruct (decide (length es ≤ cap)) as [Hl|Hl].
  - replace (length es - cap) with 0 by lia. rewrite drop_0. f_equal. lia.
  - rewrite !drop_app_le by (rewrite ?length_drop; lia). rewrite drop_drop. do 2 f_equal. lia.
Qed.

(** C37. The circular buffer implements a bounded queue: after any pushes it lists the
    last events in order, as many as its capacity, and reading from an identifier on
    gives exactly the listed events past it. *)
Theorem ring_refines_queue capacity es since :
  let r := foldl (λ r e, push e r) (newRing capacity) es in
  ring_ok r ∧ slice r = drop (length es - r_cap (newRing capacity)) es ∧
  after since r = if bool_decide (since ≤ 0)%Z then slice r else filter (λ e, (since < ev_ID e)%Z) (slice r).
Proof.
  set (cap := r_cap (newRing capacity)).
  assert (H : ∀ es, let r := foldl (λ r e, push e r) (newRing capacity) es in
    ring_ok r ∧ r_cap r = cap ∧ slice r = drop (length es - cap) es).
  { clear es. induction es as [|e es IH] using rev_ind; simpl.
    - destruct (newRing_ok capacity) as [Hr Hs]. split_and!; [done|done|]. by rewrite Hs.
    - rewrite foldl_app. simpl in *. destruct IH as (Hr & Hc & Hs). split_and!; [by apply push_ok|done|].
      rewrite push_slice, Hs, Hc by done. apply queue_push_drop.
      destruct (newRing_ok capacity) as [[_ Hh _] _]. exact (Nat.le_lt_trans _ _ _ (Nat.le_0_l _) Hh). }
  destruct (H es) as (Hr & _ & Hs). simpl. split_and!; [done|done|by apply after_spec].
Qed.

(** C38. Whatever the interleaving of publishers, subscribers, cancellations, resumes
    and readers, let [log] be the events published so far, as their publishers handed
    them in, in the order in which the stream took them (fewer than 2^63: the ids are
    64-bit). The counter is their number; the history is the end of that list, each event with its
    position as its id and its type and data unchanged, within its bound; every event a consumer has been given, or
    will find in its channel, is such an event, and none is given to the same consumer
    twice; no channel holds more than its buffer; and a closed stream has no
    subscribers. *)
Theorem stream_invariant opts log sys ts :
  world_reachable opts log (sys, ts) → (Z.of_nat (length log) < 2 ^ 63)%Z →
  st_nextEventID (sy_stream sys) = Z.of_nat (length log) ∧
  snapshot (sy_stream sys) `suffix_of` stamped log ∧
  length (snapshot (sy_stream sys)) ≤ r_cap (st_history (sy_stream sys)) ∧
  (∀ l c, sy_chans sys !! l = Some c →
     NoDup (ev_ID <$> (ch_got c ++ ch_buf c)) ∧ ch_got c ++ ch_buf c ⊆ stamped log ∧
     length (ch_buf c) ≤ ch_cap c) ∧
  (st_closed (sy_stream sys) = true → st_subscribers (sy_stream sys) = ∅).
Proof.
  intros Hr Hlen. destruct (world_reachable_inv _ _ _ Hr Hlen) as [[Hok Ho Hp Hf] [Hn Hh Hc _]]. simpl in *. split_and!.
  - done.
  - done.
  - pose proof (so_ring _ Hok) as Hring. unfold snapshot. rewrite slice_length by done. apply (ring_len _ Hring).
  - intros l c Hl. specialize (Ho l). unfold traffic, ids_of in Ho. simpl in Ho.
    rewrite Hl in Ho. apply NoDup_app in Ho as [Ho _]. rewrite Forall_lookup in Hc. specialize (Hc l c Hl). simpl in Hc.
    rewrite Forall_forall in Hc. split_and!; [done|exact Hc|].
    pose proof (so_buf _ Hok) as Hb. rewrite Forall_lookup in Hb. by apply (Hb l).
  - apply (so_closed _ Hok).
Qed.

(** *** A schedule that panics: a subscriber cancels between the moment a publisher
    has taken the list of subscribers and the moment it sends. *)

Definition small_opts : Options := normalize (mkOptions 2 4).

Definition an_event : Event := mkEvent 0 SSEEventLog "hello".

Definition a_subscribed : Sys := subscribed 0 (mkSys (newStream small_opts) []).

Definition a_send : Thread := TSend (mkEvent 1 SSEEventLog "hello") [(0%Z, 0)] [] false.

(** The publisher holds subscriber 0, whose channel has just been closed. *)
Definition racing : Sys * list Thread :=
  (mkSys (set_subscribers ∅ (publish_locked an_event (sy_stream a_subscribed)).2)
     [close_chan (newSubscriber 2)],
   [TDone; a_send; TClose []]).

Lemma racing_reachable : world_reachable small_opts [an_event] racing.
Proof.
  pose proof (world_new small_opts) as H.
  eapply world_next in H; [|apply (world_call _ _ (TSubscribe 0)); reflexivity].
  eapply world_next in H; [|eapply (world_thread _ _ [] _ _ []); apply step_subscribe; reflexivity].
  eapply world_next in H; [|eapply (world_thread _ _ [] _ _ []); apply step_replayed].
  eapply world_next in H; [|apply (world_call _ _ (TPublish an_event false)); reflexivity].
  eapply world_next in H; [|eapply (world_thread _ _ [TDone] _ _ []);
    apply step_publish with (subs := [(0%Z, 0)]); [reflexivity|reflexivity|reflexivity]].
  eapply world_next in H; [|apply (world_call _ _ (TDrop 0)); reflexivity].
  eapply world_next in H; [|eapply (world_thread _ _ [TDone; a_send] _ _ []); apply step_drop; [lia|reflexivity]].
  eapply world_next in H; [|eapply (world_thread _ _ [TDone; a_send] _ _ []); apply step_close].
  exact H.
Qed.

(** Witness of C38: the state in the middle of that schedule. *)
Lemma stream_invariant_witness :
  world_reachable small_opts [an_event] racing ∧ stamped [an_event] = [mkEvent 1 SSEEventLog "hello"] ∧
  st_nextEventID (sy_stream racing.1) = 1%Z ∧ snapshot (sy_stream racing.1) `suffix_of` stamped [an_event].
Proof.
  split; [exact racing_reachable|]. split; [vm_compute; reflexivity|].
  destruct (stream_invariant small_opts [an_event] racing.1 racing.2 racing_reachable ltac:(vm_compute; reflexivity))
    as (Hn & Hs & _).
  split; [exact Hn|exact Hs].
Defined.

(** Sends are not protected against a concurrent close: from a fresh stream,
    one subscriber, one publish and one cancellation reach a state in which the
    publisher is about to send on the cancelled subscriber's closed channel, which
    panics. *)
Theorem publish_cancel_race_panics :
  ∃ log sys ts t, world_reachable small_opts log (sys, ts) ∧ t ∈ ts ∧ panics sys t ∧
    ∃ evt subs, t = TSend evt subs [] false.
Proof.
  exists [an_event], racing.1, racing.2, a_send.
  split; [exact racing_reachable|]. split; [right; left|]. split; [|by eexists _, _].
  exists 0, (close_chan (newSubscriber 2)). done.
Qed.

(** When calls do not overlap, and are fewer than 2^63, none panics, every consumer receives events with
    consecutive ids, and a subscriber that is still registered has been given every
    event up to the latest. *)
Theorem calls_deliver_in_order opts calls :
  (Z.of_nat (length calls) < 2 ^ 63)%Z →
  ∃ sys, run_calls (mkSys (newStream opts) []) calls = Some sys ∧
    (∀ l c, sy_chans sys !! l = Some c → consecutive (ev_ID <$> (ch_got c ++ ch_buf c))) ∧
    (∀ id l c, st_subscribers (sy_stream sys) !! id = Some l → sy_chans sys !! l = Some c →
       ch_closed c = false ∧ ends_at (st_nextEventID (sy_stream sys)) (ev_ID <$> (ch_got c ++ ch_buf c))).
Proof.
  intros Hn. destruct (run_calls_inv calls _ (newStream_calls opts) Hn) as (sys & E & [Hok Ho _ Hr Hc]).
  exists sys. split_and!; [done| |].
  - intros l c Hl. specialize (Hc l). unfold ids_of in Hc. by rewrite Hl in Hc.
  - intros id l c Hid Hl. destruct (Ho id l Hid) as (c' & Hc' & Hcl). rewrite Hl in Hc'. injection Hc' as <-.
    split; [done|]. specialize (Hr l (ex_intro _ id Hid)). unfold ids_of in Hr. by rewrite Hl in Hr.
Qed.

(** Publishing to an open stream gives the event the next id, appends it to the
    history, hands it to every registered subscriber with room, closes and forgets the
    ones without, and leaves every other channel alone; on a closed stream it is
    refused. *)
Theorem publish_exact evt sys :
  sys_ok sys → open_ok sys →
  if st_closed (sy_stream sys) then publish evt sys = Some (inl ErrStreamClosed)
  else ∃ sys', publish evt sys = Some (inr (tt, sys')) ∧ published_to evt sys sys'.
Proof.
  intros Hok Ho. destruct (st_closed (sy_stream sys)) eqn:Ec.
  - unfold publish. by rewrite Ec.
  - by apply publish_spec.
Qed.

(** Witness: a subscriber with room receives the event. *)
Lemma publish_exact_witness :
  ∃ sys', publish an_event a_subscribed = Some (inr (tt, sys')) ∧
    sy_chans sys' !! 0 = Some (deliver (mkEvent 1 SSEEventLog "hello") (newSubscriber 2)).
Proof.
  destruct (run_call_inv (mkSys (newStream small_opts) []) (CSubscribe 0) (newStream_calls small_opts) ltac:(done))
    as (sys & E & [Hok Ho _ _ _]).
  cbn [run_call] in E. rewrite subscribe_spec in E by apply newStream_ok. injection E as <-.
  change (subscribed 0 (mkSys (newStream small_opts) [])) with a_subscribed in Hok, Ho.
  destruct (publish_exact an_event a_subscribed Hok Ho) as (sys' & Hp & Hto).
  exists sys'. split; [exact Hp|].
  apply (pt_registered _ _ _ Hto 0 (newSubscriber 2)); [exists 0%Z; reflexivity|reflexivity].
Defined.

(** Subscribing from an identifier opens a channel with the retained events
    past it, as many as its buffer takes; the subscriber stays registered exactly when
    the stream is open and all of them fit. *)
Theorem subscribe_exact since sys :
  sys_ok sys →
  let s := sy_stream sys in
  let h := after since (st_history s) in
  let cap := Z.to_nat (BufferSize (st_opts s)) in
  ∃ sys', subscribe since sys = Some (if st_closed s then (-1)%Z else st_nextSubID s, length (sy_chans sys), sys') ∧
    sy_chans sys' = sy_chans sys ++ [mkChan (take cap h) [] cap (st_closed s || bool_decide (cap < length h))] ∧
    snapshot (sy_stream sys') = snapshot s ∧
    (∀ id l, st_subscribers (sy_stream sys') !! id = Some l ↔
       st_subscribers s !! id = Some l ∨
       (id = st_nextSubID s ∧ l = length (sy_chans sys) ∧ st_closed s = false ∧ length h ≤ cap)).
Proof.
  intros Hok s h cap. exists (subscribed since sys). split; [by apply subscribe_spec|].
  assert (Hrep : replayed h (newSubscriber cap) = mkChan (take cap h) [] cap (bool_decide (cap < length h))).
  { unfold replayed. cbn [newSubscriber ch_buf ch_got ch_cap length app]. by rewrite Nat.sub_0_r. }
  unfold subscribed. fold s h cap. rewrite Hrep. destruct (st_closed s) eqn:Ec; cbn [sy_chans sy_stream st_subscribers].
  - split_and!; [done|done|naive_solver].
  - split_and!; [done|done|].
    assert (Hfresh : ∀ l, st_subscribers s !! st_nextSubID s = Some l → False).
    { intros l Hl. apply (so_sub _ Hok) in Hl as [Hl _]. fold s in Hl. lia. }
    intros id l. unfold overflows. cbn [newSubscriber ch_buf ch_cap length Nat.add]. case_bool_decide as Hc.
    + rewrite lookup_delete_Some. split; [naive_solver|]. intros [Hl|(_ & _ & _ & ?)]; [|lia].
      split; [intros <-; by eapply Hfresh|done].
    + rewrite lookup_insert_Some. split; [intros [[<- <-]|[_ Hl]]; [right; split_and!; auto; lia|by left]|].
      intros [Hl|(-> & -> & _)]; [right|by left]. split; [intros <-; by eapply Hfresh|done].
Qed.

(** Witness: a late subscriber of a stream with three events and a buffer of
    two gets the first two past its identifier. *)
Definition three : list Call := [CPublish an_event; CPublish an_event; CPublish an_event].

Lemma subscribe_exact_witness :
  ∃ sys sys' c, run_calls (mkSys (newStream small_opts) []) three = Some sys ∧
    subscribe 1 sys = Some (0%Z, 0, sys') ∧ sy_chans sys' !! 0 = Some c ∧
    ev_ID <$> ch_buf c = [2%Z; 3%Z].
Proof.
  destruct (run_calls_inv three _ (newStream_calls small_opts) ltac:(done)) as (sys & E & Hi).
  destruct (subscribe_exact 1 sys (ci_ok _ Hi)) as (sys' & Hs & Hc & _).
  assert (E' := E). vm_compute in E'. injection E' as <-.
  eexists _, sys', (mkChan (take 2 [mkEvent 2 SSEEventLog "hello"; mkEvent 3 SSEEventLog "hello"]) [] 2 false).
  split; [exact E|]. split; [exact Hs|]. split; [rewrite Hc; vm_compute; reflexivity|reflexivity].
Defined.
