(* ===== verification/ClientProps.v ===== *)
(** * Properties of the event transport and the reconnecting client *)

From stdpp Require Import base gmap sets list sorting relations strings.
From S2P Require Import Prelude GoStrings Types Ring Stream Sse SseClient.
From S2P Require Import StreamSafety StreamCalls StreamClient.
From Stdlib Require Import ZArith Lia.
Local Open Scope list_scope.

(** A response is read, by the rules of the event stream standard, as exactly the
    events that were written, in order, each with its identifier, type and data,
    however many lines the data has; the identifier, sent back in the header of the
    next request, is the cursor the server resumes from. *)
Theorem frames_conform es :
  Forall (λ e, no_cr e ∧ 0 < ev_ID e < 2 ^ 63)%Z es →
  sse_standard (response_body es)
    = (λ e, mkSseEvent (EventID_String (ev_ID e)) (SSEEventType_String (ev_Type e)) (ev_Data e)) <$> es ∧
  Forall (λ e, parseLastEventID (cursor_header (next_cursor (shown [] e) 0)) = ev_ID e) es.
Proof.
  intros Hes. rewrite Forall_forall in Hes. split.
  - rewrite response_read, shown_all_numbered by (apply Forall_forall; naive_solver).
    apply list_fmap_ext. intros i e He%list_elem_of_lookup_2. unfold shown.
    by rewrite bool_decide_eq_true_2 by (destruct (Hes e He); lia).
  - apply Forall_forall. intros e He. destruct (Hes e He) as [_ Hb].
    unfold next_cursor, shown. cbn [sse_LastEventID]. rewrite (bool_decide_eq_true_2 (0 < ev_ID e)%Z) by lia.
    rewrite event_id_roundtrip, decide_False, header_roundtrip; [done|lia| |lia].
    unfold EventID_String. rewrite bool_decide_eq_false_2 by lia. apply format_nonneg_nonempty.
Qed.

Definition two_lines : string := "a" +:+ line "" +:+ "b".

Lemma frames_conform_witness :
  sse_standard (response_body [mkEvent 7 SSEEventLog two_lines; mkEvent 8 SSEEventDone ""])
  = [mkSseEvent "7" "log" two_lines; mkSseEvent "8" "done" ""].
Proof.
  refine (proj1 (frames_conform [mkEvent 7 SSEEventLog two_lines; mkEvent 8 SSEEventDone ""] _)).
  repeat constructor; try lia; apply (bool_decide_eq_true_1 _); vm_compute; reflexivity.
Defined.

(** ** A server that follows a script *)

Section Scripted.
Context `{SseLib}.

(** Calls before the subscription, calls during it, and how many bytes of the
    response arrive. *)
Definition scripted (calls1 calls2 : list Call) (cut : nat) (h : string) (x : Server) : Conn * Server :=
  match (
    '(sys1, new1) ← run_logged (sv_sys x) calls1;
    '(id, l, sys2) ← subscribe (parseLastEventID h) sys1;
    '(sys3, new2) ← run_logged sys2 calls2;
    c ← sy_chans sys3 !! l;
    Some (ConnBody (sse_Read (of_bytes (take cut (to_bytes (response_body (serve Some (ch_got c))))))) false false false,
          mkServer sys3 (sv_log x ++ new1 ++ new2))) with
  | Some r => r
  | None => (ConnDo false, x)
  end.

Lemma scripted_connects blobs (R : Z → Sys → Prop) calls1 calls2 cut h x :
  backfilled blobs (parseLastEventID h) = false →
  (∀ sys1 new1, run_logged (sv_sys x) calls1 = Some (sys1, new1) → R (parseLastEventID h) sys1) →
  connects blobs R x h (scripted calls1 calls2 cut h x).1 (scripted calls1 calls2 cut h x).2.
Proof.
  intros Hbf HR. assert (Hno : connects blobs R x h (ConnDo false) x).
  { destruct x as [sys log]. pose proof (connects_none blobs R (mkServer sys log) h [] sys [] (ConnDo false)) as Hc.
    cbn [sv_log] in Hc. rewrite app_nil_r in Hc. by apply Hc. }
  unfold scripted. destruct (run_logged (sv_sys x) calls1) as [[sys1 new1]|] eqn:E1; [|done]. cbn [mbind option_bind].
  destruct (subscribe (parseLastEventID h) sys1) as [[[id l] sys2]|] eqn:E2; [|done]. cbn [mbind option_bind].
  destruct (run_logged sys2 calls2) as [[sys3 new2]|] eqn:E3; [|done]. cbn [mbind option_bind].
  destruct (sy_chans sys3 !! l) as [c|] eqn:E4; [|done]. cbn [mbind option_bind fst snd].
  eapply connects_body; [done|done|by eapply HR|done..|]. apply prefix_take.
Qed.

End Scripted.

(** The standard's reader, and a back-off that always waits for the first interval. *)
#[local] Instance standard_reader : SseLib := { sse_Read := sse_standard }.
#[local] Instance steady : BackoffLib :=
  { ExponentialBackOff := Z; NewExponentialBackOff := po_InitialInterval;
    next_backoff d := (Some d, d); reset_backoff d := d }.

(** A handler that stops at the end of the stream. *)
Definition until_done (e : SseEvent) (_ : list SseEvent) : HandlerResult :=
  if decide (sse_Type e = "done") then HDone else HOk.

Definition log_line (data : string) : Call := CPublish (mkEvent 0 SSEEventLog data).
Definition run_done : Call := CPublishStatus (mkEvent 0 SSEEventDone "{}").

(** Three log lines over two connections, the first of which breaks inside the second
    frame; then the end of the run. *)
Definition three_lines : World (X := Server) :=
  mkWorld (λ k, match k with
    | 0 => scripted [log_line "one"; log_line "two"] [CReceive 0; CReceive 0; log_line "three"] 50
    | 1 => scripted [] [run_done; CReceive 1; CReceive 1; CReceive 1; CReceive 1] 1000
    | _ => scripted [] [] 0
    end) (λ _, false) (λ _, false).

(** The command-line client, [Client.Stream], run against the log endpoint of a server
    without a blob store, whose connections break at any byte, at any time, among any
    other calls: when it returns, its handler
    was given events the server published, each as published, in increasing order of
    their identifiers, hence none twice; and its cursor is that of the last one. *)
Theorem stream_follows_log `{SseLib} `{BackoffLib} answer (w : World) rounds maxRetries opts e :
  reads_standard → (∀ k h x, connects false (λ _ _, True) x h (w_conn w k h x).1 (w_conn w k h x).2) →
  Stream (recorder answer) rounds maxRetries w [] (fresh_server opts) = Some e → writable (sv_log (en_world e)) →
  ∃ hs, en_state e = shown [] <$> hs ∧ hs ⊆ sv_log (en_world e) ∧ StronglySorted Z.lt (ev_ID <$> hs) ∧
    en_last e = last_id 0 hs.
Proof.
  intros Hstd Hw E Hlog. unfold Stream in E. set (F0 := mkFollow (fresh_server opts) 0 []).
  assert (Hr : rtc (session answer false (λ _ _, True)) F0 (mkFollow (en_world e) (en_last e) (en_state e))).
  { refine (stream_loop_inv _ (λ last s x, rtc (session answer false (λ _ _, True)) F0 (mkFollow x last s))
      w _ _ _ _ _ _ e _ _ E); [|constructor].
    intros k last s x HF. specialize (Hw k (cursor_header last) x). destruct (w_conn w k (cursor_header last) x) as [conn x'].
    destruct (streamConnection (recorder answer) conn last s) as [a s'] eqn:Er. eapply rtc_r; [exact HF|].
    by apply (session_intro answer _ _ (mkFollow x last s) conn x' a s'). }
  destruct (sessions_follow answer _ _ _ _ _ _ [] Hstd (andb_false_r _)
    (start_follows opts [] _ [] 0 [] eq_refl ltac:(done) ltac:(done)) Hr Hlog) as (hs & Hf & _). exists hs.
  destruct Hf as [_ _ [Hlast _] Hh Hp Hs _]. split_and!; [done| |done|done]. intros x Hx. by apply Hp.
Qed.

Lemma stream_follows_log_witness :
  ∃ e, Stream (recorder until_done) 5 3 three_lines [] (fresh_server (mkOptions 4 8)) = Some e ∧
    en_err e = None ∧ en_attempts e = 2 ∧
    en_state e = [mkSseEvent "1" "log" "one"; mkSseEvent "2" "log" "two"; mkSseEvent "3" "log" "three";
                  mkSseEvent "4" "done" "{}"] ∧
    ∃ hs, en_state e = shown [] <$> hs ∧ hs ⊆ sv_log (en_world e) ∧ StronglySorted Z.lt (ev_ID <$> hs) ∧
      en_last e = last_id 0 hs.
Proof.
  destruct (Stream (recorder until_done) 5 3 three_lines [] (fresh_server (mkOptions 4 8))) as [e|] eqn:E;
    [|vm_compute in E; discriminate].
  exists e. split; [reflexivity|].
  assert (He : en_err e = None ∧ en_attempts e = 2 ∧ en_state e = [mkSseEvent "1" "log" "one"; mkSseEvent "2" "log" "two";
    mkSseEvent "3" "log" "three"; mkSseEvent "4" "done" "{}"] ∧ writable (sv_log (en_world e))).
  { vm_compute in E. injection E as <-. split_and!; [reflexivity..|]. split; [|vm_compute; reflexivity].
    repeat constructor; apply (bool_decide_eq_true_1 _); vm_compute; reflexivity. }
  destruct He as (H1 & H2 & H3 & H4). split_and!; [exact H1|exact H2|exact H3|].
  refine (stream_follows_log until_done three_lines 5 3 (mkOptions 4 8) e _ _ E H4).
  - intros body. exists []. symmetry. apply app_nil_r.
  - intros k h x. destruct k as [|[|k]]; by (apply scripted_connects; [apply andb_false_r|]).
Defined.




(** C40. A client whose server has fallen silent gives up, and loses nothing. Take a client
    that is still connecting after [k] attempts, whatever those brought, and let nothing
    come of any later one (no connection, or a response without events that ends before
    the idle timeout), with the caller still waiting. Let [r] be the attempts that count as retries: all [k] if no event
    ever came, and otherwise those from the last one that brought an event on. A client
    with a limit of [m] retries then has [r] at most [m], and [Stream] returns, with the error that the
    retries are used up, after exactly [m - r + 1] further attempts (so [m + 1] if it
    never received anything, [m] if the [k]-th attempt brought the last event), whatever
    the back-off answers; its cursor and its handler's state are those it had after [k]
    attempts, and each further request carried that cursor. A client without a limit (a
    negative one) never returns. *)
Theorem client_gives_up `{BackoffLib} {S X} (handler : SseEvent → S → HandlerResult * S) (w : World) (s : S) (x : X)
    k limit g :
  after_attempts handler k limit w s x = Some g → barren w k →
  if bool_decide (limit < 0)%Z then ∀ rounds, Stream handler (k + rounds) limit w s x = None
  else
    let m := Z.to_nat limit in
    let r := since_event (go_saw g) in
    r ≤ m ∧ ∀ rounds, k + (m - r) < rounds →
      Stream handler rounds limit w s x
      = Some (mkEnded (Some ERetries) (k + (m - r + 1)) (go_last g) (go_state g)
          (world_after w k (m - r + 1) (cursor_header (go_last g)) (go_world g))).
Proof.
  intros Hg Hb. destruct (after_attempts_retry _ _ _ _ _ _ _ Hg) as [[Hr Hle] Hm].
  pose proof (still_going_loop handler k w 0 (mkGoing (stream_start limit) 0 s x []) g) as Hloop. cbn [go_retry go_last go_state go_world Nat.add] in Hloop.
  unfold Stream. case_bool_decide as Hl.
  - intros rounds. rewrite (Hloop rounds Hg). apply stream_keeps_on; [done|lia].
  - split; [lia|]. intros rounds Hrounds. replace rounds with (k + (rounds - k)) by lia.
    rewrite (Hloop _ Hg), (stream_gives_up handler (Z.to_nat limit - since_event (go_saw g))) by (done || lia).
    by rewrite Nat.add_assoc.
Qed.

(** A server that publishes one event and then is gone. *)
Definition silent : World (X := nat) :=
  mkWorld (λ k _ x, (if decide (k = 1) then ConnBody [mkSseEvent "7" "log" "hello"] true false false
                     else if Nat.even k then ConnDo false else ConnBody [] true false false, Datatypes.S x))
    (λ _, false) (λ _, false).

Lemma client_gives_up_witness :
  Stream (recorder until_done) 9 3 silent [] 0 = Some (mkEnded (Some ERetries) 5 7 [mkSseEvent "7" "log" "hello"] 5) ∧
  (∀ rounds, Stream (recorder until_done) (2 + rounds) (-1) silent [] 0 = None).
Proof.
  assert (Hb : barren silent 2).
  { intros i Hi. split_and!; [|reflexivity..]. intros h n. simpl. rewrite decide_False by lia.
    destruct (Nat.even i); [by left|right; by eexists]. }
  destruct (after_attempts (recorder until_done) 2 3 silent [] 0) as [g|] eqn:E; [|vm_compute in E; discriminate].
  destruct (after_attempts (recorder until_done) 2 (-1) silent [] 0) as [g'|] eqn:E'; [|vm_compute in E'; discriminate].
  split; [|exact (client_gives_up (recorder until_done) silent [] 0 2 (-1) g' E' Hb)].
  destruct (client_gives_up (recorder until_done) silent [] 0 2 3 g E Hb) as [_ Hgone].
  vm_compute in E. injection E as <-. refine (eq_trans (Hgone 9 _) _); [vm_compute; lia|vm_compute; reflexivity].
Defined.
