(* ===== verification/LogProps.v ===== *)
(** * Properties of job logs *)

From stdpp Require Import base gmap sets list sorting strings pretty.
From S2P Require Import Prelude GoStrings Types Json JsonText JobMeta JobMetaCodec Spec Db Tx Queries Lifecycle.
From S2P Require Import LogChunk LogStreamer LogIngest Sample.
From Stdlib Require Import ZArith Lia Ascii.
Local Open Scope list_scope.

Section Logs.
Context `{SpecLib} `{GzipLib} `{!GzipLaws}.

(** The names of streams are the canonical ones. *)
Definition named (r : LogLine) : Prop := ∃ err, ll_Stream r = stream_name err.

Lemma spec_session_named ops out er : Forall named (spec_session out er ops).
Proof using Type.
  assert (Hl : ∀ err ls, Forall named (line_records (stream_name err) ls)).
  { intros err ls. apply Forall_fmap, Forall_forall. intros l _. by exists err. }
  assert (Hp : ∀ err t, Forall named (pending_records (stream_name err) t)).
  { intros err t. unfold pending_records. case_decide; [constructor|]. apply Forall_singleton. by exists err. }
  revert out er. induction ops as [|o ops IH]; intros out er.
  - unfold spec_session. cbn. apply Forall_app. split; [apply (Hp false)|apply (Hp true)].
  - rewrite spec_session_cons. apply Forall_app. split; [|apply IH]. destruct o as [stream p|]; [|constructor].
    cbn [spec_run]. unfold spec_write. destruct (is_stderr stream), (complete_lines _); cbn [fst]; rewrite app_nil_r;
      [apply (Hl true)|apply (Hl false)].
Qed.

Lemma of_stream_cleaned err rs : Forall named rs → of_stream err (cleaned <$> rs) = cleaned <$> of_stream err rs.
Proof using Type.
  induction 1 as [|r rs [e He] _ IH]; [done|]. cbn [fmap list_fmap]. unfold of_stream in *. rewrite !filter_cons.
  assert (Hs : ll_Stream (cleaned r) = ll_Stream r) by (unfold cleaned; cbn; rewrite He; by destruct e).
  destruct (decide (ll_Stream r = stream_name err)) as [E|E].
  - rewrite decide_True by (by rewrite Hs). cbn [fmap list_fmap]. by rewrite IH.
  - rewrite decide_False by (by rewrite Hs). apply IH.
Qed.

(** The rows and sequence numbers of the chunks do not collide with what is stored. *)
Definition unclaimed (ls : LogStreamer) (db : DB) (arrivals : list (Chunk * Z)) : Prop :=
  NoDup arrivals.*2 ∧ Forall (λ a, Forall (λ l, log_ID l ≠ a.2) (db_logs db)) arrivals ∧
  Forall (λ l, log_JobID l ≠ Some (ls_jobID ls)) (db_logs db).

(** C15. The output of a job arrives, in its first execution. Whatever pieces it is
    written in, whenever chunks are flushed, and in whatever order they reach the server,
    each is stored; the log read back from the server has, on each stream, exactly the
    lines that were written (in UTF-8, without empty lines and trailing carriage returns).
    This takes that no frame has 256 KiB or more (long_line_hides_chunk), that the node
    drops no chunk for its size and there are fewer than 2^31 of them, that every upload
    arrives and no statement fails, and that the job has no stored logs yet. Under the
    same conditions every chunk of a job whose run has been resumed is refused with 400
    and nothing is stored. *)
Theorem log_lines_arrive runID jobID resume nodeID env db blobs ops arrivals :
  let ls := NewLogStreamer runID jobID resume in
  in_int64 resume = true → known_job ls nodeID db →
  Forall (λ o, ¬ dropped o) (ls_session ls ops) →
  Forall fits (spec_session [] [] ops) →
  (Z.of_nat (length (sent (ls_session ls ops))) < 2 ^ 31)%Z →
  arrivals.*1 ≡ₚ sent (ls_session ls ops) →
  unclaimed ls db arrivals →
  if decide (resume = 0%Z) then
    ∃ db' blobs' frames,
      deliver ls nodeID env arrivals db blobs = (replicate (length arrivals) 201%Z, (db', blobs')) ∧
      run_op (backfillRunLogs blobs' runID [jobID]) env db' [] = (inr frames, db') ∧
      ∀ err, of_stream err frames = cleaned <$> text_lines (stream_name err) (written err ops)
  else deliver ls nodeID env arrivals db blobs = (replicate (length arrivals) 400%Z, (db, blobs)).
Proof.
  intros ls Hi Hk Hd Hf Hlen Hp (Hq & Hids & Hno).
  assert (Hsound : Forall (λ a, sound_chunk a.1) arrivals).
  { pose proof (session_sound runID jobID resume ops) as Hs. fold ls in Hs. rewrite <-Hp in Hs. exact (proj1 (Forall_fmap _ _ _) Hs). }
  destruct (decide (resume = 0%Z)) as [Hz|Hz]; [|by apply deliver_refused].
  destruct (session_parts runID jobID resume ops Hd) as (parts & Hh & Hn & Hcat). fold ls in Hh, Hn.
  destruct (numbered_ascending _ _ Hn ltac:(lia) ltac:(lia)) as [Ha _].
  destruct (deliver_all ls nodeID env arrivals db blobs Hk Hz Hsound) as (blobs' & Ed & Hin & _).
  { rewrite list_fmap_compose, Hp. clear -Ha. unfold ascending in Ha. induction Ha as [|c cs _ IH Hall]; [constructor|].
    cbn [fmap list_fmap]. constructor; [|done]. intros (c' & E & Hin)%list_elem_of_fmap.
    pose proof (proj1 (Forall_forall _ _) Hall c' Hin) as Hlt. cbn in Hlt, E. lia. }
  { done. }
  { rewrite Forall_forall in Hids |- *. intros a Hain. destruct Hk. split; [by apply Hids|done|by intros j [= <-]|].
    intros _. eapply Forall_impl; [exact Hno|]. intros l Hl (_ & Hj & _). done. }
  exists (set_db_logs (db_logs db ++ (row_of ls env <$> arrivals)) db), blobs',
    (filter (λ l, allowed [ls_jobID ls] l = true)
      (merge_sort by_chunk (filter (λ l, log_RunID l = ls_runID ls) (db_logs db ++ (row_of ls env <$> arrivals)))) ≫= backfillOneChunk blobs').
  split; [exact Ed|]. split; [reflexivity|]. intros err.
  destruct (listed_in_order ls env db arrivals _ Hno Hp Ha) as (pairs & Ecs & Hpp & El).
  rewrite El.
  assert (Hread : (row_of ls env <$> pairs) ≫= backfillOneChunk blobs' = pairs.*1 ≫= chunk_records).
  { assert (Hsub : ∀ a, a ∈ pairs → a ∈ arrivals) by (intros a; by rewrite Hpp). clear -Hin Hsub.
    induction pairs as [|a pairs IH]; [done|]. cbn [fmap list_fmap mbind list_bind]. f_equal.
    - unfold backfillOneChunk. by rewrite Hin by (apply Hsub; left).
    - apply IH. intros a' Ha'. apply Hsub. by right. }
  rewrite Hread, Ecs, (chunks_read _ parts) by (try done; rewrite Hcat; first [apply session_whole|done]).
  rewrite Hcat, of_stream_cleaned by apply spec_session_named. f_equal.
  rewrite session_stream by apply not_elem_of_nil. by destruct err.
Qed.

(** *** Limits *)

(** Identifiers are KSUIDs, whose text has 27 characters. *)
Definition ksuid_text : Prop := ∀ id, ksuid_valid id = true → length (to_bytes id) = 27.

Lemma payload_ids ls c body : ksuid_text → sendChunk_payload ls c = Some body →
  length (to_bytes (trim_space (ls_runID ls))) ≤ 64 ∧ length (to_bytes (trim_space (ls_jobID ls))) ≤ 64.
Proof using Type.
  intros Hk. unfold sendChunk_payload, marshalIDTextValidated. intros Hb.
  destruct (IsEmpty (trim_space (ls_runID ls))); [done|]. destruct (ksuid_valid (trim_space (ls_runID ls))) eqn:Er; [|done].
  cbn [mbind option_bind] in Hb. rewrite (Hk _ Er). split; [lia|]. destruct (IsZero (ls_jobID ls)) eqn:Ez.
  - unfold IsZero, IsEmpty in Ez. apply bool_decide_eq_true in Ez. rewrite Ez. simpl. lia.
  - destruct (IsEmpty (trim_space (ls_jobID ls))); [done|]. destruct (ksuid_valid (trim_space (ls_jobID ls))) eqn:Ej; [|done].
    rewrite (Hk _ Ej). lia.
Qed.

(** The answers of the endpoint to a request it can read. *)
Lemma ingest_codes nodeID bodyLen body seq put blobs env db faults code blobs' frames db' :
  (bodyLen ≤ ingestMaxBodySize)%N →
  (∀ req, dec_strict node_log_fields body (mkNodeLogRequest "" None 0 []) = Some req →
     (N.of_nat (length (nl_Data req)) ≤ ingestMaxDataSize)%N) →
  run_op (createNodeLogsHandler nodeID bodyLen body seq put blobs) env db faults = (inr (code, blobs', frames), db') →
  code ∈ [201; 400; 404; 500]%Z.
Proof.
  intros Hlen Hsize. unfold createNodeLogsHandler. destruct (unmarshalIDTextValidated _ nodeID) as [|id].
  { intros E. injection E as <- <- <- <-. set_solver. }
  replace (ingestMaxBodySize <? bodyLen)%N with false by (symmetry; apply N.ltb_ge; lia).
  destruct (dec_strict node_log_fields body _) as [req|]; [|intros E; injection E as <- <- <- <-; set_solver].
  specialize (Hsize req eq_refl).
  case_match; [intros E; injection E as <- <- <- <-; set_solver|]. case_match; [intros E; injection E as <- <- <- <-; set_solver|].
  replace (ingestMaxDataSize <? N.of_nat (length (nl_Data req)))%N with false by (symmetry; apply N.ltb_ge; lia).
  unfold run_op, mbind, M_bind. unfold getNodeOrFail, attempt, mbind, M_bind.
  destruct (GetNode id (session env db faults)) as [[e|n] t] eqn:En; cbn.
  - destruct (errors_Is e ErrNoRows); intros E; injection E as <- <- <- <-; set_solver.
  - match goal with |- context [persistLog ?a ?b ?c ?d ?e t] => destruct (persistLog a b c d e t) as [[e'|[log bl]] t'] end; cbn;
      intros E; injection E as <- <- <- <-; set_solver.
Qed.

(** C16. Chunks stay within every limit: each chunk a streamer sends has a number of 32
    bits and at most 10 MiB of data, its request is at most 16 MiB, and the server never
    refuses one for its size. *)
Theorem log_chunk_within_limits runID jobID resume ops c body :
  ksuid_text → in_int64 resume = true → c ∈ sent (ls_session (NewLogStreamer runID jobID resume) ops) →
  sendChunk_payload (NewLogStreamer runID jobID resume) c = Some body →
  in_int32 (ck_No c) = true ∧ (N.of_nat (length (ck_Data c)) ≤ ingestMaxDataSize)%N ∧
  (N.of_nat (length (render body)) ≤ ingestMaxBodySize)%N ∧
  ∀ nodeID seq put blobs env db faults code blobs' frames db',
    run_op (createNodeLogsHandler nodeID (N.of_nat (length (render body))) body seq put blobs) env db faults
      = (inr (code, blobs', frames), db') → code ≠ 413%Z.
Proof.
  intros Hk Hr Hc Hb. pose proof (session_sound runID jobID resume ops) as Hs. rewrite Forall_forall in Hs.
  destruct (Hs c Hc) as (Hno & _ & Hsize). destruct (payload_ids _ _ _ Hk Hb) as [Hrun Hjob].
  pose proof (payload_size _ _ _ Hb Hr Hno Hrun Hjob Hsize) as Hbody.
  split; [done|]. split; [exact Hsize|]. split; [done|]. intros nodeID seq put blobs env db faults code blobs' frames db' E.
  assert (Hcode : code ∈ [201; 400; 404; 500]%Z); [|intros ->; by apply (bool_decide_eq_true_2 _) in Hcode].
  eapply ingest_codes; [exact Hbody| |exact E]. intros req Hreq. destruct (decide (resume = 0%Z)) as [Hz|Hz].
  - rewrite (payload_decodes _ _ _ Hb Hz Hno) in Hreq. by injection Hreq as <-.
  - by rewrite (payload_refused _ _ _ Hb Hz) in Hreq.
Qed.

(** *** Where logs are lost *)

(** The logs of a resumed run are lost: a node that executes a job again after a
    restart sends the count of restarts with every chunk, the endpoint does not know the
    field and decodes strictly, so it answers 400 to each of them and stores nothing. *)
Theorem resumed_logs_refused runID jobID resume ops c body nodeID seq put blobs env db faults :
  ksuid_text → resume ≠ 0%Z → in_int64 resume = true →
  c ∈ sent (ls_session (NewLogStreamer runID jobID resume) ops) →
  sendChunk_payload (NewLogStreamer runID jobID resume) c = Some body →
  run_op (createNodeLogsHandler nodeID (N.of_nat (length (render body))) body seq put blobs) env db faults
    = (inr (400%Z, blobs, []), db).
Proof.
  intros Hk Hz Hr Hc Hb. pose proof (session_sound runID jobID resume ops) as Hs. rewrite Forall_forall in Hs.
  destruct (Hs c Hc) as (Hno & _ & Hsize). destruct (payload_ids _ _ _ Hk Hb) as [Hrun Hjob].
  pose proof (payload_size _ _ _ Hb Hr Hno Hrun Hjob Hsize) as Hbody. apply N.ltb_ge in Hbody.
  unfold createNodeLogsHandler. destruct (unmarshalIDTextValidated _ nodeID); [done|].
  by rewrite Hbody, (payload_refused _ _ _ Hb Hz).
Qed.

Definition decode_error : list LogLine := [mkLogLine StreamStderr (to_bytes "[log decode error]")].

Lemma scan_long rs : Exists (λ r, ¬ fits r) rs →
  scan_tokens (((λ r, frame_text (normalizeStream (ll_Stream r)) (ll_Line r)) <$> rs) ++ [[]]) = None.
Proof using Type.
  induction 1 as [r rs Hr|r rs _ IH]; cbn [fmap list_fmap app scan_tokens].
  - destruct (frame_text _ _) as [|x f] eqn:E; [by destruct (frame_tight (normalizeStream (ll_Stream r)) (ll_Line r)) as [? ?]; simplify_eq|].
    unfold fits in Hr. rewrite E in Hr. rewrite (proj2 (N.ltb_ge _ _)) by lia. done.
  - destruct (frame_text _ _) as [|x f] eqn:E; [by destruct (frame_tight (normalizeStream (ll_Stream r)) (ll_Line r)) as [? ?]; simplify_eq|].
    case_match; [|done]. by rewrite IH.
Qed.

(** One line too long hides all: when a line's frame does not fit the reader's
    256 KiB, nothing of its chunk is shown, neither live (one line says there was a
    decode error) nor in the log read back later. *)
Theorem long_line_hides_chunk c rs :
  holds c rs → Exists (λ r, ¬ fits r) rs →
  publishLogToJobStream (ck_Data c) = decode_error ∧ chunk_records c = [].
Proof.
  intros (gz & Hd & Ht) Hl. assert (Hn : DecodeGzip (ck_Data c) = None).
  { unfold DecodeGzip. rewrite Hd, gz_reads, Ht. cbn [mbind option_bind]. unfold scan_lines.
    by rewrite split_frames, scan_long. }
  unfold publishLogToJobStream, chunk_records. by rewrite Hn.
Qed.

(** Output without a line break is reported as an error: when the flush timer
    finds some, an empty chunk goes out, and the server shows a decode error. *)
Theorem partial_line_shows_error runID jobID resume stream p :
  newline_byte ∉ p →
  Forall (λ o, ¬ dropped o) (ls_run (NewLogStreamer runID jobID resume) [LsWrite stream p; LsTick]).2 →
  ∃ c, sent (ls_run (NewLogStreamer runID jobID resume) [LsWrite stream p; LsTick]).2 = [c] ∧
    publishLogToJobStream (ck_Data c) = decode_error.
Proof.
  intros Hp Hd. set (ls := NewLogStreamer runID jobID resume) in *.
  set (ls1 := set_gz [GzFlush] (appendProcessedLocked stream p ls)).
  assert (Hwr : writeStream stream p ls = if (SoftUploadSize <=? buffer_len ls1)%N then flushLocked ls1 else (ls1, Quiet)).
  { unfold writeStream, ls1, appendProcessedLocked. destruct (is_stderr stream); cbn [ls_pendingErr ls_pendingOut ls NewLogStreamer];
      rewrite app_nil_l, complete_free by done; reflexivity. }
  assert (Hls1 : ls_gz ls1 = [GzFlush] ∧ ls_closed ls1 = false ∧ ls_chunkNo ls1 = 0%Z).
  { unfold ls1, appendProcessedLocked. destruct (complete_lines _). by destruct (is_stderr stream). }
  destruct Hls1 as (Hgz & Hcl & Hno).
  assert (Hpos : (0 < buffer_len ls1)%N).
  { unfold buffer_len. rewrite Hgz. pose proof (gz_started [GzFlush] ltac:(done)). destruct (gz_bytes [GzFlush]); [done|simpl; lia]. }
  assert (Hfl : ¬ dropped (flushLocked ls1).2 → ∃ ls2, ls_gz ls2 = [] ∧
    flushLocked ls1 = (ls2, Sent (mkChunk 0 (gz_close [GzFlush])))).
  { unfold flushLocked. rewrite (proj2 (N.eqb_neq _ _)) by lia. rewrite Hgz.
    destruct (MaxUploadSize <? N.of_nat (length (gz_close [GzFlush])))%N; [intros Hx; by destruct Hx|].
    intros _. rewrite Hcl, Hno. eexists. split; [|reflexivity]. done. }
  assert (Hshow : publishLogToJobStream (gz_close [GzFlush]) = decode_error).
  { unfold publishLogToJobStream. by rewrite (decode_chunk [GzFlush] []) by done. }
  exists (mkChunk 0 (gz_close [GzFlush])). split; [|exact Hshow].
  cbn [ls_run ls_step] in *. rewrite Hwr in *. destruct (SoftUploadSize <=? buffer_len ls1)%N.
  - destruct (flushLocked ls1) as [ls2 oc] eqn:Ef. cbn in Hd.
    assert (Hnd : ¬ dropped oc) by (destruct (periodicFlush ls2); cbn in Hd; by inversion Hd).
    destruct (Hfl Hnd) as (ls2' & Hg2 & E2). injection E2 as -> ->.
    unfold periodicFlush, buffer_len. rewrite Hg2, gz_fresh. reflexivity.
  - unfold periodicFlush in *. rewrite (proj2 (N.ltb_lt _ _)) in * by exact Hpos.
    destruct (flushLocked ls1) as [ls2 oc] eqn:Ef. cbn in Hd.
    assert (Hnd : ¬ dropped oc) by (apply Forall_cons in Hd as [_ Hd]; by apply Forall_cons in Hd as [Hd _]).
    destruct (Hfl Hnd) as (ls2' & Hg2 & E2). injection E2 as -> ->. reflexivity.
Qed.

End Logs.

(** ** Samples *)

(** A compressor that keeps its text. *)
#[export] Instance stored_gzip : GzipLib := {
  gz_bytes := λ ops, match ops with [] => [] | _ => b 31 :: gz_text ops end;
  gz_close := λ ops, b 31 :: gz_text ops;
  gunzip := λ l, match l with [] => None | _ :: t => Some t end
}.

#[export] Instance stored_laws : GzipLaws.
Proof. split; [done|by intros [|]|done|done]. Qed.

Definition a_session : list LsOp :=
  [LsWrite "stdout" (to_bytes "one" ++ [newline_byte] ++ to_bytes "tw"); LsTick;
   LsWrite "stderr" (to_bytes "oops" ++ [cr; newline_byte]);
   LsWrite "stdout" (to_bytes "o" ++ [newline_byte; newline_byte] ++ to_bytes "three")].

Definition a_streamer : LogStreamer := NewLogStreamer "run1" "job1" 0.
Definition its_chunks : list Chunk := sent (ls_session a_streamer a_session).

(** The second chunk arrives first. *)
Definition swapped : list (Chunk * Z) := zip (reverse its_chunks) [7; 8]%Z.

#[local] Instance dropped_dec o : Decision (dropped o).
Proof. destruct o; simpl; apply _. Defined.

#[local] Instance fits_dec r : Decision (fits r).
Proof. unfold fits. apply _. Defined.

Lemma log_lines_arrive_witness :
  (∃ db' blobs' frames,
    deliver a_streamer "n1" (env_at 50) swapped claimed ∅ = ([201; 201]%Z, (db', blobs')) ∧
    run_op (backfillRunLogs blobs' "run1" ["job1"]) (env_at 50) db' [] = (inr frames, db') ∧
    of_stream false frames = mkLogLine "stdout" <$> [to_bytes "one"; to_bytes "two"; to_bytes "three"]) ∧
  deliver (NewLogStreamer "run1" "job1" 1) "n1" (env_at 50) swapped claimed ∅ = ([400; 400]%Z, (claimed, ∅)).
Proof.
  assert (Hl : ∀ resume, sent (ls_session (NewLogStreamer "run1" "job1" resume) a_session) = its_chunks) by (intros; vm_compute; reflexivity).
  assert (Hp : swapped.*1 ≡ₚ its_chunks)
    by (replace (swapped.*1) with (reverse its_chunks) by (vm_compute; reflexivity); apply reverse_Permutation).
  split.
  - destruct (log_lines_arrive "run1" "job1" 0 "n1" (env_at 50) claimed ∅ a_session swapped) as (db' & blobs' & frames & Ed & Er & Hs).
    + reflexivity.
    + split; try reflexivity; [apply (bool_decide_eq_true_1 _); vm_compute; reflexivity..|split; vm_compute; lia].
    + apply (bool_decide_eq_true_1 _). vm_compute. reflexivity.
    + apply (bool_decide_eq_true_1 _). vm_compute. reflexivity.
    + vm_compute. reflexivity.
    + cbv zeta. rewrite (Hl 0%Z). exact Hp.
    + split; [|split]; apply (bool_decide_eq_true_1 _); vm_compute; reflexivity.
    + exists db', blobs', frames. split; [exact Ed|]. split; [exact Er|]. rewrite (Hs false). vm_compute. reflexivity.
  - apply (log_lines_arrive "run1" "job1" 1 "n1" (env_at 50) claimed ∅ a_session swapped).
    + reflexivity.
    + split; try reflexivity; [apply (bool_decide_eq_true_1 _); vm_compute; reflexivity..|split; vm_compute; lia].
    + apply (bool_decide_eq_true_1 _). vm_compute. reflexivity.
    + apply (bool_decide_eq_true_1 _). vm_compute. reflexivity.
    + vm_compute. reflexivity.
    + cbv zeta. rewrite (Hl 1%Z). exact Hp.
    + split; [|split]; apply (bool_decide_eq_true_1 _); vm_compute; reflexivity.
Defined.

(** Identifiers of 27 characters. *)
#[local] Instance text_lib : SpecLib := {
  schema_valid := λ _, true; ksuid_valid := λ s, Nat.eqb (length (to_bytes s)) 27
}.

Lemma text_lib_text : ksuid_text.
Proof. intros id. apply Nat.eqb_eq. Qed.

Definition an_id : string := "2NxBbhyTgxoyxTUNPOCDKNcqXTd".

Lemma log_chunk_within_limits_witness :
  ∃ c body, sendChunk_payload (NewLogStreamer an_id an_id 3) c = Some body ∧ ck_No c = 1%Z ∧
    (N.of_nat (length (render body)) ≤ ingestMaxBodySize)%N.
Proof.
  set (ls := NewLogStreamer an_id an_id 3).
  destruct (sent (ls_session ls a_session)) as [|c0 [|c cs]] eqn:E; [vm_compute in E; discriminate..|].
  destruct (sendChunk_payload ls c) as [body|] eqn:Eb; [|vm_compute in E; injection E as <- <- <-; vm_compute in Eb; discriminate].
  destruct (log_chunk_within_limits an_id an_id 3 a_session c body text_lib_text) as (_ & _ & Hb & _).
  - reflexivity.
  - unfold ls in E. rewrite E. right. left.
  - exact Eb.
  - exists c, body. split; [exact Eb|]. split; [|exact Hb]. vm_compute in E. injection E as _ <- _. reflexivity.
Defined.

Lemma resumed_logs_refused_witness :
  ∃ c body, sendChunk_payload (NewLogStreamer an_id an_id 1) c = Some body ∧
    run_op (createNodeLogsHandler "n1" (N.of_nat (length (render body))) body 7 true ∅) (env_at 50) claimed []
    = (inr (400%Z, ∅, []), claimed).
Proof.
  set (ls := NewLogStreamer an_id an_id 1).
  destruct (sent (ls_session ls a_session)) as [|c cs] eqn:E; [vm_compute in E; discriminate|].
  destruct (sendChunk_payload ls c) as [body|] eqn:Eb; [|vm_compute in E; injection E as <- <-; vm_compute in Eb; discriminate].
  exists c, body. split; [exact Eb|].
  apply (resumed_logs_refused an_id an_id 1 a_session c body "n1" 7 true ∅ (env_at 50) claimed [] text_lib_text).
  - done.
  - reflexivity.
  - unfold ls in E. rewrite E. left.
  - exact Eb.
Defined.

(** A line of 256 KiB between two short ones. *)
Definition a_long_line : bytes := concat (replicate 512 (replicate 512 "x"%char)).
Definition long_records : list LogLine := mkLogLine StreamStdout <$> [to_bytes "before"; a_long_line; to_bytes "after"].
Definition a_long_chunk : Chunk := mkChunk 0 (gz_close (write_records long_records)).

Lemma long_line_unfit : ¬ fits (mkLogLine StreamStdout a_long_line).
Proof.
  assert (Hl : length a_long_line = 512 * 512).
  { unfold a_long_line. rewrite length_concat, fmap_replicate, length_replicate.
    assert (Hsum : ∀ n k, sum_list (replicate n k) = n * k) by (intros n k; induction n as [|n IH]; [done|cbn; lia]). apply Hsum. }
  unfold fits, frame_text. cbn [ll_Line ll_Stream]. rewrite quote_plain with (l := a_long_line).
  - rewrite !length_app, Hl. unfold maxFrameLineBytes. lia.
  - unfold a_long_line. apply Forall_concat, Forall_replicate, Forall_replicate. split; reflexivity.
Qed.

Lemma long_line_hides_chunk_witness : publishLogToJobStream (ck_Data a_long_chunk) = decode_error ∧ chunk_records a_long_chunk = [].
Proof.
  apply (long_line_hides_chunk a_long_chunk long_records).
  - exists (write_records long_records). split; [reflexivity|apply gz_text_records].
  - apply Exists_cons_tl, Exists_cons_hd. apply long_line_unfit.
Defined.

Lemma partial_line_shows_error_witness :
  ∃ c, sent (ls_run a_streamer [LsWrite "stdout" (to_bytes "50%"); LsTick]).2 = [c] ∧
    publishLogToJobStream (ck_Data c) = decode_error.
Proof.
  apply (partial_line_shows_error "run1" "job1" 0 "stdout" (to_bytes "50%")).
  - apply (bool_decide_eq_true_1 _). vm_compute. reflexivity.
  - apply (bool_decide_eq_true_1 _). vm_compute. reflexivity.
Defined.
