(* ===== verification/NodeProps.v ===== *)
(** * Properties of nodes *)

From stdpp Require Import base gmap sets list sorting pretty strings.
From S2P Require Import Prelude GoStrings Types Json JobMeta JobMetaCodec Db Tx Queries Lifecycle Tokens Store Recovery.
From S2P Require Import Completion Chains Invariant ClaimSafety WaveStatus CompletionSafety CompletionService.
From S2P Require Import Machine SseClient NodeReport GateSafety Sample.
From S2P Require Import Hydra Spec Plan Claim NodeClaim NodeSlots.
From Stdlib Require Import ZArith Lia.
Local Open Scope list_scope.

Section Reports.
Context `{Collation} `{GoFmt}.

(** C7. A report counts once. However often it is sent, whichever requests or answers
    are lost and whichever statements of the server fail, the report is applied exactly
    as one accepted completion of the job, or not at all. *)
Theorem report_applied_once mode jobID header req ds db reg :
  wf db → countable_runs db → Forall unlocked ds →
  let '(_, (db', _)) := uploadJobStatus mode jobID header req ds (db, reg) in
  db' = db ∨ applied jobID header req db db'.
Proof.
  intros Hwf Hc Hds. unfold uploadJobStatus, postJSONWithRetry.
  pose proof (retries_once jobID header req StatusUploaderPolicy mode ds 1 (db, reg) db) as Hr.
  destruct (RunWithBackoff _ _ _ _ _) as [ok [db' reg']]. cbn [fst snd] in Hr.
  destruct Hr as (_ & _ & [->|[Ha _]]); [split; [done|]; split; [done|by left]|done|by left|by right].
Qed.

(** C8. A node's report gets through exactly when the server can take it. The report of
    an execution (of a migration step, of a gate, or of one that failed before its
    container ran) that reaches the server at the latest in the fourth attempt, while
    nothing fails there, is accepted and recorded if its body has at most a mebibyte and
    the metadata of a gate validates; otherwise the upload fails and nothing has changed,
    and the job stays running. Reports about containers that a restarted node recovers
    are not covered (recovered_success_refused); gate output that makes the difference is
    the subject of unreportable_gate_failure. The job runs on that node in the run's
    current resume count, its input commit is a full one, and the clock has not gone back. *)
Theorem node_report_delivered mode resume meta req jobID header node db reg lost x job run :
  wf db → countable_runs db → node_report resume meta req → in_int64 resume = true → (0 ≤ resume)%Z →
  parseNodeUUIDHeader header = Some node →
  db_jobs db !! jobID = Some job → db_runs db !! job_RunID job = Some run →
  job_Status job = JobStatusRunning → job_NodeID job = Some node → ResumeCount (run_Stats run) = resume →
  (∀ st, job_StartedAt job = Some st → (st ≤ env_now (ex_Env x))%Z) →
  (has_next job = true → IsCanonicalFullCommitSHA (job_RepoShaIn job) = true) →
  (lost ≤ 3)%nat → ex_Faults x = [] → env_locked (ex_Env x) = ∅ →
  let outcome := uploadJobStatus mode jobID header req (replicate lost NotArrived ++ [Answered x]) (db, reg) in
  if (body_size req <=? DefaultMaxBodySize)%N && meta_accepted meta
  then ∃ db' reg', outcome = (true, (db', reg')) ∧ applied jobID header req db db' ∧ over jobID db'
  else outcome = (false, (db, reg)).
Proof.
  intros Hwf Hc Hrep Hi Hp Hh Hj Hr Hs Hn Hrc Hclock Hin Hlost Hx Hl outcome.
  destruct (N.leb_spec (body_size req) DefaultMaxBodySize) as [Hsize|Hsize]; cbn [andb];
    [|apply invalid_refused; by left].
  destruct (meta_accepted meta) eqn:Hmeta; [|apply invalid_refused; right; by eapply unaccepted_refused].
  destruct (sound_validates resume req jobID header node (node_report_sound _ _ _ Hrep Hmeta) Hi Hp Hh) as (input & Hv & Hid & Hnode & Hres & Hsha).
  destruct (validate_valid _ _ _ _ Hv) as (_ & _ & Hval).
  destruct (total_run_op (ex_Env x) (Complete (ex_Events x) reg input) (λ d, d = db) (λ _ _, True) db) as (reg' & db' & E & _);
    [|done|].
  { eapply (Complete_total (ex_Env x) db Hwf input Hval job run); rewrite ?Hid, ?Hnode, ?Hres; try done.
    intros Hsucc Hnext. split; [by apply Hin|]. unfold effective_sha. rewrite decide_True by done.
    specialize (Hsha Hsucc). rewrite canonical_normalize by done. pose proof (canonical_nonempty _ Hsha).
    rewrite decide_False by (by intros []). done. }
  assert (Hserve : serve_complete jobID header req x (db, reg) = (204%Z, (db', reg'))).
  { unfold serve_complete, completeJobHandler. rewrite (proj2 (N.ltb_ge _ _) Hsize). cbn [fst snd]. rewrite Hx, Hv. unfold run_op, mbind, M_bind, attempt in *.
    destruct (Complete (ex_Events x) reg input _) as [[e|r] t]; [discriminate E|]. by injection E as -> <-. }
  assert (Ha : applied jobID header req db db') by (exists input, x, reg, reg'; by rewrite Hx).
  destruct (applied_over jobID header req db db' Hwf Hc Ha) as (_ & _ & Ho).
  exists db', reg'. split; [|done]. unfold outcome, uploadJobStatus, postJSONWithRetry.
  destruct lost as [|[|[|[|?]]]]; [..|lia]; cbn; by rewrite Hserve.
Qed.

(** *** A success is lost in a crash *)

(** A session on which nothing fails. *)
Definition calm_tx (env : Env) (db : DB) : Tx := mkTx env db true false [] [].

(** A completion that is refused in its transaction. *)
Lemma execution_refused {A} env db jobID rc (f : Job → M A) job run e :
  db_jobs db !! jobID = Some job → db_runs db !! job_RunID job = Some run → job_Attempt job = run_Attempt run →
  ResumeCount (run_Stats run) = rc → f job = throw e →
  WithJobExecution jobID rc f (session env db []) = (inl e, session env db []).
Proof using Type.
  intros Hj Hr Hatt Hrc Hf.
  assert (Hget : GetJob jobID (calm_tx env db) = (inr job, calm_tx env db)).
  { unfold GetJob, query_one, calm_tx, stmt, mbind, M_bind. cbn. by rewrite Hj. }
  assert (Hrun : GetRun (job_RunID job) (calm_tx env db) = (inr run, calm_tx env db)).
  { unfold GetRun, query_one, calm_tx, stmt, mbind, M_bind. cbn. by rewrite Hr. }
  assert (Hq : query (λ db0, db_runs db0 !! job_RunID job) (calm_tx env db) = (inr (Some run), calm_tx env db)).
  { unfold query, stmt, calm_tx. cbn. by rewrite Hr. }
  unfold WithJobExecution, transaction. cbn [session tx_faults head tail tx_env tx_db tx_in tx_aborted].
  fold (calm_tx env db). rewrite (bind_run _ _ _ _ _ Hget), (bind_run _ _ _ _ _ Hq), (bind_run _ _ _ _ _ Hrun).
  rewrite !bool_decide_eq_true_2 by done. cbn [negb orb]. rewrite (bind_run _ _ _ _ _ Hget), Hf. done.
Qed.

(** The server's answer to a report without a commit, for a job that needs one. *)
Lemma no_commit_refused x jobID header reg db req input job run :
  validateCompletionRequest jobID header req = inr input → ci_Status input = JobStatusSuccess → ci_RepoSHAOut input = "" →
  db_jobs db !! jobID = Some job → db_runs db !! job_RunID job = Some run → job_Attempt job = run_Attempt run →
  job_Status job = JobStatusRunning → job_NodeID job = Some (ci_NodeID input) →
  ResumeCount (run_Stats run) = jsp_ResumeCount (ci_StatsPayload input) →
  job_JobType job = JobTypeMig → has_next job = true → IsCanonicalFullCommitSHA (job_RepoShaIn job) = true →
  ex_Faults x = [] → ∃ code, (code = 400 ∨ code = 413)%Z ∧ serve_complete jobID header req x (db, reg) = (code, (db, reg)).
Proof using Type.
  intros Hv Hsucc Hsha Hj Hr Hatt Hs Hn Hrc Ht Hnext Hin Hx. destruct (validate_valid _ _ _ _ Hv) as (Hid & _ & _).
  assert (Hf : complete (ex_Events x) input job = throw (completeBadRequest "repo_sha_out is required for successful jobs with next_id")).
  { unfold complete, effective_sha. rewrite !bool_decide_eq_true_2 by done. by rewrite Hin, Hnext, Hsucc, Hsha, Ht. }
  pose proof (execution_refused (ex_Env x) db jobID _ (complete (ex_Events x) input) job run _ Hj Hr Hatt Hrc Hf) as E.
  unfold serve_complete. destruct (_ <? _)%N; [exists 413%Z; auto|exists 400%Z; split; [auto|]].
  unfold completeJobHandler, run_op. cbn [fst snd]. rewrite Hx, Hv.
  unfold mbind, M_bind, attempt, Complete, mbind, M_bind, attempt. rewrite Hid, E. reflexivity.
Qed.

(** A crash loses a success. A node that restarts reports a migration step that went
    on and succeeded in the meantime without the commit it produced; the server requires
    one when another job follows, and refuses the report for good: the upload fails and
    the job stays [Running], although the node is alive and keeps it from being recovered. *)
Theorem recovered_success_refused containerID t resume req jobID header node db reg ds job run :
  wf db → rt_ExitCode t = 0%Z → uploadRecoveredTerminalStatus containerID t resume = Some req →
  in_int64 resume = true → (0 ≤ resume)%Z →
  (∀ s f, rt_StartedAt t = Some s → rt_FinishedAt t = Some f → in_int64 (f - s) = true) →
  parseNodeUUIDHeader header = Some node →
  db_jobs db !! jobID = Some job → db_runs db !! job_RunID job = Some run →
  job_Status job = JobStatusRunning → job_NodeID job = Some node → ResumeCount (run_Stats run) = resume →
  job_JobType job = JobTypeMig → has_next job = true → IsCanonicalFullCommitSHA (job_RepoShaIn job) = true →
  Forall (λ d, match d with NotArrived => True | Unanswered x | Answered x => ex_Faults x = [] end) ds →
  uploadJobStatus postJSONRetryModeStartupReconcile jobID header req ds (db, reg) = (false, (db, reg)).
Proof.
  intros Hwf Hexit Hreq Hi Hp Hdur Hh Hj Hr Hs Hn Hrc Ht Hnext Hin Hds.
  assert (Hatt : job_Attempt job = run_Attempt run) by (eapply active_job_live; [done|exact Hj|by rewrite Hs|done]).
  assert (Hx : ∀ x, ex_Faults x = [] → ∃ code, (code = 400 ∨ code = 413)%Z ∧ serve_complete jobID header req x (db, reg) = (code, (db, reg))).
  { intros x Hx. unfold uploadRecoveredTerminalStatus in Hreq. rewrite Hexit in Hreq.
    change (safeExitCodeInt32 0) with (Some 0%Z) in Hreq. cbn [mbind option_bind] in Hreq.
    set (s := mkRunStatsBuilder (Some 0%Z) _ _ _ _ _ _ _ _) in Hreq.
    assert (Hst : stats_ok s).
    { split; [|by cbn; destruct (0 <? resume)%Z|done..]. cbn. destruct (rt_StartedAt t), (rt_FinishedAt t); try done.
      case_match; [by apply Hdur|done]. }
    assert (Hrs : default 0%Z (rs_ResumeCount s) = resume).
    { cbn. destruct (0 <? resume)%Z eqn:E; [done|]. apply Z.ltb_ge in E. cbn. lia. }
    assert (Hreq' : buildJobStatusPayload (JobStatus_String JobStatusSuccess) (Some 0%Z) (MustBuild s) "" = req) by (by injection Hreq).
    pose proof (payload_validates jobID header node JobStatusSuccess (Some 0%Z) (MustBuild s) _ "" eq_refl (stats_read s Hst)
      (or_introl eq_refl) Hh) as Hv. rewrite Hreq' in Hv.
    eapply (no_commit_refused x jobID header reg db req _ job run Hv eq_refl eq_refl Hj Hr Hatt Hs); try done.
    change (ResumeCount (run_Stats run) = default 0%Z (rs_ResumeCount s)). congruence. }
  unfold uploadJobStatus, postJSONWithRetry. generalize 1%Z. induction Hds as [|d ds Hd _ IH]; intros attempt; [done|].
  cbn [RunWithBackoff]. destruct d as [|x|x]; cbn [post_once]; [|destruct (Hx x Hd) as (code & Hc & ->)..].
  - destruct (_ && _); [done|apply IH].
  - destruct (_ && _); [done|apply IH].
  - by destruct Hc as [-> | ->].
Qed.

End Reports.

(** ** Slots *)

Definition anything (h : Happening) : Prop := True.

(** C21. Slots are exact: whatever happens to a node, the permits taken are those of the
    threads that hold one, never more than the configured concurrency (at least 1, at
    most 64), so no more jobs than that execute at a time; and a thread that gives a
    permit back never blocks. *)
Theorem node_slots_exact concurrency a :
  agent_reachable anything concurrency a →
  (1 ≤ slot_capacity concurrency ≤ 64)%nat ∧ (total executing a ≤ total permits a ≤ slot_capacity concurrency)%nat ∧
  (∀ cap len, ag_sem a = Some (cap, len) → cap = slot_capacity concurrency ∧ len = total permits a) ∧
  (∀ t n, ag_threads a !! t = Some (Returning n) → is_Some (thread_step t Proceed a)).
Proof.
  intros Hr. pose proof (agent_reachable_inv _ _ _ Hr) as [Hc Hs _ _ _ _].
  assert (Hcap : (1 ≤ slot_capacity concurrency ≤ 64)%nat) by (unfold slot_capacity, MaxConcurrency; lia).
  split; [done|]. split; [|split].
  - split; [apply sum_le, executing_permits|]. destruct (ag_sem a) as [[cap len]|]; lia.
  - intros cap len E. rewrite E in Hs. by destruct Hs as (? & ? & _).
  - intros t n Ht. pose proof (sum_elem permits _ _ _ Ht : (permits (Returning n) ≤ total permits a)%nat) as Hle. cbn in Hle.
    unfold thread_step. rewrite Ht. cbn. unfold sem_receive.
    destruct (ag_sem a) as [[cap [|len]]|]; [lia| |lia]. by eexists.
Qed.

(** C20. Deleting and executing exclude each other. While the host is in maintenance no
    job executes and no directory is swept away; while a sweep deletes directories no
    job executes, and none can start. *)
Theorem node_locks_exclude concurrency a t p :
  agent_reachable anything concurrency a → ag_threads a !! t = Some p →
  (ag_exclusive a = true → exec_of p = None ∧ ¬ deleting p) ∧
  (∀ t' p', ag_threads a !! t' = Some p' → deleting p' →
     exec_of p = None ∧ (∀ k req, p = Starting k req → thread_step t Proceed a = None)).
Proof.
  intros Hr Ht. pose proof (agent_reachable_inv _ _ _ Hr) as [_ _ Hsh Hex Hmu Hsw]. split.
  - intros He. specialize (Hex He). pose proof (sum_elem locks _ _ _ Ht : (locks p ≤ total locks a)%nat) as Hle.
    rewrite <-Hsh, Hex in Hle. destruct p; cbn in *; (split; [done|by intros []]) || lia.
  - intros t' p' Ht' Hd. specialize (Hmu t' p' Ht' Hd). split.
    + destruct (exec_of p) as [x|] eqn:Ex; [|done]. exfalso. eapply (executing_none a t p x); [|done|done].
      apply Hsw. by rewrite Hmu.
    + intros k req ->. unfold thread_step. rewrite Ht. cbn. unfold free_mu. by rewrite Hmu.
Qed.

(** C19. One execution per job, with its directories: unless a run is stopped over HTTP,
    the controller's table has exactly the executions under way, no job is executed
    twice at a time, and an execution has its directories while it works. *)
Theorem one_execution_per_job concurrency a :
  agent_reachable no_stop concurrency a →
  (∀ j, is_Some (ag_jobs a !! j) ↔ ∃ t p x, ag_threads a !! t = Some p ∧ exec_of p = Some x ∧ job_of x = j) ∧
  (∀ t t' p p' x x', ag_threads a !! t = Some p → ag_threads a !! t' = Some p' → exec_of p = Some x → exec_of p' = Some x' →
     job_of x = job_of x' → t = t') ∧
  (∀ t x, ag_threads a !! t = Some (Working x) → job_dir x ∈ ag_dirs a).
Proof.
  intros Hr. destruct (agent_reachable_jobs _ _ Hr) as [He Ht Ho Hd]. split; [|done]. intros j. split.
  - intros [jc Hj]. by eapply Ht.
  - intros (t & p & x & Hl & Hx & <-). eexists. by eapply He.
Qed.

(** A job started by a request does not live: once the handler has answered, the
    context its execution works in is cancelled. *)
Theorem requested_job_cancelled concurrency a t p x :
  agent_reachable anything concurrency a → ag_threads a !! t = Some p → exec_of p = Some x →
  ex_Parent x ≠ 0 → (∀ t' req, ag_threads a !! t' ≠ Some (Returned (ForRequest req (ex_Parent x)))) →
  ctx_done a x.
Proof.
  intros Hr Ht Hx Hne Hno. destruct (agent_reachable_requests _ _ _ Hr t p x Ht Hx Hne) as [Hin|(t' & req & Hl)].
  - by right.
  - by destruct (Hno t' req).
Qed.

(** ** Claims *)

Section Claims.
Context `{GoFmt} `{SpecLib}.

(** Chaining stack gates is exact. It fails if and only if two successive steps state
    contradictory expectations; otherwise a step changes at most by taking over the outbound
    gate of the step before as its inbound gate, every enabled outbound gate is what the next
    step expects, and chaining again changes nothing. *)
Theorem chaining_exact steps :
  match validateAndDeriveStackGateChaining steps with
  | None => ∃ i x y, steps !! i = Some x ∧ steps !! S i = Some y ∧ gates_conflict x y = true
  | Some l => (∀ i x y, steps !! i = Some x → steps !! S i = Some y → gates_conflict x y = false) ∧
      (∀ i x y, l !! i = Some x → l !! S i = Some y → agree x y) ∧
      Forall2 (λ s s', ∃ q, derived q s s') steps l ∧ validateAndDeriveStackGateChaining l = Some l
  end.
Proof using Type.
  pose proof (chaining_spec steps) as Hs. by destruct (validateAndDeriveStackGateChaining steps).
Qed.

(** The request a claim leads to. *)
Lemma claim_starts url claim spec req :
  ParseMigSpecJSON (RawJson (ncr_Spec claim)) = inr spec → claimAndExecute url (ClaimStatus 200 (Some claim)) = StartJob req →
  ∃ l, validateAndDeriveStackGateChaining (spec_Steps spec) = Some l ∧ sr_MigSpec req = Some (set_steps l spec) ∧
    sr_MigContext req = ncr_MigContext claim.
Proof using Type.
  intros Hp. unfold claimAndExecute. rewrite decide_False by done. rewrite decide_False by tauto. unfold parseSpec. rewrite Hp.
  destruct (validateAndDeriveStackGateChaining (spec_Steps spec)) as [l|]; [|done]. cbn. intros [= <-]. by exists l.
Qed.

(** The migration jobs of a plan. *)
Lemma mig_plan j spec plans k p :
  ParseMigSpecJSON (RawJson j) = inr spec → planJobsFromSpec j = Some plans → plans !! k = Some p → jp_JobType p = JobTypeMig →
  ∃ i s meta d, spec_Steps spec !! i = Some s ∧ jp_Name p = "mig-" +:+ pretty i ∧ jp_JobImage p = step_image s ∧
    drafts spec !! k = Some d ∧ dr_stepIndex d = Some (Z.of_nat i) ∧
    jp_Meta p = RawJson meta ∧ MarshalJobMeta (draft_meta d) = Some meta.
Proof using Type.
  intros Hp Hpl Hk Ht. destruct (plan_spec j spec Hp) as (plans' & Hpl' & Hf). rewrite Hpl in Hpl'. injection Hpl' as <-.
  destruct (Forall2_lookup_r _ _ _ _ _ Hf Hk) as (d & Hd & Hpd). unfold plan_draft in Hpd.
  destruct (MarshalJobMeta (draft_meta d)) as [meta|] eqn:Em; [|discriminate Hpd]. injection Hpd as <-. cbn [jp_JobType] in Ht.
  assert (Hs : spec_Steps spec ≠ []) by exact (proj1 (parsed_ok _ _ Hp)).
  assert (Hg : ∀ g : Draft, d ∈ (if buildGateDisabled spec then [] else [g]) → d = g)
    by (intros g; destruct (buildGateDisabled spec); [by intros ?%not_elem_of_nil|by intros ?%list_elem_of_singleton]).
  pose proof (list_elem_of_lookup_2 _ _ _ Hd) as Hin. unfold drafts in Hin. rewrite !elem_of_app in Hin.
  clear Hp Hpl Hf. destruct Hin as [Hin|[Hin|Hin]].
  1,3: apply Hg in Hin as ->; discriminate Ht.
  destruct (decide (1 < length (spec_Steps spec))%nat) as [Hl|Hl].
  - apply list_elem_of_lookup in Hin as [i Hi]. rewrite list_lookup_imap in Hi.
    destruct (spec_Steps spec !! i) as [s|] eqn:Es; [|done]. injection Hi as <-. exists i, s, meta, (mig_draft i s). split_and!; first [reflexivity|assumption].
  - destruct (spec_Steps spec) as [|s [|s' l]] eqn:Es; [done| |cbn in Hl; lia].
    apply list_elem_of_singleton in Hin as ->. eexists 0%nat, s, meta, _. split_and!; first [reflexivity|eassumption].
Qed.

(** C22. A node runs the step the job was planned for: the migration job planned for the
    i-th step of a spec is named after it and has its image, and the node that claims the
    job picks the i-th step of the spec it is sent. *)
Theorem planned_step_executed j spec plans k p job url claim spec' req :
  ParseMigSpecJSON (RawJson j) = inr spec → (Z.of_nat (length (spec_Steps spec)) ≤ max_int64)%Z →
  planJobsFromSpec j = Some plans → plans !! k = Some p → jp_JobType p = JobTypeMig →
  job_JobType job = jp_JobType p → RawJson (job_Meta job) = jp_Meta p → ncr_MigContext claim = mig_context job →
  ParseMigSpecJSON (RawJson (ncr_Spec claim)) = inr spec' → length (spec_Steps spec') = length (spec_Steps spec) →
  claimAndExecute url (ClaimStatus 200 (Some claim)) = StartJob req →
  ∃ i s, spec_Steps spec !! i = Some s ∧ jp_Name p = "mig-" +:+ pretty i ∧ jp_JobImage p = step_image s ∧
    mig_step_index req = Some (Z.of_nat i).
Proof using Type.
  intros Hp Hl Hpl Hk Ht Hjt Hjm Hctx Hp' Hlen Hreq.
  destruct (mig_plan j spec plans k p Hp Hpl Hk Ht) as (i & s & meta & d & Hs & Hn & Him & Hd & Hi & Hm & Em).
  exists i, s. split_and!; [done..|]. destruct (claim_starts _ _ _ _ Hp' Hreq) as (l & Hch & Hspec & Hmc).
  pose proof (chaining_spec (spec_Steps spec')) as Hc. rewrite Hch in Hc. destruct Hc as (_ & _ & Hf & _). apply Forall2_length in Hf.
  unfold mig_step_index. rewrite Hspec, Hmc, Hctx. cbn [set_steps spec_Steps]. rewrite <-Hf, Hlen.
  assert (Hu : UnmarshalJobMeta (job_Meta job) = Some (clean_meta (draft_meta d))).
  { rewrite Hm in Hjm. injection Hjm as ->. eapply draft_meta_roundtrip; [|by eapply drafts_index|exact Em].
    pose proof (drafts_ok spec) as Hok. rewrite Forall_lookup in Hok. by eapply Hok. }
  unfold mig_context. rewrite Hjt, Ht, Hu. apply lookup_lt_Some in Hs. cbn [jmt_MigStepIndex clean_meta draft_meta]. rewrite Hi. cbn [mbind option_bind].
  rewrite decide_False by lia. by rewrite decide_False by lia.
Qed.

(** A contradiction between two steps stalls a run. The server takes such a spec and
    plans its jobs; the node that claims one gives up without starting or reporting it,
    and releases its slot. *)
Theorem contradictory_spec_never_starts url claim spec i x y a t :
  ParseMigSpecJSON (RawJson (ncr_Spec claim)) = inr spec →
  spec_Steps spec !! i = Some x → spec_Steps spec !! S i = Some y → gates_conflict x y = true →
  ag_threads a !! t = Some (HoldingSlot ForClaim) →
  is_Some (planJobsFromSpec (ncr_Spec claim)) ∧
  claimAndExecute url (ClaimStatus 200 (Some claim)) = ClaimFailed true ∧
  thread_step t (Claimed (claimAndExecute url (ClaimStatus 200 (Some claim)))) a = Some (become t (Unlocking ThenEnd) a).
Proof using Type.
  intros Hp Hx Hy Hc Ht. pose proof (chaining_spec (spec_Steps spec)) as Hs.
  assert (Ho : claimAndExecute url (ClaimStatus 200 (Some claim)) = ClaimFailed true).
  { unfold claimAndExecute. rewrite decide_False by done. rewrite decide_False by tauto. unfold parseSpec. rewrite Hp.
    destruct (validateAndDeriveStackGateChaining (spec_Steps spec)) as [l|]; [|done].
    destruct Hs as (Ha & _). specialize (Ha i x y Hx Hy). congruence. }
  split; [destruct (plan_spec _ _ Hp) as (plans & -> & _); eauto|]. split; [done|].
  rewrite Ho. unfold thread_step. by rewrite Ht.
Qed.

End Claims.

(** ** Samples *)

Definition an_exchange (now : Z) : Exchange := mkExchange (env_at now) [] false.

(** The first attempt is lost, the answer to the second too, the third gets through. *)
Definition bumpy : list (Delivery Exchange) := [NotArrived; Unanswered (an_exchange 3000); Answered (an_exchange 3001)].

Definition a_gate_meta : json := JObj [("kind", JStr "mig")].

(** A gate that passed. *)
Definition a_gate_report : completeJobRequest := gate_report 0 true (inr sha_a) "" None (Some a_gate_meta) 1500.

Lemma claimed_small : countable_runs claimed.
Proof. by apply small; vm_compute. Qed.

Lemma report_applied_once_witness :
  applied "job0" "n1" a_gate_report claimed
    (uploadJobStatus postJSONRetryModeStartupReconcile "job0" "n1" a_gate_report bumpy (claimed, None)).2.1.
Proof.
  pose proof (report_applied_once postJSONRetryModeStartupReconcile "job0" "n1" a_gate_report bumpy claimed None
    claimed_wf claimed_small) as Hr.
  assert (Hu : Forall unlocked bumpy) by (repeat constructor). specialize (Hr Hu).
  assert (Hs : (job_Status <$> db_jobs (uploadJobStatus postJSONRetryModeStartupReconcile "job0" "n1" a_gate_report bumpy (claimed, None)).2.1 !! "job0")
    = Some JobStatusSuccess) by (vm_compute; reflexivity).
  destruct (uploadJobStatus _ _ _ _ _ _) as [ok [db' reg']]. cbn [fst snd] in *.
  destruct Hr as [->|Ha]; [vm_compute in Hs; discriminate Hs|exact Ha].
Defined.

(** A failed build whose output was blank: its message does not validate. *)
Definition a_mute_report : completeJobRequest :=
  gate_report 0 false (inr sha_a) "" None (Some (JObj [("kind", JStr "gate"); ("gate", JObj [("log_findings",
    JArr [JObj [("severity", JStr "error"); ("message", JStr " ")]])])])) 1500.

Lemma node_report_delivered_witness :
  (∃ db' reg', uploadJobStatus postJSONRetryModeDefault "job0" "n1" a_gate_report
    (replicate 2 NotArrived ++ [Answered (an_exchange 3000)]) (claimed, None) = (true, (db', reg')) ∧
    applied "job0" "n1" a_gate_report claimed db' ∧ over "job0" db') ∧
  uploadJobStatus postJSONRetryModeDefault "job0" "n1" a_mute_report
    (replicate 2 NotArrived ++ [Answered (an_exchange 3000)]) (claimed, None) = (false, (claimed, None)).
Proof.
  assert (Hj : ∃ job run, db_jobs claimed !! "job0" = Some job ∧ db_runs claimed !! job_RunID job = Some run ∧
    job_Status job = JobStatusRunning ∧ job_NodeID job = Some "n1" ∧ ResumeCount (run_Stats run) = 0%Z ∧
    job_StartedAt job = Some 20%Z ∧ IsCanonicalFullCommitSHA (job_RepoShaIn job) = true).
  { eexists _, _. split; [vm_compute; reflexivity|]. split; [vm_compute; reflexivity|]. split_and!; vm_compute; reflexivity. }
  destruct Hj as (job & run & Hj & Hr & Hs & Hn & Hrc & Hst & Hsha).
  assert (Hclock : ∀ st, job_StartedAt job = Some st → (st ≤ env_now (ex_Env (an_exchange 3000)))%Z).
  { intros st Hst'. rewrite Hst in Hst'. injection Hst' as <-. vm_compute. discriminate. }
  assert (Hd : ∀ meta req, node_report 0 meta req → _) by exact (λ meta req Hrep,
    node_report_delivered postJSONRetryModeDefault 0 meta req "job0" "n1" "n1" claimed None 2 (an_exchange 3000) job run
      claimed_wf claimed_small Hrep eq_refl ltac:(lia) ltac:(vm_compute; reflexivity) Hj Hr Hs Hn Hrc Hclock (λ _, Hsha)
      ltac:(lia) eq_refl eq_refl).
  split.
  - assert (Hrep : node_report 0 (Some a_gate_meta) a_gate_report) by (apply NrGate; [reflexivity|reflexivity|by intros sha [= <-]]).
    pose proof (Hd _ _ Hrep) as H. cbv zeta in H.
    assert (Hok : ((body_size a_gate_report <=? DefaultMaxBodySize)%N && meta_accepted (Some a_gate_meta)) = true)
      by (vm_compute; reflexivity).
    rewrite Hok in H. exact H.
  - assert (Hrep : ∃ m, node_report 0 (Some m) a_mute_report ∧ meta_accepted (Some m) = false)
      by (eexists; split; [apply NrGate; [reflexivity|reflexivity|by intros sha [= <-]]|vm_compute; reflexivity]).
    destruct Hrep as (m & Hrep & Hbad). pose proof (Hd _ _ Hrep) as H. cbv zeta in H.
    rewrite Hbad, andb_false_r in H. exact H.
Defined.

(** The migration step of the scenario is running. *)
Definition stepping : DB := after (ClaimJob "n1") 3100 advanced.

Lemma stepping_wf : wf stepping.
Proof.
  apply op_wf; [|intros env; apply ClaimJob_triple]. unfold advanced, after.
  pose proof (claimed_wf) as Hwf.
  destruct (run_op _ _ _ _) as [r db'] eqn:E.
  eapply (preserving_step _ _ _ _ _ _ _ Hwf); [|exact E]. split; [apply claimed_small|apply nothing_locked].
Qed.

Definition finished_container : recoveredContainerTerminal := mkTerminal 0 (Some 3200%Z) (Some 9000%Z).

Lemma recovered_success_refused_witness :
  ∃ req, uploadRecoveredTerminalStatus "c1" finished_container 0 = Some req ∧
    uploadJobStatus postJSONRetryModeStartupReconcile "job1" "n1" req [Answered (an_exchange 9500)] (stepping, None)
    = (false, (stepping, None)).
Proof.
  destruct (uploadRecoveredTerminalStatus "c1" finished_container 0) as [req|] eqn:Ereq; [|vm_compute in Ereq; discriminate].
  assert (Hj : ∃ job run, db_jobs stepping !! "job1" = Some job ∧ db_runs stepping !! job_RunID job = Some run ∧
    job_Status job = JobStatusRunning ∧ job_NodeID job = Some "n1" ∧ ResumeCount (run_Stats run) = 0%Z ∧
    job_JobType job = JobTypeMig ∧ has_next job = true ∧ IsCanonicalFullCommitSHA (job_RepoShaIn job) = true).
  { eexists _, _. split; [vm_compute; reflexivity|]. split; [vm_compute; reflexivity|]. split_and!; vm_compute; reflexivity. }
  destruct Hj as (job & run & Hj & Hr & Hs & Hn & Hrc & Ht & Hnext & Hsha).
  exists req. split; [reflexivity|].
  apply (recovered_success_refused "c1" finished_container 0 req "job1" "n1" "n1" stepping None _ job run stepping_wf); try assumption.
  - reflexivity.
  - reflexivity.
  - lia.
  - intros s f [= <-] [= <-]. reflexivity.
  - vm_compute. reflexivity.
  - repeat constructor.
Defined.

Lemma history_reachable allowed c hs a b :
  agent_reachable allowed c a → Forall allowed hs → history hs a = Some b → agent_reachable allowed c b.
Proof.
  intros Hr Hs. revert a Hr. induction Hs as [|h hs Hh _ IH]; intros a Hr E; [by injection E as <-|].
  cbn [history] in E. destruct (happens h a) as [a'|] eqn:Eh; [|discriminate E]. apply (IH a'); [|exact E]. by econstructor.
Qed.

(** What is seen of a node with two slots after a history. *)
Definition seen {A} (hs : list Happening) (f : Agent → A) : option A := f <$> history hs (new_agent 2 ∅).

Lemma seen_reachable allowed hs : Forall allowed hs → is_Some (history hs (new_agent 2 ∅)) →
  ∃ a, agent_reachable allowed 2 a ∧ ∀ A (f : Agent → A), seen hs f = Some (f a).
Proof.
  intros Hs [a E]. exists a. split; [eapply history_reachable; [apply AgentStart|done|done]|]. intros A f. unfold seen. by rewrite E.
Qed.

Lemma seen_some {A} hs (f : Agent → A) x : seen hs f = Some x → is_Some (history hs (new_agent 2 ∅)).
Proof. unfold seen. destruct (history hs (new_agent 2 ∅)); by eauto. Qed.

Definition a_request : StartRunRequest := mkStartRunRequest 0 "run1" "job1" "repo1" "https://gitlab.example/x.git"
  "main" "" "" "mig" None "mig-0" None None None ∅ "https://ploy.example".

(** A thread takes a slot and goes on, up to the start of an execution. *)
Definition take_slot (t : nat) : list Happening := replicate 3 (Step t Proceed).

(** The claim loop starts a job, which gets its directories. *)
Definition claimed_job : list Happening := Tick :: take_slot 0 ++ [Step 0 (Claimed (StartJob a_request)); Step 0 Proceed; Step 1 Proceed].

(** Stopped, and started again: the first execution removes the directories of the second. *)
Definition stopped_job : list Happening :=
  claimed_job ++ [Stop "run1"; Tick] ++ take_slot 2 ++ [Step 2 (Claimed (StartJob a_request)); Step 2 Proceed; Step 3 Proceed;
    Step 1 Proceed; Step 1 Proceed].

(** A stopped job can execute twice: stopping a run removes the entries of its jobs at
    once while their executions go on; a job can so be started a second time, and the end
    of its first execution removes the directories in which the second one works. *)
Theorem stop_allows_second_execution :
  ∃ a x y, agent_reachable anything 2 a ∧ ag_threads a !! 1 = Some (Forgetting x) ∧ ag_threads a !! 3 = Some (Working y) ∧
    job_of x = job_of y ∧ job_dir y ∉ ag_dirs a.
Proof.
  assert (H1 : seen stopped_job (λ a, ag_threads a !! 1) = Some (Some (Forgetting (mkExecution a_request 1 0)))) by (vm_compute; reflexivity).
  assert (H3 : seen stopped_job (λ a, ag_threads a !! 3) = Some (Some (Working (mkExecution a_request 2 0)))) by (vm_compute; reflexivity).
  assert (Hd : seen stopped_job (λ a, bool_decide (("run1", "job1") ∈ ag_dirs a)) = Some false) by (vm_compute; reflexivity).
  destruct (seen_reachable anything stopped_job) as (a & Hr & Hs); [by apply Forall_forall|by eapply seen_some|].
  rewrite Hs in H1, H3, Hd. injection H1 as H1. injection H3 as H3. injection Hd as Hd. apply bool_decide_eq_false in Hd.
  eexists a, _, _. done.
Qed.

Lemma node_slots_exact_witness : ∃ a, total executing a = 1%nat ∧ (total permits a ≤ 2)%nat.
Proof.
  assert (He : seen claimed_job (total executing) = Some 1%nat) by (vm_compute; reflexivity).
  destruct (seen_reachable anything claimed_job) as (a & Hr & Hs); [by apply Forall_forall|by eapply seen_some|].
  exists a. rewrite Hs in He. injection He as He. split; [exact He|].
  destruct (node_slots_exact 2 a Hr) as (_ & [_ Hp] & _). exact Hp.
Defined.

Lemma node_locks_exclude_witness : ∃ a, ag_threads a !! 1 = Some (Working (mkExecution a_request 1 0)) ∧ ag_exclusive a ≠ true.
Proof.
  assert (H1 : seen claimed_job (λ a, ag_threads a !! 1) = Some (Some (Working (mkExecution a_request 1 0)))) by (vm_compute; reflexivity).
  destruct (seen_reachable anything claimed_job) as (a & Hr & Hs); [by apply Forall_forall|by eapply seen_some|].
  exists a. rewrite Hs in H1. injection H1 as H1. split; [exact H1|]. intros He.
  destruct (node_locks_exclude 2 a 1 _ Hr H1) as [Hn _]. destruct (Hn He) as [Hx _]. discriminate Hx.
Defined.

Lemma one_execution_per_job_witness : ∃ a, ag_threads a !! 1 = Some (Working (mkExecution a_request 1 0)) ∧ ("run1", "job1") ∈ ag_dirs a.
Proof.
  assert (H1 : seen claimed_job (λ a, ag_threads a !! 1) = Some (Some (Working (mkExecution a_request 1 0)))) by (vm_compute; reflexivity).
  destruct (seen_reachable no_stop claimed_job) as (a & Hr & Hs); [unfold claimed_job; repeat constructor|by eapply seen_some|].
  exists a. rewrite Hs in H1. injection H1 as H1. split; [exact H1|].
  destruct (one_execution_per_job 2 a Hr) as (_ & _ & Hd). exact (Hd 1 _ H1).
Defined.

(** The same job started by a request whose handler has answered. *)
Definition requested_job : list Happening := Request a_request :: take_slot 0 ++ [Step 0 Proceed; Step 0 Proceed; Step 1 Proceed; Step 0 Proceed].

Lemma requested_job_cancelled_witness :
  ∃ a x, ag_threads a !! 1 = Some (Working x) ∧ ctx_done a x.
Proof.
  assert (Ht : seen requested_job ag_threads = Some [Ended; Working (mkExecution a_request 2 1)]) by (vm_compute; reflexivity).
  destruct (seen_reachable anything requested_job) as (a & Hr & Hs); [by apply Forall_forall|by eapply seen_some|].
  rewrite Hs in Ht. injection Ht as Ht. assert (H1 : ag_threads a !! 1 = Some (Working (mkExecution a_request 2 1))) by (by rewrite Ht).
  exists a, (mkExecution a_request 2 1). split; [exact H1|].
  apply (requested_job_cancelled 2 a 1 _ _ Hr H1); [reflexivity|discriminate|].
  intros t' req. rewrite Ht. destruct t' as [|[|t']]; discriminate.
Defined.

(** A claim of the second step of a spec, with the given stacks around the boundary. *)
Definition stack_json (phase release : string) : json :=
  JObj [(phase, JObj [("enabled", JBool true); ("expect", JObj [("language", JStr "java"); ("release", JStr release)])])].

Definition stacked (outbound inbound : string) : json :=
  JObj [("steps", JArr [JObj [("image", JStr "img1"); ("stack", stack_json "outbound" outbound)];
                        JObj [("image", JStr "img2"); ("stack", stack_json "inbound" inbound)]])].

Definition a_claim (spec : json) : NodeClaimResponse :=
  mkNodeClaimResponse "run1" 0 "repo1" 1 "job2" "mig-1" JobTypeMig "img2" None "https://gitlab.example/x.git"
    RunStatusRunning "n1" "main" "" "" None 0 spec (Some 1%Z) None None.

Lemma contradictory_spec_never_starts_witness :
  claimAndExecute "https://ploy.example" (ClaimStatus 200 (Some (a_claim (stacked "17" "11")))) = ClaimFailed true.
Proof.
  assert (Hp : ∃ spec x y, ParseMigSpecJSON (RawJson (stacked "17" "11")) = inr spec ∧ spec_Steps spec !! 0 = Some x ∧
    spec_Steps spec !! 1 = Some y ∧ gates_conflict x y = true) by (eexists _, _, _; split_and!; reflexivity).
  destruct Hp as (spec & x & y & Hp & Hx & Hy & Hc).
  destruct (contradictory_spec_never_starts "https://ploy.example" (a_claim (stacked "17" "11")) spec 0 x y
    (become 0 (HoldingSlot ForClaim) (spawn ForClaim (new_agent 1 ∅))) 0 Hp Hx Hy Hc) as (_ & Ho & _); [reflexivity|exact Ho].
Defined.

Definition a_step_job (meta : json) : Job :=
  mkJob "job2" "run1" "repo1" "main" 1 JobStatusQueued JobTypeMig "img2" None "mig-1" None None None None 0 "" "" "" "" meta.

(** The plan of the second step of a spec: name, type and metadata. *)
Definition second_step (spec : json) : option (JobPlan * json) :=
  plans ← planJobsFromSpec spec; p ← plans !! 2%nat;
  match jp_Meta p with RawJson meta => Some (p, meta) | _ => None end.

Lemma planned_step_executed_witness :
  ∃ req, claimAndExecute "https://ploy.example" (ClaimStatus 200 (Some (a_claim (stacked "17" "17")))) = StartJob req ∧
    mig_step_index req = Some 1%Z.
Proof.
  set (j := stacked "17" "17").
  assert (Hlen : match ParseMigSpecJSON (RawJson j) with inr s => length (spec_Steps s) | _ => 0%nat end = 2%nat) by (vm_compute; reflexivity).
  assert (Hsec : (λ pm, (jp_Name pm.1, jp_JobType pm.1, mig_context (a_step_job pm.2))) <$> second_step j = Some ("mig-1", JobTypeMig, Some 1%Z))
    by (vm_compute; reflexivity).
  assert (Hgo : match claimAndExecute "https://ploy.example" (ClaimStatus 200 (Some (a_claim j))) with StartJob _ => true | _ => false end = true)
    by (vm_compute; reflexivity).
  destruct (ParseMigSpecJSON (RawJson j)) as [e|spec] eqn:Hp; [discriminate Hlen|].
  unfold second_step in Hsec. destruct (planJobsFromSpec j) as [plans|] eqn:Hpl; [|discriminate Hsec]. cbn [mbind option_bind] in Hsec.
  destruct (plans !! 2%nat) as [p|] eqn:Hk; [|discriminate Hsec]. cbn [mbind option_bind] in Hsec.
  destruct (jp_Meta p) as [| |meta] eqn:Hm; [discriminate Hsec..|]. injection Hsec as Hn Ht Hc.
  destruct (claimAndExecute "https://ploy.example" (ClaimStatus 200 (Some (a_claim j)))) as [| |req] eqn:Hreq; [discriminate Hgo..|].
  exists req. split; [reflexivity|].
  destruct (planned_step_executed j spec plans 2 p (a_step_job meta) "https://ploy.example" (a_claim j) spec req Hp)
    as (i & s & _ & Hi & _ & Hix); try assumption.
  - rewrite Hlen. vm_compute. discriminate.
  - symmetry. exact Ht.
  - symmetry. exact Hm.
  - symmetry. exact Hc.
  - reflexivity.
  - rewrite Hn in Hi. change "mig-1" with ("mig-" +:+ pretty 1%nat) in Hi. apply (inj (String.append "mig-")) in Hi.
    apply (inj pretty) in Hi. rewrite Hix, <-Hi. reflexivity.
Defined.
