(* ===== verification/GateProps.v ===== *)
(** * Properties of build gates and manifests *)

From stdpp Require Import base gmap sets list sorting pretty strings.
From S2P Require Import Prelude GoStrings Types Json JsonText JobMeta JobMetaCodec Db Lifecycle Hydra Spec Claim.
From S2P Require Import Completion NodeReport GateImage GatePlan GateRun GateSafety Tx Sample.
From S2P Require Import NodeClaim NodeManifest.
From Stdlib Require Import ZArith Lia Ascii.
Local Open Scope list_scope.

Section Images.
Context `{GoFmt} `{GateHost}.

(** C24. The image of a gate. When the catalog or the migration's rules cannot be loaded,
    expanded or validated (a missing or malformed catalog, an empty image, a selector twice
    in one source), there is no image and the error says so. Otherwise the image is the
    expanded template of the one rule that is chosen: the most specific of those that match
    the stack, among those of the catalog and those of the migration; a rule of the
    migration wins over one of the catalog that is as specific, and within a source there
    is never a tie. Then there is no image only when no rule matches or the template of
    that rule cannot be expanded. *)
Theorem image_rule_selected path overrides required exp :
  match newImageResolver path overrides required with
  | inl err => resolveImageForExpectation path overrides exp required = inl (ErrImageMapping err)
  | inr rules =>
      ∃ cat ov, rules = cat ++ ov ∧ source_rules overrides "mig_override" "mig override" = inr ov ∧
        newImageResolver path [] required = inr cat ∧
      match resolveImageForExpectation path overrides exp required with
      | inr image => ∃ r expanded, chosen cat ov exp r ∧ (∀ r', chosen cat ov exp r' → r' = r) ∧
          ExpandImageTemplate (igr_Image r) (Some exp) = inr expanded ∧ image = trim_space expanded
      | inl e => (∃ msg, e = ErrImageRuleMatch msg) ∧
          ((∀ r, r ∈ rules → Matches r exp = false) ∨
           ∃ r err, chosen cat ov exp r ∧ ExpandImageTemplate (igr_Image r) (Some exp) = inl err)
      end
  end.
Proof using Type.
  unfold resolveImageForExpectation. destruct (newImageResolver path overrides required) as [err|rules] eqn:Hn; [done|].
  destruct (newImageResolver_sources _ _ _ _ Hn) as (cat & ov & -> & Hcat & Hov). exists cat, ov. split_and!; [done..|].
  assert (Hc : NoDup (SelectorKey <$> cat)).
  { destruct (newImageResolver_ok _ _ _ _ Hcat) as (c & o & -> & Hc & _ & Hs). apply fmap_nil_inv in Hs as ->. by rewrite app_nil_r. }
  pose proof (Resolve_spec cat ov exp Hc (proj1 (source_rules_ok _ _ _ _ Hov))) as Hr.
  destruct (Resolve (cat ++ ov) exp) as [msg|image]; [split; [by eexists|done]|].
  destruct Hr as (r & expanded & Hch & He & ->). exists r, expanded. split_and!; try done. intros r' Hr'. by eapply chosen_unique.
Qed.

(** C23. A gate runs in the image for the stack it settles on, and there is a plan exactly
    when there is such a stack and an image for it: the expectation of a stack gate, if the
    workspace has it; the configured stack, detected tool included, when it is forced; the
    detected stack, if it agrees with the configured one, when that is strict; the detected
    or else the configured stack as a fallback; and the detected stack otherwise. *)
Theorem gate_plan_refines ws spec path image :
  (∃ plan, resolveGateExecutionPlan ws spec path = inl plan ∧ gp_image plan = image) ↔
  (∃ e, settled spec ws e ∧ resolveImageForExpectation path (gs_ImageOverrides spec) e true = inr image).
Proof using Type.
  unfold resolveGateExecutionPlan. fold (settle ws spec path). split.
  - intros (plan & E & Hi). destruct (settle ws spec path) as [c|t] eqn:Es; [|done]. exists (gc_expectation c).
    split; [apply (settle_spec _ _ path); eauto|]. destruct (resolveImageForExpectation _ _ _ _) as [?|im]; [done|]. injection E as <-. by subst.
  - intros (e & Hs & Hi). apply (settle_spec _ _ path) in Hs as (c & -> & <-). rewrite Hi. eauto.
Qed.

(** A stack gate that leaves the tool open cannot run when every rule for its language
    names a tool, even if the workspace has the stack: the image is chosen by what the gate
    expects, not by what was detected. The gate fails without a container. *)
Theorem toolless_stack_gate_fails ws spec path x e o rules :
  stack_gate_mode spec = Some x → NormalizeStackExpectation x = Some e → se_Tool e = "" → se_Release e ≠ "" →
  ws_Detect ws = (Some o, None) → agrees o e →
  newImageResolver path (gs_ImageOverrides spec) true = inr rules →
  (∀ r, r ∈ rules → se_Language (igr_Stack r) = se_Language e → se_Tool (igr_Stack r) ≠ "") →
  ∃ t, resolveGateExecutionPlan ws spec path = inr t ∧ gt_err t = None ∧ gateResultPassed (gt_meta t) = false ∧
    lf_Code <$> bg_LogFindings (gt_meta t) = ["STACK_GATE_NO_IMAGE_RULE"].
Proof using Type.
  intros Hm Hx HT HR Hw Ha Hn Hall. unfold resolveGateExecutionPlan. fold (settle ws spec path).
  assert (Hs : settled spec ws e) by (by eapply SettledGate). apply (settle_spec _ _ path) in Hs as (c & Hc & He).
  assert (Hsg : is_Some (gc_stackGate c)).
  { unfold settle, useForcedStackDetect, resolveGateStackContext in Hc. rewrite Hm in Hc. rewrite bool_decide_eq_false_2 in Hc by done.
    cbn [andb] in Hc. unfold resolveStackGateContext in Hc. repeat case_match; by simplify_eq. }
  rewrite Hc, He. unfold resolveImageForExpectation. rewrite Hn.
  assert (Hno : ∀ r, r ∈ rules → Matches r e = false).
  { intros r Hr. unfold Matches. destruct (bool_decide_reflect (se_Language (igr_Stack r) = se_Language e)) as [HL|]; [|done].
    specialize (Hall r Hr HL). rewrite HT. rewrite (bool_decide_eq_false_2 (se_Tool (igr_Stack r) = "")) by done. by rewrite andb_false_r. }
  assert (Hres : ∃ msg, Resolve rules e = inl msg).
  { destruct (newImageResolver_ok _ _ _ _ Hn) as (cat & ov & -> & Hnc & Hno' & _). pose proof (Resolve_spec cat ov e Hnc Hno') as Hr.
    destruct (Resolve (cat ++ ov) e) as [msg|image]; [eauto|]. destruct Hr as (r & ? & [Hmr Hin] & _).
    assert (r ∈ cat ++ ov) as Hrin by (apply elem_of_app; destruct Hin as [[? _]|[? _]]; auto). rewrite (Hno r Hrin) in Hmr. done. }
  destruct Hres as [msg ->]. eexists. split; [reflexivity|]. unfold imageResolutionTerminal. destruct Hsg as [sg ->]. done.
Qed.

End Images.

Section Verdicts.
Context `{Collation} `{GoFmt} `{GateHost} (sha256_hex : bytes → string).

(** What [crypto/sha256] and [%x] give is a digest. *)
Hypothesis digest : ∀ l, is_sha256_digest (trim_space (sha256Digest sha256_hex l)) = true.





(** The body of a report is larger than a message in its metadata. *)
Lemma failed_gate_body resume meta repoSHA errorText resources duration j f :
  bg_LogFindings meta = [f] → gate_meta_json meta = Some j →
  (length (to_bytes (lf_Message f)) + 2 ≤ length (render (body_json (gate_report resume false repoSHA errorText resources (Some j) duration))))%nat.
Proof using Type.
  intros Hf Hj. unfold gate_meta_json, enc_BuildGateStageMetadata in Hj. destruct (if decide _ then _ else _) as [dg|]; [|done].
  cbn [mbind option_bind] in Hj. injection Hj as <-. rewrite Hf. set (gate := JObj (dg ++ _)). set (j := JObj [_; ("gate", gate)]).
  set (s := mkRunStatsBuilder None (Some duration) (if decide (errorText = "") then None else Some errorText) None [] (Some (false, duration)) resources (Some j) None).
  assert (Hmsg : (length (to_bytes (lf_Message f)) + 2 ≤ length (render (JStr (lf_Message f))))%nat).
  { cbn [render]. unfold quoted. cbn [length]. rewrite length_app. cbn [length]. pose proof (quote_longer (to_bytes (lf_Message f))). lia. }
  etrans; [exact Hmsg|]. etrans; [apply (render_field "message" _ (opt_str "code" (lf_Code f) ++ [("severity", JStr (lf_Severity f)); ("message", JStr (lf_Message f))]
    ++ opt_str "evidence" (lf_Evidence f)))|].
  { apply elem_of_app. right. apply elem_of_app. left. by right; left. }
  fold (enc_LogFinding f). etrans; [apply (render_element _ [enc_LogFinding f]); left|].
  etrans; [apply (render_field "log_findings" _ (dg ++ opt_arr enc_StaticCheckReport "static_checks" (bg_StaticChecks meta)
    ++ opt_str "executed_command" (bg_ExecutedCommand meta) ++ opt_ptr enc_StackExpectation "detected_stack" (bg_Detected meta)
    ++ opt_arr enc_LogFinding "log_findings" [f] ++ opt_ptr enc_StackGateResult "stack_gate" (bg_StackGate meta) ++ opt_str "bug_summary" (bg_BugSummary meta)))|].
  { rewrite !elem_of_app. cbn [opt_arr]. do 4 right. left. left. }
  fold gate. etrans; [apply (render_field "gate" gate [("kind", JStr JobKindGate); ("gate", gate)]); by right; left|]. fold j.
  etrans; [apply (render_field "job_meta" j (if (0 <? resume)%Z then obj_set "resume_count" (JInt resume) (MustBuild s) else MustBuild s))|].
  { assert (("job_meta", j) ∈ MustBuild s) as Hin by (unfold MustBuild; rewrite !elem_of_app; do 7 right; left; left).
    destruct (0 <? resume)%Z; [rewrite resume_appended by done; apply elem_of_app; by left|done]. }
  set (stats := if (0 <? resume)%Z then _ else _). etrans; [apply (render_field "stats" (JObj stats) (opt_ptr JInt "exit_code" (Some 1%Z) ++ opt_str "repo_sha_out" (trim_space "")
    ++ [("stats", JObj stats)] ++ [("status", JStr (JobStatus_String JobStatusFail))]))|].
  { rewrite !elem_of_app. do 2 right. left. left. }
  done.
Qed.

(** C26. Some failures of a build are never recorded. The output of a failed build is part of
    the report of the gate: when it has a mebibyte or more, the body is larger than the server
    reads, and when it is blank, the metadata does not validate. Either way the report is
    refused for good, the upload fails, and the job stays as it is. *)
Theorem unreportable_gate_failure mode jobID header ws spec path plan exitCode logs repoSHA resources duration resume ds w :
  gs_Enabled spec = true → resolveGateExecutionPlan ws spec path = inl plan → exitCode ≠ 0%Z →
  (1048576 ≤ N.of_nat (length logs))%N ∨ logs ≠ [] ∧ blank (of_bytes (capGateLogBytes logs)) = true →
  in_int64 duration = true → match resources with Some r => resources_ok r | None => true end = true → in_int64 resume = true →
  uploadJobStatus mode jobID header
    (executeGateJob_report resume (runGate sha256_hex None true ws spec path (inr (exitCode, logs))) None repoSHA resources duration) ds w = (false, w).
Proof using digest.
  intros Hen Hplan Hne Hlogs Hd Hres Hi. unfold runGate, Execute. rewrite Hen. cbn [negb]. rewrite Hplan.
  destruct (gateExecutionMetadata sha256_hex (gp_language plan) (gp_tool plan) (gp_release plan) exitCode logs) as [m text] eqn:Em.
  unfold gateExecutionMetadata in Em. cbv zeta in Em. rewrite (bool_decide_eq_false_2 (exitCode = 0%Z)) in Em by done. injection Em as <- <-.
  set (meta := set_stack_gate _ _). set (f := mkLogFinding _ _ _ _) in *.
  assert (Hj : ∃ j, gate_meta_json meta = Some j).
  { unfold gate_meta_json, enc_BuildGateStageMetadata, meta, set_stack_gate. cbn [bg_LogDigest].
    rewrite (decide_False (P := sha256Digest sha256_hex (capGateLogBytes logs) = ""))
      by (intros Hz; specialize (digest (capGateLogBytes logs)); rewrite Hz in digest; discriminate digest).
    unfold enc_digest. rewrite digest. cbn. by eexists. }
  destruct Hj as [j Hj]. unfold executeGateJob_report. cbn [fst snd join_errors]. change (gateResultPassed meta) with false. rewrite Hj.
  assert (Hcap : of_bytes (capGateLogBytes logs) ≠ "").
  { intros Hz. apply (f_equal to_bytes) in Hz. rewrite String.list_ascii_of_string_of_list_ascii in Hz. change (to_bytes "") with (@nil ascii) in Hz.
    unfold capGateLogBytes in Hz. destruct (N.ltb_spec maxLogBytes (N.of_nat (length logs))) as [Hl|Hl].
    - apply (f_equal length) in Hz. rewrite length_take in Hz. cbn in Hz. unfold maxLogBytes in *. lia.
    - destruct Hlogs as [Hl'|[Hne' _]]; [|done]. rewrite Hz in Hl'. cbn in Hl'. lia. }
  assert (Hmsg : lf_Message f = of_bytes (capGateLogBytes logs)) by (unfold f; cbn [lf_Message]; by rewrite decide_False).
  apply invalid_refused. destruct Hlogs as [Hlong|[_ Hblank]]; [left|right].
  - unfold body_size. pose proof (failed_gate_body resume meta repoSHA (gateFailureErrorFromMetadata meta (of_bytes (capGateLogBytes logs))) resources duration j f eq_refl Hj) as Hb.
    rewrite Hmsg, String.list_ascii_of_string_of_list_ascii in Hb.
    assert (1048576 ≤ N.of_nat (length (capGateLogBytes logs)))%N.
    { unfold capGateLogBytes. destruct (N.ltb_spec maxLogBytes (N.of_nat (length logs))); [|done]. rewrite length_take. unfold maxLogBytes in *. lia. }
    unfold DefaultMaxBodySize. lia.
  - unfold gate_report. eapply (invalid_meta_refused _ _ _ _ _ _ _ j); try done.
    + unfold gate_meta_json in Hj. by destruct (enc_BuildGateStageMetadata meta); simplify_eq/=.
    + unfold gate_meta_json in Hj. by destruct (enc_BuildGateStageMetadata meta); simplify_eq/=.
    + rewrite (gate_meta_read meta j) by done. replace (BuildGateStageMetadata_Validate meta) with false; [done|]. symmetry.
      apply not_true_is_false. intros Hv. unfold BuildGateStageMetadata_Validate in Hv. rewrite !andb_true_iff in Hv. destruct Hv as ((([_ _] & Hlf) & _) & _).
      change (bg_LogFindings meta) with [f] in Hlf. cbn [forallb] in Hlf. rewrite andb_true_r in Hlf. unfold BuildGateLogFinding_Validate in Hlf.
      rewrite Hmsg, Hblank in Hlf. discriminate Hlf.
Qed.

End Verdicts.

(** The environment of a job's container. What the node sets wins over the step, the step
    over the spec and the spec over the request, variable by variable; the gate gets the same
    environment, and the image is never empty. *)
Theorem job_environment_exact `{GateHost} req i stack man :
  buildMigManifest req i stack = inr man →
  man_Image man ≠ "" ∧ gs_Env (man_Gate man) = man_Envs man ∧
  ∀ k, man_Envs man !! k =
    env_value req (sr_MigSpec req ≫= λ spec, spec_Steps spec !! Z.to_nat i) (stackExpectationForRequest req stack) k.
Proof.
  intros Hb. assert (Hm : buildManifest req (sr_MigSpec req ≫= λ spec, spec_Steps spec !! Z.to_nat i) stack None true = inr man).
  { unfold buildMigManifest in Hb. destruct (sr_MigSpec req) as [spec|]; [|exact Hb]. by case_decide. }
  apply buildManifest_shape in Hm as (Hi & He & Hg & _). split; [by eapply manifest_image_named|]. split; [done|].
  intros k. rewrite He. apply manifest_env_value.
Qed.

(** ** Samples *)

(** The catalog that is shipped with the program, and a node with a registry. *)
Definition shipped_entry (tool release : string) : rawCatalogEntry :=
  mkRawCatalogEntry "java" tool ("$PLOY_CONTAINER_REGISTRY/gate-" +:+ tool +:+ ":jdk" +:+ release) (Some (JStr release)).

Definition shipped : list rawCatalogEntry :=
  (shipped_entry "maven" <$> ["11"; "17"; "21"; "25"]) ++ (shipped_entry "gradle" <$> ["11"; "17"; "21"; "25"]).

#[local] Instance a_host : GateHost := {
  host_env name := if decide (name = "PLOY_CONTAINER_REGISTRY") then Some "registry.example" else None;
  read_catalog _ := Catalog shipped
}.

Definition catalog_path : string := "/etc/ploy/gates/gates.yaml".

Definition a_stack (tool release : string) : StackExpectation := mkStackExpectation "java" tool release.

Example shipped_image : resolveImageForExpectation catalog_path [] (a_stack "maven" "17") true = inr "registry.example/gate-maven:jdk17".
Proof. vm_compute. reflexivity. Qed.

Example template_sample :
  ExpandImageTemplate "$PLOY_CONTAINER_REGISTRY/${stack.tool}:${stack.release}-${stack. language }" (Some (a_stack "gradle" " 21 "))
  = inr "registry.example/gradle:21-java".
Proof. vm_compute. reflexivity. Qed.

Example template_errors :
  ExpandImageTemplate "${stack.os}${stack.arch}" (Some (a_stack "" "")) = inl "unknown stack placeholders: stack.arch, stack.os" ∧
  ExpandImageTemplate "${stack.tool}" (Some (a_stack "" "17")) = inl "unresolved stack placeholders: stack.tool" ∧
  ExpandImageTemplate "$A${B}$" None = inl "unresolved environment variables: A, B".
Proof. vm_compute. done. Qed.

Definition own_rule : BuildGateImageRule := mkBuildGateImageRule (mkStackExpectation "java" "gradle" "21") "own/${stack.tool}".

(** The migration's rule wins over the catalog's, which is as specific. *)
Example override_wins :
  resolveImageForExpectation catalog_path [own_rule] (a_stack "gradle" "21") true = inr "own/gradle" ∧
  resolveImageForExpectation catalog_path [] (a_stack "gradle" "21") true = inr "registry.example/gate-gradle:jdk21".
Proof. split; vm_compute; reflexivity. Qed.

(** A workspace with a Maven project for Java 17, and a gate that expects Java 17. *)
Definition a_workspace : Workspace :=
  let o := mkObservation "java" "maven" (Some "17") [mkEvidence "pom.xml" "maven.compiler.release" "17"] in
  mkWorkspace (Some o, None) (Some o, None).

Definition a_gate_spec (expect : option StackExpectation) : StepGateSpec :=
  mkStepGateSpec true ∅ [] None "https://gitlab.example/x.git" "repo1" "main" ((λ e, mkStackGatePhaseSpec true (Some e)) <$> expect).

Lemma toolless_stack_gate_fails_witness :
  ∃ t, resolveGateExecutionPlan a_workspace (a_gate_spec (Some (a_stack "" "17"))) catalog_path = inr t ∧
    lf_Code <$> bg_LogFindings (gt_meta t) = ["STACK_GATE_NO_IMAGE_RULE"].
Proof.
  assert (Hn : match newImageResolver catalog_path [] true with inr rules => forallb (λ r, negb (bool_decide (se_Tool (igr_Stack r) = ""))) rules | inl _ => false end = true)
    by (vm_compute; reflexivity).
  destruct (newImageResolver catalog_path [] true) as [?|rules] eqn:E; [discriminate Hn|].
  destruct (toolless_stack_gate_fails a_workspace (a_gate_spec (Some (a_stack "" "17"))) catalog_path (a_stack "" "17") (a_stack "" "17")
    (mkObservation "java" "maven" (Some "17") [mkEvidence "pom.xml" "maven.compiler.release" "17"]) rules) as (t & Ht & _ & _ & Hf).
  - reflexivity.
  - vm_compute. reflexivity.
  - reflexivity.
  - discriminate.
  - reflexivity.
  - split; [right; reflexivity|]. split; [left; reflexivity|]. right. exists "17". split; reflexivity.
  - exact E.
  - intros r Hr _ Ht. rewrite forallb_forall in Hn. specialize (Hn r (proj1 (list_elem_of_In _ _) Hr)). rewrite Ht in Hn. discriminate Hn.
  - exists t. split; [exact Ht|exact Hf].
Defined.

(** A digest of zeros. *)
Definition zeros (_ : bytes) : string := of_bytes (replicate 64 "0"%char).

Lemma zeros_digest l : is_sha256_digest (trim_space (sha256Digest zeros l)) = true.
Proof. vm_compute. reflexivity. Qed.




Definition two_attempts : list (Delivery Exchange) := [NotArrived; Answered (mkExchange (env_at 3000) [] false)].

Lemma unreportable_gate_failure_witness :
  uploadJobStatus postJSONRetryModeDefault "job0" "n1"
    (executeGateJob_report 0 (runGate zeros None true a_workspace (a_gate_spec None) catalog_path (inr (1%Z, [line_feed]))) None (inr "") None 1500) two_attempts (claimed, None)
  = (false, (claimed, None)).
Proof.
  destruct (resolveGateExecutionPlan a_workspace (a_gate_spec None) catalog_path) as [plan|t] eqn:E.
  - apply (unreportable_gate_failure zeros zeros_digest postJSONRetryModeDefault "job0" "n1" a_workspace (a_gate_spec None) catalog_path plan).
    + reflexivity.
    + exact E.
    + discriminate.
    + right. split; [discriminate|vm_compute; reflexivity].
    + reflexivity.
    + reflexivity.
    + reflexivity.
  - vm_compute in E. discriminate E.
Defined.

(** A step that would set the job's own identifier, and names its image by the stack. *)
Definition greedy_step : MigStep :=
  mkMigStep "s" (mkJobImage "img/${stack.tool}" ∅) (mkCommandSpec "" []) (<["PLOY_JOB_ID" := "mine"]> (<["A" := "step"]> ∅)) false (λ _, []) None.

Definition greedy_request : StartRunRequest := mkStartRunRequest 0 "run1" "job1" "repo1" "https://gitlab.example/x.git"
  "main" "" "" "mig" None "mig-0" None (Some (a_stack "maven" "17"))
  (Some (mkMigSpec "" "" "" "" [greedy_step] (<["A" := "spec"]> (<["B" := "spec"]> ∅)) None ∅)) ∅ "https://ploy.example".

Lemma job_environment_exact_witness :
  ∃ man, buildMigManifest greedy_request 0 "java-maven" = inr man ∧ man_Image man = "img/maven" ∧
    man_Envs man !! "PLOY_JOB_ID" = Some "job1" ∧ man_Envs man !! "A" = Some "step" ∧ man_Envs man !! "B" = Some "spec".
Proof.
  assert (Hi : match buildMigManifest greedy_request 0 "java-maven" with inr man => man_Image man | inl _ => "" end = "img/maven") by (vm_compute; reflexivity).
  destruct (buildMigManifest greedy_request 0 "java-maven") as [?|man] eqn:E; [discriminate Hi|]. exists man.
  destruct (job_environment_exact greedy_request 0 "java-maven" man E) as (_ & _ & Hk). rewrite !Hk.
  split; [reflexivity|]. split; [exact Hi|]. split_and!; vm_compute; reflexivity.
Defined.
