(* ===== verification/CompilerProps.v ===== *)
(** * Properties of the spec compiler *)

From stdpp Require Import base gmap sets list strings.
From S2P Require Import Prelude GoStrings Types Json JobMeta Db Hydra Spec Claim GateImage Compose SpecCompiler.
From S2P Require Import Tx Store Plan Sample.
From Stdlib Require Import ZArith Lia Ascii.
Local Open Scope nat_scope.
Local Open Scope list_scope.

(** C27. Composition always ends on documents whose aliases form no cycle, however files
    include each other, and it does what including means. What it returns is the spec with
    every include replaced by what it stands for, all the way down and in order, with its
    merge keys expanded; it contains no include any more, and no chain of includes from the
    spec comes back to a target it has been to. The error for a cycle is given only for a
    chain of includes that does come back, and names the targets from the first visit to
    the second. *)
Theorem composition_ends src rootPath root :
  match composeSpecYAML src rootPath root with
  | inr doc => include_values doc = [] ∧
      (∃ n, unfolds src rootPath rootPath id root n ∧ expandDeepMergeKeys n = Some doc) ∧
      ∀ path, leads src rootPath rootPath id root path → NoDup (rootPath :: path)
  | inl (IncCycle cycle) => ∃ path target front back,
      leads src rootPath rootPath id root (path ++ [target]) ∧
      rootPath :: path = front ++ target :: back ∧ target ∉ front ∧ cycle = target :: back ++ [target]
  | inl e => e ≠ IncFuel
  end.
Proof.
  unfold composeSpecYAML. pose proof (resolve_ends src rootPath root (length (all_targets src rootPath root)) root rootPath [rootPath] id) as Hr.
  assert (Ht : ∀ v f p, v ∈ include_values root → parseIncludeRef src rootPath v = inr (f, p) → target_id f p ∈ all_targets src rootPath root).
  { intros v f p Hv Hp. eapply (variants_targets src rootPath root rootPath root v v); [|done|left|done]. intros t Ht. apply elem_of_app. by left. }
  specialize (Hr Ht (λ y Hy, Hy) (NoDup_singleton _)).
  assert (Hin : [rootPath] ⊆ rootPath :: all_targets src rootPath root) by (intros x ->%list_elem_of_singleton; left).
  specialize (Hr Hin ltac:(cbn; lia)). destruct (resolveIncludes _ _ _ _ _ _ root) as [e|n] eqn:E.
  - destruct e as [| | | | |cycle| |]; try done. destruct (resolve_cycle src rootPath _ _ _ _ _ _ E) as (path & t & Hp & Hc).
    unfold comes_back, includeCycle in Hc. cbn [app] in Hc. apply fmap_Some in Hc as ([i x] & Hf & ->).
    apply list_find_Some in Hf as (Hi & <- & Hfirst). exists path, t, (take i (rootPath :: path)), (drop (S i) (rootPath :: path)).
    split; [done|]. split; [symmetry; by apply take_drop_middle|]. split.
    + intros (j & Hj)%list_elem_of_lookup. apply lookup_take_Some in Hj as [Hj Hlt]. by apply (Hfirst j t).
    + cbn [fst]. by rewrite (drop_S _ _ _ Hi).
  - destruct (expandDeepMergeKeys n) as [n'|] eqn:En; [|done]. split_and!.
    + apply elem_of_nil_inv. intros v Hv. apply (expand_values _ _ _ En) in Hv. rewrite Hr in Hv. by apply elem_of_nil in Hv.
    + exists n. split; [by eapply resolve_unfolds|done].
    + intros path Hp. exact (proj1 (leads_fresh src rootPath) _ _ _ _ Hp _ _ _ (NoDup_singleton _) E).
Qed.

(** C28. Merge keys. The value of a key in a composed mapping is that of its last entry, laid
    over the earlier ones where both are mappings; a merge key gives the entries of its
    mappings at its place, so that it wins over the entries before it. Composition fails
    exactly when a merge key has a value that is neither a mapping nor a sequence of them. *)
Theorem merge_keys_exact l l' :
  mapM (λ kv, k ← expandDeepMergeKeys kv.1; v ← expandDeepMergeKeys kv.2; Some (k, v)) l = Some l' →
  match expandDeepMergeKeys (YMap l) with
  | Some n => Forall mergeable l' ∧ ∃ merged, n = YMap merged ∧ ∀ k, find_key k merged = laid None (l' ≫= contributed k)
  | None => ¬ Forall mergeable l'
  end.
Proof.
  intros Hl. cbn [expandDeepMergeKeys]. rewrite Hl. cbn [mbind option_bind]. pose proof (entries_merge l' []) as He.
  destruct (foldl merge_entry (Some []) l') as [merged|] eqn:Em; cbn.
  - split; [by apply He|]. exists merged. split; [done|]. intros k. by rewrite (find_entries k l' [] merged Em).
  - intros Hf. apply He in Hf as [? Hf]. done.
Qed.

(** C29. References between steps end, and none is left. *)
Theorem references_end `{YamlLib} src spec sourcePath :
  match expandSpecRefsInPlace src spec sourcePath with
  | inl e => e ≠ CeFuel
  | inr spec' => refs_gone spec'
  end.
Proof.
  apply expand_steps_spec. intros r Hr. apply (load_ends src sourcePath spec); [|constructor|by intros ? ?%elem_of_nil|cbn; lia].
  intros p s Hp. apply elem_of_app. left. apply list_elem_of_bind. exists r. split; [|done]. rewrite Hp. left.
Qed.

(** A path a repository accepts as it is written. *)
Definition usable (p : string) : bool :=
  bool_decide (trim_space p = p) && negb (bool_decide (p = "")) && negb (is_abs p)
  && negb (bool_decide (p = "~") || has_prefix p "~/") && negb (contains p "$").

Lemma resolve_usable root p base : usable p = true → is_abs base = true →
  resolve root p base = match relative root (path_clean (join_path base p)) with Some _ => Some (path_clean (join_path base p)) | None => None end.
Proof.
  unfold usable. intros Hu Hb. repeat (apply andb_true_iff in Hu as [Hu ?]). apply bool_decide_eq_true in Hu. unfold resolve. rewrite Hu.
  repeat match goal with H : negb _ = true |- _ => apply negb_true_iff in H end.
  rewrite decide_False by (by apply (bool_decide_eq_false (p = ""))). replace (is_abs p) with false. replace (bool_decide (p = "~") || has_prefix p "~/") with false.
  replace (contains p "$") with false. assert (Hbl : blank base = false); [|by rewrite Hbl].
  unfold blank. apply bool_decide_eq_false. apply (trim_space_not_blank base slash); [|by vm_compute]. unfold is_abs, is_rooted in Hb.
  apply bool_decide_eq_true in Hb. destruct (to_bytes base); [done|]. injection Hb as ->. left.
Qed.

(** Printable ASCII without the space, the dollar sign and the tilde. *)
Definition ordinary_byte (c : ascii) : bool :=
  let n := nat_of_ascii c in (33 <=? n) && (n <=? 125) && negb (n =? 36).
Definition ordinary (s : string) : bool := forallb ordinary_byte (to_bytes s).

Notation good := (Forall (λ c, ordinary_byte c = true)).

Lemma ordinary_good s : ordinary s = true ↔ good (to_bytes s).
Proof. unfold ordinary. rewrite forallb_forall, Forall_forall. setoid_rewrite list_elem_of_In. done. Qed.

Lemma ordinary_trim s : ordinary s = true → trim_space s = s.
Proof.
  rewrite ordinary_good. intros Hg.
  assert (Hn : ∀ ps l, Forall (λ p, from_option ordinary_byte true (head p) = false) ps → good l → strip_any ps l = None).
  { intros ps l Hps Hl. apply strip_any_None. intros p l' Hp ->. rewrite Forall_forall in Hps. specialize (Hps p Hp).
    destruct p as [|c p]; [done|]. apply Forall_cons in Hl as [Hc _]. cbn in Hps. congruence. }
  unfold trim_space, trim_left. rewrite trim_fix by (apply Hn; [apply (bool_decide_unpack _); by vm_compute|done]).
  unfold trim_right. rewrite trim_fix by (apply Hn; [apply (bool_decide_unpack _); by vm_compute|by apply Forall_reverse]).
  by rewrite reverse_involutive, String.string_of_list_ascii_of_string.
Qed.

Lemma good_lacks l c : good l → ordinary_byte c = false → c ∉ l.
Proof. rewrite Forall_forall. intros Hl Hc Hin. specialize (Hl c Hin). congruence. Qed.

Lemma lacks_contains s c : c ∉ to_bytes s → contains s (of_bytes [c]) = false.
Proof.
  intros Hin. apply not_true_is_false. unfold contains. rewrite to_of. intros Hc. apply Hin. clear Hin.
  induction (to_bytes s) as [|x l IH]; [done|]. cbn [contains_bytes] in Hc. apply orb_true_iff in Hc as [Hc|Hc]; [|right; by apply IH].
  apply bool_decide_eq_true in Hc as [l' E]. apply strip_spec in E. rewrite E. left.
Qed.

(** An ordinary relative path is accepted as it is written. *)
Lemma ordinary_usable p : ordinary p = true → p ≠ "" → is_abs p = false → usable p = true.
Proof.
  intros Ho Hne Ha. unfold usable. rewrite Ha, (ordinary_trim p Ho), bool_decide_eq_true_2, bool_decide_eq_false_2 by done. cbn [andb negb].
  apply ordinary_good in Ho. pose proof (good_lacks _ "~"%char Ho eq_refl) as Ht. pose proof (good_lacks _ "$"%char Ho eq_refl) as Hd.
  rewrite bool_decide_eq_false_2 by (intros ->; apply Ht; left). replace (has_prefix p "~/") with false.
  2: { symmetry. apply not_true_is_false. rewrite has_prefix_spec. intros [r E]. apply Ht. rewrite E. left. }
  cbn [orb negb andb]. apply negb_true_iff. by apply (lacks_contains p "$").
Qed.

(** Operations on paths keep them ordinary. *)
Lemma good_split l : good l → Forall good (split_bytes slash l).
Proof.
  induction 1 as [|x l Hx _ IH]; cbn [split_bytes]; [repeat constructor|]. case_decide; [by constructor|].
  destruct (split_bytes slash l) as [|w ws]; [repeat constructor; done|]. apply Forall_cons in IH as [? ?]. by repeat constructor.
Qed.

Lemma good_join ws : Forall good ws → good (join_bytes slash ws).
Proof.
  induction 1 as [|w ws Hw _ IH]; cbn [join_bytes]; [constructor|]. destruct ws; [done|]. apply Forall_app. split; [done|]. by constructor.
Qed.

Lemma good_parts l : good l → Forall good (clean_parts l).
Proof.
  intros Hl. unfold clean_parts. apply Forall_reverse. apply good_split in Hl. generalize (is_rooted l). intros rooted.
  assert (Hst : Forall good []) by constructor. revert Hst. generalize ([] : list bytes).
  induction Hl as [|w ws Hw _ IH]; intros st Hst; [done|]. cbn [foldl]. apply IH. unfold clean_step.
  case_decide; [done|]. case_decide; [|by constructor]. destruct Hst as [|p st' Hp Hst]; [destruct rooted; by repeat constructor|].
  case_decide; [by repeat constructor|done].
Qed.

Lemma good_clean p : good (to_bytes p) → good (to_bytes (path_clean p)).
Proof.
  intros Hp. unfold path_clean. rewrite to_of, clean_parts_bytes. pose proof (good_join _ (good_parts _ Hp)) as Hj.
  destruct (is_rooted _); [by constructor|]. case_decide; [by repeat constructor|done].
Qed.

Lemma good_join_path base p : good (to_bytes base) → good (to_bytes p) → good (to_bytes (join_path base p)).
Proof.
  intros Hb Hp. unfold join_path. case_decide; [case_decide; [constructor|by apply good_clean]|]. case_decide; [by apply good_clean|].
  apply good_clean. rewrite !to_bytes_app. apply Forall_app. split; [done|]. by constructor.
Qed.

Lemma good_dir p : good (to_bytes p) → good (to_bytes (dir p)).
Proof.
  intros Hp. unfold dir. destruct (cut_last slash (to_bytes p)) as [[f b]|] eqn:E; [|by repeat constructor].
  apply cut_last_Some in E. rewrite E in Hp. apply Forall_app in Hp as [Hf _]. apply good_clean. rewrite to_of. apply Forall_app. by repeat constructor.
Qed.

(** What [Rel] gives between absolute paths is relative, and as ordinary as the target. *)
Lemma rel_shape base targ r : is_abs base = true → is_abs targ = true → rel_path base targ = Some r →
  is_abs r = false ∧ (good (to_bytes targ) → good (to_bytes r)).
Proof.
  intros Hb Ht. unfold rel_path. unfold is_abs in *. rewrite Hb, Ht. case_decide; [intros [= <-]; split; [done|by repeat constructor]|].
  rewrite bool_decide_eq_false_2 by tauto. pose proof (strip_common_app (clean_parts (to_bytes base)) (clean_parts (to_bytes targ))) as Hs.
  destruct (strip_common _ _) as [up down]. destruct Hs as (pre & Eb & Et). case_decide; [done|]. intros [= <-]. rewrite to_of. split.
  - pose proof (rooted_parts _ Ht) as Hp. rewrite Et in Hp. apply Forall_app in Hp as [_ Hp]. unfold is_rooted. apply bool_decide_eq_false.
    destruct up as [|u up]; [|destruct up, down; done]. cbn [length replicate app]. destruct Hp as [|w ws [(Hne & _) Hw] _]; [done|].
    destruct w as [|c w]; [done|]. apply not_elem_of_cons in Hw as [Hc _]. destruct ws; cbn; intros [=]; by subst.
  - intros Hg. apply good_join, Forall_app. split; [apply Forall_replicate; by repeat constructor|].
    pose proof (good_parts _ Hg) as Hp. rewrite Et in Hp. by apply Forall_app in Hp as [_ ?].
Qed.

Lemma rebase_shape source out p : is_abs source = true → is_abs out = true → p ≠ "" →
  is_abs (rebaseLocalSourcePath source out p) = false ∧ rebaseLocalSourcePath source out p ≠ "" ∧
  (ordinary source = true → ordinary p = true → ordinary (rebaseLocalSourcePath source out p) = true).
Proof.
  intros Hs Ho Hp. unfold rebaseLocalSourcePath. pose proof (dir_abs _ Hs) as Hd. destruct (join_walk _ p Hd Hp) as [_ Ea].
  destruct (parts_clean _ Ea) as [_ Eca]. destruct (rel_total out _ Ho Eca) as [r E]. rewrite E. cbn [default from_option id].
  destruct (rel_shape _ _ _ Ho Eca E) as [Hr Hg]. apply rel_walk in E as [_ Hne]; [|done..]. split_and!; [done|done|].
  rewrite !ordinary_good. intros Hgs Hgp. by apply Hg, good_clean, good_join_path; [apply good_dir|].
Qed.

Lemma resolve_below root p base f : is_abs root = true → is_abs base = true → resolve root p base = Some f →
  is_abs f = true ∧ parts root `prefix_of` parts f.
Proof.
  intros Hr Hb. unfold resolve. case_decide as Hne; [done|]. destruct (is_abs (trim_space p)); [done|]. destruct (_ || _); [done|].
  destruct (contains _ "$"); [done|]. set (b := if blank base then root else base). assert (Hbb : is_abs b = true) by (unfold b; by case_match).
  destruct (join_walk b (trim_space p) Hbb Hne) as [_ Ha]. destruct (parts_clean _ Ha) as [_ Hc].
  destruct (relative root (path_clean (join_path b (trim_space p)))) as [r|] eqn:Er; [|done]. intros [= <-]. split; [done|]. by eapply relative_below.
Qed.

(** C30. Local paths. A path written in an included file is rewritten for the spec that
    includes the file: the rewritten path is relative and names, from the directory of the
    spec, the file the path named where it was written. If the path and the path of the
    included file are of printable ASCII without spaces, dollar signs and tildes (which a
    repository does not take literally), the repository resolves both to the same file or
    refuses both. What a repository resolves, from any directory, lies below its root. *)
Theorem local_paths_kept root source out p :
  is_abs root = true → is_abs source = true → is_abs out = true → p ≠ "" →
  is_abs (rebaseLocalSourcePath source out p) = false ∧
  path_clean (join_path out (rebaseLocalSourcePath source out p)) = path_clean (join_path (dir source) p) ∧
  (ordinary source = true → ordinary p = true → is_abs p = false →
     normalizeLocalSourcePath source out p = rebaseLocalSourcePath source out p ∧
     resolve root (normalizeLocalSourcePath source out p) out = resolve root p (dir source)) ∧
  (∀ x base f, is_abs base = true → resolve root x base = Some f → is_abs f = true ∧ parts root `prefix_of` parts f).
Proof.
  intros Hr Hs Ho Hp. destruct (rebase_shape source out p Hs Ho Hp) as (Ha & Hne & Hord).
  split; [done|]. split; [by apply rebase_same_file|]. split; [|intros x base f; by apply resolve_below].
  intros Hos Hop Hap. assert (Hq : normalizeLocalSourcePath source out p = rebaseLocalSourcePath source out p).
  { pose proof (proj1 (ordinary_good p) Hop) as Hg. unfold normalizeLocalSourcePath. rewrite (ordinary_trim p Hop), bool_decide_eq_false_2, Hap by done.
    assert (Hpre : ∀ c r, ordinary_byte c = false → has_prefix p (String c r) = false).
    { intros c r Hc. apply not_true_is_false. rewrite has_prefix_spec. intros [q E]. apply (good_lacks _ c Hg Hc). rewrite E. left. }
    assert (Hno : ∀ c, ordinary_byte c = false → contains p (of_bytes [c]) = false).
    { intros c Hc. by apply lacks_contains, good_lacks. }
    rewrite !Hpre, !Hno by reflexivity. done. }
  split; [done|]. rewrite Hq. rewrite !resolve_usable by first [by apply ordinary_usable; auto|by apply dir_abs|done]. by rewrite rebase_same_file.
Qed.

Lemma local_paths_kept_witness :
  resolve "/repo" "../shared/a.sh" "/repo/specs" = resolve "/repo" "../shared/a.sh" (dir "/repo/specs/inc.yaml") ∧
  resolve "/repo" "../../shared/a.sh" "/repo/specs/deep" = Some "/repo/shared/a.sh".
Proof.
  destruct (local_paths_kept "/repo" "/repo/specs/inc.yaml" "/repo/specs/deep" "../shared/a.sh") as (_ & _ & E & _);
    [reflexivity|reflexivity|reflexivity|discriminate|].
  split; [reflexivity|]. destruct E as [Hb E]; [vm_compute; reflexivity..|].
  assert (Hc : rebaseLocalSourcePath "/repo/specs/inc.yaml" "/repo/specs/deep" "../shared/a.sh" = "../../shared/a.sh") by (vm_compute; reflexivity).
  rewrite Hb, Hc in E. rewrite E. vm_compute. reflexivity.
Defined.

(** ** The environment of named specs *)

(** Images of gate rules without a variable. *)
Definition plain_rule (item : json) : bool :=
  match item with
  | JObj rule => match obj_get "image" rule with Some (JStr image) => negb (contains image "$") | _ => true end
  | _ => true
  end.

Definition plain_gate (spec : fields) : bool :=
  match obj_get "build_gate" spec with
  | Some (JObj bg) => match obj_get "images" bg with Some (JArr images) => forallb plain_rule images | _ => true end
  | _ => true
  end.

Definition host_with (env : string → option string) (files : string → CatalogFile) : GateHost := {| host_env := env; read_catalog := files |}.

Lemma no_match {A} (m : bytes → option (A * bytes)) (c : ascii) : (∀ l, head l ≠ Some c → m l = None) →
  ∀ n l, c ∉ l → length l ≤ n → pieces m n l = inl <$> l.
Proof.
  intros Hm n. induction n as [|n IH]; intros l Hc Hl; [by destruct l; [|cbn in Hl; lia]|]. cbn [pieces]. rewrite Hm.
  - destruct l as [|x l]; [done|]. cbn in Hl. apply not_elem_of_cons in Hc as [_ Hc]. rewrite IH by (done || lia). done.
  - destruct l; [done|]. apply not_elem_of_cons in Hc as [Hc _]. intros [= ->]. done.
Qed.

Lemma strip_other c p l : head l ≠ Some c → strip (c :: p) l = None.
Proof. intros Hh. destruct (strip (c :: p) l) as [l'|] eqn:E; [|done]. apply strip_spec in E as ->. by destruct Hh. Qed.

Lemma no_stack_placeholder l : head l ≠ Some "$"%char → stack_placeholder l = None.
Proof. intros Hh. unfold stack_placeholder. change (to_bytes "${stack.") with ("$"%char :: to_bytes "{stack."). by rewrite strip_other. Qed.

Lemma no_env_placeholder l : head l ≠ Some "$"%char → env_placeholder l = None.
Proof.
  intros Hh. unfold env_placeholder. change (to_bytes "${") with ["$"%char; "{"%char]. change (to_bytes "$") with ["$"%char]. by rewrite !strip_other.
Qed.

Lemma contains_dollar s : contains s "$" = false → "$"%char ∉ to_bytes s.
Proof.
  unfold contains. change (to_bytes "$") with ["$"%char]. generalize (to_bytes s). intros l. induction l as [|x l IH]; cbn [contains_bytes]; [by intros _ ?%elem_of_nil|].
  intros [H1 H2]%orb_false_iff. apply not_elem_of_cons. split; [|by apply IH]. intros <-. apply bool_decide_eq_false in H1. apply H1. cbn. rewrite decide_True by done. eauto.
Qed.

Lemma placeholders_text A (l : bytes) : placeholders (inl <$> l : list (ascii + A)) = [].
Proof. by induction l. Qed.

Lemma replaced_text A (g : A → string) (l : bytes) : replaced g (inl <$> l) = of_bytes l.
Proof. unfold replaced. f_equal. induction l as [|x l IH]; [done|]. cbn. by f_equal. Qed.

Lemma plain_template env stack image : contains image "$" = false → expandImageTemplateWithLookup env image stack = inr image.
Proof.
  intros Hc%contains_dollar.
  assert (Hf : ∀ A (m : bytes → option (A * bytes)), (∀ l, head l ≠ Some "$"%char → m l = None) → find_all m image = inl <$> to_bytes image).
  { intros A m Hm. unfold find_all. by apply (no_match m "$"%char). }
  unfold expandImageTemplateWithLookup.
  by rewrite (Hf string _ no_stack_placeholder), placeholders_text, replaced_text, of_to, (Hf string _ no_env_placeholder), placeholders_text, replaced_text, of_to.
Qed.

Section SameEnvironment.
Context `{GoFmt} (env1 env2 : string → option string) (cat1 cat2 : string → CatalogFile) (allow : list string).
Context (Hsame : ∀ x, x ∈ allow → env1 x = env2 x).

Lemma same_lookup x : snapshotNamedSpecEnvironment allow env1 x = snapshotNamedSpecEnvironment allow env2 x.
Proof using Hsame. unfold snapshotNamedSpecEnvironment. case_decide; [by apply Hsame|done]. Qed.

Lemma same_value raw :
  expandSpecEnvValue (snapshotNamedSpecEnvironment allow env1) raw = expandSpecEnvValue (snapshotNamedSpecEnvironment allow env2) raw.
Proof using Hsame.
  unfold expandSpecEnvValue. destruct (negb (contains raw "$")); [done|].
  assert (Hm : filter (λ n, snapshotNamedSpecEnvironment allow env1 n = None) (placeholders (find_all env_placeholder raw)) =
               filter (λ n, snapshotNamedSpecEnvironment allow env2 n = None) (placeholders (find_all env_placeholder raw)))
    by (apply list_filter_iff; intros x; by rewrite same_lookup).
  cbv zeta. rewrite Hm. destruct (decide _); [done|]. f_equal. unfold replaced. f_equal. apply list_bind_ext; [|done]. intros [c|x]; [done|]. by rewrite same_lookup.
Qed.

Lemma traverse_ext {A B} (f g : nat → A → CompileError + B) l : (∀ i x, x ∈ l → f i x = g i x) → ∀ i, traverse f i l = traverse g i l.
Proof.
  intros Hf. induction l as [|x l IH]; intros i; [done|]. cbn [traverse]. rewrite (Hf i x (list_elem_of_here _ _)).
  rewrite (IH (λ i y Hy, Hf i y (list_elem_of_further _ _ _ Hy))). done.
Qed.

Lemma same_fields strict fs :
  expand_fields (snapshotNamedSpecEnvironment allow env1) strict fs = expand_fields (snapshotNamedSpecEnvironment allow env2) strict fs.
Proof using Hsame. apply traverse_ext. intros i [k v] _. cbn. destruct v; try done. by rewrite same_value. Qed.

Lemma same_envs spec :
  resolveEnvsInPlace (snapshotNamedSpecEnvironment allow env1) spec = resolveEnvsInPlace (snapshotNamedSpecEnvironment allow env2) spec.
Proof using Hsame. unfold resolveEnvsInPlace. destruct (obj_get "envs" spec) as [[| | | | | |envs]|]; try done. by rewrite same_fields. Qed.

Lemma same_image spec :
  resolveImageInSection (snapshotNamedSpecEnvironment allow env1) spec = resolveImageInSection (snapshotNamedSpecEnvironment allow env2) spec.
Proof using Hsame. unfold resolveImageInSection. destruct (obj_get "image" spec) as [[| | | |s| |envs]|]; try done; [by rewrite same_value|by rewrite same_fields]. Qed.

Lemma on_steps_ext f g spec : (∀ step, f step = g step) → on_steps f spec = on_steps g spec.
Proof.
  intros Hf. unfold on_steps. destruct (steps_of spec) as [steps|]; [|done].
  rewrite (traverse_ext _ (λ _ s, match s with JObj step => JObj <$> g step | _ => inr s end)); [done|]. intros i [] _; try done. by rewrite Hf.
Qed.

Lemma plain_rules env cat bg : match obj_get "images" bg with Some (JArr images) => forallb plain_rule images | _ => true end = true →
  @resolveBuildGateImageRulesInPlace _ (host_with env cat) bg = @resolveBuildGateImageRulesInPlace _ (host_with env1 cat1) bg.
Proof.
  unfold resolveBuildGateImageRulesInPlace. destruct (obj_get "images" bg) as [[| | | | |images|]|]; try done. intros Hp.
  rewrite (traverse_ext _ (@resolve_rule _ (host_with env1 cat1))); [done|]. intros i x Hx. rewrite forallb_forall in Hp.
  specialize (Hp x (proj1 (list_elem_of_In _ _) Hx)). destruct x as [| | | | | |rule]; try done. cbn in Hp |- *.
  destruct (obj_get "image" rule) as [[| | | |image| |]|]; try done. apply negb_true_iff in Hp. unfold mbind, compile_bind. destruct (stackExpectationFromBuildGateRule rule i) as [e|st]; [done|]. unfold ExpandImageTemplate. by rewrite !plain_template.
Qed.

Lemma on_steps_gate f spec spec' : on_steps f spec = inr spec' → obj_get "build_gate" spec' = obj_get "build_gate" spec.
Proof.
  unfold on_steps. destruct (steps_of spec) as [steps|]; [|by intros [= ->]]. unfold mbind, compile_bind.
  destruct (traverse _ 0 steps); [done|]. intros [= <-]. by rewrite set_other.
Qed.

Lemma same_preprocess spec : plain_gate spec = true →
  @preprocessMigsSpecInPlace _ (host_with env1 cat1) (snapshotNamedSpecEnvironment allow env1) spec =
  @preprocessMigsSpecInPlace _ (host_with env2 cat2) (snapshotNamedSpecEnvironment allow env2) spec.
Proof using Hsame.
  intros Hp. unfold preprocessMigsSpecInPlace. assert (Hi : @resolveImageEnvInPlace _ (host_with env1 cat1) (snapshotNamedSpecEnvironment allow env1) spec =
    @resolveImageEnvInPlace _ (host_with env2 cat2) (snapshotNamedSpecEnvironment allow env2) spec).
  { unfold resolveImageEnvInPlace. rewrite (on_steps_ext _ _ spec same_image).
    destruct (on_steps (resolveImageInSection (snapshotNamedSpecEnvironment allow env2)) spec) as [e|spec'] eqn:Eo; [done|]. unfold mbind, compile_bind.
    apply on_steps_gate in Eo. unfold plain_gate in Hp. rewrite <-Eo in Hp. destruct (obj_get "build_gate" spec') as [[| | | | | |bg]|]; try done.
    by rewrite (plain_rules env2 cat2 bg). }
  rewrite Hi. clear Hi. destruct (resolveImageEnvInPlace _ spec) as [e|spec']; [done|]. unfold mbind, compile_bind. rewrite same_envs.
  destruct (resolveEnvsInPlace _ spec') as [e|spec'']; [done|]. apply on_steps_ext, same_envs.
Qed.

End SameEnvironment.

(** C31. A named spec sees the allowed variables only. Two servers whose environments agree
    on the allowed variables compile a spec of a repository to the same result, if its gate
    images are written out. *)
Theorem named_spec_environment `{GoFmt} `{SpecLib} `{YamlLib} env1 env2 cat1 cat2 allow src records path stepEnvs :
  (∀ x, x ∈ allow → env1 x = env2 x) →
  (∀ file spec spec1 spec2, src_files src !! path = Some file → parseSpecInputToMap src file (dir path) = inr spec →
    expandSpecRefsInPlace src spec path = inr spec1 → applyStepEnvOverridesInPlace spec1 stepEnvs = inr spec2 → plain_gate spec2 = true) →
  @compile_named _ _ (host_with env1 cat1) _ src allow records path stepEnvs =
  @compile_named _ _ (host_with env2 cat2) _ src allow records path stepEnvs.
Proof.
  intros Hsame Hplain. unfold compile_named, BuildSelected. unfold mbind, compile_bind. destruct (src_files src !! path) as [file|] eqn:Ef; [|done].
  cbn [required]. destruct (parseSpecInputToMap src file (dir path)) as [e|spec] eqn:Ep; [done|].
  destruct (expandSpecRefsInPlace src spec path) as [e|spec1] eqn:Ee; [done|]. change (selectStepInPlace spec1 "") with (inr spec1 : CompileError + fields). cbv iota beta.
  cbn [ov_StepEnvs]. destruct (applyStepEnvOverridesInPlace spec1 stepEnvs) as [e|spec2] eqn:Eo; [done|].
  rewrite (same_preprocess env1 env2 cat1 cat2 allow Hsame spec2); [done|]. by eapply Hplain.
Qed.

(** A name of a variable. *)
Definition env_name (x : string) : bool :=
  match to_bytes x with c :: l => name_first c && forallb name_char l | [] => false end.

Lemma take_all_name l : forallb name_char l = true → take_name l = (l, []).
Proof. induction l as [|c l IH]; [done|]. cbn. intros [Hc Hl]%andb_true_iff. by rewrite Hc, IH. Qed.

Lemma name_no_dollar l : forallb name_char l = true → "$"%char ∉ l.
Proof. intros Hl Hin. rewrite forallb_forall in Hl. specialize (Hl "$"%char (proj1 (list_elem_of_In _ _) Hin)). discriminate Hl. Qed.

Lemma pieces_first {A} (m : bytes → option (A * bytes)) c l : pieces m (length (c :: l)) (c :: l) =
  match m (c :: l) with Some (x, rest) => inr x :: pieces m (length l) rest | None => inl c :: pieces m (length l) l end.
Proof. done. Qed.

(** A template that is one variable stands for its value. *)
Lemma variable_template env stack x value : env_name x = true → env x = Some value →
  expandImageTemplateWithLookup env ("$" +:+ x) stack = inr value.
Proof.
  intros Hx Hv. unfold env_name in Hx. destruct (to_bytes x) as [|c l] eqn:Ex; [done|]. apply andb_true_iff in Hx as [Hc Hl].
  assert (Hall : forallb name_char (c :: l) = true) by (cbn; rewrite Hl, andb_true_r; unfold name_char; by rewrite Hc).
  assert (Hb : to_bytes ("$" +:+ x) = "$"%char :: c :: l) by (rewrite to_bytes_app, Ex; done).
  assert (Hbrace : "{"%char ≠ c) by (intros <-; discriminate Hc).
  assert (Hs : ∀ p, strip ("$"%char :: "{"%char :: p) ("$"%char :: c :: l) = None) by (intros p; cbn [strip]; by rewrite decide_True, decide_False).
  assert (Hf : find_all stack_placeholder ("$" +:+ x) = inl <$> to_bytes ("$" +:+ x)).
  { unfold find_all. rewrite Hb, pieces_first. unfold stack_placeholder at 1. change (to_bytes "${stack.") with ("$"%char :: "{"%char :: to_bytes "stack.").
    rewrite Hs. cbn [mbind option_bind].
    by rewrite (no_match stack_placeholder "$"%char no_stack_placeholder _ (c :: l) (name_no_dollar _ Hall)). }
  assert (Hq : find_all env_placeholder ("$" +:+ x) = [inr x]).
  { unfold find_all. rewrite Hb, pieces_first. unfold env_placeholder at 1. change (to_bytes "${") with ["$"%char; "{"%char]. rewrite Hs.
    change (to_bytes "$") with ["$"%char]. cbn [strip]. rewrite decide_True by done. cbn [mbind option_bind]. unfold name_at. rewrite Hc, (take_all_name _ Hall).
    cbn [fst snd]. rewrite <-Ex, of_to. by rewrite Ex. }
  unfold expandImageTemplateWithLookup. rewrite Hf, placeholders_text, replaced_text, of_to, Hq. cbv zeta.
  rewrite !decide_False by (unfold placeholders; cbn; rewrite ?filter_cons, ?Hv; intros Hn; by apply Hn).
  f_equal. unfold replaced. cbn. by rewrite Hv, app_nil_r, of_to.
Qed.

Lemma traverse_at {A B} (f : nat → A → CompileError + B) l : ∀ k l' i x, traverse f k l = inr l' → l !! i = Some x →
  ∃ y, l' !! i = Some y ∧ f (k + i) x = inr y.
Proof.
  induction l as [|z l IH]; intros k l' i x E Hi; [done|]. cbn [traverse] in E. unfold mbind, compile_bind in E.
  destruct (f k z) as [e|y] eqn:Ez; [done|]. destruct (traverse f (S k) l) as [e|ys] eqn:Er; [done|]. injection E as <-.
  destruct i as [|i]; [injection Hi as <-; exists y; by rewrite Nat.add_0_r|]. destruct (IH _ _ _ _ Er Hi) as (y' & Hy & Hf).
  exists y'. split; [done|]. by rewrite <-Nat.add_succ_comm.
Qed.

Lemma resolveEnvs_gate lookup spec spec' : resolveEnvsInPlace lookup spec = inr spec' → obj_get "build_gate" spec' = obj_get "build_gate" spec.
Proof.
  unfold resolveEnvsInPlace. destruct (obj_get "envs" spec) as [[| | | | | |envs]|]; try (by intros [= <-]). unfold mbind, compile_bind.
  destruct (expand_fields lookup true envs); [done|]. intros [= <-]. by rewrite set_other.
Qed.

(** The gate of a preprocessed spec: its image rules, expanded in the environment of the process. *)
Lemma preprocessed_gate `{GoFmt} `{GateHost} lookup spec spec' bg : preprocessMigsSpecInPlace lookup spec = inr spec' →
  obj_get "build_gate" spec = Some (JObj bg) →
  ∃ bg', obj_get "build_gate" spec' = Some (JObj bg') ∧ resolveBuildGateImageRulesInPlace bg = inr bg'.
Proof.
  unfold preprocessMigsSpecInPlace, resolveImageEnvInPlace. unfold mbind, compile_bind. intros E Hbg.
  destruct (on_steps (resolveImageInSection lookup) spec) as [e|s1] eqn:E1; [done|]. apply on_steps_gate in E1. rewrite Hbg in E1. rewrite E1 in E.
  destruct (resolveBuildGateImageRulesInPlace bg) as [e|bg'] eqn:E2; [done|].
  destruct (resolveEnvsInPlace lookup _) as [e|s2] eqn:E3; [done|]. apply resolveEnvs_gate in E3. apply on_steps_gate in E.
  exists bg'. split; [|done]. rewrite E, E3, obj_get_set. by rewrite decide_True.
Qed.

(** C32. The image of a gate rule is expanded in the whole environment of the server, whatever
    the allowlist: in every compiled spec of a repository the image of each rule is what its
    template stands for there, and a rule whose image is one variable gets the value of that
    variable, listed or not. (The compilation of local files, a parameter here, leaves the
    gate alone.) *)
Theorem unlisted_variable_leaks `{GoFmt} `{SpecLib} `{YamlLib} env cat allow src records path stepEnvs file spec spec1 spec2 bg images i rule image out :
  (∀ d m m', records d m = inr m' → obj_get "build_gate" m' = obj_get "build_gate" m) →
  src_files src !! path = Some file → parseSpecInputToMap src file (dir path) = inr spec →
  expandSpecRefsInPlace src spec path = inr spec1 → applyStepEnvOverridesInPlace spec1 stepEnvs = inr spec2 →
  obj_get "build_gate" spec2 = Some (JObj bg) → obj_get "images" bg = Some (JArr images) →
  images !! i = Some (JObj rule) → obj_get "image" rule = Some (JStr image) →
  @compile_named _ _ (host_with env cat) _ src allow records path stepEnvs = inr (Some (JObj out)) →
  ∃ bg' images' rule' stack expanded, obj_get "build_gate" out = Some (JObj bg') ∧ obj_get "images" bg' = Some (JArr images') ∧
    images' !! i = Some (JObj rule') ∧ obj_get "image" rule' = Some (JStr expanded) ∧
    stackExpectationFromBuildGateRule rule i = inr stack ∧ expandImageTemplateWithLookup env image stack = inr expanded ∧
    ∀ x value, image = "$" +:+ x → env_name x = true → env x = Some value → expanded = value.
Proof.
  intros Hrec Hf Hp He Ho Hbg Himg Hi Himage. unfold compile_named, BuildSelected. unfold mbind, compile_bind. rewrite Hf. cbn [required].
  rewrite Hp, He. change (selectStepInPlace spec1 "") with (inr spec1 : CompileError + fields). cbv iota beta. cbn [ov_StepEnvs]. rewrite Ho.
  destruct (preprocessMigsSpecInPlace _ spec2) as [e|spec3] eqn:Epre; [done|].
  destruct (preprocessed_gate _ _ _ _ Epre Hbg) as (bg' & Hbg' & Hr). intros E.
  assert (Hout : obj_get "build_gate" out = Some (JObj bg')).
  { unfold override_envs, override_step0 in E. cbn [ov_Envs ov_Image ov_Command] in E. rewrite !(bool_decide_eq_true_2 ("" = "")) in E by done.
    rewrite andb_true_l, orb_true_r in E. repeat (case_match; simplify_eq; try done); simplify_eq;
      match goal with Hm : records _ _ = inr _ |- _ => by rewrite (Hrec _ _ _ Hm) end. }
  unfold resolveBuildGateImageRulesInPlace in Hr. rewrite Himg in Hr. unfold mbind, compile_bind in Hr.
  destruct (traverse resolve_rule 0 images) as [e|images'] eqn:Et; [done|]. injection Hr as <-.
  destruct (traverse_at _ _ _ _ _ _ Et Hi) as (item & Hitem & Hres). cbn [Nat.add resolve_rule] in Hres. rewrite Himage in Hres. unfold mbind, compile_bind in Hres.
  destruct (stackExpectationFromBuildGateRule rule i) as [e|stack] eqn:Es; [done|].
  destruct (ExpandImageTemplate image stack) as [e|expanded] eqn:Ee; [done|]. injection Hres as <-.
  exists (obj_set "images" (JArr images') bg), images', (obj_set "image" (JStr expanded) rule), stack, expanded.
  split_and!; [done|rewrite obj_get_set; by rewrite decide_True|done|rewrite obj_get_set; by rewrite decide_True|done|exact Ee|].
  intros x value -> Hx Hv. unfold ExpandImageTemplate in Ee. cbn [host_env host_with] in Ee. rewrite (variable_template env stack x value Hx Hv) in Ee. by injection Ee.
Qed.

(** ** Samples *)

#[local] Instance no_yaml : YamlLib := {| yaml_map := λ _, None |}.

(** A repository of JSON files. *)
Definition json_repo (files : list (string * fields)) : Source :=
  mkSource (resolve "/repo") (list_to_map ((λ f, (f.1, mkSpecFile (Some (JObj f.2)) None)) <$> files)) ∅.

Definition one_step (image : string) : fields := [("steps", JArr [JObj [("image", JStr image)]])].

(** The environment of a server: what it may show, and what it may not. *)
Definition server_env (secret name : string) : option string :=
  if decide (name = "REGISTRY") then Some "registry.example" else if decide (name = "DB_PASSWORD") then Some secret else None.

Definition no_catalog (_ : string) : CatalogFile := CatalogMissing.

Definition same_records (_ : string) (spec : fields) : CompileError + fields := inr spec.

Definition compiled (secret : string) (spec : fields) : CompileError + option json :=
  @compile_named _ _ (host_with (server_env secret) no_catalog) _ (json_repo [("/repo/mig.yaml", spec)]) ["REGISTRY"] same_records "/repo/mig.yaml" ∅.

Lemma named_spec_environment_witness :
  compiled "a" (one_step "$REGISTRY/img") = compiled "b" (one_step "$REGISTRY/img") ∧
  compiled "b" (one_step "$REGISTRY/img") = inr (Some (JObj (one_step "registry.example/img"))) ∧
  compiled "a" (one_step "$DB_PASSWORD") = inl (CeMissing "DB_PASSWORD").
Proof.
  split; [|split; vm_compute; reflexivity]. apply named_spec_environment.
  - intros x Hx%list_elem_of_singleton. subst x. reflexivity.
  - intros file spec spec1 spec2 Hf Hp He Ho. vm_compute in Hf. injection Hf as <-. vm_compute in Hp. injection Hp as <-.
    vm_compute in He. injection He as <-. vm_compute in Ho. injection Ho as <-. vm_compute. reflexivity.
Defined.

Definition leaking : fields := one_step "img" ++ [("build_gate", JObj [("images", JArr [JObj [("stack", JObj [("language", JStr "java"); ("release", JStr "17")]);
  ("image", JStr "$DB_PASSWORD")]])])].

Lemma unlisted_variable_leaks_witness :
  ∃ out bg images rule, compiled "hunter2" leaking = inr (Some (JObj out)) ∧ obj_get "build_gate" out = Some (JObj bg) ∧
    obj_get "images" bg = Some (JArr images) ∧ images !! 0 = Some (JObj rule) ∧ obj_get "image" rule = Some (JStr "hunter2").
Proof.
  assert (Hc : ∃ out, compiled "hunter2" leaking = inr (Some (JObj out))) by (eexists; vm_compute; reflexivity).
  destruct Hc as [out Hc]. exists out.
  edestruct (unlisted_variable_leaks (server_env "hunter2") no_catalog ["REGISTRY"] (json_repo [("/repo/mig.yaml", leaking)]) same_records
    "/repo/mig.yaml" ∅) as (bg' & images' & rule' & stack & expanded & H1 & H2 & H3 & H4 & _ & _ & H5).
  - intros d m m' E. injection E as <-. reflexivity.
  - vm_compute. reflexivity.
  - vm_compute. reflexivity.
  - vm_compute. reflexivity.
  - vm_compute. reflexivity.
  - vm_compute. reflexivity.
  - vm_compute. reflexivity.
  - instantiate (2 := 0). reflexivity.
  - reflexivity.
  - exact Hc.
  - exists bg', images', rule'. rewrite (H5 "DB_PASSWORD" "hunter2" eq_refl eq_refl eq_refl) in H4.
    split; [exact Hc|]. split; [exact H1|]. split; [exact H2|]. split; [exact H3|exact H4].
Defined.

(** Steps of two specs that refer to each other, without a step that depends on itself. *)
Definition a_ref_step (name image : string) : json := JObj [("name", JStr name); ("image", JStr image)].

Definition crossed : Source := json_repo
  [("/repo/a.yaml", [("steps", JArr [JObj [("ref", JStr "b.yaml:y")]; a_ref_step "w" "img"])]);
   ("/repo/b.yaml", [("steps", JArr [a_ref_step "y" "img"; JObj [("ref", JStr "a.yaml:w")]])])].

(** References that only cross are refused as a cycle: all steps of a spec are replaced
    before the one that is asked for is selected. *)
Theorem crossed_references_refused :
  ∃ cycle, expandSpecRefsInPlace crossed [("steps", JArr [JObj [("ref", JStr "b.yaml:y")]; a_ref_step "w" "img"])] "/repo/a.yaml" = inl (CeRefCycle cycle).
Proof. eexists. vm_compute. reflexivity. Qed.

(** An entry of a mapping that has a merge key after it. *)
Lemma merge_keys_exact_witness :
  ∃ merged, expandDeepMergeKeys (YMap [(str_key "a", YScalar "" "own"); (str_key "<<", YMap [(str_key "a", YScalar "" "merged")])]) = Some (YMap merged) ∧
    find_key "a" merged = Some (YScalar "" "merged").
Proof.
  set (l := [(str_key "a", YScalar "" "own"); (str_key "<<", YMap [(str_key "a", YScalar "" "merged")])]).
  pose proof (merge_keys_exact l l eq_refl) as Hm. destruct (expandDeepMergeKeys (YMap l)) as [n|] eqn:E; [|vm_compute in E; discriminate E].
  destruct Hm as (_ & merged & -> & Hk). exists merged. split; [reflexivity|]. rewrite Hk. reflexivity.
Defined.

(** Includes of one file by another, and back. *)
Definition yaml_repo (files : list (string * ynode)) : Source :=
  mkSource (resolve "/repo") (list_to_map ((λ f, (f.1, mkSpecFile None (Some f.2))) <$> files)) ∅.

Definition an_include (v : string) : ynode := YScalar "!include" v.

Example include_sample :
  composeSpecYAML (yaml_repo [("/repo/inc/step.yaml", YMap [(str_key "in", YSeq [YScalar "!!str" "a.sh:/in/a.sh"]); (str_key "image", YScalar "!!str" "img")])])
    "/repo/.root-spec.yaml" (YMap [(str_key "steps", YSeq [YMap [(str_key "<<", an_include "inc/step.yaml"); (str_key "image", YScalar "!!str" "own")]])])
  = inr (YMap [(str_key "steps", YSeq [YMap [(str_key "in", YSeq [YScalar "!!str" "inc/a.sh:/in/a.sh"]); (str_key "image", YScalar "!!str" "own")]])]).
Proof. vm_compute. reflexivity. Qed.

Example include_cycle_sample :
  composeSpecYAML (yaml_repo [("/repo/a.yaml", YMap [(str_key "steps", an_include "./b.yaml#/steps")]); ("/repo/b.yaml", YMap [(str_key "steps", an_include "./a.yaml#/steps")])])
    "/repo/.root-spec.yaml" (YMap [(str_key "steps", an_include "./a.yaml#/steps")])
  = inl (IncCycle ["/repo/a.yaml#/steps"; "/repo/b.yaml#/steps"; "/repo/a.yaml#/steps"]).
Proof. vm_compute. reflexivity. Qed.

(** ** Overrides of steps *)

Lemma traverse_each {A B} (f : nat → A → CompileError + B) l : ∀ i ys, traverse f i l = inr ys → Forall2 (λ x y, ∃ j, f j x = inr y) l ys.
Proof.
  induction l as [|x l IH]; intros i ys; cbn [traverse]; [intros [= <-]; constructor|]. unfold mbind, compile_bind.
  destruct (f i x) as [e|y] eqn:E; [done|]. destruct (traverse f (S i) l) as [e|zs] eqn:Et; [done|]. intros [= <-]. constructor; [by exists i|by eapply IH].
Qed.

(** The last value assigned to a key. *)
Fixpoint assigned (k : string) (assignments : list string) : option string :=
  match assignments with
  | [] => None
  | a :: rest =>
      match assigned k rest with
      | Some v => Some v
      | None => match splitStepEnvAssignment a with inr (k', v) => if decide (k = k') then Some v else None | inl _ => None end
      end
  end.

Lemma set_assignments_get k assignments : ∀ envs envs', set_assignments envs assignments = inr envs' →
  obj_get k envs' = match assigned k assignments with Some v => Some (JStr v) | None => obj_get k envs end.
Proof.
  induction assignments as [|a rest IH]; intros envs envs'; cbn [set_assignments assigned]; [by intros [= ->]|]. unfold mbind, compile_bind.
  destruct (splitStepEnvAssignment a) as [e|[k' v]]; [done|]. intros Hs. rewrite (IH _ _ Hs). destruct (assigned k rest); [done|].
  rewrite obj_get_set. by case_decide.
Qed.

(** A variable of a step. *)
Definition env_of (step : fields) (k : string) : option json := match obj_get "envs" step with Some (JObj envs) => obj_get k envs | _ => None end.

Definition overridden (overrides : gmap string (list string)) (step step' : fields) : Prop :=
  (∀ k, k ≠ "envs" → obj_get k step' = obj_get k step) ∧
  ∀ k, env_of step' k = match overrides !! step_name step ≫= assigned k with Some v => Some (JStr v) | None => env_of step k end.

Lemma override_step_get assignments step step' : override_step assignments step = inr step' →
  (∀ k, k ≠ "envs" → obj_get k step' = obj_get k step) ∧
  ∀ k, env_of step' k = match assigned k assignments with Some v => Some (JStr v) | None => env_of step k end.
Proof.
  unfold override_step, mbind, compile_bind. destruct (stepEnvMap step) as [e|envs] eqn:Ee; [done|].
  destruct (set_assignments envs assignments) as [e|envs'] eqn:Es; [done|]. intros [= <-]. split; [intros k Hk; by rewrite set_other|].
  intros k. unfold env_of. rewrite obj_get_set, decide_True by done. rewrite (set_assignments_get k _ _ _ Es).
  destruct (assigned k assignments); [done|]. unfold stepEnvMap in Ee. destruct (obj_get "envs" step) as [[| | | | | |fs]|]; simplify_eq; done.
Qed.

Lemma overrides_named overrides steps steps' : apply_overrides overrides steps = inr steps' →
  ∀ name, is_Some (overrides !! name) → name ≠ "" ∧ ∃ step, step ∈ steps ∧ step_name step = name.
Proof.
  intros Ea name [as_ Hn]. unfold apply_overrides in Ea. destruct (forallb _ (map_to_list overrides)) eqn:Ef; [|done]. rewrite forallb_forall in Ef.
  specialize (Ef (name, as_) (proj1 (list_elem_of_In _ _) (proj2 (elem_of_map_to_list _ _ _) Hn))). cbn in Ef.
  apply andb_true_iff in Ef as [Hb Ef%bool_decide_eq_true]. apply negb_true_iff, bool_decide_eq_false in Hb. split; [done|].
  apply list_elem_of_fmap in Ef as (step & -> & Hs). by exists step.
Qed.

(** Values of the caller for steps. They go to the step of that name, the last one for a
    variable wins, and nothing else of the spec changes; a name no step has is refused. *)
Theorem step_overrides_exact spec overrides spec' :
  overrides ≠ ∅ → applyStepEnvOverridesInPlace spec overrides = inr spec' →
  (∀ k, k ≠ "steps" → obj_get k spec' = obj_get k spec) ∧
  ∃ steps steps', steps_of spec = Some (JObj <$> steps) ∧ steps_of spec' = Some (JObj <$> steps') ∧
    Forall2 (overridden overrides) steps steps' ∧ ∀ name, is_Some (overrides !! name) → ∃ step, step ∈ steps ∧ step_name step = name.
Proof.
  intros Hne. unfold applyStepEnvOverridesInPlace. rewrite decide_False by done. unfold mbind, compile_bind.
  destruct (override_targets spec) as [e|steps] eqn:Et; [done|]. destruct (apply_overrides overrides steps) as [e|steps'] eqn:Ea; [done|]. intros [= <-].
  split; [intros k Hk; by rewrite set_other|]. exists steps, steps'. pose proof (overrides_named _ _ _ Ea) as Hnames. split_and!.
  - unfold override_targets, mbind, compile_bind in Et. destruct (steps_of spec) as [js|]; [|done]. cbn [required] in Et.
    destruct (mapM _ js) as [objs|] eqn:Em; [|done]. cbn [required] in Et. destruct (bool_decide _); [|done]. injection Et as ->. f_equal.
    apply mapM_Some_1 in Em. clear -Em. induction Em as [|j o js objs Hj _ IH]; [done|]. cbn. f_equal; [by destruct j; simplify_eq|done].
  - unfold steps_of. rewrite obj_get_set. by rewrite decide_True by done.
  - unfold apply_overrides in Ea. destruct (negb _); [done|]. apply traverse_each in Ea. eapply Forall2_impl; [exact Ea|]. cbn. intros step step' [j Hs]. unfold overridden.
    destruct (decide (step_name step = "")) as [E|E].
    + injection Hs as <-. split; [done|]. intros k. rewrite E. destruct (overrides !! "") as [?|] eqn:Eb; [|done]. by destruct (Hnames "") as [? ?].
    + destruct (overrides !! step_name step) as [as_|]; [|injection Hs as <-; by split]. by apply override_step_get.
  - intros name Hn. by apply Hnames.
Qed.

Lemma step_overrides_exact_witness :
  ∃ spec', applyStepEnvOverridesInPlace [("steps", JArr [JObj [("name", JStr "s"); ("envs", JObj [("A", JStr "1")])]])] {["s" := ["A=2"; "A=3"]]} = inr spec' ∧
    ∃ step', steps_of spec' = Some [JObj step'] ∧ env_of step' "A" = Some (JStr "3").
Proof.
  set (spec := [("steps", JArr [JObj [("name", JStr "s"); ("envs", JObj [("A", JStr "1")])]])]).
  destruct (applyStepEnvOverridesInPlace spec {["s" := ["A=2"; "A=3"]]}) as [e|spec'] eqn:E; [vm_compute in E; discriminate E|]. exists spec'. split; [reflexivity|].
  destruct (step_overrides_exact spec {["s" := ["A=2"; "A=3"]]} spec') as (_ & steps & steps' & Hs & Hs' & Hf & _); [discriminate|exact E|].
  destruct steps as [|step [|? ?]]; try discriminate Hs. injection Hs as <-. inversion Hf as [|? step' ? tl [_ Hk] Htl]. subst. inversion Htl. subst.
  exists step'. split; [exact Hs'|]. rewrite Hk. vm_compute. reflexivity.
Defined.

(** ** From a compiled spec to its jobs *)

Lemma built_valid `{GoFmt} `{SpecLib} `{GateHost} `{YamlLib} src lookup overlay records path selector o j :
  BuildSelected src lookup overlay records path selector o = inr (Some j) → ∃ spec, ParseMigSpecJSON (RawJson j) = inr spec.
Proof.
  unfold BuildSelected, mbind, compile_bind. intros Hb. repeat (case_match; simplify_eq; try done); by eauto.
Qed.

(** Whatever the compiler returns can be planned: a spec of a repository that the server has
    compiled gives the jobs of a run, one by one those of its steps and gates. *)
Theorem compiled_spec_planned `{GoFmt} `{SpecLib} `{GateHost} `{YamlLib} src allow records path stepEnvs j :
  compile_named src allow records path stepEnvs = inr (Some j) →
  ∃ spec plans, ParseMigSpecJSON (RawJson j) = inr spec ∧ planJobsFromSpec j = Some plans ∧ jp_Name <$> plans = dr_name <$> drafts spec.
Proof.
  intros Hc. unfold compile_named in Hc. apply built_valid in Hc as [spec Hs]. destruct (plan_spec j spec Hs) as (plans & Hp & _). exists spec, plans.
  split_and!; [done|done|]. by apply (plan_names j).
Qed.

Lemma compiled_spec_planned_witness :
  ∃ plans, planJobsFromSpec (JObj (one_step "registry.example/img")) = Some plans ∧ jp_Name <$> plans = ["pre-gate"; "mig-0"; "post-gate"].
Proof.
  assert (Hc : compiled "x" (one_step "$REGISTRY/img") = inr (Some (JObj (one_step "registry.example/img")))) by (vm_compute; reflexivity).
  destruct (compiled_spec_planned _ _ _ _ _ _ Hc) as (spec & plans & Hs & Hp & Hn). exists plans. split; [exact Hp|]. rewrite Hn.
  vm_compute in Hs. injection Hs as <-. vm_compute. reflexivity.
Defined.
